(* ===== verification/_CoqProject ===== *)
-Q . S2P
Prelude.v
Crypto.v
Wire.v
Announce.v
Net.v
Dht.v
Routing.v
Encryption.v
Fragment.v
LinkMessage.v
LinkResource.v
LinkProgress.v
Link.v
Kiss.v
Bridge.v
Ifaces.v
Serial.v
PeerTable.v
Paths.v
Discovery.v
Reach.v
Pieces.v
Stream.v
Acks.v
Transfer.v
Direct.v
Offline.v
Held.v
Reputation.v
Chunks.v
Pool.v
Forward.v
Timers.v
Relay.v
Monitor.v
Gossip.v
Maintain.v
Circuit.v
Node.v
Swarm.v
RelayMain.v
Linked.v
Api.v
Update.v
Apps.v
