(* ===== verification/Prelude.v ===== *)
(** * SyncSwarm: a verification development

    SyncSwarm is a Go library for peer-to-peer transfers over an untrusted swarm:
    nodes with key-derived identities find each other (announces, gossip, a
    Kademlia table), keep paths, and send payloads cut into sealed, erasure-coded
    fragments over onion paths, routed hops or encrypted links, on UDP, TCP
    bridges or radio modems.  This library models the packages below as executable
    functions of their state and proves what makes each of them correct.

    ** Files and the sources they model (under src/internal/)

    - [Prelude] (this file): results of fallible functions, bytes and machine
      integers at their width, big-endian words, strings, hexadecimal, the generic
      lemmas, hints and tactics.
    - [Crypto]: the primitives of Go's [crypto] packages as the class [CryptoOps],
      their documented behaviour as [CryptoLaws], and a concrete instance.
    - [Wire]: protocol/packet.go — [Packet], [MarshalBinary], [UnmarshalBinary],
      [WritePacket]/[ReadPacket], [canonicalBytes], [Sign]/[Verify], node IDs.
    - [Announce]: protocol/announce.go.
    - [Net]: what the sources use of Go's [net] for addresses and subnets.
    - [Dht]: dht/dht.go — identifiers, XOR metric, buckets, iterative lookup.
    - [Routing]: routing/routing.go — path selection and fragment spreading.
    - [Encryption]: encryption/encryption.go — sealers ([SealerPair] is what a
      sealer and its opener promise to the fragment layer), onion layers, KEM.
    - [Fragment]: fragment/fragment.go, rs.go — proved against [SealerPair] and the
      erasure-code contract [RSLaws].
    - [LinkMessage], [LinkResource], [Link]: link/message.go, resource.go, link.go
      and router.go — messages, reliable resources, the handshake, the router;
      [LinkProgress] — when a reliable resource completes.
    - [Kiss]: iface/kiss.go, duty.go — framing and the transmit limiter.
    - [Bridge]: iface/bridgeauth.go, tcp.go — framing and mutual authentication.
    - [Ifaces]: iface/iface.go, udp.go, auto.go, radio.go, serial.go — datagram
      interfaces and serial ports; tcp.go — [Ifaces.Server] and [Ifaces.Client], the
      goroutines of the listener and of the reconnecting client with [Close].
      [Serial]: serial_linux.go, serial_darwin.go — the termios settings of a port.
    - [PeerTable], [Paths], [Discovery], [Reach]: discovery/discovery.go,
      announce.go, routed.go, dht.go, reachability.go — the peer table, the path
      table and flood filter, the read loop with all its handlers, AutoNAT.
    - [Gossip]: the rest of discovery — advertising, gossip, latency probes, path
      resolution, bridge liveness, FIND_NODE, dial-back, peercache.go.
    - [Maintain]: the goroutines of the running service — fan-in, read loop, tickers,
      the probes of a latency round, dial-back rounds, [Stop] — as a step machine.
    - [Pieces], [Stream], [Acks], [Transfer]: transfer/transfer.go, streaming.go,
      anonymity.go — fragments cut into pieces and packets, the block assembler and
      the sender of streams, the acknowledgement table, receiving and dispatch.
    - [Direct], [Forward], [Relay]: transfer/transfer.go, reservation.go — the send
      and receive loops of a direct connection; targeted sends with their fail-closed
      checks, onions, reply blocks, routed sends, resumption; what a relay does with
      an onion, acknowledging.
    - [Offline], [Chunks]: transfer/storeforward.go, storage/storage.go — blobs held
      for offline recipients in memory and on disk, chunk files.  [Offline] takes an
      operation as one step; [Held] has the goroutines of the same code interleave.
    - [Reputation], [Pool], [Circuit], [Monitor]: reputation.go, connpool.go and
      tracing.go, reservation.go and io_deadline.go, monitoring/monitoring.go —
      challenges and standing, the pool under interleaving, circuits on both sides,
      admission, deadlines, counters.
    - [Timers]: the random waits of anonymity.go and announce.go, the ticker loops.
    - [Node]: swarmsync/swarmsync.go with [NewTransfer], the setters and
      encryption/identity.go — options, construction, lifecycle, sends.
    - [Swarm]: sender, relays and destination made by [Node.New], with their
      transports, from [SendTo] to the application's callback and back.
    - [Linked]: the link manager with the routers of its links as swarmsync.go and
      announce.go use them — dialling, sends over links, inbound frames.
    - [RelayMain]: relay/main.go.  [Api]: the rest of swarmsync.go, mobile/mobile.go.
    - [Update]: update/, which nothing calls, and encryption's [GenerateKeys].
    - [Apps]: the example programs.

    The parts meet as in the program.  [Discovery.listen] is the one reader of a
    node's frames; it files peers ([PeerTable]) and paths ([Paths]) and hands link
    packets to [Link] and routed payloads to [Relay.ingestRoutedFragment].
    [Forward.SendDataTracked] takes peers from [PeerTable], a path from [Routing],
    seals with [Encryption], cuts with [Pieces] and waits on [Acks]; what it writes
    is read by [Direct.handleConnection] or, onion by onion, by
    [Relay.handleRelayBlob], which ends in [Transfer.ingestForwardedFragment] or in
    [Offline.storeOffline].  [Node.New] puts one node together from its options, and
    [RelayMain.relay_main] makes the options of a relay from flags and environment.

    ** How the code is represented

    A component's struct is a Record (only the fields its operations use), its
    methods are functions from state to state with what they return, send or
    deliver.  What a send hands to the network is a log in [Forward.world].  A mutex makes a method atomic, so an interleaving of goroutines is a
    sequence of method calls; a method that waits is split into its start and its
    finish, and goroutines that share state ([Pool], [Ifaces], [Circuit], [Maintain], [Held],
    [Timers]) are step machines whose events are their atomic actions, so a theorem about every event
    list is about every interleaving.  Objects shared by pointer carry an identity ([Link.mg_heap],
    [PeerTable.n_ptr]).  A map is a [gmap]; the order in which Go ranges over it is
    an argument, an arbitrary permutation of its contents.  [time.Now] and the
    bytes drawn from [crypto/rand] are arguments.  Fixed-width arithmetic is
    written with [u32], [u64], [i64] where it can wrap.  A Go panic is a value of
    the outcome type where one is reachable ([Transfer.RPanic]).

    Parameters stand for what the repository does not contain: [CryptoOps] (crypto
    packages), [RSOps] (klauspost/reedsolomon), [LinkJson] and [DiscJson]
    (encoding/json), [GossipJson], [StoreJson] and [ReplyJson] likewise, [SeedOps]
    (ed25519 seeds), [NetOps] (IP parsing and printing).  [CryptoLaws], [RSLaws],
    [SeedLaws] and the laws of the JSON classes state their documented behaviour; each has a concrete instance,
    used in the witnesses.

    ** What the theorems show

    - Encodings: the wire format and KISS round trip over streams; accepted frames
      are well-formed whatever was sent; signed images are injective.
    - Identity: no frame can file a peer under a foreign identity or make it active
      without its key; hearsay never makes a peer active; announces are bound to
      their key; a link proof and a bridge handshake need the expected key.
    - Discovery structures: the Kademlia table's invariant and lookup (total and
      terminating for every answer of the network); a path entry is the best of what was
      offered since it was made, and evictions take the stalest; the flood filter and the duty-cycle limiter equal their unbounded
      specifications; floods of identities cannot eclipse a node; routed packets
      arrive exactly within the hop limit.
    - Paths and onions: relay selection, subnet diversity, onion peeling.
    - Liveness: a reliable resource that the receiver was told of and has not delivered,
      or delivered and remembers, completes after [ceil (parts / window)] undisturbed
      rounds; one whose advertisement was lost never does.
    - Transfers: sealed and Reed-Solomon pipelines, link messages, reliable
      resources, whole transfers, streams, direct connections and forwarded sends
      deliver exactly the data, at the first point where enough of it has arrived, under
      loss, reordering and duplication (where the code keeps no memory of a delivery, what
      is repeated in full is delivered again, and the theorems say so); the
      acknowledgement table refines an unbounded one; every error of a send means
      what it says; reply blocks come back.
    - Anonymity: under strict anonymity with a hop count, or adaptive routing, targeted
      sends and streams of a node with its onion key hand nothing but onions through other
      relays to the network ([Forward.fail_closed]), and so does a node as [Node.New]
      makes it, unless it sends over links ([Node.node_anonymous]); two configured nodes agree on
      sealing ([Node.sealing_agreement]).
    - End to end: an onion-routed send between whole nodes reaches the destination's
      callback and is confirmed ([Swarm.onion_end_to_end], [Swarm.confirmed_end_to_end]);
      a dialled link carries every message sent over it, from the first handshake frame
      on ([Linked.send_to_link_delivers]).
    - Held state: the relay accounts for every blob whatever interleaves
      ([Held.held_account]) and its goroutines implement the atomic operations
      ([Held.held_refines]); offline queues survive restarts and between them are first in, first out; a
      circuit belongs to the node that signed its reservation; pooled connections are
      exclusive; relay standing is a function of the challenge history, and routes, challenges and
      reservations leave out exactly the relays cast out; the counters account for every
      blob a relay is handed.
    - Loops and waits: the calls that send decoys keep their distance and send nothing
      else, and a ticker loop does no round
      without a tick and none after it returned.
    - Connections: a listener serves each admitted connection as if alone, a bridge
      heals, and [Close] ends both after at most what they have in hand: bytes already in
      a goroutine's buffer are read on.
    - The assembled program: nodes are well-formed, a relay is blind, gated by its key
      and stops advertising itself while unreachable.
    - [Example]s record behaviours that differ from the comments of the source.

    ** Fuel

    Loops that are not structural take fuel that is shown to be enough: chunking
    and KISS decoding the length of their input, the lookup its round bound, the
    capping loop of late acknowledgements the size of the table, a stream's loop the
    bytes of its reader, polling for a path the number of intervals before the
    deadline ([Gossip.resolve_poll]), trimming the length of the text
    ([RelayMain.trim_runes_done]), an onion's journey its hops.  [Update.split_loop]
    has inputs for which no fuel is enough, as the code has.

    ** Not modelled

    Sockets, files and terminals of the operating system (what they answer is an
    argument); the periods of tickers, whose ticks are events, and goroutine scheduling
    beyond the step machines; HTTP status pages and logging; the generation of keys and
    of random bytes; the cryptographic, erasure-coding and JSON libraries, which are
    parameters with laws.  [update.ReceiveUpdate] is unfinished in the source.  One-line
    accessors and wrappers that only pass their arguments on have no definition of
    their own.  [Maintain] hands link packets on as events; [Linked] takes them from
    there. *)

From Stdlib Require Export ZArith Lia List Bool Sorted Permutation.
From Stdlib.Strings Require Export String Ascii Byte.
From stdpp Require Export base tactics list gmap strings sorting.

#[global] Open Scope Z_scope.

(** ** Results of fallible Go functions *)

Inductive result (E A : Type) : Type :=
| Ok (a : A)
| Err (e : E).
Arguments Ok {E A} a.
Arguments Err {E A} e.

Declare Scope go_scope.
Delimit Scope go_scope with go.

(** [try x := c in k] is Go's [x, err := c; if err != nil { return err }; k]. *)
Notation "'try' x ':=' c 'in' k" :=
  (match c with Ok x => k | Err e => Err e end)
  (at level 10, x pattern, c at level 100, k at level 200) : go_scope.
#[global] Open Scope go_scope.

Definition result_ok {E A} (r : result E A) : bool :=
  match r with Ok _ => true | Err _ => false end.

(** ** Bytes and byte slices *)

Abbreviation byte := Byte.byte.
Abbreviation bytes := (list Byte.byte).

(** Go's [len], as an [int]. *)
Definition len {A} (l : list A) : Z := Z.of_nat (length l).

Definition byte_to_Z (b : byte) : Z := Z.of_N (Byte.to_N b).

(** Go's conversion [byte(z)]: truncation modulo 256. *)
Definition byte_of_Z (z : Z) : byte :=
  match Byte.of_N (Z.to_N (z mod 256)) with Some b => b | None => x00 end.

(** A Go string is a sequence of bytes. *)
Definition str_bytes (s : string) : bytes := list_byte_of_string s.
Definition bytes_str (b : bytes) : string := string_of_list_byte b.

(** Machine-width conversions: [uint16], [uint32], [uint64], [int64]. *)
Definition u8 (z : Z) : Z := z mod 2 ^ 8.
Definition u16 (z : Z) : Z := z mod 2 ^ 16.
Definition u32 (z : Z) : Z := z mod 2 ^ 32.
Definition u64 (z : Z) : Z := z mod 2 ^ 64.
Definition i64 (z : Z) : Z :=
  let w := z mod 2 ^ 64 in if w <? 2 ^ 63 then w else w - 2 ^ 64.

(** Range predicates. *)
Definition is_u8 (z : Z) : Prop := 0 <= z < 2 ^ 8.
Definition is_u16 (z : Z) : Prop := 0 <= z < 2 ^ 16.
Definition is_u32 (z : Z) : Prop := 0 <= z < 2 ^ 32.
Definition is_u64 (z : Z) : Prop := 0 <= z < 2 ^ 64.
Definition is_i64 (z : Z) : Prop := - 2 ^ 63 <= z < 2 ^ 63.

(** [encoding/binary.BigEndian]: [be_bytes n z] is the [n]-byte big-endian
    image of [z] (what [PutUint16/32/64] store), [be_val] the value read. *)
Fixpoint be_bytes (n : nat) (z : Z) : bytes :=
  match n with
  | O => []
  | S n' => byte_of_Z (Z.shiftr z (8 * Z.of_nat n')) :: be_bytes n' z
  end.

Fixpoint be_val (l : bytes) : Z :=
  match l with
  | [] => 0
  | b :: t => byte_to_Z b * 256 ^ len t + be_val t
  end.

(** ** Slices *)

(** [subslice l i j] is Go's [l[i:j]] for [i <= j <= len(l)]. *)
Definition subslice {A} (l : list A) (i j : nat) : list A := take (j - i) (drop i l).

(** The slicing loop [for i := 0; i < len(data); i += chunkSize] shared by
    [fragment.Split] and [NewResourceSender], from offset [i]; it makes at most
    [length data] iterations. *)
Fixpoint split_loop (fuel : nat) (data : bytes) (chunkSize i : nat) : list bytes :=
  match fuel with
  | O => []
  | S fuel' =>
      if (i <? length data)%nat then
        let e := (i + chunkSize)%nat in
        let e := if (length data <? e)%nat then length data else e in
        subslice data i e :: split_loop fuel' data chunkSize (i + chunkSize)
      else []
  end.

(** A self-delimiting encoding of byte strings, used to instantiate the codecs
    that are parameters of the model: each byte is preceded by [0x01], and [0x00]
    ends the string. *)
Fixpoint esc (l : bytes) : bytes :=
  match l with [] => [x00] | b :: t => x01 :: b :: esc t end.

Fixpoint unesc (l : bytes) : option (bytes * bytes) :=
  match l with
  | x00 :: t => Some ([], t)
  | x01 :: b :: t => match unesc t with Some (v, r) => Some (b :: v, r) | None => None end
  | _ => None
  end.

(** ** Stable sorting: [sort.SliceStable(l, lt)] (and [sort.Slice], whose
    result is the same wherever the keys are distinct; see
    [sorted_perm_unique]). *)
Section Sorting.
Context {A : Type} (lt : A -> A -> bool).

Fixpoint sort_insert (x : A) (l : list A) : list A :=
  match l with
  | [] => [x]
  | y :: t => if lt y x then y :: sort_insert x t else x :: y :: t
  end.

Definition sort_by (l : list A) : list A := foldr sort_insert [] l.

(** [le a b]: [b] is not strictly before [a]. *)
Definition not_after (a b : A) : Prop := lt b a = false.
End Sorting.

(** A comparison that a Go sort accepts: a strict weak ordering. *)
Class StrictWeak {A} (lt : A -> A -> bool) : Prop := {
  sw_asym : forall a b, lt a b = true -> lt b a = false;
  sw_negtrans : forall a b c, lt b a = false -> lt c b = false -> lt c a = false
}.

(** ** Iteration over Go maps

    [for k, v := range m] visits the entries of [m] in an unspecified order:
    every routine that iterates takes the visited sequence [it] as an argument,
    and its theorems quantify over all [it] with [range_of m it]. *)
Definition range_of {K V} `{Countable K} (m : gmap K V) (it : list (K * V)) : Prop :=
  it ≡ₚ map_to_list m.

(** ** Lemmas: bytes *)

Lemma byte_to_Z_range b : 0 <= byte_to_Z b < 256.
Proof.
  unfold byte_to_Z. pose proof (Byte.to_N_bounded b). lia.
Qed.

Lemma byte_to_of_Z z : byte_to_Z (byte_of_Z z) = z mod 256.
Proof.
  unfold byte_to_Z, byte_of_Z.
  pose proof (Z.mod_pos_bound z 256 ltac:(lia)) as Hb.
  destruct (Byte.of_N (Z.to_N (z mod 256))) as [b|] eqn:E.
  - apply Byte.to_of_N in E. rewrite E. lia.
  - apply Byte.of_N_None_iff in E. lia.
Qed.

Lemma byte_of_to_Z b : byte_of_Z (byte_to_Z b) = b.
Proof.
  unfold byte_of_Z, byte_to_Z. pose proof (Byte.to_N_bounded b) as Hb.
  rewrite Z.mod_small by lia. rewrite N2Z.id, Byte.of_to_N. done.
Qed.

Lemma byte_to_Z_inj a b : byte_to_Z a = byte_to_Z b -> a = b.
Proof. intros H. rewrite <- (byte_of_to_Z a), <- (byte_of_to_Z b). by rewrite H. Qed.

#[global] Instance byte_eq_decision : EqDecision byte := Byte.byte_eq_dec.

#[global] Program Instance byte_countable : Countable byte :=
  inj_countable Byte.to_N Byte.of_N _.
Next Obligation. intros b. apply Byte.of_to_N. Qed.

Lemma str_bytes_str s : bytes_str (str_bytes s) = s.
Proof. apply string_of_list_byte_of_string. Qed.

Lemma bytes_str_bytes b : str_bytes (bytes_str b) = b.
Proof. apply list_byte_of_string_of_list_byte. Qed.

Lemma str_bytes_inj a b : str_bytes a = str_bytes b -> a = b.
Proof. intros H. rewrite <- (str_bytes_str a), <- (str_bytes_str b). by rewrite H. Qed.

(** ** Lemmas: lengths *)

Lemma len_nonneg {A} (l : list A) : 0 <= len l.
Proof. unfold len. lia. Qed.

Lemma len_nil {A} : len (@nil A) = 0.
Proof. reflexivity. Qed.

Lemma len_cons {A} (x : A) l : len (x :: l) = len l + 1.
Proof. unfold len. simpl length. lia. Qed.

Lemma len_app {A} (l k : list A) : len (l ++ k) = len l + len k.
Proof. unfold len. rewrite length_app. lia. Qed.

Lemma len_map {A B} (f : A -> B) l : len (map f l) = len l.
Proof. unfold len. by rewrite length_map. Qed.

Lemma len_be_bytes n z : len (be_bytes n z) = Z.of_nat n.
Proof. unfold len. induction n; simpl; lia. Qed.

Lemma length_be_bytes n z : length (be_bytes n z) = n.
Proof. induction n; simpl; congruence. Qed.

Lemma len_zero {A} (l : list A) : (len l =? 0) = true <-> l = [].
Proof. rewrite Z.eqb_eq. destruct l; [done|]. rewrite len_cons. pose proof (len_nonneg l). split; [lia|done]. Qed.

Create Rewrite HintDb len.
#[export] Hint Rewrite @len_nil @len_cons @len_app @len_map len_be_bytes : len.

(** ** Lemmas: big-endian codec *)

Lemma be_val_bytes n z : be_val (be_bytes n z) = z mod 256 ^ Z.of_nat n.
Proof.
  induction n as [|n IH]; [simpl; by rewrite Z.mod_1_r|].
  cbn [be_bytes be_val]. rewrite byte_to_of_Z, IH, len_be_bytes, Z.shiftr_div_pow2 by lia.
  replace (2 ^ (8 * Z.of_nat n)) with (256 ^ Z.of_nat n)
    by (rewrite (Z.pow_mul_r 2 8) by lia; done).
  replace (Z.of_nat (S n)) with (Z.of_nat n + 1) by lia.
  rewrite Z.pow_add_r, Z.pow_1_r by lia.
  rewrite Z.rem_mul_r by (try apply Z.pow_nonzero; lia). lia.
Qed.

Lemma be_val_cons b t : be_val (b :: t) = byte_to_Z b * 256 ^ len t + be_val t.
Proof. reflexivity. Qed.

Lemma be_val_range l : 0 <= be_val l < 256 ^ len l.
Proof.
  induction l as [|b t IH]; [simpl; unfold len; simpl; lia|].
  cbn [be_val]. pose proof (byte_to_Z_range b). rewrite len_cons, Z.pow_add_r by (pose proof (len_nonneg t); lia).
  nia.
Qed.

Lemma be_val_inj l k : length l = length k -> be_val l = be_val k -> l = k.
Proof.
  revert k. induction l as [|a l IH]; intros [|b k] Hl Hv; try discriminate; [done|].
  cbn [be_val] in Hv. injection Hl as Hl.
  assert (Hlen : len l = len k) by (unfold len; lia).
  rewrite Hlen in Hv. pose proof (be_val_range l) as H1. rewrite Hlen in H1.
  pose proof (be_val_range k) as H2.
  assert (byte_to_Z a = byte_to_Z b) as Hab by nia.
  apply byte_to_Z_inj in Hab as ->. f_equal. apply IH; [done|lia].
Qed.

Lemma be_bytes_val l : be_bytes (length l) (be_val l) = l.
Proof.
  apply be_val_inj; [apply length_be_bytes|].
  rewrite be_val_bytes. apply Z.mod_small. apply be_val_range.
Qed.

Lemma be_val_u8 z : is_u8 z -> be_val (be_bytes 1 z) = z.
Proof. intros H. rewrite be_val_bytes. apply Z.mod_small. exact H. Qed.

Lemma be_val_u32 z : is_u32 z -> be_val (be_bytes 4 z) = z.
Proof. intros H. rewrite be_val_bytes. apply Z.mod_small. exact H. Qed.

Lemma be_val_u64 z : is_u64 z -> be_val (be_bytes 8 z) = z.
Proof. intros H. rewrite be_val_bytes. apply Z.mod_small. exact H. Qed.

Lemma be_bytes_inj n a b :
  0 <= a < 256 ^ Z.of_nat n -> 0 <= b < 256 ^ Z.of_nat n -> be_bytes n a = be_bytes n b -> a = b.
Proof.
  intros Ha Hb H. apply (f_equal be_val) in H.
  rewrite !be_val_bytes, !Z.mod_small in H; done.
Qed.

Lemma u32_is_u32 z : is_u32 (u32 z).
Proof. apply Z.mod_pos_bound. lia. Qed.

Lemma u32_id z : is_u32 z -> u32 z = z.
Proof. intros H. by apply Z.mod_small. Qed.
Lemma u64_id z : is_u64 z -> u64 z = z.
Proof. intros H. unfold u64. apply Z.mod_small, H. Qed.

Lemma u64_is_u64 z : is_u64 (u64 z).
Proof. apply Z.mod_pos_bound. lia. Qed.

Lemma i64_u64 z : is_i64 z -> i64 (u64 z) = z.
Proof.
  unfold is_i64, i64, u64. intros H. rewrite Z.mod_mod by lia.
  destruct (Z.ltb_spec (z mod 2 ^ 64) (2 ^ 63)) as [Hlt|Hge].
  - destruct (Z.le_gt_cases 0 z); [apply Z.mod_small; lia|].
    rewrite <- (Z.mod_add z 1), Z.mod_small in Hlt by lia. lia.
  - destruct (Z.le_gt_cases 0 z).
    + rewrite Z.mod_small in Hge by lia. lia.
    + rewrite <- (Z.mod_add z 1), Z.mod_small by lia. lia.
Qed.
Lemma i64_id z : is_i64 z -> i64 z = z.
Proof. intros H. rewrite <- (i64_u64 z H) at 2. unfold i64, u64. by rewrite Z.mod_mod. Qed.

(** ** Lemmas: splitting concatenations *)

Lemma app_split_eq {A} (a a' b b' : list A) :
  length a = length a' -> a ++ b = a' ++ b' -> a = a' /\ b = b'.
Proof. intros Hl H. by apply app_inj_1. Qed.

Lemma take_len_app {A} (a b : list A) : take (Z.to_nat (len a)) (a ++ b) = a.
Proof. unfold len. rewrite Nat2Z.id. apply take_app_length. Qed.

Lemma drop_len_app {A} (a b : list A) : drop (Z.to_nat (len a)) (a ++ b) = b.
Proof. unfold len. rewrite Nat2Z.id. apply drop_app_length. Qed.

Lemma bool_decide_iff (b : bool) (P : Prop) `{Decision P} : (b = true <-> P) -> b = bool_decide P.
Proof. intros Hb. case_bool_decide; [tauto|]. destruct b; [tauto|done]. Qed.

Lemma lookup_repeat {A} (x : A) n k : repeat x n !! k = if (k <? n)%nat then Some x else None.
Proof. revert k. induction n as [|n IH]; intros [|k]; cbn; [done..|]. apply IH. Qed.

Lemma rev_case {A} (l : list A) : l = [] \/ exists k x, l = k ++ [x].
Proof. destruct l as [|x l _] using rev_ind; [by left|right; by exists l, x]. Qed.

Lemma sublist_map {A B} (f : A -> B) (l k : list A) :
  l `sublist_of` k -> map f l `sublist_of` map f k.
Proof. induction 1; simpl; by constructor. Qed.

Lemma filter_sublist {A} (f : A -> bool) l : List.filter f l `sublist_of` l.
Proof. induction l as [|x l IH]; cbn; [constructor|]. destruct (f x); by constructor. Qed.

Lemma map_nodup_filter {A B} (g : A -> B) (f : A -> bool) l :
  NoDup (map g l) -> NoDup (map g (List.filter f l)).
Proof. intros H. eapply sublist_NoDup; [exact H|]. apply sublist_map, filter_sublist. Qed.

Lemma elem_of_filterb {A} (f : A -> bool) l x : x ∈ List.filter f l <-> x ∈ l /\ f x = true.
Proof. rewrite !list_elem_of_In. apply filter_In. Qed.

Lemma filter_perm {A} (f : A -> bool) l k : l ≡ₚ k -> List.filter f l ≡ₚ List.filter f k.
Proof.
  induction 1 as [|x l k H IH|x y l|l k m H1 IH1 H2 IH2]; cbn; [done|..].
  - destruct (f x); by rewrite IH.
  - destruct (f x), (f y); try done. constructor.
  - by rewrite IH1.
Qed.

Lemma filter_split_perm {A} (f : A -> bool) l :
  List.filter (fun x => negb (f x)) l ++ List.filter f l ≡ₚ l.
Proof.
  induction l as [|x l IH]; [done|]. cbn. destruct (f x); cbn; [|by rewrite IH].
  rewrite <- Permutation_middle. by rewrite IH.
Qed.

Lemma filter_nil_iff_none {A} (f : A -> bool) l : (forall x, x ∈ l -> f x = false) -> List.filter f l = [].
Proof.
  induction l as [|x l IH]; intros H; [done|]. cbn. rewrite H by constructor.
  apply IH. intros y Hy. apply H. by constructor.
Qed.

Lemma filter_all_id {A} (f : A -> bool) l : (forall x, x ∈ l -> f x = true) -> List.filter f l = l.
Proof.
  induction l as [|x l IH]; intros H; [done|]. cbn. rewrite H by constructor. f_equal.
  apply IH. intros y Hy. apply H. by constructor.
Qed.

(** Equal IDs name the same element of a list with distinct IDs. *)
Lemma nodup_map_inj {A B} (g : A -> B) l x y :
  NoDup (map g l) -> x ∈ l -> y ∈ l -> g x = g y -> x = y.
Proof.
  induction l as [|z l IH]; intros Hn Hx Hy He; [by apply not_elem_of_nil in Hx|].
  cbn in Hn. apply NoDup_cons in Hn as [Hz Hn].
  apply elem_of_cons in Hx as [->|Hx], Hy as [->|Hy]; [done|..].
  - exfalso. apply Hz. rewrite He. by apply list_elem_of_fmap_2.
  - exfalso. apply Hz. rewrite <- He. by apply list_elem_of_fmap_2.
  - by apply IH.
Qed.

Lemma split_loop_spec fuel data c i :
  (0 < c)%nat -> (length data - i <= fuel)%nat ->
  concat (split_loop fuel data c i) = drop i data /\
  Forall (fun ch => 0 < length ch <= c)%nat (split_loop fuel data c i) /\
  (split_loop fuel data c i <> [] -> c * (length (split_loop fuel data c i) - 1) < length data - i)%nat /\
  (length data - i <= c * length (split_loop fuel data c i))%nat.
Proof.
  intros Hc. revert i. induction fuel as [|fuel IH]; intros i Hf; cbn [split_loop].
  { rewrite drop_ge by lia. cbn. split_and!; [done|constructor|done|lia]. }
  destruct (Nat.ltb_spec i (length data)) as [Hi|Hi].
  - destruct (IH (i + c)%nat ltac:(lia)) as (H1 & H2 & H3 & H4). cbn [concat length]. rewrite H1. split_and!.
    + unfold subslice. destruct (Nat.ltb_spec (length data) (i + c)).
      * rewrite (drop_ge _ (i + c)) by lia. rewrite app_nil_r, take_ge by (rewrite length_drop; lia). done.
      * replace (i + c - i)%nat with c by lia. rewrite <- (take_drop c (drop i data)) at 2.
        by rewrite drop_drop.
    + constructor; [|done]. unfold subslice. rewrite length_take, length_drop.
      destruct (Nat.ltb_spec (length data) (i + c)); lia.
    + intros _. destruct (split_loop fuel data c (i + c)) as [|ch l] eqn:E; [cbn; lia|].
      specialize (H3 ltac:(done)). cbn [length] in *. nia.
    + nia.
  - rewrite drop_ge by lia. cbn. split_and!; [done|constructor|done|lia].
Qed.

(** ** Lemmas: sorting *)

Section SortingFacts.
Context {A : Type} (lt : A -> A -> bool).

Lemma sort_insert_perm x l : sort_insert lt x l ≡ₚ x :: l.
Proof.
  induction l as [|y t IH]; simpl; [done|].
  destruct (lt y x); [|done]. rewrite IH. constructor.
Qed.

Lemma sort_by_perm l : sort_by lt l ≡ₚ l.
Proof.
  induction l as [|x t IH]; simpl; [done|]. rewrite sort_insert_perm. by f_equiv.
Qed.

Lemma length_sort_by l : length (sort_by lt l) = length l.
Proof. by rewrite sort_by_perm. Qed.

Lemma elem_of_sort_by x l : x ∈ sort_by lt l <-> x ∈ l.
Proof. by rewrite sort_by_perm. Qed.

Context `{Hsw : !StrictWeak lt}.

Lemma not_after_refl a : not_after lt a a.
Proof.
  unfold not_after. destruct (lt a a) eqn:E; [|done]. by apply sw_asym in E as E'; congruence.
Qed.

Lemma not_after_trans a b c : not_after lt a b -> not_after lt b c -> not_after lt a c.
Proof. unfold not_after. apply sw_negtrans. Qed.

Lemma sort_insert_sorted x l :
  StronglySorted (not_after lt) l -> StronglySorted (not_after lt) (sort_insert lt x l).
Proof.
  induction 1 as [|y t Ht IH Hy]; simpl; [repeat constructor|].
  destruct (lt y x) eqn:E.
  - constructor; [done|]. rewrite sort_insert_perm. constructor; [|done].
    unfold not_after. by apply sw_asym.
  - constructor; [by constructor|]. constructor; [done|].
    eapply Forall_impl; [exact Hy|]. intros z Hz. by eapply not_after_trans.
Qed.

Lemma sort_by_sorted l : StronglySorted (not_after lt) (sort_by lt l).
Proof. induction l; simpl; [constructor|]. by apply sort_insert_sorted. Qed.

(** Where distinct elements are strictly comparable, a sorted list is
    determined by its elements: any sorting algorithm gives the same result. *)
Lemma sorted_perm_unique l k :
  (forall a b, a ∈ l -> b ∈ l -> lt a b = false -> lt b a = false -> a = b) ->
  l ≡ₚ k -> StronglySorted (not_after lt) l -> StronglySorted (not_after lt) k -> l = k.
Proof.
  revert k. induction l as [|x l IH]; intros k Htot Hp Hl Hk.
  - by apply Permutation_nil in Hp as ->.
  - destruct k as [|y k]; [by apply Permutation_sym, Permutation_nil in Hp|].
    apply StronglySorted_inv in Hl as [Hl Hx], Hk as [Hk Hy].
    assert (x = y) as <-.
    { assert (y ∈ x :: l) as Hyl by (rewrite Hp; constructor).
      assert (x ∈ y :: k) as Hxk by (rewrite <- Hp; constructor).
      apply elem_of_cons in Hyl as [->|Hyl]; [done|].
      apply elem_of_cons in Hxk as [->|Hxk]; [done|].
      rewrite Forall_forall in Hx, Hy.
      apply Htot; [constructor|by constructor|..]; [by apply Hy|by apply Hx]. }
    f_equal. apply IH; [|by apply Permutation_cons_inv in Hp|done|done].
    intros a b Ha Hb. apply Htot; by constructor.
Qed.

Lemma sorted_take n l :
  StronglySorted (not_after lt) l -> StronglySorted (not_after lt) (take n l).
Proof.
  intros H. revert n. induction H as [|x l Hl IH Hx]; intros [|n]; simpl; try constructor.
  - apply IH.
  - by apply Forall_take.
Qed.

(** Everything dropped by a truncation is not before anything kept. *)
Lemma sorted_take_drop n l a b :
  StronglySorted (not_after lt) l -> a ∈ take n l -> b ∈ drop n l -> not_after lt a b.
Proof.
  intros H. revert n. induction H as [|x l Hl IH Hx]; intros [|n] Ha Hb; simpl in *.
  1-3: by apply not_elem_of_nil in Ha.
  apply elem_of_cons in Ha as [->|Ha]; [|by eapply IH].
  rewrite Forall_forall in Hx. apply Hx. eapply subseteq_drop, Hb.
Qed.
End SortingFacts.

(** Ordering by a key. *)
Definition ltb_on {A B} (f : A -> B) (lt : B -> B -> bool) (a b : A) : bool := lt (f a) (f b).

#[global] Instance ltb_on_strict_weak {A B} (f : A -> B) (lt : B -> B -> bool) :
  StrictWeak lt -> StrictWeak (ltb_on f lt).
Proof.
  intros [Ha Hn]. split; unfold ltb_on; intros; [by apply Ha|by eapply Hn].
Qed.

#[global] Instance Zltb_strict_weak : StrictWeak Z.ltb.
Proof. split; intros; lia. Qed.

(** ** Lemmas: iteration over maps *)

Section Range.
Context {K V : Type} `{Countable K}.
Implicit Types m : gmap K V.

Lemma range_elem m it k v : range_of m it -> (k, v) ∈ it <-> m !! k = Some v.
Proof. intros ->. apply elem_of_map_to_list. Qed.

Lemma range_keys_nodup m it : range_of m it -> NoDup it.*1.
Proof. intros Hr. rewrite Hr. apply NoDup_fst_map_to_list. Qed.

Lemma range_length m it : range_of m it -> length it = size m.
Proof. intros ->. apply length_map_to_list. Qed.

Lemma range_map_to_list m : range_of m (map_to_list m).
Proof. unfold range_of. reflexivity. Qed.
End Range.

(** ** Tactics *)

(** Split every conjunction and boolean connective in the context. *)
Ltac split_bools :=
  repeat match goal with
  | H : _ /\ _ |- _ => destruct H
  | H : andb _ _ = true |- _ => apply andb_true_iff in H
  | H : orb _ _ = false |- _ => apply orb_false_iff in H
  | H : negb _ = true |- _ => apply negb_true_iff in H
  | H : negb _ = false |- _ => apply negb_false_iff in H
  | H : Z.ltb _ _ = true |- _ => apply Z.ltb_lt in H
  | H : Z.ltb _ _ = false |- _ => apply Z.ltb_ge in H
  | H : Z.leb _ _ = true |- _ => apply Z.leb_le in H
  | H : Z.leb _ _ = false |- _ => apply Z.leb_gt in H
  | H : Z.eqb _ _ = true |- _ => apply Z.eqb_eq in H
  | H : Z.eqb _ _ = false |- _ => apply Z.eqb_neq in H
  | H : Nat.ltb _ _ = true |- _ => apply Nat.ltb_lt in H
  | H : Nat.ltb _ _ = false |- _ => apply Nat.ltb_ge in H
  | H : Nat.leb _ _ = true |- _ => apply Nat.leb_le in H
  | H : Nat.leb _ _ = false |- _ => apply Nat.leb_gt in H
  | H : Nat.eqb _ _ = true |- _ => apply Nat.eqb_eq in H
  | H : Nat.eqb _ _ = false |- _ => apply Nat.eqb_neq in H
  | H : String.eqb _ _ = true |- _ => apply String.eqb_eq in H
  | H : String.eqb _ _ = false |- _ => apply String.eqb_neq in H
  | H : bool_decide _ = true |- _ => apply bool_decide_eq_true in H
  | H : bool_decide _ = false |- _ => apply bool_decide_eq_false in H
  end.

(** Case analysis on the condition of the first [if] or scrutinee of the goal,
    with the boolean turned into its proposition. *)
Ltac case_if :=
  match goal with
  | |- context [if ?b then _ else _] => destruct b eqn:?; split_bools
  end.
Ltac case_if_in H :=
  match type of H with
  | context [if ?b then _ else _] => destruct b eqn:?; split_bools
  end.

#[global] Arguments be_bytes : simpl never.
#[global] Arguments be_val : simpl never.
#[global] Arguments Z.pow : simpl never.

Lemma unesc_esc l r : unesc (esc l ++ r) = Some (l, r).
Proof. induction l as [|b l IH]; [done|]. cbn. by rewrite IH. Qed.

Lemma len_esc l : len (esc l) = 2 * len l + 1.
Proof. induction l as [|b l IH]; [done|]. cbn [esc]. rewrite !len_cons, IH. lia. Qed.
