(* ===== verification/Crypto.v ===== *)
(** * Cryptographic primitives of Go's [crypto/...] packages

    SyncSwarm calls SHA-256, Ed25519, HMAC, HKDF, X25519, ML-KEM-768 and
    AES-256-GCM; none of them is implemented in the repository.  Their
    operations are the fields of [CryptoOps], the documented behaviour the code
    relies on is the class [CryptoLaws], and [toy_ops]/[toy_laws] is a concrete
    model of it, so that the theorems that assume the laws are not vacuous.
    Randomness is explicit: an operation that draws from [crypto/rand] takes the
    drawn bytes as an argument. *)

From S2P Require Import Prelude.

Class CryptoOps := {
  sha256 : bytes -> bytes;
  (** [ed25519]: public key of a private key, signing, verification. *)
  ed_public : bytes -> bytes;
  ed_sign : bytes -> bytes -> bytes;
  ed_verify : bytes -> bytes -> bytes -> bool;
  (** [hmac.New(sha256.New, key)] summed over a message. *)
  hmac : bytes -> bytes -> bytes;
  (** [hkdf.Key(sha256.New, secret, salt, info, 32)]. *)
  hkdf32 : bytes -> bytes -> bytes -> option bytes;
  (** [ecdh.X25519()]: validity of an encoded public key, public key of a
      private key, the shared secret (which fails on a low-order point). *)
  x_valid_pub : bytes -> bool;
  x_public : bytes -> bytes;
  x_ecdh : bytes -> bytes -> option bytes;
  (** [mlkem.EncapsulationKey768.Encapsulate] on the drawn bytes gives a shared
      secret and a ciphertext; [DecapsulationKey768.Decapsulate] recovers it;
      [mlkem.NewEncapsulationKey768] accepts the encoding of a public key. *)
  ml_valid_pub : bytes -> bool;
  ml_public : bytes -> bytes;
  ml_encap : bytes -> bytes -> bytes * bytes;
  ml_decap : bytes -> bytes -> option bytes;
  (** [cipher.AEAD] of [aes.NewCipher(key)]: [gcm_seal key nonce pt aad]. *)
  gcm_seal : bytes -> bytes -> bytes -> bytes -> bytes;
  gcm_open : bytes -> bytes -> bytes -> bytes -> option bytes
}.

(** Sizes fixed by the packages. *)
Definition ed_PublicKeySize : Z := 32.
Definition ed_PrivateKeySize : Z := 64.
Definition ed_SignatureSize : Z := 64.
Definition gcm_NonceSize : Z := 12.
Definition gcm_TagSize : Z := 16.

Class CryptoLaws (C : CryptoOps) : Prop := {
  sha256_len m : len (sha256 m) = 32;
  ed_public_len k : len k = ed_PrivateKeySize -> len (ed_public k) = ed_PublicKeySize;
  ed_sign_len k m : len k = ed_PrivateKeySize -> len (ed_sign k m) = ed_SignatureSize;
  ed_verify_sign k m : len k = ed_PrivateKeySize -> ed_verify (ed_public k) m (ed_sign k m) = true;
  hkdf32_len s salt info k : hkdf32 s salt info = Some k -> len k = 32;
  hkdf32_ok s salt info : is_Some (hkdf32 s salt info);
  x_public_len k : len (x_public k) = 32;
  x_public_valid k : x_valid_pub (x_public k) = true;
  x_ecdh_comm a b : x_ecdh a (x_public b) = x_ecdh b (x_public a);
  x_ecdh_ok a b : is_Some (x_ecdh a (x_public b));
  ml_public_valid k : ml_valid_pub (ml_public k) = true;
  ml_encap_len pk r : len (snd (ml_encap pk r)) = 1088;
  ml_decap_encap dk r :
    ml_decap dk (snd (ml_encap (ml_public dk) r)) = Some (fst (ml_encap (ml_public dk) r));
  gcm_open_seal k n p a : len k = 32 -> len n = gcm_NonceSize -> gcm_open k n (gcm_seal k n p a) a = Some p;
  gcm_open_inv k n c p a : gcm_open k n c a = Some p -> c = gcm_seal k n p a;
  gcm_seal_len k n p a : len (gcm_seal k n p a) = len p + gcm_TagSize
}.

(** ** A concrete model *)

Section Toy.
(** Keep 32 bytes, padding with zeros. *)
Definition pad32 (m : bytes) : bytes := take 32 (m ++ repeat x00 32).

Fixpoint toy_xor (a b : bytes) : bytes :=
  match a, b with
  | x :: a', y :: b' => byte_of_Z (Z.lxor (byte_to_Z x) (byte_to_Z y)) :: toy_xor a' b'
  | _, _ => []
  end.

Definition toy_tag (k n p a : bytes) : bytes :=
  be_bytes 16 (be_val k + 3 * be_val n + 5 * be_val p + 7 * be_val a).

#[local] Instance toy_ops : CryptoOps := {|
  sha256 m := be_bytes 32 (be_val m);
  ed_public k := drop 32 k;
  ed_sign k m := drop 32 k ++ be_bytes 32 (be_val m);
  ed_verify pk m s := bool_decide (s = pk ++ be_bytes 32 (be_val m));
  hmac k m := be_bytes 32 (be_val (k ++ m));
  hkdf32 s salt info := Some (pad32 s);
  x_valid_pub p := len p =? 32;
  x_public k := pad32 k;
  x_ecdh a p := Some (toy_xor (pad32 a) (pad32 p));
  ml_valid_pub p := len p =? 32;
  ml_public k := pad32 k;
  ml_encap pk r := (pad32 pk, pad32 r ++ repeat x00 (Z.to_nat 1056));
  ml_decap dk ct := Some (pad32 dk);
  gcm_seal k n p a := p ++ toy_tag k n p a;
  gcm_open k n c a :=
    let p := take (length c - 16) c in
    if bool_decide (drop (length c - 16) c = toy_tag k n p a) then Some p else None
|}.

#[local] Arguments pad32 : simpl never.
#[local] Arguments toy_tag : simpl never.

Lemma length_pad32 m : length (pad32 m) = 32%nat.
Proof. unfold pad32. rewrite length_take, length_app, repeat_length. lia. Qed.

Lemma pad32_idem m : length m = 32%nat -> pad32 m = m.
Proof. intros H. unfold pad32. rewrite <- H. apply take_app_length. Qed.

Lemma toy_xor_comm a b : toy_xor a b = toy_xor b a.
Proof. revert b; induction a as [|x a IH]; intros [|y b]; simpl; [done..|]. by rewrite Z.lxor_comm, IH. Qed.

Lemma toy_laws : CryptoLaws toy_ops.
Proof.
  split; cbn -[repeat]; unfold len, ed_PrivateKeySize, ed_PublicKeySize, ed_SignatureSize; intros.
  - by rewrite length_be_bytes.
  - rewrite length_drop. lia.
  - rewrite length_app, length_drop, length_be_bytes. lia.
  - by apply bool_decide_eq_true.
  - simplify_eq. by rewrite length_pad32.
  - by eexists.
  - by rewrite length_pad32.
  - by rewrite length_pad32.
  - rewrite !(pad32_idem (pad32 _)) by apply length_pad32. f_equal. apply toy_xor_comm.
  - by eexists.
  - by rewrite length_pad32.
  - rewrite length_app, length_pad32, repeat_length. done.
  - f_equal. by rewrite (pad32_idem (pad32 _)) by apply length_pad32.
  - replace (length (p ++ toy_tag k n p a) - 16)%nat with (length p)
      by (rewrite length_app; unfold toy_tag; rewrite length_be_bytes; lia).
    rewrite take_app_length, drop_app_length. by rewrite bool_decide_eq_true_2.
  - case_bool_decide as Hd; [|done]. simplify_eq. rewrite <- Hd. symmetry. apply take_drop.
  - rewrite length_app. unfold toy_tag, gcm_TagSize. rewrite length_be_bytes. lia.
Qed.
End Toy.
