(* ===== verification/Wire.v ===== *)
(** * The packet wire format (internal/protocol/packet.go)

    The [Packet] record, its binary encoding and decoding, the length-prefixed
    stream framing, the routed payload, the canonical bytes that are signed, and
    the key-derived node identity.  A nil and an empty slice are the same list:
    no function of this file tells them apart. *)

From S2P Require Import Prelude Crypto.

(** ** Data *)

Definition maxFrameSize : Z := Z.shiftl 8 20.
Definition RoutedFrameOverhead : Z := 256.

(** [PacketType] is a [uint8]: a received packet may carry any value. *)
Definition PacketTypeData : Z := 0.
Definition PacketTypeDiscovery : Z := 1.
Definition PacketTypeLatencyCheck : Z := 2.
Definition PacketTypeLatencyReply : Z := 3.
Definition PacketTypeAcknowledgement : Z := 4.
Definition PacketTypePeerExchange : Z := 5.
Definition PacketTypeRelay : Z := 6.
Definition PacketTypeReservation : Z := 7.
Definition PacketTypeFindNode : Z := 8.
Definition PacketTypeFindNodeReply : Z := 9.
Definition PacketTypeReachabilityCheck : Z := 10.
Definition PacketTypeReachabilityResult : Z := 11.
Definition PacketTypeAnnounce : Z := 12.
Definition PacketTypePathRequest : Z := 13.
Definition PacketTypeLinkRequest : Z := 14.
Definition PacketTypeLinkProof : Z := 15.
Definition PacketTypeLinkData : Z := 16.
Definition PacketTypeRouted : Z := 17.
Definition PacketTypeRoutedDiscovery : Z := 18.

Record Packet : Type := mkPacket {
  p_ID : bytes;            (** [[32]byte] *)
  p_Type : Z;              (** uint8 *)
  p_Timestamp : Z;         (** [time.Time], as its int64 [UnixNano] *)
  p_SourceNode : string;
  p_DestGroup : string;
  p_DestNode : string;
  p_TotalChunks : Z;       (** uint32 *)
  p_ChunkNumber : Z;       (** uint32 *)
  p_SubIndex : Z;          (** uint32 *)
  p_SubTotal : Z;          (** uint32 *)
  p_Streaming : bool;
  p_BlockIndex : Z;        (** uint32 *)
  p_BlockLen : Z;          (** uint32 *)
  p_Final : bool;
  p_HybridSealed : bool;
  p_PQ : bool;
  p_Resumable : bool;
  p_DataShards : Z;        (** uint32 *)
  p_ParityShards : Z;      (** uint32 *)
  p_OriginalLen : Z;       (** uint64 *)
  p_Variable : bool;
  p_ReplyBlock : bytes;
  p_Decoy : bool;
  p_Pad : bytes;
  p_PayloadSize : Z;       (** uint32 *)
  p_Payload : bytes;
  p_SignerKey : bytes;
  p_Signature : bytes
}.

Inductive wire_err : Type :=
| errMalformedPacket
| errEOF
| errUnexpectedEOF.

(** ** Encoding *)

Definition appendU32 (b : bytes) (v : Z) : bytes := b ++ be_bytes 4 v.
Definition appendU64 (b : bytes) (v : Z) : bytes := b ++ be_bytes 8 v.
Definition appendBytes (b v : bytes) : bytes := appendU32 b (u32 (len v)) ++ v.
Definition boolByte (v : bool) : byte := if v then x01 else x00.

Definition MarshalBinary (p : Packet) : bytes :=
  let buf := [] in
  let buf := buf ++ p_ID p in
  let buf := buf ++ [byte_of_Z (p_Type p)] in
  let buf := appendU64 buf (u64 (p_Timestamp p)) in
  let buf := appendBytes buf (str_bytes (p_SourceNode p)) in
  let buf := appendBytes buf (str_bytes (p_DestGroup p)) in
  let buf := appendBytes buf (str_bytes (p_DestNode p)) in
  let buf := appendU32 buf (p_TotalChunks p) in
  let buf := appendU32 buf (p_ChunkNumber p) in
  let buf := appendU32 buf (p_SubIndex p) in
  let buf := appendU32 buf (p_SubTotal p) in
  let buf := buf ++ [boolByte (p_Streaming p)] in
  let buf := appendU32 buf (p_BlockIndex p) in
  let buf := appendU32 buf (p_BlockLen p) in
  let buf := buf ++ [boolByte (p_Final p)] in
  let buf := buf ++ [boolByte (p_HybridSealed p)] in
  let buf := buf ++ [boolByte (p_PQ p)] in
  let buf := buf ++ [boolByte (p_Resumable p)] in
  let buf := appendU32 buf (p_DataShards p) in
  let buf := appendU32 buf (p_ParityShards p) in
  let buf := appendU64 buf (p_OriginalLen p) in
  let buf := buf ++ [boolByte (p_Variable p); boolByte (p_Decoy p)] in
  let buf := appendU32 buf (p_PayloadSize p) in
  let buf := appendBytes buf (p_Payload p) in
  let buf := appendBytes buf (p_SignerKey p) in
  let buf := appendBytes buf (p_Signature p) in
  let buf := appendBytes buf (p_ReplyBlock p) in
  let buf := appendBytes buf (p_Pad p) in
  buf.

(** ** Decoding: a bounds-checked cursor *)

Record reader : Type := mkReader { r_b : bytes; r_err : bool }.

Definition r_take (n : Z) (r : reader) : bytes * reader :=
  if r_err r then ([], r)
  else if (n <? 0) || (len (r_b r) <? n) then ([], mkReader (r_b r) true)
  else (take (Z.to_nat n) (r_b r), mkReader (drop (Z.to_nat n) (r_b r)) false).

(** The decoders are computations over the cursor, sequenced with stdpp's
    [x ← m; k]. *)
Definition rd (A : Type) : Type := reader -> A * reader.
#[global] Instance rd_ret : MRet rd := fun A a r => (a, r).
#[global] Instance rd_bind : MBind rd := fun A B k m r => let '(a, r') := m r in k a r'.

Definition r_u8 : rd Z := fun r =>
  let '(d, r) := r_take 1 r in (match d with [b] => byte_to_Z b | _ => 0 end, r).

Definition r_u32 : rd Z := fun r =>
  let '(d, r) := r_take 4 r in (if len d =? 4 then be_val d else 0, r).

Definition r_u64 : rd Z := fun r =>
  let '(d, r) := r_take 8 r in (if len d =? 8 then be_val d else 0, r).

Definition r_bytes : rd bytes := fun r => let '(n, r) := r_u32 r in r_take n r.

(** [copy(p.ID[:], d)] into a zeroed array. *)
Definition copy_id (n : nat) (d : bytes) : bytes := take n (d ++ repeat x00 n).

Definition r_str : rd string := d ← r_bytes; mret (bytes_str d).
Definition r_bool : rd bool := b ← r_u8; mret (b =? 1).

(** The decoder's body, field by field in the encoder's order. *)
Definition unmarshal_body : rd Packet :=
  id ← r_take 32;
  typ ← r_u8;
  ts ← r_u64;
  src ← r_str;
  grp ← r_str;
  dst ← r_str;
  total ← r_u32;
  chunk ← r_u32;
  subi ← r_u32;
  subt ← r_u32;
  streaming ← r_bool;
  bidx ← r_u32;
  blen ← r_u32;
  final ← r_bool;
  hybrid ← r_bool;
  pq ← r_bool;
  resumable ← r_bool;
  ds ← r_u32;
  ps ← r_u32;
  olen ← r_u64;
  variable ← r_bool;
  decoy ← r_bool;
  psize ← r_u32;
  payload ← r_bytes;
  signer ← r_bytes;
  sig ← r_bytes;
  reply ← r_bytes;
  pad ← r_bytes;
  mret {|
    p_ID := copy_id 32 id; p_Type := typ; p_Timestamp := i64 ts;
    p_SourceNode := src; p_DestGroup := grp; p_DestNode := dst;
    p_TotalChunks := total; p_ChunkNumber := chunk; p_SubIndex := subi; p_SubTotal := subt;
    p_Streaming := streaming; p_BlockIndex := bidx; p_BlockLen := blen; p_Final := final;
    p_HybridSealed := hybrid; p_PQ := pq; p_Resumable := resumable;
    p_DataShards := ds; p_ParityShards := ps; p_OriginalLen := olen;
    p_Variable := variable; p_ReplyBlock := reply; p_Decoy := decoy; p_Pad := pad;
    p_PayloadSize := psize; p_Payload := payload; p_SignerKey := signer; p_Signature := sig |}.

(** The decoded packet and [r.err]: on an error the packet is partially filled,
    and every caller drops it. *)
Definition UnmarshalBinary (data : bytes) : result wire_err Packet :=
  let '(p, r) := unmarshal_body (mkReader data false) in
  if r_err r then Err errMalformedPacket else Ok p.

(** ** Stream framing: the stream is the sequence of bytes it will still yield *)

Definition ReadFull (n : Z) (s : bytes) : result wire_err (bytes * bytes) :=
  if len s <? n then (if (len s =? 0) && negb (n =? 0) then Err errEOF else Err errUnexpectedEOF)
  else Ok (take (Z.to_nat n) s, drop (Z.to_nat n) s).

(** The bytes [WritePacket] hands to [w.Write]. *)
Definition WritePacket (p : Packet) : bytes :=
  let body := MarshalBinary p in
  be_bytes 4 (u32 (len body)) ++ body.

Definition ReadPacket (s : bytes) : result wire_err (Packet * bytes) :=
  try (hdr, s) := ReadFull 4 s in
  let n := be_val hdr in
  if maxFrameSize <? n then Err errMalformedPacket
  else
    try (body, s) := ReadFull n s in
    try p := UnmarshalBinary body in
    Ok (p, s).

(** ** Routed payloads *)

Definition EncodeRouted (hopLimit : Z) (inner : bytes) : bytes := [byte_of_Z hopLimit] ++ inner.

Definition RoutedHopLimit (payload : bytes) : Z :=
  match payload with [] => 0 | b :: _ => byte_to_Z b end.

Definition RoutedInner (payload : bytes) : bytes :=
  match payload with [] => [] | _ :: t => t end.

(** ** Hexadecimal identifiers *)

Definition hextable : bytes := str_bytes "0123456789abcdef".
Definition hexdigit (n : Z) : byte := nth (Z.to_nat n) hextable x00.

Fixpoint hex_bytes (l : bytes) : bytes :=
  match l with
  | [] => []
  | b :: t =>
      hexdigit (Z.shiftr (byte_to_Z b) 4) :: hexdigit (Z.land (byte_to_Z b) 15) :: hex_bytes t
  end.

(** [encoding/hex.EncodeToString]. *)
Definition EncodeToString (l : bytes) : string := bytes_str (hex_bytes l).

(** One step of the loop of [HexID]: [buf[i*2], buf[i*2+1] = ...]. *)
Definition HexID_step (buf : bytes) (ib : nat * byte) : bytes :=
  let '(i, b) := ib in
  <[(i * 2 + 1)%nat := hexdigit (Z.land (byte_to_Z b) 15)]>
    (<[(i * 2)%nat := hexdigit (Z.shiftr (byte_to_Z b) 4)]> buf).

Definition HexID (id : bytes) : string :=
  bytes_str (fold_left HexID_step (zip (seq 0 (length id)) id) (repeat x00 64)).

(** ** Signing *)

Definition appendLenString (buf : bytes) (s : bytes) : bytes :=
  let buf := buf ++ be_bytes 4 (u32 (len s)) in
  buf ++ s.

Definition canonicalBytes (p : Packet) : bytes :=
  let buf := [] in
  let buf := buf ++ [byte_of_Z (p_Type p)] in
  let buf := buf ++ p_ID p in
  let buf := appendLenString buf (str_bytes (p_SourceNode p)) in
  let buf := appendLenString buf (str_bytes (p_DestGroup p)) in
  let buf := appendLenString buf (str_bytes (p_DestNode p)) in
  let buf := buf ++ be_bytes 4 (p_ChunkNumber p) in
  let buf := buf ++ be_bytes 4 (p_TotalChunks p) in
  let buf := buf ++ be_bytes 4 (p_PayloadSize p) in
  let buf := buf ++ be_bytes 4 (p_DataShards p) in
  let buf := buf ++ be_bytes 4 (p_ParityShards p) in
  let buf := buf ++ be_bytes 8 (p_OriginalLen p) in
  let buf := buf ++ be_bytes 4 (p_SubIndex p) in
  let buf := buf ++ be_bytes 4 (p_SubTotal p) in
  let buf := if p_Streaming p then buf ++ [x01] else buf ++ [x00] in
  let buf := buf ++ be_bytes 4 (p_BlockIndex p) in
  let buf := buf ++ be_bytes 4 (p_BlockLen p) in
  let buf := if p_Final p then buf ++ [x01] else buf ++ [x00] in
  let buf := if p_HybridSealed p then buf ++ [x01] else buf ++ [x00] in
  let buf := if p_PQ p then buf ++ [x01] else buf ++ [x00] in
  let buf := if p_Resumable p then buf ++ [x01] else buf ++ [x00] in
  let buf := if p_Variable p then buf ++ [x01] else buf ++ [x00] in
  let buf := appendLenString buf (p_SignerKey p) in
  let buf := appendLenString buf (p_ReplyBlock p) in
  let buf := if p_Decoy p then buf ++ [x01] else buf ++ [x00] in
  let buf := buf ++ p_Payload p in
  buf.

(** Field updates ([p.SignerKey = ...], ...). *)
Definition set_signer (k : bytes) (p : Packet) : Packet :=
  mkPacket (p_ID p) (p_Type p) (p_Timestamp p) (p_SourceNode p) (p_DestGroup p) (p_DestNode p)
    (p_TotalChunks p) (p_ChunkNumber p) (p_SubIndex p) (p_SubTotal p) (p_Streaming p)
    (p_BlockIndex p) (p_BlockLen p) (p_Final p) (p_HybridSealed p) (p_PQ p) (p_Resumable p)
    (p_DataShards p) (p_ParityShards p) (p_OriginalLen p) (p_Variable p) (p_ReplyBlock p)
    (p_Decoy p) (p_Pad p) (p_PayloadSize p) (p_Payload p) k (p_Signature p).
Definition set_signature (s : bytes) (p : Packet) : Packet :=
  mkPacket (p_ID p) (p_Type p) (p_Timestamp p) (p_SourceNode p) (p_DestGroup p) (p_DestNode p)
    (p_TotalChunks p) (p_ChunkNumber p) (p_SubIndex p) (p_SubTotal p) (p_Streaming p)
    (p_BlockIndex p) (p_BlockLen p) (p_Final p) (p_HybridSealed p) (p_PQ p) (p_Resumable p)
    (p_DataShards p) (p_ParityShards p) (p_OriginalLen p) (p_Variable p) (p_ReplyBlock p)
    (p_Decoy p) (p_Pad p) (p_PayloadSize p) (p_Payload p) (p_SignerKey p) s.
Definition set_pad (d : bytes) (p : Packet) : Packet :=
  mkPacket (p_ID p) (p_Type p) (p_Timestamp p) (p_SourceNode p) (p_DestGroup p) (p_DestNode p)
    (p_TotalChunks p) (p_ChunkNumber p) (p_SubIndex p) (p_SubTotal p) (p_Streaming p)
    (p_BlockIndex p) (p_BlockLen p) (p_Final p) (p_HybridSealed p) (p_PQ p) (p_Resumable p)
    (p_DataShards p) (p_ParityShards p) (p_OriginalLen p) (p_Variable p) (p_ReplyBlock p)
    (p_Decoy p) d (p_PayloadSize p) (p_Payload p) (p_SignerKey p) (p_Signature p).
Definition set_timestamp (t : Z) (p : Packet) : Packet :=
  mkPacket (p_ID p) (p_Type p) t (p_SourceNode p) (p_DestGroup p) (p_DestNode p)
    (p_TotalChunks p) (p_ChunkNumber p) (p_SubIndex p) (p_SubTotal p) (p_Streaming p)
    (p_BlockIndex p) (p_BlockLen p) (p_Final p) (p_HybridSealed p) (p_PQ p) (p_Resumable p)
    (p_DataShards p) (p_ParityShards p) (p_OriginalLen p) (p_Variable p) (p_ReplyBlock p)
    (p_Decoy p) (p_Pad p) (p_PayloadSize p) (p_Payload p) (p_SignerKey p) (p_Signature p).

Section Identity.
Context `{C : CryptoOps}.

(** [now] is [time.Now()], [nowStr] its [String()]. *)
Definition NewPacket (now : Z) (nowStr : bytes) (packetType : Z) (payload : bytes)
    (destGroup destNode : string) : Packet :=
  let idSource := [] ++ payload in
  let idSource := idSource ++ nowStr in
  let id := sha256 idSource in
  {| p_ID := id; p_Type := packetType; p_Timestamp := now;
     p_SourceNode := ""; p_DestGroup := destGroup; p_DestNode := destNode;
     p_TotalChunks := 0; p_ChunkNumber := 0; p_SubIndex := 0; p_SubTotal := 0;
     p_Streaming := false; p_BlockIndex := 0; p_BlockLen := 0; p_Final := false;
     p_HybridSealed := false; p_PQ := false; p_Resumable := false;
     p_DataShards := 0; p_ParityShards := 0; p_OriginalLen := 0; p_Variable := false;
     p_ReplyBlock := []; p_Decoy := false; p_Pad := [];
     p_PayloadSize := u32 (len payload); p_Payload := payload;
     p_SignerKey := []; p_Signature := [] |}.

Definition Sign (priv : bytes) (p : Packet) : Packet :=
  if negb (len priv =? ed_PrivateKeySize) then p
  else
    let p := set_signer (ed_public priv) p in
    set_signature (ed_sign priv (canonicalBytes p)) p.

Definition Verify (p : Packet) : bool :=
  if negb (len (p_SignerKey p) =? ed_PublicKeySize) || negb (len (p_Signature p) =? ed_SignatureSize)
  then false
  else ed_verify (p_SignerKey p) (canonicalBytes p) (p_Signature p).

Definition DeriveNodeID (signPub : bytes) : string :=
  if len signPub =? 0 then ""%string
  else
    let sum := sha256 signPub in
    EncodeToString (take 16 sum).

Definition SignerID (p : Packet) : string := DeriveNodeID (p_SignerKey p).
End Identity.


(** ** Well-formed packets: the ranges of the Go field types, and the sizes a
    [uint32] length prefix can carry. *)

Record wf_packet (p : Packet) : Prop := {
  wf_ID : length (p_ID p) = 32%nat;
  wf_Type : is_u8 (p_Type p);
  wf_Timestamp : is_i64 (p_Timestamp p);
  wf_SourceNode : is_u32 (len (str_bytes (p_SourceNode p)));
  wf_DestGroup : is_u32 (len (str_bytes (p_DestGroup p)));
  wf_DestNode : is_u32 (len (str_bytes (p_DestNode p)));
  wf_TotalChunks : is_u32 (p_TotalChunks p);
  wf_ChunkNumber : is_u32 (p_ChunkNumber p);
  wf_SubIndex : is_u32 (p_SubIndex p);
  wf_SubTotal : is_u32 (p_SubTotal p);
  wf_BlockIndex : is_u32 (p_BlockIndex p);
  wf_BlockLen : is_u32 (p_BlockLen p);
  wf_DataShards : is_u32 (p_DataShards p);
  wf_ParityShards : is_u32 (p_ParityShards p);
  wf_OriginalLen : is_u64 (p_OriginalLen p);
  wf_PayloadSize : is_u32 (p_PayloadSize p);
  wf_ReplyBlock : is_u32 (len (p_ReplyBlock p));
  wf_Pad : is_u32 (len (p_Pad p));
  wf_Payload : is_u32 (len (p_Payload p));
  wf_SignerKey : is_u32 (len (p_SignerKey p));
  wf_Signature : is_u32 (len (p_Signature p))
}.

Create HintDb wire.
#[export] Hint Resolve wf_ID wf_Type wf_Timestamp wf_SourceNode wf_DestGroup wf_DestNode
  wf_TotalChunks wf_ChunkNumber wf_SubIndex wf_SubTotal wf_BlockIndex wf_BlockLen
  wf_DataShards wf_ParityShards wf_OriginalLen wf_PayloadSize wf_ReplyBlock wf_Pad
  wf_Payload wf_SignerKey wf_Signature : wire.

(** ** The cursor reads back what the encoder appended *)

(** [reads m enc a]: on a stream that starts with [enc], [m] yields [a] and
    consumes exactly [enc]. *)
Definition reads {A} (m : rd A) (enc : bytes) (a : A) : Prop :=
  forall rest, m (mkReader (enc ++ rest) false) = (a, mkReader rest false).

Lemma reads_ret {A} (a : A) : reads (mret a) [] a.
Proof. intros rest. done. Qed.

Lemma reads_bind {A B} (m : rd A) (k : A -> rd B) enc enc' a b :
  reads m enc a -> reads (k a) enc' b -> reads (m ≫= k) (enc ++ enc') b.
Proof.
  intros Hm Hk rest. unfold mbind, rd_bind. rewrite <- app_assoc, Hm. apply Hk.
Qed.

Lemma reads_take d n : n = len d -> reads (r_take n) d d.
Proof.
  intros -> rest. unfold r_take; cbn [r_err r_b].
  pose proof (len_nonneg d). pose proof (len_nonneg rest).
  rewrite (proj2 (orb_false_iff _ _)) by (rewrite len_app; split; lia).
  by rewrite take_len_app, drop_len_app.
Qed.

Lemma reads_u8 v : is_u8 v -> reads r_u8 [byte_of_Z v] v.
Proof.
  intros Hv rest. unfold r_u8. rewrite (reads_take [byte_of_Z v] 1) by done.
  rewrite byte_to_of_Z, Z.mod_small by exact Hv. done.
Qed.

Lemma reads_u32 v : is_u32 v -> reads r_u32 (be_bytes 4 v) v.
Proof.
  intros Hv rest. unfold r_u32. rewrite (reads_take (be_bytes 4 v) 4) by done.
  by rewrite len_be_bytes, be_val_u32.
Qed.

Lemma reads_u64 v : is_u64 v -> reads r_u64 (be_bytes 8 v) v.
Proof.
  intros Hv rest. unfold r_u64. rewrite (reads_take (be_bytes 8 v) 8) by done.
  by rewrite len_be_bytes, be_val_u64.
Qed.

Lemma reads_bytes d : is_u32 (len d) -> reads r_bytes (be_bytes 4 (u32 (len d)) ++ d) d.
Proof.
  intros Hd rest. unfold r_bytes. rewrite u32_id, <- app_assoc, reads_u32 by done.
  by apply reads_take.
Qed.

Lemma reads_str s :
  is_u32 (len (str_bytes s)) -> reads r_str (be_bytes 4 (u32 (len (str_bytes s))) ++ str_bytes s) s.
Proof.
  intros Hs rest. unfold r_str, mbind, rd_bind. rewrite reads_bytes by done.
  unfold mret, rd_ret. by rewrite str_bytes_str.
Qed.

Lemma reads_bool b : reads r_bool [boolByte b] b.
Proof.
  intros rest. replace (boolByte b) with (byte_of_Z (if b then 1 else 0)) by by destruct b.
  unfold r_bool, mbind, rd_bind. rewrite reads_u8 by by destruct b. by destruct b.
Qed.

#[export] Hint Resolve reads_u8 reads_u32 reads_u64 reads_bytes reads_str reads_bool
  u64_is_u64 : wire.

Lemma copy_id_length d : length d = 32%nat -> copy_id 32 d = d.
Proof. intros H. unfold copy_id. rewrite <- H. apply take_app_length. Qed.

(** [MarshalBinary] as a right-nested concatenation of its fields. *)
Definition marshal_fields (p : Packet) : bytes :=
  let lp d := be_bytes 4 (u32 (len d)) ++ d in
  p_ID p ++ [byte_of_Z (p_Type p)] ++ be_bytes 8 (u64 (p_Timestamp p)) ++
  lp (str_bytes (p_SourceNode p)) ++ lp (str_bytes (p_DestGroup p)) ++
  lp (str_bytes (p_DestNode p)) ++ be_bytes 4 (p_TotalChunks p) ++ be_bytes 4 (p_ChunkNumber p) ++
  be_bytes 4 (p_SubIndex p) ++ be_bytes 4 (p_SubTotal p) ++ [boolByte (p_Streaming p)] ++
  be_bytes 4 (p_BlockIndex p) ++ be_bytes 4 (p_BlockLen p) ++ [boolByte (p_Final p)] ++
  [boolByte (p_HybridSealed p)] ++ [boolByte (p_PQ p)] ++ [boolByte (p_Resumable p)] ++
  be_bytes 4 (p_DataShards p) ++ be_bytes 4 (p_ParityShards p) ++ be_bytes 8 (p_OriginalLen p) ++
  [boolByte (p_Variable p)] ++ [boolByte (p_Decoy p)] ++ be_bytes 4 (p_PayloadSize p) ++
  lp (p_Payload p) ++ lp (p_SignerKey p) ++ lp (p_Signature p) ++ lp (p_ReplyBlock p) ++
  lp (p_Pad p).

Lemma MarshalBinary_fields p : MarshalBinary p = marshal_fields p.
Proof.
  unfold MarshalBinary, marshal_fields, appendBytes, appendU32, appendU64.
  cbn zeta. rewrite <- !app_assoc. done.
Qed.

Lemma unmarshal_body_reads p : wf_packet p -> reads unmarshal_body (MarshalBinary p) p.
Proof.
  intros Hp. rewrite MarshalBinary_fields. rewrite <- (app_nil_r (marshal_fields p)).
  unfold marshal_fields. cbn zeta.
  assert (is_u32 (p_TotalChunks p)) by auto with wire.
  unfold unmarshal_body. rewrite <- ?app_assoc.
  eapply reads_bind; [apply reads_take; unfold len; rewrite wf_ID by done; done|].
  do 2 (eapply reads_bind; [auto with wire|]).
  do 3 (rewrite app_assoc; eapply reads_bind; [auto with wire|]).
  do 17 (eapply reads_bind; [auto with wire|]).
  do 5 (rewrite app_assoc; eapply reads_bind; [auto with wire|]).
  rewrite copy_id_length, i64_u64 by auto with wire.
  destruct p. apply reads_ret.
Qed.

Lemma UnmarshalBinary_reads d p rest :
  reads unmarshal_body d p -> UnmarshalBinary (d ++ rest) = Ok p.
Proof. intros H. unfold UnmarshalBinary. by rewrite H. Qed.

(** ** Decoding is monotone in the stream, and its results are well-formed *)

(** A computation that succeeded is unaffected by further bytes, which it leaves
    in the cursor, and it never clears the error flag. *)
Definition extensible {A} (m : rd A) : Prop :=
  forall b e a b', m (mkReader b e) = (a, mkReader b' false) ->
    e = false /\ forall x, m (mkReader (b ++ x) false) = (a, mkReader (b' ++ x) false).

Lemma extensible_ret {A} (a : A) : extensible (mret a).
Proof. intros b e a' b' H. unfold mret, rd_ret in *. simplify_eq. done. Qed.

Lemma extensible_bind {A B} (m : rd A) (k : A -> rd B) :
  extensible m -> (forall a, extensible (k a)) -> extensible (m ≫= k).
Proof.
  intros Hm Hk b e c b' H. unfold mbind, rd_bind in *.
  destruct (m (mkReader b e)) as [a [b1 e1]] eqn:E.
  destruct (Hk a _ _ _ _ H) as [-> Hx]. destruct (Hm _ _ _ _ E) as [-> Hm'].
  split; [done|]. intros x. rewrite Hm'. apply Hx.
Qed.

Lemma extensible_take n : extensible (r_take n).
Proof.
  intros b e a b'. unfold r_take; cbn [r_err r_b]. destruct e; [intros; simplify_eq|].
  case_if; intros; simplify_eq. split; [done|]. intros x.
  rewrite (proj2 (orb_false_iff _ _)) by (rewrite len_app; pose proof (len_nonneg x); lia).
  unfold len in *. rewrite take_app_le, drop_app_le by lia. done.
Qed.

Lemma extensible_map {A B} (f : A -> B) (m : rd A) :
  extensible m -> extensible (fun r => let '(a, r') := m r in (f a, r')).
Proof. intros H. exact (extensible_bind m (fun a => mret (f a)) H (fun a => extensible_ret (f a))). Qed.

Lemma extensible_bytes : extensible r_bytes.
Proof.
  refine (extensible_bind r_u32 r_take _ extensible_take).
  exact (extensible_map _ _ (extensible_take 4)).
Qed.

Lemma extensible_u8 : extensible r_u8.
Proof. exact (extensible_map _ _ (extensible_take 1)). Qed.

Lemma extensible_u32 : extensible r_u32.
Proof. exact (extensible_map _ _ (extensible_take 4)). Qed.

Lemma extensible_u64 : extensible r_u64.
Proof. exact (extensible_map _ _ (extensible_take 8)). Qed.

Lemma extensible_str : extensible r_str.
Proof. exact (extensible_map _ _ extensible_bytes). Qed.

Lemma extensible_bool : extensible r_bool.
Proof. exact (extensible_map _ _ extensible_u8). Qed.

#[export] Hint Resolve extensible_take extensible_ret extensible_bytes extensible_u8
  extensible_u32 extensible_u64 extensible_str extensible_bool : wire.

Lemma extensible_body : extensible unmarshal_body.
Proof.
  unfold unmarshal_body.
  repeat (apply extensible_bind; [auto with wire|intros ?]). auto with wire.
Qed.

(** [yields P m]: every result of [m], failed or not, satisfies [P]. *)
Definition yields {A} (P : A -> Prop) (m : rd A) : Prop := forall r, P (m r).1.

Lemma yields_bind {A B} (P : A -> Prop) (Q : B -> Prop) (m : rd A) (k : A -> rd B) :
  yields P m -> (forall a, P a -> yields Q (k a)) -> yields Q (m ≫= k).
Proof.
  intros Hm Hk r. unfold mbind, rd_bind. specialize (Hm r). destruct (m r) as [a r'].
  by apply Hk.
Qed.

Lemma yields_take n : yields (fun d => len d <= Z.max 0 n) (r_take n).
Proof.
  intros r. unfold r_take. repeat case_if; cbn [fst]; rewrite ?len_nil; try lia.
  unfold len. rewrite length_take. unfold len in *. lia.
Qed.

Lemma yields_u8 : yields is_u8 r_u8.
Proof.
  intros r. unfold r_u8. destruct (r_take 1 r) as [d r']. cbn [fst].
  destruct d as [|x [|y d]]; [|apply byte_to_Z_range|]; done.
Qed.

Lemma yields_u32 : yields is_u32 r_u32.
Proof.
  intros r. unfold r_u32. destruct (r_take 4 r) as [d r']. cbn [fst].
  case_if; [|done]. pose proof (be_val_range d) as H. rewrite Heqb in H. exact H.
Qed.

Lemma yields_u64 : yields is_u64 r_u64.
Proof.
  intros r. unfold r_u64. destruct (r_take 8 r) as [d r']. cbn [fst].
  case_if; [|done]. pose proof (be_val_range d) as H. rewrite Heqb in H. exact H.
Qed.

Lemma yields_bytes : yields (fun d => is_u32 (len d)) r_bytes.
Proof.
  intros r. unfold r_bytes. pose proof (yields_u32 r) as Hu.
  destruct (r_u32 r) as [n r']. pose proof (yields_take n r') as Ht.
  cbn [fst] in *. destruct (r_take n r') as [d r'']. cbn [fst] in *.
  pose proof (len_nonneg d). unfold is_u32 in *. lia.
Qed.

Lemma yields_str : yields (fun s => is_u32 (len (str_bytes s))) r_str.
Proof.
  eapply yields_bind; [apply yields_bytes|]. intros d Hd r.
  unfold mret, rd_ret. cbn [fst]. by rewrite bytes_str_bytes.
Qed.

Lemma yields_bool : yields (fun _ => True) r_bool.
Proof. done. Qed.

#[export] Hint Resolve yields_u8 yields_u32 yields_u64 yields_bytes yields_str yields_bool
  yields_take : wire.

Lemma is_i64_i64 z : is_i64 (i64 z).
Proof.
  unfold is_i64, i64. pose proof (Z.mod_pos_bound z (2 ^ 64) ltac:(lia)).
  case_if; lia.
Qed.

Lemma yields_body : yields wf_packet unmarshal_body.
Proof.
  unfold unmarshal_body.
  repeat (eapply yields_bind; [eauto with wire|intros ? ?]).
  intros r. cbn. split; cbn; try done; [|apply is_i64_i64].
  unfold copy_id. rewrite length_take, length_app, repeat_length. lia.
Qed.

(** ** The signed image determines the signed fields *)

(** [canonicalBytes] as a right-nested concatenation. *)
Definition canonical_fields (p : Packet) : bytes :=
  let lp d := be_bytes 4 (u32 (len d)) ++ d in
  [byte_of_Z (p_Type p)] ++ p_ID p ++
  (lp (str_bytes (p_SourceNode p)) ++ lp (str_bytes (p_DestGroup p)) ++
  lp (str_bytes (p_DestNode p)) ++ be_bytes 4 (p_ChunkNumber p) ++ be_bytes 4 (p_TotalChunks p) ++
  be_bytes 4 (p_PayloadSize p) ++ be_bytes 4 (p_DataShards p) ++ be_bytes 4 (p_ParityShards p) ++
  be_bytes 8 (p_OriginalLen p) ++ be_bytes 4 (p_SubIndex p) ++ be_bytes 4 (p_SubTotal p) ++
  [boolByte (p_Streaming p)] ++ be_bytes 4 (p_BlockIndex p) ++ be_bytes 4 (p_BlockLen p) ++
  [boolByte (p_Final p)] ++ [boolByte (p_HybridSealed p)] ++ [boolByte (p_PQ p)] ++
  [boolByte (p_Resumable p)] ++ [boolByte (p_Variable p)] ++ lp (p_SignerKey p) ++
  lp (p_ReplyBlock p) ++ [boolByte (p_Decoy p)] ++ p_Payload p).

Lemma append_bool (b : bool) buf :
  (if b then buf ++ [x01] else buf ++ [x00]) = buf ++ [boolByte b].
Proof. by destruct b. Qed.

Lemma canonicalBytes_fields p : canonicalBytes p = canonical_fields p.
Proof.
  unfold canonicalBytes, canonical_fields, appendLenString. cbn zeta.
  rewrite !append_bool, <- !app_assoc. done.
Qed.

(** Peeling one field off two equal encodings. *)
Lemma peel_u32 a b r s :
  is_u32 a -> is_u32 b -> be_bytes 4 a ++ r = be_bytes 4 b ++ s -> a = b /\ r = s.
Proof.
  intros Ha Hb H. apply app_split_eq in H as [H ?]; [|by rewrite !length_be_bytes].
  by apply be_bytes_inj in H.
Qed.

Lemma peel_u64 a b r s :
  is_u64 a -> is_u64 b -> be_bytes 8 a ++ r = be_bytes 8 b ++ s -> a = b /\ r = s.
Proof.
  intros Ha Hb H. apply app_split_eq in H as [H ?]; [|by rewrite !length_be_bytes].
  by apply be_bytes_inj in H.
Qed.

Lemma peel_u8 a b r s :
  is_u8 a -> is_u8 b -> [byte_of_Z a] ++ r = [byte_of_Z b] ++ s -> a = b /\ r = s.
Proof.
  intros Ha Hb H. injection H as H ->. split; [|done]. apply (f_equal byte_to_Z) in H.
  by rewrite !byte_to_of_Z, !Z.mod_small in H.
Qed.

Lemma peel_bool a b r s : [boolByte a] ++ r = [boolByte b] ++ s -> a = b /\ r = s.
Proof. intros H. injection H as H ->. by destruct a, b. Qed.

Lemma peel_lp (a b r s : bytes) :
  is_u32 (len a) -> is_u32 (len b) ->
  (be_bytes 4 (u32 (len a)) ++ a) ++ r = (be_bytes 4 (u32 (len b)) ++ b) ++ s -> a = b /\ r = s.
Proof.
  intros Ha Hb H. rewrite !u32_id, <- !app_assoc in H by done.
  apply peel_u32 in H as [Hl H]; [|done..].
  apply app_split_eq in H; [done|]. unfold len in Hl. lia.
Qed.

Lemma peel_str (a b : string) (r s : bytes) :
  is_u32 (len (str_bytes a)) -> is_u32 (len (str_bytes b)) ->
  (be_bytes 4 (u32 (len (str_bytes a))) ++ str_bytes a) ++ r =
  (be_bytes 4 (u32 (len (str_bytes b))) ++ str_bytes b) ++ s -> a = b /\ r = s.
Proof. intros Ha Hb H. apply peel_lp in H as [H ?]; [|done..]. by apply str_bytes_inj in H. Qed.

Ltac peel H :=
  lazymatch type of H with
  | (be_bytes 4 (u32 (len (str_bytes _))) ++ _) ++ _ = _ =>
      apply peel_str in H as [? H]; [|solve [auto with wire]..]
  | (be_bytes 4 (u32 (len _)) ++ _) ++ _ = _ => apply peel_lp in H as [? H]; [|solve [auto with wire]..]
  | be_bytes 4 _ ++ _ = _ => apply peel_u32 in H as [? H]; [|solve [auto with wire]..]
  | be_bytes 8 _ ++ _ = _ => apply peel_u64 in H as [? H]; [|solve [auto with wire]..]
  | [boolByte _] ++ _ = _ => apply peel_bool in H as [? H]
  | [byte_of_Z _] ++ _ = _ => apply peel_u8 in H as [? H]; [|solve [auto with wire]..]
  end.

(** What the signature covers: all fields but these three. *)
Definition signed_part (p : Packet) : Packet := set_timestamp 0 (set_pad [] (set_signature [] p)).

Lemma canonicalBytes_inj p q :
  wf_packet p -> wf_packet q -> canonicalBytes p = canonicalBytes q -> signed_part p = signed_part q.
Proof.
  intros Hp Hq H. rewrite !canonicalBytes_fields in H. unfold canonical_fields in H. cbn zeta in H.
  peel H. apply app_split_eq in H as [? H]; [|by rewrite !wf_ID]. repeat peel H.
  destruct p, q. cbn in *. unfold signed_part. cbn. subst. done.
Qed.

Lemma canonicalBytes_signed_part p : canonicalBytes (signed_part p) = canonicalBytes p.
Proof. done. Qed.

(** ** Hexadecimal *)

Lemma HexID_fold (pre id post : bytes) (k : nat) :
  length pre = (2 * k)%nat -> length post = (2 * length id)%nat ->
  fold_left HexID_step (zip (seq k (length id)) id) (pre ++ post) = pre ++ hex_bytes id.
Proof.
  revert pre post k. induction id as [|b id IH]; intros pre post k Hp Hq; simpl.
  - destruct post; [done|]. simpl in Hq. lia.
  - simpl in Hq. destruct post as [|x [|y post]]; simpl in Hq; try lia.
    rewrite insert_app_r_alt, Hp by lia.
    replace (k * 2 - 2 * k)%nat with 0%nat by lia. simpl.
    rewrite insert_app_r_alt, Hp by lia.
    replace (k * 2 + 1 - 2 * k)%nat with 1%nat by lia. simpl.
    set (h1 := hexdigit (Z.shiftr (byte_to_Z b) 4)). set (h2 := hexdigit (Z.land (byte_to_Z b) 15)).
    replace (pre ++ h1 :: h2 :: post) with ((pre ++ [h1; h2]) ++ post) by by rewrite <- app_assoc.
    rewrite IH; [by rewrite <- app_assoc|rewrite length_app; simpl; lia|lia].
Qed.

Lemma HexID_EncodeToString id : length id = 32%nat -> HexID id = EncodeToString id.
Proof.
  intros H. unfold HexID, EncodeToString. f_equal.
  apply (HexID_fold [] id (repeat x00 64) 0); [done|]. rewrite repeat_length. lia.
Qed.

Lemma hexdigit_inj a b : 0 <= a < 16 -> 0 <= b < 16 -> hexdigit a = hexdigit b -> a = b.
Proof.
  intros Ha Hb H.
  assert (Hc : forall n, (n < 16)%nat -> forall m, (m < 16)%nat ->
    nth n hextable x00 = nth m hextable x00 -> n = m).
  { intros n Hn m Hm. apply (NoDup_nth hextable x00); [|done..].
    apply NoDup_ListNoDup. apply (bool_decide_unpack _). vm_compute. done. }
  apply Hc in H; lia.
Qed.

Lemma hex_bytes_inj a b : hex_bytes a = hex_bytes b -> a = b.
Proof.
  revert b. induction a as [|x a IH]; intros [|y b] H; try discriminate; [done|].
  cbn [hex_bytes] in H. injection H as H1 H2 H3. apply IH in H3 as ->. f_equal.
  pose proof (byte_to_Z_range x). pose proof (byte_to_Z_range y).
  rewrite !Z.shiftr_div_pow2 in H1 by lia. rewrite !(Z.land_ones _ 4) in H2 by lia.
  apply hexdigit_inj in H1, H2; try (apply Z.mod_pos_bound; lia);
    try (split; [apply Z.div_pos|apply Z.div_lt_upper_bound]; lia).
  apply byte_to_Z_inj. rewrite (Z.div_mod (byte_to_Z x) (2 ^ 4)), (Z.div_mod (byte_to_Z y) (2 ^ 4)) by lia.
  congruence.
Qed.

Lemma EncodeToString_inj a b : EncodeToString a = EncodeToString b -> a = b.
Proof.
  unfold EncodeToString. intros H. apply (f_equal str_bytes) in H.
  rewrite !bytes_str_bytes in H. by apply hex_bytes_inj.
Qed.

(** ** Theorems *)

(** Reading [n] packets off a connection, one [ReadPacket] after another. *)
Fixpoint read_packets (n : nat) (s : bytes) : result wire_err (list Packet * bytes) :=
  match n with
  | O => Ok ([], s)
  | S n' =>
      try (p, s) := ReadPacket s in
      try (ps, s) := read_packets n' s in
      Ok (p :: ps, s)
  end.

Definition fits_frame (p : Packet) : Prop := len (MarshalBinary p) <= maxFrameSize.

Lemma is_u32_frame p : fits_frame p -> is_u32 (len (MarshalBinary p)).
Proof.
  unfold fits_frame, is_u32. change maxFrameSize with 8388608.
  pose proof (len_nonneg (MarshalBinary p)). lia.
Qed.

Lemma ReadFull_app d s n : n = len d -> ReadFull n (d ++ s) = Ok (d, s).
Proof.
  intros ->. unfold ReadFull. pose proof (len_nonneg s).
  case_if; [rewrite len_app in *; lia|]. by rewrite take_len_app, drop_len_app.
Qed.

Lemma unmarshal_wf b p : UnmarshalBinary b = Ok p -> wf_packet p.
Proof.
  unfold UnmarshalBinary. pose proof (yields_body (mkReader b false)) as Hy. destruct (unmarshal_body _) as [q [b' e]]. cbn in *. destruct e; [done|]. intros [= <-]. by apply Hy.
Qed.

Lemma ReadFull_inv n s d s' :
  0 <= n -> ReadFull n s = Ok (d, s') -> s = d ++ s' /\ len d = n.
Proof.
  unfold ReadFull. intros Hn. case_if; [case_if; discriminate|].
  intros H; simplify_eq. rewrite take_drop. unfold len in *. rewrite length_take. split; [done|lia].
Qed.

Lemma marshal_roundtrip p : wf_packet p -> UnmarshalBinary (MarshalBinary p) = Ok p.
Proof.
  intros Hp. pose proof (UnmarshalBinary_reads _ p [] (unmarshal_body_reads p Hp)) as Hb. by rewrite app_nil_r in Hb.
Qed.

Lemma ReadPacket_WritePacket p rest :
  wf_packet p -> fits_frame p -> ReadPacket (WritePacket p ++ rest) = Ok (p, rest).
Proof.
  intros Hp Hf. unfold ReadPacket, WritePacket. rewrite <- app_assoc.
  pose proof (is_u32_frame p Hf) as Hu. unfold fits_frame in Hf.
  rewrite u32_id by done. rewrite ReadFull_app by by rewrite len_be_bytes.
  rewrite be_val_u32 by done. case_if; [lia|]. rewrite ReadFull_app by done.
  by rewrite marshal_roundtrip.
Qed.

(** C30: Any sequence of well-formed packets written back to back on a stream is
    read back exactly, in order, and the reader stops at the first byte after
    the last frame. *)
Theorem stream_roundtrip ps rest :
  Forall wf_packet ps -> Forall fits_frame ps ->
  read_packets (length ps) (concat (map WritePacket ps) ++ rest) = Ok (ps, rest).
Proof.
  induction ps as [|p ps IH]; intros Hw Hf; [done|].
  inversion_clear Hw. inversion_clear Hf. cbn [length read_packets map concat].
  rewrite <- app_assoc, ReadPacket_WritePacket by done. by rewrite IH.
Qed.

Definition sample_packet : Packet :=
  mkPacket (repeat x07 32) PacketTypeRelay (-5) "alice" "grp" "bob" 3 1 0 2 true 4 1000 false
    true false true 2 1 123456 false [x01] false [x00; x00] 3 [xff; x10; x80] (repeat x02 32)
    (repeat x03 64).

Lemma sample_packet_wf : wf_packet sample_packet.
Proof. split; cbn; unfold is_u8, is_i64, is_u32, is_u64; try lia; split; vm_compute; congruence. Qed.

Lemma sample_packet_fits : fits_frame sample_packet.
Proof. vm_compute. congruence. Qed.

Lemma stream_roundtrip_witness :
  read_packets 2 (WritePacket sample_packet ++ WritePacket sample_packet ++ [x2a]) =
    Ok ([sample_packet; sample_packet], [x2a]).
Proof.
  pose proof (stream_roundtrip [sample_packet; sample_packet] [x2a]) as H.
  cbn [length map concat] in H. rewrite app_nil_r, <- app_assoc in H.
  apply H; repeat apply Forall_cons_2; first [apply Forall_nil_2 | exact sample_packet_wf | exact sample_packet_fits].
Defined.

(** Whatever bytes a peer sends, a packet that [ReadPacket] accepts is
    well-formed (every field in the range of its Go type), the frame it came from
    is at most [maxFrameSize] long, and exactly the frame was consumed. *)
Theorem ReadPacket_sound s p s' :
  ReadPacket s = Ok (p, s') ->
  wf_packet p /\
  exists body, s = be_bytes 4 (len body) ++ body ++ s' /\
    len body <= maxFrameSize /\ UnmarshalBinary body = Ok p.
Proof.
  unfold ReadPacket.
  destruct (ReadFull 4 s) as [[hdr s1]|] eqn:E1; [|done].
  apply ReadFull_inv in E1 as [-> Hh]; [|done]. case_if; [done|].
  destruct (ReadFull (be_val hdr) s1) as [[body s2]|] eqn:E2; [|done].
  pose proof (be_val_range hdr) as Hv.
  apply ReadFull_inv in E2 as [-> Hb]; [|lia].
  destruct (UnmarshalBinary body) as [q|] eqn:E3; [|done]. intros H; simplify_eq. split.
  - unfold UnmarshalBinary in E3. pose proof (yields_body (mkReader body false)) as Hy.
    destruct (unmarshal_body _) as [q r]. case_if_in E3; simplify_eq. done.
  - exists body. rewrite Hb. split; [|split; [lia|done]]. f_equal.
    replace 4%nat with (length hdr) by (unfold len in Hh; lia). by rewrite be_bytes_val.
Qed.

Lemma ReadPacket_sound_witness :
  ReadPacket (WritePacket sample_packet) = Ok (sample_packet, []) /\ wf_packet sample_packet.
Proof.
  assert (H : ReadPacket (WritePacket sample_packet) = Ok (sample_packet, [])) by (vm_compute; reflexivity).
  split; [exact H|]. apply (ReadPacket_sound _ _ _ H).
Defined.

(** A packet cut short anywhere is refused: no strict prefix of an encoding
    decodes, and trailing bytes do not change what is decoded. *)
Theorem unmarshal_prefix p pre post :
  wf_packet p -> MarshalBinary p = pre ++ post ->
  UnmarshalBinary (MarshalBinary p ++ post) = Ok p /\
  (post <> [] -> UnmarshalBinary pre = Err errMalformedPacket).
Proof.
  intros Hp He. pose proof (unmarshal_body_reads p Hp) as Hr.
  split; [by apply UnmarshalBinary_reads|]. intros Hne. unfold UnmarshalBinary.
  destruct (unmarshal_body (mkReader pre false)) as [q [b' e]] eqn:E. cbn [r_err].
  destruct e; [done|]. exfalso. apply extensible_body in E as [_ Hx].
  specialize (Hx post). specialize (Hr []). rewrite app_nil_r, He, Hx in Hr.
  injection Hr as _ Hb. apply app_nil in Hb as [_ ?]. done.
Qed.

Lemma unmarshal_prefix_witness :
  UnmarshalBinary (take 100 (MarshalBinary sample_packet)) = Err errMalformedPacket.
Proof.
  apply (unmarshal_prefix sample_packet _ (drop 100 (MarshalBinary sample_packet)) sample_packet_wf).
  - symmetry. apply take_drop.
  - vm_compute. discriminate.
Defined.

(** Two packets with the same signed image agree on every field but the
    timestamp, the padding and the signature: a signature cannot be moved to a
    packet with another source, destination, fragment position or payload. *)
Theorem canonical_injective p q :
  wf_packet p -> wf_packet q ->
  canonicalBytes p = canonicalBytes q <-> signed_part p = signed_part q.
Proof.
  intros Hp Hq. split; [by apply canonicalBytes_inj|].
  intros H. by rewrite <- (canonicalBytes_signed_part p), H.
Qed.

Lemma canonical_injective_witness :
  canonicalBytes sample_packet <> canonicalBytes (set_signer [] sample_packet).
Proof.
  intros H. apply canonical_injective in H.
  - vm_compute in H. discriminate.
  - exact sample_packet_wf.
  - split; cbn; unfold is_u8, is_i64, is_u32, is_u64; try lia; split; vm_compute; congruence.
Defined.

Section Signing.
Context `{C : CryptoOps} `{L : !CryptoLaws C}.

(** A packet signed with a private key verifies and names that key's node;
    it still does after any change of its timestamp and padding, which the
    signature does not cover; a key of the wrong length signs nothing. *)
Lemma sign_verify priv p t pad :
  let q := Sign priv p in
  (len priv = ed_PrivateKeySize ->
     Verify (set_timestamp t (set_pad pad q)) = true /\
     SignerID q = DeriveNodeID (ed_public priv) /\
     set_signature (p_Signature p) (set_signer (p_SignerKey p) q) = p) /\
  (len priv <> ed_PrivateKeySize -> q = p) /\
  Verify (set_timestamp t (set_pad pad p)) = Verify p.
Proof using L.
  cbn zeta. unfold Sign. split; [|split].
  - intros Hk. rewrite (proj2 (Z.eqb_eq _ _) Hk). cbn [negb]. split; [|split]; [|done|by destruct p].
    unfold Verify. cbn. rewrite ed_public_len, ed_sign_len by done. cbn.
    by apply (ed_verify_sign priv).
  - intros Hk. by rewrite (proj2 (Z.eqb_neq _ _) Hk).
  - done.
Qed.
End Signing.
