(* ===== verification/Announce.v ===== *)
(** * Announces (internal/protocol/announce.go)

    The announce payload a node floods to advertise itself, the canonical bytes
    its inner signature covers, and the key-binding check. *)

From S2P Require Import Prelude Crypto Wire.

Record AnnouncePayload : Type := mkAnnounce {
  a_DestHash : string;
  a_SignKey : bytes;
  a_PubKey : bytes;
  a_MLKEMPub : bytes;
  a_Port : Z;                     (** uint16 *)
  a_Capabilities : list string;
  a_RelayIDs : list string;
  a_AppData : bytes;
  a_Timestamp : Z;                (** int64 *)
  a_Nonce : Z;                    (** uint64 *)
  a_HopCount : Z;                 (** uint8, not signed *)
  a_Signature : bytes
}.

Record PathRequestPayload : Type := mkPathRequest {
  pr_DestHash : string;
  pr_Nonce : Z;
  pr_HopCount : Z
}.

(** The closures of [signedBytes], appending to [b]. *)
Definition putLen (b : bytes) (n : Z) : bytes := b ++ be_bytes 4 (u32 n).
Definition putBytes (b p : bytes) : bytes := putLen b (len p) ++ p.
Definition putStr (b : bytes) (s : string) : bytes := putBytes b (str_bytes s).

Definition signedBytes (a : AnnouncePayload) : bytes :=
  let b := [] in
  let b := putStr b (a_DestHash a) in
  let b := putBytes b (a_SignKey a) in
  let b := putBytes b (a_PubKey a) in
  let b := putBytes b (a_MLKEMPub a) in
  let b := b ++ be_bytes 2 (a_Port a) in
  let b := putLen b (len (a_Capabilities a)) in
  let b := fold_left putStr (a_Capabilities a) b in
  let b := putBytes b (a_AppData a) in
  let b :=
    if 0 <? len (a_RelayIDs a)
    then fold_left putStr (a_RelayIDs a) (putLen b (len (a_RelayIDs a)))
    else b in
  let b := b ++ be_bytes 8 (u64 (a_Timestamp a)) in
  let b := b ++ be_bytes 8 (a_Nonce a) in
  b.

Definition set_hop_count (h : Z) (a : AnnouncePayload) : AnnouncePayload :=
  mkAnnounce (a_DestHash a) (a_SignKey a) (a_PubKey a) (a_MLKEMPub a) (a_Port a)
    (a_Capabilities a) (a_RelayIDs a) (a_AppData a) (a_Timestamp a) (a_Nonce a) h (a_Signature a).
Definition set_a_signature (s : bytes) (a : AnnouncePayload) : AnnouncePayload :=
  mkAnnounce (a_DestHash a) (a_SignKey a) (a_PubKey a) (a_MLKEMPub a) (a_Port a)
    (a_Capabilities a) (a_RelayIDs a) (a_AppData a) (a_Timestamp a) (a_Nonce a) (a_HopCount a) s.
Definition set_a_signkey (k : bytes) (a : AnnouncePayload) : AnnouncePayload :=
  mkAnnounce (a_DestHash a) k (a_PubKey a) (a_MLKEMPub a) (a_Port a)
    (a_Capabilities a) (a_RelayIDs a) (a_AppData a) (a_Timestamp a) (a_Nonce a) (a_HopCount a)
    (a_Signature a).

Section Ops.
Context `{C : CryptoOps}.

Definition a_Sign (priv : bytes) (a : AnnouncePayload) : AnnouncePayload :=
  if negb (len priv =? ed_PrivateKeySize) then a
  else
    let a := set_a_signkey (ed_public priv) a in
    set_a_signature (ed_sign priv (signedBytes a)) a.

Definition VerifySig (a : AnnouncePayload) : bool :=
  if negb (len (a_SignKey a) =? ed_PublicKeySize) || negb (len (a_Signature a) =? ed_SignatureSize)
  then false
  else ed_verify (a_SignKey a) (signedBytes a) (a_Signature a).

Definition VerifyBound (a : AnnouncePayload) : bool :=
  negb (String.eqb (a_DestHash a) "") && String.eqb (DeriveNodeID (a_SignKey a)) (a_DestHash a)
  && VerifySig a.
End Ops.

(** ** The signed image determines the announce *)

Record wf_announce (a : AnnouncePayload) : Prop := {
  wfa_DestHash : is_u32 (len (str_bytes (a_DestHash a)));
  wfa_SignKey : is_u32 (len (a_SignKey a));
  wfa_PubKey : is_u32 (len (a_PubKey a));
  wfa_MLKEMPub : is_u32 (len (a_MLKEMPub a));
  wfa_Port : is_u16 (a_Port a);
  wfa_Capabilities : is_u32 (len (a_Capabilities a));
  wfa_Capability : Forall (fun s => is_u32 (len (str_bytes s))) (a_Capabilities a);
  wfa_RelayIDs : is_u32 (len (a_RelayIDs a));
  wfa_RelayID : Forall (fun s => is_u32 (len (str_bytes s))) (a_RelayIDs a);
  wfa_AppData : is_u32 (len (a_AppData a));
  wfa_Timestamp : is_i64 (a_Timestamp a);
  wfa_Nonce : is_u64 (a_Nonce a)
}.

#[export] Hint Resolve wfa_DestHash wfa_SignKey wfa_PubKey wfa_MLKEMPub wfa_Port
  wfa_Capabilities wfa_Capability wfa_RelayIDs wfa_RelayID wfa_AppData wfa_Timestamp
  wfa_Nonce : wire.

Definition lp (d : bytes) : bytes := be_bytes 4 (u32 (len d)) ++ d.
Definition lp_strs (l : list string) : bytes := concat (map (fun s => lp (str_bytes s)) l).
Definition relay_part (l : list string) : bytes :=
  if 0 <? len l then be_bytes 4 (u32 (len l)) ++ lp_strs l else [].

Lemma fold_putStr l b : fold_left putStr l b = b ++ lp_strs l.
Proof.
  revert b. induction l as [|s l IH]; intros b; cbn [fold_left]; [by rewrite app_nil_r|].
  rewrite IH. unfold putStr, putBytes, putLen, lp_strs, lp. simpl. by rewrite <- !app_assoc.
Qed.

Lemma signedBytes_fields a :
  signedBytes a =
    lp (str_bytes (a_DestHash a)) ++ lp (a_SignKey a) ++ lp (a_PubKey a) ++ lp (a_MLKEMPub a) ++
    be_bytes 2 (a_Port a) ++ be_bytes 4 (u32 (len (a_Capabilities a))) ++
    lp_strs (a_Capabilities a) ++ lp (a_AppData a) ++ relay_part (a_RelayIDs a) ++
    be_bytes 8 (u64 (a_Timestamp a)) ++ be_bytes 8 (a_Nonce a).
Proof.
  unfold signedBytes, relay_part, putStr, putBytes, putLen, lp. cbn zeta.
  rewrite !fold_putStr. case_if; rewrite <- !app_assoc; done.
Qed.

Lemma peel_strs l k r s :
  length l = length k ->
  Forall (fun s => is_u32 (len (str_bytes s))) l -> Forall (fun s => is_u32 (len (str_bytes s))) k ->
  lp_strs l ++ r = lp_strs k ++ s -> l = k /\ r = s.
Proof.
  revert k. induction l as [|x l IH]; intros [|y k] Hl Hf Hg H; try discriminate; [done|].
  inversion_clear Hf. inversion_clear Hg. injection Hl as Hl.
  unfold lp_strs, lp in H. cbn [map concat] in H.
  rewrite <- (app_assoc _ _ r), <- (app_assoc _ _ s) in H.
  apply peel_str in H as [-> H]; [|done..]. apply IH in H as [-> ->]; done.
Qed.

Lemma len_relay_part l : l <> [] -> 8 <= len (relay_part l).
Proof.
  destruct l as [|s l]; [done|]. intros _. unfold relay_part.
  case_if; [|rewrite len_cons in *; pose proof (len_nonneg l); lia].
  unfold lp_strs, lp. cbn [map concat]. rewrite !len_app, !len_be_bytes.
  pose proof (len_nonneg (str_bytes s)).
  match goal with |- context [len (concat ?x)] => pose proof (len_nonneg (concat x)) end. lia.
Qed.

(** The optional relay list is told apart by what is left after it. *)
Lemma peel_relays l k r s :
  is_u32 (len l) -> is_u32 (len k) ->
  Forall (fun s => is_u32 (len (str_bytes s))) l -> Forall (fun s => is_u32 (len (str_bytes s))) k ->
  length r = length s -> relay_part l ++ r = relay_part k ++ s -> l = k /\ r = s.
Proof.
  intros Hl Hk Fl Fk Hrs H.
  assert (Hlen : len (relay_part l) = len (relay_part k)).
  { apply (f_equal (fun x => len x)) in H. rewrite !len_app in H. unfold len in *. lia. }
  destruct l as [|x l], k as [|y k].
  1: done.
  1-2: exfalso; match goal with H : _ = len (relay_part ?z) |- _ =>
         first [pose proof (len_relay_part (y :: k) ltac:(done)) | pose proof (len_relay_part (x :: l) ltac:(done))]
       end; change (len (relay_part [])) with 0 in *; lia.
  unfold relay_part in H. pose proof (len_nonneg l). pose proof (len_nonneg k).
  do 2 (case_if_in H; [|rewrite len_cons in *; lia]).
  rewrite !u32_id, <- !app_assoc in H by done.
  apply peel_u32 in H as [Hn H]; [|done..].
  apply peel_strs in H as [-> ->]; [done| |done..]. unfold len in Hn. lia.
Qed.

Lemma peel_u16 a b (r s : bytes) :
  is_u16 a -> is_u16 b -> be_bytes 2 a ++ r = be_bytes 2 b ++ s -> a = b /\ r = s.
Proof.
  intros Ha Hb H. apply app_split_eq in H as [H ?]; [|by rewrite !length_be_bytes].
  by apply be_bytes_inj in H.
Qed.

(** ** Theorems *)

(** The signed image of an announce determines everything in it but the hop
    count and the signature itself, although the relay list is written only when
    it is not empty. *)
Theorem signedBytes_injective a b :
  wf_announce a -> wf_announce b -> signedBytes a = signedBytes b ->
  set_hop_count 0 (set_a_signature [] a) = set_hop_count 0 (set_a_signature [] b).
Proof.
  intros Ha Hb H. rewrite !signedBytes_fields in H. unfold lp in H.
  do 4 peel H. apply peel_u16 in H as [? H]; [|auto with wire..].
  rewrite (u32_id (len (a_Capabilities a))), (u32_id (len (a_Capabilities b))) in H by auto with wire.
  apply peel_u32 in H as [Hc H]; [|auto with wire..].
  apply peel_strs in H as [? H]; [|unfold len in Hc; lia|auto with wire..].
  unfold lp in H. peel H. apply peel_relays in H as [? H]; [|auto with wire..|].
  2: by rewrite !length_app, !length_be_bytes.
  apply peel_u64 in H as [Ht H]; [|auto with wire..].
  apply be_bytes_inj in H; [|apply wfa_Nonce..]; [|done..].
  assert (a_Timestamp a = a_Timestamp b).
  { apply (f_equal i64) in Ht. rewrite !i64_u64 in Ht by auto with wire. done. }
  destruct a, b. cbn in *. subst. done.
Qed.

Definition sample_announce : AnnouncePayload :=
  mkAnnounce "ab" (repeat x02 32) [x01] [] 9000 ["relay"] ["r1"; "r2"] [] (-7) 42 3 [].
Definition sample_announce_bare : AnnouncePayload :=
  mkAnnounce "ab" (repeat x02 32) [x01] [] 9000 ["relay"] [] [] (-7) 42 3 [].

Lemma sample_announce_wf : wf_announce sample_announce.
Proof. split; cbn; repeat constructor; unfold is_u32, is_u16, is_u64, is_i64; vm_compute; try congruence. Qed.
Lemma sample_announce_bare_wf : wf_announce sample_announce_bare.
Proof. split; cbn; repeat constructor; unfold is_u32, is_u16, is_u64, is_i64; vm_compute; try congruence. Qed.

Lemma signedBytes_injective_witness : signedBytes sample_announce <> signedBytes sample_announce_bare.
Proof.
  intros H. apply (signedBytes_injective _ _ sample_announce_wf sample_announce_bare_wf) in H.
  vm_compute in H. discriminate.
Defined.

Section Binding.
Context `{C : CryptoOps} `{L : !CryptoLaws C}.

(** An announce signed by the key its destination hash is derived from is
    accepted at any hop count, and an accepted announce always names the hash of
    the key that verifies it. *)
Theorem announce_binding a h :
  (forall priv, len priv = ed_PrivateKeySize -> a_DestHash a = DeriveNodeID (ed_public priv) ->
     VerifyBound (set_hop_count h (a_Sign priv a)) = true) /\
  (VerifyBound a = true ->
     a_DestHash a = DeriveNodeID (a_SignKey a) /\ len (a_SignKey a) = ed_PublicKeySize /\
     ed_verify (a_SignKey a) (signedBytes a) (a_Signature a) = true /\
     VerifyBound (set_hop_count h a) = true).
Proof using L.
  split.
  - intros priv Hk Hd. unfold a_Sign. rewrite (proj2 (Z.eqb_eq _ _) Hk). cbn [negb].
    unfold VerifyBound, VerifySig. cbn. rewrite Hd, String.eqb_refl, ed_public_len, ed_sign_len by done.
    cbn. rewrite (ed_verify_sign priv) by done. unfold DeriveNodeID.
    rewrite ed_public_len by done. cbn -[sha256 EncodeToString].
    pose proof (sha256_len (ed_public priv)) as Hs.
    destruct (sha256 (ed_public priv)) as [|x t]; [discriminate|]. done.
  - intros Hb. split; [|split; [|split]]; [..|exact Hb]; unfold VerifyBound, VerifySig in Hb; split_bools;
      [done|case_if_in H0; [done|]; done..].
Qed.
End Binding.

Lemma announce_binding_witness :
  @VerifyBound toy_ops
    (set_hop_count 200 (@a_Sign toy_ops (repeat x05 64)
       (mkAnnounce (@DeriveNodeID toy_ops (repeat x05 32)) [] [] [] 1 [] [] [] 0 0 0 []))) = true.
Proof.
  apply (@announce_binding toy_ops toy_laws
    (mkAnnounce (@DeriveNodeID toy_ops (repeat x05 32)) [] [] [] 1 [] [] [] 0 0 0 []) 200) with (priv := repeat x05 64); reflexivity.
Defined.
