(* ===== verification/Net.v ===== *)
(** * Addresses (what the sources use of Go's [net] and [fmt] packages)

    [SplitHostPort] and [hostOf] are written out; parsing and printing of IP
    addresses, which the code only uses to group hosts by subnet, are the two
    operations of [NetOps]. *)

From S2P Require Import Prelude.
From stdpp Require Import pretty.
#[local] Open Scope Z_scope.

Definition ch (s : string) : byte := match str_bytes s with b :: _ => b | [] => x00 end.

(** [strings.IndexByte] and [LastIndexByte]. *)
Fixpoint IndexByte (l : bytes) (c : byte) : option nat :=
  match l with
  | [] => None
  | b :: t => if bool_decide (b = c) then Some 0%nat else S <$> IndexByte t c
  end.

Fixpoint LastIndexByte (l : bytes) (c : byte) : option nat :=
  match l with
  | [] => None
  | b :: t =>
      match LastIndexByte t c with
      | Some i => Some (S i)
      | None => if bool_decide (b = c) then Some 0%nat else None
      end
  end.

(** [net.SplitHostPort]; the error texts are not used by the callers. *)
Definition SplitHostPort_bytes (hp : bytes) : option (bytes * bytes) :=
  match LastIndexByte hp (ch ":") with
  | None => None
  | Some i =>
      let finish (j k : nat) (host : bytes) :=
        if bool_decide (is_Some (IndexByte (drop j hp) (ch "["))) then None
        else if bool_decide (is_Some (IndexByte (drop k hp) (ch "]"))) then None
        else Some (host, drop (i + 1) hp) in
      if bool_decide (head hp = Some (ch "[")) then
        match IndexByte hp (ch "]") with
        | None => None
        | Some e => if (e + 1 =? i)%nat then finish 1%nat (e + 1)%nat (subslice hp 1 e) else None
        end
      else
        let host := take i hp in
        if bool_decide (is_Some (IndexByte host (ch ":"))) then None else finish 0%nat 0%nat host
  end.

Definition SplitHostPort (hostport : string) : option (string * string) :=
  match SplitHostPort_bytes (str_bytes hostport) with
  | Some (h, p) => Some (bytes_str h, bytes_str p)
  | None => None
  end.

(** [net.JoinHostPort]. *)
Definition JoinHostPort (host port : string) : string :=
  if bool_decide (is_Some (IndexByte (str_bytes host) (ch ":")))
  then ("[" ++ host ++ "]:" ++ port)%string else (host ++ ":" ++ port)%string.

Definition hostOf (addr : string) : string :=
  match SplitHostPort addr with Some (h, _) => h | None => addr end.

(** [net.ParseIP] gives the 16-byte form of an address; [IP.String] prints one. *)
Class NetOps := {
  ParseIP : string -> option bytes;
  IPString : bytes -> string
}.

(** [IP.To4]: the last four bytes of an IPv4-mapped address. *)
Definition To4 (ip : bytes) : option bytes :=
  if bool_decide (take 12 ip = repeat x00 10 ++ [xff; xff]) then Some (drop 12 ip) else None.

Definition dec (b : byte) : string := pretty (byte_to_Z b).

(** Go's [<] on strings: byte-wise lexicographic. *)
Fixpoint bytes_ltb (a b : bytes) : bool :=
  match a, b with
  | _, [] => false
  | [], _ :: _ => true
  | x :: a', y :: b' =>
      if byte_to_Z x <? byte_to_Z y then true
      else if byte_to_Z y <? byte_to_Z x then false
      else bytes_ltb a' b'
  end.
Definition str_ltb (a b : string) : bool := bytes_ltb (str_bytes a) (str_bytes b).

Lemma bytes_ltb_total a b : bytes_ltb a b = false -> bytes_ltb b a = false -> a = b.
Proof.
  revert b. induction a as [|x a IH]; intros [|y b] H1 H2; try done.
  cbn in *. repeat case_if_in H1; repeat case_if_in H2; try done; try lia.
  assert (x = y) as -> by (apply byte_to_Z_inj; lia). f_equal. by apply IH.
Qed.

Lemma bytes_ltb_asym a b : bytes_ltb a b = true -> bytes_ltb b a = false.
Proof.
  revert b. induction a as [|x a IH]; intros [|y b] H; try done.
  cbn in *. repeat case_if_in H; try done; repeat case_if; try done; try lia. by apply IH.
Qed.

Lemma bytes_ltb_negtrans a b c :
  bytes_ltb b a = false -> bytes_ltb c b = false -> bytes_ltb c a = false.
Proof.
  revert b c. induction a as [|x a IH]; intros [|y b] [|z c] H1 H2; try done.
  cbn in *. repeat case_if_in H1; repeat case_if_in H2; try done; repeat case_if; try done; try lia.
  by eapply IH.
Qed.

#[global] Instance bytes_ltb_strict_weak : StrictWeak bytes_ltb.
Proof. split; [apply bytes_ltb_asym|apply bytes_ltb_negtrans]. Qed.

#[global] Instance str_ltb_strict_weak : StrictWeak str_ltb.
Proof. apply (ltb_on_strict_weak str_bytes). apply _. Qed.

Lemma str_ltb_total a b : str_ltb a b = false -> str_ltb b a = false -> a = b.
Proof. intros H1 H2. by apply str_bytes_inj, bytes_ltb_total. Qed.

Example split_v4 : SplitHostPort "10.0.0.1:80" = Some ("10.0.0.1", "80").
Proof. reflexivity. Qed.
Example split_v6 : SplitHostPort "[::1]:80" = Some ("::1", "80").
Proof. reflexivity. Qed.
Example split_many : SplitHostPort "::1:80" = None.
Proof. reflexivity. Qed.
