(* ===== verification/Dht.v ===== *)
(** * The Kademlia layer (internal/dht/dht.go)

    128-bit identifiers under the XOR metric, the k-bucket routing table and the
    iterative node lookup.  The network callback of [Lookup] is an arbitrary
    function of the queries made so far, so the theorems hold whatever the probed
    nodes answer. *)

From S2P Require Import Prelude Crypto Wire.
From stdpp Require Import vector.
#[local] Open Scope Z_scope.

Definition IDLen : nat := 16.
Definition IDBits : nat := IDLen * 8.
Definition DefaultK : Z := 20.
Definition DefaultAlpha : Z := 3.
Definition DefaultMaxRounds : Z := 20.

(** [type ID [IDLen]byte]. *)
Definition ID : Type := vec byte IDLen.
#[global] Instance ID_eq_dec : EqDecision ID := vec_dec.

(** [copy(id[:], b)] into the zero ID. *)
Fixpoint copy_vec (n : nat) (l : bytes) : vec byte n :=
  match n with
  | O => vnil
  | S n' => match l with [] => vcons x00 (copy_vec n' []) | b :: t => vcons b (copy_vec n' t) end
  end.

Lemma copy_vec_to_list {n} (v : vec byte n) : copy_vec n (vec_to_list v) = v.
Proof. induction v as [|b n v IH]; [done|]. cbn. by rewrite IH. Qed.

#[global] Instance ID_countable : Countable ID :=
  inj_countable' vec_to_list (copy_vec IDLen) copy_vec_to_list.

(** ** Hexadecimal identifiers *)

(** [encoding/hex.DecodeString]. *)
Definition fromHexChar (c : byte) : option Z :=
  let z := byte_to_Z c in
  if (48 <=? z) && (z <=? 57) then Some (z - 48)
  else if (97 <=? z) && (z <=? 102) then Some (z - 97 + 10)
  else if (65 <=? z) && (z <=? 70) then Some (z - 65 + 10)
  else None.

Fixpoint DecodeHex (l : bytes) : option bytes :=
  match l with
  | [] => Some []
  | [_] => None
  | a :: b :: t =>
      match fromHexChar a, fromHexChar b, DecodeHex t with
      | Some x, Some y, Some r => Some (byte_of_Z (Z.lor (Z.shiftl x 4) y) :: r)
      | _, _, _ => None
      end
  end.

Inductive dht_err : Type := errBadHex | errBadLength.

Definition ParseID (s : string) : result dht_err ID :=
  match DecodeHex (str_bytes s) with
  | None => Err errBadHex
  | Some b => if negb (len b =? Z.of_nat IDLen) then Err errBadLength else Ok (copy_vec IDLen b)
  end.

Definition ID_String (id : ID) : string := EncodeToString (vec_to_list id).

Definition IsZero (id : ID) : bool := forallb (fun b => byte_to_Z b =? 0) (vec_to_list id).

(** ** The XOR metric *)

Definition xor_byte (a b : byte) : byte := byte_of_Z (Z.lxor (byte_to_Z a) (byte_to_Z b)).
Definition xor (a b : ID) : ID := vzip_with xor_byte a b.

Fixpoint less_loop (a b : bytes) : bool :=
  match a, b with
  | x :: a', y :: b' =>
      if negb (byte_to_Z x =? byte_to_Z y) then byte_to_Z x <? byte_to_Z y else less_loop a' b'
  | _, _ => false
  end.
Definition less (a b : ID) : bool := less_loop (vec_to_list a) (vec_to_list b).

Definition closer (target a b : ID) : bool := less (xor a target) (xor b target).

(** [math/bits.LeadingZeros8]. *)
Definition LeadingZeros8 (z : Z) : Z := if z =? 0 then 8 else 7 - Z.log2 z.

(** The loop of [bucketIndex] at byte [i]. *)
Fixpoint bucketIndex_loop (i : Z) (d : bytes) : Z :=
  match d with
  | [] => -1
  | b :: t =>
      if negb (byte_to_Z b =? 0) then
        let msbInByte := 7 - LeadingZeros8 (byte_to_Z b) in
        let byteFromLSB := Z.of_nat IDLen - 1 - i in
        byteFromLSB * 8 + msbInByte
      else bucketIndex_loop (i + 1) t
  end.
Definition bucketIndex (self other : ID) : Z := bucketIndex_loop 0 (vec_to_list (xor self other)).

(** ** The routing table *)

Record Contact : Type := mkContact { c_ID : ID; c_Address : string; c_Port : Z }.

Record RoutingTable : Type := mkRT {
  rt_self : ID;
  rt_k : Z;
  rt_buckets : list (list Contact)      (** [[IDBits][]Contact] *)
}.

Definition NewRoutingTable (self : ID) (k : Z) : RoutingTable :=
  let k := if k <=? 0 then DefaultK else k in
  mkRT self k (repeat [] IDBits).

(** The scan of [Update]: [b] without its first contact of this ID. *)
Fixpoint remove_contact (id : ID) (b : list Contact) : option (list Contact) :=
  match b with
  | [] => None
  | c :: t => if bool_decide (c_ID c = id) then Some t
              else match remove_contact id t with Some t' => Some (c :: t') | None => None end
  end.

Definition set_bucket (rt : RoutingTable) (bi : nat) (b : list Contact) : RoutingTable :=
  mkRT (rt_self rt) (rt_k rt) (<[bi := b]> (rt_buckets rt)).

Definition Update (rt : RoutingTable) (c : Contact) : RoutingTable :=
  if bool_decide (c_ID c = rt_self rt) || IsZero (c_ID c) then rt
  else
    let bi := bucketIndex (rt_self rt) (c_ID c) in
    if bi <? 0 then rt
    else
      let bi := Z.to_nat bi in
      let b := nth bi (rt_buckets rt) [] in
      match remove_contact (c_ID c) b with
      | Some b => set_bucket rt bi (b ++ [c])
      | None =>
          let b := if rt_k rt <=? len b then drop 1 b else b in
          set_bucket rt bi (b ++ [c])
      end.

Definition contacts (rt : RoutingTable) : list Contact := concat (rt_buckets rt).

Definition lenLocked (rt : RoutingTable) : Z :=
  fold_left (fun n b => n + len b) (rt_buckets rt) 0.

Definition sort_contacts (target : ID) (l : list Contact) : list Contact :=
  sort_by (fun a b => closer target (c_ID a) (c_ID b)) l.

Definition Closest (rt : RoutingTable) (target : ID) (count : Z) : list Contact :=
  let all := contacts rt in
  let all := sort_contacts target all in
  if (0 <=? count) && (count <? len all) then take (Z.to_nat count) all else all.

(** ** The iterative lookup *)

Section NodeLookup.
(** [query history c]: what the node [c] answers, after the probes [history]. *)
Variable query : list Contact -> Contact -> list Contact.

Record lookup_state : Type := mkLookup {
  lk_shortlist : list Contact;
  lk_queried : gset ID;
  lk_seen : gset ID;
  lk_probes : list Contact          (** the probes made, in order *)
}.

(** The selection of up to [alpha] contacts not yet queried. *)
Fixpoint select_batch (alpha : Z) (queried : gset ID) (shortlist batch : list Contact) : list Contact :=
  match shortlist with
  | [] => batch
  | c :: t =>
      if alpha <=? len batch then batch
      else if bool_decide (c_ID c ∈ queried) then select_batch alpha queried t batch
      else select_batch alpha queried t (batch ++ [c])
  end.

Definition merge_reply (st : lookup_state) (r : Contact) : lookup_state :=
  if bool_decide (c_ID r ∈ lk_seen st) then st
  else mkLookup (lk_shortlist st ++ [r]) (lk_queried st) ({[c_ID r]} ∪ lk_seen st) (lk_probes st).

Definition probe (st : lookup_state) (c : Contact) : lookup_state :=
  let replies := query (lk_probes st) c in
  let st := mkLookup (lk_shortlist st) ({[c_ID c]} ∪ lk_queried st) (lk_seen st) (lk_probes st ++ [c]) in
  fold_left merge_reply replies st.

Definition end_round (target : ID) (k : Z) (st : lookup_state) : lookup_state :=
  let s := sort_contacts target (lk_shortlist st) in
  let s := if k <? len s then take (Z.to_nat k) s else s in
  mkLookup s (lk_queried st) (lk_seen st) (lk_probes st).

(** The boolean says whether the loop ended because every contact of the
    shortlist has been queried. *)
Fixpoint lookup_rounds (rounds : nat) (target : ID) (k alpha : Z) (st : lookup_state) : lookup_state * bool :=
  match rounds with
  | O => (st, false)
  | S rounds' =>
      let batch := select_batch alpha (lk_queried st) (lk_shortlist st) [] in
      if len batch =? 0 then (st, true)
      else lookup_rounds rounds' target k alpha (end_round target k (fold_left probe batch st))
  end.

Definition lookup_init (rt : RoutingTable) (target : ID) (k : Z) : lookup_state :=
  let shortlist := Closest rt target k in
  mkLookup shortlist {[rt_self rt]} (fold_left (fun s c => {[c_ID c]} ∪ s) shortlist {[rt_self rt]}) [].

Definition Lookup_run (rt : RoutingTable) (target : ID) (k alpha maxRounds : Z) : lookup_state * bool :=
  let k := if k <=? 0 then rt_k rt else k in
  let alpha := if alpha <=? 0 then DefaultAlpha else alpha in
  let maxRounds := if maxRounds <=? 0 then DefaultMaxRounds else maxRounds in
  lookup_rounds (Z.to_nat maxRounds) target k alpha (lookup_init rt target k).

Definition RT_Lookup (rt : RoutingTable) (target : ID) (k alpha maxRounds : Z) : list Contact :=
  lk_shortlist (Lookup_run rt target k alpha maxRounds).1.
End NodeLookup.

(** ** The metric is the XOR of the identifiers read as 128-bit integers *)

Definition id_val (a : ID) : Z := be_val (vec_to_list a).
Definition dist (target : ID) (c : Contact) : Z := id_val (xor (c_ID c) target).

Lemma less_loop_spec a b :
  length a = length b -> less_loop a b = (be_val a <? be_val b).
Proof.
  revert b. induction a as [|x a IH]; intros [|y b] Hl; try discriminate; [done|].
  injection Hl as Hl. cbn [less_loop]. rewrite !be_val_cons.
  assert (Hlen : len a = len b) by (unfold len; lia). rewrite Hlen.
  pose proof (be_val_range a) as Ha. pose proof (be_val_range b) as Hb. rewrite Hlen in Ha.
  case_if.
  - destruct (Z.ltb_spec (byte_to_Z x) (byte_to_Z y)); symmetry; [apply Z.ltb_lt|apply Z.ltb_ge]; nia.
  - rewrite IH, Heqb0 by done. destruct (Z.ltb_spec (be_val a) (be_val b));
      symmetry; [apply Z.ltb_lt|apply Z.ltb_ge]; lia.
Qed.

Lemma less_spec a b : less a b = (id_val a <? id_val b).
Proof. apply less_loop_spec. by rewrite !length_vec_to_list. Qed.

Lemma closer_spec target a b :
  closer target (c_ID a) (c_ID b) = (dist target a <? dist target b).
Proof. apply less_spec. Qed.

Lemma byte_ext_testbit a b : byte_to_Z a = byte_to_Z b <-> a = b.
Proof. split; [apply byte_to_Z_inj|by intros ->]. Qed.

Lemma xor_byte_val a b : byte_to_Z (xor_byte a b) = Z.lxor (byte_to_Z a) (byte_to_Z b).
Proof.
  unfold xor_byte. rewrite byte_to_of_Z. apply Z.mod_small.
  pose proof (byte_to_Z_range a). pose proof (byte_to_Z_range b).
  assert (0 <= Z.lxor (byte_to_Z a) (byte_to_Z b)) by (apply Z.lxor_nonneg; lia).
  split; [done|]. destruct (Z.eq_dec (Z.lxor (byte_to_Z a) (byte_to_Z b)) 0); [lia|].
  apply (Z.log2_lt_pow2 _ 8); [lia|].
  pose proof (Z.log2_lxor (byte_to_Z a) (byte_to_Z b) ltac:(lia) ltac:(lia)).
  assert (forall z, 0 <= z < 256 -> Z.log2 z < 8) as Hl.
  { intros z Hz. destruct (Z.eq_dec z 0) as [->|]; [done|]. apply Z.log2_lt_pow2; lia. }
  pose proof (Hl _ H). pose proof (Hl _ H0). lia.
Qed.

Lemma xor_byte_cancel a b t : xor_byte a t = xor_byte b t -> a = b.
Proof.
  intros H. apply (f_equal byte_to_Z) in H. rewrite !xor_byte_val in H. apply byte_to_Z_inj.
  rewrite <- (Z.lxor_0_r (byte_to_Z a)), <- (Z.lxor_0_r (byte_to_Z b)), <- (Z.lxor_nilpotent (byte_to_Z t)).
  by rewrite <- !Z.lxor_assoc, H.
Qed.

Lemma zip_xor_cancel (a b t : bytes) :
  length a = length t -> length b = length t ->
  zip_with xor_byte a t = zip_with xor_byte b t -> a = b.
Proof.
  revert b t. induction a as [|x a IH]; intros [|y b] [|z t] H1 H2 H; try discriminate; [done|].
  simpl in H. injection H as Hx H. apply xor_byte_cancel in Hx as ->. f_equal.
  apply (IH _ t); [simpl in *; lia..|done].
Qed.

Lemma vec_to_list_inj (a b : ID) : vec_to_list a = vec_to_list b -> a = b.
Proof. apply vec_to_list_inj2. Qed.

Lemma id_val_inj a b : id_val a = id_val b -> a = b.
Proof.
  intros H. apply vec_to_list_inj. apply be_val_inj; [|done]. by rewrite !length_vec_to_list.
Qed.

Lemma dist_inj target a b : dist target a = dist target b -> c_ID a = c_ID b.
Proof.
  unfold dist. intros H. apply id_val_inj in H.
  apply (f_equal vec_to_list) in H. unfold xor in H. rewrite !vec_to_list_zip_with in H.
  apply zip_xor_cancel in H; [by apply vec_to_list_inj|by rewrite !length_vec_to_list..].
Qed.

Lemma xor_self a b : id_val (xor a b) = 0 <-> a = b.
Proof.
  assert (Hz : forall x : ID, id_val (xor x x) = 0).
  { intros x. unfold id_val, xor. rewrite vec_to_list_zip_with.
    induction (vec_to_list x) as [|b0 l IH]; [done|]. cbn [zip_with].
    by rewrite be_val_cons, xor_byte_val, Z.lxor_nilpotent, IH. }
  split; [|by intros ->]. intros H.
  apply (dist_inj b (mkContact a "" 0) (mkContact b "" 0)). unfold dist. cbn [c_ID]. by rewrite H, Hz.
Qed.

Lemma log2_shift_add b n r :
  0 < b -> 0 <= n -> 0 <= r < 256 ^ n -> Z.log2 (b * 256 ^ n + r) = n * 8 + Z.log2 b.
Proof.
  intros Hb Hn Hr. replace (256 ^ n) with (2 ^ (8 * n)) in * by by rewrite Z.pow_mul_r by lia.
  pose proof (Z.log2_spec b Hb) as [H1 H2]. pose proof (Z.log2_nonneg b).
  apply Z.log2_unique; [lia|]. rewrite <- Z.add_succ_r, !Z.pow_add_r by lia.
  rewrite (Z.mul_comm n 8). nia.
Qed.

Lemma bucketIndex_loop_spec i d :
  i + len d = Z.of_nat IDLen ->
  bucketIndex_loop i d = if be_val d =? 0 then -1 else Z.log2 (be_val d).
Proof.
  revert i. induction d as [|b t IH]; intros i Hi; [done|].
  cbn [bucketIndex_loop]. rewrite be_val_cons. rewrite len_cons in Hi.
  pose proof (byte_to_Z_range b). pose proof (be_val_range t). pose proof (len_nonneg t).
  destruct (Z.eqb_spec (byte_to_Z b) 0) as [E|E]; cbn [negb].
  - rewrite E, Z.mul_0_l, Z.add_0_l. apply IH. lia.
  - destruct (Z.eqb_spec (byte_to_Z b * 256 ^ len t + be_val t) 0); [nia|].
    unfold LeadingZeros8. case_if; [lia|]. rewrite log2_shift_add by lia. lia.
Qed.

Lemma bucketIndex_spec self other :
  bucketIndex self other = if bool_decide (self = other) then -1 else Z.log2 (id_val (xor self other)).
Proof.
  unfold bucketIndex. rewrite bucketIndex_loop_spec.
  2: { unfold len. by rewrite length_vec_to_list. }
  fold (id_val (xor self other)). case_bool_decide as Hd; destruct (Z.eqb_spec (id_val (xor self other)) 0) as [E|E];
    try done.
  - by apply xor_self in Hd.
  - by apply xor_self in E.
Qed.

Lemma id_val_range a : 0 <= id_val a < 2 ^ 128.
Proof.
  unfold id_val. pose proof (be_val_range (vec_to_list a)) as H.
  unfold len in H. by rewrite length_vec_to_list in H.
Qed.

Lemma bucketIndex_range self other : self <> other -> 0 <= bucketIndex self other < Z.of_nat IDBits.
Proof.
  intros Hne. rewrite bucketIndex_spec, bool_decide_eq_false_2 by done.
  split; [apply Z.log2_nonneg|]. pose proof (id_val_range (xor self other)).
  assert (id_val (xor self other) <> 0) by by rewrite xor_self.
  apply Z.log2_lt_pow2; [lia|]. change (Z.of_nat IDBits) with 128. lia.
Qed.

(** ** The table invariant *)

Record rt_ok (rt : RoutingTable) : Prop := {
  ok_k : 0 < rt_k rt;
  ok_buckets : length (rt_buckets rt) = IDBits;
  ok_size i b : rt_buckets rt !! i = Some b -> len b <= rt_k rt;
  ok_nodup i b : rt_buckets rt !! i = Some b -> NoDup (map c_ID b);
  ok_index i b c : rt_buckets rt !! i = Some b -> c ∈ b ->
    bucketIndex (rt_self rt) (c_ID c) = Z.of_nat i /\ IsZero (c_ID c) = false
}.

Lemma NewRoutingTable_ok self k : rt_ok (NewRoutingTable self k).
Proof.
  split; cbn [NewRoutingTable rt_k rt_buckets rt_self].
  - case_if; [done|lia].
  - apply repeat_length.
  - intros i b H. apply list_elem_of_lookup_2 in H. apply list_elem_of_In, repeat_spec in H as ->.
    rewrite len_nil. case_if; [done|lia].
  - intros i b H. apply list_elem_of_lookup_2 in H. apply list_elem_of_In, repeat_spec in H as ->. constructor.
  - intros i b c H Hc. apply list_elem_of_lookup_2 in H. apply list_elem_of_In, repeat_spec in H as ->.
    by apply not_elem_of_nil in Hc.
Qed.

Lemma remove_contact_Some id b b' :
  remove_contact id b = Some b' ->
  exists l c r, b = l ++ c :: r /\ b' = l ++ r /\ c_ID c = id.
Proof.
  revert b'. induction b as [|c t IH]; intros b' H; [done|]. cbn in H. case_bool_decide.
  - simplify_eq. exists [], c, b'. done.
  - destruct (remove_contact id t) as [t'|]; [|done]. simplify_eq.
    destruct (IH _ eq_refl) as (l & x & r & -> & -> & ?). exists (c :: l), x, r. done.
Qed.

Lemma remove_contact_None id b : remove_contact id b = None -> id ∉ map c_ID b.
Proof.
  induction b as [|c t IH]; cbn; [set_solver|]. case_bool_decide; [done|].
  destruct (remove_contact id t); [done|]. intros _. apply not_elem_of_cons. split; [done|]. by apply IH.
Qed.

Definition bucket (rt : RoutingTable) (id : ID) : list Contact :=
  nth (Z.to_nat (bucketIndex (rt_self rt) id)) (rt_buckets rt) [].

(** What the bucket of an accepted contact becomes: the contact is the newest
    entry, at most one entry went, and that one had the same ID or was the
    oldest of a full bucket. *)
Definition refreshed (k : Z) (c : Contact) (b b' : list Contact) : Prop :=
  exists l r, b' = l ++ r ++ [c] /\
    ((exists d, b = l ++ d :: r /\ c_ID d = c_ID c) \/
     (b = l ++ r /\ len b < k /\ c_ID c ∉ map c_ID b) \/
     (exists d, l = [] /\ b = d :: r /\ k <= len b /\ c_ID c ∉ map c_ID b)).

Lemma Update_bucket rt c :
  rt_ok rt -> c_ID c <> rt_self rt -> IsZero (c_ID c) = false ->
  exists b', Update rt c = set_bucket rt (Z.to_nat (bucketIndex (rt_self rt) (c_ID c))) b' /\
    refreshed (rt_k rt) c (bucket rt (c_ID c)) b'.
Proof.
  intros Hok Hne Hz. unfold Update. rewrite bool_decide_eq_false_2, Hz by done. cbn [orb].
  pose proof (bucketIndex_range (rt_self rt) (c_ID c) ltac:(congruence)) as Hr.
  case_if; [lia|]. fold (bucket rt (c_ID c)).
  destruct (remove_contact (c_ID c) (bucket rt (c_ID c))) as [b1|] eqn:E.
  - apply remove_contact_Some in E as (l & d & r & Hb & -> & Hd). eexists. split; [done|].
    exists l, r. split; [by rewrite app_assoc|]. left. by exists d.
  - apply remove_contact_None in E. eexists. split; [done|].
    destruct (Z.leb_spec (rt_k rt) (len (bucket rt (c_ID c)))) as [H1|H1].
    + destruct (bucket rt (c_ID c)) as [|d r] eqn:Eb.
      { pose proof (ok_k rt Hok). rewrite len_nil in H1. lia. }
      exists [], r. split; [done|]. right. right. exists d. done.
    + exists [], (bucket rt (c_ID c)). split; [done|]. right. left. done.
Qed.

Lemma refreshed_ids k c b b' :
  NoDup (map c_ID b) -> refreshed k c b b' -> NoDup (map c_ID b').
Proof.
  intros Hn (l & r & -> & H). rewrite app_assoc, map_app. apply NoDup_app.
  destruct H as [(d & -> & Hd)|[(-> & _ & Hc)|(d & -> & -> & _ & Hc)]].
  - rewrite map_app in Hn. cbn in Hn. rewrite Permutation_app_comm in Hn. cbn in Hn.
    apply NoDup_cons in Hn as [Hni Hn]. rewrite Permutation_app_comm, <- map_app in Hn.
    rewrite <- map_app in Hni. split; [done|]. split; [|apply NoDup_singleton].
    intros x Hx. cbn. rewrite list_elem_of_singleton. intros ->. apply Hni.
    rewrite Hd, map_app, Permutation_app_comm, <- map_app. done.
  - split; [done|]. split; [|apply NoDup_singleton].
    intros x Hx. cbn. rewrite list_elem_of_singleton. by intros ->.
  - cbn in *. apply NoDup_cons in Hn as [_ Hn]. split; [done|]. split; [|apply NoDup_singleton].
    intros x Hx. rewrite list_elem_of_singleton. intros ->. apply Hc. by right.
Qed.

Lemma refreshed_size k c b b' : len b <= k -> refreshed k c b b' -> len b' <= k.
Proof.
  intros Hk (l & r & -> & H). autorewrite with len.
  destruct H as [(d & -> & _)|[(-> & H & _)|(d & -> & -> & H & _)]];
    autorewrite with len in *; lia.
Qed.

Lemma refreshed_elem k c b b' d : refreshed k c b b' -> d ∈ b' -> d ∈ b \/ d = c.
Proof.
  intros (l & r & -> & H) Hd. rewrite app_assoc in Hd. apply elem_of_app in Hd as [Hd|Hd].
  2: apply list_elem_of_singleton in Hd; by right.
  clear -H Hd. left. destruct H as [(e & -> & _)|[(-> & _)|(e & -> & -> & _)]]; revert Hd; rewrite ?elem_of_app, ?elem_of_cons, ?elem_of_nil; tauto.
Qed.

Lemma nth_bucket rt id :
  rt_ok rt -> rt_self rt <> id ->
  rt_buckets rt !! Z.to_nat (bucketIndex (rt_self rt) id) = Some (bucket rt id).
Proof.
  intros Hok Hne. pose proof (bucketIndex_range _ _ Hne) as Hr. pose proof (ok_buckets rt Hok).
  unfold bucket. by destruct (nth_lookup_or_length (rt_buckets rt)
    (Z.to_nat (bucketIndex (rt_self rt) id)) []) as [?|?]; [|lia].
Qed.

Lemma set_bucket_ok rt c b' :
  rt_ok rt -> c_ID c <> rt_self rt -> IsZero (c_ID c) = false ->
  refreshed (rt_k rt) c (bucket rt (c_ID c)) b' ->
  rt_ok (set_bucket rt (Z.to_nat (bucketIndex (rt_self rt) (c_ID c))) b').
Proof.
  intros Hok Hne Hz Hr. pose proof (nth_bucket rt (c_ID c) Hok ltac:(congruence)) as Hb.
  pose proof (bucketIndex_range (rt_self rt) (c_ID c) ltac:(congruence)) as Hrange.
  assert (Hcase : forall i b, rt_buckets (set_bucket rt (Z.to_nat (bucketIndex (rt_self rt) (c_ID c))) b') !! i = Some b ->
    (Z.of_nat i = bucketIndex (rt_self rt) (c_ID c) /\ b = b') \/ rt_buckets rt !! i = Some b).
  { cbn. intros i b Hi. apply list_lookup_insert_Some in Hi as [(<- & <- & _)|[_ ?]]; [left; split; [lia|done]|by right]. }
  split; [apply (ok_k rt Hok)|cbn; rewrite length_insert; apply (ok_buckets rt Hok)|..];
    cbn [rt_k rt_self set_bucket].
  - intros i b [[_ ->]|Hi]%Hcase; [|by apply (ok_size rt Hok i)].
    eapply refreshed_size, Hr. by eapply ok_size.
  - intros i b [[_ ->]|Hi]%Hcase; [|by apply (ok_nodup rt Hok i)].
    eapply refreshed_ids, Hr. by eapply ok_nodup.
  - intros i b d [[Hi ->]|Hi]%Hcase Hd; [|by eapply (ok_index rt Hok i)].
    destruct (refreshed_elem _ _ _ _ _ Hr Hd) as [Hd'|Hd']; [|subst d; split; [lia|done]].
    destruct (ok_index rt Hok _ _ _ Hb Hd'). split; [lia|done].
Qed.

Lemma NoDup_concat_indexed {A K} (f : A -> K) (g : K -> Z) (L : list (list A)) (off : nat) :
  (forall i b c, L !! i = Some b -> c ∈ b -> g (f c) = Z.of_nat (off + i)) ->
  (forall i b, L !! i = Some b -> NoDup (map f b)) -> NoDup (map f (concat L)).
Proof.
  revert off. induction L as [|b L IH]; intros off Hi Hn; [constructor|].
  cbn [concat]. rewrite map_app. apply NoDup_app. split; [by apply (Hn 0%nat)|]. split.
  - intros x Hx Hy. apply list_elem_of_In, in_map_iff in Hx as (a & <- & Ha%list_elem_of_In).
    apply list_elem_of_In, in_map_iff in Hy as (a' & Hf & Ha').
    apply in_concat in Ha' as (b' & Hb' & Ha').
    apply list_elem_of_In, list_elem_of_lookup_1 in Hb' as [j Hj].
    pose proof (Hi 0%nat b a eq_refl Ha) as H1.
    pose proof (Hi (S j) b' a' Hj ltac:(by apply list_elem_of_In)) as H2. rewrite Hf in H2. lia.
  - apply (IH (S off)).
    + intros i b' c Hb Hc. rewrite (Hi (S i) b' c Hb Hc). lia.
    + intros i b' Hb. by apply (Hn (S i)).
Qed.

Lemma contacts_nodup rt : rt_ok rt -> NoDup (map c_ID (contacts rt)).
Proof.
  intros Hok. apply (NoDup_concat_indexed c_ID (bucketIndex (rt_self rt)) _ 0%nat).
  - intros i b c Hb Hc. by destruct (ok_index rt Hok i b c Hb Hc).
  - intros i b Hb. by apply (ok_nodup rt Hok i).
Qed.

Lemma contacts_elem rt c : c ∈ contacts rt <-> exists i b, rt_buckets rt !! i = Some b /\ c ∈ b.
Proof.
  unfold contacts. rewrite list_elem_of_In, in_concat. split.
  - intros (b & Hb & Hc). apply list_elem_of_In, list_elem_of_lookup_1 in Hb as [i Hi].
    exists i, b. by rewrite list_elem_of_In.
  - intros (i & b & Hi & Hc). exists b. rewrite <- !list_elem_of_In. split; [by eapply list_elem_of_lookup_2|done].
Qed.

Lemma contacts_not_self rt c : rt_ok rt -> c ∈ contacts rt -> c_ID c <> rt_self rt.
Proof.
  intros Hok (i & b & Hb & Hc)%contacts_elem Heq. destruct (ok_index rt Hok i b c Hb Hc) as [H _].
  rewrite bucketIndex_spec, bool_decide_eq_true_2 in H by done. lia.
Qed.

(** ** Sorted by distance *)

#[global] Instance closer_strict_weak target :
  StrictWeak (fun a b => closer target (c_ID a) (c_ID b)).
Proof. split; intros *; rewrite !closer_spec; lia. Qed.

Definition by_distance (target : ID) (l : list Contact) : Prop :=
  StronglySorted (fun a b => dist target a <= dist target b) l.

Lemma by_distance_not_after target l :
  StronglySorted (not_after (fun a b => closer target (c_ID a) (c_ID b))) l <-> by_distance target l.
Proof.
  unfold by_distance, not_after. induction l as [|x l IH].
  - split; constructor.
  - split; intros [H1 H2]%StronglySorted_inv; (constructor; [by apply IH|]);
      eapply Forall_impl; try exact H2; intros y; cbn; rewrite closer_spec; lia.
Qed.

Lemma sort_contacts_sorted target l : by_distance target (sort_contacts target l).
Proof. apply by_distance_not_after. apply sort_by_sorted. apply closer_strict_weak. Qed.

Lemma sort_contacts_perm target l : sort_contacts target l ≡ₚ l.
Proof. apply sort_by_perm. Qed.

Lemma by_distance_take target n l : by_distance target l -> by_distance target (take n l).
Proof. rewrite <- !by_distance_not_after. apply sorted_take. Qed.

(** How many contacts of [l] are at distance at most [d]. *)
Definition within (target : ID) (d : Z) (l : list Contact) : nat :=
  length (filter (fun c => dist target c <= d) l).

Lemma within_app target d l k : within target d (l ++ k) = (within target d l + within target d k)%nat.
Proof. unfold within. by rewrite filter_app, length_app. Qed.

Lemma within_perm target d l k : l ≡ₚ k -> within target d l = within target d k.
Proof. unfold within. by intros ->. Qed.

Lemma within_le target d l : (within target d l <= length l)%nat.
Proof. apply length_filter. Qed.

Lemma within_cons target d c l :
  within target d (c :: l) =
  ((if decide (dist target c <= d)%Z then 1 else 0) + within target d l)%nat.
Proof. unfold within. rewrite filter_cons. by case_decide. Qed.

Lemma within_all target d l :
  Forall (fun c => dist target c <= d) l -> within target d l = length l.
Proof.
  induction 1 as [|c l Hc Hl IH]; [done|]. rewrite within_cons, IH. by case_decide.
Qed.

(** A sorted list has its close contacts in front. *)
Lemma within_take target d n l :
  by_distance target l -> within target d (take n l) = (n `min` within target d l)%nat.
Proof.
  intros H. revert n. induction H as [|x l Hl IH Hx]; intros [|n]; [done|done|done|].
  cbn [take]. rewrite !within_cons, IH. case_decide as Hd; [lia|].
  assert (within target d l = 0)%nat as ->; [|lia].
  clear -Hx Hd. induction l as [|y l IH]; [done|]. inversion_clear Hx.
  rewrite within_cons. case_decide; [lia|]. by apply IH.
Qed.

(** ** The lookup invariant *)

Lemma select_batch_spec alpha q s batch :
  exists sel, select_batch alpha q s batch = batch ++ sel /\ sel `sublist_of` s /\
    Forall (fun c => c_ID c ∉ q) sel /\
    len (batch ++ sel) <= Z.max alpha (len batch) /\
    (len (batch ++ sel) < alpha -> forall c, c ∈ s -> c_ID c ∈ q \/ c ∈ sel).
Proof.
  revert batch. induction s as [|c s IH]; intros batch; cbn [select_batch].
  - exists []. rewrite app_nil_r. split_and!; [done|done|constructor|lia|]. intros _ c Hc. by apply not_elem_of_nil in Hc.
  - case_if.
    { exists []. rewrite app_nil_r. split_and!; [done|apply sublist_nil_l|constructor|lia|lia]. }
    case_bool_decide as Hq.
    + destruct (IH batch) as (sel & -> & Hs & Hf & Hl & Hc). exists sel.
      split_and!; [done|by constructor|done|done|]. intros Hlt d [->|Hd]%elem_of_cons; [by left|by apply Hc].
    + destruct (IH (batch ++ [c])) as (sel & -> & Hs & Hf & Hl & Hc). exists (c :: sel).
      rewrite <- app_assoc in *. split_and!; [done|by constructor|by constructor|..].
      * cbn in Hl. autorewrite with len in *. lia.
      * intros Hlt d [->|Hd]%elem_of_cons; [right; constructor|].
        destruct (Hc Hlt d Hd); [by left|right; by constructor].
Qed.

Section LookupProofs.
Variable query : list Contact -> Contact -> list Contact.
Variables (self target : ID) (k : nat) (table : list Contact).

Definition covered (st : lookup_state) (x : Contact) : Prop :=
  c_ID x ∈ map c_ID (lk_shortlist st) \/
  (k <= within target (dist target x) (lk_shortlist st))%nat.

Record lk_ok (st : lookup_state) : Prop := {
  lo_nodup : NoDup (map c_ID (lk_shortlist st));
  lo_short : Forall (fun c => c_ID c ∈ lk_seen st /\ c_ID c <> self) (lk_shortlist st);
  lo_self : self ∈ lk_seen st;
  lo_queried : lk_queried st = {[self]} ∪ list_to_set (map c_ID (lk_probes st));
  lo_probes : NoDup (self :: map c_ID (lk_probes st));
  lo_cover : forall x, c_ID x ∈ lk_seen st \/ x ∈ table -> c_ID x <> self -> covered st x
}.

(** Every reply received so far has been taken into account. *)
Definition replies_seen (st : lookup_state) : Prop :=
  forall h p t r, lk_probes st = h ++ p :: t -> r ∈ query h p -> c_ID r ∈ lk_seen st.

Lemma covered_app st st' x l :
  lk_shortlist st' = lk_shortlist st ++ l -> covered st x -> covered st' x.
Proof.
  intros H [Hx|Hx]; unfold covered; rewrite H, map_app.
  - left. apply elem_of_app. by left.
  - right. rewrite within_app. lia.
Qed.

Lemma merge_reply_ok st r :
  lk_ok st -> lk_ok (merge_reply st r) /\ c_ID r ∈ lk_seen (merge_reply st r) /\
  lk_seen st ⊆ lk_seen (merge_reply st r) /\ lk_probes (merge_reply st r) = lk_probes st.
Proof.
  intros Hok. unfold merge_reply. case_bool_decide as Hs; [done|].
  split; [|cbn; set_solver]. destruct Hok as [Hn Hsh Hself Hq Hp Hc]. split; cbn; try done.
  - rewrite map_app. apply NoDup_app. split; [done|]. split; [|apply NoDup_singleton].
    intros x Hx Hr. apply list_elem_of_singleton in Hr as ->.
    apply list_elem_of_In, in_map_iff in Hx as (c & Hc1 & Hc2%list_elem_of_In).
    rewrite Forall_forall in Hsh. apply Hs. rewrite <- Hc1. by apply Hsh.
  - apply Forall_app. split.
    + eapply Forall_impl; [exact Hsh|]. cbn. set_solver.
    + constructor; [|constructor]. set_solver.
  - set_solver.
  - intros x [[Hx|Hx]%elem_of_union|Hx] Hne.
    + apply elem_of_singleton in Hx. left. cbn. rewrite map_app. apply elem_of_app. right. cbn.
      rewrite Hx. constructor.
    + eapply (covered_app st); [done|]. apply Hc; [by left|done].
    + eapply (covered_app st); [done|]. apply Hc; [by right|done].
Qed.

Lemma merge_replies_ok rs st :
  lk_ok st -> lk_ok (fold_left merge_reply rs st) /\
  Forall (fun r => c_ID r ∈ lk_seen (fold_left merge_reply rs st)) rs /\
  lk_seen st ⊆ lk_seen (fold_left merge_reply rs st) /\
  lk_probes (fold_left merge_reply rs st) = lk_probes st.
Proof.
  revert st. induction rs as [|r rs IH]; intros st Hok; [done|]. cbn [fold_left].
  destruct (merge_reply_ok st r Hok) as (H1 & H2 & H3 & H4).
  destruct (IH _ H1) as (I1 & I2 & I3 & I4). split; [done|]. rewrite I4, H4.
  split; [|split; [set_solver|done]]. constructor; [set_solver|done].
Qed.

Lemma probe_ok st c :
  lk_ok st -> replies_seen st -> c_ID c ∉ lk_queried st ->
  lk_ok (probe query st c) /\ replies_seen (probe query st c) /\
  lk_probes (probe query st c) = lk_probes st ++ [c].
Proof.
  intros Hok Hr Hc. unfold probe.
  set (st1 := mkLookup _ _ _ _).
  assert (Hok1 : lk_ok st1).
  { destruct Hok as [Hn Hsh Hself Hq Hp Hcov]. split; cbn; try done.
    - rewrite map_app, list_to_set_app_L, Hq. cbn. set_solver.
    - rewrite map_app. rewrite Hq in Hc. cbn. apply NoDup_cons in Hp as [Hp1 Hp2].
      apply NoDup_cons. split; [set_solver|]. apply NoDup_app. split; [done|].
      split; [|apply NoDup_singleton]. intros x Hx. rewrite list_elem_of_singleton. intros ->.
      apply Hc. apply elem_of_union_r. by apply elem_of_list_to_set. }
  destruct (merge_replies_ok (query (lk_probes st) c) st1 Hok1) as (H1 & H2 & H3 & H4).
  split; [done|]. split; [|done]. intros h p t r. rewrite H4. cbn [lk_probes st1]. intros He Hrq.
  destruct t as [|y t] using rev_ind.
  - apply app_inj_tail in He as [<- <-]. rewrite Forall_forall in H2. by apply H2.
  - clear IHt. rewrite app_comm_cons, app_assoc in He. apply app_inj_tail in He as [He _].
    apply H3. by eapply Hr.
Qed.

Lemma probe_queried st c : lk_queried (probe query st c) = {[c_ID c]} ∪ lk_queried st.
Proof.
  unfold probe. set (st1 := mkLookup _ _ _ _). change ({[c_ID c]} ∪ lk_queried st) with (lk_queried st1).
  generalize st1 (query (lk_probes st) c). intros st2 l. revert st2.
  induction l as [|r l IH]; intros st2; [done|]. cbn. rewrite IH. unfold merge_reply. by case_bool_decide.
Qed.

Lemma probes_ok batch st :
  lk_ok st -> replies_seen st -> NoDup (map c_ID batch) -> Forall (fun c => c_ID c ∉ lk_queried st) batch ->
  lk_ok (fold_left (probe query) batch st) /\ replies_seen (fold_left (probe query) batch st) /\
  lk_probes (fold_left (probe query) batch st) = lk_probes st ++ batch.
Proof.
  revert st. induction batch as [|c batch IH]; intros st Hok Hr Hn Hf; [by rewrite app_nil_r|].
  cbn in Hn. apply NoDup_cons in Hn as [Hc Hn]. inversion_clear Hf as [|? ? Hq Hf'].
  destruct (probe_ok st c Hok Hr Hq) as (H1 & H2 & H3). cbn [fold_left].
  destruct (IH (probe query st c) H1 H2 Hn) as (I1 & I2 & I3).
  - rewrite Forall_forall in *. intros x Hx. rewrite probe_queried, not_elem_of_union, not_elem_of_singleton.
    split; [|by apply Hf']. intros He. apply Hc. rewrite <- He.
    by apply list_elem_of_fmap_2.
  - split; [done|]. split; [done|]. rewrite I3, H3, <- app_assoc. done.
Qed.

(** After a round the shortlist is sorted and no longer than [k]. *)
Definition settled (st : lookup_state) : Prop :=
  by_distance target (lk_shortlist st) /\ (length (lk_shortlist st) <= k)%nat.

Lemma end_round_short st :
  lk_shortlist (end_round target (Z.of_nat k) st) = take k (sort_contacts target (lk_shortlist st)).
Proof.
  unfold end_round. cbn [lk_shortlist]. case_if; [by rewrite Nat2Z.id|].
  symmetry. apply take_ge. unfold len in *. lia.
Qed.

Lemma end_round_ok st :
  lk_ok st -> lk_ok (end_round target (Z.of_nat k) st) /\ settled (end_round target (Z.of_nat k) st).
Proof.
  intros [Hn Hsh Hself Hq Hp Hc]. pose proof (sort_contacts_perm target (lk_shortlist st)) as Hperm.
  pose proof (sort_contacts_sorted target (lk_shortlist st)) as Hsort.
  set (s := sort_contacts target (lk_shortlist st)) in *.
  split; [|split; rewrite end_round_short; fold s; [by apply by_distance_take|rewrite length_take; lia]].
  split; unfold covered; rewrite ?end_round_short; fold s; try done.
  - eapply sublist_NoDup with (l2 := map c_ID s); [by rewrite Hperm|].
    rewrite <- (take_drop k s) at 2. rewrite map_app. apply sublist_inserts_r. done.
  - apply Forall_take. by rewrite Hperm.
  - intros x Hx Hne. rewrite within_take by done.
    assert (Hin : c_ID x ∈ map c_ID s \/ (k <= within target (dist target x) s)%nat).
    { destruct (Hc x Hx Hne) as [H|H]; [left; by rewrite Hperm|right; by rewrite (within_perm _ _ _ _ Hperm)]. }
    destruct Hin as [Hin|Hin]; [|right; lia].
    apply list_elem_of_In, in_map_iff in Hin as (y & Hy & Hys). rewrite <- (take_drop k s) in Hys.
    apply in_app_iff in Hys as [Hys|Hys].
    + left. rewrite <- Hy. by apply list_elem_of_In, in_map.
    + right. apply Nat.min_glb; [done|]. rewrite <- (take_drop k s), within_app.
      assert (Hd : dist target x = dist target y) by (unfold dist; by rewrite Hy).
      assert (length (take k s) = k) as Hlk.
      { rewrite length_take.
        assert (length (drop k s) <> 0)%nat by (destruct (drop k s); [done|done]).
        rewrite length_drop in *. lia. }
      assert (within target (dist target x) (take k s) = length (take k s)) as ->; [|lia].
      apply within_all, Forall_forall. intros z Hz. rewrite Hd.
      apply list_elem_of_In in Hys. apply by_distance_not_after in Hsort.
      pose proof (sorted_take_drop _ k s z y Hsort Hz Hys) as Hza. unfold not_after in Hza.
      rewrite closer_spec in Hza. lia.
Qed.

Lemma lookup_rounds_ok rounds alpha st :
  0 < alpha -> lk_ok st -> replies_seen st -> settled st ->
  let '(st', fin) := lookup_rounds query rounds target (Z.of_nat k) alpha st in
  lk_ok st' /\ replies_seen st' /\ settled st' /\
  len (lk_probes st') <= len (lk_probes st) + Z.of_nat rounds * alpha /\
  (fin = true -> Forall (fun c => c_ID c ∈ map c_ID (lk_probes st')) (lk_shortlist st')).
Proof.
  intros Ha. revert st. induction rounds as [|n IH]; intros st Hok Hr Hs; cbn [lookup_rounds].
  { split_and!; [done|done|done|lia|done]. }
  destruct (select_batch_spec alpha (lk_queried st) (lk_shortlist st) []) as (sel & -> & Hsub & Hf & Hl & Hall).
  cbn [app] in *. case_if.
  - split_and!; [done|done|done|lia|]. intros _. apply Forall_forall. intros c Hc.
    destruct sel; [|rewrite len_cons in *; pose proof (len_nonneg sel); lia].
    destruct (Hall ltac:(rewrite len_nil; lia) c Hc) as [Hq|Hq]; [|by apply not_elem_of_nil in Hq].
    pose proof (lo_short st Hok) as Hsh. rewrite Forall_forall in Hsh. destruct (Hsh c Hc) as [_ Hne].
    rewrite (lo_queried st Hok) in Hq. set_solver.
  - destruct (probes_ok sel st Hok Hr) as (P1 & P2 & P3); [|done|].
    { eapply sublist_NoDup; [apply (lo_nodup st Hok)|]. by apply sublist_map. }
    destruct (end_round_ok _ P1) as [E1 E2].
    specialize (IH (end_round target (Z.of_nat k) (fold_left (probe query) sel st)) E1 P2 E2).
    destruct (lookup_rounds _ _ _ _ _ _) as [st' fin]. destruct IH as (I1 & I2 & I3 & I4 & I5).
    split_and!; [done|done|done| |done].
    cbn [lk_probes end_round] in I4. rewrite P3, len_app in I4. unfold len in Hl at 2. cbn in Hl. lia.
Qed.
End LookupProofs.

Lemma Closest_take rt target (k : nat) :
  Closest rt target (Z.of_nat k) = take k (sort_contacts target (contacts rt)).
Proof.
  unfold Closest. case_if; [by rewrite Nat2Z.id|]. symmetry. apply take_ge.
  apply andb_false_iff in Heqb as [H|H]; split_bools; [lia|]. unfold len in *. lia.
Qed.

Lemma init_seen (l : list Contact) (s : gset ID) x :
  x ∈ fold_left (fun s c => {[c_ID c]} ∪ s) l s <-> x ∈ map c_ID l \/ x ∈ s.
Proof.
  revert s. induction l as [|c l IH]; intros s; cbn [fold_left map].
  - set_solver.
  - rewrite IH, elem_of_union, elem_of_singleton, elem_of_cons. tauto.
Qed.

Lemma lookup_init_ok rt target k :
  rt_ok rt -> let st := lookup_init rt target (Z.of_nat k) in
  lk_ok (rt_self rt) target k (contacts rt) st /\ settled target k st.
Proof.
  intros Hok. cbn zeta. unfold lookup_init.
  (* the state as the end of a round that holds the whole table *)
  set (all := mkLookup (contacts rt) ({[rt_self rt]} : gset ID)
         (fold_left (fun s c => {[c_ID c]} ∪ s) (contacts rt) {[rt_self rt]}) []).
  assert (Hall : lk_ok (rt_self rt) target k (contacts rt) all).
  { split; cbn.
    - by apply contacts_nodup.
    - apply Forall_forall. intros c Hc. split; [|by apply contacts_not_self].
      apply init_seen. left. by apply list_elem_of_fmap_2.
    - apply init_seen. right. set_solver.
    - set_solver.
    - apply NoDup_singleton.
    - intros x Hx Hne. left. cbn. destruct Hx as [Hx|Hx].
      + apply init_seen in Hx as [Hx|Hx]; [done|set_solver].
      + by apply list_elem_of_fmap_2. }
  destruct (end_round_ok _ _ _ _ _ Hall) as [[Hn Hsh Hself Hq Hp Hc] [Hs1 Hs2]].
  unfold covered in Hc. rewrite (end_round_short target k) in *. cbn [lk_shortlist all] in *.
  split; [|split; cbn; by rewrite Closest_take].
  split; unfold covered; cbn [lk_shortlist lk_seen lk_queried lk_probes]; rewrite ?Closest_take; try done.
  - apply Forall_forall. intros c Hc'. rewrite Forall_forall in Hsh.
    split; [apply init_seen; left; by apply list_elem_of_fmap_2|by apply Hsh].
  - apply init_seen. right. set_solver.
  - intros x Hx Hne. destruct Hx as [Hx|Hx]; [|by apply Hc; [right|]].
    apply init_seen in Hx as [Hx|Hx]; [by left|set_solver].
Qed.

(** ** Theorems *)

(** [bucketIndex] is the position of the most significant differing bit of
    the two identifiers ([-1] only for equal ones, else below 128), and [closer]
    compares the XOR distances as 128-bit integers; two contacts at the same
    distance have the same identifier. *)
Theorem metric_spec (target : ID) (a b : Contact) :
  bucketIndex target (c_ID a) =
    (if bool_decide (target = c_ID a) then -1 else Z.log2 (id_val (xor target (c_ID a)))) /\
  -1 <= bucketIndex target (c_ID a) < 128 /\
  closer target (c_ID a) (c_ID b) = (dist target a <? dist target b) /\
  (dist target a = dist target b <-> c_ID a = c_ID b).
Proof.
  split; [apply bucketIndex_spec|]. split; [|split; [apply closer_spec|]].
  - destruct (decide (target = c_ID a)) as [He|Hne].
    + rewrite bucketIndex_spec, bool_decide_eq_true_2 by done. lia.
    + pose proof (bucketIndex_range _ _ Hne). change (Z.of_nat IDBits) with 128 in *. lia.
  - split; [apply dist_inj|]. unfold dist. by intros ->.
Qed.

(** [Update] keeps the table invariant (every contact in the bucket of its
    distance, identifiers distinct, no bucket over [k], never the node itself or
    the zero ID); an accepted contact becomes the newest of its bucket, and the
    only contact that can disappear is an older entry of the same ID or, when
    the bucket was full, its oldest one.  Own and zero IDs change nothing. *)
Theorem Update_correct rt c :
  rt_ok rt ->
  rt_ok (Update rt c) /\
  (c_ID c = rt_self rt \/ IsZero (c_ID c) = true -> Update rt c = rt) /\
  (c_ID c <> rt_self rt -> IsZero (c_ID c) = false ->
     refreshed (rt_k rt) c (bucket rt (c_ID c)) (bucket (Update rt c) (c_ID c)) /\
     forall i, Z.of_nat i <> bucketIndex (rt_self rt) (c_ID c) ->
       rt_buckets (Update rt c) !! i = rt_buckets rt !! i).
Proof.
  intros Hok.
  assert (Hign : c_ID c = rt_self rt \/ IsZero (c_ID c) = true -> Update rt c = rt).
  { unfold Update. intros [->| ->]; [by rewrite bool_decide_eq_true_2|by rewrite orb_true_r]. }
  destruct (decide (c_ID c = rt_self rt)) as [He|Hne]; [rewrite Hign by (by left); done|].
  destruct (IsZero (c_ID c)) eqn:Hz; [rewrite Hign by (by right); done|].
  destruct (Update_bucket rt c Hok Hne Hz) as (b' & HU & Hr).
  pose proof (bucketIndex_range (rt_self rt) (c_ID c) ltac:(congruence)) as Hrange.
  pose proof (ok_buckets rt Hok) as Hlen.
  split; [rewrite HU; by apply set_bucket_ok|]. split; [done|]. intros _ _. rewrite HU. split.
  - unfold bucket at 2. cbn [set_bucket rt_buckets rt_self].
    erewrite nth_lookup_Some; [exact Hr|]. apply list_lookup_insert_eq. lia.
  - intros i Hi. cbn. apply list_lookup_insert_ne. lia.
Qed.

Definition sample_id (b : byte) : ID := vcons b (Vector.const x00 15).
Definition sample_table : RoutingTable :=
  Update (Update (NewRoutingTable (sample_id x01) 1) (mkContact (sample_id x80) "a:1" 1))
    (mkContact (sample_id x81) "b:1" 1).

Lemma Update_correct_witness :
  rt_ok (Update (NewRoutingTable (sample_id x01) 1) (mkContact (sample_id x80) "a:1" 1)).
Proof. apply (Update_correct (NewRoutingTable (sample_id x01) 1)). apply NewRoutingTable_ok. Defined.

Lemma sample_table_ok : rt_ok sample_table.
Proof.
  unfold sample_table. destruct (Update_bucket (NewRoutingTable (sample_id x01) 1)
    (mkContact (sample_id x80) "a:1" 1)) as (b & -> & Hr);
    [apply NewRoutingTable_ok|by vm_compute|by vm_compute|].
  apply set_bucket_ok in Hr as Hok; [|apply NewRoutingTable_ok|by vm_compute|by vm_compute].
  destruct (Update_bucket _ (mkContact (sample_id x81) "b:1" 1) Hok) as (b2 & -> & Hr2);
    [by vm_compute|by vm_compute|].
  apply set_bucket_ok; [exact Hok|by vm_compute|by vm_compute|exact Hr2].
Qed.

(** [Closest] returns the [count] contacts of the table nearest to the
    target, nearest first: nothing it leaves out is nearer than anything it
    returns. *)
Theorem Closest_correct rt target count :
  rt_ok rt -> 0 <= count ->
  let l := Closest rt target count in
  by_distance target l /\ NoDup (map c_ID l) /\
  len l = Z.min count (len (contacts rt)) /\
  exists rest, contacts rt ≡ₚ l ++ rest /\
    forall a b, a ∈ l -> b ∈ rest -> dist target a < dist target b.
Proof.
  intros Hok Hc. cbn zeta. rewrite <- (Z2Nat.id count) by done. generalize (Z.to_nat count). clear Hc count.
  intros k. rewrite Closest_take. pose proof (sort_contacts_sorted target (contacts rt)) as Hs.
  pose proof (sort_contacts_perm target (contacts rt)) as Hp.
  set (s := sort_contacts target (contacts rt)) in *.
  assert (Hn : NoDup (map c_ID (take k s ++ drop k s))).
  { rewrite take_drop, Hp. by apply contacts_nodup. }
  split_and!.
  - by apply by_distance_take.
  - rewrite map_app in Hn. by apply NoDup_app in Hn as [? _].
  - unfold len. rewrite length_take, <- Hp. lia.
  - exists (drop k s). rewrite take_drop. split; [done|]. intros a b Ha Hb.
    pose proof Hs as Hs'. apply by_distance_not_after in Hs'.
    pose proof (sorted_take_drop _ k s a b Hs' Ha Hb) as Hab. unfold not_after in Hab.
    rewrite closer_spec in Hab. split_bools. apply Z.le_lteq in Hab as [Hab|Hab]; [done|].
    apply dist_inj in Hab. rewrite map_app in Hn. apply NoDup_app in Hn as (_ & Hd & _).
    exfalso. apply (Hd (c_ID a)); [by apply list_elem_of_fmap_2|rewrite Hab; by apply list_elem_of_fmap_2].
Qed.

Lemma Closest_correct_witness :
  by_distance (sample_id x00) (Closest sample_table (sample_id x00) 1).
Proof. apply (Closest_correct sample_table (sample_id x00) 1); [exact sample_table_ok|lia]. Defined.

(** The width, concurrency and round bound a call of [Lookup] runs with. *)
Definition eff_k (rt : RoutingTable) (k : Z) : Z := if k <=? 0 then rt_k rt else k.
Definition eff_alpha (alpha : Z) : Z := if alpha <=? 0 then DefaultAlpha else alpha.
Definition eff_rounds (r : Z) : Z := if r <=? 0 then DefaultMaxRounds else r.

(** C13: Whatever the probed nodes answer, the iterative lookup stops within its
    round bound: it probes no node twice and never the node itself, and at most
    [alpha] nodes a round; it returns at most [k] distinct contacts, nearest
    first, and these are the best it has heard of: a contact of its table or of
    any reply that is missing from the result is no nearer than any of [k]
    returned ones.  When it stops early, every returned contact was probed. *)
Theorem Lookup_correct query rt target k alpha maxRounds :
  rt_ok rt ->
  let '(st, fin) := Lookup_run query rt target k alpha maxRounds in
  let res := RT_Lookup query rt target k alpha maxRounds in
  by_distance target res /\ NoDup (map c_ID res) /\ len res <= eff_k rt k /\
  NoDup (rt_self rt :: map c_ID (lk_probes st)) /\
  len (lk_probes st) <= eff_rounds maxRounds * eff_alpha alpha /\
  (forall x, c_ID x <> rt_self rt ->
     x ∈ contacts rt \/ (exists h p t, lk_probes st = h ++ p :: t /\ x ∈ query h p) ->
     c_ID x ∈ map c_ID res \/
     (len res = eff_k rt k /\ Forall (fun c => dist target c <= dist target x) res)) /\
  (fin = true -> Forall (fun c => c_ID c ∈ map c_ID (lk_probes st)) res).
Proof.
  intros Hok. unfold RT_Lookup. destruct (Lookup_run query rt target k alpha maxRounds) as [st fin] eqn:E.
  cbn [fst]. unfold Lookup_run in E. fold (eff_k rt k) (eff_alpha alpha) (eff_rounds maxRounds) in E.
  assert (Hk : 0 < eff_k rt k) by (unfold eff_k; pose proof (ok_k rt Hok); case_if; lia).
  assert (Ha : 0 < eff_alpha alpha) by (unfold eff_alpha, DefaultAlpha; case_if; lia).
  assert (Hm : 0 < eff_rounds maxRounds) by (unfold eff_rounds, DefaultMaxRounds; case_if; lia).
  rewrite <- (Z2Nat.id (eff_k rt k)) in * by lia. set (kk := Z.to_nat (eff_k rt k)) in *.
  destruct (lookup_init_ok rt target kk Hok) as [Hi Hs].
  assert (Hr : replies_seen query (lookup_init rt target (Z.of_nat kk))).
  { intros h p t r Hh. by destruct h. }
  pose proof (lookup_rounds_ok query _ target kk (contacts rt) (Z.to_nat (eff_rounds maxRounds)) _ _ Ha Hi Hr Hs) as H.
  rewrite E in H. destruct H as (H1 & H2 & [H3 H3'] & H4 & H5).
  split_and!; [done|apply (lo_nodup _ _ _ _ _ H1)|unfold len; lia|apply (lo_probes _ _ _ _ _ H1)| | |done].
  - cbn [lookup_init lk_probes] in H4. rewrite len_nil in H4. lia.
  - intros x Hne Hx.
    destruct (lo_cover _ _ _ _ _ H1 x) as [Hc|Hc]; [|done|by left|].
    { destruct Hx as [Hx|(h & p & t & Hp & Hx)]; [by right|left; by eapply H2]. }
    right. pose proof (within_le target (dist target x) (lk_shortlist st)) as Hle.
    split; [unfold len; lia|].
    assert (Hall : within target (dist target x) (lk_shortlist st) = length (lk_shortlist st)) by lia.
    clear -Hall. induction (lk_shortlist st) as [|c l IH]; [constructor|].
    rewrite within_cons in Hall. pose proof (within_le target (dist target x) l).
    cbn in Hall. case_decide; [|lia]. constructor; [done|]. apply IH. lia.
Qed.

Definition sample_query (h : list Contact) (c : Contact) : list Contact :=
  [mkContact (sample_id (byte_of_Z (len h + 2))) "c:1" 1; c].

Lemma Lookup_correct_witness :
  len (RT_Lookup sample_query sample_table (sample_id x00) 2 1 0) <= 2 /\
  map c_ID (RT_Lookup sample_query sample_table (sample_id x00) 2 1 0) = [sample_id x02; sample_id x03].
Proof.
  split; [|vm_compute; reflexivity].
  pose proof (Lookup_correct sample_query sample_table (sample_id x00) 2 1 0 sample_table_ok) as H.
  destruct (Lookup_run sample_query sample_table (sample_id x00) 2 1 0) as [st fin].
  apply H.
Defined.

(** ** Node identifiers and DHT keys *)

Lemma fromHexChar_hexdigit n : 0 <= n < 16 -> fromHexChar (hexdigit n) = Some n.
Proof.
  intros Hn. rewrite <- (Z2Nat.id n) by lia. assert (Z.to_nat n < 16)%nat as H by lia.
  unfold hexdigit. rewrite Nat2Z.id. generalize dependent (Z.to_nat n). clear. intros m H.
  do 16 (destruct m as [|m]; [reflexivity|]). lia.
Qed.

Lemma DecodeHex_hex_bytes l : DecodeHex (hex_bytes l) = Some l.
Proof.
  induction l as [|b l IH]; [done|]. cbn [hex_bytes DecodeHex].
  pose proof (byte_to_Z_range b) as Hb. rewrite IH.
  rewrite Z.shiftr_div_pow2, (Z.land_ones _ 4) by lia. change (2 ^ 4) with 16.
  rewrite (fromHexChar_hexdigit (byte_to_Z b / 16)) by (split; [apply Z.div_pos|apply Z.div_lt_upper_bound]; lia).
  rewrite (fromHexChar_hexdigit (byte_to_Z b mod 16)) by (apply Z.mod_pos_bound; lia).
  cbv iota beta. do 2 f_equal. transitivity (byte_of_Z (byte_to_Z b)); [f_equal|apply byte_of_to_Z].
  rewrite Z.shiftl_mul_pow2 by lia. change (2 ^ 4) with 16.
  assert (Z.lor (byte_to_Z b / 16 * 16) (byte_to_Z b mod 16) = byte_to_Z b / 16 * 16 + byte_to_Z b mod 16) as ->.
  { assert (Hl : Z.land (byte_to_Z b / 16 * 16) (byte_to_Z b mod 16) = 0);
      [|rewrite <- Z.lxor_lor, <- Z.add_nocarry_lxor by done; done].
    all: apply Z.bits_inj'; intros i Hi; rewrite Z.land_spec, Z.bits_0.
    all: change 16 with (2 ^ 4); rewrite Z.mul_pow2_bits by lia.
    all: destruct (Z.ltb_spec i 4); [rewrite Z.testbit_neg_r by lia; done|].
    all: rewrite Z.mod_pow2_bits_high by lia; apply andb_false_r. }
  pose proof (Z.div_mod (byte_to_Z b) 16 ltac:(lia)). lia.
Qed.

Lemma copy_vec_list (l : bytes) : vec_to_list (copy_vec (length l) l) = l.
Proof. induction l as [|b l IH]; [done|]. cbn. by rewrite IH. Qed.

Lemma ParseID_String id : ParseID (ID_String id) = Ok id.
Proof.
  unfold ParseID, ID_String, EncodeToString. rewrite bytes_str_bytes, DecodeHex_hex_bytes.
  unfold len. rewrite length_vec_to_list, Z.eqb_refl. cbn [negb]. f_equal. apply copy_vec_to_list.
Qed.

Section NodeIDs.
Context `{C : CryptoOps} `{L : !CryptoLaws C}.

(** The textual form of an ID parses back to it, and every node ID derived
    from a signing key is such a form, so each node has a DHT key of its own:
    distinct node IDs parse to distinct keys. *)
Theorem NodeID_key (id : ID) pub :
  len pub <> 0 ->
  ParseID (ID_String id) = Ok id /\
  exists key, ParseID (DeriveNodeID pub) = Ok key /\ ID_String key = DeriveNodeID pub.
Proof using L.
  intros Hp. split; [apply ParseID_String|]. unfold DeriveNodeID.
  case_if; [done|]. pose proof (sha256_len pub) as Hs.
  assert (Hl : length (take 16 (sha256 pub)) = IDLen).
  { rewrite length_take. unfold len in Hs. unfold IDLen. lia. }
  assert (He : ID_String (copy_vec IDLen (take 16 (sha256 pub))) = EncodeToString (take 16 (sha256 pub))).
  { unfold ID_String. rewrite <- Hl. by rewrite copy_vec_list. }
  exists (copy_vec IDLen (take 16 (sha256 pub))). rewrite <- He at 1. split; [apply ParseID_String|done].
Qed.
End NodeIDs.

Lemma NodeID_key_witness :
  exists key, ParseID (@DeriveNodeID toy_ops [x05]) = Ok key /\ ID_String key = @DeriveNodeID toy_ops [x05].
Proof. apply (@NodeID_key toy_ops toy_laws (sample_id x00) [x05]). vm_compute. discriminate. Defined.
