(* ===== verification/Routing.v ===== *)
(** * Path selection (internal/routing/routing.go)

    The planner's decisions over a snapshot of peers: fastest route, fragment
    spreading, onion paths with subnet diversity, the adaptive path length and
    the tiered, seeded selection.  A Go [map[string]bool] used as a set is a
    [gset string]. *)

From S2P Require Import Prelude Net.

Inductive routing_err : Type :=
| ErrNoActivePeers
| ErrInvalidFragmentCount
| ErrInsufficientRelays
| ErrNoDestination
| ErrInvalidHopCount.

Record Peer : Type := mkPeer {
  pe_ID : string;
  pe_Address : string;
  pe_Latency : Z;           (** [time.Duration] *)
  pe_Active : bool;
  pe_PubKey : bytes;
  pe_Port : Z;
  pe_RelayCapable : bool
}.

(** The comparison shared by the three latency sorts. *)
Definition peer_lt (a b : Peer) : bool :=
  if negb (pe_Latency a =? pe_Latency b) then pe_Latency a <? pe_Latency b
  else str_ltb (pe_ID a) (pe_ID b).

Definition activeSorted (peers : list Peer) : list Peer :=
  let active := List.filter pe_Active peers in
  sort_by peer_lt active.

Definition FastestRoute (dest : string) (peers : list Peer) : result routing_err (list Peer) :=
  let active := activeSorted peers in
  if len active =? 0 then Err ErrNoActivePeers else Ok active.

(** [plan[i] = relays[i%relayCount]] for [i] from 0; [None] where the index
    expression would panic. *)
Fixpoint spread_loop (relays : list Peer) (relayCount i : nat) (todo : nat) (plan : gmap Z Peer) : option (gmap Z Peer) :=
  match todo with
  | O => Some plan
  | S todo' =>
      match relays !! (i mod relayCount)%nat with
      | Some r => spread_loop relays relayCount (S i) todo' (<[Z.of_nat i := r]> plan)
      | None => None
      end
  end.

Definition SpreadPlan (fragmentCount minRelays : Z) (peers : list Peer) : result routing_err (option (gmap Z Peer)) :=
  if fragmentCount <=? 0 then Err ErrInvalidFragmentCount
  else
    let active := activeSorted peers in
    if len active =? 0 then Err ErrNoActivePeers
    else if (1 <? minRelays) && (len active <? 2) then Err ErrInsufficientRelays
    else
      let relayCount := minRelays in
      let relayCount := if relayCount <? 1 then 1 else relayCount in
      let relayCount := if len active <? relayCount then len active else relayCount in
      let relays := take (Z.to_nat relayCount) active in
      Ok (spread_loop relays (Z.to_nat relayCount) 0 (Z.to_nat fragmentCount) ∅).

Record Hop : Type := mkHop { h_NodeID : string; h_Address : string; h_PubKey : bytes }.

Definition hop_of (r : Peer) : Hop := mkHop (pe_ID r) (pe_Address r) (pe_PubKey r).

(** The peers a path may relay through. *)
Definition relay_ok (r : Peer) : bool := pe_Active r && pe_RelayCapable r && (0 <? len (pe_PubKey r)).
Definition eligible_for (dest : Peer) (r : Peer) : bool :=
  relay_ok r && negb (String.eqb (pe_ID r) (pe_ID dest)).

Section Subnets.
Context `{N : NetOps}.

Definition subnetKey (address : string) : string :=
  let host := match SplitHostPort address with Some (h, _) => h | None => address end in
  match ParseIP host with
  | None => host
  | Some ip =>
      match To4 ip with
      | Some (a :: b :: c :: _) => ("v4:" ++ dec a ++ "." ++ dec b ++ "." ++ dec c)%string
      | _ => ("v6:" ++ IPString (take 6 ip ++ repeat x00 10))%string
      end
  end.

(** Pass 1: one relay per new subnet, in order. *)
Fixpoint pick_diverse (n : Z) (l : list Peer) (usedSubnet : gset string) (picked : list Peer)
    (pickedID : gset string) : list Peer * gset string :=
  match l with
  | [] => (picked, pickedID)
  | r :: t =>
      if n <=? len picked then (picked, pickedID)
      else
        let sk := subnetKey (pe_Address r) in
        if bool_decide (sk ∈ usedSubnet) then pick_diverse n t usedSubnet picked pickedID
        else pick_diverse n t ({[sk]} ∪ usedSubnet) (picked ++ [r]) ({[pe_ID r]} ∪ pickedID)
  end.

(** Pass 2: fill the remaining slots. *)
Fixpoint pick_fill (n : Z) (l : list Peer) (picked : list Peer) (pickedID : gset string) : list Peer :=
  match l with
  | [] => picked
  | r :: t =>
      if n <=? len picked then picked
      else if bool_decide (pe_ID r ∈ pickedID) then pick_fill n t picked pickedID
      else pick_fill n t (picked ++ [r]) ({[pe_ID r]} ∪ pickedID)
  end.

Definition selectDiverse (ordered : list Peer) (n : Z) (destAddr : string) : list Peer :=
  let usedSubnet := {[subnetKey destAddr]} in
  let '(picked, pickedID) := pick_diverse n ordered usedSubnet [] ∅ in
  pick_fill n ordered picked pickedID.

Definition BuildPath (dest : Peer) (relays : list Peer) (hopCount : Z) : result routing_err (list Hop) :=
  if String.eqb (pe_ID dest) "" || (len (pe_PubKey dest) =? 0) then Err ErrNoDestination
  else if hopCount <? 0 then Err ErrInvalidHopCount
  else
    let eligible := List.filter (eligible_for dest) relays in
    if (0 <? hopCount) && (len eligible =? 0) then Err ErrInsufficientRelays
    else
      let eligible := sort_by peer_lt eligible in
      let n := if len eligible <? hopCount then len eligible else hopCount in
      let '(picked, pickedID) := pick_diverse n eligible {[subnetKey (pe_Address dest)]} [] ∅ in
      let picked := pick_fill n eligible picked pickedID in
      Ok (map hop_of picked ++ [hop_of dest]).

Fixpoint distinct_loop (l : list Peer) (seen : gset string) (n : Z) : Z :=
  match l with
  | [] => n
  | r :: t =>
      if negb (pe_Active r) || negb (pe_RelayCapable r) || (len (pe_PubKey r) =? 0) then distinct_loop t seen n
      else
        let sk := subnetKey (pe_Address r) in
        if bool_decide (sk ∈ seen) then distinct_loop t seen n
        else distinct_loop t ({[sk]} ∪ seen) (n + 1)
  end.

Definition DistinctSubnetRelays (destAddr : string) (relays : list Peer) : Z :=
  distinct_loop relays {[subnetKey destAddr]} 0.

Definition AdaptiveHops (destAddr : string) (relays : list Peer) (minHops maxHops : Z) : Z :=
  let distinct := DistinctSubnetRelays destAddr relays in
  let finish hops :=
    let cap := maxHops in
    let cap := if (cap <=? 0) || (3 <? cap) then 3 else cap in
    let hops := if cap <? hops then cap else hops in
    if (0 <? minHops) && (hops <? minHops) then 0 else hops in
  if 4 <=? distinct then finish 3
  else if 2 <=? distinct then finish 2
  else if distinct =? 1 then finish 1
  else 0.

Record PathOptions : Type := mkOpts {
  o_Seed : Z;
  o_Deprioritize : gset string;
  o_ExitNear : gset string
}.

(** [rng.Shuffle] of [math/rand]: [shuffle seed before l] is [l] shuffled by the
    source seeded with [seed], after it shuffled slices of the lengths [before]. *)
Variable shuffle : Z -> list nat -> list Peer -> list Peer.

Definition tierOrder (eligible : list Peer) (opt : PathOptions) : list Peer :=
  let is_deprio r := bool_decide (hostOf (pe_Address r) ∈ o_Deprioritize opt) in
  let deprio := List.filter is_deprio eligible in
  let main := List.filter (fun r => negb (is_deprio r)) eligible in
  let main := sort_by peer_lt main in
  let fastN := ((length main + 1) / 2)%nat in
  let fast := take fastN main in
  let reserve := drop fastN main in
  let fast' := shuffle (o_Seed opt) [] fast in
  let reserve' := shuffle (o_Seed opt) [length fast] reserve in
  let deprio' := shuffle (o_Seed opt) [length fast; length reserve] deprio in
  fast' ++ reserve' ++ deprio'.

(** The first index of a relay near the destination. *)
Fixpoint find_near (exitNear : gset string) (l : list Peer) (i : nat) : option (nat * Peer) :=
  match l with
  | [] => None
  | r :: t => if bool_decide (pe_ID r ∈ exitNear) then Some (i, r) else find_near exitNear t (S i)
  end.

Fixpoint find_substitute (exitNear inPath : gset string) (l : list Peer) : option Peer :=
  match l with
  | [] => None
  | r :: t => if bool_decide (pe_ID r ∈ exitNear) && negb (bool_decide (pe_ID r ∈ inPath)) then Some r
              else find_substitute exitNear inPath t
  end.

Definition biasExit (picked ordered : list Peer) (exitNear : gset string) : list Peer :=
  if bool_decide (exitNear = ∅) || (len picked =? 0) then picked
  else
    let last := (length picked - 1)%nat in
    match picked !! last with
    | None => picked
    | Some pl =>
        if bool_decide (pe_ID pl ∈ exitNear) then picked
        else
          match find_near exitNear picked 0 with
          | Some (i, r) => <[last := r]> (<[i := pl]> picked)
          | None =>
              let inPath : gset string := list_to_set (map pe_ID picked) in
              match find_substitute exitNear inPath ordered with
              | Some r => <[last := r]> picked
              | None => picked
              end
          end
    end.

Definition BuildPathTiered (dest : Peer) (relays : list Peer) (hopCount : Z) (opt : PathOptions) : result routing_err (list Hop) :=
  if String.eqb (pe_ID dest) "" || (len (pe_PubKey dest) =? 0) then Err ErrNoDestination
  else if hopCount <? 0 then Err ErrInvalidHopCount
  else
    let eligible := List.filter (eligible_for dest) relays in
    if (0 <? hopCount) && (len eligible =? 0) then Err ErrInsufficientRelays
    else
      let n := if len eligible <? hopCount then len eligible else hopCount in
      let ordered := tierOrder eligible opt in
      let picked := selectDiverse ordered n (pe_Address dest) in
      let picked := biasExit picked ordered (o_ExitNear opt) in
      Ok (map hop_of picked ++ [hop_of dest]).
End Subnets.

(** ** Orders and filters *)

#[global] Instance peer_lt_strict_weak : StrictWeak peer_lt.
Proof.
  split; unfold peer_lt.
  - intros a b H. destruct (Z.eqb_spec (pe_Latency a) (pe_Latency b)) as [E|E]; cbn in H.
    + rewrite E, Z.eqb_refl. cbn. by apply sw_asym.
    + destruct (Z.eqb_spec (pe_Latency b) (pe_Latency a)); cbn; split_bools; [lia|].
      apply Z.ltb_ge. lia.
  - intros a b c H1 H2.
    destruct (Z.eqb_spec (pe_Latency b) (pe_Latency a)) as [E|E];
    destruct (Z.eqb_spec (pe_Latency c) (pe_Latency b)) as [E'|E']; cbn in *; split_bools;
    destruct (Z.eqb_spec (pe_Latency c) (pe_Latency a)) as [E2|E2]; cbn; try lia;
      try (apply Z.ltb_ge; lia). by eapply sw_negtrans.
Qed.

Lemma peer_lt_total a b : peer_lt a b = false -> peer_lt b a = false -> pe_ID a = pe_ID b.
Proof.
  unfold peer_lt. intros H1 H2.
  destruct (Z.eqb_spec (pe_Latency a) (pe_Latency b)) as [E|E]; cbn in *.
  - rewrite E, Z.eqb_refl in H2. by apply str_ltb_total.
  - destruct (Z.eqb_spec (pe_Latency b) (pe_Latency a)); cbn in *; split_bools; lia.
Qed.

(** ** The two selection passes *)

Section Selection.
Context `{N : NetOps}.

Definition snet (r : Peer) : string := subnetKey (pe_Address r).
Definition new_subnets (l : list Peer) (used : gset string) : nat :=
  size ((list_to_set (map snet l) : gset string) ∖ used).

Lemma new_subnets_cons_used r l used :
  snet r ∈ used -> new_subnets (r :: l) used = new_subnets l used.
Proof. intros H. unfold new_subnets. f_equal. cbn. set_solver. Qed.

Lemma new_subnets_cons_new r l used :
  snet r ∉ used -> new_subnets (r :: l) used = S (new_subnets l ({[snet r]} ∪ used)).
Proof.
  intros H. unfold new_subnets. cbn [map list_to_set foldr].
  replace (({[snet r]} ∪ list_to_set (map snet l)) ∖ used)
    with ({[snet r]} ∪ ((list_to_set (map snet l)) ∖ ({[snet r]} ∪ used)) : gset string).
  - rewrite size_union, size_singleton by set_solver. done.
  - apply set_eq. intros x. destruct (decide (x = snet r)) as [->|]; set_solver.
Qed.

Lemma new_subnets_perm l k used : l ≡ₚ k -> new_subnets l used = new_subnets k used.
Proof.
  intros H. unfold new_subnets. f_equal. apply set_eq. intros x.
  rewrite !elem_of_difference, !elem_of_list_to_set. by rewrite H.
Qed.

Lemma pick_diverse_spec n l used picked pid :
  exists sel, pick_diverse n l used picked pid = (picked ++ sel, list_to_set (map pe_ID sel) ∪ pid) /\
    sel `sublist_of` l /\ NoDup (map snet sel) /\ Forall (fun r => snet r ∉ used) sel /\
    length sel = (Z.to_nat (n - len picked) `min` new_subnets l used)%nat.
Proof.
  revert used picked pid. induction l as [|r l IH]; intros used picked pid; cbn [pick_diverse].
  - exists []. rewrite app_nil_r. split_and!; [f_equal; set_solver|done|constructor|constructor|].
    unfold new_subnets. replace (_ ∖ used) with (∅ : gset string) by set_solver. rewrite size_empty. cbn. lia.
  - case_if.
    { exists []. rewrite app_nil_r.
      split_and!; [f_equal; set_solver|apply sublist_nil_l|constructor|constructor|cbn; lia]. }
    fold (snet r). case_bool_decide as Hu.
    + destruct (IH used picked pid) as (sel & -> & Hs & Hn & Hf & Hl).
      exists sel. rewrite new_subnets_cons_used by done. split_and!; try done. by constructor.
    + destruct (IH ({[snet r]} ∪ used) (picked ++ [r]) ({[pe_ID r]} ∪ pid)) as (sel & -> & Hs & Hn & Hf & Hl).
      exists (r :: sel). rewrite new_subnets_cons_new by done. split_and!.
      * rewrite <- app_assoc. cbn. f_equal. set_solver.
      * by constructor.
      * cbn. apply NoDup_cons. split; [|done]. intros Hin.
        apply list_elem_of_In, in_map_iff in Hin as (y & Hy & Hy'%list_elem_of_In).
        rewrite Forall_forall in Hf. apply (Hf y Hy'). rewrite Hy. set_solver.
      * constructor; [done|]. eapply Forall_impl; [exact Hf|]. cbn. set_solver.
      * cbn [length]. rewrite Hl. autorewrite with len. lia.
Qed.

Definition not_picked (pid : gset string) (r : Peer) : bool := negb (bool_decide (pe_ID r ∈ pid)).

Lemma pick_fill_spec n l picked pid :
  NoDup (map pe_ID l) ->
  exists sel, pick_fill n l picked pid = picked ++ sel /\
    sel `sublist_of` List.filter (not_picked pid) l /\
    length sel = (Z.to_nat (n - len picked) `min` length (List.filter (not_picked pid) l))%nat.
Proof.
  revert picked pid. induction l as [|r l IH]; intros picked pid Hn; cbn [pick_fill].
  - exists []. rewrite app_nil_r. split_and!; [done|done|cbn; lia].
  - apply NoDup_cons in Hn as [Hr Hn]. case_if.
    { exists []. rewrite app_nil_r. split_and!; [done|apply sublist_nil_l|cbn [length]; lia]. }
    assert (Hnp : not_picked pid r = negb (bool_decide (pe_ID r ∈ pid))) by done.
    cbn [List.filter]. rewrite Hnp. case_bool_decide as Hp; cbn [negb].
    + destruct (IH picked pid Hn) as (sel & -> & Hs & Hl). by exists sel.
    + destruct (IH (picked ++ [r]) ({[pe_ID r]} ∪ pid) Hn) as (sel & -> & Hs & Hl).
      assert (Hf : List.filter (not_picked ({[pe_ID r]} ∪ pid)) l = List.filter (not_picked pid) l).
      { apply filter_ext_in. intros x Hx. unfold not_picked. f_equal. apply bool_decide_ext.
        rewrite elem_of_union, elem_of_singleton. split; [|by right]. intros [He|]; [|done].
        exfalso. apply Hr. rewrite <- He. by apply list_elem_of_In, in_map. }
      exists (r :: sel). rewrite <- app_assoc, <- Hf. split_and!; [done|by constructor|].
      cbn [length]. rewrite Hl. autorewrite with len. lia.
Qed.

(** What the selection of [n] relays out of candidates with distinct IDs is. *)
Definition selection (l : list Peer) (n : nat) (destAddr : string) (res : list Peer) : Prop :=
  length res = n /\ NoDup (map pe_ID res) /\ Forall (fun r => r ∈ l) res /\
  exists d f, res = d ++ f /\
    NoDup (subnetKey destAddr :: map snet d) /\
    length d = (n `min` new_subnets l {[subnetKey destAddr]})%nat.

Lemma selectDiverse_spec l n destAddr :
  NoDup (map pe_ID l) -> (n <= length l)%nat ->
  selection l n destAddr (selectDiverse l (Z.of_nat n) destAddr).
Proof.
  intros Hn Hle. unfold selectDiverse.
  destruct (pick_diverse_spec (Z.of_nat n) l {[subnetKey destAddr]} [] ∅) as (d & -> & Hds & Hdn & Hdf & Hdl).
  cbn [app]. rewrite union_empty_r_L. set (pid := list_to_set (map pe_ID d) : gset string).
  destruct (pick_fill_spec (Z.of_nat n) l d pid Hn) as (f & -> & Hfs & Hfl).
  apply sublist_submseteq in Hds as Hds'. apply submseteq_Permutation in Hds' as [rest Hp].
  assert (Hnp : NoDup (map pe_ID (d ++ rest))) by by rewrite <- Hp.
  rewrite map_app in Hnp. apply NoDup_app in Hnp as (Hnd & Hdisj & Hnr).
  assert (Hrest : length (List.filter (not_picked pid) l) = length rest).
  { rewrite (filter_perm _ _ _ Hp), List.filter_app, length_app.
    assert (List.filter (not_picked pid) d = []) as ->.
    { apply filter_nil_iff_none. intros x Hx. unfold not_picked, pid. rewrite bool_decide_eq_true_2; [done|].
      apply elem_of_list_to_set. by apply list_elem_of_fmap_2. }
    assert (List.filter (not_picked pid) rest = rest) as ->; [|done].
    apply filter_all_id. intros x Hx. unfold not_picked, pid. rewrite bool_decide_eq_false_2; [done|].
    rewrite elem_of_list_to_set. intros Hin. apply (Hdisj (pe_ID x)); [done|]. by apply list_elem_of_fmap_2. }
  assert (Hlen : length l = (length d + length rest)%nat) by by rewrite Hp, length_app.
  unfold len in *. cbn in Hdl.
  split_and!.
  - rewrite length_app, Hfl, Hrest. lia.
  - rewrite map_app. apply NoDup_app. split_and!; [done| |].
    + intros x Hx Hx'. apply list_elem_of_In, in_map_iff in Hx' as (y & <- & Hy%list_elem_of_In).
      pose proof (sublist_submseteq _ _ Hfs) as Hsm.
      eapply elem_of_submseteq in Hy; [|exact Hsm]. apply elem_of_filterb in Hy as [_ Hy].
      unfold not_picked in Hy. split_bools. apply Hy. by apply elem_of_list_to_set.
    + eapply sublist_NoDup, sublist_map, Hfs. by apply map_nodup_filter.
  - apply Forall_app. split; apply Forall_forall; intros x Hx.
    + by eapply elem_of_submseteq; [|apply sublist_submseteq].
    + eapply elem_of_submseteq in Hx; [|apply sublist_submseteq, Hfs]. by apply elem_of_filterb in Hx as [? _].
  - exists d, f. split; [done|]. split; [|rewrite Hdl; lia]. apply NoDup_cons. split; [|done].
    intros Hin. apply list_elem_of_In, in_map_iff in Hin as (y & Hy & Hy'%list_elem_of_In).
    rewrite Forall_forall in Hdf. apply (Hdf y Hy'). rewrite Hy. set_solver.
Qed.
End Selection.

(** ** The exit bias *)

Lemma find_near_spec near l off :
  match find_near near l off with
  | Some (i, r) => exists a b, l = a ++ r :: b /\ i = (off + length a)%nat /\ pe_ID r ∈ near
  | None => Forall (fun r => pe_ID r ∉ near) l
  end.
Proof.
  revert off. induction l as [|r l IH]; intros off; cbn; [constructor|].
  case_bool_decide as Hr.
  - exists [], l. cbn. split_and!; [done|lia|done].
  - specialize (IH (S off)). destruct (find_near near l (S off)) as [[i x]|].
    + destruct IH as (a & b & -> & -> & Hx). exists (r :: a), b. cbn. split_and!; [done|lia|done].
    + by constructor.
Qed.

Lemma find_substitute_spec near inPath l :
  match find_substitute near inPath l with
  | Some r => r ∈ l /\ pe_ID r ∈ near /\ pe_ID r ∉ inPath
  | None => Forall (fun r => pe_ID r ∈ near -> pe_ID r ∈ inPath) l
  end.
Proof.
  induction l as [|r l IH]; cbn; [constructor|].
  destruct (bool_decide (pe_ID r ∈ near)) eqn:H1, (bool_decide (pe_ID r ∈ inPath)) eqn:H2; cbn; split_bools.
  2: { split; [constructor|done]. }
  all: destruct (find_substitute near inPath l); [destruct IH as [? ?]; split; [by constructor|done]|by constructor].
Qed.

Definition exit_near (near : gset string) (l : list Peer) : Prop :=
  exists r, last l = Some r /\ pe_ID r ∈ near.

Lemma biasExit_spec picked ordered near :
  NoDup (map pe_ID picked) -> Forall (fun r => r ∈ ordered) picked ->
  let res := biasExit picked ordered near in
  length res = length picked /\ NoDup (map pe_ID res) /\ Forall (fun r => r ∈ ordered) res /\
  (picked <> [] -> (exists r, r ∈ ordered /\ pe_ID r ∈ near) -> exit_near near res).
Proof.
  intros Hn Ho. cbn zeta. unfold biasExit.
  destruct (decide (near = ∅)) as [->|Hne].
  { rewrite bool_decide_eq_true_2 by done. cbn. split_and!; try done. intros _ (r & _ & Hr). set_solver. }
  rewrite bool_decide_eq_false_2 by done. cbn [orb].
  destruct (rev_case picked) as [->|(l & pl & ->)]; [done|].
  rewrite len_app, len_cons, len_nil. pose proof (len_nonneg l). case_if; [lia|].
  rewrite length_app. cbn [length]. replace (length l + 1 - 1)%nat with (length l) by lia.
  rewrite lookup_app_r, Nat.sub_diag by lia. cbn [lookup list_lookup].
  case_bool_decide as Hpl.
  { split_and!; try done; [by rewrite length_app|]. intros _ _. exists pl. by rewrite last_snoc. }
  pose proof (find_near_spec near (l ++ [pl]) 0) as Hf.
  destruct (find_near near (l ++ [pl]) 0) as [[i r]|].
  - destruct Hf as (a & b & He & -> & Hr). cbn [Nat.add].
    destruct (rev_case b) as [->|(b' & x & ->)].
    { apply app_inj_tail in He as [_ ->]. done. }
    rewrite app_comm_cons, app_assoc in He. apply app_inj_tail in He as [-> <-].
    assert (Hres : <[length (a ++ r :: b') := r]> (<[length a := pl]> ((a ++ r :: b') ++ [pl])) = a ++ pl :: b' ++ [r]).
    { rewrite <- app_assoc. cbn [app]. rewrite (insert_app_r_alt a), Nat.sub_diag by lia.
      change (<[0%nat:=pl]> (r :: b' ++ [pl])) with (pl :: b' ++ [pl]).
      rewrite insert_app_r_alt by (rewrite length_app; cbn; lia). rewrite length_app.
      replace (length a + length (r :: b') - length a)%nat with (S (length b')) by (cbn; lia).
      change (<[S (length b') := r]> (pl :: b' ++ [pl])) with (pl :: <[length b' := r]> (b' ++ [pl])).
      by rewrite insert_app_r_alt, Nat.sub_diag by lia. }
    rewrite Hres.
    assert (Hp : a ++ pl :: b' ++ [r] ≡ₚ (a ++ r :: b') ++ [pl]).
    { rewrite <- app_assoc. apply Permutation_app_head. cbn.
      rewrite <- Permutation_cons_append, perm_swap. constructor. by rewrite <- Permutation_cons_append. }
    split_and!.
    + rewrite Hp. by rewrite !length_app.
    + by rewrite Hp.
    + by rewrite Hp.
    + intros _ _. exists r. rewrite app_comm_cons, app_assoc, last_snoc. done.
  - pose proof (find_substitute_spec near (list_to_set (map pe_ID (l ++ [pl]))) ordered) as Hs.
    destruct (find_substitute near _ ordered) as [r|].
    + destruct Hs as (Hro & Hrn & Hri). rewrite insert_app_r_alt, Nat.sub_diag by lia. cbn [insert list_insert].
      rewrite elem_of_list_to_set, map_app in Hri. rewrite map_app in Hn. cbn in Hn.
      apply NoDup_app in Hn as (Hn & _ & _). apply Forall_app in Ho as [Ho _].
      split_and!.
      * by rewrite length_app.
      * rewrite map_app. apply NoDup_app. split_and!; [done| |apply NoDup_singleton].
        intros x Hx. cbn. rewrite list_elem_of_singleton. intros ->. apply Hri. apply elem_of_app. by left.
      * apply Forall_app. split; [done|]. by constructor.
      * intros _ _. exists r. by rewrite last_snoc.
    + split_and!; try done; [by rewrite length_app|]. intros _ (r & Hr & Hrn). exfalso.
      rewrite Forall_forall in Hs. specialize (Hs r Hr Hrn). apply elem_of_list_to_set in Hs.
      apply list_elem_of_In, in_map_iff in Hs as (y & Hy & Hy'%list_elem_of_In).
      rewrite Forall_forall in Hf. apply (Hf y Hy'). by rewrite Hy.
Qed.

Section PathTheorems.
Context `{N : NetOps}.

(** The guards shared by the two path builders. *)
Definition path_guard (dest : Peer) (relays : list Peer) (hopCount : Z) : option routing_err :=
  if bool_decide (pe_ID dest = ""%string \/ pe_PubKey dest = []) then Some ErrNoDestination
  else if bool_decide (hopCount < 0) then Some ErrInvalidHopCount
  else if bool_decide (0 < hopCount /\ List.filter (eligible_for dest) relays = []) then Some ErrInsufficientRelays
  else None.

Lemma guard_spec {A} dest relays hopCount (k : result routing_err A) :
  (if String.eqb (pe_ID dest) "" || (len (pe_PubKey dest) =? 0) then Err ErrNoDestination
   else if hopCount <? 0 then Err ErrInvalidHopCount
   else if (0 <? hopCount) && (len (List.filter (eligible_for dest) relays) =? 0)
        then Err ErrInsufficientRelays else k) =
  match path_guard dest relays hopCount with Some e => Err e | None => k end.
Proof.
  unfold path_guard.
  assert (String.eqb (pe_ID dest) "" || (len (pe_PubKey dest) =? 0)
          = bool_decide (pe_ID dest = ""%string \/ pe_PubKey dest = [])) as ->.
  { apply bool_decide_iff. by rewrite orb_true_iff, String.eqb_eq, len_zero. }
  assert ((hopCount <? 0) = bool_decide (hopCount < 0)) as ->.
  { apply bool_decide_iff, Z.ltb_lt. }
  assert ((0 <? hopCount) && (len (List.filter (eligible_for dest) relays) =? 0)
          = bool_decide (0 < hopCount /\ List.filter (eligible_for dest) relays = [])) as ->.
  { apply bool_decide_iff. by rewrite andb_true_iff, Z.ltb_lt, len_zero. }
  repeat case_if; done.
Qed.

Lemma guard_hops dest relays hopCount :
  path_guard dest relays hopCount = None -> 0 <= hopCount.
Proof. unfold path_guard. repeat case_if; try done. intros _. lia. Qed.

Definition path_len (dest : Peer) (relays : list Peer) (hopCount : Z) : nat :=
  Z.to_nat hopCount `min` length (List.filter (eligible_for dest) relays).

Lemma path_len_spec {A} (l : list A) hopCount :
  0 <= hopCount -> (if len l <? hopCount then len l else hopCount) = Z.of_nat (Z.to_nat hopCount `min` length l).
Proof. intros H. unfold len. case_if; lia. Qed.

Lemma selection_perm l l' n destAddr res : l ≡ₚ l' -> selection l n destAddr res -> selection l' n destAddr res.
Proof.
  intros Hp (H1 & H2 & H3 & d & f & H4 & H5 & H6). split_and!; [done|done| |].
  - eapply Forall_impl; [exact H3|]. cbn. intros x. by rewrite Hp.
  - exists d, f. split_and!; [done|done|]. by rewrite <- (new_subnets_perm _ _ _ Hp).
Qed.

Lemma BuildPath_selection dest relays hopCount :
  NoDup (map pe_ID relays) -> path_guard dest relays hopCount = None ->
  exists picked, BuildPath dest relays hopCount = Ok (map hop_of picked ++ [hop_of dest]) /\
    selection (List.filter (eligible_for dest) relays) (path_len dest relays hopCount) (pe_Address dest) picked.
Proof.
  intros Hn Hg. pose proof (guard_hops _ _ _ Hg) as Hh. unfold BuildPath. rewrite guard_spec, Hg.
  unfold path_len. set (E := List.filter (eligible_for dest) relays).
  rewrite path_len_spec, length_sort_by by done.
  pose proof (sort_by_perm peer_lt E) as Hp.
  exists (selectDiverse (sort_by peer_lt E) (Z.of_nat (Z.to_nat hopCount `min` length E)) (pe_Address dest)).
  split; [unfold selectDiverse; by destruct (pick_diverse _ _ _ _ _)|].
  eapply selection_perm; [exact Hp|]. apply selectDiverse_spec.
  - rewrite Hp. by apply map_nodup_filter.
  - rewrite length_sort_by. lia.
Qed.

(** [BuildPath] fails exactly on its three guards; otherwise the path ends
    at the destination and relays through [min hopCount eligible] distinct,
    eligible relays, of which as many as there are distinct subnets lie in
    subnets of their own, apart from each other and from the destination. *)
Theorem BuildPath_correct dest relays hopCount :
  NoDup (map pe_ID relays) ->
  match path_guard dest relays hopCount with
  | Some e => BuildPath dest relays hopCount = Err e
  | None => exists picked,
      BuildPath dest relays hopCount = Ok (map hop_of picked ++ [hop_of dest]) /\
      selection (List.filter (eligible_for dest) relays) (path_len dest relays hopCount) (pe_Address dest) picked
  end.
Proof.
  intros Hn. destruct (path_guard dest relays hopCount) as [e|] eqn:Hg; [|by apply BuildPath_selection].
  unfold BuildPath. by rewrite guard_spec, Hg.
Qed.

Lemma distinct_loop_spec l seen n :
  distinct_loop l seen n = n + Z.of_nat (new_subnets (List.filter relay_ok l) seen).
Proof.
  revert seen n. induction l as [|r l IH]; intros seen n; cbn [distinct_loop List.filter].
  - unfold new_subnets. replace (_ ∖ seen) with (∅ : gset string) by set_solver. rewrite size_empty. lia.
  - replace (negb (pe_Active r) || negb (pe_RelayCapable r) || (len (pe_PubKey r) =? 0)) with (negb (relay_ok r)).
    2: { unfold relay_ok. destruct (pe_Active r), (pe_RelayCapable r); cbn; try done.
         pose proof (len_nonneg (pe_PubKey r)).
         destruct (Z.ltb_spec 0 (len (pe_PubKey r))), (Z.eqb_spec (len (pe_PubKey r)) 0); cbn; try done; lia. }
    destruct (relay_ok r); cbn [negb]; [|apply IH]. fold (snet r). case_bool_decide as Hs.
    + rewrite IH, new_subnets_cons_used by done. done.
    + rewrite IH, new_subnets_cons_new by done. lia.
Qed.

(** Relays of the destination's own subnet add nothing to the count. *)
Lemma new_subnets_eligible dest relays :
  Forall (fun r => pe_ID r = pe_ID dest -> snet r = snet dest) relays ->
  new_subnets (List.filter relay_ok relays) {[snet dest]} =
  new_subnets (List.filter (eligible_for dest) relays) {[snet dest]}.
Proof.
  intros Hf. unfold new_subnets. f_equal. apply set_eq. intros x.
  rewrite !elem_of_difference, !elem_of_list_to_set, elem_of_singleton.
  assert (Hm : forall f, x ∈ map snet (List.filter f relays) <-> exists r, r ∈ relays /\ f r = true /\ snet r = x).
  { intros f. rewrite list_elem_of_In, in_map_iff. setoid_rewrite filter_In. setoid_rewrite list_elem_of_In. naive_solver. }
  rewrite !Hm. rewrite Forall_forall in Hf. split; intros [(r & Hr & Hok & Hx) Hne]; split; try done; exists r; split_and!; try done.
  - unfold eligible_for. rewrite Hok. cbn. apply negb_true_iff, String.eqb_neq. intros He.
    apply Hne. rewrite <- Hx. by apply Hf.
  - unfold eligible_for in Hok. by split_bools.
Qed.

Lemma new_subnets_le l used : (new_subnets l used <= length l)%nat.
Proof.
  unfold new_subnets. transitivity (size (list_to_set (map snet l) : gset string)).
  - apply subseteq_size. set_solver.
  - induction l as [|r l IH]; [cbn; rewrite size_empty; lia|]. cbn.
    pose proof (size_union_alt ({[snet r]} : gset string) (list_to_set (map snet l))) as ->.
    rewrite size_singleton. assert (size ((list_to_set (map snet l) : gset string) ∖ {[snet r]}) <=
      size (list_to_set (map snet l) : gset string))%nat; [apply subseteq_size; set_solver|lia].
Qed.

Lemma AdaptiveHops_bounds destAddr relays minHops maxHops :
  let h := AdaptiveHops destAddr relays minHops maxHops in
  0 <= h <= 3 /\ h <= DistinctSubnetRelays destAddr relays /\ (0 < maxHops -> h <= maxHops) /\
  (h <> 0 -> minHops <= h) /\
  (h = 0 -> DistinctSubnetRelays destAddr relays = 0 \/
     0 < minHops /\ ((0 < maxHops /\ maxHops < minHops) \/ 3 < minHops \/ DistinctSubnetRelays destAddr relays < 2 * minHops)).
Proof.
  assert (Hd : 0 <= DistinctSubnetRelays destAddr relays) by (unfold DistinctSubnetRelays; rewrite distinct_loop_spec; lia).
  cbn zeta. unfold AdaptiveHops. set (d := DistinctSubnetRelays destAddr relays) in *. clearbody d.
  repeat case_if; try lia.
  all: repeat match goal with H : context [if ?b then _ else _] |- _ => destruct b eqn:?; split_bools end.
  all: repeat match goal with H : _ || _ = _ |- _ => (apply orb_true_iff in H as [H|H] || apply orb_false_iff in H as [? H]) | H : _ && _ = false |- _ => apply andb_false_iff in H as [H|H] end; split_bools; lia.
Qed.

(** A positive adaptive hop count [h] is at most three and the configured
    maximum, at least the configured floor, and is achievable: the path built
    with it has exactly [h] relays, pairwise in different subnets, none in the
    destination's.  Zero means that no relay outside the destination's subnet
    exists or that the floor is out of reach. *)
Theorem adaptive_path dest relays minHops maxHops :
  NoDup (map pe_ID relays) -> pe_ID dest <> ""%string -> pe_PubKey dest <> [] ->
  Forall (fun r => pe_ID r = pe_ID dest -> snet r = snet dest) relays ->
  let h := AdaptiveHops (pe_Address dest) relays minHops maxHops in
  let d := DistinctSubnetRelays (pe_Address dest) relays in
  (h = 0 /\ (d = 0 \/ 0 < minHops /\ ((0 < maxHops /\ maxHops < minHops) \/ 3 < minHops \/ d < 2 * minHops))) \/
  (1 <= h <= 3 /\ minHops <= h /\ (0 < maxHops -> h <= maxHops) /\
   exists picked, BuildPath dest relays h = Ok (map hop_of picked ++ [hop_of dest]) /\
     len picked = h /\ NoDup (snet dest :: map snet picked) /\ NoDup (map pe_ID picked) /\
     Forall (fun r => relay_ok r = true /\ pe_ID r <> pe_ID dest) picked).
Proof.
  intros Hn Hid Hpk Hsub. cbn zeta.
  destruct (AdaptiveHops_bounds (pe_Address dest) relays minHops maxHops) as (H1 & H2 & H3 & H4 & H5).
  set (h := AdaptiveHops _ _ _ _) in *. destruct (Z.eq_dec h 0) as [E|E]; [left; auto|right].
  split; [lia|]. split; [by apply H4|]. split; [done|].
  unfold DistinctSubnetRelays in H2. rewrite distinct_loop_spec in H2. fold (snet dest) in H2.
  rewrite new_subnets_eligible in H2 by done.
  pose proof (new_subnets_le (List.filter (eligible_for dest) relays) {[snet dest]}) as Hle.
  assert (Hg : path_guard dest relays h = None).
  { unfold path_guard. rewrite bool_decide_eq_false_2 by (intros [|]; done).
    rewrite bool_decide_eq_false_2 by lia. rewrite bool_decide_eq_false_2; [done|]. intros [_ He].
    rewrite He in *. cbn in *. lia. }
  destruct (BuildPath_selection dest relays h Hn Hg) as (picked & HB & Hl & Hids & Hall & d & f & -> & Hnd & Hd).
  assert (Hpl : path_len dest relays h = Z.to_nat h) by (unfold path_len; lia).
  rewrite Hpl in *. fold (snet dest) in *. assert (f = []) as ->.
  { destruct f; [done|]. rewrite length_app in Hl. cbn in Hl. lia. }
  exists (d ++ []). split; [done|]. rewrite app_nil_r in *. split_and!; [unfold len; lia|done|done|].
  eapply Forall_impl; [exact Hall|]. cbn. intros r Hr. apply elem_of_filterb in Hr as [_ Hr].
  unfold eligible_for in Hr. split_bools. done.
Qed.

Variable shuffle : Z -> list nat -> list Peer -> list Peer.
Hypothesis shuffle_perm : forall seed before l, shuffle seed before l ≡ₚ l.

Lemma tierOrder_perm E opt : tierOrder shuffle E opt ≡ₚ E.
Proof using shuffle_perm.
  unfold tierOrder. rewrite !shuffle_perm, app_assoc, take_drop, sort_by_perm.
  apply filter_split_perm.
Qed.

Lemma BuildPathTiered_spec dest relays hopCount opt :
  NoDup (map pe_ID relays) ->
  match path_guard dest relays hopCount with
  | Some e => BuildPathTiered shuffle dest relays hopCount opt = Err e
  | None => exists picked,
      BuildPathTiered shuffle dest relays hopCount opt = Ok (map hop_of picked ++ [hop_of dest]) /\
      length picked = path_len dest relays hopCount /\ NoDup (map pe_ID picked) /\
      Forall (fun r => r ∈ relays /\ relay_ok r = true /\ pe_ID r <> pe_ID dest) picked /\
      (0 < hopCount -> (exists r, r ∈ relays /\ eligible_for dest r = true /\ pe_ID r ∈ o_ExitNear opt) ->
       exit_near (o_ExitNear opt) picked)
  end.
Proof using shuffle_perm.
  intros Hn. unfold BuildPathTiered. rewrite guard_spec.
  destruct (path_guard dest relays hopCount) as [e|] eqn:Hg; [done|].
  pose proof (guard_hops _ _ _ Hg) as Hh. rewrite path_len_spec by done.
  fold (path_len dest relays hopCount). set (E := List.filter (eligible_for dest) relays).
  pose proof (tierOrder_perm E opt) as Hp. set (O := tierOrder shuffle E opt) in *.
  assert (HnE : NoDup (map pe_ID E)) by by apply map_nodup_filter.
  assert (HnO : NoDup (map pe_ID O)) by by rewrite Hp.
  assert (Hle : (path_len dest relays hopCount <= length O)%nat) by (rewrite Hp; unfold path_len; fold E; lia).
  destruct (selectDiverse_spec O _ (pe_Address dest) HnO Hle) as (Hl & Hids & Hall & _).
  set (S1 := selectDiverse O _ _) in *.
  destruct (biasExit_spec S1 O (o_ExitNear opt) Hids Hall) as (B1 & B2 & B3 & B4).
  eexists. split; [done|]. split_and!; [lia|done| |].
  - eapply Forall_impl; [exact B3|]. cbn. intros r Hr. rewrite Hp in Hr. unfold E in Hr.
    apply elem_of_filterb in Hr as [Hr He]. unfold eligible_for in He. split_bools. done.
  - intros Hpos (r & Hr & He & Hnear). assert (HrE : r ∈ E) by by apply elem_of_filterb.
    apply B4.
    + intros Hnil. rewrite Hnil in Hl. cbn in Hl. unfold path_len in Hl. fold E in Hl.
      destruct E; [by apply not_elem_of_nil in HrE|cbn in Hl; lia].
    + exists r. rewrite Hp. done.
Qed.

(** Whatever the seeded shuffle does, the tiered path ends at the
    destination and relays through [min hopCount eligible] distinct eligible
    relays; and whenever some eligible relay is known to be near the
    destination, the relay next to the destination is such a one. *)
Theorem BuildPathTiered_correct dest relays hopCount opt :
  NoDup (map pe_ID relays) ->
  match path_guard dest relays hopCount with
  | Some e => BuildPathTiered shuffle dest relays hopCount opt = Err e
  | None => exists picked,
      BuildPathTiered shuffle dest relays hopCount opt = Ok (map hop_of picked ++ [hop_of dest]) /\
      length picked = path_len dest relays hopCount /\ NoDup (map pe_ID picked) /\
      Forall (fun r => r ∈ relays /\ relay_ok r = true /\ pe_ID r <> pe_ID dest) picked /\
      (0 < hopCount -> (exists r, r ∈ relays /\ eligible_for dest r = true /\ pe_ID r ∈ o_ExitNear opt) ->
       exit_near (o_ExitNear opt) picked)
  end.
Proof using shuffle_perm. apply BuildPathTiered_spec. Qed.
End PathTheorems.

(** ** Spreading *)

Lemma spread_loop_spec relays i todo plan :
  relays <> [] ->
  exists plan', spread_loop relays (length relays) i todo plan = Some plan' /\
    forall j, plan' !! j =
      if bool_decide (Z.of_nat i <= j < Z.of_nat (i + todo))
      then relays !! (Z.to_nat j mod length relays)%nat else plan !! j.
Proof.
  intros Hne. revert i plan. induction todo as [|todo IH]; intros i plan; cbn [spread_loop].
  - exists plan. split; [done|]. intros j. rewrite bool_decide_eq_false_2 by lia. done.
  - assert (Hlt : (i mod length relays < length relays)%nat).
    { apply Nat.mod_upper_bound. by destruct relays. }
    destruct (lookup_lt_is_Some_2 relays _ Hlt) as [r Hr]. rewrite Hr.
    destruct (IH (S i) (<[Z.of_nat i := r]> plan)) as (plan' & -> & Hp). exists plan'. split; [done|].
    intros j. rewrite Hp. repeat case_bool_decide; try lia; try done.
    + assert (j = Z.of_nat i) as -> by lia. rewrite lookup_insert_eq, Nat2Z.id. done.
    + rewrite lookup_insert_ne by lia. done.
Qed.

Definition relay_count (minRelays : Z) (active : nat) : nat := Z.to_nat (Z.max 1 minRelays) `min` active.

(** [SpreadPlan] fails exactly on its three guards and never indexes out of
    range; otherwise it assigns every fragment index and no other, round-robin
    over the [max 1 minRelays] fastest active peers (all of them when there are
    fewer).  With two relays or more and two fragments or more, no relay holds
    every fragment. *)
Theorem SpreadPlan_correct fragmentCount minRelays peers :
  NoDup (map pe_ID peers) ->
  let active := activeSorted peers in
  let rc := relay_count minRelays (length active) in
  (fragmentCount <= 0 -> SpreadPlan fragmentCount minRelays peers = Err ErrInvalidFragmentCount) /\
  (0 < fragmentCount -> active = [] -> SpreadPlan fragmentCount minRelays peers = Err ErrNoActivePeers) /\
  (0 < fragmentCount -> length active = 1%nat -> 1 < minRelays ->
     SpreadPlan fragmentCount minRelays peers = Err ErrInsufficientRelays) /\
  (0 < fragmentCount -> active <> [] -> (1 < minRelays -> length active <> 1%nat) ->
     exists plan, SpreadPlan fragmentCount minRelays peers = Ok (Some plan) /\
       (forall j, plan !! j = if bool_decide (0 <= j < fragmentCount)
                              then active !! (Z.to_nat j mod rc)%nat else None) /\
       (1 < minRelays -> 2 <= fragmentCount -> forall r, exists j q, plan !! j = Some q /\ pe_ID q <> pe_ID r)).
Proof.
  intros Hn. cbn zeta. unfold SpreadPlan. set (active := activeSorted peers).
  assert (HnA : NoDup (map pe_ID active)).
  { unfold active, activeSorted. rewrite sort_by_perm. by apply map_nodup_filter. }
  assert (Hz : (len active =? 0) = false <-> active <> []).
  { rewrite <- len_zero. by destruct (len active =? 0). }
  split_and!.
  - intros H. case_if; [done|lia].
  - intros H ->. case_if; [lia|]. done.
  - intros H H1 H2. case_if; [lia|]. unfold len. rewrite H1. cbn.
    by rewrite (proj2 (Z.ltb_lt 1 minRelays)).
  - intros H Hne Hm. case_if; [lia|]. rewrite (proj2 Hz Hne).
    case_if. { unfold len in *. destruct active; [done|]. cbn in *. lia. }
    assert (Hrc : Z.to_nat (if len active <? (if minRelays <? 1 then 1 else minRelays) then len active
                    else if minRelays <? 1 then 1 else minRelays) = relay_count minRelays (length active)).
    { unfold relay_count, len. destruct (Z.ltb_spec minRelays 1); case_if; lia. }
    rewrite Hrc. set (rc := relay_count minRelays (length active)).
    assert (Hpos : (0 < rc <= length active)%nat).
    { unfold rc, relay_count. destruct active; [done|]. cbn [length]. lia. }
    assert (Hlen : length (take rc active) = rc) by (rewrite length_take; lia).
    destruct (spread_loop_spec (take rc active) 0 (Z.to_nat fragmentCount) ∅) as (plan & Hs & Hp).
    { intros He. rewrite He in Hlen. cbn in Hlen. lia. }
    rewrite Hlen in *. exists plan. rewrite Hs. split; [done|].
    assert (Hplan : forall j, plan !! j = if bool_decide (0 <= j < fragmentCount)
                              then active !! (Z.to_nat j mod rc)%nat else None).
    { intros j. rewrite Hp. repeat case_bool_decide; try lia; [|done].
      apply lookup_take_lt. apply Nat.mod_upper_bound. lia. }
    split; [done|]. intros H2 Hf r.
    assert (H2rc : (2 <= rc)%nat).
    { unfold rc, relay_count. specialize (Hm H2). destruct active as [|a [|b l]]; [done|done|]. cbn [length]. lia. }
    destruct (lookup_lt_is_Some_2 active 0) as [q0 H0]; [lia|].
    destruct (lookup_lt_is_Some_2 active 1) as [q1 H1]; [lia|].
    assert (Hq : pe_ID q0 <> pe_ID q1).
    { intros He. assert (0%nat = 1%nat); [|done]. eapply (NoDup_lookup _ _ _ (pe_ID q0) HnA).
      - change (map pe_ID active) with (pe_ID <$> active). by rewrite list_lookup_fmap, H0.
      - change (map pe_ID active) with (pe_ID <$> active). by rewrite list_lookup_fmap, H1, He. }
    destruct (decide (pe_ID q0 = pe_ID r)) as [E|E].
    + exists 1, q1. rewrite Hplan, bool_decide_eq_true_2 by lia.
      change (Z.to_nat 1) with 1%nat. rewrite Nat.mod_small by lia. split; [done|congruence].
    + exists 0, q0. rewrite Hplan, bool_decide_eq_true_2 by lia.
      change (Z.to_nat 0) with 0%nat. rewrite Nat.mod_small by lia. done.
Qed.

(** ** Witnesses *)

#[local] Instance toy_net : NetOps := {| ParseIP := fun _ => None; IPString := fun _ => ""%string |}.
Definition toy_shuffle (seed : Z) (before : list nat) (l : list Peer) : list Peer := rev l.
Lemma toy_shuffle_perm seed before l : toy_shuffle seed before l ≡ₚ l.
Proof. symmetry. apply Permutation_rev. Qed.

Definition sp (id host : string) (lat : Z) : Peer := mkPeer id (host ++ ":1") lat true [x01] 1 true.
Definition sample_peers : list Peer := [sp "a" "h1" 30; sp "b" "h2" 20; sp "c" "h2" 10; sp "d" "h3" 5].
Definition sample_dest : Peer := sp "z" "h9" 0.

Lemma sample_peers_nodup : NoDup (map pe_ID sample_peers).
Proof. apply (bool_decide_unpack _). vm_compute. exact I. Qed.

Lemma BuildPath_correct_witness :
  BuildPath sample_dest sample_peers 4 =
    Ok (map hop_of [sp "d" "h3" 5; sp "c" "h2" 10; sp "a" "h1" 30; sp "b" "h2" 20] ++ [hop_of sample_dest]) /\
  exists picked, BuildPath sample_dest sample_peers 4 = Ok (map hop_of picked ++ [hop_of sample_dest]) /\
    length picked = 4%nat.
Proof.
  split; [vm_compute; reflexivity|].
  pose proof (BuildPath_correct sample_dest sample_peers 4 sample_peers_nodup) as H.
  change (path_guard sample_dest sample_peers 4) with (@None routing_err) in H. cbv iota in H.
  destruct H as (picked & H & Hl & _). exists picked. split; [exact H|exact Hl].
Defined.

Lemma adaptive_path_witness :
  AdaptiveHops "h9:1" sample_peers 2 0 = 2 /\
  exists picked, BuildPath sample_dest sample_peers 2 = Ok (map hop_of picked ++ [hop_of sample_dest]) /\ len picked = 2.
Proof.
  split; [vm_compute; reflexivity|].
  destruct (adaptive_path sample_dest sample_peers 2 0) as [[H _]|(_ & _ & _ & picked & H & Hl & _)].
  - exact sample_peers_nodup.
  - discriminate.
  - discriminate.
  - repeat constructor; vm_compute; discriminate.
  - vm_compute in H. discriminate.
  - exists picked. split; [exact H|exact Hl].
Defined.

Lemma BuildPathTiered_correct_witness :
  exists picked, BuildPathTiered toy_shuffle sample_dest sample_peers 2 (mkOpts 7 ∅ {["a"]}) =
    Ok (map hop_of picked ++ [hop_of sample_dest]) /\ exit_near {["a"]} picked.
Proof.
  pose proof (BuildPathTiered_correct toy_shuffle toy_shuffle_perm sample_dest sample_peers 2
    (mkOpts 7 ∅ {["a"]}) sample_peers_nodup) as H.
  change (path_guard sample_dest sample_peers 2) with (@None routing_err) in H. cbv iota in H.
  destruct H as (picked & H & _ & _ & _ & Hx). exists picked. split; [exact H|]. apply Hx; [lia|].
  exists (sp "a" "h1" 30). split_and!; [constructor|reflexivity|set_solver].
Defined.

Lemma SpreadPlan_correct_witness :
  exists plan, SpreadPlan 5 2 sample_peers = Ok (Some plan) /\ plan !! 3 = Some (sp "c" "h2" 10).
Proof.
  destruct (SpreadPlan_correct 5 2 sample_peers sample_peers_nodup) as (_ & _ & _ & H).
  destruct H as (plan & H & Hp & _); [lia|vm_compute; discriminate|vm_compute; discriminate|].
  exists plan. split; [exact H|]. rewrite Hp. vm_compute. reflexivity.
Defined.

(** A deprioritized host is taken before a second relay of a used subnet, although
    two other relays are available for two hops. *)
Example deprioritized_not_last :
  BuildPathTiered toy_shuffle sample_dest [sp "b" "h2" 20; sp "c" "h2" 10; sp "s" "seed" 1] 2
    (mkOpts 1 {["seed"]} ∅) =
  Ok (map hop_of [sp "c" "h2" 10; sp "s" "seed" 1] ++ [hop_of sample_dest]).
Proof. vm_compute. reflexivity. Qed.
