(* ===== verification/Encryption.v ===== *)
(** * Sealing and onion layers (internal/encryption/encryption.go)

    AES-256-GCM sealing with a shared key, hybrid sealing to an X25519 key, hybrid
    post-quantum sealing, the onion layer codec, [BuildOnion]/[PeelOnion] and the
    X25519 KEM.  The values a call draws from [crypto/rand] are its [draws]
    argument; a nil key is [None]. *)

From S2P Require Import Prelude Crypto.

Inductive enc_err : Type :=
| ErrKeySize | ErrCiphertextShort
| errAuth            (** [cipher: message authentication failed] *)
| errNoRecipient | errNoPrivate | errNeedBoth
| errBadPub | errECDH | errKDF | errDecap
| errTruncatedLayer | errEmptyPath | errNilPub.

Definition of_option {A E} (e : E) (o : option A) : result E A :=
  match o with Some a => Ok a | None => Err e end.

(** What one call draws at random. *)
Record draws : Type := mkDraws {
  d_eph : bytes;      (** the ephemeral X25519 private key *)
  d_pq : bytes;       (** the ML-KEM encapsulation randomness *)
  d_nonce : bytes     (** the GCM nonce *)
}.

Definition wf_draws (d : draws) : Prop := len (d_nonce d) = gcm_NonceSize.

(** The [Sealer] interface. *)
Record Sealer : Type := mkSealer {
  sl_Seal : draws -> bytes -> bytes -> result enc_err bytes;
  sl_Open : bytes -> bytes -> result enc_err bytes
}.

(** What a sender's sealer and the receiver's promise each other. *)
Class SealerPair (snd rcv : Sealer) : Prop := {
  seal_open d pt aad : wf_draws d ->
    exists ct, sl_Seal snd d pt aad = Ok ct /\ sl_Open rcv ct aad = Ok pt
}.

Section Sealing.
Context `{C : CryptoOps}.

(** ** AES-256-GCM *)

Definition aead_Seal (key : bytes) (d : draws) (plaintext aad : bytes) : result enc_err bytes :=
  let nonce := d_nonce d in
  Ok (nonce ++ gcm_seal key nonce plaintext aad).

Definition aead_Open (key ciphertext aad : bytes) : result enc_err bytes :=
  let ns := gcm_NonceSize in
  if len ciphertext <? ns then Err ErrCiphertextShort
  else
    let nonce := take (Z.to_nat ns) ciphertext in
    let ct := drop (Z.to_nat ns) ciphertext in
    of_option errAuth (gcm_open key nonce ct aad).

Definition NewAEADSealer (key : bytes) : result enc_err Sealer :=
  if negb (len key =? 32) then Err ErrKeySize
  else Ok (mkSealer (aead_Seal key) (aead_Open key)).

(** ** Hybrid X25519 sealing *)

Definition hkdfInfo : bytes := str_bytes "syncswarm/hybrid/aes-256-gcm/v1".
Definition pqHybridInfo : bytes := str_bytes "syncswarm/hybrid-pq/x25519+mlkem768/aes-256-gcm/v1".
Definition mlkem768CiphertextSize : Z := 1088.

(** [copy(k[:], out)] into a zeroed [[32]byte]. *)
Definition key32 (out : bytes) : bytes := take 32 (out ++ repeat x00 32).

Definition deriveKey (sharedSecret : bytes) : result enc_err bytes :=
  try out := of_option errKDF (hkdf32 sharedSecret [] hkdfInfo) in
  Ok (key32 out).

Definition SealHybrid (recipientPub : bytes) (d : draws) (plaintext aad : bytes) : result enc_err bytes :=
  let ephPriv := d_eph d in
  try sharedSecret := of_option errECDH (x_ecdh ephPriv recipientPub) in
  try key := deriveKey sharedSecret in
  try sealer := NewAEADSealer key in
  try sealed := sl_Seal sealer d plaintext aad in
  Ok (x_public ephPriv ++ sealed).

Definition NewPublicKey (b : bytes) : result enc_err bytes :=
  if x_valid_pub b then Ok b else Err errBadPub.

Definition OpenHybrid (recipientPriv ciphertext aad : bytes) : result enc_err bytes :=
  let pubSize := len (x_public recipientPriv) in
  if len ciphertext <? pubSize then Err ErrCiphertextShort
  else
    let ephPubBytes := take (Z.to_nat pubSize) ciphertext in
    let sealed := drop (Z.to_nat pubSize) ciphertext in
    try ephPub := NewPublicKey ephPubBytes in
    try sharedSecret := of_option errECDH (x_ecdh recipientPriv ephPub) in
    try key := deriveKey sharedSecret in
    try sealer := NewAEADSealer key in
    sl_Open sealer sealed aad.

Definition hybrid_Seal (recipientPub : option bytes) (d : draws) (plaintext aad : bytes) : result enc_err bytes :=
  match recipientPub with
  | None => Err errNoRecipient
  | Some pub => SealHybrid pub d plaintext aad
  end.

Definition hybrid_Open (myPriv : option bytes) (ciphertext aad : bytes) : result enc_err bytes :=
  match myPriv with
  | None => Err errNoPrivate
  | Some priv => OpenHybrid priv ciphertext aad
  end.

Definition NewHybridSealer (recipientPub myPriv : option bytes) : Sealer :=
  mkSealer (hybrid_Seal recipientPub) (hybrid_Open myPriv).

(** ** Hybrid X25519 + ML-KEM-768 sealing *)

Definition pqHybridKey (secretX secretPQ ephXPub ctPQ : bytes) : result enc_err bytes :=
  let combined := [] ++ secretX in
  let combined := combined ++ secretPQ in
  let combined := combined ++ ephXPub in
  let combined := combined ++ ctPQ in
  of_option errKDF (hkdf32 combined [] pqHybridInfo).

Definition SealHybridPQ (x25519Pub mlkemPub : option bytes) (d : draws) (plaintext aad : bytes) : result enc_err bytes :=
  match x25519Pub, mlkemPub with
  | Some xp, Some mp =>
      let ephPriv := d_eph d in
      try secretX := of_option errECDH (x_ecdh ephPriv xp) in
      let '(secretPQ, ctPQ) := ml_encap mp (d_pq d) in
      let ephPubBytes := x_public ephPriv in
      try key := pqHybridKey secretX secretPQ ephPubBytes ctPQ in
      try sealer := NewAEADSealer key in
      try sealed := sl_Seal sealer d plaintext aad in
      Ok (ephPubBytes ++ ctPQ ++ sealed)
  | _, _ => Err errNeedBoth
  end.

Definition OpenHybridPQ (x25519Priv mlkemDecap : option bytes) (ciphertext aad : bytes) : result enc_err bytes :=
  match x25519Priv, mlkemDecap with
  | Some xs, Some ms =>
      let xPubLen := 32 in
      if len ciphertext <? xPubLen + mlkem768CiphertextSize then Err ErrCiphertextShort
      else
        let ephPubBytes := take 32 ciphertext in
        let ctPQ := subslice ciphertext 32 (Z.to_nat (xPubLen + mlkem768CiphertextSize)) in
        let sealed := drop (Z.to_nat (xPubLen + mlkem768CiphertextSize)) ciphertext in
        try ephPub := NewPublicKey ephPubBytes in
        try secretX := of_option errECDH (x_ecdh xs ephPub) in
        try secretPQ := of_option errDecap (ml_decap ms ctPQ) in
        try key := pqHybridKey secretX secretPQ ephPubBytes ctPQ in
        try sealer := NewAEADSealer key in
        sl_Open sealer sealed aad
  | _, _ => Err errNeedBoth
  end.

Definition NewPQHybridSealer (x25519Pub mlkemPub x25519Priv mlkemDecap : option bytes) : Sealer :=
  mkSealer (SealHybridPQ x25519Pub mlkemPub) (OpenHybridPQ x25519Priv mlkemDecap).

(** ** The X25519 KEM *)

Definition kem_Encapsulate (d : draws) (peerPub : bytes) : result enc_err (bytes * bytes) :=
  try pub := NewPublicKey peerPub in
  let ephPriv := d_eph d in
  try ss := of_option errECDH (x_ecdh ephPriv pub) in
  Ok (x_public ephPriv, ss).

Definition kem_Decapsulate (priv : option bytes) (ciphertext : bytes) : result enc_err bytes :=
  match priv with
  | None => Err errNoPrivate
  | Some k =>
      try ephPub := NewPublicKey ciphertext in
      of_option errECDH (x_ecdh k ephPub)
  end.
End Sealing.

(** ** Onion layers *)

Record onionLayer : Type := mkLayer {
  l_IsFinal : bool;
  l_NextAddr : string;
  l_NextNode : string;
  l_Inner : bytes
}.

(** [OnionPeel] has the same four fields. *)
Definition OnionPeel : Type := onionLayer.

Record OnionHop : Type := mkOnionHop {
  oh_NodeID : string;
  oh_Addr : string;
  oh_PubKey : option bytes
}.

Definition appendLenField (b v : bytes) : bytes := (b ++ be_bytes 4 (u32 (len v))) ++ v.

Definition marshalLayer (l : onionLayer) : bytes :=
  let buf := [] in
  let buf := if l_IsFinal l then buf ++ [x01] else buf ++ [x00] in
  let buf := appendLenField buf (str_bytes (l_NextAddr l)) in
  let buf := appendLenField buf (str_bytes (l_NextNode l)) in
  let buf := appendLenField buf (l_Inner l) in
  buf.

(** The field loop: [todo] length-prefixed fields. *)
Fixpoint layer_fields (todo : nat) (rest : bytes) : result enc_err (list bytes) :=
  match todo with
  | O => Ok []
  | S todo' =>
      if len rest <? 4 then Err errTruncatedLayer
      else
        let n := be_val (take 4 rest) in
        let rest := drop 4 rest in
        if (n <? 0) || (len rest <? n) then Err errTruncatedLayer
        else
          let f := take (Z.to_nat n) rest in
          try fs := layer_fields todo' (drop (Z.to_nat n) rest) in
          Ok (f :: fs)
  end.

Definition unmarshalLayer (data : bytes) : result enc_err onionLayer :=
  match data with
  | [] => Err errTruncatedLayer
  | b :: rest =>
      try fields := layer_fields 3 rest in
      match fields with
      | [f0; f1; f2] => Ok (mkLayer (byte_to_Z b =? 1) (bytes_str f0) (bytes_str f1) f2)
      | _ => Err errTruncatedLayer
      end
  end.

Section Onion.
Context `{C : CryptoOps}.

(** The wrapping loop, from the last hop outwards: [hops] is the path in order,
    [ds] the draws of each layer in path order. *)
Fixpoint onion_wrap (hops : list OnionHop) (ds : list draws) (finalPayload : bytes) : result enc_err bytes :=
  match hops, ds with
  | [h], d :: _ =>
      match oh_PubKey h with
      | Some pub => SealHybrid pub d (marshalLayer (mkLayer true "" "" finalPayload)) []
      | None => Err errNilPub
      end
  | h :: ((h' :: _) as t), d :: ds' =>
      try blob := onion_wrap t ds' finalPayload in
      match oh_PubKey h with
      | Some pub => SealHybrid pub d (marshalLayer (mkLayer false (oh_Addr h') (oh_NodeID h') blob)) []
      | None => Err errNilPub
      end
  | _, _ => Err errEmptyPath
  end.

Definition BuildOnion (hops : list OnionHop) (ds : list draws) (finalPayload : bytes) : result enc_err bytes :=
  match hops with
  | [] => Err errEmptyPath
  | _ :: _ =>
      if forallb (fun h => match oh_PubKey h with Some _ => true | None => false end) hops
      then onion_wrap hops ds finalPayload
      else Err errNilPub
  end.

Definition PeelOnion (myPriv blob : bytes) : result enc_err OnionPeel :=
  try layerBytes := OpenHybrid myPriv blob [] in
  try layer := unmarshalLayer layerBytes in
  Ok (mkLayer (l_IsFinal layer) (l_NextAddr layer) (l_NextNode layer) (l_Inner layer)).
End Onion.

(** ** The sealers keep their promise *)

Section SealerProofs.
Context `{C : CryptoOps} `{L : !CryptoLaws C}.

Lemma aead_open_seal key d pt aad :
  len key = 32 -> wf_draws d -> aead_Open key (d_nonce d ++ gcm_seal key (d_nonce d) pt aad) aad = Ok pt.
Proof using L.
  intros Hk Hd. unfold aead_Open. unfold wf_draws in Hd.
  case_if; [rewrite len_app in *; pose proof (len_nonneg (gcm_seal key (d_nonce d) pt aad)); lia|].
  rewrite <- Hd, take_len_app, drop_len_app, gcm_open_seal by done. done.
Qed.

#[global] Instance aead_pair key s : len key = 32 -> NewAEADSealer key = Ok s -> SealerPair s s.
Proof using L.
  intros Hk Hs. unfold NewAEADSealer in Hs. rewrite Hk in Hs. cbn in Hs. simplify_eq.
  split. intros d pt aad Hd. eexists. split; [done|]. by apply aead_open_seal.
Qed.

Lemma len_key32 out : len (key32 out) = 32.
Proof. unfold key32, len. rewrite length_take, length_app, repeat_length. lia. Qed.

Lemma deriveKey_ok ss : exists key, deriveKey ss = Ok key /\ len key = 32.
Proof using L.
  unfold deriveKey. destruct (hkdf32_ok ss [] hkdfInfo) as [k ->]. cbn.
  eexists. split; [done|]. apply len_key32.
Qed.

Lemma NewAEADSealer_ok key : len key = 32 -> NewAEADSealer key = Ok (mkSealer (aead_Seal key) (aead_Open key)).
Proof. intros Hk. unfold NewAEADSealer. by rewrite Hk. Qed.

Lemma hybrid_roundtrip priv d pt aad :
  wf_draws d ->
  exists ct, SealHybrid (x_public priv) d pt aad = Ok ct /\ OpenHybrid priv ct aad = Ok pt /\
    len ct = len pt + 60.
Proof using L.
  intros Hd. unfold SealHybrid. destruct (x_ecdh_ok (d_eph d) priv) as [ss Hss]. rewrite Hss. cbn [of_option].
  destruct (deriveKey_ok ss) as (key & Hkey & Hk). rewrite Hkey, NewAEADSealer_ok by done. cbn [sl_Seal].
  unfold aead_Seal. eexists. split; [done|]. split.
  - unfold OpenHybrid. rewrite x_public_len.
    set (sealed := d_nonce d ++ _). case_if; [rewrite len_app, x_public_len in *; pose proof (len_nonneg sealed); lia|].
    rewrite <- (x_public_len (d_eph d)), take_len_app, drop_len_app. unfold NewPublicKey.
    rewrite x_public_valid, x_ecdh_comm, Hss. cbn [of_option]. rewrite Hkey, NewAEADSealer_ok by done.
    cbn. by apply aead_open_seal.
  - rewrite !len_app, x_public_len, gcm_seal_len. unfold wf_draws in Hd.
    unfold gcm_NonceSize, gcm_TagSize in *. lia.
Qed.

#[global] Instance hybrid_pair priv o o' :
  SealerPair (NewHybridSealer (Some (x_public priv)) o) (NewHybridSealer o' (Some priv)).
Proof using L.
  split. intros d pt aad Hd. destruct (hybrid_roundtrip priv d pt aad Hd) as (ct & H1 & H2 & _).
  by exists ct.
Qed.

#[global] Instance pq_pair xpriv mpriv o1 o2 o3 o4 :
  SealerPair (NewPQHybridSealer (Some (x_public xpriv)) (Some (ml_public mpriv)) o1 o2)
             (NewPQHybridSealer o3 o4 (Some xpriv) (Some mpriv)).
Proof using L.
  split. intros d pt aad Hd. cbn. destruct (x_ecdh_ok (d_eph d) xpriv) as [sx Hsx]. rewrite Hsx. cbn [of_option].
  destruct (ml_encap (ml_public mpriv) (d_pq d)) as [spq ct] eqn:Epq.
  assert (Hct : len ct = 1088) by (pose proof (ml_encap_len (ml_public mpriv) (d_pq d)) as H; by rewrite Epq in H).
  unfold pqHybridKey. set (comb := ((([] ++ sx) ++ spq) ++ x_public (d_eph d)) ++ ct).
  destruct (hkdf32_ok comb [] pqHybridInfo) as [key Hkey]. cbn zeta. fold comb. rewrite Hkey. cbn [of_option].
  pose proof (hkdf32_len _ _ _ _ Hkey) as Hk. rewrite NewAEADSealer_ok by done. cbn [sl_Seal].
  unfold aead_Seal. eexists. split; [done|].
  set (sealed := d_nonce d ++ _). set (eph := x_public (d_eph d)).
  assert (He : len eph = 32) by apply x_public_len. change (32 + mlkem768CiphertextSize) with 1120.
  case_if; [rewrite !len_app in *; pose proof (len_nonneg sealed); lia|].
  replace 32%nat with (Z.to_nat (len eph)) by by rewrite He.
  rewrite take_len_app.
  assert (Hsub : subslice (eph ++ ct ++ sealed) (Z.to_nat (len eph)) (Z.to_nat 1120) = ct).
  { unfold subslice. rewrite drop_len_app, He. change (Z.to_nat 1120 - Z.to_nat 32)%nat with (Z.to_nat 1088).
    rewrite <- Hct. apply take_len_app. }
  rewrite Hsub.
  assert (Hdrop : drop (Z.to_nat 1120) (eph ++ ct ++ sealed) = sealed).
  { rewrite app_assoc. replace 1120 with (len (eph ++ ct)) by (rewrite len_app; lia). apply drop_len_app. }
  rewrite Hdrop. unfold NewPublicKey, eph. rewrite x_public_valid, x_ecdh_comm, Hsx. cbn [of_option].
  pose proof (ml_decap_encap mpriv (d_pq d)) as Hdec. rewrite Epq in Hdec. cbn in Hdec. rewrite Hdec. cbn [of_option].
  fold comb. rewrite Hkey. cbn [of_option]. rewrite NewAEADSealer_ok by done. cbn. by apply aead_open_seal.
Qed.
End SealerProofs.

(** ** The layer codec *)

Record wf_layer (l : onionLayer) : Prop := {
  wfl_addr : is_u32 (len (str_bytes (l_NextAddr l)));
  wfl_node : is_u32 (len (str_bytes (l_NextNode l)));
  wfl_inner : is_u32 (len (l_Inner l))
}.

Lemma layer_field_step f todo rest :
  is_u32 (len f) ->
  layer_fields (S todo) (be_bytes 4 (u32 (len f)) ++ f ++ rest) =
  try fs := layer_fields todo rest in Ok (f :: fs).
Proof.
  intros Hf. cbn [layer_fields]. rewrite u32_id by done. pose proof (len_nonneg f). pose proof (len_nonneg rest).
  case_if; [autorewrite with len in *; lia|].
  assert (take 4 (be_bytes 4 (len f) ++ f ++ rest) = be_bytes 4 (len f)) as ->.
  { rewrite <- (length_be_bytes 4 (len f)) at 1. apply take_app_length. }
  assert (drop 4 (be_bytes 4 (len f) ++ f ++ rest) = f ++ rest) as ->.
  { rewrite <- (length_be_bytes 4 (len f)) at 1. apply drop_app_length. }
  rewrite be_val_u32 by done. rewrite (proj2 (orb_false_iff _ _)).
  - by rewrite take_len_app, drop_len_app.
  - rewrite len_app. unfold is_u32 in Hf. split; lia.
Qed.

Lemma marshalLayer_fields l :
  marshalLayer l = (if l_IsFinal l then x01 else x00) ::
    be_bytes 4 (u32 (len (str_bytes (l_NextAddr l)))) ++ str_bytes (l_NextAddr l) ++
    be_bytes 4 (u32 (len (str_bytes (l_NextNode l)))) ++ str_bytes (l_NextNode l) ++
    be_bytes 4 (u32 (len (l_Inner l))) ++ l_Inner l ++ [].
Proof. unfold marshalLayer, appendLenField. destruct (l_IsFinal l); cbn; rewrite <- !app_assoc, app_nil_r; done. Qed.

Lemma layer_roundtrip l : wf_layer l -> unmarshalLayer (marshalLayer l) = Ok l.
Proof.
  intros [H1 H2 H3]. rewrite marshalLayer_fields. cbn [unmarshalLayer].
  rewrite !layer_field_step by done. cbn. rewrite !str_bytes_str.
  destruct l as [fin a n i]. by destruct fin.
Qed.

Lemma len_marshalLayer l :
  len (marshalLayer l) = 13 + len (str_bytes (l_NextAddr l)) + len (str_bytes (l_NextNode l)) + len (l_Inner l).
Proof. rewrite marshalLayer_fields. autorewrite with len. lia. Qed.

(** ** Theorems *)

Section OnionProofs.
Context `{C : CryptoOps} `{L : !CryptoLaws C}.

(** The hop a private key belongs to. *)
Definition hop_for (priv : bytes) (na : string * string) : OnionHop :=
  mkOnionHop na.1 na.2 (Some (x_public priv)).

(** The size of the onion for a path of (node, address) pairs. *)
Fixpoint onion_size (path : list (string * string)) (payload : bytes) : Z :=
  match path with
  | [] => len payload
  | [_] => 73 + len payload
  | _ :: ((n', a') :: _) as t => 73 + len (str_bytes a') + len (str_bytes n') + onion_size t payload
  end.

(** What happens along the path: each hop peels one layer with its own key and
    forwards the inner blob; the layers learnt, in order. *)
Fixpoint forward (privs : list bytes) (blob : bytes) : result enc_err (list OnionPeel) :=
  match privs with
  | [] => Ok []
  | k :: ks =>
      try p := PeelOnion k blob in
      try ps := forward ks (l_Inner p) in
      Ok (p :: ps)
  end.

(** What each hop should learn: where to forward, and nothing but that. *)
Fixpoint learnt (path : list (string * string)) : list (bool * string * string) :=
  match path with
  | [] => []
  | [_] => [(true, ""%string, ""%string)]
  | _ :: ((n', a') :: _) as t => (false, a', n') :: learnt t
  end.

Definition seen_by (p : OnionPeel) : bool * string * string := (l_IsFinal p, l_NextAddr p, l_NextNode p).

Lemma peel_sealed priv d l :
  wf_draws d -> wf_layer l ->
  exists blob, SealHybrid (x_public priv) d (marshalLayer l) [] = Ok blob /\
    PeelOnion priv blob = Ok l /\ len blob = len (marshalLayer l) + 60.
Proof using L.
  intros Hd Hl. destruct (hybrid_roundtrip priv d (marshalLayer l) [] Hd) as (ct & H1 & H2 & H3).
  exists ct. split; [done|]. split; [|done]. unfold PeelOnion. rewrite H2, layer_roundtrip by done. by destruct l.
Qed.

Lemma onion_size_nonneg path payload : 0 <= onion_size path payload.
Proof.
  induction path as [|[n a] [|[n' a'] t] IH]; cbn [onion_size] in *.
  - apply len_nonneg.
  - pose proof (len_nonneg payload). lia.
  - pose proof (len_nonneg (str_bytes a')). pose proof (len_nonneg (str_bytes n')). lia.
Qed.

Lemma onion_wrap_forward privs path ds payload :
  length privs = length path -> length ds = length path -> path <> [] -> Forall wf_draws ds ->
  onion_size path payload < 2 ^ 32 ->
  exists blob ps, onion_wrap (zip_with hop_for privs path) ds payload = Ok blob /\
    len blob = onion_size path payload /\ forward privs blob = Ok ps /\
    map seen_by ps = learnt path /\ (l_Inner <$> last ps) = Some payload.
Proof using L.
  revert privs ds. induction path as [|[n a] path IH]; intros [|k privs] [|d ds] Hp Hds Hne Hd Hsz; try done.
  injection Hp as Hp. injection Hds as Hds. inversion_clear Hd as [|? ? Hd0 Hd'].
  destruct path as [|[n' a'] path].
  - destruct privs; [|done]. cbn [zip_with onion_wrap hop_for oh_PubKey]. cbn in Hsz.
    destruct (peel_sealed k d (mkLayer true "" "" payload) Hd0) as (blob & H1 & H2 & H3).
    { split; cbn; try done. unfold is_u32. pose proof (len_nonneg payload). lia. }
    exists blob, [mkLayer true "" "" payload]. rewrite len_marshalLayer in H3. cbn [forward l_NextAddr l_NextNode l_Inner] in *.
    change (len (str_bytes "")) with 0 in H3. rewrite H2. split_and!; [done|cbn [onion_size]; lia|done..].
  - destruct privs as [|k' privs]; [done|]. destruct ds as [|d' ds]; [done|].
    assert (Hsz' : onion_size ((n', a') :: path) payload < 2 ^ 32).
    { change (onion_size ((n, a) :: (n', a') :: path) payload) with
        (73 + len (str_bytes a') + len (str_bytes n') + onion_size ((n', a') :: path) payload) in Hsz.
      pose proof (len_nonneg (str_bytes a')). pose proof (len_nonneg (str_bytes n')). lia. }
    destruct (IH (k' :: privs) (d' :: ds)) as (blob & ps & I1 & I2 & I3 & I4 & I5); [done|done|done|done|done|].
    change (onion_size ((n, a) :: (n', a') :: path) payload) with
        (73 + len (str_bytes a') + len (str_bytes n') + onion_size ((n', a') :: path) payload) in *.
    pose proof (onion_size_nonneg ((n', a') :: path) payload).
    pose proof (len_nonneg (str_bytes a')). pose proof (len_nonneg (str_bytes n')).
    destruct (peel_sealed k d (mkLayer false a' n' blob) Hd0) as (out & H1' & H2' & H3').
    { split; cbn [l_NextAddr l_NextNode l_Inner]; unfold is_u32; lia. }
    rewrite len_marshalLayer in H3'. cbn [l_NextAddr l_NextNode l_Inner] in H3'.
    exists out, (mkLayer false a' n' blob :: ps). split_and!.
    + change (onion_wrap (zip_with hop_for (k :: k' :: privs) ((n, a) :: (n', a') :: path)) (d :: d' :: ds) payload)
        with (try blob := onion_wrap (zip_with hop_for (k' :: privs) ((n', a') :: path)) (d' :: ds) payload in
              SealHybrid (x_public k) d (marshalLayer (mkLayer false a' n' blob)) []).
      by rewrite I1.
    + lia.
    + cbn [forward]. rewrite H2'. cbn [l_Inner]. cbn [forward] in I3. by rewrite I3.
    + cbn [map]. rewrite I4. done.
    + destruct ps as [|p ps]; [done|]. exact I5.
Qed.

Lemma BuildOnion_forward privs path ds payload :
  length privs = length path -> length ds = length path -> path <> [] -> Forall wf_draws ds ->
  onion_size path payload < 2 ^ 32 ->
  exists blob ps, BuildOnion (zip_with hop_for privs path) ds payload = Ok blob /\
    len blob = onion_size path payload /\
    forward privs blob = Ok ps /\ map seen_by ps = learnt path /\ (l_Inner <$> last ps) = Some payload.
Proof using L.
  intros Hp Hds Hne Hd Hsz.
  destruct (onion_wrap_forward privs path ds payload Hp Hds Hne Hd Hsz) as (blob & ps & H1 & H2).
  exists blob, ps. split; [|done]. unfold BuildOnion.
  destruct (zip_with hop_for privs path) as [|h t] eqn:E.
  { destruct privs, path; done. }
  rewrite <- E at 1. rewrite <- H1.
  replace (forallb _ (zip_with hop_for privs path)) with true; [done|].
  symmetry. apply forallb_forall. intros x Hx. apply list_elem_of_In in Hx.
  apply elem_of_lookup_zip_with in Hx as (i & k & na & -> & _). done.
Qed.

(** C12: An onion built for a path is forwarded correctly: peeling it hop by hop,
    each with its own private key, every relay learns the address and node of the
    next hop only, the last hop learns that it is the destination, and what it
    recovers is the payload.  The onion is [73] bytes per hop, plus the next
    hops' names, longer than the payload. *)
Theorem onion_correct privs path ds payload :
  length privs = length path -> length ds = length path -> path <> [] -> Forall wf_draws ds ->
  onion_size path payload < 2 ^ 32 ->
  exists blob ps, BuildOnion (zip_with hop_for privs path) ds payload = Ok blob /\
    len blob = onion_size path payload /\
    forward privs blob = Ok ps /\ map seen_by ps = learnt path /\ (l_Inner <$> last ps) = Some payload.
Proof using L. apply BuildOnion_forward. Qed.

(** Each sealer opens what its counterpart sealed, for every plaintext and
    associated data: the symmetric one (whose key must be 32 bytes), the hybrid
    one with the recipient's key pair, the post-quantum one with both pairs, and
    the KEM agrees on the secret. *)
Theorem sealers_roundtrip key xpriv mpriv :
  (forall s, NewAEADSealer key = Ok s -> SealerPair s s) /\
  (NewAEADSealer key = Err ErrKeySize <-> len key <> 32) /\
  SealerPair (NewHybridSealer (Some (x_public xpriv)) None) (NewHybridSealer None (Some xpriv)) /\
  SealerPair (NewPQHybridSealer (Some (x_public xpriv)) (Some (ml_public mpriv)) None None)
             (NewPQHybridSealer None None (Some xpriv) (Some mpriv)) /\
  (forall d, exists ct ss, kem_Encapsulate d (x_public xpriv) = Ok (ct, ss) /\
     kem_Decapsulate (Some xpriv) ct = Ok ss).
Proof using L.
  split_and!.
  - intros s Hs. apply (aead_pair key); [|done]. unfold NewAEADSealer in Hs.
    case_if_in Hs; [done|]. done.
  - unfold NewAEADSealer. case_if; split; done.
  - apply hybrid_pair.
  - apply pq_pair.
  - intros d. unfold kem_Encapsulate, kem_Decapsulate, NewPublicKey. rewrite x_public_valid.
    destruct (x_ecdh_ok (d_eph d) xpriv) as [ss Hss]. rewrite Hss. cbn. exists (x_public (d_eph d)), ss.
    by rewrite x_public_valid, x_ecdh_comm, Hss.
Qed.

End OnionProofs.

(** The layer codec round-trips, and a decoded layer is never longer than
    the bytes it was read from. *)
Theorem layer_codec l data l' :
  wf_layer l -> unmarshalLayer data = Ok l' ->
  unmarshalLayer (marshalLayer l) = Ok l /\ wf_layer l' /\
  13 + len (str_bytes (l_NextAddr l')) + len (str_bytes (l_NextNode l')) + len (l_Inner l') <= len data.
Proof.
  intros Hl Hd. split; [by apply layer_roundtrip|].
  assert (Hf : forall todo rest fs, layer_fields todo rest = Ok fs ->
     Forall (fun f => is_u32 (len f)) fs /\ len rest >= 4 * Z.of_nat todo + foldr (fun f n => len f + n) 0 fs).
  { induction todo as [|todo IH]; intros rest fs; cbn [layer_fields].
    - intros H. simplify_eq. split; [constructor|]. cbn. pose proof (len_nonneg rest). lia.
    - case_if; [done|]. case_if; [done|]. destruct (layer_fields todo _) as [gs|] eqn:E; [|done].
      intros Hfs. simplify_eq. destruct (IH _ _ E) as [I1 I2].
      pose proof (be_val_range (take 4 rest)) as Hv.
      assert (Hlt : length (take 4 rest) = 4%nat) by (rewrite length_take; unfold len in *; lia).
      assert (Hln : len (take (Z.to_nat (be_val (take 4 rest))) (drop 4 rest)) = be_val (take 4 rest)).
      { unfold len in *. rewrite length_take. rewrite length_drop in *. lia. }
      unfold len in Hv at 1. rewrite Hlt in Hv. split.
      + constructor; [|done]. rewrite Hln. exact Hv.
      + cbn [foldr]. rewrite Hln. unfold len in *. rewrite !length_drop in *. lia. }
  destruct data as [|b rest]; [done|]. cbn [unmarshalLayer] in Hd.
  destruct (layer_fields 3 rest) as [fs|] eqn:E; [|done]. destruct (Hf _ _ _ E) as [I1 I2].
  destruct fs as [|f0 [|f1 [|f2 [|? ?]]]]; try done. simplify_eq. cbn in I2.
  inversion_clear I1 as [|? ? J0 I1']. inversion_clear I1' as [|? ? J1 I1]. inversion_clear I1 as [|? ? J2 _].
  cbn [l_NextAddr l_NextNode l_Inner]. rewrite len_cons, !bytes_str_bytes. split; [|lia].
  split; cbn [l_NextAddr l_NextNode l_Inner]; rewrite ?bytes_str_bytes; done.
Qed.

Definition sample_layer : onionLayer := mkLayer false "h:1" "node" [x01; x02].
Lemma layer_codec_witness : unmarshalLayer (marshalLayer sample_layer) = Ok sample_layer.
Proof.
  apply (layer_codec sample_layer (marshalLayer sample_layer) sample_layer); [|vm_compute; reflexivity].
  split; vm_compute; split; congruence.
Defined.

Definition sample_draws : draws := mkDraws [x09] [] (repeat x01 12).
Definition sample_onion_path : list (string * string) := [("r1", "a:1"); ("r2", "b:2"); ("dst", "c:3")].
Lemma onion_correct_witness :
  exists blob ps,
    @BuildOnion toy_ops (zip_with (@hop_for toy_ops) [[x01]; [x02]; [x03]] sample_onion_path)
      [sample_draws; sample_draws; sample_draws] [x2a] = Ok blob /\
    @forward toy_ops [[x01]; [x02]; [x03]] blob = Ok ps /\
    map seen_by ps = [(false, "b:2", "r2"); (false, "c:3", "dst"); (true, "", "")]%string.
Proof.
  destruct (@onion_correct toy_ops toy_laws [[x01]; [x02]; [x03]] sample_onion_path
    [sample_draws; sample_draws; sample_draws] [x2a]) as (blob & ps & H1 & _ & H2 & H3 & _).
  - reflexivity.
  - reflexivity.
  - discriminate.
  - repeat constructor.
  - vm_compute. reflexivity.
  - exists blob, ps. split; [exact H1|]. split; [exact H2|]. exact H3.
Defined.

Lemma sealers_roundtrip_witness :
  SealerPair (@NewPQHybridSealer toy_ops (Some (@x_public toy_ops [x01])) (Some (@ml_public toy_ops [x02])) None None)
             (@NewPQHybridSealer toy_ops None None (Some [x01]) (Some [x02])).
Proof. apply (@sealers_roundtrip toy_ops toy_laws [] [x01] [x02]). Defined.
