(* ===== verification/Fragment.v ===== *)
(** * Fragments (internal/fragment/fragment.go, rs.go)

    Chunking, the sealed fragment pipeline and its Reed-Solomon variant.  The
    pipelines are proved against the [SealerPair] interface; the erasure coder
    (github.com/klauspost/reedsolomon) is the parameter [RSOps] with its
    documented behaviour [RSLaws]. *)

From S2P Require Import Prelude Crypto Encryption.

Inductive frag_err : Type :=
| ErrNilSealer | ErrChunkSize | ErrIndexRange | ErrTotalMismatch | ErrIncomplete
| ErrShardCount | ErrShortData | ErrTooFewShards
| errSeal (e : enc_err) | errOpen (e : enc_err) | errRS.

Record Fragment : Type := mkFragment {
  f_TransferID : bytes;      (** [[32]byte] *)
  f_Index : Z;               (** uint32 *)
  f_Total : Z;               (** uint32 *)
  f_Payload : bytes;
  f_SubIndex : Z;
  f_SubTotal : Z;
  f_Streaming : bool;
  f_BlockIndex : Z;
  f_BlockLen : Z;
  f_Final : bool
}.

#[global] Instance Fragment_eq_dec : EqDecision Fragment.
Proof. solve_decision. Defined.

(** [Fragment{TransferID: ..., Index: ..., Total: ..., Payload: ...}]. *)
Definition new_fragment (id : bytes) (index total : Z) (payload : bytes) : Fragment :=
  mkFragment id index total payload 0 0 false 0 0 false.

(** ** Plain chunking *)

Definition Split (data : bytes) (chunkSize : Z) : list bytes :=
  if (chunkSize <=? 0) || (len data =? 0) then []
  else split_loop (length data) data (Z.to_nat chunkSize) 0.

Definition Join (chunks : list bytes) : bytes := fold_left (fun out c => out ++ c) chunks [].

Definition aad (transferID : bytes) (index total : Z) : bytes :=
  let b := [] ++ transferID in
  let b := b ++ be_bytes 4 index in
  let b := b ++ be_bytes 4 total in
  b.

(** ** The sealed pipeline *)

Record Fragmenter : Type := mkFragmenter { fr_sealer : Sealer; fr_chunkSize : Z }.

Definition NewFragmenter (sealer : option Sealer) (chunkSize : Z) : result frag_err Fragmenter :=
  match sealer with
  | None => Err ErrNilSealer
  | Some s => if chunkSize <=? 0 then Err ErrChunkSize else Ok (mkFragmenter s chunkSize)
  end.

(** The sealing loop of both [Fragment] methods: chunk [i] onwards. *)
Fixpoint seal_chunks (s : Sealer) (id : bytes) (total : Z) (i : Z) (chunks : list bytes) (ds : list draws) :
    result frag_err (list Fragment) :=
  match chunks with
  | [] => Ok []
  | chunk :: t =>
      let index := u32 i in
      let d := match ds with d :: _ => d | [] => mkDraws [] [] [] end in
      match sl_Seal s d chunk (aad id index total) with
      | Err e => Err (errSeal e)
      | Ok sealed =>
          try fs := seal_chunks s id total (i + 1) t (drop 1 ds) in
          Ok (new_fragment id index total sealed :: fs)
      end
  end.

Definition Fragmenter_Fragment (f : Fragmenter) (id data : bytes) (ds : list draws) : result frag_err (list Fragment) :=
  let chunks := Split data (fr_chunkSize f) in
  let total := u32 (len chunks) in
  seal_chunks (fr_sealer f) id total 0 chunks ds.

Record Reassembler : Type := mkReassembler {
  ra_sealer : Sealer;
  ra_total : Z;
  ra_parts : gmap Z Fragment
}.

Definition NewReassembler (sealer : Sealer) (total : Z) : Reassembler := mkReassembler sealer total ∅.

Definition Reassembler_Add (r : Reassembler) (fr : Fragment) : result frag_err Reassembler :=
  if negb (f_Total fr =? ra_total r) then Err ErrTotalMismatch
  else if ra_total r <=? f_Index fr then Err ErrIndexRange
  else match ra_parts r !! f_Index fr with
       | Some _ => Ok r
       | None => Ok (mkReassembler (ra_sealer r) (ra_total r) (<[f_Index fr := fr]> (ra_parts r)))
       end.

Definition Complete (r : Reassembler) : bool := u32 (Z.of_nat (size (ra_parts r))) =? ra_total r.

(** [r.parts[i]] of an absent key is the zero [Fragment], whose payload is nil. *)
Definition part_payload (r : Reassembler) (i : Z) : bytes :=
  match ra_parts r !! i with Some fr => f_Payload fr | None => [] end.

Fixpoint open_chunks (r : Reassembler) (id : bytes) (i : Z) (todo : nat) : result frag_err (list bytes) :=
  match todo with
  | O => Ok []
  | S todo' =>
      match sl_Open (ra_sealer r) (part_payload r i) (aad id i (ra_total r)) with
      | Err e => Err (errOpen e)
      | Ok plain =>
          try rest := open_chunks r id (i + 1) todo' in
          Ok (plain :: rest)
      end
  end.

Definition Assemble (r : Reassembler) (id : bytes) : result frag_err bytes :=
  if negb (Complete r) then Err ErrIncomplete
  else
    try chunks := open_chunks r id 0 (Z.to_nat (ra_total r)) in
    Ok (Join chunks).

(** ** The Reed-Solomon pipeline *)

(** [reedsolomon.Encoder] for [dataShards] and [parityShards]; a missing shard is
    an empty one. *)
Class RSOps := {
  rs_New : Z -> Z -> bool;
  rs_Split : Z -> Z -> bytes -> option (list bytes);
  rs_Encode : Z -> Z -> list bytes -> option (list bytes);
  rs_Reconstruct : Z -> Z -> list bytes -> option (list bytes);
  rs_Join : Z -> Z -> list bytes -> Z -> option bytes
}.

(** [part] is [full] with some shards missing. *)
Definition masked (full part : list bytes) : Prop := Forall2 (fun e p => p = e \/ p = []) full part.
Definition present (l : list bytes) : Z := len (List.filter (fun s => negb (len s =? 0)) l).

(** The documented contract, for up to 256 shards. *)
Class RSLaws (R : RSOps) : Prop := {
  rs_new_ok ds ps : 0 < ds -> 0 < ps -> ds + ps <= 256 -> rs_New ds ps = true;
  rs_encode_ok ds ps data : 0 < ds -> 0 < ps -> ds + ps <= 256 -> data <> [] ->
    exists sh enc, rs_Split ds ps data = Some sh /\ rs_Encode ds ps sh = Some enc /\
      len enc = ds + ps /\ Forall (fun s => s <> []) enc /\
      (forall n, 0 <= n <= len data -> rs_Join ds ps enc n = Some (take (Z.to_nat n) data)) /\
      forall part, masked enc part -> ds <= present part -> rs_Reconstruct ds ps part = Some enc
}.

Section ReedSolomon.
Context `{R : RSOps}.

Record RSFragmenter : Type := mkRSFragmenter { rsf_sealer : Sealer; rsf_data : Z; rsf_parity : Z }.

Definition NewRSFragmenter (sealer : option Sealer) (dataShards parityShards : Z) : result frag_err RSFragmenter :=
  match sealer with
  | None => Err ErrNilSealer
  | Some s =>
      if (dataShards <=? 0) || (parityShards <=? 0) then Err ErrShardCount
      else Ok (mkRSFragmenter s dataShards parityShards)
  end.

Definition RSFragmenter_Fragment (f : RSFragmenter) (id data : bytes) (ds : list draws) :
    result frag_err (list Fragment * Z) :=
  if len data <? rsf_data f then Err ErrShortData
  else if negb (rs_New (rsf_data f) (rsf_parity f)) then Err errRS
  else
    try shards := of_option errRS (rs_Split (rsf_data f) (rsf_parity f) data) in
    try shards := of_option errRS (rs_Encode (rsf_data f) (rsf_parity f) shards) in
    let total := u32 (len shards) in
    try frags := seal_chunks (rsf_sealer f) id total 0 shards ds in
    Ok (frags, len data).

Record RSReassembler : Type := mkRSReassembler {
  rr_sealer : Sealer;
  rr_dataShards : Z;
  rr_parityShards : Z;
  rr_originalLen : Z;
  rr_total : Z;
  rr_parts : gmap Z bytes
}.

Definition NewRSReassembler (sealer : Sealer) (dataShards parityShards originalLen : Z) : RSReassembler :=
  mkRSReassembler sealer dataShards parityShards originalLen (u32 (dataShards + parityShards)) ∅.

Definition RSReassembler_Add (r : RSReassembler) (fr : Fragment) : result frag_err RSReassembler :=
  if negb (f_Total fr =? rr_total r) then Err ErrTotalMismatch
  else if rr_total r <=? f_Index fr then Err ErrIndexRange
  else match rr_parts r !! f_Index fr with
       | Some _ => Ok r
       | None => Ok (mkRSReassembler (rr_sealer r) (rr_dataShards r) (rr_parityShards r) (rr_originalLen r)
                       (rr_total r) (<[f_Index fr := f_Payload fr]> (rr_parts r)))
       end.

Definition Count (r : RSReassembler) : Z := Z.of_nat (size (rr_parts r)).
Definition Enough (r : RSReassembler) : bool := rr_dataShards r <=? Count r.

(** The opening loop: the shard at each index (empty where missing or
    unopenable) and how many opened. *)
Fixpoint open_shards (r : RSReassembler) (id : bytes) (i : Z) (todo : nat) : list bytes * Z :=
  match todo with
  | O => ([], 0)
  | S todo' =>
      let '(rest, valid) := open_shards r id (i + 1) todo' in
      match rr_parts r !! i with
      | None => ([] :: rest, valid)
      | Some sealed =>
          match sl_Open (rr_sealer r) sealed (aad id i (rr_total r)) with
          | Err _ => ([] :: rest, valid)
          | Ok plain => (plain :: rest, valid + 1)
          end
      end
  end.

Definition Reconstruct (r : RSReassembler) (id : bytes) : result frag_err bytes :=
  if negb (rs_New (rr_dataShards r) (rr_parityShards r)) then Err errRS
  else
    let '(shards, valid) := open_shards r id 0 (Z.to_nat (rr_total r)) in
    if valid <? rr_dataShards r then Err ErrTooFewShards
    else
      try shards := of_option errRS (rs_Reconstruct (rr_dataShards r) (rr_parityShards r) shards) in
      of_option errRS (rs_Join (rr_dataShards r) (rr_parityShards r) shards (rr_originalLen r)).
End ReedSolomon.

(** ** Chunking is lossless *)

Lemma Join_concat chunks : Join chunks = concat chunks.
Proof.
  unfold Join. assert (H : forall acc, fold_left (fun out c => out ++ c) chunks acc = acc ++ concat chunks).
  { induction chunks as [|c t IH]; intros acc; cbn; [by rewrite app_nil_r|]. by rewrite IH, <- app_assoc. }
  apply H.
Qed.

(** ** The sealed pipeline *)

Section Pipeline.
Context {snd rcv : Sealer} `{SP : !SealerPair snd rcv}.

(** [fs] are fragments of [chunks], the first one at position [i]: in order, each
    opening to its chunk at the receiver. *)
Definition fragments_of (id : bytes) (total i : Z) (chunks : list bytes) (fs : list Fragment) : Prop :=
  length fs = length chunks /\
  forall j ch, chunks !! j = Some ch -> exists ct,
    fs !! j = Some (new_fragment id (i + Z.of_nat j) total ct) /\
    sl_Open rcv ct (aad id (i + Z.of_nat j) total) = Ok ch.

Lemma seal_chunks_ok id total i chunks ds :
  (length chunks <= length ds)%nat -> Forall wf_draws ds -> 0 <= i -> i + len chunks <= 2 ^ 32 ->
  exists fs, seal_chunks snd id total i chunks ds = Ok fs /\ fragments_of id total i chunks fs.
Proof using SP.
  revert i ds. induction chunks as [|ch t IH]; intros i ds Hl Hd Hi Hb; cbn [seal_chunks].
  - exists []. split; [done|]. split; [done|]. intros j ch Hj. by rewrite lookup_nil in Hj.
  - destruct ds as [|d ds]; [cbn in Hl; lia|]. inversion_clear Hd as [|? ? Hd0 Hd'].
    rewrite len_cons in Hb. pose proof (len_nonneg t). rewrite u32_id by (unfold is_u32; lia).
    destruct (seal_open d ch (aad id i total) Hd0) as (ct & -> & Ho).
    destruct (IH (i + 1) ds) as (fs & HS & Hfl & Hf); [cbn in Hl; lia|done|lia|lia|].
    change (drop 1 (d :: ds)) with ds. rewrite HS. eexists. split; [done|]. split; [cbn; lia|].
    intros [|j] ch' Hj.
    + cbn in Hj. simplify_eq. exists ct. rewrite Z.add_0_r. done.
    + cbn in Hj. destruct (Hf j ch' Hj) as (ct' & H1 & H2). exists ct'.
      replace (i + Z.of_nat (S j)) with (i + 1 + Z.of_nat j) by lia. done.
Qed.

Lemma fragments_of_elem id total chunks fs f :
  fragments_of id total 0 chunks fs -> f ∈ fs ->
  exists j ch, chunks !! j = Some ch /\ fs !! j = Some f /\ f_Index f = Z.of_nat j /\ f_Total f = total /\
    (j < length chunks)%nat /\ sl_Open rcv (f_Payload f) (aad id (Z.of_nat j) total) = Ok ch.
Proof.
  intros [Hl Hf] [j Hj]%list_elem_of_lookup_1.
  destruct (lookup_lt_is_Some_2 chunks j) as [ch Hch].
  { apply lookup_lt_Some in Hj. lia. }
  destruct (Hf j ch Hch) as (ct & H1 & H2). rewrite H1 in Hj. simplify_eq.
  apply lookup_lt_Some in Hch as Hlt. exists j, ch. split_and!; try done.
Qed.

Lemma fragments_of_inj id total chunks fs f g :
  fragments_of id total 0 chunks fs -> f ∈ fs -> g ∈ fs -> f_Index f = f_Index g -> f = g.
Proof.
  intros H Hf Hg He. destruct (fragments_of_elem _ _ _ _ _ H Hf) as (j & ? & _ & Hj & Hij & _).
  destruct (fragments_of_elem _ _ _ _ _ H Hg) as (k & ? & _ & Hk & Hik & _).
  assert (j = k) as -> by lia. congruence.
Qed.

Lemma fragments_of_indices id total chunks fs :
  fragments_of id total 0 chunks fs -> map f_Index fs = seqZ 0 (len chunks).
Proof.
  intros [Hl Hf]. apply list_eq. intros j. change (map f_Index fs) with (f_Index <$> fs).
  rewrite list_lookup_fmap. destruct (chunks !! j) as [ch|] eqn:E.
  - destruct (Hf j ch E) as (ct & -> & _). cbn. symmetry. apply lookup_seqZ.
    apply lookup_lt_Some in E. unfold len. lia.
  - apply lookup_ge_None in E. rewrite (proj2 (lookup_ge_None fs j)) by lia. cbn. symmetry.
    apply lookup_seqZ_ge. unfold len. lia.
Qed.
End Pipeline.

(** Adding a sequence of arrivals, stopping at the first error. *)
Fixpoint add_all (r : Reassembler) (arr : list Fragment) : result frag_err Reassembler :=
  match arr with [] => Ok r | f :: t => try r := Reassembler_Add r f in add_all r t end.

(** Arrivals that agree wherever they share an index. *)
Definition agree (arr : list Fragment) : Prop :=
  forall f g, f ∈ arr -> g ∈ arr -> f_Index f = f_Index g -> f = g.

Definition holds (m : gmap Z Fragment) (arr : list Fragment) : Prop :=
  forall i f, m !! i = Some f <-> f ∈ arr /\ f_Index f = i.

Lemma holds_insert (m : gmap Z Fragment) arr f :
  holds m arr -> m !! f_Index f = None -> holds (<[f_Index f := f]> m) (f :: arr).
Proof.
  unfold holds. intros Hm Hn i g. rewrite elem_of_cons. destruct (decide (f_Index f = i)) as [<-|Hne].
  - rewrite lookup_insert_eq. split; [intros H; simplify_eq; auto|]. intros [[->|Hg] He]; [done|].
    exfalso. rewrite <- He in Hn. rewrite (proj2 (Hm (f_Index g) g)) in Hn; [done|auto].
  - rewrite lookup_insert_ne by done. rewrite Hm. split; [tauto|]. intros [[->|Hg] He]; [done|auto].
Qed.

Lemma holds_dup (m : gmap Z Fragment) arr f g :
  agree (f :: arr) -> holds m arr -> m !! f_Index f = Some g -> holds m (f :: arr).
Proof.
  unfold holds. intros Ha Hm Hg. apply Hm in Hg as [Hg He]. assert (g = f) as ->.
  { apply Ha; [by constructor|constructor|done]. }
  intros i h. rewrite Hm, elem_of_cons. split; [tauto|]. intros [[->|?] ?]; auto.
Qed.

Lemma agree_incl arr arr' : agree arr -> (forall f, f ∈ arr' -> f ∈ arr) -> agree arr'.
Proof. intros H Hs f g Hf Hg. apply H; auto. Qed.

Lemma add_all_spec r arr seen :
  agree (arr ++ seen) -> holds (ra_parts r) seen ->
  Forall (fun f => f_Total f = ra_total r /\ f_Index f < ra_total r) arr ->
  exists r', add_all r arr = Ok r' /\ ra_sealer r' = ra_sealer r /\ ra_total r' = ra_total r /\
    holds (ra_parts r') (rev arr ++ seen).
Proof.
  revert r seen. induction arr as [|f arr IH]; intros r seen Ha Hm Hf; cbn [add_all].
  - exists r. done.
  - inversion_clear Hf as [|? ? [Ht Hi] Hf']. unfold Reassembler_Add.
    rewrite Ht, Z.eqb_refl. cbn [negb]. case_if; [lia|].
    assert (Ha' : agree (arr ++ f :: seen)).
    { eapply agree_incl; [exact Ha|]. intros g. cbn. rewrite ?elem_of_cons, ?elem_of_app, ?elem_of_cons. tauto. }
    assert (Ha'' : agree (f :: seen)).
    { eapply agree_incl; [exact Ha|]. intros g. cbn. rewrite ?elem_of_cons, ?elem_of_app. tauto. }
    replace (rev (f :: arr) ++ seen) with (rev arr ++ f :: seen) by (cbn; by rewrite <- app_assoc).
    destruct (ra_parts r !! f_Index f) as [g|] eqn:Eg.
    + apply IH; [done|by eapply holds_dup|done].
    + destruct (IH (mkReassembler (ra_sealer r) (ra_total r) (<[f_Index f := f]> (ra_parts r))) (f :: seen))
        as (r' & H1 & H2 & H3 & H4); [done|by apply holds_insert|done|]. by exists r'.
Qed.

Lemma holds_size m fs arr :
  NoDup (map f_Index fs) -> holds m arr -> (forall f, f ∈ arr -> f ∈ fs) ->
  (size m <= length fs)%nat /\ (size m = length fs <-> forall f, f ∈ fs -> f ∈ arr).
Proof.
  intros Hn Hm Hs. rewrite <- size_dom.
  assert (Hfs : size (list_to_set (map f_Index fs) : gset Z) = length fs).
  { rewrite size_list_to_set by done. by rewrite length_map. }
  assert (Hsub : dom m ⊆ (list_to_set (map f_Index fs) : gset Z)).
  { intros i [f Hf]%elem_of_dom. apply Hm in Hf as [Hf <-]. apply elem_of_list_to_set.
    apply list_elem_of_fmap_2. by apply Hs. }
  split; [rewrite <- Hfs; by apply subseteq_size|]. split.
  - intros He f Hf. assert (Heq : dom m = (list_to_set (map f_Index fs) : gset Z)).
    { apply set_subseteq_size_eq in Hsub; [done|]. lia. }
    assert (Hi : f_Index f ∈ dom m) by (rewrite Heq; apply elem_of_list_to_set; by apply list_elem_of_fmap_2).
    apply elem_of_dom in Hi as [g Hg]. apply Hm in Hg as [Hg He'].
    assert (g = f) as <-; [|done]. apply Hs in Hg as Hg'. clear -Hn Hf Hg' He'.
    induction fs as [|h fs IH]; [by apply not_elem_of_nil in Hf|]. cbn in Hn. apply NoDup_cons in Hn as [Hh Hn].
    apply elem_of_cons in Hf as [->|Hf], Hg' as [->|Hg']; [done| | |by apply IH].
    + exfalso. apply Hh. rewrite <- He'. by apply list_elem_of_fmap_2.
    + exfalso. apply Hh. rewrite He'. by apply list_elem_of_fmap_2.
  - intros Hall. rewrite <- Hfs. f_equal. apply set_eq. intros i. split; [apply Hsub|].
    intros Hi. apply elem_of_list_to_set, list_elem_of_fmap in Hi as (f & -> & Hf).
    apply elem_of_dom. exists f. apply Hm. auto.
Qed.

Lemma open_chunks_ok r id i chunks :
  (forall j ch, chunks !! j = Some ch ->
     sl_Open (ra_sealer r) (part_payload r (i + Z.of_nat j)) (aad id (i + Z.of_nat j) (ra_total r)) = Ok ch) ->
  open_chunks r id i (length chunks) = Ok chunks.
Proof.
  revert i. induction chunks as [|ch t IH]; intros i H; [done|]. cbn [length open_chunks].
  pose proof (H 0%nat ch eq_refl) as H0. rewrite Z.add_0_r in H0. rewrite H0, (IH (i + 1)); [done|].
  intros j ch' Hj. specialize (H (S j) ch' Hj). replace (i + Z.of_nat (S j)) with (i + 1 + Z.of_nat j) in H by lia. done.
Qed.

(** ** The Reed-Solomon receiver *)

Fixpoint rs_add_all (r : RSReassembler) (arr : list Fragment) : result frag_err RSReassembler :=
  match arr with [] => Ok r | f :: t => try r := RSReassembler_Add r f in rs_add_all r t end.

(** The fragments that arrive first at their index, where those of [seen] are taken. *)
Fixpoint firsts_from (seen : gset Z) (arr : list Fragment) : list Fragment :=
  match arr with
  | [] => []
  | f :: t => if bool_decide (f_Index f ∈ seen) then firsts_from seen t else f :: firsts_from ({[f_Index f]} ∪ seen) t
  end.
Definition firsts : list Fragment -> list Fragment := firsts_from ∅.

Lemma firsts_from_elem seen arr f : f ∈ firsts_from seen arr -> f ∈ arr /\ f_Index f ∉ seen.
Proof.
  revert seen. induction arr as [|g t IH]; intros seen; cbn [firsts_from]; [by intros H%not_elem_of_nil|]. case_bool_decide as Hg.
  - intros [H1 H2]%IH. split; [by right|done].
  - intros [->|[H1 H2]%IH]%elem_of_cons; [split; [left|done]|]. split; [by right|set_solver].
Qed.

Lemma firsts_agree seen arr : agree (firsts_from seen arr).
Proof.
  revert seen. induction arr as [|g t IH]; intros seen f h; cbn [firsts_from]; [by intros H%not_elem_of_nil|]. case_bool_decide; [by apply IH|].
  intros [->|Hf]%elem_of_cons [->|Hh]%elem_of_cons Hi; [done| | |by eapply IH].
  - apply firsts_from_elem in Hh as [_ Hh]. rewrite Hi in Hh. set_solver.
  - apply firsts_from_elem in Hf as [_ Hf]. rewrite Hi in Hf. set_solver.
Qed.

(** The receiver keeps the first fragment at each index. *)
Lemma rs_add_all_firsts r arr :
  Forall (fun f => f_Total f = rr_total r /\ f_Index f < rr_total r) arr -> rs_add_all r arr = rs_add_all r (firsts_from (dom (rr_parts r)) arr).
Proof.
  revert r. induction arr as [|f t IH]; intros r Hf; [done|]. apply Forall_cons in Hf as [[Ht Hi] Hf]. cbn [firsts_from rs_add_all].
  assert (Ha : RSReassembler_Add r f = match rr_parts r !! f_Index f with Some _ => Ok r | None =>
    Ok (mkRSReassembler (rr_sealer r) (rr_dataShards r) (rr_parityShards r) (rr_originalLen r) (rr_total r) (<[f_Index f := f_Payload f]> (rr_parts r))) end).
  { unfold RSReassembler_Add. rewrite Ht, Z.eqb_refl. cbn [negb]. by rewrite (proj2 (Z.leb_gt _ _)) by lia. }
  case_bool_decide as Hin.
  - rewrite Ha. apply elem_of_dom in Hin as [s Hs]. rewrite Hs. by apply IH.
  - cbn [rs_add_all]. rewrite Ha. apply not_elem_of_dom in Hin. rewrite Hin.
    match goal with |- _ = rs_add_all ?r1 _ => specialize (IH r1 Hf) end. cbn [rr_parts] in IH. by rewrite dom_insert_L in IH.
Qed.

(** The RS receiver stores what the plain one does, payloads only. *)
Definition same_parts (r : RSReassembler) (q : Reassembler) : Prop :=
  rr_total r = ra_total q /\ rr_parts r = f_Payload <$> ra_parts q.

Lemma rs_add_all_sim r q arr q' :
  same_parts r q -> add_all q arr = Ok q' ->
  exists r', rs_add_all r arr = Ok r' /\ same_parts r' q' /\ rr_sealer r' = rr_sealer r /\
    rr_dataShards r' = rr_dataShards r /\ rr_parityShards r' = rr_parityShards r /\
    rr_originalLen r' = rr_originalLen r.
Proof.
  revert r q. induction arr as [|f arr IH]; intros r q [Ht Hp] Hq; cbn [rs_add_all add_all] in *.
  - simplify_eq. by exists r.
  - unfold Reassembler_Add in Hq. unfold RSReassembler_Add. rewrite Ht, Hp, lookup_fmap.
    destruct (negb (f_Total f =? ra_total q)); [done|]. destruct (ra_total q <=? f_Index f); [done|].
    destruct (ra_parts q !! f_Index f) as [g|] eqn:Eg; cbn [fmap option_fmap option_map].
    + by eapply IH.
    + rewrite <- fmap_insert.
      destruct (IH (mkRSReassembler (rr_sealer r) (rr_dataShards r) (rr_parityShards r) (rr_originalLen r)
        (ra_total q) (f_Payload <$> <[f_Index f := f]> (ra_parts q)))
        (mkReassembler (ra_sealer q) (ra_total q) (<[f_Index f := f]> (ra_parts q))) ltac:(by split) Hq)
        as (r' & H1 & H2).
      by exists r'.
Qed.

Section RSPipeline.
Context {snd rcv : Sealer} `{SP : !SealerPair snd rcv}.

(** Shards at positions [i], [i+1], ...: where a genuine fragment arrived the
    shard opens, elsewhere there is nothing or nothing that opens. *)
Lemma open_shards_ok r id i enc fs (arr : list Fragment) :
  rr_sealer r = rcv -> length fs = length enc -> Forall (fun s => s <> []) enc ->
  (forall j e f, enc !! j = Some e -> fs !! j = Some f ->
     (f ∈ arr -> rr_parts r !! (i + Z.of_nat j) = Some (f_Payload f) /\
                 sl_Open rcv (f_Payload f) (aad id (i + Z.of_nat j) (rr_total r)) = Ok e) /\
     (f ∉ arr -> forall s, rr_parts r !! (i + Z.of_nat j) = Some s ->
                 exists err, sl_Open rcv s (aad id (i + Z.of_nat j) (rr_total r)) = Err err)) ->
  let '(shards, valid) := open_shards r id i (length enc) in
  masked enc shards /\ present shards = valid /\
  valid = len (filter (fun f => f ∈ arr) fs).
Proof.
  intros Hs. revert i fs. induction enc as [|e enc IH]; intros i [|f fs] Hl Hne H; try done.
  { cbn. split_and!; [constructor|done|done]. }
  cbn [length open_shards]. inversion_clear Hne as [|? ? He Hne'].
  specialize (IH (i + 1) fs ltac:(cbn in Hl; lia) Hne').
  destruct (open_shards r id (i + 1) (length enc)) as [shards valid].
  destruct IH as (I1 & I2 & I3).
  { intros j e' f' Hj Hf. specialize (H (S j) e' f' Hj Hf).
    replace (i + Z.of_nat (S j)) with (i + 1 + Z.of_nat j) in H by lia. done. }
  destruct (H 0%nat e f eq_refl eq_refl) as [Hg Hb]. rewrite Z.add_0_r in *.
  rewrite filter_cons. rewrite Hs. case_decide as Hf.
  - destruct (Hg Hf) as [-> ->]. split_and!.
    + constructor; [by left|done].
    + unfold present in *. cbn [List.filter]. destruct (Z.eqb_spec (len e) 0) as [E|E]; cbn [negb].
      * exfalso. apply He. destruct e; [done|]. rewrite len_cons in E. pose proof (len_nonneg e). lia.
      * rewrite len_cons. lia.
    + rewrite len_cons. lia.
  - assert (Hsame : match rr_parts r !! i with
            | None => ([] :: shards, valid)
            | Some sealed => match sl_Open rcv sealed (aad id i (rr_total r)) with
                | Err _ => ([] :: shards, valid) | Ok plain => (plain :: shards, valid + 1) end
            end = ([] :: shards, valid)).
    { destruct (rr_parts r !! i) as [s|]; [|done]. destruct (Hb Hf s eq_refl) as [err ->]. done. }
    rewrite Hsame. split_and!; [constructor; [by right|done]|done|done].
Qed.
End RSPipeline.

(** ** Theorems *)

(** [Split] cuts the data into chunks of [chunkSize] bytes (the last one maybe
    shorter, none empty), as many as the ceiling of the quotient, and [Join] is its
    inverse. *)
Lemma split_join_facts data chunkSize :
  0 < chunkSize ->
  Join (Split data chunkSize) = data /\
  Forall (fun c => 0 < len c <= chunkSize) (Split data chunkSize) /\
  len (Split data chunkSize) = (len data + chunkSize - 1) / chunkSize.
Proof.
  intros Hc. rewrite Join_concat. unfold Split. case_if.
  - apply orb_true_iff in Heqb as [H|H]; [split_bools; lia|]. apply len_zero in H. subst data.
    split_and!; [done|constructor|]. unfold len. cbn [length]. symmetry. apply Z.div_small. lia.
  - destruct (split_loop_spec (length data) data (Z.to_nat chunkSize) 0) as (H1 & H2 & H3 & H4); [lia|lia|].
    split_and!.
    + by rewrite H1, drop_0.
    + eapply Forall_impl; [exact H2|]. cbn. unfold len. lia.
    + set (l := split_loop _ _ _ _) in *. unfold len in *.
      assert (l <> []). { intros E. rewrite E in H4. cbn in H4. lia. }
      assert (length l <> 0)%nat by (by destruct l). specialize (H3 ltac:(done)).
      apply (Z.div_unique _ _ _ (Z.of_nat (length data) + chunkSize - 1 - chunkSize * Z.of_nat (length l))); nia.
Qed.

(** The associated data of a fragment determines its transfer, its position
    and the number of fragments. *)
Theorem aad_injective id id' i i' t t' :
  length id = 32%nat -> length id' = 32%nat -> is_u32 i -> is_u32 i' -> is_u32 t -> is_u32 t' ->
  aad id i t = aad id' i' t' -> id = id' /\ i = i' /\ t = t'.
Proof.
  intros Hid Hid' Hi Hi' Ht Ht' H. unfold aad in H. cbn in H. rewrite <- !app_assoc in H.
  apply app_split_eq in H as [-> H]; [|lia].
  apply app_split_eq in H as [H1 H2]; [|by rewrite !length_be_bytes].
  apply be_bytes_inj in H1; [|done..]. by apply be_bytes_inj in H2.
Qed.

Lemma aad_injective_witness : aad (repeat x01 32) 1 2 <> aad (repeat x01 32) 2 1.
Proof.
  intros H. apply aad_injective in H as (_ & H & _); [lia|reflexivity|reflexivity|..];
    unfold is_u32; lia.
Defined.

Section Theorems.
Context {snd rcv : Sealer} `{SP : !SealerPair snd rcv}.

Lemma sealed_pipeline id data chunkSize ds :
  0 < chunkSize -> len (Split data chunkSize) < 2 ^ 32 -> Forall wf_draws ds ->
  (length (Split data chunkSize) <= length ds)%nat ->
  exists fs, Fragmenter_Fragment (mkFragmenter snd chunkSize) id data ds = Ok fs /\
    forall arr, (forall f, f ∈ arr -> f ∈ fs) ->
      exists r, add_all (NewReassembler rcv (len fs)) arr = Ok r /\
        Assemble r id = if bool_decide (Forall (fun f => f ∈ arr) fs) then Ok data else Err ErrIncomplete.
Proof using SP.
  intros Hc Hlt Hd Hl. unfold Fragmenter_Fragment. cbn [fr_sealer fr_chunkSize].
  destruct (split_join_facts data chunkSize Hc) as (Hj & _).
  set (chunks := Split data chunkSize) in *.
  assert (Hu : is_u32 (len chunks)) by (unfold is_u32; pose proof (len_nonneg chunks); lia).
  rewrite (u32_id _ Hu).
  destruct (seal_chunks_ok id (len chunks) 0 chunks ds Hl Hd) as (fs & HS & Hfs); [lia|lia|].
  exists fs. split; [done|]. intros arr Harr.
  assert (Hlen : len fs = len chunks) by (unfold len; destruct Hfs; lia). rewrite Hlen.
  destruct (add_all_spec (NewReassembler rcv (len chunks)) arr []) as (r & HA & Hrs & Hrt & Hh).
  { rewrite app_nil_r. intros f g Hf Hg. eapply fragments_of_inj; [exact Hfs|auto..]. }
  { intros i f. cbn. rewrite lookup_empty. split; [done|]. intros [H _]. by apply not_elem_of_nil in H. }
  { apply Forall_forall. intros f Hf. apply Harr in Hf.
    destruct (fragments_of_elem _ _ _ _ _ Hfs Hf) as (j & ch & _ & _ & Hi & Ht & Hjl & _).
    cbn [NewReassembler ra_total]. split; [done|]. unfold len. lia. }
  rewrite app_nil_r in Hh. exists r. split; [done|].
  assert (Hh' : holds (ra_parts r) arr).
  { intros i f. rewrite (Hh i f). by rewrite <- Permutation_rev. }
  destruct (holds_size (ra_parts r) fs arr) as [Hsz Hall]; [|done|done|].
  { rewrite (fragments_of_indices _ _ _ _ Hfs). apply NoDup_seqZ. }
  assert (Hlf : length fs = length chunks) by apply Hfs.
  unfold Assemble, Complete. rewrite Hrt. cbn [NewReassembler ra_total].
  rewrite u32_id by (unfold is_u32, len in *; lia).
  case_bool_decide as Hcov.
  - rewrite Forall_forall in Hcov. assert (Hsize : size (ra_parts r) = length fs) by by apply Hall.
    rewrite Hsize, Hlf. fold (len chunks). rewrite Z.eqb_refl. cbn [negb].
    unfold len at 1. rewrite Nat2Z.id, open_chunks_ok; [by rewrite Hj|].
    intros j ch Hjc. destruct Hfs as [_ Hf]. destruct (Hf j ch Hjc) as (ct & H1 & H2).
    rewrite Hrs, Hrt. cbn [NewReassembler ra_sealer ra_total]. unfold part_payload.
    apply list_elem_of_lookup_2 in H1 as Hin. apply Hcov in Hin.
    rewrite (proj2 (Hh' (0 + Z.of_nat j) (new_fragment id (0 + Z.of_nat j) (len chunks) ct))); [exact H2|by split].
  - assert (size (ra_parts r) <> length fs). { intros He. apply Hcov, Forall_forall. by apply Hall. }
    case_if; [done|]. unfold len in *. lia.
Qed.

(** The sealed pipeline is correct against the sealer interface: whatever
    the order in which its fragments arrive, and however often each does, the
    receiver accepts them all, refuses to assemble while one is missing, and
    assembles exactly the data once all have arrived. *)
Theorem pipeline_correct id data chunkSize ds :
  0 < chunkSize -> len (Split data chunkSize) < 2 ^ 32 -> Forall wf_draws ds ->
  (length (Split data chunkSize) <= length ds)%nat ->
  exists fs, Fragmenter_Fragment (mkFragmenter snd chunkSize) id data ds = Ok fs /\
    forall arr, (forall f, f ∈ arr -> f ∈ fs) ->
      exists r, add_all (NewReassembler rcv (len fs)) arr = Ok r /\
        Assemble r id = if bool_decide (Forall (fun f => f ∈ arr) fs) then Ok data else Err ErrIncomplete.
Proof using SP.
  apply sealed_pipeline.
Qed.

Context `{R : RSOps} `{RL : !RSLaws R}.

Lemma rs_pipeline id data dataShards parityShards ds n :
  0 < dataShards -> 0 < parityShards -> dataShards + parityShards <= 256 -> dataShards <= len data ->
  Forall wf_draws ds -> dataShards + parityShards <= len ds -> 0 <= n <= len data ->
  exists fs, RSFragmenter_Fragment (mkRSFragmenter snd dataShards parityShards) id data ds = Ok (fs, len data) /\
    (len fs = dataShards + parityShards /\ forall f, f ∈ fs -> f_Total f = len fs /\ 0 <= f_Index f < len fs) /\
    forall arr bad : list Fragment,
      (forall f, f ∈ arr -> f ∈ fs \/ f ∈ bad) ->
      agree arr ->
      (forall f, f ∈ bad -> f_Total f = len fs /\ 0 <= f_Index f < len fs /\
         exists err, sl_Open rcv (f_Payload f) (aad id (f_Index f) (len fs)) = Err err) ->
      exists r, rs_add_all (NewRSReassembler rcv dataShards parityShards n) arr = Ok r /\
        Reconstruct r id =
          if dataShards <=? len (filter (fun f => f ∈ arr) fs) then Ok (take (Z.to_nat n) data) else Err ErrTooFewShards.
Proof using SP RL.
  intros Hd Hp Hsum Hlen Hwf Hds Hn. unfold RSFragmenter_Fragment. cbn [rsf_sealer rsf_data rsf_parity].
  case_if; [lia|]. rewrite rs_new_ok by done. cbn [negb].
  destruct (rs_encode_ok dataShards parityShards data Hd Hp Hsum) as (sh & enc & HSp & HEn & Hel & Hne & HJ & HR).
  { intros ->. rewrite len_nil in *. lia. }
  rewrite HSp. cbn [of_option]. rewrite HEn. cbn [of_option].
  assert (Hu : is_u32 (len enc)) by (unfold is_u32; lia). rewrite (u32_id _ Hu).
  destruct (seal_chunks_ok id (len enc) 0 enc ds) as (fs & HS & Hfs); [unfold len in *; lia|done|lia|lia|].
  rewrite HS. exists fs. assert (Hlf : length fs = length enc) by apply Hfs.
  assert (Hlen' : len fs = len enc) by (unfold len; lia). split; [done|]. split.
  { split; [lia|]. intros f Hf. destruct (fragments_of_elem _ _ _ _ _ Hfs Hf) as (j & ch & _ & _ & Hi & Ht & Hjl & _). rewrite Hlen'. split; [done|]. unfold len. lia. }
  intros arr bad Harr Hag Hbad. rewrite Hlen' in Hbad.
  set (r0 := NewRSReassembler rcv dataShards parityShards n).
  assert (Htot : rr_total r0 = len enc).
  { cbn. rewrite u32_id; [lia|]. unfold is_u32. lia. }
  destruct (add_all_spec (NewReassembler rcv (len enc)) arr []) as (q & HA & _ & Hqt & Hh).
  { by rewrite app_nil_r. }
  { intros i f. cbn. rewrite lookup_empty. split; [done|]. intros [Hc _]. by apply not_elem_of_nil in Hc. }
  { apply Forall_forall. intros f Hf. cbn [NewReassembler ra_total]. destruct (Harr f Hf) as [Hc|Hc].
    - destruct (fragments_of_elem _ _ _ _ _ Hfs Hc) as (j & ch & _ & _ & Hi & Ht & Hjl & _).
      split; [done|]. unfold len. lia.
    - destruct (Hbad f Hc) as (Ht & Hi & _). lia. }
  assert (Hh' : holds (ra_parts q) arr).
  { intros i f. rewrite (Hh i f), app_nil_r. by rewrite <- Permutation_rev. }
  destruct (rs_add_all_sim r0 (NewReassembler rcv (len enc)) arr q) as (r & HRA & [Hrt Hrp] & Hrs & Hrd & Hrpar & Hro); [split; [done|]|done|].
  { cbn. by rewrite fmap_empty. }
  exists r. split; [done|]. unfold Reconstruct. rewrite Hrd, Hrpar, Hro. cbn [r0 NewRSReassembler rr_dataShards rr_parityShards rr_originalLen].
  rewrite rs_new_ok by done. cbn [negb]. rewrite Hqt in Hrt. cbn in Hrt. rewrite Hrt.
  unfold len at 1. rewrite Nat2Z.id.
  pose proof (open_shards_ok (rcv := rcv) r id 0 enc fs arr) as HO.
  destruct (open_shards r id 0 (length enc)) as [shards valid].
  destruct HO as (O1 & O2 & O3); [by rewrite Hrs|done|done| |].
  - intros j e f Hje Hjf. rewrite Hrt. destruct Hfs as [_ Hf]. destruct (Hf j e Hje) as (ct & H1 & H2).
    rewrite H1 in Hjf. injection Hjf as <-. cbn [f_Payload new_fragment]. split.
    + intros Hin. split; [|exact H2]. rewrite Hrp, lookup_fmap.
      rewrite (proj2 (Hh' (0 + Z.of_nat j) (new_fragment id (0 + Z.of_nat j) (len enc) ct))); [done|]. by split.
    + intros Hnin s. rewrite Hrp, lookup_fmap. intros (g & Hg & Hs)%fmap_Some. apply Hh' in Hg as [Hga Hgi].
      destruct (Harr g Hga) as [Hgf|Hgb].
      * exfalso. apply Hnin. replace (new_fragment id (0 + Z.of_nat j) (len enc) ct) with g; [done|].
        eapply fragments_of_inj; [split; [exact Hlf|exact Hf]|done|by eapply list_elem_of_lookup_2|done].
      * destruct (Hbad g Hgb) as (_ & _ & err & He). exists err. subst s. by rewrite <- Hgi.
  - rewrite O3 in *. destruct (Z.leb_spec dataShards (len (filter (fun f => f ∈ arr) fs))).
    + case_if; [lia|]. rewrite (HR shards O1) by lia. cbn [of_option]. by rewrite HJ.
    + case_if; [done|lia].
Qed.

(** C31: The Reed-Solomon pipeline recovers from loss and corruption.  Let any of the
    fragments sent arrive, in any order and with repetitions, among corrupt ones: of the
    right total and a valid index, but whose payload does not open there.  The receiver
    takes the first arrival at each index, so what counts are the genuine fragments that
    came first at theirs: [dataShards] of these are enough to give back exactly the
    data, and with fewer the receiver reports that it has too few.  A corrupt shard that
    arrives before the genuine one thus takes its place
    ([corrupt_shard_takes_the_place]). *)
Theorem rs_pipeline_correct id data dataShards parityShards ds :
  0 < dataShards -> 0 < parityShards -> dataShards + parityShards <= 256 -> dataShards <= len data ->
  Forall wf_draws ds -> dataShards + parityShards <= len ds ->
  exists fs, RSFragmenter_Fragment (mkRSFragmenter snd dataShards parityShards) id data ds = Ok (fs, len data) /\
    len fs = dataShards + parityShards /\
    forall arr bad : list Fragment,
      (forall f, f ∈ arr -> f ∈ fs \/ f ∈ bad) ->
      (forall f, f ∈ bad -> f_Total f = len fs /\ 0 <= f_Index f < len fs /\
         exists err, sl_Open rcv (f_Payload f) (aad id (f_Index f) (len fs)) = Err err) ->
      exists r, rs_add_all (NewRSReassembler rcv dataShards parityShards (len data)) arr = Ok r /\
        Reconstruct r id =
          if dataShards <=? len (filter (fun f => f ∈ firsts arr) fs) then Ok data else Err ErrTooFewShards.
Proof using SP RL.
  intros Hd Hp Hsum Hlen Hwf Hds. pose proof (len_nonneg data).
  destruct (rs_pipeline id data dataShards parityShards ds (len data)) as (fs & H1 & [H2 Hfs] & H3); [done..|lia|].
  exists fs. split; [done|]. split; [done|]. intros arr bad Ha Hb.
  destruct (H3 (firsts arr) bad) as (r & Hr & Hrec); [|apply firsts_agree|exact Hb|].
  { intros f [Hf _]%firsts_from_elem. by apply Ha. }
  assert (Hall : Forall (fun f => f_Total f = rr_total (NewRSReassembler rcv dataShards parityShards (len data)) /\
    f_Index f < rr_total (NewRSReassembler rcv dataShards parityShards (len data))) arr).
  { apply Forall_forall. intros f Hf. cbn [NewRSReassembler rr_total]. rewrite u32_id by (unfold is_u32; lia). rewrite <- H2.
    destruct (Ha f Hf) as [Hf'|Hf']; [destruct (Hfs f Hf')|destruct (Hb f Hf') as (? & ? & _)]; lia. }
  exists r. rewrite (rs_add_all_firsts _ _ Hall). cbn [NewRSReassembler rr_parts]. rewrite dom_empty_L. split; [exact Hr|].
  rewrite Hrec. unfold len at 2. by rewrite Nat2Z.id, firstn_all.
Qed.
End Theorems.

(** ** Witnesses: a replication code, and the symmetric sealer over the concrete
    primitives *)

#[local] Instance toy_rs : RSOps := {|
  rs_New := fun _ _ => true;
  rs_Split := fun ds ps data => Some (repeat data (Z.to_nat (ds + ps)));
  rs_Encode := fun _ _ sh => Some sh;
  rs_Reconstruct := fun ds ps part =>
    match List.filter (fun s => negb (len s =? 0)) part with
    | s :: _ => Some (repeat s (Z.to_nat (ds + ps)))
    | [] => None
    end;
  rs_Join := fun _ _ sh n => match sh with s :: _ => Some (take (Z.to_nat n) s) | [] => None end
|}.

Lemma toy_rs_laws : RSLaws toy_rs.
Proof.
  split; [done|]. intros ds ps data Hd Hp _ Hne. cbn.
  exists (repeat data (Z.to_nat (ds + ps))), (repeat data (Z.to_nat (ds + ps))). split_and!; try done.
  - unfold len. rewrite repeat_length. lia.
  - apply Forall_forall. intros x Hx. apply list_elem_of_In, repeat_spec in Hx as ->. done.
  - destruct (Z.to_nat (ds + ps)) eqn:E; [lia|done].
  - intros part Hm Hpr. unfold present in Hpr.
    assert (Hall : Forall (fun s => s = data) (List.filter (fun s => negb (len s =? 0)) part)).
    { apply Forall_forall. intros s Hs. apply list_elem_of_In, filter_In in Hs as [Hs Hz]. apply list_elem_of_In in Hs.
      apply list_elem_of_lookup_1 in Hs as [i Hi].
      destruct (Forall2_lookup_r _ _ _ _ _ Hm Hi) as (e & He & [->| ->]).
      - apply list_elem_of_lookup_2, list_elem_of_In, repeat_spec in He as ->. done.
      - done. }
    destruct (List.filter _ part) as [|s l]; [rewrite len_nil in Hpr; lia|].
    inversion_clear Hall as [|? ? Hs _]. by rewrite Hs.
Qed.

Definition toy_sealer : Sealer := mkSealer (@aead_Seal toy_ops (repeat x07 32)) (@aead_Open toy_ops (repeat x07 32)).
Lemma toy_sealer_pair : SealerPair toy_sealer toy_sealer.
Proof. apply (@aead_pair toy_ops toy_laws (repeat x07 32)); reflexivity. Qed.

Definition sample_draw : draws := mkDraws [] [] (repeat x01 12).

Lemma pipeline_correct_witness :
  exists fs, Fragmenter_Fragment (mkFragmenter toy_sealer 2) (repeat x00 32) [x01; x02; x03] (repeat sample_draw 2) = Ok fs /\
    exists r, add_all (NewReassembler toy_sealer (len fs)) (rev fs ++ fs) = Ok r /\
      Assemble r (repeat x00 32) = Ok [x01; x02; x03].
Proof.
  destruct (@pipeline_correct toy_sealer toy_sealer toy_sealer_pair (repeat x00 32) [x01; x02; x03] 2 (repeat sample_draw 2))
    as (fs & Hf & H).
  - lia.
  - vm_compute. reflexivity.
  - repeat constructor.
  - vm_compute. lia.
  - exists fs. split; [exact Hf|].
    destruct (H (rev fs ++ fs)) as (r & Hr & Ha).
    + intros f. rewrite elem_of_app, <- Permutation_rev. tauto.
    + exists r. split; [exact Hr|]. rewrite Ha, bool_decide_eq_true_2; [reflexivity|].
      apply Forall_forall. intros f Hfs. apply elem_of_app. right. exact Hfs.
Defined.

(** The first of three shards is lost. *)
Lemma rs_pipeline_correct_witness :
  exists fs, @RSFragmenter_Fragment toy_rs (mkRSFragmenter toy_sealer 2 1) (repeat x00 32) [x01; x02; x03] (repeat sample_draw 3) = Ok (fs, 3) /\
    exists r, rs_add_all (NewRSReassembler toy_sealer 2 1 3) (drop 1 fs) = Ok r /\
      @Reconstruct toy_rs r (repeat x00 32) = Ok [x01; x02; x03].
Proof.
  destruct (@rs_pipeline_correct toy_sealer toy_sealer toy_sealer_pair toy_rs toy_rs_laws (repeat x00 32)
    [x01; x02; x03] 2 1 (repeat sample_draw 3)) as (fs & Hf & Hl & H).
  - lia.
  - lia.
  - lia.
  - vm_compute. discriminate.
  - repeat constructor.
  - vm_compute. discriminate.
  - exists fs. split; [exact Hf|]. vm_compute in Hf. injection Hf as <-.
    cbn [drop]. match goal with |- context [rs_add_all _ ?l] => set (arr := l) end.
    destruct (H arr []) as (r & Hr & Ha).
    + intros f Hf'. left. right. exact Hf'.
    + intros f Hf'. apply not_elem_of_nil in Hf'. contradiction.
    + exists r. split; [exact Hr|]. rewrite Ha. vm_compute. reflexivity.
Defined.

(** Of three fragments two are needed: with a corrupt one in front of the second only
    the first and the third count, and with another in front of the third too few. *)
Example corrupt_shard_takes_the_place :
  match @RSFragmenter_Fragment toy_rs (mkRSFragmenter toy_sealer 2 1) (repeat x00 32) [x01; x02; x03] (repeat sample_draw 3) with
  | Ok ([f0; f1; f2], _) =>
      let spoilt f := new_fragment (repeat x00 32) (f_Index f) 3 [x00] in
      let got arr := try r := rs_add_all (NewRSReassembler toy_sealer 2 1 3) arr in @Reconstruct toy_rs r (repeat x00 32) in
      got [f0; spoilt f1; f1; f2] = Ok [x01; x02; x03] /\ got [f0; spoilt f1; f1; spoilt f2; f2] = Err ErrTooFewShards
  | _ => False
  end.
Proof. vm_compute. split; reflexivity. Qed.
