(* ===== verification/LinkMessage.v ===== *)
(** * Link messages (internal/link/message.go)

    Best-effort messages over a link: chunk sizing, framing, and the reassembler
    with its bounded table of partial messages.  [time.Now()] is the argument
    [now]; the orders in which a map is ranged over are the arguments [it1], [it2].
    In [chunks] a nil slice is the empty list: the copy of an empty payload,
    [append([]byte(nil), payload...)], is nil. *)

From S2P Require Import Prelude.

Definition maxMessageChunks : Z := Z.shiftl 1 16 - 1.
Definition maxMessageChunk : Z := 32 * 1024.
Definition minMessageChunk : Z := 64.
Definition linkFrameOverhead : Z := 300.
Definition maxInflightMessages : Z := 256.
Definition msgHeaderLen : Z := 12.
Definition partialTTL : Z := 30 * 10 ^ 9.

Definition maxChunkForMTU (mtu : Z) : Z :=
  if mtu <=? 0 then maxMessageChunk
  else
    let budget := Z.quot ((mtu - linkFrameOverhead) * 3) 4 in
    if budget <? minMessageChunk then minMessageChunk
    else if maxMessageChunk <? budget then maxMessageChunk
    else budget.

(** ** Sending *)

Inductive link_err : Type := errTooManyChunks | errSendFailed.

Section Send.
(** The injected [send], over the state of whatever it writes to. *)
Context {S : Type} (send : S -> bytes -> result link_err S).

Definition message_frame (msgID : bytes) (i total : Z) (payload : bytes) : bytes :=
  msgID ++ be_bytes 2 (u16 i) ++ be_bytes 2 (u16 total) ++ payload.

Fixpoint send_loop (msgID data : bytes) (chunk total i : Z) (todo : nat) (s : S) : result link_err S :=
  match todo with
  | O => Ok s
  | Datatypes.S todo' =>
      let start := i * chunk in
      let e := start + chunk in
      let e := if len data <? e then len data else e in
      let frame := message_frame msgID i total (subslice data (Z.to_nat start) (Z.to_nat e)) in
      try s := send s frame in
      send_loop msgID data chunk total (i + 1) todo' s
  end.

(** [msgID] is the eight random bytes. *)
Definition sendMessageChunks (msgID : bytes) (chunk : Z) (data : bytes) (s : S) : result link_err S :=
  let chunk := if chunk <? 1 then 1 else chunk in
  let total := (len data + chunk - 1) / chunk in
  let total := if total =? 0 then 1 else total in
  if maxMessageChunks <? total then Err errTooManyChunks
  else send_loop msgID data chunk total 0 (Z.to_nat total) s.
End Send.

(** ** Reassembly *)

Record partial : Type := mkPartial {
  pt_total : Z;
  pt_got : Z;
  pt_chunks : list bytes;
  pt_started : Z
}.

(** The reassembler's table. *)
Abbreviation Reassembler := (gmap bytes partial).

Definition evict_expired (now : Z) (m : gmap bytes partial) (it : list (bytes * partial)) : gmap bytes partial :=
  fold_left (fun m '(id, p) => if partialTTL <=? now - pt_started p then delete id m else m) it m.

(** The scan for the oldest partial. *)
Definition oldest_step (best : option (bytes * Z)) (e : bytes * partial) : option (bytes * Z) :=
  let '(id, p) := e in
  match best with
  | None => Some (id, pt_started p)
  | Some (_, oldest) => if pt_started p <? oldest then Some (id, pt_started p) else best
  end.

Definition evictLocked (now : Z) (m : gmap bytes partial) (it1 it2 : list (bytes * partial)) : gmap bytes partial :=
  let m := evict_expired now m it1 in
  if Z.of_nat (size m) <? maxInflightMessages then m
  else match fold_left oldest_step it2 None with
       | Some (oldestID, _) => delete oldestID m
       | None => m
       end.

(** The tail of [Feed]: store the chunk in the message's partial [p], and deliver
    the message if that was the last one missing. *)
Definition store_chunk (id : bytes) (idx total : Z) (payload : bytes) (r : Reassembler) (p : partial) :
    Reassembler * list bytes :=
  if negb (pt_total p =? total) then (r, [])
  else
    let p :=
      match pt_chunks p !! Z.to_nat idx with
      | Some [] => mkPartial (pt_total p) (pt_got p + 1) (<[Z.to_nat idx := payload]> (pt_chunks p)) (pt_started p)
      | _ => p
      end in
    if pt_got p =? pt_total p then (delete id r, [concat (pt_chunks p)])
    else (<[id := p]> r, []).

(** One frame: the new table and the messages handed to [onMessage]. *)
Definition Feed (now : Z) (it1 it2 : list (bytes * partial)) (r : Reassembler) (frame : bytes) : Reassembler * list bytes :=
  if len frame <? msgHeaderLen then (r, [])
  else
    let id := subslice frame 0 8 in
    let idx := be_val (subslice frame 8 10) in
    let total := be_val (subslice frame 10 12) in
    if (total =? 0) || (total <=? idx) then (r, [])
    else
      let payload := drop (Z.to_nat msgHeaderLen) frame in
      match r !! id with
      | Some p => store_chunk id idx total payload r p
      | None =>
          let r := if maxInflightMessages <=? Z.of_nat (size r) then evictLocked now r it1 it2 else r in
          if maxInflightMessages <=? Z.of_nat (size r) then (r, [])
          else
            let p := mkPartial total 0 (repeat [] (Z.to_nat total)) now in
            store_chunk id idx total payload (<[id := p]> r) p
      end.

(** ** Framing *)

Fixpoint frames_from (msgID : bytes) (total i : Z) (cs : list bytes) : list bytes :=
  match cs with
  | [] => []
  | c :: t => message_frame msgID i total c :: frames_from msgID total (i + 1) t
  end.

(** The chunks a message is cut into: at least one, possibly empty. *)
Definition message_chunks (chunk : Z) (data : bytes) : list bytes :=
  if len data =? 0 then [[]] else split_loop (length data) data (Z.to_nat chunk) 0.

(** Recording what is sent. *)
Definition record_send (s : list bytes) (f : bytes) : result link_err (list bytes) := Ok (s ++ [f]).

Lemma send_loop_split fuel msgID data c total i s :
  (0 < c)%nat -> (length data - i * c <= fuel)%nat ->
  send_loop record_send msgID data (Z.of_nat c) total (Z.of_nat i) (length (split_loop fuel data c (i * c))) s =
  Ok (s ++ frames_from msgID total (Z.of_nat i) (split_loop fuel data c (i * c))).
Proof.
  intros Hc. revert i s. induction fuel as [|fuel IH]; intros i s Hf; cbn [split_loop length send_loop].
  { by rewrite app_nil_r. }
  destruct (Nat.ltb_spec (i * c) (length data)) as [Hi|Hi]; [|by rewrite app_nil_r].
  cbn [length send_loop frames_from]. unfold record_send at 1.
  set (e := if (length data <? i * c + c)%nat then length data else (i * c + c)%nat).
  assert (He : Z.to_nat (if len data <? Z.of_nat i * Z.of_nat c + Z.of_nat c then len data else Z.of_nat i * Z.of_nat c + Z.of_nat c) = e).
  { unfold e, len. destruct (Nat.ltb_spec (length data) (i * c + c)); case_if; lia. }
  rewrite He. replace (Z.to_nat (Z.of_nat i * Z.of_nat c)) with (i * c)%nat by lia.
  replace (Z.of_nat i + 1) with (Z.of_nat (S i)) by lia.
  replace (i * c + c)%nat with (S i * c)%nat by lia. rewrite (IH (S i)) by lia. by rewrite <- app_assoc.
Qed.

Lemma message_chunks_spec chunk data :
  0 < chunk ->
  concat (message_chunks chunk data) = data /\ message_chunks chunk data <> [] /\
  (message_chunks chunk data = [[]] \/ Forall (fun c => c <> []) (message_chunks chunk data)) /\
  len (message_chunks chunk data) = Z.max 1 ((len data + chunk - 1) / chunk).
Proof.
  intros Hc. unfold message_chunks. case_if.
  - assert (data = []) as -> by (destruct data; [done|rewrite len_cons in *; pose proof (len_nonneg data); lia]).
    split_and!; [done|done|by left|]. rewrite Z.div_small by (unfold len; cbn; lia). done.
  - destruct (split_loop_spec (length data) data (Z.to_nat chunk) 0) as (H1 & H2 & H3 & H4); [lia|lia|].
    set (l := split_loop _ _ _ _) in *. unfold len in *.
    assert (Hne : l <> []) by (intros E; rewrite E in H4; cbn in H4; lia).
    split_and!; [by rewrite H1, drop_0|done| |].
    + right. eapply Forall_impl; [exact H2|]. cbn. intros x Hx. by destruct x; [cbn in Hx; lia|].
    + specialize (H3 Hne). assert (length l <> 0)%nat by (by destruct l).
      assert (Hq : Z.of_nat (length l) = (Z.of_nat (length data) + chunk - 1) / chunk); [|lia].
      apply (Z.div_unique _ _ _ (Z.of_nat (length data) + chunk - 1 - chunk * Z.of_nat (length l))); nia.
Qed.

Lemma sendMessageChunks_frames msgID chunk data :
  0 < chunk ->
  let cs := message_chunks chunk data in
  sendMessageChunks record_send msgID chunk data [] =
    if maxMessageChunks <? len cs then Err errTooManyChunks else Ok (frames_from msgID (len cs) 0 cs).
Proof.
  intros Hc. cbn zeta. destruct (message_chunks_spec chunk data Hc) as (_ & Hne & _ & Hlen).
  unfold sendMessageChunks. destruct (Z.ltb_spec chunk 1); [lia|].
  assert (Htot : (if (len data + chunk - 1) / chunk =? 0 then 1 else (len data + chunk - 1) / chunk)
                 = len (message_chunks chunk data)).
  { rewrite Hlen. assert (0 <= (len data + chunk - 1) / chunk) by (apply Z.div_pos; pose proof (len_nonneg data); lia).
    case_if; lia. }
  rewrite Htot. destruct (maxMessageChunks <? _); [done|].
  replace (Z.to_nat (len (message_chunks chunk data))) with (length (message_chunks chunk data)) by (unfold len; lia).
  unfold message_chunks in *. destruct (Z.eqb_spec (len data) 0) as [E|E].
  - apply Z.eqb_eq, len_zero in E. subst data. cbn [length send_loop frames_from record_send].
    f_equal. unfold message_frame. do 3 f_equal. unfold subslice. rewrite drop_nil. by rewrite take_nil.
  - pose proof (send_loop_split (length data) msgID data (Z.to_nat chunk)
      (len (split_loop (length data) data (Z.to_nat chunk) 0)) 0 []) as H'.
    rewrite Z2Nat.id in H' by lia. cbn [Nat.mul Z.of_nat] in H'. apply H'; lia.
Qed.

(** ** The reassembler's table *)

Lemma evict_expired_sub now m it id p :
  evict_expired now m it !! id = Some p -> m !! id = Some p.
Proof.
  unfold evict_expired. revert m. induction it as [|[k q] it IH]; intros m H; [done|]. cbn in H.
  apply IH in H. case_if_in H; [|done]. apply lookup_delete_Some in H as [_ H]. done.
Qed.

Lemma evict_expired_size now m it : (size (evict_expired now m it) <= size m)%nat.
Proof. apply map_subseteq_size. apply map_subseteq_spec. intros id p. apply evict_expired_sub. Qed.

Lemma oldest_in it best id t :
  fold_left oldest_step it best = Some (id, t) -> best = Some (id, t) \/ id ∈ it.*1.
Proof.
  revert best. induction it as [|[k p] it IH]; intros best H; [by left|]. cbn in H.
  apply IH in H as [H|H]; [|right; cbn; by right].
  destruct best as [[k' t']|]; cbn in H; [case_if_in H|]; simplify_eq.
  1, 3: right; cbn; left. by left.
Qed.

Lemma oldest_some it best : it <> [] \/ best <> None -> fold_left oldest_step it best <> None.
Proof.
  revert best. induction it as [|[k p] it IH]; intros best H; cbn; [by destruct H|].
  apply IH. right. destruct best as [[k' t']|]; cbn; [case_if; done|done].
Qed.

(** Eviction always makes room. *)
Lemma evictLocked_room now m it1 it2 :
  Z.of_nat (size m) <= maxInflightMessages -> range_of (evict_expired now m it1) it2 ->
  Z.of_nat (size (evictLocked now m it1 it2)) < maxInflightMessages.
Proof.
  intros Hm Hr. unfold evictLocked. case_if; [done|].
  set (m1 := evict_expired now m it1) in *. pose proof (evict_expired_size now m it1) as Hs. fold m1 in Hs.
  assert (Hlen : length it2 = size m1) by by apply range_length.
  destruct (fold_left oldest_step it2 None) as [[id t]|] eqn:E.
  - apply oldest_in in E as [E|E]; [done|]. apply list_elem_of_fmap in E as ([id' p] & -> & Hin). cbn.
    apply (range_elem _ _ _ _ Hr) in Hin. rewrite map_size_delete, Hin. unfold maxInflightMessages in *. lia.
  - exfalso. apply (oldest_some it2 None); [|done]. left. intros ->. cbn in Hlen. unfold maxInflightMessages in *. lia.
Qed.

Definition partial_ok (p : partial) : Prop :=
  0 < pt_total p <= maxMessageChunks /\ 0 <= pt_got p < pt_total p /\ len (pt_chunks p) = pt_total p.

Definition table_ok (r : Reassembler) : Prop :=
  Z.of_nat (size r) <= maxInflightMessages /\ map_Forall (fun _ p => partial_ok p) r.

Lemma be_val_2 l : length l = 2%nat -> 0 <= be_val l <= maxMessageChunks.
Proof.
  intros H. pose proof (be_val_range l) as Hr. unfold len in Hr. rewrite H in Hr.
  change (256 ^ Z.of_nat 2) with 65536 in Hr. change maxMessageChunks with 65535. lia.
Qed.

Lemma length_subslice {A} (l : list A) i j : (i <= j)%nat -> (j <= length l)%nat -> length (subslice l i j) = (j - i)%nat.
Proof. intros H1 H2. unfold subslice. rewrite length_take, length_drop. lia. Qed.

Lemma evictLocked_sub now m it1 it2 id p : evictLocked now m it1 it2 !! id = Some p -> m !! id = Some p.
Proof.
  unfold evictLocked. case_if; [apply evict_expired_sub|].
  destruct (fold_left _ _ _) as [[k t]|]; intros H.
  - apply lookup_delete_Some in H as [_ H]. by eapply evict_expired_sub.
  - by eapply evict_expired_sub.
Qed.

Lemma store_chunk_size id idx total payload r p :
  is_Some (r !! id) -> (size (store_chunk id idx total payload r p).1 <= size r)%nat.
Proof.
  intros [q Hq]. unfold store_chunk. case_if; [done|].
  set (p' := match pt_chunks p !! _ with Some [] => _ | _ => p end).
  destruct (pt_got p' =? pt_total p'); cbn [fst].
  - rewrite map_size_delete, Hq. lia.
  - rewrite map_size_insert, Hq. done.
Qed.

Lemma store_chunk_partials id idx total payload r p :
  partial_ok p -> map_Forall (fun _ p => partial_ok p) r ->
  map_Forall (fun _ p => partial_ok p) (store_chunk id idx total payload r p).1.
Proof.
  intros (H1 & H2 & H3) Hr. unfold store_chunk. case_if; [done|].
  destruct (pt_chunks p !! _) as [[|]|] eqn:E; case_if; cbn [fst];
    try (by apply map_Forall_delete); apply map_Forall_insert_2; try done; cbn in *.
  unfold partial_ok. cbn. split_and!; try lia. unfold len in *. by rewrite length_insert.
Qed.

Definition events : Type := list (Z * list (bytes * partial) * list (bytes * partial) * bytes).

(** The reassembler over a sequence of frames, with what each one delivered. *)
Fixpoint run (r : Reassembler) (evs : events) : Reassembler * list (list bytes) :=
  match evs with
  | [] => (r, [])
  | (now, it1, it2, f) :: t =>
      let '(r, o) := Feed now it1 it2 r f in
      let '(r, os) := run r t in
      (r, o :: os)
  end.

(** The states a sequence goes through range over the real tables. *)
Definition ranges_ok (now : Z) (it1 it2 : list (bytes * partial)) (r : Reassembler) : Prop :=
  range_of r it1 /\ range_of (evict_expired now r it1) it2.

Lemma Feed_table_ok now it1 it2 r f :
  table_ok r -> ranges_ok now it1 it2 r -> table_ok (Feed now it1 it2 r f).1.
Proof.
  intros [Hs Hp] [Hr1 Hr2]. unfold Feed. case_if; [done|]. case_if; [done|].
  assert (Hl : (12 <= length f)%nat) by (unfold len, msgHeaderLen in *; lia).
  destruct (be_val_2 (subslice f 10 12)) as [Ht1 Ht2]; [by rewrite length_subslice by lia|].
  destruct (be_val_2 (subslice f 8 10)) as [Hi1 Hi2]; [by rewrite length_subslice by lia|].
  destruct (r !! subslice f 0 8) as [p|] eqn:E.
  - split; [|apply store_chunk_partials; [by apply Hp in E|done]].
    pose proof (store_chunk_size (subslice f 0 8) (be_val (subslice f 8 10)) (be_val (subslice f 10 12))
      (drop (Z.to_nat msgHeaderLen) f) r p ltac:(by eexists)). lia.
  - set (r1 := if maxInflightMessages <=? Z.of_nat (size r) then _ else r).
    assert (Hr1' : Z.of_nat (size r1) < maxInflightMessages).
    { unfold r1. case_if; [by apply evictLocked_room|done]. }
    assert (Hp1 : map_Forall (fun _ p => partial_ok p) r1).
    { intros id p Hid. apply (Hp id). unfold r1 in Hid. case_if_in Hid; [by eapply evictLocked_sub|done]. }
    assert (Hn1 : r1 !! subslice f 0 8 = None).
    { unfold r1. case_if; [|done]. destruct (evictLocked now r it1 it2 !! _) eqn:E'; [|done].
      apply evictLocked_sub in E'. congruence. }
    case_if; [lia|]. set (p0 := mkPartial _ _ _ _).
    assert (Hok : partial_ok p0).
    { unfold partial_ok, p0. cbn [pt_total pt_got pt_chunks]. unfold len. rewrite repeat_length. lia. }
    split; [|apply store_chunk_partials; [done|by apply map_Forall_insert_2]].
    pose proof (store_chunk_size (subslice f 0 8) (be_val (subslice f 8 10)) (be_val (subslice f 10 12))
      (drop (Z.to_nat msgHeaderLen) f) (<[subslice f 0 8 := p0]> r1) p0
      ltac:(rewrite lookup_insert_eq; by eexists)) as Hsz.
    rewrite map_size_insert, Hn1 in Hsz. lia.
Qed.

(** A frame that opens a new message is never turned away. *)
Lemma Feed_never_shed now it1 it2 r f :
  table_ok r -> ranges_ok now it1 it2 r ->
  msgHeaderLen <= len f -> 0 < be_val (subslice f 10 12) -> be_val (subslice f 8 10) < be_val (subslice f 10 12) ->
  r !! subslice f 0 8 = None ->
  exists r1, (forall id p, r1 !! id = Some p -> r !! id = Some p) /\
    let p := mkPartial (be_val (subslice f 10 12)) 0 (repeat [] (Z.to_nat (be_val (subslice f 10 12)))) now in
    Feed now it1 it2 r f =
      store_chunk (subslice f 0 8) (be_val (subslice f 8 10)) (be_val (subslice f 10 12))
        (drop (Z.to_nat msgHeaderLen) f) (<[subslice f 0 8 := p]> r1) p.
Proof.
  intros [Hs Hp] [Hr1 Hr2] Hl Ht Hi Hn.
  exists (if maxInflightMessages <=? Z.of_nat (size r) then evictLocked now r it1 it2 else r). split.
  - intros id p. case_if; [apply evictLocked_sub|done].
  - cbn zeta. unfold Feed. rewrite Hn. case_if; [lia|]. case_if; [lia|].
    rewrite (proj2 (Z.leb_gt _ (Z.of_nat (size (if maxInflightMessages <=? Z.of_nat (size r) then _ else r))))); [done|].
    case_if; [by apply evictLocked_room|done].
Qed.

(** ** Delivery *)

(** ** What a message must do

    [since] are the frames of a message [fs] that arrived since it was last delivered:
    the arrival that completes them delivers it, and begins anew. *)
Definition heard (fs since : list bytes) (f : bytes) : list bytes * bool :=
  if bool_decide (f ∈ fs)
  then if forallb (fun g => bool_decide (g ∈ f :: since)) fs then ([], true) else (f :: since, false)
  else (since, false).
Fixpoint rebuilt (fs since arrivals : list bytes) : list bytes * list bool :=
  match arrivals with
  | [] => (since, [])
  | f :: arrivals =>
      let '(since, now) := heard fs since f in
      let '(since, later) := rebuilt fs since arrivals in (since, now :: later)
  end.

(** Without a frame of it the message is not delivered. *)
Lemma rebuilt_lacks fs since arrivals g :
  g ∈ fs -> g ∉ since -> g ∉ arrivals -> List.filter id (rebuilt fs since arrivals).2 = [].
Proof.
  revert since. induction arrivals as [|f arrivals IH]; intros since Hg Hs Ha; [done|]. cbn [rebuilt].
  assert (Hnf : g <> f) by set_solver. assert (Hh : (heard fs since f).2 = false /\ g ∉ (heard fs since f).1).
  { unfold heard. case_bool_decide; [|done]. destruct (forallb _ fs) eqn:E; [|cbn; set_solver]. rewrite forallb_forall in E.
    specialize (E g (proj1 (list_elem_of_In _ _) Hg)). rewrite bool_decide_eq_true in E. set_solver. }
  destruct (heard fs since f) as [s1 []]; cbn [fst snd] in Hh; [by destruct Hh|]. specialize (IH s1 Hg ltac:(apply Hh) ltac:(set_solver)).
  by destruct (rebuilt fs s1 arrivals).
Qed.

(** If its frames all arrive, each once, the message is delivered once. *)
Lemma rebuilt_once fs since arrivals :
  fs ⊆ since ++ arrivals -> ~ fs ⊆ since -> NoDup (List.filter (fun f => bool_decide (f ∈ fs)) arrivals) ->
  length (List.filter id (rebuilt fs since arrivals).2) = 1%nat.
Proof.
  revert since. induction arrivals as [|f arrivals IH]; intros since Hsub Hpart Hnd; [rewrite app_nil_r in Hsub; done|]. cbn [rebuilt List.filter] in *.
  unfold heard. case_bool_decide as Hf; cbn iota in Hnd.
  - apply NoDup_cons in Hnd as [Hni Hnd]. destruct (forallb _ fs) eqn:E.
    + assert (Hl : List.filter id (rebuilt fs [] arrivals).2 = []).
      { apply (rebuilt_lacks fs [] arrivals f); [done|set_solver|]. intros Hin. apply Hni. apply list_elem_of_In, filter_In.
        split; [by apply list_elem_of_In|by apply bool_decide_eq_true_2]. }
      destruct (rebuilt fs [] arrivals) as [s' l]. cbn in Hl |- *. by rewrite Hl.
    + assert (Hpart' : ~ fs ⊆ f :: since).
      { intros Hs. apply not_true_iff_false in E. apply E, forallb_forall. intros g Hg%list_elem_of_In. by apply bool_decide_eq_true_2, Hs. }
      specialize (IH (f :: since) ltac:(set_solver) Hpart' Hnd). by destruct (rebuilt fs (f :: since) arrivals).
  - assert (Hsub' : fs ⊆ since ++ arrivals) by (intros g Hg; specialize (Hsub g Hg); set_solver).
    specialize (IH since Hsub' Hpart Hnd). by destruct (rebuilt fs since arrivals).
Qed.

Section Delivery.
Variables (msgID : bytes) (cs : list bytes).
Hypothesis id_len : length msgID = 8%nat.
Hypothesis cs_pos : 0 < len cs.
Hypothesis cs_max : len cs <= maxMessageChunks.
Hypothesis cs_nonempty : cs = [[]] \/ Forall (fun c => c <> []) cs.

Lemma message_frame_parse i t c :
  0 <= i < 2 ^ 16 -> 0 <= t < 2 ^ 16 ->
  let f := message_frame msgID i t c in
  msgHeaderLen <= len f /\ subslice f 0 8 = msgID /\ be_val (subslice f 8 10) = i /\
  be_val (subslice f 10 12) = t /\ drop (Z.to_nat msgHeaderLen) f = c.
Proof using All.
  intros Hi Ht. cbn zeta. unfold message_frame, u16. rewrite !Z.mod_small by done.
  destruct msgID as [|b0 [|b1 [|b2 [|b3 [|b4 [|b5 [|b6 [|b7 [|]]]]]]]]]; try discriminate.
  assert (Hp : forall z : Z, 0 <= z < 2 ^ 16 -> exists x y, be_bytes 2 z = [x; y] /\ be_val [x; y] = z).
  { intros z Hz. destruct (be_bytes 2 z) as [|x [|y [|]]] eqn:E; try (apply (f_equal length) in E; rewrite length_be_bytes in E; discriminate).
    exists x, y. split; [done|]. rewrite <- E, be_val_bytes. by apply Z.mod_small. }
  destruct (Hp i Hi) as (x & y & -> & Hx). destruct (Hp t Ht) as (x' & y' & -> & Hx').
  unfold len, msgHeaderLen. cbn. split_and!; [lia|done|done|done|done].
Qed.

(** Which chunks of our message the table holds. *)
Definition masked_chunks (I : gset nat) : list bytes :=
  imap (fun j c => if bool_decide (j ∈ I) then c else []) cs.

Definition tracks (I : gset nat) (r : Reassembler) : Prop :=
  (size I < length cs)%nat /\
  match r !! msgID with
  | None => I = ∅
  | Some p => pt_total p = len cs /\ pt_got p = Z.of_nat (size I) /\ pt_chunks p = masked_chunks I
  end.

Lemma lookup_masked I j : masked_chunks I !! j = (fun c => if bool_decide (j ∈ I) then c else []) <$> cs !! j.
Proof. unfold masked_chunks. by rewrite list_lookup_imap. Qed.

Lemma masked_insert I j c :
  cs !! j = Some c -> <[j := c]> (masked_chunks I) = masked_chunks ({[j]} ∪ I).
Proof.
  intros Hc. apply list_eq. intros k. destruct (decide (j = k)) as [<-|Hne].
  - rewrite list_lookup_insert_eq.
    + rewrite lookup_masked, Hc. cbn. rewrite bool_decide_eq_true_2 by set_solver. done.
    + unfold masked_chunks. rewrite length_imap. by apply lookup_lt_Some in Hc.
  - rewrite list_lookup_insert_ne, !lookup_masked by done. destruct (cs !! k); [|done]. cbn.
    rewrite (bool_decide_ext (k ∈ I) (k ∈ {[j]} ∪ I)) by set_solver. done.
Qed.

Lemma masked_empty : masked_chunks ∅ = repeat [] (length cs).
Proof.
  apply list_eq. intros k. rewrite lookup_masked. destruct (cs !! k) as [c|] eqn:E; cbn.
  - rewrite bool_decide_eq_false_2, lookup_repeat by set_solver. apply lookup_lt_Some in E.
    by rewrite (proj2 (Nat.ltb_lt _ _)).
  - apply lookup_ge_None in E. rewrite lookup_repeat. by rewrite (proj2 (Nat.ltb_ge _ _)).
Qed.

Definition indices : gset nat := list_to_set (seq 0 (length cs)).

Lemma size_indices : size indices = length cs.
Proof. unfold indices. rewrite size_list_to_set by apply NoDup_seq. by rewrite length_seq. Qed.

Lemma masked_full I : I ⊆ indices -> size I = length cs -> masked_chunks I = cs.
Proof.
  intros Hs Hz. assert (I = indices) as ->.
  { apply set_subseteq_size_eq in Hs; [done|]. rewrite size_indices. lia. }
  apply list_eq. intros k. rewrite lookup_masked. destruct (cs !! k) as [c|] eqn:E; [|done]. cbn.
  rewrite bool_decide_eq_true_2; [done|]. apply elem_of_list_to_set, elem_of_seq.
  apply lookup_lt_Some in E. lia.
Qed.

Lemma store_ours I j c p r :
  (size I < length cs)%nat -> I ⊆ indices -> cs !! j = Some c ->
  pt_total p = len cs -> pt_got p = Z.of_nat (size I) -> pt_chunks p = masked_chunks I ->
  let res := store_chunk msgID (Z.of_nat j) (len cs) c r p in
  let I' := {[j]} ∪ I in
  (forall k, k <> msgID -> res.1 !! k = r !! k) /\
  if (size I' =? length cs)%nat then res.2 = [concat cs] /\ res.1 !! msgID = None
  else res.2 = [] /\ tracks I' res.1.
Proof using All.
  intros Hsz Hsub Hc Ht Hg Hch. cbn zeta. unfold store_chunk. rewrite Ht, Z.eqb_refl. cbn [negb].
  rewrite Nat2Z.id, Hch, lookup_masked, Hc. cbn [fmap option_fmap option_map].
  assert (Hj : j ∈ indices). { apply elem_of_list_to_set, elem_of_seq. apply lookup_lt_Some in Hc. lia. }
  case_bool_decide as Hin.
  - (* the chunk is already there *)
    assert (Hcne : c <> []).
    { intros ->. destruct cs_nonempty as [E|E].
      - rewrite E in *. cbn in Hsz. assert (size I = 0)%nat by lia. apply size_empty_inv in H. set_solver.
      - rewrite Forall_forall in E. apply (E []); [by eapply list_elem_of_lookup_2|done]. }
    destruct c; [done|].
    replace ({[j]} ∪ I) with I by set_solver. rewrite (proj2 (Nat.eqb_neq _ _)) by lia.
    rewrite Hg, Ht. rewrite (proj2 (Z.eqb_neq _ _)) by (unfold len; lia). cbn [fst snd].
    split; [intros k Hk; by rewrite lookup_insert_ne|]. split; [done|]. split; [done|].
    rewrite lookup_insert_eq. done.
  - rewrite masked_insert by done. cbn [pt_got pt_total]. rewrite Hg, ?Ht.
    assert (Hsz' : size ({[j]} ∪ I) = S (size I)) by (rewrite size_union, size_singleton; [lia|set_solver]).
    assert (Hsub' : {[j]} ∪ I ⊆ indices) by set_solver.
    rewrite Hsz'. destruct (Nat.eqb_spec (S (size I)) (length cs)) as [E|E].
    + rewrite (proj2 (Z.eqb_eq _ _)) by (unfold len; lia). cbn [fst snd pt_chunks].
      split; [intros k Hk; by rewrite lookup_delete_ne|]. rewrite masked_full by (done || lia).
      split; [done|]. by rewrite lookup_delete_eq.
    + rewrite (proj2 (Z.eqb_neq _ _)) by (unfold len; lia). cbn [fst snd].
      split; [intros k Hk; by rewrite lookup_insert_ne|]. split; [done|]. split; [rewrite Hsz'; lia|].
      rewrite lookup_insert_eq. cbn. rewrite Hsz'. split_and!; [done|lia|done].
Qed.

(** A frame of our message, delivered to a table that has room for it. *)
Lemma feed_ours now it1 it2 r I j c :
  tracks I r -> I ⊆ indices -> cs !! j = Some c ->
  (r !! msgID = None -> Z.of_nat (size r) < maxInflightMessages) ->
  let res := Feed now it1 it2 r (message_frame msgID (Z.of_nat j) (len cs) c) in
  let I' := {[j]} ∪ I in
  (forall k, k <> msgID -> res.1 !! k = r !! k) /\
  if (size I' =? length cs)%nat then res.2 = [concat cs] /\ res.1 !! msgID = None
  else res.2 = [] /\ tracks I' res.1.
Proof using All.
  intros [Hsz Htr] Hsub Hc Hroom. cbn zeta.
  assert (Hj : Z.of_nat j < len cs) by (apply lookup_lt_Some in Hc; unfold len; lia).
  assert (Hmax : maxMessageChunks < 2 ^ 16) by done.
  destruct (message_frame_parse (Z.of_nat j) (len cs) c) as (P1 & P2 & P3 & P4 & P5); [lia|lia|].
  unfold Feed. rewrite P2, P3, P4, P5. rewrite (proj2 (Z.ltb_ge _ _)) by done.
  rewrite (proj2 (orb_false_iff _ _)) by (split; [apply Z.eqb_neq|apply Z.leb_gt]; lia).
  destruct (r !! msgID) as [p|] eqn:E.
  - destruct Htr as (T1 & T2 & T3). by apply store_ours.
  - specialize (Hroom eq_refl). apply Z.leb_gt in Hroom. rewrite !Hroom.
    subst I. set (p := mkPartial _ _ _ _).
    destruct (store_ours ∅ j c p (<[msgID := p]> r)) as [H1 H2]; try done.
    + unfold p. cbn [pt_chunks]. rewrite masked_empty. unfold len. by rewrite Nat2Z.id.
    + split; [|done]. intros k Hk. rewrite H1 by done. by rewrite lookup_insert_ne.
Qed.

(** A frame of another message leaves our partial alone. *)
Lemma feed_other now it1 it2 r f :
  subslice f 0 8 <> msgID ->
  (r !! subslice f 0 8 = None -> Z.of_nat (size r) < maxInflightMessages) ->
  let res := Feed now it1 it2 r f in
  res.1 !! msgID = r !! msgID /\ forall k, k <> subslice f 0 8 -> res.1 !! k = r !! k.
Proof.
  intros Hne Hroom. cbn zeta.
  assert (Hgen : forall k, k <> subslice f 0 8 -> (Feed now it1 it2 r f).1 !! k = r !! k); [|by auto].
  intros k Hk. unfold Feed. case_if; [done|]. case_if; [done|].
  assert (Hst : forall idx t pl m q, (store_chunk (subslice f 0 8) idx t pl m q).1 !! k = m !! k).
  { intros. unfold store_chunk. case_if; [done|].
    destruct (pt_chunks q !! _) as [[|]|]; case_if; cbn [fst]; by rewrite ?lookup_delete_ne, ?lookup_insert_ne by done. }
  destruct (r !! subslice f 0 8) as [p|] eqn:E; [apply Hst|].
  specialize (Hroom eq_refl). apply Z.leb_gt in Hroom. rewrite !Hroom.
  rewrite Hst. by rewrite lookup_insert_ne.
Qed.

(** ** Interleaved arrivals *)

Definition frame_at (j : nat) : bytes := message_frame msgID (Z.of_nat j) (len cs) (default [] (cs !! j)).
Definition arrived (fs : list bytes) : gset nat := filter (fun j => frame_at j ∈ fs) indices.

Lemma frame_at_parse j :
  (j < length cs)%nat -> subslice (frame_at j) 0 8 = msgID /\ be_val (subslice (frame_at j) 8 10) = Z.of_nat j.
Proof using All.
  intros Hj. assert (maxMessageChunks < 2 ^ 16) by done.
  destruct (message_frame_parse (Z.of_nat j) (len cs) (default [] (cs !! j))) as (_ & H1 & H2 & _); unfold len in *; [lia|lia|].
  done.
Qed.

Lemma elem_of_indices j : j ∈ indices <-> (j < length cs)%nat.
Proof. clear. unfold indices. rewrite elem_of_list_to_set, elem_of_seq. lia. Qed.

Lemma arrived_ours j fs : (j < length cs)%nat -> arrived (frame_at j :: fs) = {[j]} ∪ arrived fs.
Proof using All.
  intros Hj. apply set_eq. intros k. unfold arrived.
  rewrite elem_of_union, elem_of_singleton, !elem_of_filter, elem_of_cons, elem_of_indices. split.
  - intros [[He|He] Hk]; [left|by right]. apply (f_equal (fun f => be_val (subslice f 8 10))) in He.
    rewrite (proj2 (frame_at_parse j Hj)), (proj2 (frame_at_parse k Hk)) in He. lia.
  - intros [->|[He Hk]]; auto.
Qed.

Lemma arrived_other f fs : subslice f 0 8 <> msgID -> arrived (f :: fs) = arrived fs.
Proof using All.
  intros Hf. apply set_eq. intros k. unfold arrived. rewrite !elem_of_filter, elem_of_cons, elem_of_indices.
  split; [|tauto]. intros [[He|He] Hk]; [|done]. exfalso. apply Hf. rewrite <- He. by apply frame_at_parse.
Qed.

Lemma arrived_nil : arrived [] = ∅.
Proof.
  apply set_eq. intros k. unfold arrived. rewrite elem_of_filter, elem_of_nil, elem_of_empty. tauto.
Qed.

Lemma arrived_indices fs : arrived fs ⊆ indices.
Proof. clear. unfold arrived. set_solver. Qed.

Lemma size_room (r : Reassembler) (U : gset bytes) k :
  dom r ⊆ U -> Z.of_nat (size U) <= maxInflightMessages -> k ∈ U -> r !! k = None ->
  Z.of_nat (size r) < maxInflightMessages.
Proof.
  intros Hd HU Hk Hn. rewrite <- size_dom. apply not_elem_of_dom in Hn.
  assert (Hs : (size ({[k]} ∪ dom r) <= size U)%nat) by (apply subseteq_size; set_solver).
  rewrite size_union, size_singleton in Hs by set_solver. lia.
Qed.

Lemma dom_frame (r r' : Reassembler) (U : gset bytes) k :
  dom r ⊆ U -> k ∈ U -> (forall q, q <> k -> r' !! q = r !! q) -> dom r' ⊆ U.
Proof.
  intros Hd Hk H q [p Hq]%elem_of_dom. destruct (decide (q = k)) as [->|Hne]; [done|].
  apply Hd, elem_of_dom. exists p. by rewrite <- H.
Qed.

Definition ev_frame (e : Z * list (bytes * partial) * list (bytes * partial) * bytes) : bytes := e.2.

(** An arrival: a frame of ours, or one of another message in [U]. *)
Definition arrival (U : gset bytes) (f : bytes) : Prop :=
  (exists j, (j < length cs)%nat /\ f = frame_at j) \/ (subslice f 0 8 <> msgID /\ subslice f 0 8 ∈ U).

Lemma tracks_other r r' I : r' !! msgID = r !! msgID -> tracks I r -> tracks I r'.
Proof. unfold tracks. by intros ->. Qed.

(** The frames of our message have all arrived exactly when every index has. *)
Lemma arrived_full fs l : (forall g, g ∈ fs <-> exists j, (j < length cs)%nat /\ g = frame_at j) ->
  (size (arrived l) =? length cs)%nat = forallb (fun g => bool_decide (g ∈ l)) fs.
Proof using All.
  intros Hat. apply eq_true_iff_eq. rewrite Nat.eqb_eq, forallb_forall. split.
  - intros Hz g Hg%list_elem_of_In. apply bool_decide_eq_true_2. apply Hat in Hg as (j & Hj & ->).
    assert (E : arrived l = indices) by (apply set_subseteq_size_eq; [apply arrived_indices|rewrite size_indices; lia]).
    assert (Hin : j ∈ arrived l) by (rewrite E; by apply elem_of_indices). by apply elem_of_filter in Hin as [? _].
  - intros H. rewrite <- size_indices. f_equal. apply set_eq. intros k. split; [apply arrived_indices|]. intros Hk. apply elem_of_filter. split; [|done].
    apply elem_of_indices in Hk. specialize (H (frame_at k)). rewrite bool_decide_eq_true in H. apply H. apply list_elem_of_In, Hat. by exists k.
Qed.

Lemma run_rounds (U : gset bytes) fs evs r since :
  Z.of_nat (size U) <= maxInflightMessages -> msgID ∈ U -> (forall g, g ∈ fs <-> exists j, (j < length cs)%nat /\ g = frame_at j) ->
  tracks (arrived since) r -> (since = [] -> r !! msgID = None) -> dom r ⊆ U -> Forall (fun e => arrival U (ev_frame e)) evs ->
  let '(r', outs) := run r evs in
  let '(since', done) := rebuilt fs since (map ev_frame evs) in
  (since' = [] -> r' !! msgID = None) /\ dom r' ⊆ U /\
  Forall3 (fun e (c : bool) o => ev_frame e ∈ fs -> o = if c then [concat cs] else []) evs done outs.
Proof using All.
  intros HU HidU Hat. revert r since. induction evs as [|[[[now it1] it2] f] evs IH]; intros r since Ht Hz Hd Hf; cbn [run map rebuilt].
  { split_and!; [done|done|constructor]. }
  apply Forall_cons in Hf as [Ha Hf]. cbn [ev_frame snd] in *. destruct Ha as [(j & Hj & ->)|[Hne HfU]].
  - destruct (lookup_lt_is_Some_2 cs j Hj) as [c Hc].
    destruct (feed_ours now it1 it2 r (arrived since) j c Ht (arrived_indices _) Hc) as [F1 F2]; [by apply (size_room r U)|].
    replace (message_frame msgID (Z.of_nat j) (len cs) c) with (frame_at j) in * by (unfold frame_at; by rewrite Hc).
    rewrite <- (arrived_ours j since Hj), (arrived_full fs _ Hat) in F2.
    destruct (Feed now it1 it2 r (frame_at j)) as [r1 o]. cbn [fst snd] in *. pose proof (dom_frame r r1 U msgID Hd HidU F1) as Hd1.
    unfold heard. rewrite bool_decide_eq_true_2 by (apply Hat; by exists j). destruct (forallb _ fs).
    + destruct F2 as [-> F2]. assert (Ht1 : tracks (arrived []) r1).
      { rewrite arrived_nil. split; [rewrite size_empty; unfold len in *; lia|]. by rewrite F2. }
      specialize (IH r1 [] Ht1 ltac:(done) Hd1 Hf). destruct (run r1 evs) as [r' outs]. destruct (rebuilt _ _ _) as [since' done].
      destruct IH as (I1 & I2 & I3). split_and!; [assumption..|]. by constructor.
    + destruct F2 as [-> Ht1]. specialize (IH r1 (frame_at j :: since) Ht1 ltac:(done) Hd1 Hf). destruct (run r1 evs) as [r' outs].
      destruct (rebuilt _ _ _) as [since' done]. destruct IH as (I1 & I2 & I3). split_and!; [assumption..|]. by constructor.
  - destruct (feed_other now it1 it2 r f Hne) as [F1 F2]; [by apply (size_room r U)|].
    assert (Hnf : f ∉ fs) by (intros (j & Hj & ->)%Hat; by destruct (frame_at_parse j Hj)).
    destruct (Feed now it1 it2 r f) as [r1 o]. cbn [fst] in *. unfold heard. rewrite bool_decide_eq_false_2 by done.
    specialize (IH r1 since (tracks_other _ _ _ F1 Ht) ltac:(by rewrite F1) (dom_frame r r1 U _ Hd HfU F2) Hf). destruct (run r1 evs) as [r' outs].
    destruct (rebuilt _ _ _) as [since' done]. destruct IH as (I1 & I2 & I3). split_and!; [assumption..|]. by constructor.
Qed.
End Delivery.

Lemma frames_from_lookup msgID total i cs j f :
  frames_from msgID total i cs !! j = Some f <-> exists c, cs !! j = Some c /\ f = message_frame msgID (i + Z.of_nat j) total c.
Proof.
  revert i j. induction cs as [|c cs IH]; intros i j; cbn [frames_from].
  - rewrite !lookup_nil. split; [done|]. by intros (? & ? & _).
  - destruct j as [|j]; cbn.
    + rewrite Z.add_0_r. split; [intros; simplify_eq; by exists c|]. intros (? & ? & ->). by simplify_eq.
    + rewrite IH. replace (i + 1 + Z.of_nat j) with (i + Z.of_nat (S j)) by lia. done.
Qed.

(** ** Theorems *)

(** The frames of a message into a table with room: each delivers what [rebuilt] says. *)
Lemma message_run (msgID : bytes) (chunk : Z) (data : bytes) (fs : list bytes) (U : gset bytes) (evs : events) (r : Reassembler) :
  length msgID = 8%nat -> 0 < chunk ->
  sendMessageChunks record_send msgID chunk data [] = Ok fs ->
  Z.of_nat (size U) <= maxInflightMessages -> msgID ∈ U -> dom r ⊆ U -> r !! msgID = None ->
  Forall (fun e => ev_frame e ∈ fs \/ (subslice (ev_frame e) 0 8 <> msgID /\ subslice (ev_frame e) 0 8 ∈ U)) evs ->
  let '(r', outs) := run r evs in
  let '(since, done) := rebuilt fs [] (map ev_frame evs) in
  Forall3 (fun e (c : bool) o => ev_frame e ∈ fs -> o = if c then [data] else []) evs done outs /\
  dom r' ⊆ U /\ (since = [] -> r' !! msgID = None) /\ fs <> [].
Proof.
  intros Hid Hc Hsend HU HidU Hd Hn Hev.
  destruct (message_chunks_spec chunk data Hc) as (Hcat & Hne & Hform & _).
  rewrite sendMessageChunks_frames in Hsend by done. set (cs := message_chunks chunk data) in *.
  destruct (Z.ltb_spec maxMessageChunks (len cs)) as [|Hmax]; [done|]. injection Hsend as <-.
  assert (Hpos : 0 < len cs) by (destruct cs; [done|]; rewrite len_cons; pose proof (len_nonneg cs); lia).
  assert (Hat : forall g, g ∈ frames_from msgID (len cs) 0 cs <-> exists j, (j < length cs)%nat /\ g = frame_at msgID cs j).
  { intros g. split.
    - intros [j Hj]%list_elem_of_lookup_1. apply frames_from_lookup in Hj as (c & Hj & ->). exists j.
      split; [by apply lookup_lt_Some in Hj|]. unfold frame_at. by rewrite Hj.
    - intros (j & Hj & ->). destruct (lookup_lt_is_Some_2 cs j Hj) as [c Hc']. apply (list_elem_of_lookup_2 _ j).
      apply frames_from_lookup. exists c. unfold frame_at. by rewrite Hc'. }
  assert (Ht : tracks msgID cs (arrived msgID cs []) r).
  { rewrite (arrived_nil msgID cs) by done. split; [rewrite size_empty; unfold len in *; lia|]. by rewrite Hn. }
  pose proof (run_rounds msgID cs Hid Hpos Hmax Hform U _ evs r [] HU HidU Hat Ht ltac:(done) Hd) as H. rewrite Hcat in H.
  destruct (run r evs) as [r' outs]. destruct (rebuilt _ _ _) as [since done].
  destruct H as (H1 & H2 & H3); [eapply Forall_impl; [exact Hev|]; cbn; intros e [He|He]; [left; by apply Hat|by right]|].
  split_and!; [assumption..|]. by destruct cs.
Qed.

(** C33: The reassembler delivers a message exactly as often as its frames have all
    arrived.  A message sent in chunks, frames of which arrive in any order and
    any number of times, interleaved with frames of other messages, as long as the
    distinct messages concerned are at most [maxInflightMessages] (256) and nothing of
    this message is held at the start: a frame of it delivers exactly the message if
    with it all frames have arrived since the message was last delivered, or since the
    start, and otherwise nothing; and after a delivery nothing of it is held.  In
    particular it is delivered exactly once if its frames arrive once each.  The
    reassembler does not remember what it delivered, so a network that repeats all of
    a message's frames has it delivered again. *)
Theorem message_delivery (msgID : bytes) (chunk : Z) (data : bytes) (fs : list bytes) (U : gset bytes) (evs : events) (r : Reassembler) :
  length msgID = 8%nat -> 0 < chunk ->
  sendMessageChunks record_send msgID chunk data [] = Ok fs ->
  Z.of_nat (size U) <= maxInflightMessages -> msgID ∈ U -> dom r ⊆ U -> r !! msgID = None ->
  Forall (fun e => ev_frame e ∈ fs \/ (subslice (ev_frame e) 0 8 <> msgID /\ subslice (ev_frame e) 0 8 ∈ U)) evs ->
  let '(r', outs) := run r evs in
  let '(since, done) := rebuilt fs [] (map ev_frame evs) in
  Forall3 (fun e (c : bool) o => ev_frame e ∈ fs -> o = if c then [data] else []) evs done outs /\
  (since = [] -> r' !! msgID = None) /\
  (fs ⊆ map ev_frame evs -> NoDup (List.filter (fun f => bool_decide (f ∈ fs)) (map ev_frame evs)) -> length (List.filter id done) = 1%nat).
Proof.
  intros Hid Hc Hsend HU HidU Hd Hn Hev. pose proof (message_run msgID chunk data fs U evs r Hid Hc Hsend HU HidU Hd Hn Hev) as H.
  pose proof (rebuilt_once fs [] (map ev_frame evs)) as H1.
  destruct (run r evs) as [r' outs]. destruct (rebuilt _ _ _) as [since done]. destruct H as (H2 & _ & H3 & Hne).
  split_and!; [assumption..|]. intros Hsub Hnd. apply H1; [done| |done]. intros Hs. destruct fs as [|g fs]; [done|]. by apply (not_elem_of_nil g), Hs; left.
Qed.

(** The second frame twice, then the first, then each once more. *)
Definition sample_first : bytes := message_frame (repeat x09 8) 0 2 [x01; x02].
Definition sample_second : bytes := message_frame (repeat x09 8) 1 2 [x03].
Definition sample_events : events :=
  [(0, [], [], sample_second); (1, [], [], sample_second); (2, [], [], sample_first); (3, [], [], sample_first); (4, [], [], sample_second)].

Lemma message_delivery_witness :
  sendMessageChunks record_send (repeat x09 8) 2 [x01; x02; x03] [] = Ok [sample_first; sample_second] /\
  (run ∅ sample_events).2 = [[]; []; [[x01; x02; x03]]; []; [[x01; x02; x03]]].
Proof.
  split; [vm_compute; reflexivity|].
  pose proof (message_delivery (repeat x09 8) 2 [x01; x02; x03] [sample_first; sample_second] {[repeat x09 8]} sample_events ∅
    eq_refl ltac:(lia) ltac:(vm_compute; reflexivity) ltac:(vm_compute; discriminate) ltac:(set_solver) ltac:(set_solver) eq_refl) as H.
  specialize (H ltac:(repeat constructor; left; cbn; set_solver)). destruct (run ∅ sample_events) as [r' outs].
  assert (E : rebuilt [sample_first; sample_second] [] (map ev_frame sample_events) = ([], [false; false; true; false; true])) by (vm_compute; reflexivity).
  rewrite E in H. destruct H as [H _]. unfold sample_events in H. cbn [snd].
  repeat (inversion_clear H as [|? ? ? ? ? ? H0 H1]; rename H1 into H; rewrite H0 by (unfold ev_frame; cbn [snd]; first [left|right; left]); clear H0).
  by inversion_clear H.
Defined.

(** Whatever frames arrive, and in whatever order the table is scanned, it
    never holds more than [maxInflightMessages] partial messages, every one of
    them well-formed and incomplete; a frame that opens a new message is always
    admitted, evicting an old partial if need be, so the check after the eviction
    never sheds a message. *)
Theorem table_bounded now it1 it2 r f :
  table_ok r -> ranges_ok now it1 it2 r ->
  table_ok (Feed now it1 it2 r f).1 /\
  (msgHeaderLen <= len f -> 0 < be_val (subslice f 10 12) -> be_val (subslice f 8 10) < be_val (subslice f 10 12) ->
   r !! subslice f 0 8 = None ->
   is_Some ((Feed now it1 it2 r f).1 !! subslice f 0 8) \/ exists m, (Feed now it1 it2 r f).2 = [m]).
Proof.
  intros Ht Hr. split; [by apply Feed_table_ok|]. intros H1 H2 H3 H4.
  destruct (Feed_never_shed now it1 it2 r f Ht Hr H1 H2 H3 H4) as (r1 & _ & ->).
  unfold store_chunk. cbn [pt_total]. rewrite Z.eqb_refl. cbn [negb pt_chunks].
  match goal with |- context [if ?b then _ else _] => destruct b end; cbn [fst snd].
  - right. by eexists.
  - left. rewrite lookup_insert_eq. by eexists.
Qed.

Lemma table_bounded_witness : table_ok (Feed 0 [] [] ∅ (message_frame (repeat x01 8) 0 2 [x05])).1.
Proof.
  apply (table_bounded 0 [] [] ∅ (message_frame (repeat x01 8) 0 2 [x05])).
  - split; [vm_compute; discriminate|apply map_Forall_empty].
  - split; unfold range_of; vm_compute; constructor.
Defined.

(** The chunk size for an MTU lies between the two bounds, and when the MTU
    is at least [386] the estimated frame [linkFrameOverhead + 4/3 chunk] fits it. *)
Theorem maxChunkForMTU_fits mtu :
  minMessageChunk <= maxChunkForMTU mtu <= maxMessageChunk /\
  (386 <= mtu -> 3 * linkFrameOverhead + 4 * maxChunkForMTU mtu <= 3 * mtu).
Proof.
  unfold maxChunkForMTU, minMessageChunk, maxMessageChunk, linkFrameOverhead.
  repeat case_if; split; try lia; intros; Z.to_euclidean_division_equations; lia.
Qed.
