(* ===== verification/LinkResource.v ===== *)
(** * Reliable resources over a link (internal/link/resource.go)

    The sender and receiver state machines of one reliable transfer: part
    numbering, the sliding window, selective acknowledgements, retransmission and
    the whole-resource hash.  An operation returns the new state and the frames
    it hands to [send], in order; the receiver also returns what it hands to
    [onComplete].  [now] is [time.Now()], [it] a map's iteration order. *)

From S2P Require Import Prelude Crypto.

Definition resTagAdv : byte := x01.
Definition resTagPart : byte := x02.
Definition resTagAck : byte := x03.
Definition resTagDone : byte := x04.
Definition resIDLen : nat := 16.
Definition maxResourceParts : Z := Z.shiftl 1 16.
Definition maxResourcePartSize : Z := Z.shiftl 1 20.
Definition maxResourceBytes : Z := Z.shiftl 256 20.
Definition resHdrAdv : Z := 1 + Z.of_nat resIDLen + 4 + 4 + 32.
Definition defaultResWindow : Z := 32.
Definition defaultResRTO : Z := 250 * 10 ^ 6.
Definition maxAckBitmapBytes : Z := 32.
Definition finishedTTL : Z := 2 * 60 * 10 ^ 9.
Definition maxFinished : Z := 1024.
(** [maxInflightMessages], reused as the receiver's limit. *)
Definition recv_limit : Z := 256.

(** ** Frames *)

Definition encodeAdv (id : bytes) (total partSize : Z) (whole : bytes) : bytes :=
  resTagAdv :: id ++ be_bytes 4 total ++ be_bytes 4 partSize ++ whole.
Definition encodePart (id : bytes) (index : Z) (data : bytes) : bytes :=
  resTagPart :: id ++ be_bytes 4 index ++ data.
Definition encodeAck (id : bytes) (base : Z) (bitmap : bytes) : bytes :=
  resTagAck :: id ++ be_bytes 4 base ++ [byte_of_Z (len bitmap)] ++ bitmap.
Definition encodeDone (id : bytes) : bytes := resTagDone :: id.
Definition frameID (b : bytes) : bytes := subslice b 1 (1 + resIDLen).
Definition frameTag (b : bytes) : byte := match b with t :: _ => t | [] => x00 end.

(** The big-endian word at an offset. *)
Definition word_at (b : bytes) (off : nat) : Z := be_val (subslice b off (off + 4)).

(** ** The sender *)

Record ResourceSender : Type := mkSender {
  s_id : bytes;
  s_parts : list bytes;
  s_whole : bytes;
  s_window : Z;
  s_rto : Z;
  s_base : Z;
  s_acked : list bool;
  s_sentAt : list Z;
  s_sentHigh : Z;
  s_done : option bool     (** [finished]: [Some true] after [finish(nil)], [Some false] after an error *)
}.

Inductive res_err : Type := errPartSize.

Definition maxPartLen (parts : list bytes) : Z :=
  fold_left (fun m p => if m <? len p then len p else m) parts 0.

Section Resource.
Context `{C : CryptoOps}.

(** [id] is the random identifier. *)
Definition NewResourceSender (id data : bytes) (partSize window rto : Z) : result res_err ResourceSender :=
  if partSize <=? 0 then Err errPartSize
  else
    let window := if window <=? 0 then defaultResWindow else window in
    let rto := if rto <=? 0 then defaultResRTO else rto in
    let parts := split_loop (length data) data (Z.to_nat partSize) 0 in
    let parts := if len parts =? 0 then [[]] else parts in
    Ok (mkSender id parts (sha256 data) window rto 0
          (repeat false (length parts)) (repeat 0 (length parts)) 0 None).

Definition set_acked (i : nat) (l : list bool) : list bool := <[i := true]> l.

(** Parts [from, limit) as frames, with their send times set to [now]. *)
Fixpoint send_parts (s : ResourceSender) (i : nat) (todo : nat) (now : Z) (sentAt : list Z) : list bytes * list Z :=
  match todo with
  | O => ([], sentAt)
  | S todo' =>
      let f := encodePart (s_id s) (u32 (Z.of_nat i)) (default [] (s_parts s !! i)) in
      let '(fs, sentAt) := send_parts s (S i) todo' now (<[i := now]> sentAt) in
      (f :: fs, sentAt)
  end.

Definition fillWindowLocked (now : Z) (s : ResourceSender) : ResourceSender * list bytes :=
  let limit := s_base s + s_window s in
  let limit := if len (s_parts s) <? limit then len (s_parts s) else limit in
  let '(out, sentAt) := send_parts s (Z.to_nat (s_sentHigh s)) (Z.to_nat (limit - s_sentHigh s)) now (s_sentAt s) in
  let high := if s_sentHigh s <? limit then limit else s_sentHigh s in
  (mkSender (s_id s) (s_parts s) (s_whole s) (s_window s) (s_rto s) (s_base s) (s_acked s) sentAt high (s_done s), out).

Fixpoint due_loop (s : ResourceSender) (now : Z) (i : nat) (todo : nat) (sentAt : list Z) : list bytes * list Z :=
  match todo with
  | O => ([], sentAt)
  | S todo' =>
      if negb (default false (s_acked s !! i)) && (s_rto s <=? now - default 0 (sentAt !! i)) then
        let f := encodePart (s_id s) (u32 (Z.of_nat i)) (default [] (s_parts s !! i)) in
        let '(fs, sentAt) := due_loop s now (S i) todo' (<[i := now]> sentAt) in
        (f :: fs, sentAt)
      else due_loop s now (S i) todo' sentAt
  end.

Definition dueRetransmitsLocked (now : Z) (s : ResourceSender) : ResourceSender * list bytes :=
  let limit := s_base s + s_window s in
  let limit := if s_sentHigh s <? limit then s_sentHigh s else limit in
  let '(out, sentAt) := due_loop s now (Z.to_nat (s_base s)) (Z.to_nat (limit - s_base s)) (s_sentAt s) in
  (mkSender (s_id s) (s_parts s) (s_whole s) (s_window s) (s_rto s) (s_base s) (s_acked s) sentAt (s_sentHigh s) (s_done s), out).

Definition finish (ok : bool) (s : ResourceSender) : ResourceSender :=
  match s_done s with
  | Some _ => s
  | None => mkSender (s_id s) (s_parts s) (s_whole s) (s_window s) (s_rto s) (s_base s) (s_acked s) (s_sentAt s) (s_sentHigh s) (Some ok)
  end.

Definition Start (now : Z) (s : ResourceSender) : ResourceSender * list bytes :=
  let adv := encodeAdv (s_id s) (u32 (len (s_parts s))) (u32 (maxPartLen (s_parts s))) (s_whole s) in
  let '(s, frames) := fillWindowLocked now s in
  (s, adv :: frames).

(** One tick of [retransmitLoop], which has returned once the sender finished. *)
Definition retransmitTick (now : Z) (s : ResourceSender) : ResourceSender * list bytes :=
  match s_done s with
  | Some _ => (s, [])
  | None =>
      let '(s, frames) := dueRetransmitsLocked now s in
      let '(s, more) := fillWindowLocked now s in
      (s, frames ++ more)
  end.

(** The timeout branch of [Wait]. *)
Definition Wait_timeout (s : ResourceSender) : ResourceSender := finish false s.

(** [for i := 0; i < base && i < len(acked); i++ { acked[i] = true }]. *)
Fixpoint ack_below (base : nat) (acked : list bool) : list bool :=
  match base, acked with
  | O, l => l
  | S b, _ :: t => true :: ack_below b t
  | S _, [] => []
  end.

(** The selective bits: bit [i] of the bitmap marks part [base + i]. *)
Fixpoint ack_bits (base : nat) (bitmap : bytes) (i : nat) (todo : nat) (acked : list bool) : list bool :=
  match todo with
  | O => acked
  | S todo' =>
      let acked :=
        if Z.testbit (byte_to_Z (nth (i / 8) bitmap x00)) (Z.of_nat (i mod 8))
        then <[(base + i)%nat := true]> acked else acked in
      ack_bits base bitmap (S i) todo' acked
  end.

Definition onAck (now : Z) (s : ResourceSender) (frame : bytes) : ResourceSender * list bytes :=
  if len frame <? 1 + Z.of_nat resIDLen + 4 + 1 then (s, [])
  else
    let base := word_at frame (1 + resIDLen) in
    let bmLen := byte_to_Z (nth (1 + resIDLen + 4) frame x00) in
    if len frame <? 1 + Z.of_nat resIDLen + 5 + bmLen then (s, [])
    else
      let bitmap := subslice frame (1 + resIDLen + 5) (1 + resIDLen + 5 + Z.to_nat bmLen) in
      let acked := ack_below (Z.to_nat base) (s_acked s) in
      let sbase := if s_base s <? base then base else s_base s in
      let acked := ack_bits (Z.to_nat base) bitmap 0 (Z.to_nat bmLen * 8) acked in
      let s := mkSender (s_id s) (s_parts s) (s_whole s) (s_window s) (s_rto s) sbase acked (s_sentAt s) (s_sentHigh s) (s_done s) in
      let complete := len (s_parts s) <=? s_base s in
      if complete then (finish true s, [])
      else fillWindowLocked now s.

Definition Sender_Feed (now : Z) (s : ResourceSender) (frame : bytes) : ResourceSender * list bytes :=
  if (len frame <? 1 + Z.of_nat resIDLen) || negb (bool_decide (frameID frame = s_id s)) then (s, [])
  else if bool_decide (frameTag frame = resTagAck) then onAck now s frame
  else if bool_decide (frameTag frame = resTagDone) then (finish true s, [])
  else (s, []).

(** ** The receiver *)

Record recvState : Type := mkRecv {
  rc_total : Z;
  rc_whole : bytes;
  rc_parts : list bytes;
  rc_got : list bool;
  rc_count : Z;
  rc_base : Z
}.

Record ResourceReceiver : Type := mkReceiver {
  r_byID : gmap bytes recvState;
  r_finished : gmap bytes Z
}.

Definition NewResourceReceiver : ResourceReceiver := mkReceiver ∅ ∅.

(** What a frame makes the receiver do. *)
Definition outcome : Type := ResourceReceiver * list bytes * list (bytes * bytes).

Definition onAdv (r : ResourceReceiver) (frame : bytes) : outcome :=
  if len frame <? resHdrAdv then (r, [], [])
  else
    let id := frameID frame in
    let total := word_at frame (1 + resIDLen) in
    let partSize := word_at frame (1 + resIDLen + 4) in
    if (total <=? 0) || (maxResourceParts <? total) then (r, [], [])
    else if maxResourcePartSize <? partSize then (r, [], [])
    else if (0 <? partSize) && (maxResourceBytes / partSize <? total) then (r, [], [])
    else
      let whole := subslice frame (1 + resIDLen + 8) (1 + resIDLen + 8 + 32) in
      match r_byID r !! id with
      | Some _ => (r, [], [])
      | None =>
          if recv_limit <=? Z.of_nat (size (r_byID r)) then (r, [], [])
          else
            let st := mkRecv total whole (repeat [] (Z.to_nat total)) (repeat false (Z.to_nat total)) 0 0 in
            (mkReceiver (<[id := st]> (r_byID r)) (r_finished r), [], [])
      end.

(** Byte [k] of the bitmap: bits for parts [base + 8k .. base + 8k + 7]. *)
Definition bitmap_byte (got : list bool) (base : nat) (k : nat) : Z :=
  fold_left (fun b i => if default false (got !! (base + 8 * k + i)%nat) then Z.lor b (Z.shiftl 1 (Z.of_nat i)) else b)
    (seq 0 8) 0.

(** Drop trailing zero bytes. *)
Fixpoint trim_zeros (l : bytes) : bytes :=
  match l with
  | [] => []
  | b :: t => match trim_zeros t with
              | [] => if byte_to_Z b =? 0 then [] else [b]
              | t' => b :: t'
              end
  end.

Definition ackBitmapLocked (st : recvState) : bytes :=
  let span := rc_total st - rc_base st in
  if span <=? 0 then []
  else
    let nbytes := (span + 7) / 8 in
    let nbytes := if maxAckBitmapBytes <? nbytes then maxAckBitmapBytes else nbytes in
    trim_zeros (map (fun k => byte_of_Z (bitmap_byte (rc_got st) (Z.to_nat (rc_base st)) k)) (seq 0 (Z.to_nat nbytes))).

(** [for base < total && got[base] { base++ }]. *)
Fixpoint advance_base (got : list bool) (base : nat) (fuel : nat) : nat :=
  match fuel with
  | O => base
  | S fuel' => if default false (got !! base) then advance_base got (S base) fuel' else base
  end.

Definition assembleLocked (st : recvState) : bytes := concat (rc_parts st).

(** Pruning of the finished table: expired entries, then arbitrary ones. *)
Definition prune_expired (now : Z) (m : gmap bytes Z) (it : list (bytes * Z)) : gmap bytes Z :=
  fold_left (fun m '(k, t) => if finishedTTL <=? now - t then delete k m else m) it m.

Fixpoint drop_some (m : gmap bytes Z) (it : list (bytes * Z)) : gmap bytes Z :=
  match it with
  | [] => m
  | (k, _) :: t => if Z.of_nat (size m) <? maxFinished then m else drop_some (delete k m) t
  end.

Definition rememberFinishedLocked (now : Z) (it1 it2 : list (bytes * Z)) (id : bytes) (m : gmap bytes Z) : gmap bytes Z :=
  let m :=
    if maxFinished <=? Z.of_nat (size m)
    then drop_some (prune_expired now m it1) it2
    else m in
  <[id := now]> m.

(** [st.got[idx] = true; st.parts[idx] = data; st.count++; base advances]. *)
Definition store_part (st : recvState) (idx : nat) (data : bytes) : recvState :=
  if default false (rc_got st !! idx) then st
  else
    let got := <[idx := true]> (rc_got st) in
    let base := advance_base got (Z.to_nat (rc_base st)) (Z.to_nat (rc_total st - rc_base st)) in
    mkRecv (rc_total st) (rc_whole st) (<[idx := data]> (rc_parts st)) got (rc_count st + 1) (Z.of_nat base).

Definition onPart (now : Z) (it1 it2 : list (bytes * Z)) (r : ResourceReceiver) (frame : bytes) : outcome :=
  if len frame <? 1 + Z.of_nat resIDLen + 4 then (r, [], [])
  else
    let id := frameID frame in
    let idx := word_at frame (1 + resIDLen) in
    let data := drop (1 + resIDLen + 4) frame in
    match r_byID r !! id with
    | None =>
        match r_finished r !! id with
        | Some _ => (r, [encodeDone id], [])
        | None => (r, [], [])
        end
    | Some st =>
        if (idx <? 0) || (rc_total st <=? idx) then (r, [], [])
        else
          let st := store_part st (Z.to_nat idx) data in
          let ackFrame := encodeAck id (u32 (rc_base st)) (ackBitmapLocked st) in
          if (rc_count st =? rc_total st) && bool_decide (sha256 (assembleLocked st) = rc_whole st) then
            (mkReceiver (delete id (r_byID r)) (rememberFinishedLocked now it1 it2 id (r_finished r)),
             [ackFrame; encodeDone id], [(id, assembleLocked st)])
          else (mkReceiver (<[id := st]> (r_byID r)) (r_finished r), [ackFrame], [])
    end.

Definition Receiver_Feed (now : Z) (it1 it2 : list (bytes * Z)) (r : ResourceReceiver) (frame : bytes) : outcome :=
  if len frame <? 1 + Z.of_nat resIDLen then (r, [], [])
  else if bool_decide (frameTag frame = resTagAdv) then onAdv r frame
  else if bool_decide (frameTag frame = resTagPart) then onPart now it1 it2 r frame
  else (r, [], []).

Definition pending (r : ResourceReceiver) : Z := Z.of_nat (size (r_byID r)).
End Resource.

(** ** Parsing what was encoded *)

Lemma subslice_mid {A} (a b c : list A) i j :
  i = length a -> j = (length a + length b)%nat -> subslice (a ++ b ++ c) i j = b.
Proof.
  intros -> ->. unfold subslice. rewrite drop_app_length.
  replace (length a + length b - length a)%nat with (length b) by lia. apply take_app_length.
Qed.

Lemma frameID_cons t id rest : length id = 16%nat -> frameID (t :: id ++ rest) = id.
Proof. intros H. unfold frameID. apply (subslice_mid [t] id rest); [done|]. cbn. unfold resIDLen. lia. Qed.

Lemma word_at_cons t id w rest :
  length id = 16%nat -> is_u32 w -> word_at (t :: id ++ be_bytes 4 w ++ rest) (1 + resIDLen) = w.
Proof.
  intros H Hw. unfold word_at.
  rewrite (subslice_mid (t :: id) (be_bytes 4 w) rest).
  - by apply be_val_u32.
  - cbn. unfold resIDLen. lia.
  - cbn [length]. rewrite length_be_bytes. unfold resIDLen. lia.
Qed.

Lemma length_frameID f : 1 + Z.of_nat resIDLen <= len f -> length (frameID f) = 16%nat.
Proof. intros H. unfold frameID, subslice. rewrite length_take, length_drop. unfold len, resIDLen in *. lia. Qed.

Lemma encodePart_parse id i data :
  length id = 16%nat -> is_u32 i ->
  frameTag (encodePart id i data) = resTagPart /\ frameID (encodePart id i data) = id /\
  word_at (encodePart id i data) (1 + resIDLen) = i /\ drop (1 + resIDLen + 4) (encodePart id i data) = data /\
  1 + Z.of_nat resIDLen + 4 <= len (encodePart id i data).
Proof.
  intros H Hi. unfold encodePart. split_and!; [done|by apply frameID_cons|by apply word_at_cons| |].
  - change (resTagPart :: id ++ be_bytes 4 i ++ data) with ((resTagPart :: id) ++ be_bytes 4 i ++ data).
    rewrite app_assoc. replace (1 + resIDLen + 4)%nat with (length ((resTagPart :: id) ++ be_bytes 4 i)); [apply drop_app_length|].
    rewrite length_app, length_be_bytes. cbn. unfold resIDLen. lia.
  - rewrite len_cons, !len_app, len_be_bytes. pose proof (len_nonneg data). unfold len, resIDLen in *. lia.
Qed.

(** ** The system: sender, receiver and a network that may lose, repeat and
    reorder frames *)

Section System.
Context `{C : CryptoOps}.
Variables (id data : bytes).

(** [y_sr] and [y_rs] are the frames ever sent in each direction: delivering one
    does not remove it, and nothing forces it to be delivered. *)
Record sys : Type := mkSys {
  y_s : ResourceSender;
  y_r : ResourceReceiver;
  y_sr : list bytes;
  y_rs : list bytes;
  y_out : list (bytes * bytes)
}.

Inductive step : sys -> sys -> Prop :=
| step_start now s r sr rs out s' fs :
    Start now s = (s', fs) -> step (mkSys s r sr rs out) (mkSys s' r (sr ++ fs) rs out)
| step_tick now s r sr rs out s' fs :
    retransmitTick now s = (s', fs) -> step (mkSys s r sr rs out) (mkSys s' r (sr ++ fs) rs out)
| step_timeout s r sr rs out :
    step (mkSys s r sr rs out) (mkSys (Wait_timeout s) r sr rs out)
| step_recv now it1 it2 f s r sr rs out r' fs ds :
    f ∈ sr -> Receiver_Feed now it1 it2 r f = (r', fs, ds) ->
    step (mkSys s r sr rs out) (mkSys s r' sr (rs ++ fs) (out ++ ds))
| step_foreign now it1 it2 f s r sr rs out r' fs ds :
    frameID f <> id -> Receiver_Feed now it1 it2 r f = (r', fs, ds) ->
    step (mkSys s r sr rs out) (mkSys s r' sr (rs ++ fs) (out ++ ds))
| step_ack now f s r sr rs out s' fs :
    f ∈ rs -> Sender_Feed now s f = (s', fs) ->
    step (mkSys s r sr rs out) (mkSys s' r (sr ++ fs) rs out).

Inductive reachable (init : sys) : sys -> Prop :=
| reach_refl : reachable init init
| reach_step y y' : reachable init y -> step y y' -> reachable init y'.

(** ** The invariant *)

Variable parts : list bytes.
Let n : nat := length parts.

Definition delivered (out : list (bytes * bytes)) : Prop := (id, data) ∈ out.

(** The sender's fixed data, and its progress. *)
Definition sender_ok (s : ResourceSender) (out : list (bytes * bytes)) : Prop :=
  s_id s = id /\ s_parts s = parts /\ s_whole s = sha256 data /\
  (s_base s < Z.of_nat n \/ delivered out) /\ (s_done s = Some true -> delivered out) /\
  0 <= s_base s /\ 0 <= s_sentHigh s <= Z.of_nat n.

(** A frame the sender may have sent. *)
Definition sender_frame (f : bytes) : Prop :=
  f = encodeAdv id (u32 (Z.of_nat n)) (u32 (maxPartLen parts)) (sha256 data) \/
  exists i p, parts !! i = Some p /\ f = encodePart id (u32 (Z.of_nat i)) p.

(** A reply of the receiver: what concerns us tells of delivery. *)
Definition receiver_frame (out : list (bytes * bytes)) (f : bytes) : Prop :=
  frameID f = id ->
  (frameTag f = resTagAck -> word_at f (1 + resIDLen) < Z.of_nat n \/ delivered out) /\
  (frameTag f = resTagDone -> delivered out).

Definition trues (l : list bool) : nat := length (List.filter (fun b => b) l).

Record recv_ok (st : recvState) : Prop := {
  ro_total : rc_total st = Z.of_nat n;
  ro_whole : rc_whole st = sha256 data;
  ro_parts : length (rc_parts st) = n;
  ro_got : length (rc_got st) = n;
  ro_data i : rc_got st !! i = Some true -> rc_parts st !! i = parts !! i;
  ro_count : rc_count st = Z.of_nat (trues (rc_got st));
  ro_base : 0 <= rc_base st <= Z.of_nat n;
  ro_prefix i : Z.of_nat i < rc_base st -> rc_got st !! i = Some true
}.

Definition receiver_ok (r : ResourceReceiver) (out : list (bytes * bytes)) : Prop :=
  (forall st, r_byID r !! id = Some st -> recv_ok st /\ rc_count st < Z.of_nat n) /\
  (is_Some (r_finished r !! id) -> delivered out).

Record inv (y : sys) : Prop := {
  inv_s : sender_ok (y_s y) (y_out y);
  inv_r : receiver_ok (y_r y) (y_out y);
  inv_sr : Forall sender_frame (y_sr y);
  inv_rs : Forall (receiver_frame (y_out y)) (y_rs y);
  inv_out : forall d, (id, d) ∈ y_out y -> d = data
}.

Lemma trues_all l : trues l = length l -> Forall (fun b => b = true) l.
Proof using. clear n.
  unfold trues. induction l as [|b l IH]; intros H; [constructor|]. cbn in H. destruct b; cbn in H.
  - constructor; [done|]. apply IH. lia.
  - exfalso. pose proof (filter_length_le (fun b => b) l). lia.
Qed.

Lemma trues_insert l i : l !! i = Some false -> trues (<[i := true]> l) = S (trues l).
Proof using. clear n.
  unfold trues. revert i. induction l as [|b l IH]; intros [|i] H; try done; cbn in H.
  - simplify_eq. done.
  - cbn. destruct b; cbn; rewrite IH by done; lia.
Qed.

Lemma trues_full l : Forall (fun b => b = true) l -> trues l = length l.
Proof using. unfold trues. induction 1 as [|b l -> H IH]; [done|]. cbn. by rewrite IH. Qed.

Lemma advance_base_spec got base fuel :
  (base <= advance_base got base fuel <= base + fuel)%nat /\
  forall i, (base <= i < advance_base got base fuel)%nat -> got !! i = Some true.
Proof using. clear n.
  revert base. induction fuel as [|fuel IH]; intros base; cbn [advance_base]; [split; lia|].
  destruct (got !! base) as [[|]|] eqn:E; cbn [default from_option Datatypes.id]; try (split; lia).
  destruct (IH (S base)) as [H1 H2]. split; [lia|]. intros i Hi.
  destruct (decide (i = base)) as [->|]; [done|]. apply H2. lia.
Qed.

Lemma store_part_ok st i p :
  recv_ok st -> parts !! i = Some p -> recv_ok (store_part st i p).
Proof.
  intros H Hp. apply lookup_lt_Some in Hp as Hi. fold n in Hi. unfold store_part.
  destruct (rc_got st !! i) as [b|] eqn:E.
  2: { apply lookup_ge_None in E. rewrite (ro_got _ H) in E. lia. }
  destruct b; cbn [default from_option Datatypes.id]; [done|]. destruct H as [H1 H2 H3 H4 H5 H6 H7 H8].
  destruct (advance_base_spec (<[i := true]> (rc_got st)) (Z.to_nat (rc_base st)) (Z.to_nat (rc_total st - rc_base st))) as [A1 A2].
  split; cbn [rc_total rc_whole rc_parts rc_got rc_count rc_base]; try done; try (by rewrite length_insert).
  - intros j Hj. destruct (decide (i = j)) as [<-|Hne].
    + rewrite list_lookup_insert_eq by lia. done.
    + rewrite (list_lookup_insert_ne (rc_got st)) in Hj by done.
      rewrite (list_lookup_insert_ne (rc_parts st)) by done. by apply H5.
  - rewrite trues_insert by done. lia.
  - lia.
  - intros j Hj. destruct (decide (Z.of_nat j < rc_base st)) as [Hlt|Hge].
    + destruct (decide (i = j)) as [<-|Hne]; [rewrite H8 in E by done; discriminate|].
      rewrite list_lookup_insert_ne by done. by apply H8.
    + apply A2. lia.
Qed.

Hypothesis parts_data : concat parts = data.
Hypothesis parts_max : Z.of_nat n < 2 ^ 32.
Hypothesis id_len : length id = 16%nat.
Hypothesis sha_len : forall m, len (sha256 m) = 32.

Lemma recv_ok_full st : recv_ok st -> rc_count st = Z.of_nat n -> assembleLocked st = data.
Proof.
  intros H Hc. unfold assembleLocked. rewrite <- parts_data. f_equal.
  assert (Hall : Forall (fun b => b = true) (rc_got st)).
  { apply trues_all. rewrite (ro_got _ H). rewrite (ro_count _ H) in Hc. lia. }
  apply list_eq. intros i. destruct (decide (i < n)%nat) as [Hi|Hi].
  - apply (ro_data _ H). destruct (lookup_lt_is_Some_2 (rc_got st) i) as [b Hb]; [rewrite (ro_got _ H); done|].
    rewrite Hb. f_equal. rewrite Forall_forall in Hall. apply Hall. by eapply list_elem_of_lookup_2.
  - rewrite !(proj2 (lookup_ge_None _ _)); [done|fold n; lia|rewrite (ro_parts _ H); lia].
Qed.

Lemma recv_ok_base st : recv_ok st -> rc_base st = Z.of_nat n -> rc_count st = Z.of_nat n.
Proof.
  intros H Hb. rewrite (ro_count _ H), trues_full, (ro_got _ H); [done|].
  apply Forall_forall. intros b [i Hi]%list_elem_of_lookup_1.
  rewrite (ro_prefix _ H) in Hi; [by simplify_eq|]. apply lookup_lt_Some in Hi. rewrite (ro_got _ H) in Hi. lia.
Qed.

(** ** The sender keeps the invariant *)

Definition fixed (s : ResourceSender) : Prop := s_id s = id /\ s_parts s = parts.

Lemma send_parts_frames s i todo now sa :
  fixed s -> (i + todo <= n)%nat -> Forall sender_frame (send_parts s i todo now sa).1.
Proof.
  intros [Hi Hp]. revert i sa. induction todo as [|todo IH]; intros i sa Hle; cbn [send_parts]; [constructor|].
  specialize (IH (S i) (<[i := now]> sa) ltac:(lia)).
  destruct (send_parts s (S i) todo now _) as [fs sa']. cbn [fst] in *. constructor; [|done].
  right. rewrite Hi, Hp. destruct (lookup_lt_is_Some_2 parts i) as [p Hpi]; [fold n; lia|].
  exists i, p. rewrite Hpi. done.
Qed.

Lemma due_loop_frames s now i todo sa :
  fixed s -> (0 < todo -> i + todo <= n)%nat -> Forall sender_frame (due_loop s now i todo sa).1.
Proof.
  intros [Hi Hp]. revert i sa. induction todo as [|todo IH]; intros i sa Hle; cbn [due_loop]; [constructor|].
  destruct (_ && _); [|apply IH; lia].
  specialize (IH (S i) (<[i := now]> sa) ltac:(lia)).
  destruct (due_loop s now (S i) todo _) as [fs sa']. cbn [fst] in *. constructor; [|done].
  right. rewrite Hi, Hp. destruct (lookup_lt_is_Some_2 parts i) as [p Hpi]; [fold n; lia|].
  exists i, p. rewrite Hpi. done.
Qed.

Lemma fillWindow_ok now s out :
  sender_ok s out -> sender_ok (fillWindowLocked now s).1 out /\ Forall sender_frame (fillWindowLocked now s).2.
Proof.
  intros (H1 & H2 & H3 & H4 & H5 & H6 & H7). unfold fillWindowLocked.
  assert (Hlen : len (s_parts s) = Z.of_nat n) by (by rewrite H2). rewrite Hlen.
  set (limit := if Z.of_nat n <? s_base s + s_window s then Z.of_nat n else s_base s + s_window s).
  assert (Hlim : limit <= Z.of_nat n) by (unfold limit; case_if; lia).
  pose proof (send_parts_frames s (Z.to_nat (s_sentHigh s)) (Z.to_nat (limit - s_sentHigh s)) now (s_sentAt s)) as Hf.
  destruct (send_parts _ _ _ _ _) as [fs sa]. cbn [fst snd] in *. split; [|apply Hf; [done|lia]].
  unfold sender_ok. cbn. split_and!; try done; case_if; lia.
Qed.

Lemma due_ok now s out :
  sender_ok s out -> sender_ok (dueRetransmitsLocked now s).1 out /\ Forall sender_frame (dueRetransmitsLocked now s).2.
Proof.
  intros (H1 & H2 & H3 & H4 & H5 & H6 & H7). unfold dueRetransmitsLocked.
  set (limit := if s_sentHigh s <? s_base s + s_window s then s_sentHigh s else s_base s + s_window s).
  assert (Hlim : limit <= Z.of_nat n) by (unfold limit; case_if; lia).
  pose proof (due_loop_frames s now (Z.to_nat (s_base s)) (Z.to_nat (limit - s_base s)) (s_sentAt s)) as Hf.
  destruct (due_loop _ _ _ _ _) as [fs sa]. cbn [fst snd] in *.
  split; [done|]. apply Hf; [done|lia].
Qed.

Lemma finish_ok b s out : (b = true -> delivered out) -> sender_ok s out -> sender_ok (finish b s) out.
Proof.
  intros Hb H. unfold finish. destruct (s_done s); [done|].
  destruct H as (H1 & H2 & H3 & H4 & H5 & H6 & H7). unfold sender_ok. cbn. split_and!; try done; try lia.
  intros E. apply Hb. by simplify_eq.
Qed.

Lemma word_at_range f off : 0 <= word_at f off < 2 ^ 32.
Proof.
  unfold word_at. pose proof (be_val_range (subslice f off (off + 4))) as H. split; [lia|].
  eapply Z.lt_le_trans; [apply H|]. change (2 ^ 32) with (256 ^ 4). apply Z.pow_le_mono_r; [lia|].
  unfold len, subslice. rewrite length_take. lia.
Qed.

Lemma onAck_ok now s f out :
  sender_ok s out -> receiver_frame out f -> frameID f = id -> frameTag f = resTagAck ->
  sender_ok (onAck now s f).1 out /\ Forall sender_frame (onAck now s f).2.
Proof.
  intros Hs Hf Hid Htag. destruct (Hf Hid) as [Hack _]. specialize (Hack Htag). unfold onAck.
  case_if; [done|]. case_if; [done|].
  set (base := word_at f (1 + resIDLen)) in *. pose proof (word_at_range f (1 + resIDLen)) as Hr. fold base in Hr.
  set (s1 := mkSender _ _ _ _ _ _ _ _ _ _).
  assert (H1 : sender_ok s1 out).
  { destruct Hs as (S1 & S2 & S3 & S4 & S5 & S6 & S7). unfold sender_ok, s1. cbn. split_and!; try done; try lia.
    - case_if; [done|done].
    - case_if; lia. }
  case_if; [|by apply fillWindow_ok].
  split; [|constructor]. apply finish_ok; [|done]. intros _. destruct H1 as (S1 & S2 & S3 & S4 & S5).
  destruct S4 as [S4|S4]; [|done]. exfalso. pose proof (f_equal length S2) as Hl. fold n in Hl. unfold len in *. lia.
Qed.

Lemma Sender_Feed_ok now s f out :
  sender_ok s out -> receiver_frame out f ->
  sender_ok (Sender_Feed now s f).1 out /\ Forall sender_frame (Sender_Feed now s f).2.
Proof.
  intros Hs Hf. unfold Sender_Feed. case_if; [by split; [|constructor]|].
  destruct Hs as (S1 & S2). rewrite S1 in *.
  case_bool_decide as Ht; [by apply onAck_ok|]. case_bool_decide as Ht'; [|by split; [|constructor]].
  split; [|constructor]. apply finish_ok; [|done]. intros _. by apply Hf.
Qed.

Lemma Start_ok now s out :
  sender_ok s out -> sender_ok (Start now s).1 out /\ Forall sender_frame (Start now s).2.
Proof.
  intros Hs. unfold Start. destruct (fillWindow_ok now s out Hs) as [H1 H2].
  destruct Hs as (S1 & S2 & S3 & _). destruct (fillWindowLocked now s) as [s' fs]. cbn [fst snd] in *.
  split; [done|]. constructor; [|done]. left. by rewrite S1, S2, S3.
Qed.

Lemma retransmitTick_ok now s out :
  sender_ok s out -> sender_ok (retransmitTick now s).1 out /\ Forall sender_frame (retransmitTick now s).2.
Proof.
  intros Hs. unfold retransmitTick. destruct (s_done s); [by split; [|constructor]|].
  destruct (due_ok now s out Hs) as [H1 H2]. destruct (dueRetransmitsLocked now s) as [s1 fs]. cbn [fst snd] in *.
  destruct (fillWindow_ok now s1 out H1) as [H3 H4]. destruct (fillWindowLocked now s1) as [s2 gs]. cbn [fst snd] in *.
  split; [done|]. by apply Forall_app.
Qed.

(** ** The receiver keeps the invariant *)

Lemma delivered_app out ds : delivered out -> delivered (out ++ ds).
Proof. unfold delivered. rewrite elem_of_app. auto. Qed.

Lemma receiver_frame_mono out ds f : receiver_frame out f -> receiver_frame (out ++ ds) f.
Proof.
  intros H Hid. destruct (H Hid) as [H1 H2]. split.
  - intros Ht. destruct (H1 Ht); [by left|right; by apply delivered_app].
  - intros Ht. by apply delivered_app, H2.
Qed.

Lemma sender_ok_mono s out ds : sender_ok s out -> sender_ok s (out ++ ds).
Proof.
  intros (H1 & H2 & H3 & H4 & H5 & H6). unfold sender_ok. split_and!; try done; try lia.
  - destruct H4; [by left|right; by apply delivered_app].
  - intros Hd. by apply delivered_app, H5.
Qed.

Lemma prune_expired_sub now m it k v : prune_expired now m it !! k = Some v -> m !! k = Some v.
Proof.
  unfold prune_expired. revert m. induction it as [|[k' t] it IH]; intros m H; [done|]. cbn in H.
  apply IH in H. case_if_in H; [|done]. by apply lookup_delete_Some in H as [_ H].
Qed.

Lemma drop_some_sub m it k v : drop_some m it !! k = Some v -> m !! k = Some v.
Proof.
  revert m. induction it as [|[k' t] it IH]; intros m H; [done|]. cbn in H. case_if_in H; [done|].
  apply IH in H. by apply lookup_delete_Some in H as [_ H].
Qed.

Lemma rememberFinished_sub now it1 it2 k m j v :
  rememberFinishedLocked now it1 it2 k m !! j = Some v -> j = k \/ m !! j = Some v.
Proof.
  unfold rememberFinishedLocked. intros H. apply lookup_insert_Some in H as [[-> _]|[_ H]]; [by left|right].
  case_if_in H; [|done]. by eapply prune_expired_sub, drop_some_sub.
Qed.

(** The result of feeding a frame, as far as our resource is concerned. *)
Definition feed_ok (r' : ResourceReceiver) (fs : list bytes) (ds out : list (bytes * bytes)) : Prop :=
  receiver_ok r' (out ++ ds) /\ Forall (receiver_frame (out ++ ds)) fs /\
  forall d, (id, d) ∈ ds -> d = data.

Lemma feed_ok_same r out : receiver_ok r out -> feed_ok r [] [] out.
Proof. intros H. unfold feed_ok. rewrite app_nil_r. split_and!; [done|constructor|]. intros d Hd. by apply not_elem_of_nil in Hd. Qed.

Lemma frameID_ack k b bm : length k = 16%nat -> frameID (encodeAck k b bm) = k.
Proof. intros H. unfold encodeAck. by apply frameID_cons. Qed.

Lemma frameID_done k : length k = 16%nat -> frameID (encodeDone k) = k.
Proof. intros H. unfold encodeDone. rewrite <- (app_nil_r k) at 1. by apply frameID_cons. Qed.

(** Replies about another resource do not concern us. *)
Lemma foreign_frames out k b bm : length k = 16%nat -> k <> id -> receiver_frame out (encodeAck k b bm) /\ receiver_frame out (encodeDone k).
Proof.
  intros Hl Hne. split; intros H; exfalso; apply Hne; [by rewrite frameID_ack in H|by rewrite frameID_done in H].
Qed.

Lemma onAdv_other r f : frameID f <> id -> r_byID (onAdv r f).1.1 !! id = r_byID r !! id /\
  r_finished (onAdv r f).1.1 = r_finished r /\ (onAdv r f).1.2 = [] /\ (onAdv r f).2 = [].
Proof.
  intros Hne. unfold onAdv. do 4 (case_if; [done|]). destruct (r_byID r !! frameID f); [done|]. case_if; [done|].
  cbn. by rewrite lookup_insert_ne.
Qed.

Lemma foreign_feed_ok now it1 it2 r f r' fs ds out :
  receiver_ok r out -> frameID f <> id -> Receiver_Feed now it1 it2 r f = (r', fs, ds) -> feed_ok r' fs ds out.
Proof.
  intros Hr Hne HF. unfold Receiver_Feed in HF. case_if_in HF; [simplify_eq; by apply feed_ok_same|].
  assert (Hlf : length (frameID f) = 16%nat) by by apply length_frameID.
  case_bool_decide as Ht.
  { destruct (onAdv_other r f Hne) as (A1 & A2 & A3 & A4). rewrite HF in *. cbn in *. subst.
    apply feed_ok_same. destruct Hr as [R1 R2]. split; [intros st Hst; rewrite A1 in Hst; by apply R1|by rewrite A2]. }
  case_bool_decide as Ht'; [|simplify_eq; by apply feed_ok_same].
  unfold onPart in HF. case_if_in HF; [simplify_eq; by apply feed_ok_same|].
  destruct (r_byID r !! frameID f) as [st|] eqn:E.
  2: { destruct (r_finished r !! frameID f); simplify_eq; [|by apply feed_ok_same].
       unfold feed_ok. rewrite app_nil_r. split_and!; [done|constructor; [|constructor]|].
       - by apply (foreign_frames out _ 0 []).
       - intros d Hd. by apply not_elem_of_nil in Hd. }
  case_if_in HF; [simplify_eq; by apply feed_ok_same|].
  set (st' := store_part st _ _) in *. destruct Hr as [R1 R2].
  destruct ((rc_count st' =? rc_total st') && _); simplify_eq; unfold feed_ok.
  - split_and!.
    + split; cbn.
      * rewrite lookup_delete_ne by done. intros st0 Hst0. by apply R1.
      * intros [v Hv]. apply rememberFinished_sub in Hv as [Hv|Hv]; [by rewrite Hv in Hne|].
        apply delivered_app, R2. by eexists.
    + constructor; [|constructor; [|constructor]]; by apply foreign_frames.
    + intros d Hd. apply list_elem_of_singleton in Hd. simplify_eq.
  - rewrite app_nil_r. split_and!.
    + split; cbn; [|done]. rewrite lookup_insert_ne by done. done.
    + constructor; [|constructor]. by apply foreign_frames.
    + intros d Hd. by apply not_elem_of_nil in Hd.
Qed.

Lemma adv_parse w1 w2 whole :
  is_u32 w1 -> is_u32 w2 -> length whole = 32%nat ->
  let f := encodeAdv id w1 w2 whole in
  frameTag f = resTagAdv /\ frameID f = id /\ word_at f (1 + resIDLen) = w1 /\
  subslice f (1 + resIDLen + 8) (1 + resIDLen + 8 + 32) = whole.
Proof using All.
  intros H1 H2 Hw. cbn zeta. unfold encodeAdv.
  split_and!; [done|by apply frameID_cons|by apply word_at_cons|].
  change (resTagAdv :: id ++ be_bytes 4 w1 ++ be_bytes 4 w2 ++ whole) with ((resTagAdv :: id) ++ be_bytes 4 w1 ++ be_bytes 4 w2 ++ whole).
  rewrite <- (app_nil_r whole) at 1. rewrite !app_assoc, <- (app_assoc _ whole).
  apply subslice_mid; rewrite !length_app, !length_be_bytes; cbn [length]; unfold resIDLen; lia.
Qed.

Lemma own_adv_ok now it1 it2 r r' fs ds out :
  receiver_ok r out ->
  Receiver_Feed now it1 it2 r (encodeAdv id (u32 (Z.of_nat n)) (u32 (maxPartLen parts)) (sha256 data)) = (r', fs, ds) ->
  feed_ok r' fs ds out.
Proof using All.
  intros Hr HF.
  destruct (adv_parse (u32 (Z.of_nat n)) (u32 (maxPartLen parts)) (sha256 data)) as (P1 & P2 & P3 & P4);
    [apply u32_is_u32|apply u32_is_u32|pose proof (sha_len data); unfold len in *; lia|].
  set (f := encodeAdv _ _ _ _) in *. unfold Receiver_Feed in HF. case_if_in HF; [simplify_eq; by apply feed_ok_same|].
  rewrite P1, bool_decide_eq_true_2 in HF by done. unfold onAdv in HF. rewrite P2, P3, P4 in HF.
  rewrite u32_id in HF by (unfold is_u32; lia).
  do 4 (case_if_in HF; [simplify_eq; by apply feed_ok_same|]).
  destruct (r_byID r !! id) eqn:E; [simplify_eq; by apply feed_ok_same|].
  case_if_in HF; simplify_eq; [by apply feed_ok_same|]. apply feed_ok_same. destruct Hr as [R1 R2].
  split; cbn; [|done]. intros st Hst. rewrite lookup_insert_eq in Hst. simplify_eq. rewrite Nat2Z.id.
  split; [|cbn; lia]. split; cbn; try done; try (by rewrite repeat_length).
  - intros i Hi. rewrite lookup_repeat in Hi. by case_if_in Hi.
  - unfold trues. clear. induction n as [|k IH]; [done|]. exact IH.
  - lia.
  - intros i Hi. lia.
Qed.

Lemma own_part_ok now it1 it2 r i p r' fs ds out :
  receiver_ok r out -> parts !! i = Some p ->
  Receiver_Feed now it1 it2 r (encodePart id (u32 (Z.of_nat i)) p) = (r', fs, ds) -> feed_ok r' fs ds out.
Proof using All.
  intros Hr Hp HF. apply lookup_lt_Some in Hp as Hi. fold n in Hi.
  assert (Hu : u32 (Z.of_nat i) = Z.of_nat i) by (apply u32_id; unfold is_u32; lia). rewrite Hu in HF.
  destruct (encodePart_parse id (Z.of_nat i) p id_len) as (P1 & P2 & P3 & P4 & P5); [unfold is_u32; lia|].
  set (f := encodePart _ _ _) in *. unfold Receiver_Feed in HF. case_if_in HF; [simplify_eq; by apply feed_ok_same|].
  rewrite P1 in HF. rewrite (bool_decide_eq_false_2 (resTagPart = resTagAdv)) in HF by done.
  rewrite (bool_decide_eq_true_2 (resTagPart = resTagPart)) in HF by done.
  unfold onPart in HF. rewrite P2, P3, P4 in HF. case_if_in HF; [lia|].
  pose proof Hr as [R1 R2]. destruct (r_byID r !! id) as [st|] eqn:E.
  2: { destruct (r_finished r !! id) eqn:Ef; simplify_eq; [|by apply feed_ok_same].
       unfold feed_ok. rewrite app_nil_r. split_and!; [done|constructor; [|constructor]|].
       - intros _. split; [done|]. intros _. apply R2. by eexists.
       - intros d Hd. by apply not_elem_of_nil in Hd. }
  destruct (R1 st eq_refl) as [Hok Hcnt]. rewrite Nat2Z.id in HF.
  case_if_in HF; [simplify_eq; by apply feed_ok_same|].
  pose proof (store_part_ok st i p Hok Hp) as Hok'. set (st' := store_part st i p) in *.
  assert (Hle : rc_count st' <= Z.of_nat n).
  { rewrite (ro_count _ Hok'). pose proof (ro_got _ Hok') as Hg. pose proof (filter_length_le (fun b : bool => b) (rc_got st')). unfold trues. lia. }
  assert (Hub : u32 (rc_base st') = rc_base st').
  { apply u32_id. pose proof (ro_base _ Hok'). unfold is_u32. lia. }
  rewrite Hub in HF.
  destruct (Z.eqb_spec (rc_count st') (rc_total st')) as [Ec|Ec]; cbn [andb] in HF.
  - rewrite (ro_total _ Hok') in Ec. rewrite (recv_ok_full _ Hok' Ec), bool_decide_eq_true_2 in HF by by rewrite (ro_whole _ Hok').
    simplify_eq. unfold feed_ok. assert (Hdel : delivered (out ++ [(id, data)])).
    { unfold delivered. apply elem_of_app. right. by apply list_elem_of_singleton. }
    split_and!.
    + split; cbn; [|done]. rewrite lookup_delete_eq. done.
    + constructor; [|constructor; [|constructor]]; intros _; split; try done; auto.
    + intros d Hd. apply list_elem_of_singleton in Hd. by simplify_eq.
  - simplify_eq. unfold feed_ok. rewrite app_nil_r. rewrite (ro_total _ Hok') in Ec.
    split_and!.
    + split; cbn; [|done]. rewrite lookup_insert_eq. intros st0 Hst0. simplify_eq. split; [done|lia].
    + constructor; [|constructor]. intros _. split; [|done]. intros _. left. unfold encodeAck.
      rewrite word_at_cons; [|done|rewrite <- Hub; apply u32_is_u32].
      pose proof (ro_base _ Hok'). destruct (Z.eq_dec (rc_base st') (Z.of_nat n)) as [Eb|Eb]; [|lia].
      by apply (recv_ok_base _ Hok') in Eb.
    + intros d Hd. by apply not_elem_of_nil in Hd.
Qed.

Lemma step_inv y y' : inv y -> step y y' -> inv y'.
Proof using All.
  intros [I1 I2 I3 I4 I5] Hs. destruct Hs as
    [now s r sr rs out s' fs H|now s r sr rs out s' fs H|s r sr rs out
    |now it1 it2 f s r sr rs out r' fs ds Hf H|now it1 it2 f s r sr rs out r' fs ds Hf H
    |now f s r sr rs out s' fs Hf H]; cbn in *.
  - destruct (Start_ok now s out I1) as [H1 H2]. rewrite H in *. split; cbn; try done. by apply Forall_app.
  - destruct (retransmitTick_ok now s out I1) as [H1 H2]. rewrite H in *. split; cbn; try done. by apply Forall_app.
  - split; cbn; try done. by apply finish_ok.
  - assert (Hfeed : feed_ok r' fs ds out).
    { rewrite Forall_forall in I3. destruct (I3 f Hf) as [->|(i & p & Hp & ->)]; [by eapply own_adv_ok|by eapply own_part_ok]. }
    destruct Hfeed as (F1 & F2 & F3). split; cbn; [by apply sender_ok_mono|done|done| |].
    + apply Forall_app. split; [|done]. eapply Forall_impl; [exact I4|]. intros g. apply receiver_frame_mono.
    + intros d [Hd|Hd]%elem_of_app; [by apply I5|by apply F3].
  - destruct (foreign_feed_ok now it1 it2 r f r' fs ds out I2 Hf H) as (F1 & F2 & F3).
    split; cbn; [by apply sender_ok_mono|done|done| |].
    + apply Forall_app. split; [|done]. eapply Forall_impl; [exact I4|]. intros g. apply receiver_frame_mono.
    + intros d [Hd|Hd]%elem_of_app; [by apply I5|by apply F3].
  - rewrite Forall_forall in I4. destruct (Sender_Feed_ok now s f out I1 (I4 f Hf)) as [H1 H2]. rewrite H in *.
    split; cbn; try done; [by apply Forall_app|by apply Forall_forall].
Qed.

Lemma reachable_inv y0 y : inv y0 -> reachable y0 y -> inv y.
Proof using All. intros H0. induction 1; [done|]. by eapply step_inv. Qed.
End System.

(** ** Theorems *)

Section Theorems.
Context `{C : CryptoOps} `{L : !CryptoLaws C}.

Definition init_sys (s : ResourceSender) : sys := mkSys s NewResourceReceiver [] [] [].

Lemma sender_parts id data partSize window rto s :
  NewResourceSender id data partSize window rto = Ok s ->
  s_id s = id /\ concat (s_parts s) = data /\ s_parts s <> [] /\ s_whole s = sha256 data /\ s_base s = 0 /\
  s_sentHigh s = 0 /\ s_done s = None /\ 0 < s_window s /\ Forall (fun p => len p <= partSize) (s_parts s).
Proof.
  unfold NewResourceSender. case_if; [done|]. intros H. simplify_eq.
  cbn [s_id s_parts s_whole s_base s_sentHigh s_done s_window].
  destruct (split_loop_spec (length data) data (Z.to_nat partSize) 0) as (H1 & H2 & H3 & H4); [lia|lia|].
  rewrite drop_0 in H1. set (l := split_loop _ _ _ _) in *.
  split_and!; try done; [| | |].
  - destruct (len l =? 0) eqn:E; [|done]. apply len_zero in E. rewrite E in H1. cbn in *. by rewrite <- H1.
  - destruct (len l =? 0) eqn:E; [done|]. intros Hl. by apply len_zero in Hl; congruence.
  - case_if; [done|lia].
  - destruct (len l =? 0) eqn:E.
    + constructor; [|constructor]. rewrite len_nil. lia.
    + eapply Forall_impl; [exact H2|]. cbn. unfold len. lia.
Qed.

(** C10: Over a network that loses, repeats and reorders frames, and whatever
    other resources the receiver is handling, a sender that reports success has
    had its data delivered, and nothing but that data is ever delivered under
    its identifier. *)
Theorem resource_safety id data partSize window rto s y :
  length id = 16%nat -> NewResourceSender id data partSize window rto = Ok s -> len (s_parts s) < 2 ^ 32 ->
  reachable id (init_sys s) y ->
  (s_done (y_s y) = Some true -> (id, data) ∈ y_out y) /\ (forall d, (id, d) ∈ y_out y -> d = data).
Proof using L.
  intros Hid Hs Hn Hr. destruct (sender_parts _ _ _ _ _ _ Hs) as (S1 & S2 & S3 & S4 & S5 & S6 & S7 & _).
  assert (H0 : inv id data (s_parts s) (init_sys s)).
  { split; cbn; [|split; [done|by intros [v ?]]|constructor|constructor|intros d Hd; by apply not_elem_of_nil in Hd].
    unfold sender_ok. rewrite S5, S6, S7. split_and!; try done; [left|lia].
    destruct (s_parts s); [done|]. cbn. lia. }
  apply (reachable_inv id data (s_parts s) S2 Hn Hid sha256_len) in Hr; [|done].
  destruct Hr as [(_ & _ & _ & _ & H & _) _ _ _ H']. done.
Qed.
End Theorems.

Definition sample_id : bytes := repeat x0a 16.
Definition sample_sender : ResourceSender :=
  mkSender sample_id [[x01; x02]] (@sha256 toy_ops [x01; x02]) 32 defaultResRTO 0 [false] [0] 0 None.

Lemma resource_safety_witness :
  exists y, reachable (C := toy_ops) sample_id (init_sys sample_sender) y /\ s_done (y_s y) = Some true /\
    (sample_id, [x01; x02]) ∈ y_out y.
Proof.
  assert (H : exists y, reachable (C := toy_ops) sample_id (init_sys sample_sender) y /\ s_done (y_s y) = Some true).
  { eexists. split.
    - eapply reach_step; [eapply reach_step; [eapply reach_step; [eapply reach_step; [apply reach_refl|]|]|]|].
      + apply (step_start _ 0). vm_compute. reflexivity.
      + eapply (step_recv _ 1 [] []); [left|vm_compute; reflexivity].
      + eapply (step_recv _ 2 [] []); [right; left|vm_compute; reflexivity].
      + eapply (step_ack _ 3); [left|vm_compute; reflexivity].
    - reflexivity. }
  destruct H as (y & Hr & Hd). exists y. split; [exact Hr|]. split; [exact Hd|].
  apply (@resource_safety toy_ops toy_laws sample_id [x01; x02] 4 32 0 sample_sender y);
    [reflexivity|vm_compute; reflexivity|vm_compute; reflexivity|exact Hr|exact Hd].
Defined.

(** An advertisement repeated after completion makes the receiver start over, and
    the parts repeated after it are delivered a second time. *)
Example duplicate_advertisement_redelivers :
  let adv := encodeAdv sample_id 1 2 (@sha256 toy_ops [x01; x02]) in
  let part := encodePart sample_id 0 [x01; x02] in
  let '(r1, _, d1) := @Receiver_Feed toy_ops 0 [] [] NewResourceReceiver adv in
  let '(r2, _, d2) := @Receiver_Feed toy_ops 0 [] [] r1 part in
  let '(r3, _, d3) := @Receiver_Feed toy_ops 0 [] [] r2 adv in
  let '(r4, _, d4) := @Receiver_Feed toy_ops 0 [] [] r3 part in
  d2 = [(sample_id, [x01; x02])] /\ d4 = [(sample_id, [x01; x02])].
Proof. vm_compute. split; reflexivity. Qed.

(** When every part has arrived but the hash is wrong, the acknowledgement still
    covers the whole resource, so the sender reports success. *)
Example hash_mismatch_acknowledged :
  let adv := encodeAdv sample_id 1 2 (repeat x00 32) in
  let part := encodePart sample_id 0 [x01; x02] in
  let '(r1, _, _) := @Receiver_Feed toy_ops 0 [] [] NewResourceReceiver adv in
  let '(r2, fs, ds) := @Receiver_Feed toy_ops 0 [] [] r1 part in
  match fs with
  | [ack] => ds = [] /\ s_done (Sender_Feed 0 sample_sender ack).1 = Some true
  | _ => False
  end.
Proof. vm_compute. split; reflexivity. Qed.
