(* ===== verification/LinkProgress.v ===== *)
(** * Progress of reliable resources (internal/link/resource.go)

    [LinkResource] shows that a transfer is safe over a network that loses,
    repeats and reorders frames; this file shows what it achieves once the
    network behaves.  The coupling of the sender's acknowledged parts with the
    receiver's received ones is an invariant of every history; from any state it
    reaches, a round in which one retransmission tick and its replies get through
    moves the sender's window past every part it covered.  The advertisement is
    the exception: it is sent once, and a transfer whose advertisement is lost
    never starts. *)

From S2P Require Import Prelude Crypto LinkResource.

(** ** Acknowledgement bitmaps *)

(** Bit [j] of a bitmap, as [onAck] tests it. *)
Definition bm_bit (bm : bytes) (j : nat) : bool :=
  Z.testbit (byte_to_Z (nth (j / 8) bm x00)) (Z.of_nat (j mod 8)).

Lemma testbit_or_fold (g : nat -> bool) l b0 j :
  Z.testbit (fold_left (fun b i => if g i then Z.lor b (Z.shiftl 1 (Z.of_nat i)) else b) l b0) (Z.of_nat j) = true ->
  Z.testbit b0 (Z.of_nat j) = true \/ g j = true.
Proof.
  revert b0. induction l as [|i l IH]; intros b0 H; [by left|]. cbn in H. apply IH in H as [H|H]; [|by right].
  destruct (g i) eqn:E; [|by left]. rewrite Z.lor_spec in H. apply orb_true_iff in H as [H|H]; [by left|].
  rewrite Z.shiftl_spec in H by lia. destruct (Z.eq_dec (Z.of_nat j) (Z.of_nat i)) as [Ej|Ej].
  - right. by replace j with i by lia.
  - exfalso. destruct (Z_lt_le_dec (Z.of_nat j) (Z.of_nat i)) as [Hl|Hl].
    + rewrite Z.testbit_neg_r in H by lia. done.
    + rewrite (Z.bits_above_log2 1) in H by (cbn; lia). done.
Qed.

Lemma bitmap_byte_bit got base k j :
  (j < 8)%nat -> Z.testbit (byte_to_Z (byte_of_Z (bitmap_byte got base k))) (Z.of_nat j) = true ->
  got !! (base + 8 * k + j)%nat = Some true.
Proof.
  intros Hj. rewrite byte_to_of_Z. change 256 with (2 ^ 8). rewrite Z.mod_pow2_bits_low by lia.
  unfold bitmap_byte. intros H.
  apply (testbit_or_fold (fun i => default false (got !! (base + 8 * k + i)%nat))) in H as [H|H].
  - by rewrite Z.testbit_0_l in H.
  - by destruct (got !! _) as [[|]|].
Qed.

Lemma nth_trim_zeros l k : nth k (trim_zeros l) x00 = nth k l x00.
Proof.
  revert k. induction l as [|b l IH]; intros k; [done|]. cbn [trim_zeros].
  destruct (trim_zeros l) as [|c t] eqn:E.
  - case_if.
    + assert (Hb : b = x00) by (apply byte_to_Z_inj; change (byte_to_Z x00) with 0; lia).
      destruct k; cbn; [done|]. rewrite <- IH. by destruct k.
    + destruct k; cbn; [done|]. rewrite <- IH. by destruct k.
  - destruct k; cbn [nth]; [done|]. by rewrite <- IH.
Qed.

Lemma length_trim_zeros l : (length (trim_zeros l) <= length l)%nat.
Proof.
  induction l as [|b l IH]; [done|]. cbn [trim_zeros]. destruct (trim_zeros l); cbn in *; [case_if; cbn; lia|lia].
Qed.

Lemma ackBitmap_len st : len (ackBitmapLocked st) <= maxAckBitmapBytes.
Proof.
  unfold ackBitmapLocked. case_if; [by rewrite len_nil|]. unfold len.
  eapply Z.le_trans; [apply inj_le, length_trim_zeros|].
  rewrite length_map, length_seq. case_if; [reflexivity|]. unfold maxAckBitmapBytes in *.
  assert (0 <= (rc_total st - rc_base st + 7) / 8) by (apply Z.div_pos; lia). lia.
Qed.

(** A bit the receiver sets stands for a part it has. *)
Lemma ackBitmap_bit st j :
  bm_bit (ackBitmapLocked st) j = true -> rc_got st !! (Z.to_nat (rc_base st) + j)%nat = Some true.
Proof.
  unfold bm_bit, ackBitmapLocked. case_if.
  { destruct (j / 8)%nat; cbn; by rewrite Z.testbit_0_l. }
  rewrite nth_trim_zeros. set (nb := Z.to_nat (if maxAckBitmapBytes <? _ then _ else _)). intros H.
  assert (Hm : (j mod 8 < 8)%nat) by (apply Nat.mod_upper_bound; lia).
  assert (Hj : j = (8 * (j / 8) + j mod 8)%nat) by (apply Nat.div_mod_eq).
  destruct (Nat.lt_ge_cases (j / 8)%nat nb) as [Hlt|Hge].
  - rewrite (nth_indep _ _ (byte_of_Z (bitmap_byte (rc_got st) (Z.to_nat (rc_base st)) 0))) in H
      by (rewrite length_map, length_seq; lia).
    rewrite (map_nth (fun k => byte_of_Z (bitmap_byte (rc_got st) (Z.to_nat (rc_base st)) k))) in H.
    rewrite seq_nth in H by lia. apply bitmap_byte_bit in H; [|done].
    by replace (Z.to_nat (rc_base st) + j)%nat with (Z.to_nat (rc_base st) + 8 * (0 + j / 8) + j mod 8)%nat by lia.
  - rewrite nth_overflow in H by (rewrite length_map, length_seq; lia). change (byte_to_Z x00) with 0 in H.
    by rewrite Z.testbit_0_l in H.
Qed.

Lemma ack_below_true b l k : ack_below b l !! k = Some true -> l !! k = Some true \/ (k < b)%nat.
Proof.
  revert l k. induction b as [|b IH]; intros [|x l] k H; cbn in *; try by left.
  destruct k as [|k]; cbn in *; [right; lia|]. apply IH in H as [H|H]; [by left|right; lia].
Qed.

Lemma ack_bits_true b bm i todo l k :
  ack_bits b bm i todo l !! k = Some true ->
  l !! k = Some true \/ exists j, k = (b + j)%nat /\ bm_bit bm j = true.
Proof.
  revert i l. induction todo as [|todo IH]; intros i l H; [by left|]. cbn [ack_bits] in H.
  apply IH in H as [H|H]; [|by right]. change (Z.testbit _ _) with (bm_bit bm i) in H.
  destruct (bm_bit bm i) eqn:E; [|by left].
  destruct (decide (k = (b + i)%nat)) as [->|Hne]; [right; by exists i|].
  rewrite list_lookup_insert_ne in H by done. by left.
Qed.

(** ** What an acknowledgement does to the sender *)

Section Sender.
Context `{C : CryptoOps}.

(** The fields no operation of the sender changes. *)
Definition same_transfer (s s' : ResourceSender) : Prop :=
  s_id s' = s_id s /\ s_parts s' = s_parts s /\ s_window s' = s_window s /\ s_rto s' = s_rto s.

(** As far as acknowledgements go, the sender did not move. *)
Definition same_progress (s s' : ResourceSender) : Prop :=
  same_transfer s s' /\ s_base s' = s_base s /\ s_acked s' = s_acked s.

Lemma same_transfer_trans s1 s2 s3 : same_transfer s1 s2 -> same_transfer s2 s3 -> same_transfer s1 s3.
Proof. unfold same_transfer. intros (A & B & D & E) (A' & B' & D' & E'). split_and!; congruence. Qed.

Lemma fillWindow_same now s : same_progress s (fillWindowLocked now s).1 /\ s_done (fillWindowLocked now s).1 = s_done s.
Proof. unfold fillWindowLocked. by destruct (send_parts _ _ _ _ _). Qed.

Lemma due_same now s : same_progress s (dueRetransmitsLocked now s).1 /\ s_done (dueRetransmitsLocked now s).1 = s_done s.
Proof. unfold dueRetransmitsLocked. by destruct (due_loop _ _ _ _ _). Qed.

Lemma finish_same b s : same_progress s (finish b s).
Proof. unfold finish. by destruct (s_done s). Qed.

Lemma retransmitTick_same now s :
  same_progress s (retransmitTick now s).1 /\ s_done (retransmitTick now s).1 = s_done s.
Proof.
  unfold retransmitTick. destruct (s_done s) eqn:E; [done|].
  destruct (due_same now s) as [[H1 H2] H3]. destruct (dueRetransmitsLocked now s) as [s1 fs].
  destruct (fillWindow_same now s1) as [[H4 H5] H6]. destruct (fillWindowLocked now s1) as [s2 gs].
  cbn in *. split; [split; [by eapply same_transfer_trans|]|]; [split; [destruct H2, H5|destruct H2, H5]; congruence|congruence].
Qed.

Lemma Start_same now s : same_progress s (Start now s).1 /\ s_done (Start now s).1 = s_done s.
Proof. unfold Start. pose proof (fillWindow_same now s). by destruct (fillWindowLocked now s). Qed.

Lemma encodeAck_parse id b bm :
  length id = 16%nat -> is_u32 b -> len bm <= maxAckBitmapBytes ->
  let f := encodeAck id b bm in
  word_at f (1 + resIDLen) = b /\ byte_to_Z (nth (1 + resIDLen + 4) f x00) = len bm /\
  subslice f (1 + resIDLen + 5) (1 + resIDLen + 5 + Z.to_nat (len bm)) = bm /\
  len f = 1 + Z.of_nat resIDLen + 5 + len bm.
Proof.
  intros Hid Hb Hbm. unfold maxAckBitmapBytes in Hbm. pose proof (len_nonneg bm). cbn zeta. unfold encodeAck.
  set (pre := resTagAck :: id ++ be_bytes 4 b).
  assert (Hpre : length pre = 21%nat) by (unfold pre; cbn [length]; rewrite length_app, length_be_bytes; lia).
  split_and!.
  - by apply word_at_cons.
  - change (resTagAck :: id ++ be_bytes 4 b ++ [byte_of_Z (len bm)] ++ bm)
      with ((resTagAck :: id) ++ be_bytes 4 b ++ [byte_of_Z (len bm)] ++ bm).
    rewrite app_assoc. change ((resTagAck :: id) ++ be_bytes 4 b) with pre.
    rewrite app_nth2 by (unfold resIDLen; lia). rewrite Hpre. cbn [Nat.sub app resIDLen Nat.add nth].
    rewrite byte_to_of_Z, Z.mod_small; lia.
  - change (resTagAck :: id ++ be_bytes 4 b ++ [byte_of_Z (len bm)] ++ bm)
      with ((resTagAck :: id) ++ be_bytes 4 b ++ [byte_of_Z (len bm)] ++ bm).
    rewrite !app_assoc. change ((resTagAck :: id) ++ be_bytes 4 b) with pre.
    rewrite <- (app_nil_r bm) at 2. apply subslice_mid; rewrite length_app, Hpre; cbn [length];
      unfold resIDLen, len; lia.
  - rewrite len_cons, !len_app, len_be_bytes, len_cons, len_nil. unfold len, resIDLen in *. lia.
Qed.

(** An acknowledgement of [base] [b] moves the window to [b], marks what the
    acknowledgement covers and nothing else, and completes the transfer when the
    window has passed the last part. *)
Lemma Sender_Feed_ack now s b bm :
  length (s_id s) = 16%nat -> is_u32 b -> len bm <= maxAckBitmapBytes ->
  let s' := (Sender_Feed now s (encodeAck (s_id s) b bm)).1 in
  same_transfer s s' /\ s_base s' = Z.max (s_base s) b /\
  (forall k, s_acked s' !! k = Some true ->
     s_acked s !! k = Some true \/ Z.of_nat k < b \/ exists j, k = (Z.to_nat b + j)%nat /\ bm_bit bm j = true) /\
  (s_done s' = s_done s /\ s_base s' < len (s_parts s) \/ s_done s' = s_done (finish true s)).
Proof.
  intros Hid Hb Hbm. destruct (encodeAck_parse (s_id s) b bm Hid Hb Hbm) as (P1 & P2 & P3 & P4).
  assert (HID : frameID (encodeAck (s_id s) b bm) = s_id s) by by apply frameID_ack.
  set (f := encodeAck (s_id s) b bm) in *. cbn zeta. unfold Sender_Feed.
  pose proof (len_nonneg bm) as Hnn. rewrite (proj2 (Z.ltb_ge _ _)) by lia. rewrite HID, bool_decide_eq_true_2 by done.
  cbn [negb orb]. rewrite (bool_decide_eq_true_2 (frameTag f = resTagAck)) by done.
  unfold onAck. rewrite P1, P2, P3, (proj2 (Z.ltb_ge _ _)) by lia. rewrite (proj2 (Z.ltb_ge _ _)) by lia.
  set (s1 := mkSender _ _ _ _ _ _ _ _ _ _).
  assert (H1 : same_transfer s s1 /\ s_base s1 = Z.max (s_base s) b /\ s_done s1 = s_done s).
  { unfold s1. cbn. split_and!; try done. case_if; lia. }
  assert (H2 : forall k, s_acked s1 !! k = Some true ->
    s_acked s !! k = Some true \/ Z.of_nat k < b \/ exists j, k = (Z.to_nat b + j)%nat /\ bm_bit bm j = true).
  { intros k Hk. unfold s1 in Hk. cbn in Hk. apply ack_bits_true in Hk as [Hk|Hk]; [|by right; right].
    apply ack_below_true in Hk as [Hk|Hk]; [by left|right; left; lia]. }
  destruct H1 as (H1 & H3 & H4). case_if.
  - destruct (finish_same true s1) as (F1 & F2 & F3). cbn [fst].
    split; [exact (same_transfer_trans _ _ _ H1 F1)|]. split; [lia|]. split; [by rewrite F3|].
    right.
    unfold finish. rewrite H4. destruct (s_done s) eqn:E; [congruence|done].
  - destruct (fillWindow_same now s1) as ((F1 & F2 & F3) & F4).
    split; [exact (same_transfer_trans _ _ _ H1 F1)|]. split; [lia|]. split; [by rewrite F3|].
    left. split; [congruence|]. change (s_parts s1) with (s_parts s) in *. lia.
Qed.

Lemma Sender_Feed_done now s :
  length (s_id s) = 16%nat -> Sender_Feed now s (encodeDone (s_id s)) = (finish true s, []).
Proof.
  intros Hid. unfold Sender_Feed. rewrite frameID_done by done.
  rewrite (proj2 (Z.ltb_ge _ _)) by (unfold encodeDone, resIDLen, len; cbn; lia).
  by rewrite bool_decide_eq_true_2 by done.
Qed.

(** A frame about something else changes nothing. *)
Lemma Sender_Feed_other now s f : frameID f <> s_id s -> Sender_Feed now s f = (s, []).
Proof. intros H. unfold Sender_Feed. rewrite (bool_decide_eq_false_2 (frameID f = s_id s)) by done. by rewrite orb_true_r. Qed.
End Sender.

(** ** What a frame does to the receiver *)

Lemma advance_base_stop got base fuel :
  (advance_base got base fuel < base + fuel)%nat -> got !! advance_base got base fuel <> Some true.
Proof.
  revert base. induction fuel as [|fuel IH]; intros base H; cbn [advance_base] in *; [lia|].
  destruct (got !! base) as [[|]|] eqn:E; cbn [default from_option Datatypes.id] in *; try congruence.
  apply IH. lia.
Qed.

(** The receiver's window only moves forward, over parts it has, and stops at a
    part it lacks. *)
Lemma store_part_moves (n : nat) st i p :
  rc_total st = Z.of_nat n -> length (rc_got st) = n -> 0 <= rc_base st <= Z.of_nat n -> (i < n)%nat ->
  rc_got st !! Z.to_nat (rc_base st) <> Some true ->
  let st' := store_part st i p in
  rc_got st' !! i = Some true /\ (forall k, rc_got st !! k = Some true -> rc_got st' !! k = Some true) /\
  rc_base st <= rc_base st' /\ rc_got st' !! Z.to_nat (rc_base st') <> Some true.
Proof.
  intros Ht Hl Hb Hi Hhole. cbn zeta. unfold store_part.
  destruct (lookup_lt_is_Some_2 (rc_got st) i) as [b Eb]; [lia|]. rewrite Eb.
  destruct b; cbn [default from_option Datatypes.id rc_got rc_base]; [done|].
  set (got := <[i := true]> (rc_got st)). set (fuel := Z.to_nat (rc_total st - rc_base st)).
  destruct (advance_base_spec got (Z.to_nat (rc_base st)) fuel) as [A1 _].
  split_and!.
  - apply list_lookup_insert_eq. lia.
  - intros k Hk. unfold got. destruct (decide (k = i)) as [->|Hne]; [apply list_lookup_insert_eq; lia|].
    by rewrite list_lookup_insert_ne.
  - lia.
  - rewrite Nat2Z.id. destruct (Nat.lt_ge_cases (advance_base got (Z.to_nat (rc_base st)) fuel) (Z.to_nat (rc_base st) + fuel)) as [Hlt|Hge].
    + by apply advance_base_stop.
    + rewrite (proj2 (lookup_ge_None _ _)); [done|]. assert (Hlen : length got = n) by (unfold got; by rewrite length_insert). clearbody got. lia.
Qed.

Section Receiver.
Context `{C : CryptoOps}.

(** A frame touches only the resource it names. *)
Lemma Receiver_Feed_local now it1 it2 r f r' fs ds :
  Receiver_Feed now it1 it2 r f = (r', fs, ds) ->
  (forall k, k <> frameID f -> r_byID r' !! k = r_byID r !! k) /\
  Forall (fun g => frameID g = frameID f) fs /\ Forall (fun d => d.1 = frameID f) ds.
Proof.
  intros H. unfold Receiver_Feed in H. case_if_in H; [by simplify_eq|].
  assert (Hl : length (frameID f) = 16%nat) by by apply length_frameID.
  case_bool_decide as Ht.
  { unfold onAdv in H. do 4 (case_if_in H; [by simplify_eq|]).
    destruct (r_byID r !! frameID f); [by simplify_eq|]. case_if_in H; simplify_eq; [done|].
    split; [|done]. intros k Hk. cbn. by rewrite lookup_insert_ne. }
  case_bool_decide as Ht'; [|by simplify_eq]. unfold onPart in H. case_if_in H; [by simplify_eq|].
  destruct (r_byID r !! frameID f) as [st|].
  2: { destruct (r_finished r !! frameID f); simplify_eq; [|done].
       split; [done|]. split; [|done]. constructor; [|done]. by apply frameID_done. }
  case_if_in H; [by simplify_eq|]. destruct ((_ =? _) && _); simplify_eq; cbn.
  - split; [intros k Hk; by rewrite lookup_delete_ne|].
    split; repeat constructor; [by apply frameID_ack|by apply frameID_done].
  - split; [intros k Hk; by rewrite lookup_insert_ne|].
    split; repeat constructor. by apply frameID_ack.
Qed.

Variables (id data : bytes) (parts : list bytes).
Let n : nat := length parts.
Hypothesis parts_data : concat parts = data.
Hypothesis parts_max : Z.of_nat n < 2 ^ 32.
Hypothesis id_len : length id = 16%nat.

(** One of our parts, while the resource is open. *)
Lemma part_open now it1 it2 r st i p :
  r_byID r !! id = Some st -> recv_ok data parts st -> parts !! i = Some p ->
  let st' := store_part st i p in
  let ack := encodeAck id (rc_base st') (ackBitmapLocked st') in
  Receiver_Feed now it1 it2 r (encodePart id (u32 (Z.of_nat i)) p) =
    if decide (rc_count st' = Z.of_nat n)
    then (mkReceiver (delete id (r_byID r)) (rememberFinishedLocked now it1 it2 id (r_finished r)),
          [ack; encodeDone id], [(id, data)])
    else (mkReceiver (<[id := st']> (r_byID r)) (r_finished r), [ack], []).
Proof using All.
  intros Hst Hok Hp. apply lookup_lt_Some in Hp as Hi. fold n in Hi. cbn zeta.
  assert (Hu : u32 (Z.of_nat i) = Z.of_nat i) by (apply u32_id; unfold is_u32; lia). rewrite Hu.
  destruct (encodePart_parse id (Z.of_nat i) p id_len) as (P1 & P2 & P3 & P4 & P5); [unfold is_u32; lia|].
  set (f := encodePart _ _ _) in *. unfold Receiver_Feed. rewrite (proj2 (Z.ltb_ge _ _)) by (unfold resIDLen in *; lia).
  rewrite P1, (bool_decide_eq_false_2 (resTagPart = resTagAdv)), (bool_decide_eq_true_2 (resTagPart = resTagPart)) by done.
  unfold onPart. rewrite P2, P3, P4, (proj2 (Z.ltb_ge _ _)) by lia. rewrite Hst, Nat2Z.id.
  rewrite (proj2 (orb_false_iff _ _)) by (rewrite (ro_total _ _ _ Hok); fold n; split; lia).
  assert (Hok' : recv_ok data parts (store_part st i p)) by (eapply store_part_ok; done).
  set (st' := store_part st i p) in *. pose proof (ro_base _ _ _ Hok') as Hb. fold n in Hb.
  rewrite u32_id by (unfold is_u32; lia). rewrite (ro_total _ _ _ Hok'). fold n.
  destruct (decide (rc_count st' = Z.of_nat n)) as [Ec|Ec].
  - rewrite Ec, Z.eqb_refl, (recv_ok_full id data parts parts_data id_len _ Hok' Ec), bool_decide_eq_true_2; [done|].
    by rewrite (ro_whole _ _ _ Hok').
  - by rewrite (proj2 (Z.eqb_neq _ _)).
Qed.

(** One of our parts, when the resource is not open: an answer only if it is
    remembered as finished. *)
Lemma part_closed now it1 it2 r i p :
  r_byID r !! id = None -> parts !! i = Some p ->
  Receiver_Feed now it1 it2 r (encodePart id (u32 (Z.of_nat i)) p) =
    (r, match r_finished r !! id with Some _ => [encodeDone id] | None => [] end, []).
Proof using id_len parts_max.
  intros Hst Hp. apply lookup_lt_Some in Hp as Hi. fold n in Hi.
  assert (Hu : u32 (Z.of_nat i) = Z.of_nat i) by (apply u32_id; unfold is_u32; lia). rewrite Hu.
  destruct (encodePart_parse id (Z.of_nat i) p id_len) as (P1 & P2 & P3 & P4 & P5); [unfold is_u32; lia|].
  set (f := encodePart _ _ _) in *. unfold Receiver_Feed. rewrite (proj2 (Z.ltb_ge _ _)) by (unfold resIDLen in *; lia).
  rewrite P1, (bool_decide_eq_false_2 (resTagPart = resTagAdv)), (bool_decide_eq_true_2 (resTagPart = resTagPart)) by done.
  unfold onPart. rewrite P2, (proj2 (Z.ltb_ge _ _)) by lia. rewrite Hst. by destruct (r_finished r !! id).
Qed.
End Receiver.

(** ** The coupling of the two ends *)

Section Coupling.
Context `{C : CryptoOps}.
Variables (id data : bytes) (parts : list bytes).
Let n : nat := length parts.
Hypothesis parts_data : concat parts = data.
Hypothesis parts_max : Z.of_nat n < 2 ^ 32.
Hypothesis id_len : length id = 16%nat.
Hypothesis sha_len : forall m, len (sha256 m) = 32.

(** The window positions ever announced: the sender's own and those of the
    acknowledgements. *)
Definition marks (s : ResourceSender) (acks : list (Z * bytes)) : list Z := s_base s :: acks.*1.

(** [got] and [rb] are the receiver's parts and window, [acks] the
    acknowledgements it sent.  Every acknowledgement tells the truth, no part a
    window stopped at is marked received by another acknowledgement, and the
    sender holds for acknowledged only what the receiver has. *)
Record coupling (s : ResourceSender) (got : list bool) (rb : Z) (rs : list bytes) (acks : list (Z * bytes)) : Prop := {
  cp_rb : 0 <= rb <= Z.of_nat n;
  cp_prefix k : Z.of_nat k < rb -> got !! k = Some true;
  cp_hole : got !! Z.to_nat rb <> Some true;
  cp_frames f : f ∈ rs -> frameID f = id ->
    f = encodeDone id \/ exists b bm, (b, bm) ∈ acks /\ f = encodeAck id b bm;
  cp_len b bm : (b, bm) ∈ acks -> len bm <= maxAckBitmapBytes;
  cp_bits b bm j : (b, bm) ∈ acks -> bm_bit bm j = true -> got !! (Z.to_nat b + j)%nat = Some true;
  cp_marks m : m ∈ marks s acks -> 0 <= m <= rb;
  cp_apart b bm j m : (b, bm) ∈ acks -> bm_bit bm j = true -> m ∈ marks s acks -> (Z.to_nat b + j)%nat <> Z.to_nat m;
  cp_acked k : s_acked s !! k = Some true -> got !! k = Some true;
  cp_free m : m ∈ marks s acks -> s_acked s !! Z.to_nat m = Some true -> m < s_base s
}.

(** The part the sender's window stands at is not acknowledged. *)
Lemma coupling_base_free s got rb rs acks :
  coupling s got rb rs acks -> s_acked s !! Z.to_nat (s_base s) <> Some true.
Proof. intros H E. apply (cp_free _ _ _ _ _ H) in E; [lia|]. unfold marks. set_solver. Qed.

Lemma coupling_same s s' got rb rs acks :
  same_progress s s' -> coupling s got rb rs acks -> coupling s' got rb rs acks.
Proof.
  intros (_ & Hb & Ha) [H1 H2 H3 H4 H5 H6 H7 H8 H9 H10].
  split; try done; unfold marks in *; rewrite ?Hb, ?Ha; eauto.
Qed.

(** Frames that say nothing new. *)
Lemma coupling_frames s got rb rs fs acks :
  Forall (fun f => frameID f = id -> f = encodeDone id) fs -> coupling s got rb rs acks -> coupling s got rb (rs ++ fs) acks.
Proof.
  intros Hf [H1 H2 H3 H4 H5 H6 H7 H8 H9 H10]. split; try done.
  intros f [Hin|Hin]%elem_of_app Hid; [by apply H4|]. left. rewrite Forall_forall in Hf. by apply Hf.
Qed.

Lemma coupling_ack now s got rb rs acks b bm :
  s_id s = id -> (b, bm) ∈ acks -> coupling s got rb rs acks ->
  coupling (Sender_Feed now s (encodeAck id b bm)).1 got rb rs acks.
Proof using parts_max id_len.
  intros Hid Hin H. assert (Hb : b ∈ marks s acks).
  { unfold marks. apply list_elem_of_further, list_elem_of_fmap. by exists (b, bm). }
  pose proof (cp_marks _ _ _ _ _ H _ Hb) as Hrange. pose proof (cp_rb _ _ _ _ _ H) as Hrb.
  destruct (Sender_Feed_ack now s b bm) as (_ & Hbase & Hacked & _);
    [by rewrite Hid|unfold is_u32; lia|by eapply cp_len|]. rewrite Hid in *.
  set (s' := (Sender_Feed _ _ _).1) in *.
  assert (Hmarks : forall m, m ∈ marks s' acks -> m ∈ marks s acks).
  { unfold marks. intros m [->|Hm]%elem_of_cons; [|by apply list_elem_of_further]. rewrite Hbase.
    destruct (Z.max_spec (s_base s) b) as [[_ ->]|[_ ->]]; [done|by left]. }
  destruct H as [H1 H2 H3 H4 H5 H6 H7 H8 H9 H10]. split; try done.
  - intros m Hm. by apply H7, Hmarks.
  - intros b' bm' j m Hi Hj Hm. by eapply H8, Hmarks.
  - intros k Hk. apply Hacked in Hk as [Hk|[Hk|(j & -> & Hj)]]; [by apply H9|apply H2; lia|by eapply H6].
  - intros m Hm Hk. specialize (Hmarks m Hm). pose proof (H7 m Hmarks).
    apply Hacked in Hk as [Hk|[Hk|(j & Hk & Hj)]].
    + pose proof (H10 m Hmarks Hk). lia.
    + lia.
    + exfalso. by eapply (H8 b bm j m).
Qed.

(** The receiver stores a part and answers with its window and bitmap. *)
Lemma coupling_reply s st i p rs acks fs :
  recv_ok data parts st -> parts !! i = Some p ->
  coupling s (rc_got st) (rc_base st) rs acks ->
  let st' := store_part st i p in
  Forall (fun f => f = encodeDone id \/ f = encodeAck id (rc_base st') (ackBitmapLocked st')) fs ->
  coupling s (rc_got st') (rc_base st') (rs ++ fs) (acks ++ [(rc_base st', ackBitmapLocked st')]).
Proof using All.
  intros Hok Hp [H1 H2 H3 H4 H5 H6 H7 H8 H9 H10]. cbn zeta. apply lookup_lt_Some in Hp as Hi. fold n in Hi.
  assert (Hok' : recv_ok data parts (store_part st i p)) by (by eapply store_part_ok).
  destruct (store_part_moves n st i p (ro_total _ _ _ Hok) (ro_got _ _ _ Hok) H1 Hi H3) as (M1 & M2 & M3 & M4).
  set (st' := store_part st i p) in *. set (b := rc_base st') in *. set (bm := ackBitmapLocked st').
  intros Hfs. pose proof (ro_base _ _ _ Hok') as Hb. fold n b in Hb.
  assert (Hbit : forall j, bm_bit bm j = true -> rc_got st' !! (Z.to_nat b + j)%nat = Some true) by (intros j; apply ackBitmap_bit).
  assert (Hmk : forall m, m ∈ marks s (acks ++ [(b, bm)]) -> m ∈ marks s acks \/ m = b).
  { unfold marks. intros m. rewrite fmap_app. cbn. set_solver. }
  split; try done.
  - apply (ro_prefix _ _ _ Hok').
  - intros f [Hin|Hin]%elem_of_app Hid.
    + destruct (H4 f Hin Hid) as [->|(b' & bm' & Hin' & ->)]; [by left|right]. exists b', bm'. set_solver.
    + rewrite Forall_forall in Hfs. destruct (Hfs f Hin) as [->| ->]; [by left|right]. exists b, bm. set_solver.
  - intros b' bm' [Hin|Hin]%elem_of_app; [by eapply H5|]. apply list_elem_of_singleton in Hin. simplify_eq. apply ackBitmap_len.
  - intros b' bm' j [Hin|Hin]%elem_of_app Hj; [by eapply M2, H6|]. apply list_elem_of_singleton in Hin. simplify_eq. by apply Hbit.
  - intros m [Hm| ->]%Hmk; [|lia]. pose proof (H7 m Hm). lia.
  - intros b' bm' j m [Hin|Hin]%elem_of_app Hj [Hm| ->]%Hmk Heq.
    + by eapply H8.
    + apply M4. rewrite <- Heq. by eapply M2, H6.
    + apply list_elem_of_singleton in Hin. simplify_eq. pose proof (H7 m Hm). apply M4.
      replace (Z.to_nat b) with (Z.to_nat b + j)%nat by lia. by apply Hbit.
    + apply list_elem_of_singleton in Hin. simplify_eq. apply M4. rewrite <- Heq. by apply Hbit.
  - intros k Hk. by apply M2, H9.
  - intros m [Hm| ->]%Hmk Hk; [by apply H10|]. exfalso. by apply M4, M2, H9.
Qed.

(** ** The coupling holds along every history *)

(** How often our resource has been delivered. *)
Definition deliveries (out : list (bytes * bytes)) : nat := length (filter (fun d => d.1 = id) out).

(** The receiver has not started over: nothing is delivered yet, or the transfer
    was delivered once and is closed. *)
Definition fresh (y : sys) : Prop :=
  deliveries (y_out y) = 0%nat \/ deliveries (y_out y) = 1%nat /\ r_byID (y_r y) !! id = None.

(** What the receiver has, and its window. *)
Definition view (r : ResourceReceiver) (out : list (bytes * bytes)) : list bool * Z :=
  match r_byID r !! id with
  | Some st => (rc_got st, rc_base st)
  | None => if decide (deliveries out = 0%nat) then (repeat false n, 0) else (repeat true n, Z.of_nat n)
  end.

Definition coupled (y : sys) : Prop :=
  fresh y -> exists acks, coupling (y_s y) (view (y_r y) (y_out y)).1 (view (y_r y) (y_out y)).2 (y_rs y) acks.

Lemma deliveries_app a b : deliveries (a ++ b) = (deliveries a + deliveries b)%nat.
Proof. unfold deliveries. by rewrite filter_app, length_app. Qed.

Lemma deliveries_none ds : Forall (fun d => d.1 <> id) ds -> deliveries ds = 0%nat.
Proof.
  unfold deliveries. induction 1 as [|d ds H _ IH]; [done|]. by rewrite filter_cons_False.
Qed.

Lemma delivered_deliveries out : deliveries out = 0%nat -> ~ delivered id data out.
Proof.
  unfold delivered. intros H Hin. unfold deliveries in H. apply nil_length_inv in H.
  assert (Hf : (id, data) ∈ filter (fun d : bytes * bytes => d.1 = id) out) by (by apply list_elem_of_filter).
  rewrite H in Hf. by apply not_elem_of_nil in Hf.
Qed.

(** A frame that leaves our entry alone and answers nothing about it. *)
Lemma coupled_quiet s r r' sr rs fs out ds :
  r_byID r' !! id = r_byID r !! id -> deliveries ds = 0%nat ->
  Forall (fun f => frameID f = id -> f = encodeDone id) fs ->
  coupled (mkSys s r sr rs out) -> coupled (mkSys s r' sr (rs ++ fs) (out ++ ds)).
Proof.
  intros Hr Hd Hf Hc. unfold coupled, fresh, view in *. cbn [y_s y_r y_rs y_out] in *.
  rewrite deliveries_app, Hd, Nat.add_0_r, Hr. intros H. destruct (Hc H) as [acks Ha]. exists acks.
  by apply coupling_frames.
Qed.

Lemma coupled_sender s s' r sr sr' rs out :
  same_progress s s' -> coupled (mkSys s r sr rs out) -> coupled (mkSys s' r sr' rs out).
Proof.
  intros Hs Hc H. destruct (Hc H) as [acks Ha]. exists acks. by eapply coupling_same.
Qed.

Lemma coupled_adv now it1 it2 s r sr rs out r' fs ds :
  receiver_ok id data parts r out ->
  Receiver_Feed now it1 it2 r (encodeAdv id (u32 (Z.of_nat n)) (u32 (maxPartLen parts)) (sha256 data)) = (r', fs, ds) ->
  coupled (mkSys s r sr rs out) -> coupled (mkSys s r' sr (rs ++ fs) (out ++ ds)).
Proof using All.
  intros Hr HF Hc.
  destruct (adv_parse id data parts parts_data parts_max id_len sha_len (u32 (Z.of_nat n)) (u32 (maxPartLen parts)) (sha256 data))
    as (P1 & P2 & P3 & P4); [apply u32_is_u32|apply u32_is_u32|pose proof (sha_len data); unfold len in *; lia|].
  set (f := encodeAdv _ _ _ _) in *. unfold Receiver_Feed in HF. case_if_in HF; [simplify_eq; by apply (coupled_quiet s r')|].
  rewrite P1, bool_decide_eq_true_2 in HF by done. unfold onAdv in HF. rewrite P2, P3 in HF.
  rewrite u32_id in HF by (unfold is_u32; lia).
  do 4 (case_if_in HF; [simplify_eq; by apply (coupled_quiet s r')|]).
  destruct (r_byID r !! id) eqn:E; [simplify_eq; by apply (coupled_quiet s r')|].
  case_if_in HF; [simplify_eq; by apply (coupled_quiet s r')|]. simplify_eq.
  rewrite !app_nil_r. unfold coupled, fresh, view in *. cbn [y_s y_r y_rs y_out r_byID] in *.
  rewrite lookup_insert_eq. intros [Hz|[_ Hz]]; [|done]. rewrite E, Hz in Hc. cbn [rc_got rc_base].
  rewrite Nat2Z.id. cbn in Hc. by destruct (Hc ltac:(by left)) as [acks Ha]; exists acks.
Qed.

Lemma coupled_part now it1 it2 s r sr rs out i p r' fs ds :
  receiver_ok id data parts r out -> parts !! i = Some p ->
  Receiver_Feed now it1 it2 r (encodePart id (u32 (Z.of_nat i)) p) = (r', fs, ds) ->
  coupled (mkSys s r sr rs out) -> coupled (mkSys s r' sr (rs ++ fs) (out ++ ds)).
Proof using All.
  intros [Hr _] Hp HF Hc. destruct (r_byID r !! id) as [st|] eqn:E.
  2: { rewrite (part_closed id parts parts_max id_len now it1 it2 r i p E Hp) in HF. injection HF as <- <- <-.
       apply (coupled_quiet s r); [done|done| |done]. destruct (r_finished r !! id); [|done]. by constructor. }
  destruct (Hr st eq_refl) as [Hok Hcnt].
  rewrite (part_open id data parts parts_data parts_max id_len now it1 it2 r st i p E Hok Hp) in HF.
  set (st' := store_part st i p) in *.
  assert (Hok' : recv_ok data parts st') by (by eapply store_part_ok).
  unfold coupled, fresh, view in *. cbn [y_s y_r y_rs y_out] in *. rewrite E in Hc. cbn [fst snd] in Hc.
  intros Hfresh. rewrite deliveries_app in Hfresh.
  case_decide as Ec; injection HF as <- <- <-; cbn [r_byID] in *.
  - rewrite lookup_delete_eq in *. assert (Hd : deliveries [(id, data)] = 1%nat) by (unfold deliveries; by rewrite filter_cons_True).
    destruct Hc as [acks Ha]; [left; lia|]. exists (acks ++ [(rc_base st', ackBitmapLocked st')]).
    rewrite decide_False by (rewrite deliveries_app; lia). cbn [fst snd].
    pose proof (coupling_reply s st i p rs acks [encodeAck id (rc_base st') (ackBitmapLocked st'); encodeDone id] Hok Hp Ha) as H.
    cbn zeta in H. fold st' in H. specialize (H ltac:(constructor; [by right|constructor; [by left|constructor]])).
    assert (Hgot : rc_got st' = repeat true n).
    { pose proof (ro_got _ _ _ Hok') as Hl. fold n in Hl. pose proof (ro_count _ _ _ Hok').
      rewrite <- Hl. apply Forall_eq_repeat. eapply Forall_impl; [apply trues_all; lia|by intros ? ->]. }
    assert (Hb : rc_base st' = Z.of_nat n).
    { pose proof (ro_base _ _ _ Hok') as Hb. fold n in Hb. destruct (Z.eq_dec (rc_base st') (Z.of_nat n)); [done|exfalso].
      apply (cp_hole _ _ _ _ _ H). rewrite Hgot. rewrite lookup_repeat. case_if; [done|lia]. }
    by rewrite <- Hgot, <- Hb.
  - rewrite lookup_insert_eq in *. change (deliveries []) with 0%nat in *. rewrite Nat.add_0_r in Hfresh.
    destruct Hfresh as [Hz|[_ Hz]]; [|done].
    destruct Hc as [acks Ha]; [by left|]. exists (acks ++ [(rc_base st', ackBitmapLocked st')]).
    apply (coupling_reply s st i p rs acks); [done|done|done|]. constructor; [by right|constructor].
Qed.

Lemma coupled_ack now f s r sr sr' rs out :
  s_id s = id -> f ∈ rs -> coupled (mkSys s r sr rs out) -> coupled (mkSys (Sender_Feed now s f).1 r sr' rs out).
Proof using parts_max id_len.
  intros Hid Hf Hc Hfresh. destruct (Hc Hfresh) as [acks Ha]. cbn [y_s y_r y_rs y_out] in *.
  exists acks. destruct (decide (frameID f = id)) as [E|E].
  - destruct (cp_frames _ _ _ _ _ Ha f Hf E) as [->|(b & bm & Hin & ->)]; [|by apply coupling_ack].
    rewrite <- Hid at 1. rewrite Sender_Feed_done by by rewrite Hid. eapply coupling_same; [apply finish_same|done].
  - by rewrite Sender_Feed_other by by rewrite Hid.
Qed.

(** A sender whose window has passed the last part has finished. *)
Definition sender_open (s : ResourceSender) : Prop := s_done s = None -> s_base s < len (s_parts s).

Lemma sender_open_same s s' :
  same_progress s s' -> (s_done s' = None -> s_done s = None) -> sender_open s -> sender_open s'.
Proof. intros ((_ & Hp & _) & Hb & _) Hd H E. rewrite Hb, Hp. by apply H, Hd. Qed.

Lemma finish_done b s : s_done (finish b s) <> None.
Proof. unfold finish. destruct (s_done s) eqn:E; [congruence|done]. Qed.

Lemma Sender_Feed_open now s f : sender_open s -> sender_open (Sender_Feed now s f).1.
Proof.
  intros H. unfold Sender_Feed. case_if; [done|]. case_bool_decide.
  2: { case_bool_decide; [|done]. intros E. by apply finish_done in E. }
  unfold onAck. do 2 (case_if; [done|]). set (s1 := mkSender _ _ _ _ _ _ _ _ _ _).
  case_if; [intros E; by apply finish_done in E|].
  destruct (fillWindow_same now s1) as [((_ & F1 & _) & F2 & _) F3]. intros _. rewrite F1, F2. lia.
Qed.

(** What holds along every history. *)
Record live_inv (y : sys) : Prop := {
  li_inv : inv id data parts y;
  li_coupled : coupled y;
  li_open : sender_open (y_s y)
}.

Lemma step_coupled y y' : inv id data parts y -> coupled y -> step id y y' -> coupled y'.
Proof using All.
  intros [I1 I2 I3 I4 I5] Hc Hs. destruct Hs as
    [now s r sr rs out s' fs H|now s r sr rs out s' fs H|s r sr rs out
    |now it1 it2 f s r sr rs out r' fs ds Hf H|now it1 it2 f s r sr rs out r' fs ds Hf H
    |now f s r sr rs out s' fs Hf H]; cbn [y_s y_r y_sr y_rs y_out] in *.
  - eapply coupled_sender; [|exact Hc]. by pose proof (proj1 (Start_same now s)) as Hsame; rewrite H in Hsame.
  - eapply coupled_sender; [|exact Hc]. by pose proof (proj1 (retransmitTick_same now s)) as Hsame; rewrite H in Hsame.
  - eapply coupled_sender; [apply finish_same|exact Hc].
  - rewrite Forall_forall in I3. destruct (I3 f Hf) as [->|(i & p & Hp & ->)]; [by eapply coupled_adv|by eapply coupled_part].
  - destruct (Receiver_Feed_local now it1 it2 r f r' fs ds H) as (L1 & L2 & L3). eapply coupled_quiet; [..|exact Hc].
    + apply L1. by intros ->.
    + apply deliveries_none. eapply Forall_impl; [exact L3|]. by intros d ->.
    + eapply Forall_impl; [exact L2|]. intros g Hg E. by rewrite Hg in E.
  - pose proof (coupled_ack now f s r sr (sr ++ fs) rs out (proj1 I1) Hf Hc) as Ha. by rewrite H in Ha.
Qed.

Lemma step_open y y' : sender_open (y_s y) -> step id y y' -> sender_open (y_s y').
Proof.
  intros Ho Hs. destruct Hs as
    [now s r sr rs out s' fs H|now s r sr rs out s' fs H|s r sr rs out
    |now it1 it2 f s r sr rs out r' fs ds Hf H|now it1 it2 f s r sr rs out r' fs ds Hf H
    |now f s r sr rs out s' fs Hf H]; cbn [y_s] in *; try done.
  - destruct (Start_same now s) as [H1 H2]. rewrite H in *. cbn [fst] in *. eapply sender_open_same; [exact H1| |exact Ho]. congruence.
  - destruct (retransmitTick_same now s) as [H1 H2]. rewrite H in *. cbn [fst] in *. eapply sender_open_same; [exact H1| |exact Ho]. congruence.
  - intros E. by apply finish_done in E.
  - pose proof (Sender_Feed_open now s f Ho) as H1. by rewrite H in H1.
Qed.

Lemma live_reachable y0 y : live_inv y0 -> reachable id y0 y -> live_inv y.
Proof using All.
  intros H0. induction 1 as [|y y' _ IH Hs]; [done|]. destruct IH as [I1 I2 I3].
  split; [by eapply step_inv|by eapply step_coupled|by eapply step_open].
Qed.

(** ** Rounds *)

(** The receiver handles the frames of a list in order. *)
Fixpoint receive_all (now : Z) (it1 it2 : list (bytes * Z)) (r : ResourceReceiver) (fs : list bytes) : outcome :=
  match fs with
  | [] => (r, [], [])
  | f :: fs =>
      let '(r1, out1, ds1) := Receiver_Feed now it1 it2 r f in
      let '(r2, out2, ds2) := receive_all now it1 it2 r1 fs in
      (r2, out1 ++ out2, ds1 ++ ds2)
  end.

(** The sender handles the replies of a list in order. *)
Fixpoint acknowledge_all (now : Z) (s : ResourceSender) (fs : list bytes) : ResourceSender * list bytes :=
  match fs with
  | [] => (s, [])
  | f :: fs =>
      let '(s1, out1) := Sender_Feed now s f in
      let '(s2, out2) := acknowledge_all now s1 fs in
      (s2, out1 ++ out2)
  end.

(** One tick of [retransmitLoop] at [now] whose frames all arrive, in order, and
    whose replies all return, by [later].  What the acknowledgements make the
    sender send goes out but need not arrive. *)
Definition round (now later : Z) (it1 it2 : list (bytes * Z)) (y : sys) : sys :=
  let '(s1, fs) := retransmitTick now (y_s y) in
  let '(r1, replies, ds) := receive_all later it1 it2 (y_r y) fs in
  let '(s2, more) := acknowledge_all later s1 replies in
  mkSys s2 r1 (y_sr y ++ fs ++ more) (y_rs y ++ replies) (y_out y ++ ds).

Lemma receive_all_reachable y0 now it1 it2 fs s r sr rs out :
  (forall f, f ∈ fs -> f ∈ sr) -> reachable id y0 (mkSys s r sr rs out) ->
  let '(r', replies, ds) := receive_all now it1 it2 r fs in
  reachable id y0 (mkSys s r' sr (rs ++ replies) (out ++ ds)).
Proof using Type.
  revert r rs out. induction fs as [|f fs IH]; intros r rs out Hin Hr; cbn [receive_all].
  { by rewrite !app_nil_r. }
  destruct (Receiver_Feed now it1 it2 r f) as [[r1 out1] ds1] eqn:E.
  specialize (IH r1 (rs ++ out1) (out ++ ds1)). destruct (receive_all now it1 it2 r1 fs) as [[r2 out2] ds2].
  rewrite <- !app_assoc in IH. apply IH; [intros g Hg; apply Hin; by right|].
  eapply reach_step; [exact Hr|]. eapply step_recv; [|exact E]. apply Hin. by left.
Qed.

Lemma acknowledge_all_reachable y0 now fs s r sr rs out :
  (forall f, f ∈ fs -> f ∈ rs) -> reachable id y0 (mkSys s r sr rs out) ->
  let '(s', more) := acknowledge_all now s fs in
  reachable id y0 (mkSys s' r (sr ++ more) rs out).
Proof using Type.
  revert s sr. induction fs as [|f fs IH]; intros s sr Hin Hr; cbn [acknowledge_all].
  { by rewrite !app_nil_r. }
  destruct (Sender_Feed now s f) as [s1 out1] eqn:E.
  specialize (IH s1 (sr ++ out1)). destruct (acknowledge_all now s1 fs) as [s2 out2].
  rewrite <- !app_assoc in IH. apply IH; [intros g Hg; apply Hin; by right|].
  eapply reach_step; [exact Hr|]. eapply step_ack; [|exact E]. apply Hin. by left.
Qed.

Lemma round_reachable y0 now later it1 it2 y :
  reachable id y0 y -> reachable id y0 (round now later it1 it2 y).
Proof using All.
  intros Hr. unfold round. destruct y as [s r sr rs out]. cbn [y_s y_r y_sr y_rs y_out].
  destruct (retransmitTick now s) as [s1 fs] eqn:E.
  assert (H1 : reachable id y0 (mkSys s1 r (sr ++ fs) rs out)) by (eapply reach_step; [exact Hr|by eapply step_tick]).
  pose proof (receive_all_reachable y0 later it1 it2 fs s1 r (sr ++ fs) rs out) as H2.
  destruct (receive_all later it1 it2 r fs) as [[r1 replies] ds]. specialize (H2 ltac:(set_solver) H1).
  pose proof (acknowledge_all_reachable y0 later replies s1 r1 (sr ++ fs) (rs ++ replies) (out ++ ds)) as H3.
  destruct (acknowledge_all later s1 replies) as [s2 more]. specialize (H3 ltac:(set_solver) H2).
  by rewrite <- app_assoc in H3.
Qed.

(** *** The tick covers the window *)

Definition part_frame (i : nat) : bytes := encodePart id (u32 (Z.of_nat i)) (default [] (parts !! i)).

Lemma send_parts_list s i todo now sa :
  s_id s = id -> s_parts s = parts -> (send_parts s i todo now sa).1 = map part_frame (seq i todo).
Proof.
  intros Hi Hp. revert i sa. induction todo as [|todo IH]; intros i sa; [done|]. cbn [send_parts seq map].
  specialize (IH (S i) (<[i := now]> sa)). destruct (send_parts s (S i) todo now _). cbn [fst] in *.
  unfold part_frame at 1. by rewrite IH, Hi, Hp.
Qed.

Lemma due_loop_list s now i todo sa :
  s_id s = id -> s_parts s = parts ->
  (forall k, (i <= k)%nat -> s_rto s <= now - default 0 (sa !! k)) ->
  exists l, (due_loop s now i todo sa).1 = map part_frame l /\
    (forall k, k ∈ l -> (i <= k < i + todo)%nat) /\
    (forall k, (i <= k < i + todo)%nat -> s_acked s !! k <> Some true -> k ∈ l).
Proof.
  intros Hi Hp. revert i sa. induction todo as [|todo IH]; intros i sa Hdue; cbn [due_loop].
  { exists []. split_and!; [done|intros k Hk; by apply not_elem_of_nil in Hk|lia]. }
  rewrite (proj2 (Z.leb_le _ _)) by by apply Hdue. rewrite andb_true_r.
  destruct (negb (default false (s_acked s !! i))) eqn:E.
  - destruct (IH (S i) (<[i := now]> sa)) as (l & H1 & H2 & H3).
    { intros k Hk. rewrite list_lookup_insert_ne by lia. apply Hdue. lia. }
    destruct (due_loop s now (S i) todo _) as [fs sa']. cbn [fst] in *. exists (i :: l).
    split_and!; [by rewrite H1, Hi, Hp| |].
    + intros k [->|Hk]%elem_of_cons; [lia|]. specialize (H2 k Hk). lia.
    + intros k Hk Ha. destruct (decide (k = i)) as [->|]; [by left|]. right. apply H3; [lia|done].
  - destruct (IH (S i) sa) as (l & H1 & H2 & H3); [intros k Hk; apply Hdue; lia|]. exists l.
    split_and!; [done| |].
    + intros k Hk. specialize (H2 k Hk). lia.
    + intros k Hk Ha. destruct (decide (k = i)) as [->|]; [|apply H3; [lia|done]].
      destruct (s_acked s !! i) as [[|]|]; done.
Qed.

(** Every send time is at most [t]. *)
Definition sent_by (t : Z) (s : ResourceSender) : Prop := 0 <= t /\ Forall (fun u => u <= t) (s_sentAt s).

Lemma sent_by_default t s k : sent_by t s -> default 0 (s_sentAt s !! k) <= t.
Proof.
  intros [H0 H]. destruct (s_sentAt s !! k) as [u|] eqn:E; cbn; [|done]. rewrite Forall_forall in H.
  apply H. by eapply list_elem_of_lookup_2.
Qed.

(** The parts a tick sends: indices of parts, and every unacknowledged one in
    the window. *)
Lemma tick_list now t s :
  s_id s = id -> s_parts s = parts -> s_done s = None -> 0 <= s_base s -> 0 <= s_sentHigh s <= Z.of_nat n ->
  sent_by t s -> t + s_rto s <= now ->
  exists l, (retransmitTick now s).2 = map part_frame l /\ Forall (fun k => (k < n)%nat) l /\
    forall k, s_base s <= Z.of_nat k < Z.min (s_base s + s_window s) (Z.of_nat n) ->
      s_acked s !! k <> Some true -> k ∈ l.
Proof.
  intros Hi Hp Hd Hb Hh Ht Hnow. unfold retransmitTick. rewrite Hd.
  unfold dueRetransmitsLocked.
  set (lim := if s_sentHigh s <? s_base s + s_window s then s_sentHigh s else s_base s + s_window s).
  destruct (due_loop_list s now (Z.to_nat (s_base s)) (Z.to_nat (lim - s_base s)) (s_sentAt s) Hi Hp) as (l & H1 & H2 & H3).
  { intros k _. pose proof (sent_by_default t s k Ht). lia. }
  destruct (due_loop _ _ _ _ _) as [fs sa]. cbn [fst] in H1. subst fs.
  unfold fillWindowLocked. cbn [s_base s_window s_parts s_sentHigh s_sentAt].
  set (s1 := mkSender _ _ _ _ _ _ _ _ _ _). assert (Hlen : len (s_parts s) = Z.of_nat n) by (by rewrite Hp). rewrite Hlen.
  set (lim' := if Z.of_nat n <? s_base s + s_window s then Z.of_nat n else s_base s + s_window s).
  pose proof (send_parts_list s1 (Z.to_nat (s_sentHigh s)) (Z.to_nat (lim' - s_sentHigh s)) now sa Hi Hp) as H4.
  destruct (send_parts _ _ _ _ _) as [gs sa']. cbn [fst snd] in *. subst gs.
  exists (l ++ seq (Z.to_nat (s_sentHigh s)) (Z.to_nat (lim' - s_sentHigh s))). split; [by rewrite map_app|].
  assert (Hl : lim <= s_sentHigh s /\ lim <= s_base s + s_window s /\ (lim = s_sentHigh s \/ lim = s_base s + s_window s))
    by (unfold lim; case_if; lia).
  assert (Hl' : lim' = Z.min (s_base s + s_window s) (Z.of_nat n)) by (unfold lim'; case_if; lia).
  split.
  - apply Forall_app. split; apply Forall_forall; intros k Hk.
    + specialize (H2 k Hk). lia.
    + apply list_elem_of_In, in_seq in Hk. lia.
  - intros k Hk Ha. apply elem_of_app. destruct (decide (Z.of_nat k < s_sentHigh s)).
    + left. apply H3; [lia|done].
    + right. apply list_elem_of_In, in_seq. lia.
Qed.

(** *** The receiver's side of a round *)

Lemma part_frame_eq i : (i < n)%nat -> exists p, parts !! i = Some p /\ part_frame i = encodePart id (u32 (Z.of_nat i)) p.
Proof. intros Hi. destruct (lookup_lt_is_Some_2 parts i) as [p Hp]; [done|]. exists p. unfold part_frame. by rewrite Hp. Qed.

Lemma recv_ok_count_le st : recv_ok data parts st -> rc_count st <= Z.of_nat n.
Proof.
  intros H. rewrite (ro_count _ _ _ H). pose proof (ro_got _ _ _ H) as Hg. fold n in Hg.
  pose proof (filter_length_le (fun b : bool => b) (rc_got st)). unfold trues. lia.
Qed.

(** An open entry the round may find, and may leave. *)
Definition open_at (r : ResourceReceiver) (st : recvState) : Prop :=
  r_byID r !! id = Some st /\ recv_ok data parts st /\ rc_count st < Z.of_nat n /\
  rc_got st !! Z.to_nat (rc_base st) <> Some true.

(** Receiving parts either completes the transfer, or leaves it open with those
    parts stored and the last acknowledgement telling its window. *)
Lemma receive_open now it1 it2 l r st :
  open_at r st -> Forall (fun k => (k < n)%nat) l ->
  let '(r', replies, ds) := receive_all now it1 it2 r (map part_frame l) in
  encodeDone id ∈ replies \/
  exists st', open_at r' st' /\ ds = [] /\
    (forall k, rc_got st !! k = Some true \/ k ∈ l -> rc_got st' !! k = Some true) /\
    (l <> [] -> encodeAck id (rc_base st') (ackBitmapLocked st') ∈ replies).
Proof using All.
  revert r st. induction l as [|i l IH]; intros r st Hopen Hl; cbn [map receive_all].
  { right. exists st. split_and!; try done. intros k [Hk|Hk]; [done|]. by apply not_elem_of_nil in Hk. }
  apply Forall_cons in Hl as [Hi Hl]. destruct Hopen as (E & Hok & Hcnt & Hhole).
  destruct (part_frame_eq i Hi) as (p & Hp & ->).
  rewrite (part_open id data parts parts_data parts_max id_len now it1 it2 r st i p E Hok Hp).
  assert (Hok' : recv_ok data parts (store_part st i p)) by (by eapply store_part_ok).
  destruct (store_part_moves n st i p (ro_total _ _ _ Hok) (ro_got _ _ _ Hok) (ro_base _ _ _ Hok) Hi Hhole) as (M1 & M2 & M3 & M4).
  set (st1 := store_part st i p) in *. case_decide as Ec; fold n in Ec.
  { destruct (receive_all _ _ _ _ (map part_frame l)) as [[r2 out2] ds2]. left. right. by left. }
  set (r1 := mkReceiver _ _). pose proof (recv_ok_count_le st1 Hok').
  assert (Hopen1 : open_at r1 st1) by (split_and!; [by apply lookup_insert_eq|done|lia|done]).
  specialize (IH r1 st1 Hopen1 Hl).
  destruct (receive_all now it1 it2 r1 (map part_frame l)) as [[r2 out2] ds2] eqn:E2.
  destruct IH as [IH|(st' & H1 & -> & H3 & H4)]; [left; by right|right].
  exists st'. split_and!; [done|done| |].
  - intros k [Hk|[->|Hk]%elem_of_cons]; apply H3; [left; by apply M2|by left|by right].
  - intros _. destruct l as [|j l]; [|right; by apply H4].
    cbn in E2. injection E2 as <- <-. destruct Hopen1 as (Hst1 & _), H1 as (Hst' & _).
    assert (st' = st1) as -> by congruence. by left.
Qed.

(** A finished entry answers every part. *)
Lemma receive_closed now it1 it2 l r :
  r_byID r !! id = None -> is_Some (r_finished r !! id) -> Forall (fun k => (k < n)%nat) l -> l <> [] ->
  let '(_, replies, _) := receive_all now it1 it2 r (map part_frame l) in encodeDone id ∈ replies.
Proof using parts_max id_len.
  intros E [v Hf] Hl Hne. destruct l as [|i l]; [done|]. apply Forall_cons in Hl as [Hi _]. cbn [map receive_all].
  destruct (part_frame_eq i Hi) as (p & Hp & ->).
  rewrite (part_closed id parts parts_max id_len now it1 it2 r i p E Hp), Hf.
  destruct (receive_all _ _ _ _ (map part_frame l)) as [[r2 out2] ds2]. by left.
Qed.

(** *** The sender's side of a round *)

(** What every reply preserves. *)
Record advanced (s s' : ResourceSender) : Prop := {
  ad_same : same_transfer s s';
  ad_base : s_base s <= s_base s';
  ad_done : s_done s <> None -> s_done s' = s_done s;
  ad_ok : s_done s = None -> s_done s' = None \/ s_done s' = Some true
}.

Lemma advanced_refl s : advanced s s.
Proof. by split; [done|lia|done|left]. Qed.

Lemma advanced_trans s1 s2 s3 : advanced s1 s2 -> advanced s2 s3 -> advanced s1 s3.
Proof.
  intros [A1 A2 A3 A4] [B1 B2 B3 B4]. split; [by eapply same_transfer_trans|lia| |].
  - intros H. rewrite B3; [by apply A3|]. by rewrite A3.
  - intros H. destruct (A4 H) as [H'|H']; [by apply B4|right]. rewrite B3; [done|]. by rewrite H'.
Qed.

Lemma advanced_finish s : advanced s (finish true s).
Proof.
  destruct (finish_same true s) as (F1 & F2 & F3). split; [done|lia| |].
  - unfold finish. destruct (s_done s) eqn:E; [done|congruence].
  - unfold finish. intros ->. by right.
Qed.

Lemma Sender_Feed_advanced now s f : advanced s (Sender_Feed now s f).1.
Proof.
  unfold Sender_Feed. case_if; [apply advanced_refl|]. case_bool_decide.
  2: { case_bool_decide; [apply advanced_finish|apply advanced_refl]. }
  unfold onAck. do 2 (case_if; [apply advanced_refl|]). set (s1 := mkSender _ _ _ _ _ _ _ _ _ _).
  assert (Hs1 : advanced s s1) by (split; [done|unfold s1; cbn; case_if; lia|done|by left]).
  case_if; [exact (advanced_trans _ _ _ Hs1 (advanced_finish s1))|].
  eapply advanced_trans; [exact Hs1|]. destruct (fillWindow_same now s1) as [(F1 & F2 & F3) F4].
  split; [done|lia|done|]. rewrite F4. by left.
Qed.

Lemma acknowledge_all_spec now fs s :
  s_id s = id -> s_done s <> Some false ->
  let s' := (acknowledge_all now s fs).1 in
  advanced s s' /\ (encodeDone id ∈ fs -> s_done s' = Some true) /\
  (forall b bm, is_u32 b -> len bm <= maxAckBitmapBytes -> encodeAck id b bm ∈ fs -> b <= s_base s').
Proof.
  cbn zeta. revert s. induction fs as [|f fs IH]; intros s Hid Hd; cbn [acknowledge_all].
  { split; [apply advanced_refl|]. split; [|intros b bm _ _]; intros H; by apply not_elem_of_nil in H. }
  pose proof (Sender_Feed_advanced now s f) as Ha.
  assert (Hd1 : s_done (Sender_Feed now s f).1 <> Some false).
  { destruct (s_done s) as [[|]|] eqn:E; [rewrite (ad_done _ _ Ha); congruence|done|].
    destruct (ad_ok _ _ Ha E) as [-> | ->]; done. }
  assert (Hid1 : s_id (Sender_Feed now s f).1 = id) by (by rewrite (proj1 (ad_same _ _ Ha))).
  specialize (IH _ Hid1 Hd1). destruct (Sender_Feed now s f) as [s1 out1] eqn:E. cbn [fst] in *.
  destruct (acknowledge_all now s1 fs) as [s2 out2]. cbn [fst] in *. destruct IH as (I1 & I2 & I3).
  split; [by eapply advanced_trans|]. split.
  - intros [<-|Hin]%elem_of_cons; [|by apply I2].
    rewrite <- Hid in E. rewrite Sender_Feed_done in E by by rewrite Hid. injection E as <- <-.
    assert (Hf : s_done (finish true s) = Some true) by (unfold finish; by destruct (s_done s) as [[|]|] eqn:Es).
    rewrite (ad_done _ _ I1); [done|by rewrite Hf].
  - intros b bm Hb Hbm [<-|Hin]%elem_of_cons; [|by eapply I3].
    destruct (Sender_Feed_ack now s b bm) as (_ & S1 & _); [by rewrite Hid|done|done|].
    rewrite Hid, E in S1. cbn [fst] in S1. pose proof (ad_base _ _ I1). lia.
Qed.

Lemma send_parts_sent t s i todo now sa :
  now <= t -> Forall (fun u => u <= t) sa -> Forall (fun u => u <= t) (send_parts s i todo now sa).2.
Proof.
  intros Hn. revert i sa. induction todo as [|todo IH]; intros i sa H; cbn [send_parts]; [done|].
  specialize (IH (S i) (<[i := now]> sa)). destruct (send_parts s (S i) todo now _). apply IH. by apply Forall_insert.
Qed.

Lemma due_loop_sent t s now i todo sa :
  now <= t -> Forall (fun u => u <= t) sa -> Forall (fun u => u <= t) (due_loop s now i todo sa).2.
Proof.
  intros Hn. revert i sa. induction todo as [|todo IH]; intros i sa H; cbn [due_loop]; [done|].
  destruct (_ && _); [|by apply IH].
  specialize (IH (S i) (<[i := now]> sa)). destruct (due_loop s now (S i) todo _). apply IH. by apply Forall_insert.
Qed.

Lemma fillWindow_sent t now s : now <= t -> sent_by t s -> sent_by t (fillWindowLocked now s).1.
Proof.
  intros Hn [H0 H]. split; [done|]. unfold fillWindowLocked.
  match goal with |- context [send_parts s ?i ?k now ?sa] =>
    pose proof (send_parts_sent t s i k now sa Hn H) as Hs; destruct (send_parts s i k now sa) end. done.
Qed.

Lemma retransmitTick_sent t now s : now <= t -> sent_by t s -> sent_by t (retransmitTick now s).1.
Proof.
  intros Hn Hs. unfold retransmitTick. destruct (s_done s); [done|].
  assert (H1 : sent_by t (dueRetransmitsLocked now s).1).
  { destruct Hs as [H0 H]. split; [done|]. unfold dueRetransmitsLocked.
    match goal with |- context [due_loop s now ?i ?k ?sa] =>
      pose proof (due_loop_sent t s now i k sa Hn H) as Hd; destruct (due_loop s now i k sa) end. done. }
  destruct (dueRetransmitsLocked now s) as [s1 fs]. pose proof (fillWindow_sent t now s1 Hn H1) as H2.
  by destruct (fillWindowLocked now s1).
Qed.

Lemma Sender_Feed_sent t now s f : now <= t -> sent_by t s -> sent_by t (Sender_Feed now s f).1.
Proof.
  intros Hn Hs. assert (Hf : forall b s0, sent_by t s0 -> sent_by t (finish b s0)).
  { intros b s0 H. unfold finish. by destruct (s_done s0). }
  unfold Sender_Feed. case_if; [done|]. case_bool_decide; [|case_bool_decide; [by apply Hf|done]].
  unfold onAck. do 2 (case_if; [done|]). case_if; [by apply Hf|by apply fillWindow_sent].
Qed.

Lemma acknowledge_all_sent t now fs s : now <= t -> sent_by t s -> sent_by t (acknowledge_all now s fs).1.
Proof.
  intros Hn. revert s. induction fs as [|f fs IH]; intros s Hs; [done|]. cbn [acknowledge_all].
  pose proof (Sender_Feed_sent t now s f Hn Hs) as H1. destruct (Sender_Feed now s f) as [s1 out1].
  specialize (IH s1 H1). by destruct (acknowledge_all now s1 fs).
Qed.

(** ** A round moves the window past what it covered *)

(** The receiver took the advertisement, and nothing is delivered yet; or it
    delivered the resource once, closed it and still remembers it. *)
Definition ready (y : sys) : Prop :=
  deliveries (y_out y) = 0%nat /\ is_Some (r_byID (y_r y) !! id) \/
  deliveries (y_out y) = 1%nat /\ r_byID (y_r y) !! id = None /\ is_Some (r_finished (y_r y) !! id).

Lemma ready_fresh y : ready y -> fresh y.
Proof. intros [[H _]|(H & H' & _)]; [by left|by right]. Qed.

(** Where the receiver's window stands once every part the tick covered is in. *)
Lemma window_covered s st st' rs acks (l : list nat) :
  coupling s (rc_got st) (rc_base st) rs acks ->
  (forall k, s_base s <= Z.of_nat k < Z.min (s_base s + s_window s) (Z.of_nat n) -> s_acked s !! k <> Some true -> k ∈ l) ->
  (forall k, rc_got st !! k = Some true \/ k ∈ l -> rc_got st' !! k = Some true) ->
  recv_ok data parts st' -> rc_count st' < Z.of_nat n -> rc_got st' !! Z.to_nat (rc_base st') <> Some true ->
  s_base s + s_window s <= rc_base st' < Z.of_nat n.
Proof.
  intros Hc Hl Hgot Hok Hcnt Hhole. pose proof (ro_base _ _ _ Hok) as Hb. fold n in Hb.
  assert (Hlt : rc_base st' < Z.of_nat n).
  { destruct (Z.eq_dec (rc_base st') (Z.of_nat n)) as [E|]; [|lia]. assert (rc_count st' = Z.of_nat n) by (by eapply recv_ok_base). lia. }
  assert (Hge : Z.min (s_base s + s_window s) (Z.of_nat n) <= rc_base st'); [|lia].
  destruct (Z_lt_le_dec (rc_base st') (Z.min (s_base s + s_window s) (Z.of_nat n))) as [Hlt'|]; [exfalso|done].
  apply Hhole, Hgot. assert (Hm : 0 <= s_base s <= rc_base st).
  { apply (cp_marks _ _ _ _ _ Hc). unfold marks. by left. }
  destruct (Z_lt_le_dec (rc_base st') (s_base s)) as [Hs|Hs].
  - left. apply (cp_prefix _ _ _ _ _ Hc). lia.
  - destruct (s_acked s !! Z.to_nat (rc_base st')) as [[|]|] eqn:Ea.
    + left. by apply (cp_acked _ _ _ _ _ Hc).
    + right. apply Hl; [lia|congruence].
    + right. apply Hl; [lia|congruence].
Qed.

Lemma round_progress t now later it1 it2 y :
  live_inv y -> ready y -> s_done (y_s y) = None -> 0 < s_window (y_s y) -> 0 <= s_rto (y_s y) ->
  sent_by t (y_s y) -> t + s_rto (y_s y) <= now -> now <= later ->
  let y' := round now later it1 it2 y in
  s_done (y_s y') = Some true \/
  s_done (y_s y') = None /\ ready y' /\ sent_by later (y_s y') /\ same_transfer (y_s y) (y_s y') /\
  s_base (y_s y) + s_window (y_s y) <= s_base (y_s y').
Proof using All.
  intros [[I1 I2 _ _ _] Hcoup Hopen] Hready Hd Hw Hrto Hsent Hnow Hlater. cbn zeta.
  destruct (Hcoup (ready_fresh y Hready)) as [acks Hc]. destruct I1 as (S1 & S2 & _ & _ & _ & S6 & S7).
  specialize (Hopen Hd). assert (Hlen : len (s_parts (y_s y)) = Z.of_nat n) by (by rewrite S2). rewrite Hlen in Hopen.
  destruct (tick_list now t (y_s y) S1 S2 Hd S6 S7 Hsent Hnow) as (l & Hl & Hln & Hcov).
  assert (Hne : l <> []).
  { specialize (Hcov (Z.to_nat (s_base (y_s y))) ltac:(lia) (coupling_base_free _ _ _ _ _ Hc)).
    intros ->. by apply not_elem_of_nil in Hcov. }
  destruct (retransmitTick_same now (y_s y)) as [(Hst & Hsb & Hsa) Hsd].
  assert (Hts : sent_by later (retransmitTick now (y_s y)).1).
  { apply retransmitTick_sent; [done|]. destruct Hsent as [H0 H]. split; [lia|].
    eapply Forall_impl; [exact H|]. cbn. lia. }
  unfold round. destruct (retransmitTick now (y_s y)) as [s1 fs]. cbn [fst snd] in *. subst fs.
  destruct (acknowledge_all_spec later (receive_all later it1 it2 (y_r y) (map part_frame l)).1.2 s1) as (A1 & A2 & A3);
    [by rewrite (proj1 Hst)|congruence|].
  pose proof (acknowledge_all_sent later later (receive_all later it1 it2 (y_r y) (map part_frame l)).1.2 s1 ltac:(lia) Hts) as A4.
  destruct Hready as [[Hz [st E]]|(Hz & E & Hf)].
  - unfold view in Hc. rewrite E in Hc. cbn [fst snd] in Hc.
    assert (Hat : open_at (y_r y) st).
    { destruct (proj1 I2 st E) as [Hok Hcnt]. split_and!; [done|done|done|]. apply (cp_hole _ _ _ _ _ Hc). }
    pose proof (receive_open later it1 it2 l (y_r y) st Hat Hln) as Hr.
    destruct (receive_all later it1 it2 (y_r y) (map part_frame l)) as [[r1 replies] ds]. cbn [fst snd] in *.
    destruct (acknowledge_all later s1 replies) as [s2 more]. cbn [y_s y_r y_out fst] in *.
    destruct Hr as [Hr|(st' & (E' & Hok' & Hcnt' & Hhole') & -> & Hgot & Hack)]; [left; by apply A2|].
    destruct (ad_ok _ _ A1) as [Hn|Hn]; [congruence| |by left]. right.
    destruct (window_covered _ _ _ _ _ l Hc Hcov Hgot Hok' Hcnt' Hhole') as [W1 W2].
    split_and!; [done| |done|exact (same_transfer_trans _ _ _ Hst (ad_same _ _ A1))|].
    + left. unfold deliveries in *. cbn [y_out y_r]. rewrite app_nil_r. split; [done|by eexists].
    + pose proof (ro_base _ _ _ Hok'). eapply Z.le_trans; [exact W1|].
      eapply A3; [|apply ackBitmap_len|by apply Hack]. unfold is_u32. lia.
  - pose proof (receive_closed later it1 it2 l (y_r y) E Hf Hln Hne) as Hr.
    destruct (receive_all later it1 it2 (y_r y) (map part_frame l)) as [[r1 replies] ds]. cbn [fst snd] in *.
    destruct (acknowledge_all later s1 replies) as [s2 more]. left. by apply A2.
Qed.

(** A finished sender stays as it is. *)
Lemma round_done now later it1 it2 y b : s_done (y_s y) = Some b -> y_s (round now later it1 it2 y) = y_s y.
Proof. intros H. unfold round, retransmitTick. by rewrite H. Qed.

(** Consecutive rounds; each starts a retransmission timeout after the last
    one ended. *)
Fixpoint rounds (ts : list (Z * Z)) (it1 it2 : list (bytes * Z)) (y : sys) : sys :=
  match ts with
  | [] => y
  | (now, later) :: ts => rounds ts it1 it2 (round now later it1 it2 y)
  end.

Fixpoint spaced (rto t : Z) (ts : list (Z * Z)) : Prop :=
  match ts with
  | [] => True
  | (now, later) :: ts => t + rto <= now /\ now <= later /\ spaced rto later ts
  end.

Lemma rounds_done ts it1 it2 y b : s_done (y_s y) = Some b -> s_done (y_s (rounds ts it1 it2 y)) = Some b.
Proof.
  revert y. induction ts as [|[now later] ts IH]; intros y H; [done|]. cbn [rounds]. apply IH. by erewrite round_done.
Qed.

Lemma rounds_reachable ts it1 it2 y0 y : reachable id y0 y -> reachable id y0 (rounds ts it1 it2 y).
Proof using All.
  revert y. induction ts as [|[now later] ts IH]; intros y H; [done|]. cbn [rounds]. by apply IH, round_reachable.
Qed.

Lemma rounds_finish ts it1 it2 t y0 y :
  live_inv y0 -> reachable id y0 y -> ready y -> s_done (y_s y) = None ->
  0 < s_window (y_s y) -> 0 <= s_rto (y_s y) -> sent_by t (y_s y) -> spaced (s_rto (y_s y)) t ts ->
  Z.of_nat n <= s_base (y_s y) + Z.of_nat (length ts) * s_window (y_s y) ->
  s_done (y_s (rounds ts it1 it2 y)) = Some true.
Proof using All.
  intros H0. revert t y. induction ts as [|[now later] ts IH]; intros t y Hr Hready Hd Hw Hrto Hsent Hsp Hn.
  - exfalso. pose proof (li_open _ (live_reachable _ _ H0 Hr) Hd) as Hopen.
    destruct (li_inv _ (live_reachable _ _ H0 Hr)) as [(_ & S2 & _) _ _ _ _]. rewrite S2 in Hopen.
    unfold len in Hopen. cbn in Hn. lia.
  - destruct Hsp as (Hsp1 & Hsp2 & Hsp3). cbn [rounds].
    destruct (round_progress t now later it1 it2 y (live_reachable _ _ H0 Hr) Hready Hd Hw Hrto Hsent Hsp1 Hsp2)
      as [H|(H1 & H2 & H3 & (_ & _ & H4 & H5) & H6)]; [by apply rounds_done|].
    apply (IH later); try done; rewrite ?H4, ?H5; try done; [by apply round_reachable|].
    cbn [length] in Hn. lia.
Qed.
End Coupling.

(** ** Theorems *)

Section Histories.
Context `{C : CryptoOps} `{L : !CryptoLaws C}.
Variables (id data : bytes) (partSize window rto : Z) (s : ResourceSender).
Hypothesis id_len : length id = 16%nat.
Hypothesis new_sender : NewResourceSender id data partSize window rto = Ok s.
Hypothesis few_parts : len (s_parts s) < 2 ^ 32.

Lemma new_sender_inv : inv id data (s_parts s) (init_sys s).
Proof using All.
  destruct (sender_parts _ _ _ _ _ _ new_sender) as (S1 & S2 & S3 & S4 & S5 & S6 & S7 & _).
  split; cbn; [|split; [done|by intros [v ?]]|constructor|constructor|intros d Hd; by apply not_elem_of_nil in Hd].
  unfold sender_ok. rewrite S5, S6, S7. split_and!; try done; [left|lia].
  destruct (s_parts s); [done|]. cbn. lia.
Qed.

Lemma new_sender_live : live_inv id data (s_parts s) (init_sys s).
Proof using All.
  destruct (sender_parts _ _ _ _ _ _ new_sender) as (S1 & S2 & S3 & S4 & S5 & _).
  assert (Hn : 0 < len (s_parts s)) by (destruct (s_parts s); [done|unfold len; cbn; lia]).
  assert (Ha : s_acked s = repeat false (length (s_parts s))).
  { revert new_sender. unfold NewResourceSender. case_if; [done|]. intros E. by injection E as <-. }
  split; [apply new_sender_inv| |intros _; cbn; lia]. intros _. exists [].
  unfold view. cbn [init_sys y_s y_r y_rs y_out NewResourceReceiver r_byID]. rewrite lookup_empty, decide_True by done. cbn [fst snd].
  split; cbn [marks fmap list_fmap]; try (intros; lia).
  - rewrite lookup_repeat. by case_if.
  - intros f Hf. by apply not_elem_of_nil in Hf.
  - intros b bm Hb. by apply not_elem_of_nil in Hb.
  - intros b bm j Hb. by apply not_elem_of_nil in Hb.
  - intros m Hm. apply list_elem_of_singleton in Hm. lia.
  - intros b bm j m Hb. by apply not_elem_of_nil in Hb.
  - intros k Hk. by rewrite Ha in Hk.
  - intros m Hm Hk. rewrite Ha, lookup_repeat in Hk. by case_if_in Hk.
Qed.

Lemma reachable_same_transfer y : reachable id (init_sys s) y -> same_transfer s (y_s y).
Proof using id_len.
  induction 1 as [|y y' _ IH Hs]; [done|]. eapply same_transfer_trans; [exact IH|].
  destruct Hs as
    [now s0 r sr rs out s' fs H|now s0 r sr rs out s' fs H|s0 r sr rs out
    |now it1 it2 f s0 r sr rs out r' fs ds Hf H|now it1 it2 f s0 r sr rs out r' fs ds Hf H
    |now f s0 r sr rs out s' fs Hf H]; cbn [y_s] in *; try done.
  - pose proof (Start_same now s0) as [[Hs _] _]. by rewrite H in Hs.
  - pose proof (retransmitTick_same now s0) as [[Hs _] _]. by rewrite H in Hs.
  - apply finish_same.
  - assert (Hs : advanced s0 (Sender_Feed now s0 f).1) by (by eapply Sender_Feed_advanced).
    rewrite H in Hs. apply Hs.
Qed.

(** A history in which the receiver never opens the resource: its advertisement
    was lost, or refused. *)
Inductive unheard : sys -> Prop :=
| unheard_start : unheard (init_sys s)
| unheard_step y y' : unheard y -> step id y y' -> r_byID (y_r y') !! id = None -> unheard y'.

Lemma unheard_reachable y : unheard y -> reachable id (init_sys s) y /\ r_byID (y_r y) !! id = None.
Proof using Type. induction 1 as [|y y' _ [IH _] Hs Hn]; [by split; [apply reach_refl|]|]. split; [by eapply reach_step|done]. Qed.

Lemma adv_silent now it1 it2 r f r' fs ds :
  frameTag f = resTagAdv -> Receiver_Feed now it1 it2 r f = (r', fs, ds) -> fs = [] /\ ds = [].
Proof.
  intros Ht H. unfold Receiver_Feed in H. case_if_in H; [by simplify_eq|].
  rewrite Ht, bool_decide_eq_true_2 in H by done. unfold onAdv in H. do 4 (case_if_in H; [by simplify_eq|]).
  destruct (r_byID r !! frameID f); [by simplify_eq|]. case_if_in H; by simplify_eq.
Qed.

Lemma unheard_silent y : unheard y -> deliveries id (y_out y) = 0%nat /\ Forall (fun f => frameID f <> id) (y_rs y).
Proof using All.
  induction 1 as [|y y' Hu [IH1 IH2] Hs Hn]; [done|]. destruct (unheard_reachable y Hu) as [Hr Hnone].
  pose proof (sender_parts _ _ _ _ _ _ new_sender) as (_ & S2 & _).
  pose proof (reachable_inv id data (s_parts s) S2 few_parts id_len sha256_len _ _ new_sender_inv Hr) as [_ [_ I2] I3 _ _].
  destruct Hs as
    [now s0 r sr rs out s' fs H|now s0 r sr rs out s' fs H|s0 r sr rs out
    |now it1 it2 f s0 r sr rs out r' fs ds Hf H|now it1 it2 f s0 r sr rs out r' fs ds Hf H
    |now f s0 r sr rs out s' fs Hf H]; cbn [y_s y_r y_sr y_rs y_out] in *; try done.
  - assert (Hq : fs = [] /\ ds = []).
    { rewrite Forall_forall in I3. destruct (I3 f Hf) as [->|(i & p & Hp & ->)]; [eapply adv_silent; [|exact H]; reflexivity|].
      rewrite (part_closed id (s_parts s) few_parts id_len now it1 it2 r i p Hnone Hp) in H.
      destruct (r_finished r !! id) eqn:E; [exfalso|by simplify_eq].
      eapply delivered_deliveries; [exact IH1|]. apply I2. by eexists. }
    destruct Hq as [-> ->]. by rewrite !app_nil_r.
  - destruct (Receiver_Feed_local now it1 it2 r f r' fs ds H) as (_ & L2 & L3). split.
    + rewrite deliveries_app, IH1, deliveries_none; [done|]. eapply Forall_impl; [exact L3|]. by intros d ->.
    + apply Forall_app. split; [done|]. eapply Forall_impl; [exact L2|]. by intros g ->.
Qed.

Lemma send_parts_tags s0 i todo now sa : Forall (fun f => frameTag f = resTagPart) (send_parts s0 i todo now sa).1.
Proof using Type.
  revert i sa. induction todo as [|todo IH]; intros i sa; cbn [send_parts]; [constructor|].
  specialize (IH (S i) (<[i := now]> sa)). destruct (send_parts _ _ todo _ _). by constructor.
Qed.

Lemma due_loop_tags s0 now i todo sa : Forall (fun f => frameTag f = resTagPart) (due_loop s0 now i todo sa).1.
Proof using Type.
  revert i sa. induction todo as [|todo IH]; intros i sa; cbn [due_loop]; [constructor|]. destruct (_ && _); [|done].
  specialize (IH (S i) (<[i := now]> sa)). destruct (due_loop _ _ _ todo _). by constructor.
Qed.

(** Retransmission never repeats the advertisement. *)
Lemma retransmitTick_tags now s0 : Forall (fun f => frameTag f = resTagPart) (retransmitTick now s0).2.
Proof using Type.
  unfold retransmitTick. destruct (s_done s0); [constructor|]. unfold dueRetransmitsLocked, fillWindowLocked.
  match goal with |- context [due_loop s0 now ?i ?k ?sa] => pose proof (due_loop_tags s0 now i k sa); destruct (due_loop s0 now i k sa) end.
  match goal with |- context [send_parts ?x ?i ?k now ?sa] => pose proof (send_parts_tags x i k now sa); destruct (send_parts x i k now sa) end.
  by apply Forall_app.
Qed.
End Histories.

(** C11: A transfer in a state from which it can complete does complete.  Let any
    sequence of steps of sender, receiver and a network that loses, repeats and reorders
    frames have led to a state that is [ready]: the receiver either has taken the
    advertisement and delivered nothing yet, or has delivered the resource exactly once,
    closed it and still remembers it.  Then [ceil (parts / window)] rounds, each
    starting a retransmission timeout after the last one ended, in which one
    retransmission tick and its replies get through, make the sender report success,
    with the data delivered.  The two states left out stall in the code: a receiver that
    never had the advertisement, which is not retransmitted ([advertisement_lost]), and
    one that delivered the resource and was advertised it again
    ([repeated_advertisement_strands]). *)
Theorem resource_completes `{C : CryptoOps} `{L : !CryptoLaws C} id data partSize window rto s y t ts it1 it2 :
  length id = 16%nat -> NewResourceSender id data partSize window rto = Ok s -> len (s_parts s) < 2 ^ 32 ->
  reachable id (init_sys s) y -> s_done (y_s y) = None -> ready id y ->
  sent_by t (y_s y) -> spaced (s_rto s) t ts -> len (s_parts s) <= len ts * s_window s ->
  let y' := rounds ts it1 it2 y in
  s_done (y_s y') = Some true /\ (id, data) ∈ y_out y'.
Proof.
  intros Hid Hs Hn Hr Hd Hready Hsent Hsp Hlen. destruct (sender_parts _ _ _ _ _ _ Hs) as (S1 & S2 & _ & _ & _ & _ & _ & Sw & _).
  assert (Hrto : 0 <= s_rto s).
  { revert Hs. unfold NewResourceSender. case_if; [done|]. intros E. injection E as <-. cbn. case_if; [done|lia]. }
  destruct (reachable_same_transfer id s Hid y Hr) as (_ & _ & Tw & Tr).
  pose proof (new_sender_live id data partSize window rto s Hid Hs Hn) as H0.
  assert (Hfin : s_done (y_s (rounds ts it1 it2 y)) = Some true).
  { eapply (rounds_finish id data (s_parts s) S2 Hn Hid sha256_len); try done; rewrite ?Tw, ?Tr; try done.
    destruct (live_reachable id data (s_parts s) S2 Hn Hid sha256_len _ _ H0 Hr) as [[(_ & _ & _ & _ & _ & Hb & _) _ _ _ _] _ _].
    unfold len in *. lia. }
  split; [done|].
  pose proof (rounds_reachable id data (s_parts s) S2 Hn Hid sha256_len ts it1 it2 _ _ Hr) as Hr'.
  destruct (live_reachable id data (s_parts s) S2 Hn Hid sha256_len _ _ H0 Hr') as [[(_ & _ & _ & _ & H & _) _ _ _ _] _ _].
  by apply H.
Qed.

(** After [Start] and the arrival of its first frame. *)
Lemma sample_advertised : exists y, reachable (C := toy_ops) sample_id (init_sys sample_sender) y /\
  s_done (y_s y) = None /\ ready sample_id y /\ sent_by 0 (y_s y).
Proof.
  eexists. split.
  - eapply reach_step; [eapply reach_step; [apply reach_refl|]|].
    + apply (step_start _ 0). vm_compute. reflexivity.
    + eapply (step_recv _ 1 [] []); [left|vm_compute; reflexivity].
  - split_and!; [vm_compute; reflexivity|left; split; [vm_compute; reflexivity|eexists; vm_compute; reflexivity]|].
    vm_compute. split; [discriminate|]. constructor; [discriminate|constructor].
Qed.

Lemma resource_completes_witness :
  exists y, s_done (y_s y) = Some true /\ (sample_id, [x01; x02]) ∈ y_out y.
Proof.
  destruct sample_advertised as (y & Hr & Hd & Hready & Hsent). eexists.
  apply (@resource_completes toy_ops toy_laws sample_id [x01; x02] 4 32 0 sample_sender y 0
    [(defaultResRTO, defaultResRTO + 1)] [] []);
    [reflexivity|vm_compute; reflexivity|vm_compute; reflexivity|exact Hr|exact Hd|exact Hready|exact Hsent
    |vm_compute; split; [discriminate|split; [discriminate|exact I]]|vm_compute; discriminate].
Defined.

(** The advertisement is sent once, by [Start]: retransmission repeats only
    parts, and the receiver answers nothing about a resource it was not told of.
    So if it is lost, or refused, the sender never reports success and nothing is
    delivered, however long it retransmits. *)
Theorem advertisement_lost `{C : CryptoOps} `{L : !CryptoLaws C} id data partSize window rto s y :
  length id = 16%nat -> NewResourceSender id data partSize window rto = Ok s -> len (s_parts s) < 2 ^ 32 ->
  unheard id s y ->
  s_done (y_s y) <> Some true /\ (forall d, (id, d) ∉ y_out y) /\ Forall (fun f => frameID f <> id) (y_rs y) /\
  forall now, Forall (fun f => frameTag f = resTagPart) (retransmitTick now (y_s y)).2.
Proof.
  intros Hid Hs Hn Hu. destruct (sender_parts _ _ _ _ _ _ Hs) as (S1 & S2 & _).
  destruct (unheard_silent id data partSize window rto s Hid Hs Hn y Hu) as [Hz Hf].
  assert (Hno : forall d, (id, d) ∉ y_out y).
  { intros d. by apply (delivered_deliveries id d). }
  destruct (reachable_inv id data (s_parts s) S2 Hn Hid sha256_len _ _ (new_sender_inv id data partSize window rto s Hid Hs Hn)
    (proj1 (unheard_reachable id s y Hu))) as [(_ & _ & _ & _ & H & _) _ _ _ _].
  split_and!; [|done|done|intros now; apply retransmitTick_tags]. intros E. by apply (Hno data), H.
Qed.

(** One second of retransmissions into a receiver that never heard of the
    resource: every part arrives, nothing comes back. *)
Example lost_advertisement_starves :
  let '(s1, sent) := Start 0 sample_sender in
  let parts := tail sent in
  let '(r1, replies, ds) := @receive_all toy_ops 1 [] [] NewResourceReceiver parts in
  let '(s2, again) := retransmitTick defaultResRTO s1 in
  let '(r2, replies2, ds2) := @receive_all toy_ops defaultResRTO [] [] r1 again in
  len again = 1 /\ again = parts /\ replies ++ replies2 = [] /\ ds ++ ds2 = [] /\ s_done s2 = None.
Proof. vm_compute. split_and!; reflexivity. Qed.

Definition two_parts : ResourceSender :=
  mkSender sample_id [[x01]; [x02]] (@sha256 toy_ops [x01; x02]) 32 defaultResRTO 0 [false; false] [0; 0] 0 None.

(** When the last acknowledgement and the [Done] are lost and the advertisement
    then arrives a second time, the receiver starts over: the sender, told by the
    selective bit that its last part is there, has nothing left to send and never
    learns that the resource was delivered. *)
Example repeated_advertisement_strands :
  match Start 0 two_parts with
  | (s1, [adv; p0; p1]) =>
      let '(r1, replies, ds) := @receive_all toy_ops 1 [] [] NewResourceReceiver [adv; p0; p1] in
      let '(s2, _) := acknowledge_all 2 s1 (take 1 replies) in
      let '(r2, _, _) := @Receiver_Feed toy_ops 3 [] [] r1 adv in
      let '(s3, again) := retransmitTick defaultResRTO s2 in
      let '(r3, replies2, ds2) := @receive_all toy_ops defaultResRTO [] [] r2 again in
      let '(s4, _) := acknowledge_all defaultResRTO s3 replies2 in
      ds = [(sample_id, [x01; x02])] /\ again = [p1] /\ len replies2 = 1 /\ ds2 = [] /\ s_done s4 = None /\
      forall now, retransmitTick now s4 = (s4, [])
  | _ => False
  end.
Proof. vm_compute. split_and!; reflexivity. Qed.
