(* ===== verification/Link.v ===== *)
(** * Link sessions and their router (internal/link/link.go, router.go)

    The link manager: the request / proof / data handshake, the cache of reusable
    links, and encrypted sending with direction-separated counter nonces; and the
    router that multiplexes one link between messages, relay blobs and resources.

    A [*Link] is an address in the manager's [mg_heap], because [links], [byPeer]
    and the result of a dial share the object.  The [encoding/json] encoding of the
    three payloads is the parameter [LinkJson].  An operation returns the new state
    and the frames handed to [send], as (address, frame) pairs. *)

From S2P Require Import Prelude Crypto Wire LinkMessage LinkResource.

Record requestPayload : Type := mkReq { rq_LinkID : bytes; rq_EphPub : bytes }.
Record proofPayload : Type := mkProof { pf_LinkID : bytes; pf_EphPub : bytes; pf_Signature : bytes }.
Record dataPayload : Type := mkData { dt_LinkID : bytes; dt_Nonce : bytes; dt_Cipher : bytes }.

Class LinkJson := {
  req_enc : requestPayload -> bytes;
  req_dec : bytes -> option requestPayload;
  proof_enc : proofPayload -> bytes;
  proof_dec : bytes -> option proofPayload;
  data_enc : dataPayload -> bytes;
  data_dec : bytes -> option dataPayload
}.

Class LinkJsonLaws (J : LinkJson) : Prop := {
  req_roundtrip p : req_dec (req_enc p) = Some p;
  proof_roundtrip p : proof_dec (proof_enc p) = Some p;
  data_roundtrip p : data_dec (data_enc p) = Some p;
  req_size p : len (req_enc p) <= 4 * (len (rq_LinkID p) + len (rq_EphPub p)) + 256;
  proof_size p : len (proof_enc p) <= 4 * (len (pf_LinkID p) + len (pf_EphPub p) + len (pf_Signature p)) + 256;
  data_size p : len (data_enc p) <= 4 * (len (dt_LinkID p) + len (dt_Nonce p) + len (dt_Cipher p)) + 256
}.

Record Link : Type := mkLink {
  lk_ID : bytes;
  lk_peerAddr : string;
  lk_peerKey : string;
  lk_key : bytes;          (** the AES-256-GCM key of [aead] *)
  lk_initiator : bool;
  lk_sendCtr : Z           (** [atomic.Uint64] *)
}.

Record pendingDial : Type := mkPending {
  pd_eph : bytes;
  pd_destSignPub : bytes;
  pd_result : option nat   (** the one-slot channel *)
}.

Record Manager : Type := mkManager {
  mg_self : bytes;
  mg_heap : gmap nat Link;
  mg_next : nat;
  mg_links : gmap bytes nat;
  mg_pending : gmap bytes pendingDial;
  mg_byPeer : gmap string nat;
  mg_mtuOf : option (string -> Z)
}.

Definition NewManager (self : bytes) : Manager := mkManager self ∅ 0 ∅ ∅ ∅ None.

Definition SetMTUFunc (fn : string -> Z) (m : Manager) : Manager :=
  mkManager (mg_self m) (mg_heap m) (mg_next m) (mg_links m) (mg_pending m) (mg_byPeer m) (Some fn).

Definition chunkFor (m : Manager) (addr : string) : Z :=
  match mg_mtuOf m with Some fn => maxChunkForMTU (fn addr) | None => maxMessageChunk end.

Definition set_links (m : Manager) (l : gmap bytes nat) : Manager :=
  mkManager (mg_self m) (mg_heap m) (mg_next m) l (mg_pending m) (mg_byPeer m) (mg_mtuOf m).
Definition set_pending (m : Manager) (p : gmap bytes pendingDial) : Manager :=
  mkManager (mg_self m) (mg_heap m) (mg_next m) (mg_links m) p (mg_byPeer m) (mg_mtuOf m).
Definition set_byPeer (m : Manager) (p : gmap string nat) : Manager :=
  mkManager (mg_self m) (mg_heap m) (mg_next m) (mg_links m) (mg_pending m) p (mg_mtuOf m).
Definition set_link (m : Manager) (p : nat) (l : Link) : Manager :=
  mkManager (mg_self m) (<[p := l]> (mg_heap m)) (mg_next m) (mg_links m) (mg_pending m) (mg_byPeer m) (mg_mtuOf m).

(** [&Link{...}]: a fresh object. *)
Definition alloc_link (m : Manager) (l : Link) : nat * Manager :=
  (mg_next m, mkManager (mg_self m) (<[mg_next m := l]> (mg_heap m)) (S (mg_next m)) (mg_links m) (mg_pending m)
                (mg_byPeer m) (mg_mtuOf m)).

Definition link_hkdfInfo : bytes := str_bytes "syncswarm-link-v1".

Definition proofTranscript (linkID ephPub : bytes) : bytes :=
  let t := [] ++ linkID in t ++ ephPub.

Definition peerKey (destSignPub : bytes) (addr : string) : string :=
  if 0 <? len destSignPub then ("k:" ++ bytes_str destSignPub)%string else ("a:" ++ addr)%string.

Section Link.
Context `{C : CryptoOps} `{J : LinkJson}.

Definition deriveAEAD (secret linkID : bytes) : option bytes := hkdf32 secret linkID link_hkdfInfo.

(** [now] and [nowStr] are what [NewPacket] reads from the clock. *)
Definition sendPacket (now : Z) (nowStr : bytes) (addr : string) (typ : Z) (data : bytes) : string * bytes :=
  (addr, MarshalBinary (NewPacket now nowStr typ data "ANY" "")).

(** [Dial] up to its wait: [eph] and [id] are drawn at random. *)
Definition Dial_start (now : Z) (nowStr : bytes) (m : Manager) (addr : string) (destSignPub eph id : bytes) :
    Manager * list (string * bytes) :=
  let m := set_pending m (<[id := mkPending eph destSignPub None]> (mg_pending m)) in
  (m, [sendPacket now nowStr addr PacketTypeLinkRequest (req_enc (mkReq id (x_public eph)))]).

(** [Dial] after the wait: [timedOut] tells which case of the [select] ran. *)
Definition Dial_finish (m : Manager) (addr : string) (id : bytes) (timedOut : bool) : Manager * option nat :=
  let res := match mg_pending m !! id with Some pd => if timedOut then None else pd_result pd | None => None end in
  let m :=
    match res with
    | Some p =>
        match mg_heap m !! p with
        | Some l => set_link m p (mkLink (lk_ID l) addr (lk_peerKey l) (lk_key l) (lk_initiator l) (lk_sendCtr l))
        | None => m
        end
    | None => m
    end in
  (set_pending m (delete id (mg_pending m)), res).

Definition Close (m : Manager) (p : nat) : Manager :=
  match mg_heap m !! p with
  | None => m
  | Some l =>
      let m := set_links m (delete (lk_ID l) (mg_links m)) in
      if negb (String.eqb (lk_peerKey l) "") && bool_decide (mg_byPeer m !! lk_peerKey l = Some p)
      then set_byPeer m (delete (lk_peerKey l) (mg_byPeer m)) else m
  end.

(** [DialCached] before and after its [Dial]. *)
Definition DialCached_lookup (m : Manager) (addr : string) (destSignPub : bytes) : option nat :=
  mg_byPeer m !! peerKey destSignPub addr.

Definition DialCached_store (m : Manager) (addr : string) (destSignPub : bytes) (p : nat) : Manager * nat :=
  let key := peerKey destSignPub addr in
  match mg_byPeer m !! key with
  | Some existing => (Close m p, existing)
  | None =>
      let m := match mg_heap m !! p with
               | Some l => set_link m p (mkLink (lk_ID l) (lk_peerAddr l) key (lk_key l) (lk_initiator l) (lk_sendCtr l))
               | None => m
               end in
      (set_byPeer m (<[key := p]> (mg_byPeer m)), p)
  end.

(** [eph] is the responder's ephemeral key.  Also returned: the link handed to
    [onLink].  [ecdh.NewPublicKey] fails on malformed bytes. *)
Definition handleRequest (now : Z) (nowStr eph : bytes) (m : Manager) (addr : string) (payload : bytes) :
    Manager * list (string * bytes) * option nat :=
  match req_dec payload with
  | None => (m, [], None)
  | Some req =>
      if negb (x_valid_pub (rq_EphPub req)) then (m, [], None)
      else
        match x_ecdh eph (rq_EphPub req) with
        | None => (m, [], None)
        | Some secret =>
            match deriveAEAD secret (rq_LinkID req) with
            | None => (m, [], None)
            | Some key =>
                let sig := ed_sign (mg_self m) (proofTranscript (rq_LinkID req) (x_public eph)) in
                let frame := sendPacket now nowStr addr PacketTypeLinkProof
                               (proof_enc (mkProof (rq_LinkID req) (x_public eph) sig)) in
                let '(p, m) := alloc_link m (mkLink (rq_LinkID req) addr "" key false 0) in
                (set_links m (<[rq_LinkID req := p]> (mg_links m)), [frame], Some p)
            end
        end
  end.

Definition handleProof (m : Manager) (payload : bytes) : Manager :=
  match proof_dec payload with
  | None => m
  | Some pr =>
      match mg_pending m !! pf_LinkID pr with
      | None => m
      | Some pd =>
          if negb (ed_verify (pd_destSignPub pd) (proofTranscript (pf_LinkID pr) (pf_EphPub pr)) (pf_Signature pr)) then m
          else if negb (x_valid_pub (pf_EphPub pr)) then m
          else
            match x_ecdh (pd_eph pd) (pf_EphPub pr) with
            | None => m
            | Some secret =>
                match deriveAEAD secret (pf_LinkID pr) with
                | None => m
                | Some key =>
                    let '(p, m) := alloc_link m (mkLink (pf_LinkID pr) "" "" key true 0) in
                    let m := set_links m (<[pf_LinkID pr := p]> (mg_links m)) in
                    let pd := mkPending (pd_eph pd) (pd_destSignPub pd)
                                (match pd_result pd with None => Some p | Some q => Some q end) in
                    set_pending m (<[pf_LinkID pr := pd]> (mg_pending m))
                end
            end
      end
  end.

(** The plaintext handed to the link's [onData], if any. *)
Definition handleData (m : Manager) (payload : bytes) : option (nat * bytes) :=
  match data_dec payload with
  | None => None
  | Some d =>
      match mg_links m !! dt_LinkID d with
      | None => None
      | Some p =>
          match mg_heap m !! p with
          | None => None
          | Some l =>
              match gcm_open (lk_key l) (dt_Nonce d) (dt_Cipher d) [] with
              | None => None
              | Some pt => Some (p, pt)
              end
          end
      end
  end.

Inductive link_event : Type := evNone | evLink (p : nat) | evData (p : nat) (pt : bytes).

Definition Deliver (now : Z) (nowStr eph : bytes) (m : Manager) (addr : string) (pkt : Packet) :
    Manager * list (string * bytes) * link_event :=
  if p_Type pkt =? PacketTypeLinkRequest then
    let '(m, fs, o) := handleRequest now nowStr eph m addr (p_Payload pkt) in
    (m, fs, match o with Some p => evLink p | None => evNone end)
  else if p_Type pkt =? PacketTypeLinkProof then (handleProof m (p_Payload pkt), [], evNone)
  else if p_Type pkt =? PacketTypeLinkData then
    (m, [], match handleData m (p_Payload pkt) with Some (p, pt) => evData p pt | None => evNone end)
  else (m, [], evNone).

(** The nonce of the [ctr]-th send in a direction. *)
Definition link_nonce (initiator : bool) (ctr : Z) : bytes :=
  [if initiator then x01 else x00] ++ repeat x00 3 ++ be_bytes 8 ctr.

Definition Link_Send (now : Z) (nowStr : bytes) (m : Manager) (p : nat) (data : bytes) :
    Manager * list (string * bytes) :=
  match mg_heap m !! p with
  | None => (m, [])
  | Some l =>
      let ctr := u64 (lk_sendCtr l + 1) in
      let nonce := link_nonce (lk_initiator l) ctr in
      let ct := gcm_seal (lk_key l) nonce data [] in
      let m := set_link m p (mkLink (lk_ID l) (lk_peerAddr l) (lk_peerKey l) (lk_key l) (lk_initiator l) ctr) in
      (m, [sendPacket now nowStr (lk_peerAddr l) PacketTypeLinkData (data_enc (mkData (lk_ID l) nonce ct))])
  end.

(** ** The router *)

Definition subMessage : byte := x01.
Definition subResource : byte := x02.
Definition subRelay : byte := x03.
Definition resourceFrameOverhead : Z := 1 + 1 + Z.of_nat resIDLen + 4.

Record Router : Type := mkRouter {
  ro_reasm : option LinkMessage.Reassembler;
  ro_relay : option LinkMessage.Reassembler;
  ro_senders : gmap bytes ResourceSender;
  ro_receiver : option ResourceReceiver
}.

Definition NewRouter : Router := mkRouter None None ∅ None.
Definition OnMessage (r : Router) : Router := mkRouter (Some ∅) (ro_relay r) (ro_senders r) (ro_receiver r).
Definition OnRelay (r : Router) : Router := mkRouter (ro_reasm r) (Some ∅) (ro_senders r) (ro_receiver r).

(** What a frame makes the router do: the resource frames to answer (already
    prefixed), the messages, relay blobs and resources delivered. *)
Record routed : Type := mkRouted {
  rd_send : list bytes;
  rd_messages : list bytes;
  rd_relays : list bytes;
  rd_resources : list (bytes * bytes)
}.
Definition routed_none : routed := mkRouted [] [] [] [].

Definition resourceSend (f : bytes) : bytes := [subResource] ++ f.

(** The iteration orders the two tables may need. *)
Record orders : Type := mkOrders {
  or_m1 : list (bytes * partial); or_m2 : list (bytes * partial);
  or_r1 : list (bytes * Z); or_r2 : list (bytes * Z)
}.

Definition getReceiver (r : Router) : ResourceReceiver :=
  match ro_receiver r with Some rc => rc | None => NewResourceReceiver end.

Definition routeResource (now : Z) (o : orders) (r : Router) (f : bytes) : Router * routed :=
  match f with
  | [] => (r, routed_none)
  | t :: _ =>
      if bool_decide (t = resTagAdv) || bool_decide (t = resTagPart) then
        let '(rc, fs, ds) := Receiver_Feed now (or_r1 o) (or_r2 o) (getReceiver r) f in
        (mkRouter (ro_reasm r) (ro_relay r) (ro_senders r) (Some rc), mkRouted (map resourceSend fs) [] [] ds)
      else if bool_decide (t = resTagAck) || bool_decide (t = resTagDone) then
        if len f <? 1 + Z.of_nat resIDLen then (r, routed_none)
        else
          match ro_senders r !! frameID f with
          | None => (r, routed_none)
          | Some s =>
              let '(s, fs) := Sender_Feed now s f in
              (mkRouter (ro_reasm r) (ro_relay r) (<[frameID f := s]> (ro_senders r)) (ro_receiver r),
               mkRouted (map resourceSend fs) [] [] [])
          end
      else (r, routed_none)
  end.

Definition feed (now : Z) (o : orders) (r : Router) (frame : bytes) : Router * routed :=
  match frame with
  | [] => (r, routed_none)
  | t :: body =>
      if bool_decide (t = subMessage) then
        match ro_reasm r with
        | None => (r, routed_none)
        | Some ra =>
            let '(ra, ms) := LinkMessage.Feed now (or_m1 o) (or_m2 o) ra body in
            (mkRouter (Some ra) (ro_relay r) (ro_senders r) (ro_receiver r), mkRouted [] ms [] [])
        end
      else if bool_decide (t = subResource) then routeResource now o r body
      else if bool_decide (t = subRelay) then
        match ro_relay r with
        | None => (r, routed_none)
        | Some ra =>
            let '(ra, ms) := LinkMessage.Feed now (or_m1 o) (or_m2 o) ra body in
            (mkRouter (ro_reasm r) (Some ra) (ro_senders r) (ro_receiver r), mkRouted [] [] ms [])
        end
      else (r, routed_none)
  end.

(** [SendMessage] and [SendRelay]: the frames handed to [Link.Send]. *)
Definition prefixed_send (t : byte) (s : list bytes) (f : bytes) : result link_err (list bytes) := Ok (s ++ [[t] ++ f]).

Definition Router_SendMessage (m : Manager) (addr : string) (msgID data : bytes) : result link_err (list bytes) :=
  let chunk := chunkFor m addr - 1 in
  sendMessageChunks (prefixed_send subMessage) msgID chunk data [].

Definition Router_SendRelay (m : Manager) (addr : string) (msgID blob : bytes) : result link_err (list bytes) :=
  let chunk := chunkFor m addr - 1 in
  sendMessageChunks (prefixed_send subRelay) msgID chunk blob [].

(** [SendResource] up to its wait: the sender is registered and started. *)
Definition SendResource_start (now : Z) (m : Manager) (addr : string) (r : Router) (id data : bytes) :
    result res_err (Router * list bytes) :=
  let partSize := chunkFor m addr - resourceFrameOverhead in
  let partSize := if partSize <? 1 then 1 else partSize in
  try s := NewResourceSender id data partSize 0 0 in
  let '(s, fs) := Start now s in
  Ok (mkRouter (ro_reasm r) (ro_relay r) (<[s_id s := s]> (ro_senders r)) (ro_receiver r), map resourceSend fs).

(** The deferred removal. *)
Definition SendResource_end (r : Router) (id : bytes) : Router :=
  mkRouter (ro_reasm r) (ro_relay r) (delete id (ro_senders r)) (ro_receiver r).
End Link.

(** ** The handshake *)

Section Handshake.
Context `{C : CryptoOps} `{L : !CryptoLaws C} `{J : LinkJson} `{JL : !LinkJsonLaws J}.

(** A frame read off the wire. *)
Definition receive (frame : bytes) : option Packet :=
  match UnmarshalBinary frame with Ok p => Some p | Err _ => None end.

Lemma sendPacket_receive now nowStr addr typ data :
  is_i64 now -> is_u8 typ -> is_u32 (len data) ->
  exists pkt, receive (sendPacket now nowStr addr typ data).2 = Some pkt /\ p_Type pkt = typ /\ p_Payload pkt = data.
Proof using L.
  intros Hn Ht Hd. cbn [sendPacket snd]. set (p := NewPacket now nowStr typ data "ANY" "").
  assert (Hwf : wf_packet p).
  { split; cbn -[u32]; try done; try (apply u32_is_u32).
    pose proof (sha256_len (([] ++ data) ++ nowStr)) as H. cbn in H. unfold len in H. lia. }
  exists p. split; [|done]. unfold receive.
  pose proof (UnmarshalBinary_reads _ p [] (unmarshal_body_reads p Hwf)) as H. rewrite app_nil_r in H. by rewrite H.
Qed.

Lemma length_link_nonce b c : len (link_nonce b c) = gcm_NonceSize.
Proof. unfold link_nonce. rewrite !len_app, len_be_bytes. by destruct b. Qed.

(** Two ends of a link: same identifier, same key, opposite directions, both
    registered at their managers. *)
Definition linked (m : Manager) (p : nat) (id key : bytes) (addr : string) (initiator : bool) : Prop :=
  mg_links m !! id = Some p /\
  exists pk ctr, mg_heap m !! p = Some (mkLink id addr pk key initiator ctr).

Lemma handshake_response now nowStr eph ephB B addrA id :
  exists key pB frame B',
    hkdf32 (default [] (x_ecdh ephB (x_public eph))) id link_hkdfInfo = Some key /\ len key = 32 /\
    handleRequest now nowStr ephB B addrA (req_enc (mkReq id (x_public eph))) = (B', [frame], Some pB) /\
    linked B' pB id key addrA false /\
    frame = sendPacket now nowStr addrA PacketTypeLinkProof
      (proof_enc (mkProof id (x_public ephB) (ed_sign (mg_self B) (proofTranscript id (x_public ephB))))).
Proof using L JL.
  destruct (x_ecdh_ok ephB eph) as [ss Hss]. destruct (hkdf32_ok ss id link_hkdfInfo) as [key Hk].
  exists key, (mg_next B). do 2 eexists. rewrite Hss. cbn [default from_option Datatypes.id].
  split; [done|]. split; [by eapply hkdf32_len|]. unfold handleRequest. rewrite req_roundtrip. cbn [rq_EphPub rq_LinkID].
  rewrite x_public_valid, Hss. cbn [negb]. unfold deriveAEAD. rewrite Hk. split; [done|]. split; [|done].
  split; cbn; [by rewrite lookup_insert_eq|]. exists ""%string, 0. by rewrite lookup_insert_eq.
Qed.

Lemma handshake_proof m eph ephB destPriv id key :
  len destPriv = ed_PrivateKeySize ->
  mg_pending m !! id = Some (mkPending eph (ed_public destPriv) None) ->
  hkdf32 (default [] (x_ecdh ephB (x_public eph))) id link_hkdfInfo = Some key ->
  let m' := handleProof m (proof_enc (mkProof id (x_public ephB) (ed_sign destPriv (proofTranscript id (x_public ephB))))) in
  mg_links m' !! id = Some (mg_next m) /\ mg_heap m' !! mg_next m = Some (mkLink id "" "" key true 0) /\
  mg_pending m' !! id = Some (mkPending eph (ed_public destPriv) (Some (mg_next m))).
Proof using L JL.
  intros Hk Hp Hkey. cbn zeta. unfold handleProof. rewrite proof_roundtrip. cbn [pf_LinkID pf_EphPub pf_Signature].
  rewrite Hp. cbn [pd_destSignPub pd_eph pd_result]. rewrite ed_verify_sign by done. cbn [negb].
  rewrite x_public_valid. cbn [negb]. destruct (x_ecdh_ok ephB eph) as [ss Hss].
  rewrite <- (x_ecdh_comm ephB eph), Hss. rewrite Hss in Hkey. cbn [default from_option Datatypes.id] in Hkey. unfold deriveAEAD. rewrite Hkey.
  cbn. by rewrite !lookup_insert_eq.
Qed.

(** Data over an established link. *)
Lemma link_data now nowStr mS pS mR pR id key addrS addrR b data :
  is_i64 now -> len data < 2 ^ 28 -> len id = 16 -> len key = 32 ->
  linked mS pS id key addrS b -> linked mR pR id key addrR (negb b) ->
  exists frame mS', Link_Send now nowStr mS pS data = (mS', [(addrS, frame)]) /\
    linked mS' pS id key addrS b /\
    exists pkt, receive frame = Some pkt /\ forall nw nws e a, Deliver nw nws e mR a pkt = (mR, [], evData pR data).
Proof using L JL.
  intros Hn Hd Hid Hk [HS1 (pkS & cS & HS2)] [HR1 (pkR & cR & HR2)]. unfold Link_Send. rewrite HS2. cbn [lk_sendCtr lk_initiator lk_key lk_ID lk_peerAddr lk_peerKey].
  set (nonce := link_nonce b (u64 (cS + 1))). set (ct := gcm_seal key nonce data []).
  set (dp := data_enc (mkData id nonce ct)).
  assert (Hsz : is_u32 (len dp)).
  { pose proof (data_size (mkData id nonce ct)) as Hs. cbn [dt_LinkID dt_Nonce dt_Cipher] in Hs. fold dp in Hs.
    unfold ct, nonce in Hs. rewrite length_link_nonce, gcm_seal_len, Hid in Hs. unfold gcm_NonceSize, gcm_TagSize in Hs.
    pose proof (len_nonneg dp). unfold is_u32. lia. }
  destruct (sendPacket_receive now nowStr addrS PacketTypeLinkData dp Hn ltac:(done) Hsz) as (pkt & H1 & H2 & H3).
  do 2 eexists. split; [unfold sendPacket; reflexivity|]. split.
  - split; cbn; [done|]. exists pkS, (u64 (cS + 1)). by rewrite lookup_insert_eq.
  - exists pkt. split; [exact H1|]. intros nw nws e a. unfold Deliver. rewrite H2, H3.
    change (PacketTypeLinkData =? PacketTypeLinkRequest) with false. change (PacketTypeLinkData =? PacketTypeLinkProof) with false.
    rewrite Z.eqb_refl. unfold handleData, dp. rewrite data_roundtrip. cbn [dt_LinkID dt_Nonce dt_Cipher].
    rewrite HR1, HR2. cbn [lk_key]. unfold ct. rewrite gcm_open_seal; [done|done|apply length_link_nonce].
Qed.

(** C29: The three-message handshake establishes a link: the initiator's request,
    the responder's proof under the key the initiator expected, and the dial's
    completion leave both managers with a link of the same identifier and the
    same key, on which each side decrypts exactly what the other sends. *)
Theorem handshake_correct now nowStr A B addrA addrB eph ephB id data :
  is_i64 now -> len id = 16 -> len (mg_self B) = ed_PrivateKeySize -> len data < 2 ^ 28 ->
  exists A1 f1 p1 B1 f2 p2 pB A2 A3 pA key,
    Dial_start now nowStr A addrB (ed_public (mg_self B)) eph id = (A1, [(addrB, f1)]) /\ receive f1 = Some p1 /\
    Deliver now nowStr ephB B addrA p1 = (B1, [(addrA, f2)], evLink pB) /\ receive f2 = Some p2 /\
    Deliver now nowStr [] A1 addrB p2 = (A2, [], evNone) /\ Dial_finish A2 addrB id false = (A3, Some pA) /\
    linked A3 pA id key addrB true /\ linked B1 pB id key addrA false /\
    (exists A4 f p, Link_Send now nowStr A3 pA data = (A4, [(addrB, f)]) /\ receive f = Some p /\
       Deliver now nowStr [] B1 addrA p = (B1, [], evData pB data)) /\
    (exists B2 f p, Link_Send now nowStr B1 pB data = (B2, [(addrA, f)]) /\ receive f = Some p /\
       Deliver now nowStr [] A3 addrB p = (A3, [], evData pA data)).
Proof using L JL.
  intros Hn Hid HB Hd.
  set (A1 := set_pending A (<[id := mkPending eph (ed_public (mg_self B)) None]> (mg_pending A))).
  destruct (sendPacket_receive now nowStr addrB PacketTypeLinkRequest (req_enc (mkReq id (x_public eph))) Hn ltac:(done))
    as (p1 & P1 & P2 & P3).
  { pose proof (req_size (mkReq id (x_public eph))) as Hs. cbn [rq_LinkID rq_EphPub] in Hs. rewrite x_public_len, Hid in Hs.
    pose proof (len_nonneg (req_enc (mkReq id (x_public eph)))). unfold is_u32. lia. }
  destruct (handshake_response now nowStr eph ephB B addrA id) as (key & pB & frame & B1 & Hkey & Hkl & HQ & HlB & ->).
  set (sig := ed_sign (mg_self B) (proofTranscript id (x_public ephB))) in *.
  destruct (sendPacket_receive now nowStr addrA PacketTypeLinkProof (proof_enc (mkProof id (x_public ephB) sig)) Hn ltac:(done))
    as (p2 & Q1 & Q2 & Q3).
  { pose proof (proof_size (mkProof id (x_public ephB) sig)) as Hs. cbn [pf_LinkID pf_EphPub pf_Signature] in Hs.
    unfold sig in Hs. rewrite x_public_len, Hid, ed_sign_len in Hs by done. fold sig in Hs. unfold ed_SignatureSize in Hs.
    pose proof (len_nonneg (proof_enc (mkProof id (x_public ephB) sig))). unfold is_u32. lia. }
  destruct (handshake_proof A1 eph ephB (mg_self B) id key HB) as (HA1 & HA2 & HA3); [cbn; by rewrite lookup_insert_eq|done|].
  fold sig in HA1, HA2, HA3. set (A2 := handleProof A1 _) in *.
  set (A3 := set_pending (set_link A2 (mg_next A1) (mkLink id addrB "" key true 0)) (delete id (mg_pending A2))).
  assert (HlA : linked A3 (mg_next A1) id key addrB true).
  { split; [exact HA1|]. exists ""%string, 0. cbn. by rewrite lookup_insert_eq. }
  destruct (link_data now nowStr A3 (mg_next A1) B1 pB id key addrB addrA true data Hn Hd Hid Hkl HlA HlB) as (f & A4 & HS & _ & p & Hp & HD).
  destruct (link_data now nowStr B1 pB A3 (mg_next A1) id key addrA addrB false data Hn Hd Hid Hkl HlB HlA) as (g & B2 & HS' & _ & q & Hq & HD').
  exists A1, (sendPacket now nowStr addrB PacketTypeLinkRequest (req_enc (mkReq id (x_public eph)))).2, p1, B1,
    (sendPacket now nowStr addrA PacketTypeLinkProof (proof_enc (mkProof id (x_public ephB) sig))).2, p2, pB, A2, A3, (mg_next A1), key.
  split_and!; try done.
  - unfold Deliver. rewrite P2, P3, Z.eqb_refl, HQ. done.
  - unfold Deliver. rewrite Q2, Q3. done.
  - unfold Dial_finish. rewrite HA3. cbn [pd_result]. rewrite HA2. done.
  - exists A4, f, p. done.
  - exists B2, g, q. done.
Qed.

(** A proof changes the manager only when it answers a pending dial and
    carries a signature, by the key that dial expects, over the link identifier
    and the responder's ephemeral key; it then registers exactly one link, and a
    dial completed once keeps its first link. *)
Theorem proof_authenticated m payload :
  handleProof m payload = m \/
  exists pr pd key, proof_dec payload = Some pr /\ mg_pending m !! pf_LinkID pr = Some pd /\
    ed_verify (pd_destSignPub pd) (pf_LinkID pr ++ pf_EphPub pr) (pf_Signature pr) = true /\
    mg_links (handleProof m payload) = <[pf_LinkID pr := mg_next m]> (mg_links m) /\
    mg_heap (handleProof m payload) = <[mg_next m := mkLink (pf_LinkID pr) "" "" key true 0]> (mg_heap m) /\
    mg_byPeer (handleProof m payload) = mg_byPeer m /\
    (forall q, pd_result pd = Some q -> pd_result <$> mg_pending (handleProof m payload) !! pf_LinkID pr = Some (Some q)).
Proof using Type.
  unfold handleProof. destruct (proof_dec payload) as [pr|]; [|by left].
  destruct (mg_pending m !! pf_LinkID pr) as [pd|] eqn:Ep; [|by left].
  destruct (ed_verify _ _ _) eqn:Ev; cbn [negb]; [|by left].
  destruct (x_valid_pub (pf_EphPub pr)); cbn [negb]; [|by left].
  destruct (x_ecdh _ _) as [ss|]; [|by left]. destruct (deriveAEAD _ _) as [key|]; [|by left].
  right. exists pr, pd, key. cbn. split_and!; try done. intros q Hq. rewrite lookup_insert_eq. cbn. by rewrite Hq.
Qed.
End Handshake.

(** ** Nonces *)

Lemma link_nonce_inj b c b' c' :
  is_u64 c -> is_u64 c' -> link_nonce b c = link_nonce b' c' -> b = b' /\ c = c'.
Proof.
  intros Hc Hc' H. unfold link_nonce in H. cbn [app repeat] in H.
  remember (be_bytes 8 c) as x eqn:Ex. remember (be_bytes 8 c') as y eqn:Ey. injection H as Hb H.
  split; [by destruct b, b'|]. subst x y. apply be_bytes_inj in H; unfold is_u64 in *; [done|lia|lia].
Qed.

(** The nonces of [k] sends on one end, from a fresh link. *)
Definition nonces (initiator : bool) (k : nat) : list bytes :=
  map (fun i => link_nonce initiator (Z.of_nat (S i))) (seq 0 k).

Section Sends.
Context `{C : CryptoOps} `{J : LinkJson}.

(** Successive sends: the data payloads put on the wire, in order. *)
Fixpoint send_all (now : Z) (nowStr : bytes) (m : Manager) (p : nat) (datas : list bytes) : Manager * list (string * bytes) :=
  match datas with
  | [] => (m, [])
  | d :: t =>
      let '(m, fs) := Link_Send now nowStr m p d in
      let '(m, gs) := send_all now nowStr m p t in
      (m, fs ++ gs)
  end.

Lemma send_all_spec now nowStr m p l datas :
  mg_heap m !! p = Some l -> 0 <= lk_sendCtr l -> lk_sendCtr l + len datas < 2 ^ 64 ->
  (send_all now nowStr m p datas).2 =
    imap (fun i d => sendPacket now nowStr (lk_peerAddr l) PacketTypeLinkData
            (data_enc (mkData (lk_ID l) (link_nonce (lk_initiator l) (lk_sendCtr l + Z.of_nat (S i)))
               (gcm_seal (lk_key l) (link_nonce (lk_initiator l) (lk_sendCtr l + Z.of_nat (S i))) d [])))) datas.
Proof.
  revert m l. induction datas as [|d t IH]; intros m l Hl H0 Hb; [done|]. cbn [send_all].
  unfold Link_Send. rewrite Hl. rewrite len_cons in Hb. pose proof (len_nonneg t).
  assert (Hu : u64 (lk_sendCtr l + 1) = lk_sendCtr l + 1) by (unfold u64; rewrite Z.mod_small; lia). rewrite Hu.
  set (l' := mkLink (lk_ID l) (lk_peerAddr l) (lk_peerKey l) (lk_key l) (lk_initiator l) (lk_sendCtr l + 1)).
  specialize (IH (set_link m p l') l'). destruct (send_all now nowStr (set_link m p l') p t) as [m2 gs].
  cbn [snd] in *. rewrite IH; [|cbn; by rewrite lookup_insert_eq|cbn; lia|cbn; lia].
  cbn [imap app]. f_equal. apply imap_ext. intros i x _. unfold compose. cbn.
  replace (lk_sendCtr l + 1 + Z.of_nat (S i)) with (lk_sendCtr l + Z.of_nat (S (S i))) by lia. done.
Qed.
End Sends.

(** The nonces of a link never repeat: over fewer than [2^64] sends on each
    end, all nonces used under the shared key, by either side, are distinct, and
    they are the ones the sends put on the wire. *)
Theorem nonces_unique `{C : CryptoOps} `{J : LinkJson} now nowStr m p l datas ka kb :
  Z.of_nat ka < 2 ^ 64 -> Z.of_nat kb < 2 ^ 64 ->
  mg_heap m !! p = Some l -> lk_sendCtr l = 0 -> length datas = ka ->
  NoDup (nonces true ka ++ nonces false kb) /\
  exists cts, (send_all now nowStr m p datas).2 =
    zip_with (fun n c => sendPacket now nowStr (lk_peerAddr l) PacketTypeLinkData (data_enc (mkData (lk_ID l) n c)))
      (nonces (lk_initiator l) ka) cts.
Proof.
  intros Ha Hb Hl Hc Hlen.
  assert (Hnd : forall b k, Z.of_nat k < 2 ^ 64 -> NoDup (nonces b k)).
  { intros b k Hk. unfold nonces. apply NoDup_fmap_2_strong; [|apply NoDup_seq]. intros x y Hx Hy He.
    apply elem_of_seq in Hx, Hy. apply link_nonce_inj in He as [_ He]; unfold is_u64; lia. }
  split.
  - apply NoDup_app. split_and!; [by apply Hnd| |by apply Hnd].
    intros x Hx Hy. apply list_elem_of_fmap in Hx as (i & -> & Hi), Hy as (j & He & Hj).
    unfold link_nonce in He. cbn in He. discriminate.
  - exists (imap (fun i d => gcm_seal (lk_key l) (link_nonce (lk_initiator l) (Z.of_nat (S i))) d []) datas).
    rewrite (send_all_spec now nowStr m p l) by (done || lia || (rewrite Hc; unfold len; lia)).
    rewrite Hc. unfold nonces. rewrite <- Hlen. clear.
    apply list_eq. intros i. rewrite list_lookup_imap, lookup_zip_with.
    change (map ?f ?x) with (f <$> x). rewrite list_lookup_fmap, list_lookup_imap.
    destruct (datas !! i) as [d|] eqn:E.
    + rewrite lookup_seq_lt by by apply lookup_lt_Some in E. done.
    + cbn. destruct (seq 0 (length datas) !! i); done.
Qed.

(** ** A codec for the payloads *)

#[local] Instance toy_json : LinkJson := {|
  req_enc p := esc (rq_LinkID p) ++ esc (rq_EphPub p);
  req_dec b := '(i, b) ← unesc b; '(e, _) ← unesc b; Some (mkReq i e);
  proof_enc p := esc (pf_LinkID p) ++ esc (pf_EphPub p) ++ esc (pf_Signature p);
  proof_dec b := '(i, b) ← unesc b; '(e, b) ← unesc b; '(s, _) ← unesc b; Some (mkProof i e s);
  data_enc p := esc (dt_LinkID p) ++ esc (dt_Nonce p) ++ esc (dt_Cipher p);
  data_dec b := '(i, b) ← unesc b; '(e, b) ← unesc b; '(s, _) ← unesc b; Some (mkData i e s)
|}.

Lemma toy_json_laws : LinkJsonLaws toy_json.
Proof.
  split; intros []; cbn -[esc unesc len];
    repeat (rewrite unesc_esc; cbn -[esc unesc]); rewrite ?len_app, ?len_esc;
    try (rewrite <- (app_nil_r (esc _)), unesc_esc; done);
    repeat match goal with |- context [len ?x] => lazymatch goal with H : 0 <= len x |- _ => fail | _ => pose proof (len_nonneg x) end end;
    lia.
Qed.

Lemma handshake_correct_witness :
  let B := @NewManager (repeat x07 64) in
  exists A1 f1, @Dial_start toy_ops toy_json 0 [] (NewManager (repeat x05 64)) "b:1" (@ed_public toy_ops (mg_self B)) (repeat x02 32)
    (repeat x04 16) = (A1, [("b:1"%string, f1)]).
Proof.
  cbn zeta. pose proof toy_laws as L. pose proof toy_json_laws as JL.
  destruct (handshake_correct (L := L) (JL := JL) 0 [] (NewManager (repeat x05 64)) (NewManager (repeat x07 64)) "a:1" "b:1"
    (repeat x02 32) (repeat x03 32) (repeat x04 16) [x01; x02]) as (A1 & f1 & H).
  - unfold is_i64. lia.
  - reflexivity.
  - reflexivity.
  - reflexivity.
  - exists A1, f1. destruct H as (? & ? & ? & ? & ? & ? & ? & ? & ? & H & _). exact H.
Defined.

Lemma nonces_unique_witness : NoDup (nonces true 2 ++ nonces false 3).
Proof.
  refine (proj1 (nonces_unique (C := toy_ops) (J := toy_json) 0 []
    (mkManager [] {[ 0%nat := mkLink [] "" "" [] true 0 ]} 1 ∅ ∅ ∅ None) 0 (mkLink [] "" "" [] true 0) [[]; []] 2 3 _ _ _ _ _));
    reflexivity.
Defined.

(** ** Demultiplexing *)

Abbreviation router_events := (list (Z * orders * bytes)).

Section Demux.
Context `{C : CryptoOps}.

Fixpoint feed_all (r : Router) (evs : router_events) : Router * list routed :=
  match evs with
  | [] => (r, [])
  | (now, o, f) :: t =>
      let '(r, d) := feed now o r f in
      let '(r, ds) := feed_all r t in
      (r, d :: ds)
  end.

(** The bodies of the frames tagged [t], as the reassembler of that tag sees them. *)
Fixpoint events_for (t : byte) (evs : router_events) : events :=
  match evs with
  | [] => []
  | (now, o, b :: body) :: rest =>
      if bool_decide (b = t) then (now, or_m1 o, or_m2 o, body) :: events_for t rest else events_for t rest
  | (_, _, []) :: rest => events_for t rest
  end.

(** A reassembler, if its callback is set, run over its own frames. *)
Definition run_opt (ra : option LinkMessage.Reassembler) (evs : events) : option LinkMessage.Reassembler * list bytes :=
  match ra with
  | None => (None, [])
  | Some ra => let '(ra, ms) := run ra evs in (Some ra, concat ms)
  end.

Lemma routeResource_tables now o r f :
  ro_reasm (routeResource now o r f).1 = ro_reasm r /\ ro_relay (routeResource now o r f).1 = ro_relay r /\
  rd_messages (routeResource now o r f).2 = [] /\ rd_relays (routeResource now o r f).2 = [].
Proof.
  unfold routeResource. destruct f as [|t f]; [done|]. case_if.
  - by destruct (Receiver_Feed _ _ _ _ _) as [[rc fs] ds].
  - case_if; [|done]. case_if; [done|]. destruct (ro_senders r !! _); [|done]. by destruct (Sender_Feed _ _ _).
Qed.

Lemma run_opt_cons ra now it1 it2 f t :
  run_opt (Some ra) ((now, it1, it2, f) :: t) =
  (let '(ra, ms) := Feed now it1 it2 ra f in
   let '(ra', ms') := run_opt (Some ra) t in (ra', ms ++ ms')).
Proof. cbn. destruct (Feed _ _ _ _ _) as [ra' ms]. cbn. by destruct (run ra' t) as [ra'' outs]. Qed.

(** The router separates its three streams: whatever the interleaving of
    message, relay, resource and unknown frames, the message reassembler and the
    messages it delivers are those of the message frames alone, and likewise for
    relay blobs, and a stream without a callback delivers nothing. *)
Theorem router_demux r evs :
  let '(r', outs) := feed_all r evs in
  run_opt (ro_reasm r) (events_for subMessage evs) = (ro_reasm r', concat (map rd_messages outs)) /\
  run_opt (ro_relay r) (events_for subRelay evs) = (ro_relay r', concat (map rd_relays outs)).
Proof.
  revert r. induction evs as [|[[now o] f] evs IH]; intros r.
  { cbn. by destruct (ro_reasm r), (ro_relay r). }
  cbn [feed_all]. destruct (feed now o r f) as [r1 d] eqn:E. specialize (IH r1).
  destruct (feed_all r1 evs) as [r' outs]. destruct IH as [IH1 IH2]. cbn [map concat].
  destruct f as [|b body]; [cbn in E; simplify_eq; done|]. cbn [feed] in E. cbn [events_for].
  repeat (case_bool_decide; [subst b|]); try done.
  - destruct (ro_reasm r) as [ra|] eqn:Er; [|simplify_eq; rewrite Er in *; done].
    destruct (Feed now _ _ ra body) as [ra1 ms] eqn:Ef. simplify_eq. cbn [ro_reasm ro_relay] in *.
    rewrite run_opt_cons, Ef, IH1. done.
  - destruct (routeResource_tables now o r body) as (H1 & H2 & H3 & H4). rewrite E in *. cbn [fst snd] in *.
    rewrite <- H1, <- H2, H3, H4. done.
  - destruct (ro_relay r) as [ra|] eqn:Er; [|simplify_eq; rewrite Er in *; done].
    destruct (Feed now _ _ ra body) as [ra1 ms] eqn:Ef. simplify_eq. cbn [ro_reasm ro_relay] in *.
    rewrite run_opt_cons, Ef, IH2. done.
  - simplify_eq. done.
Qed.
End Demux.
