(* ===== verification/Kiss.v ===== *)
(** * KISS interfaces (internal/iface/kiss.go, duty.go)

    KISS framing over a byte stream, the transmit duty-cycle limiter, and the
    interface that composes them.  The [float64] arithmetic of the limiter is
    IEEE binary64 as specified by [SpecFloat].  The stream read is the list of
    bytes that will arrive; its end is the read error that ends [readLoop].  [now]
    is what [time.Now] returns. *)

From Stdlib Require Import SpecFloat.
From S2P Require Import Prelude.

(** ** Framing *)

Definition kissFEND : byte := xc0.
Definition kissFESC : byte := xdb.
Definition kissTFEND : byte := xdc.
Definition kissTFESC : byte := xdd.
Definition kissCmdData : byte := x00.

Definition kiss_escape (b : byte) : bytes :=
  if bool_decide (b = kissFEND) then [kissFESC; kissTFEND]
  else if bool_decide (b = kissFESC) then [kissFESC; kissTFESC]
  else [b].

Definition kissEncode (payload : bytes) : bytes :=
  let out := [kissFEND; kissCmdData] in
  let out := fold_left (fun out b => out ++ kiss_escape b) payload out in
  out ++ [kissFEND].

(** The first loop: advance past the next delimiter. *)
Fixpoint seek_start (r : bytes) : option bytes :=
  match r with
  | [] => None
  | b :: r => if bool_decide (b = kissFEND) then Some r else seek_start r
  end.

(** The second loop. *)
Fixpoint read_body (frame : bytes) (r : bytes) : option (bytes * bytes) :=
  match r with
  | [] => None
  | b :: r =>
      if bool_decide (b = kissFEND) then
        match frame with
        | [] => read_body frame r
        | _ :: body => Some (body, r)
        end
      else if bool_decide (b = kissFESC) then
        match r with
        | [] => None
        | n :: r =>
            if bool_decide (n = kissTFEND) then read_body (frame ++ [kissFEND]) r
            else if bool_decide (n = kissTFESC) then read_body (frame ++ [kissFESC]) r
            else read_body (frame ++ [n]) r
        end
      else read_body (frame ++ [b]) r
  end.

Definition readKISSFrame (r : bytes) : option (bytes * bytes) :=
  match seek_start r with None => None | Some r => read_body [] r end.

(** The frames delivered until the stream ends.  Each frame takes at least three
    bytes, so the length of the stream is enough fuel. *)
Fixpoint read_loop (fuel : nat) (r : bytes) : list bytes :=
  match fuel with
  | O => []
  | S fuel =>
      match readKISSFrame r with
      | None => []
      | Some (frame, r) => frame :: read_loop fuel r
      end
  end.

Definition readLoop (r : bytes) : list bytes := read_loop (length r) r.

(** ** The duty cycle *)

(** [float64] of an [int], and the truncating conversion back; out of range the
    conversion gives the minimal integer, as on amd64. *)
Definition f64_of_Z (z : Z) : spec_float := binary_normalize 53 1024 z 0 false.
Definition f64_mul (a b : spec_float) : spec_float := SFmul 53 1024 a b.
Definition f64_div (a b : spec_float) : spec_float := SFdiv 53 1024 a b.

Definition i64_of_f64 (f : spec_float) : Z :=
  match f with
  | S754_zero _ => 0
  | S754_finite s m e =>
      let v := if 0 <=? e then Z.shiftl (Z.pos m) e else Z.shiftr (Z.pos m) (- e) in
      let v := if s then - v else v in
      if (- 2 ^ 63 <=? v) && (v <? 2 ^ 63) then v else - 2 ^ 63
  | _ => - 2 ^ 63
  end.

(** [f <= 0], false of a NaN. *)
Definition f64_nonpos (f : spec_float) : bool :=
  match f with
  | S754_zero _ | S754_finite true _ _ | S754_infinity true => true
  | _ => false
  end.

Definition time_Second : Z := 1000000000.
Definition defaultDutyWindow : Z := 3600 * time_Second.

Record dutyEvent : Type := mkDutyEvent { de_at : Z; de_air : Z }.

Record dutyLimiter : Type := mkDuty {
  dl_window : Z;
  dl_fraction : spec_float;
  dl_bitrate : Z;
  dl_events : list dutyEvent;
  dl_spent : Z
}.

(** [nil] is [None]. *)
Definition newDutyLimiter (fraction : spec_float) (bitrate window : Z) : option dutyLimiter :=
  if f64_nonpos fraction || (bitrate <=? 0) then None
  else
    let window := if window <=? 0 then defaultDutyWindow else window in
    Some (mkDuty window fraction bitrate [] 0).

Definition airtime (d : dutyLimiter) (n : Z) : Z :=
  i64_of_f64 (f64_mul (f64_div (f64_of_Z (n * 8)) (f64_of_Z (dl_bitrate d))) (f64_of_Z time_Second)).

Definition budget (d : dutyLimiter) : Z :=
  i64_of_f64 (f64_mul (f64_of_Z (dl_window d)) (dl_fraction d)).

(** The loop of [pruneLocked]: the remaining events and budget spent. *)
Fixpoint prune_loop (cut : Z) (events : list dutyEvent) (spent : Z) : list dutyEvent * Z :=
  match events with
  | [] => ([], spent)
  | e :: t => if cut <? de_at e then (events, spent) else prune_loop cut t (i64 (spent - de_air e))
  end.

Definition pruneLocked (now : Z) (d : dutyLimiter) : dutyLimiter :=
  let cut := now - dl_window d in
  let '(events, spent) := prune_loop cut (dl_events d) (dl_spent d) in
  let spent := if spent <? 0 then 0 else spent in
  mkDuty (dl_window d) (dl_fraction d) (dl_bitrate d) events spent.

Definition allow (now : Z) (d : option dutyLimiter) (n : Z) : option dutyLimiter * bool :=
  match d with
  | None => (None, true)
  | Some d =>
      let d := pruneLocked now d in
      let air := airtime d n in
      if budget d <? i64 (dl_spent d + air) then (Some d, false)
      else (Some (mkDuty (dl_window d) (dl_fraction d) (dl_bitrate d) (dl_events d ++ [mkDutyEvent now air])
                    (i64 (dl_spent d + air))), true)
  end.

(** ** The interface *)

Inductive kiss_err : Type := errMTU | ErrClosed | ErrDutyCycleExceeded | errWrite.

Record kissInterface : Type := mkKiss {
  ki_mtu : Z;
  ki_bitrate : Z;
  ki_closed : bool;                (** [done] is closed *)
  ki_duty : option dutyLimiter;
  ki_written : bytes               (** the bytes the stream accepted *)
}.

Definition SetDutyCycle (k : kissInterface) (fraction : spec_float) (window : Z) : kissInterface :=
  mkKiss (ki_mtu k) (ki_bitrate k) (ki_closed k) (newDutyLimiter fraction (ki_bitrate k) window) (ki_written k).

(** [wr] is what [rwc.Write] does with the encoded frame: [None] when it takes all
    of it, or the number of bytes it took before it failed, and whether the
    interface is closed by then. *)
Definition kiss_Send (now : Z) (wr : option (nat * bool)) (k : kissInterface) (frame : bytes) :
    kissInterface * result kiss_err unit :=
  if ki_mtu k <? len frame then (k, Err errMTU)
  else if ki_closed k then (k, Err ErrClosed)
  else
    let encoded := kissEncode frame in
    let '(duty, ok) := allow now (ki_duty k) (len encoded) in
    if negb ok then (mkKiss (ki_mtu k) (ki_bitrate k) (ki_closed k) duty (ki_written k), Err ErrDutyCycleExceeded)
    else
      match wr with
      | None => (mkKiss (ki_mtu k) (ki_bitrate k) (ki_closed k) duty (ki_written k ++ encoded), Ok tt)
      | Some (took, closed) =>
          (mkKiss (ki_mtu k) (ki_bitrate k) closed duty (ki_written k ++ take took encoded),
           Err (if closed then ErrClosed else errWrite))
      end.

Definition kiss_Close (k : kissInterface) : kissInterface :=
  mkKiss (ki_mtu k) (ki_bitrate k) true (ki_duty k) (ki_written k).

(** ** Framing: lemmas *)

Lemma kissEncode_eq p : kissEncode p = kissFEND :: kissCmdData :: concat (map kiss_escape p) ++ [kissFEND].
Proof.
  unfold kissEncode. assert (H : forall out, fold_left (fun out b => out ++ kiss_escape b) p out = out ++ concat (map kiss_escape p)).
  { induction p as [|b p IH]; intros out; cbn [fold_left map concat]; [by rewrite app_nil_r|]. by rewrite IH, <- app_assoc. }
  by rewrite H.
Qed.

Lemma kiss_escape_no_FEND b : kissFEND ∉ kiss_escape b.
Proof.
  unfold kiss_escape. case_bool_decide; [set_solver|]. case_bool_decide; [set_solver|].
  intros H'%list_elem_of_singleton. by subst b.
Qed.

Lemma escaped_no_FEND p : kissFEND ∉ concat (map kiss_escape p).
Proof.
  induction p as [|b p IH]; cbn [map concat]; [set_solver|]. rewrite elem_of_app.
  intros [H|H]; [by apply (kiss_escape_no_FEND b)|done].
Qed.

Lemma seek_start_skip g r : kissFEND ∉ g -> seek_start (g ++ kissFEND :: r) = Some r.
Proof.
  induction g as [|b g IH]; intros Hg; cbn [app seek_start]; [by rewrite bool_decide_eq_true_2|].
  apply not_elem_of_cons in Hg as [Hb Hg]. rewrite bool_decide_eq_false_2 by done. by apply IH.
Qed.

Lemma seek_start_none g : kissFEND ∉ g -> seek_start g = None.
Proof.
  induction g as [|b g IH]; intros Hg; cbn [seek_start]; [done|].
  apply not_elem_of_cons in Hg as [Hb Hg]. rewrite bool_decide_eq_false_2 by done. by apply IH.
Qed.

Lemma read_body_escape frame b r : read_body frame (kiss_escape b ++ r) = read_body (frame ++ [b]) r.
Proof.
  unfold kiss_escape. case_bool_decide as H1; [by subst b|]. case_bool_decide as H2; [by subst b|].
  cbn. by rewrite !bool_decide_eq_false_2.
Qed.

Lemma read_body_escaped frame p r :
  frame <> [] -> read_body frame (concat (map kiss_escape p) ++ kissFEND :: r) = Some (tail (frame ++ p), r).
Proof.
  revert frame. induction p as [|b p IH]; intros frame Hf; cbn [map concat app].
  - rewrite app_nil_r. destruct frame as [|x frame]; [done|]. cbn. done.
  - rewrite <- app_assoc, read_body_escape, IH by (by destruct frame). by rewrite <- app_assoc.
Qed.

(** A frame after garbage that has no delimiter. *)
Lemma readKISSFrame_encode g p r : kissFEND ∉ g -> readKISSFrame (g ++ kissEncode p ++ r) = Some (p, r).
Proof.
  intros Hg. unfold readKISSFrame. rewrite kissEncode_eq. cbn [app]. rewrite seek_start_skip by done.
  rewrite <- app_assoc. cbn [app read_body]. rewrite !bool_decide_eq_false_2 by done.
  by rewrite read_body_escaped.
Qed.

(** A frame after the end of another: the doubled delimiter is skipped. *)
Lemma readKISSFrame_resync g p r :
  kissFEND ∉ g -> readKISSFrame (g ++ kissFEND :: kissEncode p ++ r) = Some (p, r).
Proof.
  intros Hg. unfold readKISSFrame. rewrite kissEncode_eq. cbn [app]. rewrite seek_start_skip by done.
  rewrite <- app_assoc. cbn [app read_body]. rewrite bool_decide_eq_true_2 by done. rewrite !bool_decide_eq_false_2 by done.
  by rewrite read_body_escaped.
Qed.

Lemma read_body_shorter frame r p r' : read_body frame r = Some (p, r') -> (length r' < length r)%nat.
Proof.
  assert (H : forall n r frame, (length r <= n)%nat -> read_body frame r = Some (p, r') -> (length r' < length r)%nat).
  2: { apply (H (length r)). done. }
  clear. induction n as [|n IH]; intros [|b r] frame Hn H; cbn in *; try done; try lia.
  repeat (case_bool_decide; [|try done]).
  - destruct frame as [|x frame]; [apply IH in H; lia|]. simplify_eq. lia.
  - destruct r as [|y r]; [done|]. cbn in *. repeat case_bool_decide; apply IH in H; lia.
  - apply IH in H; lia.
Qed.

Lemma seek_start_shorter r r' : seek_start r = Some r' -> (length r' < length r)%nat.
Proof.
  induction r as [|b r IH]; cbn; [done|]. case_bool_decide; intros H'; [simplify_eq; lia|]. apply IH in H'. lia.
Qed.

Lemma read_loop_fuel n m r : (length r <= n)%nat -> (length r <= m)%nat -> read_loop n r = read_loop m r.
Proof.
  revert m r. induction n as [|n IH]; intros m r Hn Hm.
  - destruct r; [|cbn in Hn; lia]. by destruct m.
  - destruct m as [|m]; [destruct r; [done|cbn in Hm; lia]|]. cbn [read_loop].
    unfold readKISSFrame. destruct (seek_start r) as [r1|] eqn:E1; [|done].
    destruct (read_body [] r1) as [[p r2]|] eqn:E2; [|done].
    apply seek_start_shorter in E1. apply read_body_shorter in E2. f_equal. apply IH; lia.
Qed.

Lemma readLoop_step r p r' :
  readKISSFrame r = Some (p, r') -> readLoop r = p :: readLoop r'.
Proof.
  intros H. unfold readLoop. destruct r as [|b r]; [done|]. cbn [length read_loop]. rewrite H. f_equal.
  unfold readKISSFrame in H. destruct (seek_start (b :: r)) as [r1|] eqn:E1; [|done].
  apply seek_start_shorter in E1. apply read_body_shorter in H. cbn in E1. apply read_loop_fuel; lia.
Qed.

Lemma readLoop_none r : readKISSFrame r = None -> readLoop r = [].
Proof. intros H. unfold readLoop. destruct r; [done|]. cbn. by rewrite H. Qed.

(** The encoded frames [ps], each preceded by garbage. *)
Definition noisy (l : list (bytes * bytes)) : bytes := concat (map (fun '(g, p) => g ++ kissEncode p) l).

Lemma readLoop_noisy l g :
  Forall (fun e => kissFEND ∉ e.1) l -> kissFEND ∉ g -> readLoop (noisy l ++ g) = map snd l.
Proof.
  intros Hl Hg. induction Hl as [|[h p] l Hh Hl IH]; cbn.
  - apply readLoop_none. unfold readKISSFrame. by rewrite seek_start_none.
  - rewrite <- IH, <- !app_assoc. by apply readLoop_step, readKISSFrame_encode.
Qed.

Lemma suffix_of_frame p n :
  (1 <= n)%nat -> (drop n (kissEncode p) = []) \/ exists g, (kissFEND ∉ g) /\ drop n (kissEncode p) = g ++ [kissFEND].
Proof.
  intros Hn. rewrite kissEncode_eq. destruct n as [|n]; [lia|]. cbn [drop].
  set (l := kissCmdData :: concat (map kiss_escape p)).
  change (kissCmdData :: concat (map kiss_escape p) ++ [kissFEND]) with (l ++ [kissFEND]).
  assert (Hl : kissFEND ∉ l) by (apply not_elem_of_cons; split; [done|apply escaped_no_FEND]).
  destruct (decide (n <= length l)%nat).
  - right. exists (drop n l). split; [|by rewrite drop_app_le].
    intros Hin. apply Hl. rewrite <- (take_drop n l), elem_of_app. by right.
  - left. apply drop_ge. rewrite length_app. clearbody l. change (length [kissFEND]) with 1%nat. lia.
Qed.

(** KISS framing carries a sequence of frames exactly: line noise without a
    delimiter between them changes nothing, and a reader that starts in the
    middle of a frame loses that frame only. *)
Theorem kiss_stream (l : list (bytes * bytes)) (g : bytes) (p : bytes) (n : nat) (ps : list bytes) :
  Forall (fun e => kissFEND ∉ e.1) l -> kissFEND ∉ g -> (1 <= n)%nat ->
  readLoop (noisy l ++ g) = map snd l /\
  readLoop (drop n (kissEncode p) ++ concat (map kissEncode ps)) = ps.
Proof.
  intros Hl Hg Hn. split; [by apply readLoop_noisy|].
  assert (Hps : forall qs, readLoop (concat (map kissEncode qs)) = qs).
  { intros qs. pose proof (readLoop_noisy (map (fun q => ([], q)) qs) []) as H.
    rewrite app_nil_r in H. unfold noisy in H. rewrite !map_map in H. cbn in H. rewrite map_id in H.
    apply H; [|set_solver]. apply Forall_map, Forall_true. intros x. cbn. set_solver. }
  destruct (suffix_of_frame p n Hn) as [-> | (h & Hh & ->)]; [apply Hps|].
  rewrite <- app_assoc. cbn [app]. destruct ps as [|q qs]; cbn [map concat].
  - apply readLoop_none. unfold readKISSFrame. by rewrite seek_start_skip.
  - rewrite <- (Hps qs) at 2. by apply readLoop_step, readKISSFrame_resync.
Qed.

Lemma kiss_stream_witness :
  readLoop (drop 2 (kissEncode [xc0; x01]) ++ concat (map kissEncode [[xdb]; [x02; xc0]])) = [[xdb]; [x02; xc0]].
Proof.
  apply (kiss_stream [] [] [xc0; x01] 2 [[xdb]; [x02; xc0]]); [constructor|set_solver|lia].
Defined.

(** ** The duty cycle: lemmas *)

Definition air_sum (l : list dutyEvent) : Z := foldr (fun e s => de_air e + s) 0 l.

(** The airtime spent in the window [(t - w, t]]. *)
Definition window_air (w t : Z) (l : list dutyEvent) : Z :=
  air_sum (List.filter (fun e => (t - w <? de_at e) && (de_at e <=? t)) l).

Definition air_ok (e : dutyEvent) : Prop := 0 <= de_air e < 2 ^ 62.

Lemma air_sum_cons e l : air_sum (e :: l) = de_air e + air_sum l.
Proof. done. Qed.

Lemma air_sum_app l k : air_sum (l ++ k) = air_sum l + air_sum k.
Proof. induction l as [|e l IH]; [done|]. cbn [app]. rewrite !air_sum_cons, IH. lia. Qed.

Lemma air_sum_nonneg l : Forall air_ok l -> 0 <= air_sum l.
Proof. induction 1 as [|e l He _ IH]; [done|]. rewrite air_sum_cons. unfold air_ok in He. lia. Qed.

Lemma window_air_app w t l k : window_air w t (l ++ k) = window_air w t l + window_air w t k.
Proof. unfold window_air. rewrite List.filter_app. apply air_sum_app. Qed.

Lemma window_air_le w t l : Forall air_ok l -> 0 <= window_air w t l <= air_sum l.
Proof.
  unfold window_air. induction 1 as [|e l He _ IH]; [cbn; lia|]. cbn [List.filter].
  rewrite (air_sum_cons e l). unfold air_ok in He. destruct (_ && _); rewrite ?air_sum_cons; lia.
Qed.

Lemma window_air_out w t l : Forall (fun e => de_at e <= t - w \/ t < de_at e) l -> window_air w t l = 0.
Proof.
  unfold window_air. induction 1 as [|e l He _ IH]; [done|]. cbn [List.filter].
  destruct ((t - w <? de_at e) && (de_at e <=? t)) eqn:E; [|done].
  apply andb_true_iff in E as [E1%Z.ltb_lt E2%Z.leb_le]. lia.
Qed.

Lemma i64_small z : - 2 ^ 63 <= z < 2 ^ 63 -> i64 z = z.
Proof.
  intros H. unfold i64. cbn zeta. change (2 ^ 63) with 9223372036854775808 in *.
  change (2 ^ 64) with 18446744073709551616. destruct (decide (0 <= z)).
  - rewrite Z.mod_small by lia. destruct (Z.ltb_spec z 9223372036854775808); lia.
  - replace (z mod 18446744073709551616) with (z + 18446744073709551616).
    + destruct (Z.ltb_spec (z + 18446744073709551616) 9223372036854775808); lia.
    + apply (Z.mod_unique_pos _ _ (-1)); lia.
Qed.

Lemma prune_loop_spec cut events spent :
  Forall air_ok events -> spent = air_sum events -> spent < 2 ^ 63 ->
  StronglySorted (fun a b => de_at a <= de_at b) events ->
  exists dropped, events = dropped ++ (prune_loop cut events spent).1 /\ Forall (fun e => de_at e <= cut) dropped /\
    Forall (fun e => cut < de_at e) (prune_loop cut events spent).1 /\
    (prune_loop cut events spent).2 = air_sum (prune_loop cut events spent).1.
Proof.
  revert spent. induction events as [|e t IH]; intros spent Hok Hsp Hb Hs; cbn [prune_loop]; [by exists []|].
  inversion Hok as [|? ? He Ht]; subst. inversion Hs as [|? ? Hs' Hall]; subst. pose proof (air_sum_nonneg t Ht).
  rewrite air_sum_cons in *.
  destruct (Z.ltb_spec cut (de_at e)).
  - exists []. cbn. split_and!; try done. constructor; [done|]. eapply Forall_impl; [exact Hall|]. cbn. lia.
  - unfold air_ok in He. rewrite i64_small by lia. replace (de_air e + air_sum t - de_air e) with (air_sum t) by lia.
    destruct (IH (air_sum t) Ht eq_refl ltac:(lia) Hs') as (dr & H1 & H2 & H3 & H4).
    exists (e :: dr). split; [cbn; by rewrite <- H1|]. split; [constructor; [lia|done]|done].
Qed.

(** What a limiter remembers of the transmissions [hist] it allowed up to [now]. *)
Record duty_inv (hist : list dutyEvent) (now : Z) (d : dutyLimiter) : Prop := {
  di_split : exists dropped, hist = dropped ++ dl_events d /\ Forall (fun e => de_at e <= now - dl_window d) dropped;
  di_sorted : StronglySorted (fun a b => de_at a <= de_at b) hist;
  di_past : Forall (fun e => de_at e <= now) hist;
  di_ok : Forall air_ok hist;
  di_spent : dl_spent d = air_sum (dl_events d);
  di_bound : dl_spent d <= budget d;
  di_window : forall t, window_air (dl_window d) t hist <= budget d
}.

(** The configuration is kept. *)
Definition same_limits (d d' : dutyLimiter) : Prop :=
  dl_window d' = dl_window d /\ dl_fraction d' = dl_fraction d /\ dl_bitrate d' = dl_bitrate d.

Lemma same_limits_eqs d d' : same_limits d d' -> budget d' = budget d /\ forall n, airtime d' n = airtime d n.
Proof. intros (H1 & H2 & H3). unfold budget, airtime. by rewrite H1, H2, H3. Qed.

Lemma sorted_suffix {A} (R : A -> A -> Prop) (l k : list A) : StronglySorted R (l ++ k) -> StronglySorted R k.
Proof. induction l as [|x l IH]; cbn; [done|]. inversion 1; auto. Qed.

Lemma prune_inv hist now now' d :
  duty_inv hist now d -> now <= now' -> budget d < 2 ^ 62 ->
  duty_inv hist now' (pruneLocked now' d) /\ same_limits d (pruneLocked now' d) /\
  Forall (fun e => now' - dl_window d < de_at e) (dl_events (pruneLocked now' d)).
Proof.
  intros [(dr & Hd & Hdr) Hs Hp Hok Hsp Hb Hw] Hn Hbud. unfold pruneLocked.
  assert (Hoke : Forall air_ok (dl_events d)) by (rewrite Hd in Hok; apply Forall_app in Hok; apply Hok).
  destruct (prune_loop_spec (now' - dl_window d) (dl_events d) (dl_spent d)) as (dr2 & H1 & H2 & H3 & H4);
    [done|done|lia|rewrite Hd in Hs; by apply sorted_suffix in Hs|].
  destruct (prune_loop _ _ _) as [ev sp]. cbn [fst snd] in *. subst sp.
  rewrite H1 in Hoke, Hsp. apply Forall_app in Hoke as [Ho1 Ho2]. pose proof (air_sum_nonneg _ Ho2).
  pose proof (air_sum_nonneg _ Ho1). rewrite air_sum_app in Hsp.
  destruct (Z.ltb_spec (air_sum ev) 0); [lia|].
  split; [split|split]; cbn; try done.
  - exists (dr ++ dr2). rewrite Hd, H1, <- app_assoc. split; [done|]. apply Forall_app. split; [|done].
    eapply Forall_impl; [exact Hdr|]. cbn. lia.
  - eapply Forall_impl; [exact Hp|]. cbn. lia.
  - unfold budget in *. cbn. lia.
Qed.

Lemma allow_inv hist now now' d n :
  duty_inv hist now d -> now <= now' -> 0 <= budget d < 2 ^ 62 -> 0 <= airtime d n < 2 ^ 62 ->
  exists d', (allow now' (Some d) n).1 = Some d' /\ same_limits d d' /\
    duty_inv (if (allow now' (Some d) n).2 then hist ++ [mkDutyEvent now' (airtime d n)] else hist) now' d'.
Proof.
  intros Hi Hn Hb Ha. destruct (prune_inv _ _ now' _ Hi Hn (proj2 Hb)) as (Hi' & Hl & Hcut). unfold allow.
  set (d1 := pruneLocked now' d) in *. destruct (same_limits_eqs _ _ Hl) as [Eb Ea]. rewrite Eb, Ea.
  destruct Hi' as [(dr & Hd & Hdr) Hs Hp Hok Hsp Hbd Hw]. destruct Hl as (L1 & L2 & L3). rewrite Eb in *.
  assert (Hoke : Forall air_ok (dl_events d1)) by (rewrite Hd in Hok; apply Forall_app in Hok; apply Hok).
  pose proof (air_sum_nonneg _ Hoke). rewrite i64_small by lia.
  destruct (Z.ltb_spec (budget d) (dl_spent d1 + airtime d n)); cbn [fst snd].
  { exists d1. split; [done|]. split; [done|]. split; try done; [by exists dr|by rewrite Eb|intros t; rewrite Eb; apply Hw]. }
  eexists. split; [done|]. split; [done|].
  assert (Hoka : air_ok (mkDutyEvent now' (airtime d n))) by (unfold air_ok; cbn; lia).
  split; cbn.
  - exists dr. rewrite Hd, <- app_assoc. done.
  - clear - Hs Hp. induction Hs as [|e l Hs IH Hall]; cbn; [by repeat constructor|].
    inversion Hp; subst. constructor; [by apply IH|]. apply Forall_app. split; [done|]. by repeat constructor.
  - apply Forall_app. split; [done|]. by apply Forall_singleton.
  - apply Forall_app. split; [done|]. by apply Forall_singleton.
  - rewrite air_sum_app, air_sum_cons, Hsp. cbn [de_air]. change (air_sum []) with 0. lia.
  - change (budget (mkDuty _ _ _ _ _)) with (budget d1). lia.
  - intros t. change (budget (mkDuty _ _ _ _ _)) with (budget d1). rewrite Eb. rewrite window_air_app.
    destruct (decide (t < now')) as [Ht|Ht].
    + rewrite (window_air_out _ _ [_]); [specialize (Hw t); lia|]. apply Forall_singleton. cbn. lia.
    + rewrite Hd, window_air_app, (window_air_out _ _ dr); [|eapply Forall_impl; [exact Hdr|]; cbn; lia].
      pose proof (window_air_le (dl_window d1) t _ Hoke). pose proof (window_air_le (dl_window d1) t [mkDutyEvent now' (airtime d n)]) as Hx.
      rewrite air_sum_cons in Hx. cbn [de_air] in Hx. change (air_sum []) with 0 in Hx. specialize (Hx ltac:(by apply Forall_singleton)). lia.
Qed.

(** The decision, from the whole history. *)
Lemma allow_exact hist now now' d n :
  duty_inv hist now d -> now <= now' -> 0 <= budget d < 2 ^ 62 -> 0 <= airtime d n < 2 ^ 62 ->
  (allow now' (Some d) n).2 = (window_air (dl_window d) now' hist + airtime d n <=? budget d).
Proof.
  intros Hi Hn Hb Ha. destruct (prune_inv _ _ now' _ Hi Hn (proj2 Hb)) as (Hi' & Hl & Hcut). unfold allow.
  set (d1 := pruneLocked now' d) in *. destruct (same_limits_eqs _ _ Hl) as [Eb Ea]. rewrite Eb, Ea.
  destruct Hi' as [(dr & Hd & Hdr) Hs Hp Hok Hsp Hbd Hw]. destruct Hl as (L1 & L2 & L3). rewrite Eb, L1 in *.
  assert (Hoke : Forall air_ok (dl_events d1)) by (rewrite Hd in Hok; apply Forall_app in Hok; apply Hok).
  pose proof (air_sum_nonneg _ Hoke). rewrite i64_small by lia.
  assert (He : window_air (dl_window d) now' hist = dl_spent d1).
  { rewrite Hd, window_air_app, (window_air_out _ _ dr), Hsp by (eapply Forall_impl; [exact Hdr|]; cbn; lia).
    rewrite Hd in Hp. apply Forall_app in Hp as [_ Hp]. clear - Hp Hcut. unfold window_air.
    induction (dl_events d1) as [|e l IH]; [done|]. inversion Hp; inversion Hcut; subst. cbn [List.filter].
    destruct (Z.ltb_spec (now' - dl_window d) (de_at e)); [|lia]. destruct (Z.leb_spec (de_at e) now'); [|lia].
    cbn [andb]. rewrite !air_sum_cons. specialize (IH ltac:(done) ltac:(done)). lia. }
  rewrite He. destruct (Z.ltb_spec (budget d) (dl_spent d1 + airtime d n)); cbn [snd]; symmetry;
    [apply Z.leb_gt|apply Z.leb_le]; lia.
Qed.

(** Sends on an open interface whose stream accepts every write: the final state,
    and the frames accepted with their times. *)
Fixpoint kiss_run (k : kissInterface) (sends : list (Z * bytes)) : kissInterface * list (Z * bytes) :=
  match sends with
  | [] => (k, [])
  | (now, f) :: t =>
      let '(k, r) := kiss_Send now None k f in
      let '(k, acc) := kiss_run k t in
      (k, if result_ok r then (now, f) :: acc else acc)
  end.

Definition duty_event (d : dutyLimiter) (e : Z * bytes) : dutyEvent :=
  mkDutyEvent e.1 (airtime d (len (kissEncode e.2))).

(** The reference limiter: it keeps the whole history and recomputes the airtime
    of the last window for each frame. *)
Fixpoint duty_spec (d : dutyLimiter) (mtu : Z) (hist sends : list (Z * bytes)) : list (Z * bytes) :=
  match sends with
  | [] => []
  | (now, f) :: t =>
      if (len f <=? mtu) &&
         (window_air (dl_window d) now (map (duty_event d) hist) + airtime d (len (kissEncode f)) <=? budget d)
      then (now, f) :: duty_spec d mtu (hist ++ [(now, f)]) t
      else duty_spec d mtu hist t
  end.

Lemma kiss_run_spec d0 hist now d mtu br w sends :
  duty_inv (map (duty_event d0) hist) now d -> same_limits d0 d -> 0 <= budget d0 < 2 ^ 62 ->
  StronglySorted Z.le (now :: map fst sends) ->
  Forall (fun e => 0 <= airtime d0 (len (kissEncode e.2)) < 2 ^ 62) sends ->
  let '(k', acc) := kiss_run (mkKiss mtu br false (Some d) w) sends in
  acc = duty_spec d0 mtu hist sends /\ ki_written k' = w ++ concat (map kissEncode (map snd acc)) /\
  forall t, window_air (dl_window d0) t (map (duty_event d0) (hist ++ acc)) <= budget d0.
Proof.
  revert hist now d w. induction sends as [|[now' f] sends IH]; intros hist now d w Hi Hl Hb Hs Ha.
  - cbn. rewrite !app_nil_r. split_and!; [done|done|]. destruct (same_limits_eqs _ _ Hl) as [Eb _], Hl as (L1 & _ & _).
    intros t. rewrite <- Eb, <- L1. apply Hi.
  - destruct (same_limits_eqs _ _ Hl) as [Eb Ea]. inversion Hs as [|? ? Hs' Hall]; subst. inversion Ha as [|? ? Ha1 Ha2]; subst.
    cbn [map fst] in *. inversion Hall as [|? ? Hle Hall2]; subst. cbn [snd] in Ha1.
    cbn [kiss_run duty_spec]. unfold kiss_Send. cbn [ki_mtu ki_closed ki_duty ki_bitrate ki_written].
    rewrite Z.leb_antisym. destruct (mtu <? len f); cbn [negb andb].
    { specialize (IH hist now d w Hi Hl Hb). destruct (kiss_run _ sends) as [k' acc]. cbn [result_ok].
      apply IH; [|done]. inversion Hs'; subst. by constructor. }
    rewrite <- Ea in Ha1. rewrite <- Eb in Hb.
    pose proof (allow_exact _ _ now' _ _ Hi Hle Hb Ha1) as Hex. destruct (allow_inv _ _ now' _ _ Hi Hle Hb Ha1) as (d' & Hd & Hl' & Hi').
    destruct (allow now' (Some d) _) as [od ok]. cbn [fst snd] in *. subst od. pose proof Hl as (L1 & _ & _).
    rewrite L1, Eb, Ea in Hex. rewrite <- Hex. rewrite Eb in Hb.
    assert (Hl2 : same_limits d0 d') by (destruct Hl as (?&?&?), Hl' as (?&?&?); split_and!; congruence).
    destruct ok; cbn [negb].
    + specialize (IH (hist ++ [(now', f)]) now' d' (w ++ kissEncode f)).
      destruct (kiss_run _ sends) as [k' acc]. cbn [result_ok].
      destruct IH as (H1 & H2 & H3); [rewrite map_app; unfold duty_event at 2; cbn; by rewrite <- Ea|done|done|done|done|].
      split_and!; [by rewrite H1|by rewrite H2, <- app_assoc|]. intros t. rewrite cons_middle, app_assoc. apply H3.
    + specialize (IH hist now' d' w Hi' Hl2 Hb Hs' Ha2). destruct (kiss_run _ sends) as [k' acc]. done.
Qed.

(** C39: The transmit limiter is exact: over any sequence of sends it accepts the
    very frames a limiter that kept its whole history would accept; hence no
    sliding window ever holds more airtime than the budget; and the receiver of
    the stream decodes exactly the accepted frames, in order. *)
Theorem duty_cycle (fraction : spec_float) (bitrate window mtu : Z) (d : dutyLimiter) (sends : list (Z * bytes)) :
  newDutyLimiter fraction bitrate window = Some d -> 0 <= budget d < 2 ^ 62 ->
  StronglySorted Z.le (map fst sends) ->
  Forall (fun e => 0 <= airtime d (len (kissEncode e.2)) < 2 ^ 62) sends ->
  let '(k', acc) := kiss_run (SetDutyCycle (mkKiss mtu bitrate false None []) fraction window) sends in
  acc = duty_spec d mtu [] sends /\ readLoop (ki_written k') = map snd acc /\
  forall t, window_air (dl_window d) t (map (duty_event d) acc) <= budget d.
Proof.
  intros Hd Hb Hs Ha. unfold SetDutyCycle. cbn [ki_mtu ki_bitrate ki_closed ki_written]. rewrite Hd.
  destruct sends as [|[now f] sends]; [cbn; split_and!; [done|done|intros; cbn; lia]|].
  assert (Hi : duty_inv (map (duty_event d) []) now d).
  { destruct Hb as [Hb _]. clear Ha Hs. unfold newDutyLimiter in Hd. destruct (_ || _); [done|]. injection Hd as <-.
    split; [by exists []|apply SSorted_nil|apply Forall_nil_2|apply Forall_nil_2|done|exact Hb|intros t; exact Hb]. }
  pose proof (kiss_run_spec d [] now d mtu bitrate [] ((now, f) :: sends) Hi ltac:(done) Hb) as H.
  destruct (kiss_run _ _) as [k' acc]. destruct H as (H1 & H2 & H3); [|done|].
  { cbn [map fst] in *. constructor; [done|]. inversion Hs as [|? ? ? Hall]; subst. by constructor. }
  split_and!; [done| |done]. rewrite H2. cbn [app].
  pose proof (readLoop_noisy (map (fun q => ([], q)) (map snd acc)) []) as Hn.
  rewrite app_nil_r in Hn. unfold noisy in Hn. rewrite !map_map in Hn. cbn in Hn. rewrite map_map. apply Hn; [|set_solver].
  apply Forall_map, Forall_true. intros x. cbn. set_solver.
Qed.

(** One per cent of an hour at 1200 bit/s: of two 3000-byte frames within a
    minute only the first is sent. *)
Lemma duty_cycle_witness :
  let frac := f64_div (f64_of_Z 1) (f64_of_Z 100) in
  let f := repeat x01 (Z.to_nat 3000) in
  exists d, newDutyLimiter frac 1200 0 = Some d /\
    map fst (kiss_run (SetDutyCycle (mkKiss 4000 1200 false None []) frac 0) [(0, f); (60000000000, f)]).2 = [0].
Proof.
  cbn zeta. eexists. split; [vm_compute; reflexivity|].
  pose proof (duty_cycle (f64_div (f64_of_Z 1) (f64_of_Z 100)) 1200 0 4000 _
    [(0, repeat x01 (Z.to_nat 3000)); (60000000000, repeat x01 (Z.to_nat 3000))]
    ltac:(vm_compute; reflexivity)) as H.
  destruct (kiss_run _ _) as [k' acc]. destruct H as (H & _).
  - split; vm_compute; [discriminate|reflexivity].
  - cbn. repeat constructor; lia.
  - apply Forall_cons. split; [|apply Forall_singleton]; split; vm_compute; (discriminate || reflexivity).
  - rewrite H. vm_compute. reflexivity.
Defined.
