(* ===== verification/Bridge.v ===== *)
(** * TCP bridges and their authentication (internal/iface/tcp.go, bridgeauth.go)

    Length-prefixed framing of a TCP stream, the mutual pre-shared-key handshake
    that gates it, and the connection table of the listening side.  A connection
    is the list of bytes that will arrive from it; its end is the read error, of
    which the handshake deadline is one.  What a side writes is the list of frames
    it hands to [writeFrame]. *)

From S2P Require Import Prelude Crypto Wire.

(** ** Framing *)

Definition tcpMTU : Z := 2 ^ 20.

Definition writeFrame (frame : bytes) : bytes := be_bytes 4 (u32 (len frame)) ++ frame.

Definition readFrame (s : bytes) : option (bytes * bytes) :=
  match ReadFull 4 s with
  | Err _ => None
  | Ok (hdr, s) =>
      let n := be_val hdr in
      if tcpMTU <? n then None
      else match ReadFull n s with Err _ => None | Ok (frame, s) => Some (frame, s) end
  end.

(** The loop of [readConn]: a frame takes at least its four-byte header, so the
    length of the stream is enough fuel. *)
Fixpoint read_frames (fuel : nat) (s : bytes) : list bytes :=
  match fuel with
  | O => []
  | S fuel => match readFrame s with None => [] | Some (f, s) => f :: read_frames fuel s end
  end.

Definition readConn (s : bytes) : list bytes := read_frames (length s) s.

(** ** The handshake *)

Definition bridgeNonceLen : Z := 32.
Definition bridgeLabelClient : bytes := str_bytes "syncswarm-bridge-v1:client".
Definition bridgeLabelServer : bytes := str_bytes "syncswarm-bridge-v1:server".

Inductive bridge_err : Type := errRead | errNonceLength | errAuth.

(** The connections by remote address; a [*tcpConn] is an identifier. *)
Abbreviation conns := (gmap string nat).

Section Handshake.
Context `{C : CryptoOps}.

Definition bridgeProof (psk label serverNonce clientNonce : bytes) : bytes :=
  hmac psk (label ++ serverNonce ++ clientNonce).

(** [serverNonce] is drawn at random.  Returned: the outcome, the frames written,
    and the bytes left in the reader. *)
Definition bridgeAuthServer (psk serverNonce input : bytes) : result bridge_err unit * list bytes * bytes :=
  if len psk =? 0 then (Ok tt, [], input)
  else
    match readFrame input with
    | None => (Err errRead, [], [])
    | Some (clientNonce, input) =>
        if negb (len clientNonce =? bridgeNonceLen) then (Err errNonceLength, [], input)
        else
          match readFrame input with
          | None => (Err errRead, [serverNonce], [])
          | Some (got, input) =>
              let want := bridgeProof psk bridgeLabelClient serverNonce clientNonce in
              if negb (bool_decide (got = want)) then (Err errAuth, [serverNonce], input)
              else (Ok tt, [serverNonce; bridgeProof psk bridgeLabelServer serverNonce clientNonce], input)
          end
    end.

Definition bridgeAuthClient (psk clientNonce input : bytes) : result bridge_err unit * list bytes * bytes :=
  if len psk =? 0 then (Ok tt, [], input)
  else
    match readFrame input with
    | None => (Err errRead, [clientNonce], [])
    | Some (serverNonce, input) =>
        if negb (len serverNonce =? bridgeNonceLen) then (Err errNonceLength, [clientNonce], input)
        else
          let proof := bridgeProof psk bridgeLabelClient serverNonce clientNonce in
          match readFrame input with
          | None => (Err errRead, [clientNonce; proof], [])
          | Some (got, input) =>
              if negb (bool_decide (got = bridgeProof psk bridgeLabelServer serverNonce clientNonce))
              then (Err errAuth, [clientNonce; proof], input)
              else (Ok tt, [clientNonce; proof], input)
          end
    end.

(** ** The listening side *)

(** [acceptOne] up to its read loop, then what the loop delivers, then the deferred
    removal: the table while the connection is served, the frames delivered, and
    the table after. *)
Definition acceptOne (psk serverNonce : bytes) (addr : string) (tc : nat) (input : bytes) (cs : conns) :
    conns * list (string * bytes) * conns :=
  match bridgeAuthServer psk serverNonce input with
  | (Err _, _, _) => (cs, [], cs)
  | (Ok _, _, rest) =>
      let cs := <[addr := tc]> cs in
      (cs, map (fun f => (addr, f)) (readConn rest), delete addr cs)
  end.
End Handshake.

(** [Send]: the connections the frame is written to, or [None] when no peer has
    that address.  [it] is the iteration over the table. *)
Definition server_Send (cs : conns) (it : list (string * nat)) (addr : string) : option (list nat) :=
  if String.eqb addr "" then Some (map snd it)
  else match cs !! addr with None => None | Some c => Some [c] end.

(** ** Framing: lemmas *)

Lemma readFrame_write f rest : len f <= tcpMTU -> readFrame (writeFrame f ++ rest) = Some (f, rest).
Proof.
  intros Hf. unfold readFrame, writeFrame. pose proof (len_nonneg f).
  assert (Hu : is_u32 (len f)) by (unfold is_u32, tcpMTU in *; lia).
  rewrite <- app_assoc, ReadFull_app by by rewrite len_be_bytes. rewrite u32_id, be_val_u32 by done.
  destruct (Z.ltb_spec tcpMTU (len f)); [lia|]. by rewrite ReadFull_app.
Qed.

Lemma readFrame_shorter s f s' : readFrame s = Some (f, s') -> (length s' < length s)%nat.
Proof.
  unfold readFrame. destruct (ReadFull 4 s) as [[hdr s1]|] eqn:E1; [|done]. destruct (tcpMTU <? be_val hdr); [done|].
  destruct (ReadFull (be_val hdr) s1) as [[b s2]|] eqn:E2; [|done]. intros ?; simplify_eq.
  apply ReadFull_inv in E1 as [-> H1]; [|lia]. apply ReadFull_inv in E2 as [-> H2]; [|apply be_val_range].
  unfold len in H1. rewrite !length_app. lia.
Qed.

Lemma read_frames_fuel n m s : (length s <= n)%nat -> (length s <= m)%nat -> read_frames n s = read_frames m s.
Proof.
  revert m s. induction n as [|n IH]; intros m s Hn Hm.
  - destruct s; [|cbn in Hn; lia]. by destruct m.
  - destruct m as [|m]; [destruct s; [done|cbn in Hm; lia]|]. cbn [read_frames].
    destruct (readFrame s) as [[f s']|] eqn:E; [|done]. apply readFrame_shorter in E. f_equal. apply IH; lia.
Qed.

Lemma readConn_step s f s' : readFrame s = Some (f, s') -> readConn s = f :: readConn s'.
Proof.
  intros H. unfold readConn. pose proof (readFrame_shorter _ _ _ H). destruct s as [|b s]; [done|]. cbn [length read_frames].
  rewrite H. f_equal. cbn in *. apply read_frames_fuel; lia.
Qed.

Lemma readConn_frames fs : Forall (fun f => len f <= tcpMTU) fs -> readConn (concat (map writeFrame fs)) = fs.
Proof.
  induction 1 as [|f fs Hf _ IH]; [done|]. cbn [map concat]. rewrite <- IH at 2. by apply readConn_step, readFrame_write.
Qed.

(** ** Authentication *)

Definition writes (fs : list bytes) : bytes := concat (map writeFrame fs).

(** Two ends with the same key complete the handshake, each writing what the
    other reads, and every frame either side pipelined behind its own part of the
    handshake is delivered; the server writes nothing to a peer whose first frame is
    not a well-formed nonce, and nothing but its nonce to one that fails the proof. *)
Theorem bridge_handshake `{C : CryptoOps} (psk sn cn : bytes) (addr : string) (tc : nat) (cs : conns) (cfs sfs : list bytes)
    (input : bytes) :
  len sn = bridgeNonceLen -> len cn = bridgeNonceLen -> (forall m, len (hmac psk m) = 32) -> psk <> [] ->
  Forall (fun f => len f <= tcpMTU) cfs ->
  (exists couts souts,
     bridgeAuthServer psk sn (writes couts ++ writes cfs) = (Ok tt, souts, writes cfs) /\
     bridgeAuthClient psk cn (writes souts ++ writes sfs) = (Ok tt, couts, writes sfs) /\
     acceptOne psk sn addr tc (writes couts ++ writes cfs) cs =
       (<[addr := tc]> cs, map (fun f => (addr, f)) cfs, delete addr (<[addr := tc]> cs))) /\
  (forall e outs rest, bridgeAuthServer psk sn input = (Err e, outs, rest) ->
     acceptOne psk sn addr tc input cs = (cs, [], cs) /\
     (outs = [] \/ (outs = [sn] /\ exists hello rest', readFrame input = Some (hello, rest') /\ len hello = bridgeNonceLen))).
Proof.
  intros Hsn Hcn Hh Hpsk Hcf. unfold bridgeNonceLen in *.
  assert (Hp : (len psk =? 0) = false) by (destruct (len psk =? 0) eqn:E; [by apply len_zero in E|done]).
  assert (Hcap : forall f : bytes, len f = 32 -> len f <= tcpMTU) by (unfold tcpMTU; intros; lia).
  split.
  - set (cp := bridgeProof psk bridgeLabelClient sn cn). set (sp := bridgeProof psk bridgeLabelServer sn cn).
    assert (Hs : bridgeAuthServer psk sn (writes [cn; cp] ++ writes cfs) = (Ok tt, [sn; sp], writes cfs)).
    { unfold bridgeAuthServer. rewrite Hp. unfold writes at 1. cbn [map concat]. rewrite app_nil_r, <- !app_assoc.
      rewrite readFrame_write by by apply Hcap. unfold bridgeNonceLen. rewrite Hcn. cbn [negb Z.eqb Pos.eqb].
      rewrite readFrame_write by by apply Hcap, Hh. by rewrite bool_decide_eq_true_2. }
    exists [cn; cp], [sn; sp]. split; [done|]. split.
    + unfold bridgeAuthClient. rewrite Hp. unfold writes at 1. cbn [map concat]. rewrite app_nil_r, <- !app_assoc.
      rewrite readFrame_write by by apply Hcap. unfold bridgeNonceLen. rewrite Hsn. cbn [negb Z.eqb Pos.eqb].
      rewrite readFrame_write by by apply Hcap, Hh. by rewrite bool_decide_eq_true_2.
    + unfold acceptOne. rewrite Hs. unfold writes. by rewrite readConn_frames.
  - intros e outs rest He. split; [unfold acceptOne; by rewrite He|]. unfold bridgeAuthServer in He. rewrite Hp in He.
    destruct (readFrame input) as [[hello r1]|] eqn:E1; [|simplify_eq; by left].
    destruct (len hello =? bridgeNonceLen) eqn:E2; cbn [negb] in He; [|simplify_eq; by left].
    apply Z.eqb_eq in E2. right. destruct (readFrame r1) as [[got r2]|]; [|simplify_eq; eauto].
    destruct (bool_decide _); cbn [negb] in He; [done|]. simplify_eq. eauto.
Qed.

(** ** Agreement over an adversarial network

    The adversary sees every frame written and writes every frame read, except that
    it cannot make the HMAC of anything under the key.  A session of an honest end
    is named by its nonce; an event is what that session does on the input it has
    received so far, so a session that goes on reading occurs again with a longer
    input. *)

Section Agreement.
Context `{C : CryptoOps} (psk : bytes).

Inductive bevent : Type :=
| EServer (sn input : bytes)
| EClient (cn input : bytes).

Definition event_writes (e : bevent) : list bytes :=
  match e with
  | EServer sn input => (bridgeAuthServer psk sn input).1.2
  | EClient cn input => (bridgeAuthClient psk cn input).1.2
  end.

Definition event_nonce (e : bevent) : bytes := match e with EServer n _ | EClient n _ => n end.
Definition event_input (e : bevent) : bytes := match e with EServer _ i | EClient _ i => i end.

Definition issued (tr : list bevent) : list bytes := concat (map event_writes tr).

(** What the adversary may put in a frame. *)
Definition presentable (tr : list bevent) (f : bytes) : Prop := f ∈ issued tr \/ forall m, f <> hmac psk m.

Inductive valid_trace : list bevent -> Prop :=
| vt_nil : valid_trace []
| vt_snoc tr e :
    valid_trace tr ->
    len (event_nonce e) = bridgeNonceLen -> (forall m, event_nonce e <> hmac psk m) ->
    Forall (presentable tr) (readConn (event_input e)) ->
    valid_trace (tr ++ [e]).

(** The nonce an end received first. *)
Definition peer_nonce (input : bytes) : option bytes := match readFrame input with Some (n, _) => Some n | None => None end.

Definition accepted (e : bevent) : bool :=
  match e with
  | EServer sn input => result_ok (bridgeAuthServer psk sn input).1.1
  | EClient cn input => result_ok (bridgeAuthClient psk cn input).1.1
  end.

Lemma labels_differ : length bridgeLabelClient = length bridgeLabelServer /\ bridgeLabelClient <> bridgeLabelServer.
Proof. done. Qed.

Lemma valid_nonces tr e : valid_trace tr -> e ∈ tr -> len (event_nonce e) = bridgeNonceLen /\ forall m, event_nonce e <> hmac psk m.
Proof using Type.
  induction 1 as [|tr e' Ht IH Hl Hn Hp]; [set_solver|]. intros [H|H]%elem_of_app; [by apply IH|].
  apply list_elem_of_singleton in H. by subst.
Qed.

(** A tag presented in a valid trace was written by an earlier event. *)
Lemma tag_origin tr m :
  valid_trace tr -> presentable tr (hmac psk m) ->
  exists e, e ∈ tr /\ hmac psk m ∈ event_writes e.
Proof using Type.
  intros Ht [Hi|Hn]; [|by exfalso; eapply Hn]. unfold issued in Hi. apply list_elem_of_In, in_concat in Hi as (l & Hin & Hl).
  apply in_map_iff in Hin as (e & <- & He). exists e. by rewrite !list_elem_of_In.
Qed.

Lemma valid_last tr e : valid_trace (tr ++ [e]) ->
  valid_trace tr /\ len (event_nonce e) = bridgeNonceLen /\ Forall (presentable tr) (readConn (event_input e)).
Proof using Type.
  inversion 1 as [Hnil|tr' e' Ht Hl Hn Hp Heq]; [by destruct tr|]. apply app_inj_tail in Heq as [-> ->]. done.
Qed.

Hypothesis psk_ne : (len psk =? 0) = false.

(** The tags an event writes. *)
Lemma event_tags e m :
  (forall m, event_nonce e <> hmac psk m) -> hmac psk m ∈ event_writes e ->
  exists n, peer_nonce (event_input e) = Some n /\ len n = bridgeNonceLen /\
    match e with
    | EServer sn input => hmac psk m = bridgeProof psk bridgeLabelServer sn n /\ accepted e = true
    | EClient cn input => hmac psk m = bridgeProof psk bridgeLabelClient n cn
    end.
Proof using psk_ne.
  intros Hn. destruct e as [sn input|cn input]; cbn [event_writes event_nonce event_input accepted] in *;
    unfold bridgeAuthServer, bridgeAuthClient, peer_nonce; rewrite psk_ne;
    (destruct (readFrame input) as [[n r1]|]; [|cbn; set_solver]);
    (destruct (len n =? bridgeNonceLen) eqn:E2; cbn [negb]; [|cbn; set_solver]); apply Z.eqb_eq in E2;
    (destruct (readFrame r1) as [[got r2]|]; [destruct (bool_decide _)|]); cbn [negb fst snd result_ok];
    intros Hin; repeat (apply elem_of_cons in Hin as [Hin|Hin]); try (by exfalso; eapply Hn);
    try (by apply elem_of_nil in Hin); exists n; done.
Qed.

Lemma accept_server sn input :
  accepted (EServer sn input) = true ->
  exists cn, peer_nonce input = Some cn /\ len cn = bridgeNonceLen /\
    bridgeProof psk bridgeLabelClient sn cn ∈ readConn input.
Proof using psk_ne.
  cbn [accepted]. unfold bridgeAuthServer, peer_nonce. rewrite psk_ne.
  destruct (readFrame input) as [[n r1]|] eqn:E1; [|done]. destruct (len n =? bridgeNonceLen) eqn:E2; cbn [negb]; [|done].
  destruct (readFrame r1) as [[got r2]|] eqn:E3; [|done]. case_bool_decide as E4; [|done]. intros _. exists n.
  apply Z.eqb_eq in E2. split_and!; [done|done|]. rewrite (readConn_step _ _ _ E1), (readConn_step _ _ _ E3). set_solver.
Qed.

Lemma accept_client cn input :
  accepted (EClient cn input) = true ->
  exists sn, peer_nonce input = Some sn /\ len sn = bridgeNonceLen /\
    bridgeProof psk bridgeLabelServer sn cn ∈ readConn input.
Proof using psk_ne.
  cbn [accepted]. unfold bridgeAuthClient, peer_nonce. rewrite psk_ne.
  destruct (readFrame input) as [[n r1]|] eqn:E1; [|done]. destruct (len n =? bridgeNonceLen) eqn:E2; cbn [negb]; [|done].
  destruct (readFrame r1) as [[got r2]|] eqn:E3; [|done]. case_bool_decide as E4; [|done]. intros _. exists n.
  apply Z.eqb_eq in E2. split_and!; [done|done|]. rewrite (readConn_step _ _ _ E1), (readConn_step _ _ _ E3). set_solver.
Qed.

Hypothesis hmac_inj : forall m m', hmac psk m = hmac psk m' -> m = m'.

Lemma bridgeProof_inj l sn cn l' sn' cn' :
  length l = length l' -> len sn = bridgeNonceLen -> len sn' = bridgeNonceLen ->
  bridgeProof psk l sn cn = bridgeProof psk l' sn' cn' -> l = l' /\ sn = sn' /\ cn = cn'.
Proof using hmac_inj.
  intros Hl H1 H2 H. apply hmac_inj in H. apply app_split_eq in H as [-> H]; [|done].
  apply app_split_eq in H as [-> ->]; [done|]. unfold len in *. lia.
Qed.
End Agreement.

(** C32: Whoever controls the network, a server session accepts only if a client
    session with the key took part with exactly the same two nonces, and a client
    session completes only if a server session with the key accepted it, with the
    same two nonces: a proof cannot be reflected, nor replayed from another
    connection. *)
Theorem bridge_agreement `{C : CryptoOps} (psk : bytes) (tr : list bevent) :
  psk <> [] -> (forall m m', hmac psk m = hmac psk m' -> m = m') ->
  (forall sn input, valid_trace psk (tr ++ [EServer sn input]) -> accepted psk (EServer sn input) = true ->
     exists cn input', peer_nonce input = Some cn /\ EClient cn input' ∈ tr /\ peer_nonce input' = Some sn) /\
  (forall cn input, valid_trace psk (tr ++ [EClient cn input]) -> accepted psk (EClient cn input) = true ->
     exists sn input', peer_nonce input = Some sn /\ EServer sn input' ∈ tr /\ peer_nonce input' = Some cn /\
       accepted psk (EServer sn input') = true).
Proof.
  intros Hpsk Hinj.
  assert (Hp : (len psk =? 0) = false) by (destruct (len psk =? 0) eqn:E; [by apply len_zero in E|done]).
  assert (Horigin : forall l sn cn e, (l = bridgeLabelClient \/ l = bridgeLabelServer) ->
    valid_trace psk (tr ++ [e]) -> bridgeProof psk l sn cn ∈ readConn (event_input e) -> len sn = bridgeNonceLen ->
    exists e', e' ∈ tr /\ match e' with
      | EServer sn' i => l = bridgeLabelServer /\ sn' = sn /\ peer_nonce i = Some cn /\ accepted psk e' = true
      | EClient cn' i => l = bridgeLabelClient /\ cn' = cn /\ peer_nonce i = Some sn
      end).
  { intros l sn cn e Hl Hv Hin Hsn. apply valid_last in Hv as (Hv & _ & Hpr).
    rewrite Forall_forall in Hpr. destruct (tag_origin psk tr _ Hv (Hpr _ Hin)) as (e' & He' & Hw).
    destruct (valid_nonces psk tr e' Hv He') as [Hel Hen].
    destruct (event_tags psk Hp e' _ Hen Hw) as (n & Hn & Hnl & Ht). exists e'. split; [done|]. pose proof labels_differ as [HL _].
    destruct e' as [sn' i|cn' i]; cbn [event_nonce event_input] in *.
    - destruct Ht as [Ht Hacc]. apply (bridgeProof_inj psk Hinj) in Ht as (-> & -> & ->); [done| |done|done].
      destruct Hl as [-> | ->]; done.
    - apply (bridgeProof_inj psk Hinj) in Ht as (-> & -> & ->); [done| |done|done]. destruct Hl as [-> | ->]; done. }
  split.
  - intros sn input Hv Ha. destruct (accept_server psk Hp sn input Ha) as (cn & Hcn & Hl & Hin).
    pose proof (valid_last _ _ _ Hv) as (_ & Hsl & _).
    destruct (Horigin bridgeLabelClient sn cn _ (or_introl eq_refl) Hv Hin Hsl) as ([sn' i|cn' i] & He & Hm); [by destruct Hm|].
    destruct Hm as (_ & -> & Hi). by exists cn, i.
  - intros cn input Hv Ha. destruct (accept_client psk Hp cn input Ha) as (sn & Hsn & Hl & Hin).
    destruct (Horigin bridgeLabelServer sn cn _ (or_intror eq_refl) Hv Hin Hl) as ([sn' i|cn' i] & He & Hm); [|by destruct Hm].
    destruct Hm as (_ & -> & Hi & Hacc). by exists sn, i.
Qed.

Lemma bridge_handshake_witness :
  exists couts souts, @bridgeAuthServer toy_ops [x07] (repeat x02 32) (writes couts ++ writes [[x05]]) = (Ok tt, souts, writes [[x05]]).
Proof.
  destruct (bridge_handshake (C := toy_ops) [x07] (repeat x02 32) (repeat x03 32) "peer" 0 ∅ [[x05]] [] []) as [(c & s & H & _) _].
  - reflexivity.
  - reflexivity.
  - intros m. apply len_be_bytes.
  - discriminate.
  - apply Forall_singleton. vm_compute. discriminate.
  - by exists c, s.
Defined.

(** An HMAC without collisions. *)
#[local] Instance free_hmac : CryptoOps := {|
  sha256 := @sha256 toy_ops; ed_public := @ed_public toy_ops; ed_sign := @ed_sign toy_ops; ed_verify := @ed_verify toy_ops;
  hmac k m := k ++ m;
  hkdf32 := @hkdf32 toy_ops; x_valid_pub := @x_valid_pub toy_ops; x_public := @x_public toy_ops; x_ecdh := @x_ecdh toy_ops;
  ml_valid_pub := @ml_valid_pub toy_ops; ml_public := @ml_public toy_ops; ml_encap := @ml_encap toy_ops; ml_decap := @ml_decap toy_ops;
  gcm_seal := @gcm_seal toy_ops; gcm_open := @gcm_open toy_ops
|}.

Lemma bridge_agreement_witness :
  let sn := repeat x02 32 in let cn := repeat x03 32 in
  let input := writes [cn; bridgeProof [x07] bridgeLabelClient sn cn] in
  exists i, EClient cn i ∈ [EClient cn (writes [sn])] /\ peer_nonce i = Some sn.
Proof.
  cbn zeta. set (sn := repeat x02 32). set (cn := repeat x03 32).
  set (input := writes [cn; bridgeProof [x07] bridgeLabelClient sn cn]).
  destruct (bridge_agreement (C := free_hmac) [x07] [EClient cn (writes [sn])]) as [H _].
  - discriminate.
  - intros m m' Hm. cbn in Hm. by injection Hm.
  - destruct (H sn input) as (cn' & i & H1 & H2 & H3).
    + apply vt_snoc; [|reflexivity|intros m Hm; discriminate|].
      * apply (vt_snoc [x07] []); [constructor|reflexivity|intros m Hm; discriminate|].
        vm_compute readConn. apply Forall_singleton. right. intros m Hm. discriminate.
      * vm_compute readConn. apply Forall_cons. split; [left; vm_compute; set_solver|]. apply Forall_singleton. left.
        vm_compute. set_solver.
    + vm_compute. reflexivity.
    + assert (Hc : cn' = cn) by (vm_compute in H1; by injection H1 as <-). subst cn'. by exists i.
Defined.
