(* ===== verification/Ifaces.v ===== *)
(** * IP interfaces and serial ports (internal/iface/iface.go, udp.go, auto.go, tcp.go, radio.go, serial.go)

    What every medium promises, then the datagram interfaces (one UDP socket; one
    multicast socket per network interface), the TCP listener and the TCP client as
    step machines of their goroutines with [Close], and the choice of a serial line
    rate.  The operating system's answers - what resolves, binds, joins, is written - are
    arguments; a TCP connection is the bytes that will arrive from it, as in Bridge, of
    which the goroutine's buffered reader has some in memory: those it still has when the
    connection is closed. *)

From S2P Require Import Prelude Crypto Wire Bridge.

(** ** The seam *)

Inductive Kind : Type := KindUDP | KindTCPServer | KindTCPClient | KindLoRa | KindSerial.
Record Caps : Type := mkCaps { c_MTU : Z; c_Bitrate : Z; c_Broadcast : bool; c_FullDuplex : bool }.
Record InboundFrame : Type := mkInbound { if_Addr : string; if_Data : bytes }.
Definition Broadcast : string := "".

Inductive iface_err : Type := EClosed | ENotImplemented | ETooLarge (n : Z) | EResolve | EBind | ENoAddress | ESend | ENoMulticast | ENoPeer | ENotConnected | EBaud | EOpen.

(** ** UDP *)

Definition udpMTU : Z := 1400.
Definition SafeDatagramMTU : Z := udpMTU.
Definition udp_buf : nat := Z.to_nat 65536.

(** [net.UDPAddr]. *)
Record UDPAddr : Type := mkUDPAddr { ua_IP : bytes; ua_Port : Z; ua_Zone : string }.

Record UDPInterface : Type := mkUDP { u_broadcast : option UDPAddr; u_mtu : Z; u_sendCap : Z; u_closed : bool }.

Section UDP.
Context (resolve : string -> option UDPAddr) (addr_String : UDPAddr -> string).

(** [bind]: whether the socket can be bound. *)
Definition NewUDPInterfaceSized (bind : UDPAddr -> bool) (listenAddr broadcastAddr : string) (sizingMTU sendCap : Z) : result iface_err UDPInterface :=
  match resolve listenAddr with
  | None => Err EResolve
  | Some la =>
      if negb (bind la) then Err EBind
      else
        let made ba := Ok (mkUDP ba sizingMTU (if sendCap <? sizingMTU then sizingMTU else sendCap) false) in
        if String.eqb broadcastAddr "" then made None
        else match resolve broadcastAddr with None => Err EResolve | Some ba => made (Some ba) end
  end.
Definition NewUDPInterfaceMTU bind listenAddr broadcastAddr mtu := NewUDPInterfaceSized bind listenAddr broadcastAddr mtu mtu.
Definition NewUDPInterface bind listenAddr broadcastAddr := NewUDPInterfaceMTU bind listenAddr broadcastAddr udpMTU.

Definition udp_Caps (u : UDPInterface) : Caps := mkCaps (u_mtu u) 100000000 (match u_broadcast u with Some _ => true | None => false end) true.

(** [written]: what [WriteToUDP] answers; on a closed socket it fails.  Returned: the
    datagram put on the wire. *)
Definition udp_Send (written : UDPAddr -> bool) (u : UDPInterface) (addr : string) (frame : bytes) : result iface_err (UDPAddr * bytes) :=
  if u_sendCap u <? len frame then Err (ETooLarge (len frame))
  else
    let to dst := if negb (u_closed u) && written dst then Ok (dst, frame) else if u_closed u then Err EClosed else Err ESend in
    if negb (String.eqb addr Broadcast) then match resolve addr with None => Err EResolve | Some dst => to dst end
    else match u_broadcast u with None => Err ENoAddress | Some dst => to dst end.

Definition udp_Close (u : UDPInterface) : UDPInterface := mkUDP (u_broadcast u) (u_mtu u) (u_sendCap u) true.

(** [readLoop]: each datagram overwrites the front of the one buffer and is copied out
    of it.  [stop]: the select took the closed [done] channel. *)
Fixpoint udp_readLoop (buf : bytes) (evs : list (UDPAddr * bytes * bool)) : list InboundFrame :=
  match evs with
  | [] => []
  | (src, d, stop) :: evs =>
      let n := Nat.min (length d) udp_buf in
      let buf := take n d ++ drop n buf in
      let data := take n buf in
      if stop then [] else mkInbound (addr_String src) data :: udp_readLoop buf evs
  end.
End UDP.

(** ** Zero-configuration LAN peering *)

(** [net.IP.To4] and [IsLinkLocalUnicast]. *)
Definition v4InV6Prefix : bytes := repeat x00 10 ++ [xff; xff].
Definition To4 (ip : bytes) : option bytes :=
  if len ip =? 4 then Some ip else if (len ip =? 16) && bool_decide (take 12 ip = v4InV6Prefix) then Some (drop 12 ip) else None.
Definition IsLinkLocalUnicast (ip : bytes) : bool :=
  match To4 ip with
  | Some ip4 => bool_decide (take 2 ip4 = [xa9; xfe])
  | None => match ip with
            | a :: b :: _ => (len ip =? 16) && bool_decide (a = xfe) && (Z.land (byte_to_Z b) 0xc0 =? 0x80)
            | _ => false
            end
  end.

(** [net.Interface] with its flags and the IPs of its addresses, if they can be read. *)
Record NetIf : Type := mkNetIf { ni_Name : string; ni_up : bool; ni_multicast : bool; ni_loopback : bool; ni_Addrs : option (list bytes) }.

Definition hasLinkLocalV6 (ifi : NetIf) : bool :=
  match ni_Addrs ifi with
  | None => false
  | Some ips => existsb (fun ip => match To4 ip with None => IsLinkLocalUnicast ip | Some _ => false end) ips
  end.

Definition AutoPort : Z := 64520.
(** ["ff02::7377"]. *)
Definition AutoGroup : bytes := [xff; x02] ++ repeat x00 12 ++ [x73; x77].

Record AutoInterface : Type := mkAuto { a_mtu : Z; a_members : list string; a_closed : bool }.

Definition auto_eligible (join : string -> bool) (ifi : NetIf) : bool :=
  ni_up ifi && ni_multicast ifi && negb (ni_loopback ifi) && hasLinkLocalV6 ifi && join (ni_Name ifi).

(** [ifaces]: what [net.Interfaces] answers; [join]: where the group can be joined. *)
Definition NewAutoInterface (ifaces : option (list NetIf)) (join : string -> bool) : result iface_err AutoInterface :=
  match ifaces with
  | None => Err EBind
  | Some l =>
      match map ni_Name (List.filter (auto_eligible join) l) with
      | [] => Err ENoMulticast
      | members => Ok (mkAuto udpMTU members false)
      end
  end.

Definition auto_Caps (a : AutoInterface) : Caps := mkCaps (a_mtu a) 100000000 true true.

Section Auto.
Context (resolve6 : string -> option UDPAddr) (written : string -> UDPAddr -> bool).

(** A write from the socket of member [m]. *)
Abbreviation auto_write := (string * UDPAddr * bytes)%type.

Definition auto_group (m : string) : UDPAddr := mkUDPAddr AutoGroup AutoPort m.

Definition auto_Send (a : AutoInterface) (addr : string) (frame : bytes) : list auto_write * result iface_err unit :=
  if a_mtu a <? len frame then ([], Err (ETooLarge (len frame)))
  else if a_closed a then ([], Err EClosed)
  else if negb (String.eqb addr Broadcast) then
    match resolve6 addr, a_members a with
    | None, _ => ([], Err EResolve)
    | Some dst, m :: _ => if written m dst then ([(m, dst, frame)], Ok tt) else ([], Err ESend)
    | Some _, [] => ([], Err ENoMulticast)   (* unreachable: a made interface has a member *)
    end
  else
    let out := map (fun m => (m, auto_group m, frame)) (List.filter (fun m => written m (auto_group m)) (a_members a)) in
    (out, match out with [] => Err ESend | _ => Ok tt end).
End Auto.

Definition auto_Close (a : AutoInterface) : AutoInterface := mkAuto (a_mtu a) (a_members a) true.

(** ** Serial ports *)

Definition standardBauds : list Z := [1200; 2400; 4800; 9600; 19200; 38400; 57600; 115200; 230400; 460800; 921600].
Definition validBaud (baud : Z) : bool := existsb (Z.eqb baud) standardBauds.

Definition loRaMTU : Z := 500.
Definition serialMTU : Z := 500.
Definition defaultLoRaBaud : Z := 115200.
Definition defaultSerialBaud : Z := 9600.

(** The termios speed constants are the platform's. *)
Definition baudConst (unix_B : Z -> Z) (baud : Z) : option Z :=
  if existsb (Z.eqb baud) [1200; 2400; 4800; 9600; 19200; 38400; 57600; 115200; 230400; 460800; 921600] then Some (unix_B baud) else None.

(** The line rate asked of the port and the medium's properties; [opened]: whether the
    backend opens the device at that rate. *)
Definition NewLoRaInterface (opened : Z -> bool) (baud : Z) : result iface_err (Z * Caps) :=
  let baud := if baud <=? 0 then defaultLoRaBaud else baud in
  if opened baud then Ok (baud, mkCaps loRaMTU 5000 true false) else Err EOpen.
Definition NewSerialInterface (opened : Z -> bool) (baud : Z) : result iface_err (Z * Caps) :=
  let baud := if baud <=? 0 then defaultSerialBaud else baud in
  if opened baud then Ok (baud, mkCaps serialMTU baud true false) else Err EOpen.

(** ** TCP: buffered readers *)

(** A [bufio.Reader]: the bytes it has taken from the socket and those it has not. *)
Record reader : Type := mkReader { rd_buf : bytes; rd_sock : bytes }.
Definition rd_all (r : reader) : bytes := rd_buf r ++ rd_sock r.
Definition bufSize : nat := 4096.

(** A reader that has taken [n] bytes beyond those it used, as far as it has room. *)
Definition buffered (n : nat) (l : bytes) : reader := mkReader (take (Nat.min n bufSize) l) (drop (Nat.min n bufSize) l).

(** [readFrame] on it: a frame in the buffer needs no socket; otherwise the socket has to
    be open on this side, and [n] bytes beyond the frame come along. *)
Definition read_next (open_ : bool) (n : nat) (r : reader) : option (bytes * reader) :=
  match readFrame (rd_buf r) with
  | Some (f, buf) => Some (f, mkReader buf (rd_sock r))
  | None => if open_ then match readFrame (rd_all r) with Some (f, rest) => Some (f, buffered n rest) | None => None end else None
  end.

Lemma ReadFull_more n l d l' k : 0 <= n -> ReadFull n l = Ok (d, l') -> ReadFull n (l ++ k) = Ok (d, l' ++ k).
Proof. intros Hn H. apply ReadFull_inv in H as [-> Hd]; [|done]. rewrite <- app_assoc. by apply ReadFull_app. Qed.

Lemma readFrame_more l f l' k : readFrame l = Some (f, l') -> readFrame (l ++ k) = Some (f, l' ++ k).
Proof.
  unfold readFrame. destruct (ReadFull 4 l) as [[hdr l1]|] eqn:E1; [|done]. apply (ReadFull_more _ _ _ _ k) in E1 as ->; [|done].
  destruct (tcpMTU <? be_val hdr); [done|]. destruct (ReadFull (be_val hdr) l1) as [[b l2]|] eqn:E2; [|done].
  apply (ReadFull_more _ _ _ _ k) in E2 as ->; [|apply be_val_range]. by intros [= <- <-].
Qed.

Lemma rd_all_buffered n l : rd_all (buffered n l) = l.
Proof. apply take_drop. Qed.

Lemma read_next_some o n r f r' : read_next o n r = Some (f, r') -> readFrame (rd_all r) = Some (f, rd_all r').
Proof.
  unfold read_next. destruct (readFrame (rd_buf r)) as [[g buf]|] eqn:E; [intros [= <- <-]; by apply readFrame_more|]. destruct o; [|done].
  destruct (readFrame (rd_all r)) as [[g rest]|]; [|done]. intros [= <- <-]. by rewrite rd_all_buffered.
Qed.

Lemma read_next_end n r : read_next true n r = None <-> readFrame (rd_all r) = None.
Proof.
  unfold read_next. destruct (readFrame (rd_buf r)) as [[g buf]|] eqn:E; [split; [done|]; intros H; unfold rd_all in H; by rewrite (readFrame_more _ _ _ (rd_sock r) E) in H|].
  by destruct (readFrame (rd_all r)) as [[]|].
Qed.

Lemma read_next_ended o n r : readFrame (rd_all r) = None -> read_next o n r = None.
Proof. intros H. apply (read_next_end n) in H. revert H. unfold read_next. destruct (readFrame (rd_buf r)) as [[]|]; [done|]. by destruct o. Qed.

(** With the socket closed, what is in the buffer is all that can come. *)
Lemma read_next_shut n r : read_next false n r = match readFrame (rd_buf r) with Some (f, buf) => Some (f, mkReader buf (rd_sock r)) | None => None end.
Proof. unfold read_next. by destruct (readFrame (rd_buf r)) as [[]|]. Qed.

Lemma read_next_shut_buf n r f r' : read_next false n r = Some (f, r') -> readConn (rd_buf r) = f :: readConn (rd_buf r').
Proof. rewrite read_next_shut. destruct (readFrame (rd_buf r)) as [[g buf]|] eqn:E; [|done]. intros [= <- <-]. by apply readConn_step. Qed.

(** ** TCP: the listening side *)

Module Server.

(** A connection's goroutine: in the handshake, about to read a frame, at the [select]
    with the frame it read, or returned. *)
Inductive conn_phase : Type := Auth (addr : string) (input : bytes) | Reading (addr : string) (r : reader) | Holding (addr : string) (f : bytes) (r : reader) | Gone.

Record listener : Type := mkState {
  conns : gmap string nat;          (** the table *)
  gors : gmap nat conn_phase;
  opened : gset nat;                (** sockets not closed on this side *)
  closed : bool;                       (** [done] is closed *)
  shut : bool;                         (** [Close] has closed the connections of the table *)
  frames : list (nat * InboundFrame)   (** put in the channel, with their connection *)
}.
Definition listener_init : listener := mkState ∅ ∅ ∅ false false [].

Inductive listener_event : Type :=
  | Accept (c : nat) (addr : string) (input : bytes)    (** [acceptLoop] *)
  | Authenticate (c : nat) (nonce : bytes) (n : nat)    (** [acceptOne]; [n]: bytes buffered beyond the handshake *)
  | Read (c : nat) (n : nat)                            (** [readConn] reads a frame; [n]: bytes buffered beyond it *)
  | Put (c : nat)                                       (** its [select] puts the frame in the channel *)
  | Quit (c : nat)                                      (** its [select] takes [done] *)
  | Close                                               (** closes [done] and the listening socket *)
  | Shut.                                               (** the locked part of [Close] *)

Section Step.
Context `{C : CryptoOps} (psk : bytes).

(** The deferred part of [readConn]. *)
Definition listener_finish (s : listener) (c : nat) (addr : string) : listener :=
  mkState (delete addr (conns s)) (<[c := Gone]> (gors s)) (opened s ∖ {[c]}) (closed s) (shut s) (frames s).

Definition listener_step (s : listener) (e : listener_event) : option listener :=
  match e with
  | Accept c addr input =>
      if closed s then None
      else match gors s !! c with
           | Some _ => None
           | None => Some (mkState (conns s) (<[c := Auth addr input]> (gors s)) (opened s ∪ {[c]}) (closed s) (shut s) (frames s))
           end
  | Authenticate c nonce n =>
      match gors s !! c with
      | Some (Auth addr input) =>
          match bridgeAuthServer psk nonce input with
          | (Err _, _, _) => Some (mkState (conns s) (<[c := Gone]> (gors s)) (opened s ∖ {[c]}) (closed s) (shut s) (frames s))
          | (Ok _, _, rest) => Some (mkState (<[addr := c]> (conns s)) (<[c := Reading addr (buffered n rest)]> (gors s)) (opened s) (closed s) (shut s) (frames s))
          end
      | _ => None
      end
  | Read c n =>
      match gors s !! c with
      | Some (Reading addr r) =>
          match read_next (bool_decide (c ∈ opened s)) n r with
          | None => Some (listener_finish s c addr)
          | Some (f, r) => Some (mkState (conns s) (<[c := Holding addr f r]> (gors s)) (opened s) (closed s) (shut s) (frames s))
          end
      | _ => None
      end
  | Put c =>
      match gors s !! c with
      | Some (Holding addr f r) => Some (mkState (conns s) (<[c := Reading addr r]> (gors s)) (opened s) (closed s) (shut s) (frames s ++ [(c, mkInbound addr f)]))
      | _ => None
      end
  | Quit c =>
      match gors s !! c with
      | Some (Holding addr _ _) => if closed s then Some (listener_finish s c addr) else None
      | _ => None
      end
  | Close => Some (mkState (conns s) (gors s) (opened s) true (shut s) (frames s))
  | Shut =>
      if closed s && negb (shut s)
      then Some (mkState ∅ (gors s) (opened s ∖ list_to_set (map snd (map_to_list (conns s)))) true true (frames s))
      else None
  end.

Fixpoint listener_run (s : listener) (es : list listener_event) : option listener :=
  match es with
  | [] => Some s
  | e :: es => match listener_step s e with None => None | Some s => listener_run s es end
  end.

Definition listener_frames (s : listener) (c : nat) : list InboundFrame := map snd (List.filter (fun p => Nat.eqb p.1 c) (frames s)).
End Step.

(** The bytes left after the handshake, if the server accepts it with some nonce. *)
Definition admitted `{C : CryptoOps} (psk nonce input rest : bytes) : Prop := (bridgeAuthServer psk nonce input).1.1 = Ok tt /\ (bridgeAuthServer psk nonce input).2 = rest.

(** What a goroutine can still deliver without its socket. *)
Definition in_hand (ph : conn_phase) : list InboundFrame :=
  match ph with
  | Reading addr r => map (mkInbound addr) (readConn (rd_buf r))
  | Holding addr f r => mkInbound addr f :: map (mkInbound addr) (readConn (rd_buf r))
  | Auth _ _ | Gone => []
  end.

(** What holds of a connection that was accepted from [addr] with [input] to come. *)
Definition served `{C : CryptoOps} (psk : bytes) (s : listener) (c : nat) (addr : string) (input : bytes) (ph : conn_phase) : Prop :=
  match ph with
  | Auth a i => a = addr /\ i = input /\ (shut s = false -> c ∈ opened s) /\ listener_frames s c = []
  | Reading a r => a = addr /\ (shut s = false -> c ∈ opened s) /\ exists nonce rest0, admitted psk nonce input rest0 /\
      map (mkInbound addr) (readConn rest0) = listener_frames s c ++ map (mkInbound addr) (readConn (rd_all r))
  | Holding a f r => a = addr /\ (shut s = false -> c ∈ opened s) /\ exists nonce rest0, admitted psk nonce input rest0 /\
      map (mkInbound addr) (readConn rest0) = listener_frames s c ++ map (mkInbound addr) (f :: readConn (rd_all r))
  | Gone => (exists nonce e, (bridgeAuthServer psk nonce input).1.1 = Err e /\ listener_frames s c = []) \/
      exists nonce rest0, admitted psk nonce input rest0 /\ listener_frames s c `prefix_of` map (mkInbound addr) (readConn rest0) /\
        (closed s = false -> listener_frames s c = map (mkInbound addr) (readConn rest0))
  end.

(** In [readConn]. *)
Definition reads_at (addr : string) (ph : conn_phase) : Prop := match ph with Reading a _ | Holding a _ _ => a = addr | _ => False end.

Record listener_inv `{C : CryptoOps} (psk : bytes) (es : list listener_event) (s : listener) : Prop := {
  inv_gors : forall c ph, gors s !! c = Some ph -> exists addr input, Accept c addr input ∈ es /\ served psk s c addr input ph;
  inv_frames : forall p, p ∈ frames s -> is_Some (gors s !! p.1);
  inv_conns : forall addr c, conns s !! addr = Some c -> exists ph, gors s !! c = Some ph /\ reads_at addr ph;
  inv_open : forall c, c ∈ opened s -> exists ph, gors s !! c = Some ph /\ ph <> Gone;
  inv_shut : shut s = true -> closed s = true
}.

Section Proofs.
Context `{C : CryptoOps} (psk : bytes).

Lemma listener_frames_of_nil s c : (forall p, p ∈ frames s -> is_Some (gors s !! p.1)) -> gors s !! c = None -> listener_frames s c = [].
Proof using Type.
  intros H Hc. unfold listener_frames. induction (frames s) as [|p l IH]; [done|]. cbn [List.filter].
  destruct (Nat.eqb_spec p.1 c) as [E|E]; [|apply IH; intros q Hq; apply H; by right].
  exfalso. destruct (H p) as [ph Hp]; [left|]. rewrite E in Hp. congruence.
Qed.

Lemma listener_frames_of_app s s' c c' f : frames s' = frames s ++ [(c', f)] -> listener_frames s' c = listener_frames s c ++ (if Nat.eqb c' c then [f] else []).
Proof using Type. intros H. unfold listener_frames. rewrite H, List.filter_app, map_app. f_equal. cbn. by destruct (Nat.eqb c' c). Qed.

(** A phase of a connection an event does not concern stays described. *)
Lemma served_frame s s' c addr input ph :
  served psk s c addr input ph -> listener_frames s' c = listener_frames s c -> (closed s = true -> closed s' = true) ->
  (shut s' = false -> shut s = false /\ (c ∈ opened s -> c ∈ opened s')) -> served psk s' c addr input ph.
Proof using Type.
  intros H Hf Hcl Ho. assert (Hcl' : closed s' = false -> closed s = false) by (destruct (closed s); [intros; rewrite Hcl in * by done; done|done]).
  destruct ph as [a i|a r|a f r|]; cbn [served] in *; rewrite Hf.
  - destruct H as (-> & -> & Hop & H). split_and!; try done. intros [H1 H2]%Ho. auto.
  - destruct H as (-> & Hop & H). split_and!; try done. intros [H1 H2]%Ho. auto.
  - destruct H as (-> & Hop & H). split_and!; try done. intros [H1 H2]%Ho. auto.
  - destruct H as [H|(nonce & rest0 & Ha & Hp & He)]; [by left|]. right. exists nonce, rest0. split_and!; auto.
Qed.

Lemma readConn_none st : readFrame st = None -> readConn st = [].
Proof using Type. intros H. unfold readConn. destruct (length st); cbn [read_frames]; [done|by rewrite H]. Qed.

Lemma listener_inv_init : listener_inv psk [] listener_init.
Proof using Type. split; cbn; intros; try done; try (exfalso; set_solver); by rewrite lookup_empty in *. Qed.

(** A step that changes the phase of one connection, the table for it, and the frames
    by it, preserves the invariant if the new phase is described. *)
Lemma listener_inv_change es e s s' c ph' addr input :
  listener_inv psk es s -> gors s' = <[c := ph']> (gors s) -> closed s' = closed s -> shut s' = shut s ->
  (forall c', c' <> c -> listener_frames s' c' = listener_frames s c') -> (forall p, p ∈ frames s' -> p ∈ frames s \/ p.1 = c) ->
  Accept c addr input ∈ es ++ [e] -> served psk s' c addr input ph' ->
  (forall a c', conns s' !! a = Some c' -> c' <> c /\ conns s !! a = Some c' \/ c' = c /\ reads_at a ph') ->
  (forall c', c' <> c -> c' ∈ opened s' <-> c' ∈ opened s) -> (c ∈ opened s' -> ph' <> Gone) -> listener_inv psk (es ++ [e]) s'.
Proof using Type.
  intros [I1 I2 I3 I4 I5] Hg Hcl Hsh Hf Hfr Hin Hs Hc Ho Hoc. split.
  - intros c1 ph1. rewrite Hg. destruct (decide (c1 = c)) as [->|Hne].
    + rewrite lookup_insert_eq. intros [= <-]. by exists addr, input.
    + rewrite lookup_insert_ne by done. intros (a & i & Hi & Hs1)%I1. exists a, i. split; [apply elem_of_app; by left|].
      apply (served_frame s); auto; [by rewrite Hcl|]. rewrite Hsh. intros ?. split; [done|]. intros ?. by apply Ho.
  - intros p Hp. rewrite Hg. destruct (Hfr p Hp) as [H1| ->]; [|by rewrite lookup_insert_eq].
    apply I2 in H1. destruct (decide (p.1 = c)) as [->|]; [by rewrite lookup_insert_eq|by rewrite lookup_insert_ne].
  - intros a c1 H1. rewrite Hg. apply Hc in H1 as [[Hne H1]|[-> H1]]; [rewrite lookup_insert_ne by done; by apply I3 in H1|rewrite lookup_insert_eq; by exists ph'].
  - intros c1 H1. rewrite Hg. destruct (decide (c1 = c)) as [->|Hne]; [rewrite lookup_insert_eq; exists ph'; auto|rewrite lookup_insert_ne by done; apply I4; by apply Ho].
  - rewrite Hcl, Hsh. exact I5.
Qed.

(** A goroutine returns from [readConn]: at the end of its stream, or stopped. *)
Lemma listener_inv_finish es e s c addr input nonce rest0 left :
  listener_inv psk es s -> Accept c addr input ∈ es -> (forall a, conns s !! a = Some c -> a = addr) -> admitted psk nonce input rest0 ->
  map (mkInbound addr) (readConn rest0) = listener_frames s c ++ left -> (closed s = false -> left = []) -> listener_inv psk (es ++ [e]) (listener_finish s c addr).
Proof using Type.
  intros I Hin Hcn Had Hfr Hend. assert (Hfo : forall c', listener_frames (listener_finish s c addr) c' = listener_frames s c') by done.
  apply (listener_inv_change es e s _ c Gone addr input I); cbn [listener_finish conns gors opened closed shut frames]; auto.
  - apply elem_of_app. by left.
  - right. exists nonce, rest0. rewrite Hfo. split_and!; [done|rewrite Hfr; by apply prefix_app_r|]. cbn [listener_finish closed]. intros Hcl.
    by rewrite Hfr, (Hend Hcl), app_nil_r.
  - intros a' c' [Hne H']%lookup_delete_Some. left. split; [|done]. intros ->. apply Hne. symmetry. by apply Hcn.
  - intros c' Hne. set_solver.
  - set_solver.
Qed.

(** A goroutine stays in [readConn], having added [new] to the channel. *)
Lemma listener_inv_stay es e s s' c addr input ph ph' new :
  listener_inv psk es s -> gors s !! c = Some ph -> reads_at addr ph -> reads_at addr ph' -> Accept c addr input ∈ es ->
  s' = mkState (conns s) (<[c := ph']> (gors s)) (opened s) (closed s) (shut s) (frames s ++ map (pair c) new) ->
  (listener_frames s' c = listener_frames s c ++ new -> served psk s' c addr input ph') -> listener_inv psk (es ++ [e]) s'.
Proof using Type.
  intros I Hg Hph Hph' Hin -> Hs. apply (listener_inv_change es e s _ c ph' addr input I); cbn [conns gors opened closed shut frames]; auto.
  - intros c' Hne. unfold listener_frames. cbn [frames]. rewrite List.filter_app, map_app. rewrite (filter_nil_iff_none _ (map (pair c) new)); [by rewrite app_nil_r|].
    intros x (y & -> & _)%list_elem_of_fmap. cbn. by apply Nat.eqb_neq.
  - intros p [Hp|(y & -> & _)%list_elem_of_fmap]%elem_of_app; [by left|by right].
  - apply elem_of_app. by left.
  - apply Hs. unfold listener_frames. cbn [frames]. rewrite List.filter_app, map_app. f_equal. rewrite (filter_all_id _ (map (pair c) new)).
    + rewrite map_map. apply map_id.
    + intros x (y & -> & _)%list_elem_of_fmap. cbn. apply Nat.eqb_refl.
  - intros a' c' H'. destruct (decide (c' = c)) as [->|]; [|by left]. right. split; [done|]. apply (inv_conns psk es s I) in H' as (ph1 & H1 & H2).
    assert (a' = addr) as ->; [|done]. rewrite Hg in H1. injection H1 as <-. destruct ph; cbn in *; done || congruence.
  - intros _ ->. by destruct Hph'.
Qed.

Lemma conns_addr es s c addr ph : listener_inv psk es s -> gors s !! c = Some ph -> reads_at addr ph -> forall a, conns s !! a = Some c -> a = addr.
Proof using Type. intros I Hg Hph a (ph1 & H1 & H2)%(inv_conns psk es s I). rewrite Hg in H1. injection H1 as <-. destruct ph; cbn in *; done || congruence. Qed.

Lemma listener_inv_step es s e s' : listener_inv psk es s -> listener_step psk s e = Some s' -> listener_inv psk (es ++ [e]) s'.
Proof using Type.
  intros I. destruct e as [c addr input|c nonce n|c n|c|c| |]; cbn [listener_step].
  - destruct (closed s) eqn:Ecl; [done|]. destruct (gors s !! c) eqn:Eg; [done|]. intros [= <-].
    assert (Hnil : listener_frames s c = []) by (apply listener_frames_of_nil; [apply (inv_frames psk es s I)|done]).
    apply (listener_inv_change es _ s _ c (Auth addr input) addr input I); cbn [conns gors opened closed shut frames]; auto; try done.
    + apply elem_of_app. right. left.
    + split_and!; [done|done|set_solver|done].
    + intros a c' H'. left. split; [|done]. intros ->. apply (inv_conns psk es s I) in H' as (ph & H' & _). congruence.
    + intros c' Hne. set_solver.
  - destruct (gors s !! c) as [[addr input| | |]|] eqn:Eg; try done. destruct (inv_gors psk es s I c _ Eg) as (a & i & Hin & -> & -> & Hop & Hnil).
    assert (Hin' : Accept c a i ∈ es ++ [Authenticate c nonce n]) by (apply elem_of_app; by left).
    assert (Hold : forall a' c', conns s !! a' = Some c' -> c' <> c).
    { intros a' c' H' ->. apply (inv_conns psk es s I) in H' as (ph & H' & Hph). rewrite Eg in H'. by simplify_eq. }
    destruct (bridgeAuthServer psk nonce i) as [[[u|e] w] rest] eqn:Eb; intros [= <-].
    + apply (listener_inv_change es _ s _ c (Reading a (buffered n rest)) a i I); cbn [conns gors opened closed shut frames]; auto; try done.
      * split_and!; [done|done|]. exists nonce, rest. split; [split; rewrite Eb; by destruct u|]. rewrite rd_all_buffered. unfold listener_frames in *. cbn [frames] in *. by rewrite Hnil.
      * intros a' c'. destruct (decide (a' = a)) as [->|]; [rewrite lookup_insert_eq; intros [= <-]; by right|rewrite lookup_insert_ne by done; left; eauto].
    + apply (listener_inv_change es _ s _ c Gone a i I); cbn [conns gors opened closed shut frames]; auto.
      * left. exists nonce, e. by rewrite Eb.
      * intros a' c' H'. left. eauto.
      * intros c' Hne. set_solver.
      * set_solver.
  - destruct (gors s !! c) as [[|addr r| |]|] eqn:Eg; try done.
    destruct (inv_gors psk es s I c _ Eg) as (a & i & Hin & <- & Hop & nonce & rest0 & Had & Hfr).
    destruct (read_next _ n r) as [[f r']|] eqn:Er; intros [= <-].
    + eapply (listener_inv_stay es _ s _ c addr i _ (Holding addr f r') []); [done|exact Eg|done|done|done|by rewrite app_nil_r|].
      intros Hf. split_and!; [done|done|]. exists nonce, rest0. split; [done|]. rewrite Hf, app_nil_r, Hfr. f_equal.
      by rewrite (readConn_step _ _ _ (read_next_some _ _ _ _ _ Er)).
    + eapply listener_inv_finish; [done|exact Hin|by eapply conns_addr|exact Had|exact Hfr|]. intros Hcl.
      rewrite bool_decide_true in Er; [apply read_next_end in Er; by rewrite readConn_none|].
      apply Hop. destruct (shut s) eqn:E; [|done]. apply (inv_shut psk es s I) in E. congruence.
  - destruct (gors s !! c) as [[| |addr f r|]|] eqn:Eg; try done. intros [= <-].
    destruct (inv_gors psk es s I c _ Eg) as (a & i & Hin & <- & Hop & nonce & rest0 & Had & Hfr).
    eapply (listener_inv_stay es _ s _ c addr i _ (Reading addr r) [mkInbound addr f]); [done|exact Eg|done..|].
    intros Hf. split_and!; [done|done|]. exists nonce, rest0. split; [done|]. rewrite Hf, Hfr. by rewrite <- app_assoc.
  - destruct (gors s !! c) as [[| |addr f r|]|] eqn:Eg; try done. destruct (closed s) eqn:Ecl; [|done]. intros [= <-].
    destruct (inv_gors psk es s I c _ Eg) as (a & i & Hin & <- & Hop & nonce & rest0 & Had & Hfr).
    eapply listener_inv_finish; [done|exact Hin|by eapply conns_addr|exact Had|exact Hfr|congruence].
  - intros [= <-]. destruct I as [I1 I2 I3 I4 I5]. split; cbn [conns gors opened closed shut frames]; try done.
    intros c ph (a & i & H1 & H2)%I1. exists a, i. split; [apply elem_of_app; by left|]. by apply (served_frame s).
  - destruct (closed s && negb (shut s)) eqn:Ecl; [|done]. intros [= <-]. destruct I as [I1 I2 I3 I4 I5]. split; cbn [conns gors opened closed shut frames]; try done.
    + intros c ph (a & i & H1 & H2)%I1. exists a, i. split; [apply elem_of_app; by left|]. by apply (served_frame s).
    + intros c [H1 _]%elem_of_difference. auto.
Qed.

Lemma listener_run_inv es0 es s s' : listener_inv psk es0 s -> listener_run psk s es = Some s' -> listener_inv psk (es0 ++ es) s'.
Proof using Type.
  revert es0 s. induction es as [|e es IH]; intros es0 s I; cbn [listener_run]; [intros [= <-]; by rewrite app_nil_r|].
  destruct (listener_step psk s e) as [s1|] eqn:Es; [|done]. intros H. rewrite (cons_middle e), app_assoc. eapply IH; [by eapply listener_inv_step|done].
Qed.

(** A connection in [readConn] whose socket is closed here can only deliver, in order, what
    its goroutine has in hand. *)
Definition at_hand (s : listener) (c : nat) : list InboundFrame := match gors s !! c with Some ph => in_hand ph | None => [] end.
Definition detached (s : listener) (c : nat) : Prop :=
  (c ∉ opened s) /\ (exists ph, gors s !! c = Some ph) /\ (forall a i, gors s !! c <> Some (Auth a i)).

Lemma detached_step s e s' c : detached s c -> listener_step psk s e = Some s' ->
  detached s' c /\ exists k, listener_frames s' c = listener_frames s c ++ k /\ k ++ at_hand s' c `prefix_of` at_hand s c.
Proof using Type.
  intros (Ho & Hg & Ha) Es. unfold detached, at_hand.
  assert (Hother : forall c1 ph1 s1, c1 <> c -> gors s1 = <[c1 := ph1]> (gors s) -> (c ∉ opened s1) -> listener_frames s1 c = listener_frames s c ->
    ((c ∉ opened s1) /\ (exists ph, gors s1 !! c = Some ph) /\ (forall a i, gors s1 !! c <> Some (Auth a i))) /\
    exists k, listener_frames s1 c = listener_frames s c ++ k /\ k ++ (match gors s1 !! c with Some ph => in_hand ph | None => [] end) `prefix_of` (match gors s !! c with Some ph => in_hand ph | None => [] end)).
  { intros c1 ph1 s1 Hne Hg1 Ho1 Hf1. rewrite Hg1, lookup_insert_ne by done. split_and!; [done|done|done|]. exists []. by rewrite app_nil_r. }
  assert (Hgone : forall a1, ((c ∉ opened (listener_finish s c a1)) /\ (exists ph, gors (listener_finish s c a1) !! c = Some ph) /\ (forall a i, gors (listener_finish s c a1) !! c <> Some (Auth a i))) /\
    exists k, listener_frames (listener_finish s c a1) c = listener_frames s c ++ k /\ k ++ (match gors (listener_finish s c a1) !! c with Some ph => in_hand ph | None => [] end) `prefix_of` (match gors s !! c with Some ph => in_hand ph | None => [] end)).
  { intros a1. cbn [listener_finish gors opened frames]. rewrite lookup_insert_eq. split_and!; [set_solver|by eexists|done|]. exists []. rewrite app_nil_r. split; [done|apply prefix_nil]. }
  destruct e as [c1 addr input|c1 nonce n|c1 n|c1|c1| |]; cbn [listener_step] in Es.
  - destruct (closed s); [done|]. destruct (gors s !! c1) eqn:Eg; [done|]. simplify_eq. assert (c1 <> c) by (intros ->; destruct Hg; congruence).
    eapply Hother; [done|reflexivity|cbn; set_solver|done].
  - destruct (gors s !! c1) as [[a i| | |]|] eqn:Eg; try done. assert (c1 <> c) by (intros ->; by apply (Ha a i)).
    destruct (bridgeAuthServer psk nonce i) as [[[]] rest]; simplify_eq; (eapply Hother; [done|reflexivity|cbn; set_solver|done]).
  - destruct (gors s !! c1) as [[|a r| |]|] eqn:Eg; try done. destruct (decide (c1 = c)) as [->|Hne].
    + rewrite bool_decide_false in Es by done. destruct (read_next false n r) as [[f r']|] eqn:Er; simplify_eq; [|apply Hgone].
      cbn [gors opened]. rewrite lookup_insert_eq. split_and!; [done|by eexists|done|]. exists []. rewrite app_nil_r. split; [done|].
      rewrite Eg. cbn [in_hand app]. by rewrite (read_next_shut_buf _ _ _ _ Er).
    + destruct (read_next _ n r) as [[f r']|]; simplify_eq; (eapply Hother; [done|reflexivity|cbn; set_solver|done]).
  - destruct (gors s !! c1) as [[| |a f r|]|] eqn:Eg; try done. simplify_eq. destruct (decide (c1 = c)) as [->|Hne].
    + cbn [gors opened]. rewrite lookup_insert_eq. split_and!; [done|by eexists|done|]. exists [mkInbound a f]. rewrite Eg. split; [|done].
      erewrite listener_frames_of_app by done. by rewrite Nat.eqb_refl.
    + eapply Hother; [done|reflexivity|done|]. erewrite listener_frames_of_app by done. by rewrite (proj2 (Nat.eqb_neq _ _)), app_nil_r.
  - destruct (gors s !! c1) as [[| |a f r|]|] eqn:Eg; try done. destruct (closed s); simplify_eq. destruct (decide (c1 = c)) as [->|Hne]; [apply Hgone|].
    eapply Hother; [done|reflexivity|cbn; set_solver|done].
  - simplify_eq. cbn [gors opened]. split_and!; [done..|]. exists []. by rewrite app_nil_r.
  - destruct (_ && _); simplify_eq. cbn [gors opened]. split_and!; [set_solver|done|done|]. exists []. by rewrite app_nil_r.
Qed.

Lemma detached_run es s s' c : detached s c -> listener_run psk s es = Some s' ->
  (c ∉ opened s') /\ exists k, listener_frames s' c = listener_frames s c ++ k /\ k ++ at_hand s' c `prefix_of` at_hand s c.
Proof using Type.
  revert s. induction es as [|e es IH]; intros s H; cbn [listener_run]; [intros [= <-]; split; [apply H|]; exists []; by rewrite app_nil_r|].
  destruct (listener_step psk s e) as [s1|] eqn:Es; [|done]. destruct (detached_step s e s1 c H Es) as (H1 & k1 & Hf1 & Hk1).
  intros Hr. destruct (IH s1 H1 Hr) as (H2 & k2 & Hf2 & Hk2). split; [done|]. exists (k1 ++ k2). rewrite Hf2, Hf1, <- !app_assoc. split; [done|].
  etrans; [|exact Hk1]. by apply prefix_app.
Qed.

(** C18: A bridge listener serves each connection as if it were alone, and only if it is
    admitted: under any interleaving of accepting, authenticating, reading, delivering
    and the two parts of closing, the frames taken from a connection are, in order, the
    first of those that follow a handshake the server accepted - all of them once it has
    ended with the listener still open - under the connection's own address; every peer
    in the table is such a connection; and once [Close] has closed the connections of the
    table, such a connection delivers only a first part of what its goroutine has in hand
    by then: the frame it holds at its [select] and the complete frames in its buffer. *)
Theorem listener_serves es s :
  listener_run psk listener_init es = Some s ->
  (forall c ph, gors s !! c = Some ph -> exists addr input, Accept c addr input ∈ es /\ served psk s c addr input ph) /\
  (forall addr c, conns s !! addr = Some c -> exists input nonce rest, Accept c addr input ∈ es /\ admitted psk nonce input rest /\
    listener_frames s c `prefix_of` map (mkInbound addr) (readConn rest)) /\
  (forall addr c es' s1 s', conns s !! addr = Some c -> listener_step psk s Shut = Some s1 -> listener_run psk s1 es' = Some s' ->
    (c ∉ opened s') /\ exists k, listener_frames s' c = listener_frames s c ++ k /\ k `prefix_of` at_hand s c).
Proof using Type.
  intros Hr. pose proof (listener_run_inv [] es listener_init s listener_inv_init Hr) as I. split_and!.
  - apply (inv_gors psk es s I).
  - intros addr c Hc. apply (inv_conns psk es s I) in Hc as (ph & Hc & Hph). apply (inv_gors psk es s I) in Hc as (a & i & Hin & Hs).
    destruct ph as [|a' r|a' f r|]; cbn in Hph; try done; subst a'; destruct Hs as (<- & _ & nonce & rest0 & Had & Hfr);
      exists i, nonce, rest0; (split_and!; [done|done|]); rewrite Hfr; by apply prefix_app_r.
  - intros addr c es' s1 s' Hc Hst Hrun. destruct (inv_conns psk es s I addr c Hc) as (ph & Hg & Hph). cbn [listener_step] in Hst.
    destruct (closed s && negb (shut s)); [|done]. injection Hst as <-. apply (detached_run es' _ s' c) in Hrun as (H1 & k & H2 & H3).
    + split; [done|]. exists k. split; [done|]. etrans; [by apply prefix_app_r|exact H3].
    + split_and!; cbn [opened gors].
      * rewrite elem_of_difference, elem_of_list_to_set, not_and_l. right. intros Hn. apply Hn. apply list_elem_of_fmap. exists (addr, c). split; [done|]. by apply elem_of_map_to_list.
      * by exists ph.
      * rewrite Hg. intros a i [= ->]. by destruct Hph.
Qed.
End Proofs.

Definition listener_sample_input : bytes :=
  let sn := repeat x02 32 in let cn := repeat x03 32 in
  writes [cn; bridgeProof (C := toy_ops) [x07] bridgeLabelClient sn cn] ++ writes [[x05]; [x06]].
Definition listener_sample_events : list listener_event :=
  [Accept 0 "good:1" listener_sample_input; Accept 1 "bad:1" (writes [repeat x03 32; [x01]; [x05]]); Authenticate 1 (repeat x02 32) 0; Authenticate 0 (repeat x02 32) 3; Read 0 9; Put 0].
Definition listener_sample_state : listener := default listener_init (listener_run (C := toy_ops) [x07] listener_init listener_sample_events).

(** The rest of the connection is in the buffer: after [Close] its frame can still come. *)
Definition listener_shut_state : listener := default listener_init (listener_run (C := toy_ops) [x07] listener_sample_state [Close; Shut]).
Definition listener_after_state : listener := default listener_init (listener_run (C := toy_ops) [x07] listener_shut_state [Read 0 0; Put 0; Read 0 0]).

Lemma listener_serves_witness :
  listener_sample_state.(conns) !! "good:1"%string = Some 0%nat /\ (frames listener_sample_state : list (nat * InboundFrame)) = [(0%nat, mkInbound "good:1" [x05])] /\
  (exists input nonce rest, Accept 0 "good:1" input ∈ listener_sample_events /\ admitted (C := toy_ops) [x07] nonce input rest /\
    listener_frames listener_sample_state 0 `prefix_of` map (mkInbound "good:1") (readConn rest)) /\
  (frames listener_after_state : list (nat * InboundFrame)) = [(0%nat, mkInbound "good:1" [x05]); (0%nat, mkInbound "good:1" [x06])] /\
  exists k, listener_frames listener_after_state 0 = listener_frames listener_sample_state 0 ++ k /\ k `prefix_of` [mkInbound "good:1" [x06]].
Proof.
  destruct (listener_serves (C := toy_ops) [x07] (listener_sample_events ++ [Close]) (default listener_init (listener_run (C := toy_ops) [x07] listener_sample_state [Close]))
    ltac:(vm_compute; reflexivity)) as (_ & _ & H3).
  destruct (listener_serves (C := toy_ops) [x07] listener_sample_events listener_sample_state ltac:(vm_compute; reflexivity)) as (_ & H & _).
  split; [vm_compute; reflexivity|]. split; [vm_compute; reflexivity|]. split; [apply H; vm_compute; reflexivity|]. split; [vm_compute; reflexivity|].
  destruct (H3 "good:1"%string 0%nat [Read 0 0; Put 0; Read 0 0] listener_shut_state listener_after_state) as (_ & k & Hk & Hp);
    [vm_compute; reflexivity|vm_compute; reflexivity|vm_compute; reflexivity|].
  exists k. split; [exact Hk|exact Hp].
Defined.

(** A connection still in the handshake when the listener is closed is not in the table:
    it is entered and served after [Close], and nothing closes it. *)
Example close_leaks_handshake :
  match listener_run (C := toy_ops) [x07] listener_init [Accept 0 "good:1" listener_sample_input; Close; Shut; Authenticate 0 (repeat x02 32) 0; Read 0 0; Put 0; Close] with
  | Some s => closed s = true /\ conns s !! "good:1"%string = Some 0%nat /\ bool_decide (0%nat ∈ opened s) = true /\ (frames s : list (nat * InboundFrame)) = [(0%nat, mkInbound "good:1" [x05])]
  | None => False
  end.
Proof. vm_compute. done. Qed.
End Server.

(** ** TCP: the dialling side *)

Definition reconnectMin : Z := 1000000000.
Definition reconnectMax : Z := 30 * 1000000000.

Module Client.

(** Where [run] is: [Reading] is about to read a frame, [Holding] at the [select] with the
    frame it read; [Dialing] says whether the context was cancelled when the dial
    began, in which case it fails. *)
Inductive bridge_pc : Type := Top | Reading (c : nat) (r : reader) | Holding (c : nat) (f : bytes) (r : reader) | Check | Wait | Dialing (cancelled : bool) | Auth (c : nat) (input : bytes) | Exited.

Record bridge : Type := mkState {
  conn : option (nat * reader);      (** the connection and its reader as the handshake left it *)
  opened : gset nat;
  closed : bool;                     (** [done] is closed and the context cancelled *)
  shut : bool;                       (** [Close] has been through its locked part *)
  at_ : bridge_pc;
  backoff : Z;
  frames : list (nat * bytes);       (** put in the channel, with their connection *)
  waits : list Z                     (** the backoffs slept since a connection was last up *)
}.

Inductive bridge_event : Type :=
  | Go                                    (** from [Top] or [Check] *)
  | Read (n : nat)                        (** [readConn] reads a frame; [n]: bytes buffered beyond it *)
  | Put                                   (** its [select] puts the frame in the channel *)
  | Quit                                  (** its [select] takes [done] *)
  | Sleep (stop : bool)
  | Dial (r : option (nat * bytes))       (** the connection made, if any *)
  | Handshake (nonce : bytes) (n : nat)
  | Close                                 (** closes [done], cancels the context *)
  | Shut.                                 (** the locked part of [Close] *)

Definition at_pc (s : bridge) (p : bridge_pc) : bridge := mkState (conn s) (opened s) (closed s) (shut s) p (backoff s) (frames s) (waits s).
Definition backoff_next (b : Z) : Z := let b := b * 2 in if reconnectMax <? b then reconnectMax else b.

Section Step.
Context `{C : CryptoOps} (psk : bytes).

(** The synchronous first dial and handshake. *)
Definition NewTCPClientInterfaceAuth (dialled : option (nat * bytes)) (nonce : bytes) (n : nat) : result iface_err bridge :=
  match dialled with
  | None => Err ENotConnected
  | Some (c, input) =>
      match bridgeAuthClient psk nonce input with
      | (Err _, _, _) => Err ENotConnected
      | (Ok _, _, rest) => Ok (mkState (Some (c, buffered n rest)) {[c]} false false Top reconnectMin [] [])
      end
  end.

(** [Send]: the connection the frame is written to. *)
Definition client_Send (s : bridge) : result iface_err nat :=
  if closed s then Err EClosed else match conn s with None => Err ENotConnected | Some (c, _) => Ok c end.

(** The return of [readConn]. *)
Definition bridge_dropped (s : bridge) : bridge := mkState (conn s) (opened s) (closed s) (shut s) Check reconnectMin (frames s) [].

Definition bridge_step (s : bridge) (e : bridge_event) : option bridge :=
  match e, at_ s with
  | Go, Top => Some (at_pc s (match conn s with Some (c, r) => Reading c r | None => Check end))
  | Read n, Reading c r =>
      match read_next (bool_decide (c ∈ opened s)) n r with
      | None => Some (bridge_dropped s)
      | Some (f, r) => Some (at_pc s (Holding c f r))
      end
  | Put, Holding c f r => Some (mkState (conn s) (opened s) (closed s) (shut s) (Reading c r) (backoff s) (frames s ++ [(c, f)]) (waits s))
  | Quit, Holding _ _ _ => if closed s then Some (bridge_dropped s) else None
  | Go, Check =>
      if closed s then Some (at_pc s Exited) else Some (mkState None (opened s) (closed s) (shut s) Wait (backoff s) (frames s) (waits s))
  | Sleep stop, Wait =>
      if stop then (if closed s then Some (at_pc s Exited) else None)
      else Some (mkState (conn s) (opened s) (closed s) (shut s) (Dialing (closed s)) (backoff_next (backoff s)) (frames s) (waits s ++ [backoff s]))
  | Dial None, Dialing _ => Some (at_pc s Top)
  | Dial (Some (c, input)), Dialing false =>
      if bool_decide (c ∈ opened s) || existsb (fun p => Nat.eqb p.1 c) (frames s) then None
      else Some (mkState (conn s) (opened s ∪ {[c]}) (closed s) (shut s) (Auth c input) (backoff s) (frames s) (waits s))
  | Handshake nonce n, Auth c input =>
      match bridgeAuthClient psk nonce input with
      | (Err _, _, _) => Some (mkState (conn s) (opened s ∖ {[c]}) (closed s) (shut s) Top (backoff s) (frames s) (waits s))
      | (Ok _, _, rest) => Some (mkState (Some (c, buffered n rest)) (opened s) (closed s) (shut s) Top (backoff s) (frames s) (waits s))
      end
  | Close, _ => Some (mkState (conn s) (opened s) true (shut s) (at_ s) (backoff s) (frames s) (waits s))
  | Shut, _ =>
      if closed s && negb (shut s)
      then Some (mkState (conn s) (match conn s with Some (c, _) => opened s ∖ {[c]} | None => opened s end) true true (at_ s) (backoff s) (frames s) (waits s))
      else None
  | _, _ => None
  end.

Fixpoint bridge_run (s : bridge) (es : list bridge_event) : option bridge :=
  match es with
  | [] => Some s
  | e :: es => match bridge_step s e with None => None | Some s => bridge_run s es end
  end.
End Step.

Definition bridge_frames (s : bridge) (c : nat) : list bytes := map snd (List.filter (fun p => Nat.eqb p.1 c) (frames s)).

(** The [k]th wait of an outage. *)
Definition schedule (k : nat) : Z := Z.min (reconnectMin * 2 ^ Z.of_nat k) reconnectMax.

Lemma backoff_schedule k : backoff_next (schedule k) = schedule (S k).
Proof.
  unfold backoff_next, schedule, reconnectMin, reconnectMax. rewrite Nat2Z.inj_succ, Z.pow_succ_r by lia. assert (0 < 2 ^ Z.of_nat k) by (apply Z.pow_pos_nonneg; lia).
  destruct (Z.ltb_spec (30 * 1000000000) (Z.min (1000000000 * 2 ^ Z.of_nat k) (30 * 1000000000) * 2)); lia.
Qed.

(** The frames of a connection so far and what is left of it are what follows a
    handshake the client accepted. *)
Definition bridge_reads `{C : CryptoOps} (psk : bytes) (s : bridge) (c : nat) (left : list bytes) : Prop :=
  exists nonce input rest0, (bridgeAuthClient psk nonce input).1.1 = Ok tt /\ (bridgeAuthClient psk nonce input).2 = rest0 /\ readConn rest0 = bridge_frames s c ++ left.

(** In [readConn], and what it can still deliver. *)
Definition reads_from (c : nat) (p : bridge_pc) : Prop := match p with Reading c' _ | Holding c' _ _ => c' = c | _ => False end.
Definition to_come (p : bridge_pc) : list bytes := match p with Reading _ r => readConn (rd_all r) | Holding _ f r => f :: readConn (rd_all r) | _ => [] end.

Record bridge_inv `{C : CryptoOps} (psk : bytes) (s : bridge) : Prop := {
  inv_waits : waits s = map schedule (seq 0 (length (waits s)));
  inv_backoff : backoff s = schedule (length (waits s));
  inv_top : at_ s = Top -> forall c r, conn s = Some (c, r) -> bridge_reads psk s c (readConn (rd_all r));
  inv_reading : forall c, reads_from c (at_ s) -> (exists r0, conn s = Some (c, r0)) /\ bridge_reads psk s c (to_come (at_ s));
  inv_auth : forall c input, at_ s = Auth c input -> bridge_frames s c = [];
  inv_down : match at_ s with Wait | Dialing _ | Auth _ _ => conn s = None | _ => True end;
  inv_frames : forall p, p ∈ frames s -> exists left, bridge_reads psk s p.1 left
}.

Section Proofs.
Context `{C : CryptoOps} (psk : bytes).

Lemma bridge_frames_of_app s s' c c' f : frames s' = frames s ++ [(c', f)] -> bridge_frames s' c = bridge_frames s c ++ (if Nat.eqb c' c then [f] else []).
Proof using Type. intros H. unfold bridge_frames. rewrite H, List.filter_app, map_app. f_equal. cbn. by destruct (Nat.eqb c' c). Qed.

Lemma reads_same s s' c left : frames s' = frames s -> bridge_reads psk s c left -> bridge_reads psk s' c left.
Proof using Type. unfold bridge_reads, bridge_frames. by intros ->. Qed.

Lemma reads_put s s' c f left :
  frames s' = frames s ++ [(c, f)] -> bridge_reads psk s c (f :: left) -> bridge_reads psk s' c left.
Proof using Type.
  intros Hf (n & i & r0 & H1 & H2 & H3). exists n, i, r0. split_and!; [done..|]. erewrite bridge_frames_of_app by done.
  rewrite Nat.eqb_refl, H3. by rewrite <- app_assoc.
Qed.

(** A step that neither delivers nor sleeps. *)
Lemma bridge_inv_still s s' :
  bridge_inv psk s -> frames s' = frames s -> (waits s' = waits s /\ backoff s' = backoff s \/ waits s' = [] /\ backoff s' = reconnectMin) ->
  (at_ s' = Top -> forall c r, conn s' = Some (c, r) -> bridge_reads psk s c (readConn (rd_all r))) ->
  (forall c, reads_from c (at_ s') -> (exists r0, conn s' = Some (c, r0)) /\ bridge_reads psk s c (to_come (at_ s'))) ->
  (forall c input, at_ s' = Auth c input -> bridge_frames s c = []) ->
  match at_ s' with Wait | Dialing _ | Auth _ _ => conn s' = None | _ => True end -> bridge_inv psk s'.
Proof using Type.
  intros [I1 I2 I3 I4 I5 I6 I7] Hf Hw H3 H4 H5 H6. split; try done.
  - destruct Hw as [[-> _]|[-> _]]; done.
  - destruct Hw as [[-> ->]|[-> ->]]; done.
  - intros Ht c r Hc. eapply reads_same; [done|]. by apply H3.
  - intros c Hc. destruct (H4 c Hc) as [? ?]. split; [done|]. by eapply reads_same.
  - intros c input Hc. unfold bridge_frames. rewrite Hf. by apply (H5 c input).
  - intros p. rewrite Hf. intros [left Hp]%I7. exists left. by eapply reads_same.
Qed.

Lemma bridge_inv_dropped s : bridge_inv psk s -> bridge_inv psk (bridge_dropped s).
Proof using Type. intros I. apply (bridge_inv_still s); cbn; auto; done. Qed.

Lemma bridge_inv_made dialled nonce n s : NewTCPClientInterfaceAuth psk dialled nonce n = Ok s -> bridge_inv psk s.
Proof using Type.
  unfold NewTCPClientInterfaceAuth. destruct dialled as [[c input]|]; [|done]. destruct (bridgeAuthClient psk nonce input) as [[[u|e] w] rest] eqn:E; [|done].
  intros [= <-]. split; cbn; try done; [|by intros p ?%not_elem_of_nil]. intros _ c0 r0 [= <- <-]. exists nonce, input, rest. rewrite rd_all_buffered, E. by destruct u.
Qed.

Lemma bridge_inv_step s e s' : bridge_inv psk s -> bridge_step psk s e = Some s' -> bridge_inv psk s'.
Proof using Type.
  intros I. pose proof I as [I1 I2 I3 I4 I5 I6 I7]. unfold bridge_step. destruct e as [|n| | |stop|r|nonce n| |].
  - destruct (at_ s) eqn:Ea; try done.
    + intros [= <-]. apply (bridge_inv_still s); cbn; auto; destruct (conn s) as [[c r]|] eqn:Ec; try done. intros c' Hc. cbn in Hc. subst c'. split; [by exists r|]. by apply I3.
    + destruct (closed s); intros [= <-]; apply (bridge_inv_still s); cbn; auto; done.
  - destruct (at_ s) as [|c r| | | | | |] eqn:Ea; try done. destruct (I4 c eq_refl) as [[r0 Hc] Hr].
    destruct (read_next _ n r) as [[f r']|] eqn:Er; intros [= <-]; [|by apply bridge_inv_dropped]. apply (bridge_inv_still s); cbn; auto; [done|..|done].
    intros c' <-. split; [by exists r0|]. by rewrite <- (readConn_step _ _ _ (read_next_some _ _ _ _ _ Er)).
  - destruct (at_ s) as [| |c f r| | | | |] eqn:Ea; try done. intros [= <-]. destruct (I4 c eq_refl) as [[r0 Hc] Hr]. cbn [to_come] in Hr.
    split; cbn; try done.
    + intros c' <-. split; [by exists r0|]. by apply (reads_put s _ c f).
    + intros p [Hp|Hp]%elem_of_app.
      * destruct (decide (p.1 = c)) as [->|Hn]; [eexists; by apply (reads_put s _ c f)|].
        destruct (I7 p Hp) as (left & n & i & r1 & H1 & H2 & H3). exists left, n, i, r1. split_and!; [done..|]. erewrite bridge_frames_of_app by done.
        rewrite (proj2 (Nat.eqb_neq _ _)), app_nil_r by done. done.
      * apply list_elem_of_singleton in Hp. subst p. eexists. by apply (reads_put s _ c f).
  - destruct (at_ s); try done. destruct (closed s); [|done]. intros [= <-]. by apply bridge_inv_dropped.
  - destruct (at_ s) eqn:Ea; try done. destruct stop; [destruct (closed s); [|done]; intros [= <-]; apply (bridge_inv_still s); cbn; auto; done|]. intros [= <-].
    split; cbn; try done.
    + rewrite length_app, Nat.add_1_r, seq_S, map_app, <- I1, I2. done.
    + by rewrite length_app, Nat.add_1_r, I2, backoff_schedule.
  - destruct r as [[c input]|], (at_ s) eqn:Ea; try done.
    + destruct cancelled; [done|]. destruct (bool_decide _ || _) eqn:Ef; [done|]. intros [= <-]. apply orb_false_iff in Ef as [_ Ef].
      apply (bridge_inv_still s); cbn; auto; try done. intros c' i' [= <- <-]. unfold bridge_frames. clear -Ef. induction (frames s) as [|p l IH]; [done|].
      cbn [existsb List.filter] in *. apply orb_false_iff in Ef as [-> Ef]. by apply IH.
    + intros [= <-]. apply (bridge_inv_still s); cbn; auto; try done. intros _ c r Hc. congruence.
  - destruct (at_ s) as [| | | | | |c input|] eqn:Ea; try done. destruct (bridgeAuthClient psk nonce input) as [[[u|e] w] rest] eqn:E; intros [= <-]; apply (bridge_inv_still s); cbn; auto; try done.
    + intros _ c' r' [= <- <-]. exists nonce, input, rest. rewrite rd_all_buffered, E, (I5 c input eq_refl). by destruct u.
    + intros _ c' r' Hc. congruence.
  - assert (Hs : forall s', frames s' = frames s -> waits s' = waits s -> backoff s' = backoff s -> conn s' = conn s -> at_ s' = at_ s -> bridge_inv psk s').
    { intros s1 H1 H2 H3 H4 H5. apply (bridge_inv_still s); [done|done|by left|rewrite H5, H4; apply I3|intros c; rewrite H5, H4; apply I4|intros c i; rewrite H5; apply I5|by rewrite H5, H4]. }
    destruct (at_ s) eqn:Ea; intros [= <-]; apply Hs; done.
  - assert (Hs : forall s', frames s' = frames s -> waits s' = waits s -> backoff s' = backoff s -> conn s' = conn s -> at_ s' = at_ s -> bridge_inv psk s').
    { intros s1 H1 H2 H3 H4 H5. apply (bridge_inv_still s); [done|done|by left|rewrite H5, H4; apply I3|intros c; rewrite H5, H4; apply I4|intros c i; rewrite H5; apply I5|by rewrite H5, H4]. }
    destruct (closed s && negb (shut s)), (at_ s) eqn:Ea; intros [= <-]; apply Hs; done.
Qed.

Lemma bridge_run_inv es s s' : bridge_inv psk s -> bridge_run psk s es = Some s' -> bridge_inv psk s'.
Proof using Type.
  revert s. induction es as [|e es IH]; intros s I; cbn [bridge_run]; [by intros [= <-]|]. destruct (bridge_step psk s e) as [s1|] eqn:E; [|done]. apply IH. by eapply bridge_inv_step.
Qed.

(** A bridge keeps to its key and its schedule: whatever connections the dials
    make, whatever arrives on them and whenever [Close] comes, every frame delivered
    comes, in order, from a connection whose server completed the handshake with the
    bridge's key - at the start and after every reconnection - and the waits of an
    outage are 1s, 2s, 4s, ... up to thirty seconds, from the start for each outage. *)
Theorem bridge_reconnects dialled nonce n s0 es s :
  NewTCPClientInterfaceAuth psk dialled nonce n = Ok s0 -> bridge_run psk s0 es = Some s ->
  (forall p, p ∈ frames s -> exists nonce input rest left, (bridgeAuthClient psk nonce input).1.1 = Ok tt /\ (bridgeAuthClient psk nonce input).2 = rest /\
    readConn rest = bridge_frames s p.1 ++ left) /\
  waits s = map schedule (seq 0 (length (waits s))) /\ (forall w, w ∈ waits s -> reconnectMin <= w <= reconnectMax).
Proof using Type.
  intros H0 Hr. apply bridge_inv_made in H0. apply (bridge_run_inv es) in Hr as [I1 I2 I3 I4 I5 I6 I7]; [|done]. split_and!; [|done|].
  - intros p Hp. destruct (I7 p Hp) as (left & m & i & r & H). by exists m, i, r, left.
  - intros w Hw. rewrite I1 in Hw. apply list_elem_of_fmap in Hw as (k & -> & _). unfold schedule, reconnectMin, reconnectMax.
    assert (0 < 2 ^ Z.of_nat k) by (apply Z.pow_pos_nonneg; lia). lia.
Qed.

(** An attempt that fails: the dial, or the handshake on the connection it made. *)
Definition failed_attempt (a : option (nat * bytes * bytes)) : list bridge_event :=
  match a with
  | None => [Sleep false; Dial None; Go; Go]
  | Some (c, input, nonce) => [Sleep false; Dial (Some (c, input)); Handshake nonce 0; Go; Go]
  end.
Definition unused (s : bridge) (c : nat) : Prop := (c ∉ opened s) /\ existsb (fun p => Nat.eqb p.1 c) (frames s) = false.
Definition fails (s : bridge) (a : option (nat * bytes * bytes)) : Prop :=
  match a with None => True | Some (c, input, nonce) => unused s c /\ exists e, (bridgeAuthClient psk nonce input).1.1 = Err e end.

Lemma bridge_run_app s es es' : bridge_run psk s (es ++ es') = match bridge_run psk s es with Some s1 => bridge_run psk s1 es' | None => None end.
Proof using Type. revert s. induction es as [|e es IH]; intros s; cbn [bridge_run app]; [done|]. destruct (bridge_step psk s e); [apply IH|done]. Qed.

(** The state of an outage after [k] attempts. *)
Definition down (s0 s : bridge) (k : nat) : Prop :=
  at_ s = Wait /\ closed s = false /\ conn s = None /\ opened s = opened s0 /\ frames s = frames s0 /\ backoff s = schedule k /\ waits s = map schedule (seq 0 k).

Lemma down_wait s0 s k : down s0 s k -> exists s1, bridge_step psk s (Sleep false) = Some s1 /\ at_ s1 = Dialing false /\ closed s1 = false /\ conn s1 = None /\
  opened s1 = opened s0 /\ frames s1 = frames s0 /\ backoff s1 = schedule (S k) /\ waits s1 = map schedule (seq 0 (S k)).
Proof using Type.
  intros (Ha & Hcl & Hc & Ho & Hf & Hb & Hw). unfold bridge_step. rewrite Ha, seq_S, map_app. eexists. split; [reflexivity|]. cbn [at_ closed conn opened frames backoff waits].
  rewrite Hcl, Hb, Hw, backoff_schedule. by split_and!.
Qed.

Lemma down_fail s0 s k a : down s0 s k -> fails s0 a -> exists s', bridge_run psk s (failed_attempt a) = Some s' /\ down s0 s' (S k).
Proof using Type.
  intros Hd Hf. destruct (down_wait s0 s k Hd) as (s1 & Hs & Ha & Hcl & Hc & Ho & Hfr & Hb & Hw).
  assert (Hend : forall s2, at_ s2 = Top -> closed s2 = false -> conn s2 = None -> opened s2 = opened s0 -> frames s2 = frames s0 -> backoff s2 = schedule (S k) ->
    waits s2 = map schedule (seq 0 (S k)) -> exists s', bridge_run psk s2 [Go; Go] = Some s' /\ down s0 s' (S k)).
  { intros s2 H1 H2 H3 H4 H5 H6 H7. cbn [bridge_run]. unfold bridge_step at 1. rewrite H1, H3. unfold bridge_step, at_pc. cbn. rewrite H2. eexists. split; [reflexivity|]. by repeat split. }
  destruct a as [[[c input] nonce]|]; cbn [failed_attempt fails] in *; change (Sleep false :: ?l) with ([Sleep false] ++ l) in *; rewrite bridge_run_app; cbn [bridge_run]; rewrite Hs; cbn [bridge_run].
  - destruct Hf as [[Hu1 Hu2] [e He]]. unfold bridge_step at 1. rewrite Ha, Ho, Hfr, Hu2, bool_decide_false by done. cbn [orb].
    unfold bridge_step at 1. cbn [at_]. destruct (bridgeAuthClient psk nonce input) as [[[u|e'] w] rest]; [done|]. apply Hend; cbn; try done. clear -Hu1. set_solver.
  - unfold bridge_step at 1. rewrite Ha. apply Hend; cbn; done.
Qed.

Lemma down_fails s0 s k l : down s0 s k -> Forall (fails s0) l -> exists s', bridge_run psk s (concat (map failed_attempt l)) = Some s' /\ down s0 s' (length l + k)%nat.
Proof using Type.
  revert s k. induction l as [|a l IH]; intros s k Hd Hl; [by exists s|]. inversion Hl as [|?? Ha Hl']; subst. cbn [map concat]. rewrite bridge_run_app.
  destruct (down_fail s0 s k a Hd Ha) as (s1 & -> & H1). destruct (IH s1 (S k) H1 Hl') as (s2 & H2 & H3). exists s2. split; [done|]. cbn [length]. by rewrite Nat.add_succ_comm.
Qed.

(** C19: A bridge heals: when its connection ends and the interface is not closed, then
    however many attempts fail first - at the dial or at the handshake - the first that
    succeeds puts it back to reading frames, after exactly the scheduled waits. *)
Theorem bridge_heals s c r l c' input nonce n n' rest' :
  at_ s = Reading c r -> closed s = false -> readFrame (rd_all r) = None -> Forall (fails s) l -> unused s c' ->
  (bridgeAuthClient psk nonce input).1.1 = Ok tt -> (bridgeAuthClient psk nonce input).2 = rest' ->
  exists s' r', bridge_run psk s ([Read n; Go] ++ concat (map failed_attempt l) ++ [Sleep false; Dial (Some (c', input)); Handshake nonce n'; Go]) = Some s' /\
    at_ s' = Reading c' r' /\ rd_all r' = rest' /\ conn s' = Some (c', r') /\ c' ∈ opened s' /\ frames s' = frames s /\ waits s' = map schedule (seq 0 (S (length l))).
Proof using Type.
  intros Ha Hcl Hr Hl [Hu1 Hu2] Hok Hrest. rewrite bridge_run_app. cbn [bridge_run]. unfold bridge_step at 1. rewrite Ha, (read_next_ended _ _ _ Hr).
  unfold bridge_step at 1. cbn [bridge_dropped at_ closed]. rewrite Hcl. set (s1 := mkState _ _ _ _ _ _ _ _).
  assert (H1 : down s s1 0) by (by repeat split). destruct (down_fails s s1 0 l H1 Hl) as (s2 & H2 & H3). rewrite bridge_run_app, H2. rewrite Nat.add_0_r in H3.
  destruct (down_wait s s2 _ H3) as (s3 & Hs & Ha3 & Hcl3 & Hc3 & Ho3 & Hf3 & Hb3 & Hw3). cbn [bridge_run]. rewrite Hs.
  unfold bridge_step at 1. rewrite Ha3, Ho3, Hf3, Hu2, bool_decide_false by done. cbn [orb]. unfold bridge_step at 1. cbn [at_].
  destruct (bridgeAuthClient psk nonce input) as [[[u|e'] w] r0]; [|done]. cbn in Hrest. subst r0. unfold bridge_step at 1. cbn. eexists _, _. split; [reflexivity|]. cbn [at_pc at_ conn opened frames waits].
  split_and!; try done; [apply rd_all_buffered|set_solver].
Qed.

(** The frames [run] can still deliver without its socket. *)
Definition hand (s : bridge) : list bytes :=
  match at_ s with
  | Top => match conn s with Some (_, r) => readConn (rd_buf r) | None => [] end
  | Reading _ r => readConn (rd_buf r)
  | Holding _ f r => f :: readConn (rd_buf r)
  | _ => []
  end.

(** After [Close] the loop has nothing left to wait for. *)
Definition closing (s : bridge) : Prop :=
  closed s = true /\ shut s = true /\ (forall c r, conn s = Some (c, r) -> c ∉ opened s) /\ (forall c, reads_from c (at_ s) -> c ∉ opened s) /\
  match at_ s with Dialing false | Auth _ _ => False | Wait | Dialing true => conn s = None | _ => True end.
Definition steps_left (s : bridge) : nat :=
  match at_ s with
  | Exited => 0 | Check => 1
  | Reading _ _ => 2 + 2 * length (hand s) | Holding _ _ _ => 1 + 2 * length (hand s) | Top => 3 + 2 * length (hand s)
  | Dialing _ => 4 | Wait => 5 | Auth _ _ => 6
  end.

Lemma closing_step s e s' : closing s -> e <> Close -> bridge_step psk s e = Some s' ->
  closing s' /\ (steps_left s' < steps_left s)%nat /\ exists k, frames s' = frames s ++ k /\ map snd k ++ hand s' `prefix_of` hand s.
Proof using Type.
  intros (Hcl & Hsh & Hc & Hr & Hp) He. unfold bridge_step, closing, steps_left, hand.
  assert (Hnil : forall l l' : list bytes, l `prefix_of` l' -> exists k, frames s = frames s ++ k /\ map snd k ++ l `prefix_of` l') by (intros; exists []; by rewrite app_nil_r).
  destruct e as [|n| | |stop|r|nonce n| |]; [..|done|].
  - destruct (at_ s) eqn:Ea; try done.
    + intros [= <-]. cbn. destruct (conn s) as [[c r]|] eqn:Ec; cbn.
      * assert (Ho : c ∉ opened s) by (by apply (Hc c r)). split_and!; try done; try lia; [intros c' <-; exact Ho|by apply Hnil].
      * split_and!; try done; try lia. by apply Hnil.
    + rewrite Hcl. intros [= <-]. cbn. split_and!; try done || lia. by apply Hnil.
  - destruct (at_ s) as [|c r| | | | | |] eqn:Ea; try done. rewrite bool_decide_false by (by apply (Hr c)).
    destruct (read_next false n r) as [[f r']|] eqn:Er; intros [= <-]; cbn.
    + rewrite (read_next_shut_buf _ _ _ _ Er). cbn [length]. split_and!; try done || lia. by apply Hnil.
    + split_and!; try done || lia. apply Hnil, prefix_nil.
  - destruct (at_ s) as [| |c f r| | | | |] eqn:Ea; try done. intros [= <-]. cbn. split_and!; try done || lia. by exists [(c, f)].
  - destruct (at_ s) as [| |c f r| | | | |] eqn:Ea; try done. rewrite Hcl. intros [= <-]. cbn. split_and!; try done || lia. apply Hnil, prefix_nil.
  - destruct (at_ s) eqn:Ea; try done. rewrite Hcl. destruct stop; intros [= <-]; cbn; (split_and!; try done || lia); by apply Hnil.
  - destruct r as [[c input]|], (at_ s) as [| | | | |[]| |] eqn:Ea; try done. intros [= <-]. cbn. rewrite Hp. cbn. split_and!; try done || lia. by apply Hnil.
  - by destruct (at_ s).
  - rewrite Hcl, Hsh. by destruct (at_ s).
Qed.

Lemma closing_enabled s : closing s -> at_ s <> Exited -> exists e s', e <> Close /\ bridge_step psk s e = Some s'.
Proof using Type.
  intros (Hcl & Hsh & Hc & Hr & Hp) He. unfold bridge_step. destruct (at_ s) as [|c r|c f r| | |[]| |] eqn:Ea; try done.
  - by exists Go; eexists.
  - exists (Read 0). destruct (read_next _ 0 r) as [[f r']|]; by eexists.
  - exists Quit. rewrite Hcl. by eexists.
  - exists Go. rewrite Hcl. by eexists.
  - exists (Sleep true). rewrite Hcl. by eexists.
  - by exists (Dial None); eexists.
Qed.

(** C20: [Close] returns, whatever the peer does, unless it comes while a new connection is
    being made: once it has closed the connection the loop was anywhere else, the loop
    delivers at most, in order, the frames it has in hand by then - the one it holds at
    its [select] and the complete ones in its buffer -, takes at most five steps of its
    own and two for each of these, and can always take one until it has exited. *)
Theorem bridge_close dialled nonce n s0 es s s1 es' s' :
  NewTCPClientInterfaceAuth psk dialled nonce n = Ok s0 -> bridge_run psk s0 es = Some s ->
  match at_ s with Dialing false | Auth _ _ => False | _ => True end -> bridge_step psk s Shut = Some s1 ->
  Close ∉ es' -> bridge_run psk s1 es' = Some s' ->
  (length es' <= 5 + 2 * length (hand s))%nat /\
  (exists k, frames s' = frames s ++ k /\ map snd k `prefix_of` hand s) /\
  (at_ s' <> Exited -> exists e s2, bridge_step psk s' e = Some s2 /\ (steps_left s2 < steps_left s')%nat).
Proof using Type.
  intros H0 Hr Hpc Hst Hes Hrun. apply bridge_inv_made in H0. apply (bridge_run_inv es) in Hr as I; [|done].
  assert (Hs1 : closing s1 /\ at_ s1 = at_ s /\ conn s1 = conn s /\ frames s1 = frames s).
  { unfold bridge_step in Hst. assert (Hs : s1 = mkState (conn s) (match conn s with Some (c, _) => opened s ∖ {[c]} | None => opened s end) true true (at_ s) (backoff s) (frames s) (waits s))
      by (destruct (closed s && negb (shut s)), (at_ s); congruence). subst s1. unfold closing. split_and!; try done; cbn.
    - intros c r ->. set_solver.
    - intros c Ha. destruct (inv_reading psk s I c Ha) as [[r ->] _]. set_solver.
    - pose proof (inv_down psk s I) as Hd. by destruct (at_ s) as [| | | | |[]| |]. }
  destruct Hs1 as (Hc1 & Ha1 & Hco1 & Hf1). assert (Hh : hand s1 = hand s) by (unfold hand; by rewrite Ha1, Hco1). rewrite <- Hf1, <- Hh. clear Hf1 Hst Hr.
  assert (H : closing s' /\ (length es' + steps_left s' <= steps_left s1)%nat /\ exists k, frames s' = frames s1 ++ k /\ map snd k ++ hand s' `prefix_of` hand s1).
  { clear Ha1 Hpc Hh Hco1. revert s1 Hc1 Hrun. induction es' as [|e es' IH]; intros s1 Hc1; cbn [bridge_run].
    - intros [= ->]. split_and!; [done|cbn; lia|]. exists []. by rewrite app_nil_r.
    - destruct (bridge_step psk s1 e) as [s2|] eqn:Es; [|done]. apply not_elem_of_cons in Hes as [He Hes].
      destruct (closing_step s1 e s2 Hc1 ltac:(done) Es) as (Hc2 & Hlt & k2 & Hf2 & Hk2). intros Hrun.
      destruct (IH Hes s2 Hc2 Hrun) as (H1 & H2 & k3 & H3 & H4). split_and!; [done|cbn [length]; lia|].
      exists (k2 ++ k3). rewrite H3, Hf2, map_app, <- !app_assoc. split; [done|]. etrans; [|exact Hk2]. by apply prefix_app. }
  destruct H as (Hc' & Hlen & k & Hk & Hp). split_and!.
  - destruct Hc1 as (_ & _ & _ & _ & Hp1). unfold steps_left in Hlen. destruct (at_ s1) as [| | | | |[]| |]; try done; lia.
  - exists k. split; [done|]. etrans; [by apply prefix_app_r|exact Hp].
  - intros Hne. destruct (closing_enabled s' Hc' Hne) as (e & s2 & He & Hs2). exists e, s2. split; [done|]. by apply (closing_step s' e s2).
Qed.
End Proofs.

(** A server's side of the handshake for the client nonce [cn], then some frames. *)
Definition server_bytes (sn cn : bytes) (fs : list bytes) : bytes := writes ([sn; bridgeProof (C := toy_ops) [x07] bridgeLabelServer sn cn] ++ fs).
Definition sn0 : bytes := repeat x02 32.
Definition cn0 : bytes := repeat x03 32.
(** A frame, one more in the buffer, and its end. *)
Definition made : bridge :=
  match NewTCPClientInterfaceAuth (C := toy_ops) [x07] (Some (0%nat, server_bytes sn0 cn0 [[x05]])) cn0 2 with Ok s => s | Err _ => mkState None ∅ false false Exited 0 [] [] end.
(** The first frame, the end of the connection, an impostor, then the server again. *)
Definition outage : list bridge_event :=
  [Go; Read 0; Put; Read 0; Go; Sleep false; Dial (Some (1%nat, writes [sn0; [x01]; [x09]])); Handshake cn0 0; Go; Go;
   Sleep false; Dial (Some (2%nat, server_bytes sn0 cn0 [[x06]])); Handshake cn0 0; Go; Read 0; Put].
Definition bridge_after_events (es : list bridge_event) : bridge := default made (bridge_run (C := toy_ops) [x07] made es).

Lemma bridge_reconnects_witness :
  frames (bridge_after_events outage) = [(0%nat, [x05]); (2%nat, [x06])] /\ waits (bridge_after_events outage) = [1000000000; 2000000000] /\
  forall w, w ∈ waits (bridge_after_events outage) -> reconnectMin <= w <= reconnectMax.
Proof.
  destruct (bridge_reconnects (C := toy_ops) [x07] (Some (0%nat, server_bytes sn0 cn0 [[x05]])) cn0 2 made outage (bridge_after_events outage)
    ltac:(vm_compute; reflexivity) ltac:(vm_compute; reflexivity)) as (_ & _ & H).
  split; [vm_compute; reflexivity|]. split; [vm_compute; reflexivity|exact H].
Defined.

Lemma bridge_heals_witness :
  exists s', bridge_run (C := toy_ops) [x07] (bridge_after_events [Go; Read 0; Put])
    ([Read 0; Go] ++ concat (map failed_attempt [None; Some (1%nat, writes [sn0; [x01]; [x09]], cn0)]) ++ [Sleep false; Dial (Some (2%nat, server_bytes sn0 cn0 [[x06]])); Handshake cn0 3; Go]) = Some s' /\
    waits s' = [1000000000; 2000000000; 4000000000].
Proof.
  destruct (bridge_heals (C := toy_ops) [x07] (bridge_after_events [Go; Read 0; Put]) 0 (mkReader [] []) [None; Some (1%nat, writes [sn0; [x01]; [x09]], cn0)] 2 (server_bytes sn0 cn0 [[x06]]) cn0 0 3 (writes [[x06]]))
    as (s' & r' & Hs & _ & _ & _ & _ & _ & Hw).
  - vm_compute. reflexivity.
  - vm_compute. reflexivity.
  - reflexivity.
  - repeat constructor; [|eexists; vm_compute; reflexivity]. apply (bool_decide_eq_false _). vm_compute. reflexivity.
  - split; [apply (bool_decide_eq_false _); vm_compute; reflexivity|vm_compute; reflexivity].
  - vm_compute. reflexivity.
  - vm_compute. reflexivity.
  - exists s'. split; [exact Hs|]. rewrite Hw. vm_compute. reflexivity.
Defined.

(** [Close] comes while a frame is held and another is in the buffer: the first select
    still delivers, the second takes [done]. *)
Definition two_frames : option (nat * bytes) := Some (0%nat, server_bytes sn0 cn0 [[x05]; [x06]]).
Definition made_two : bridge := match NewTCPClientInterfaceAuth (C := toy_ops) [x07] two_frames cn0 0 with Ok s => s | Err _ => made end.
Definition before_shut : list bridge_event := [Go; Read 5; Close].
Definition after_shut : list bridge_event := [Put; Read 0; Quit; Go].
Definition run_two (es : list bridge_event) : bridge := default made (bridge_run (C := toy_ops) [x07] made_two es).

Lemma bridge_close_witness :
  let s := run_two before_shut in let s' := run_two (before_shut ++ [Shut] ++ after_shut) in
  at_ s' = Exited /\ frames s' = [(0%nat, [x05])] /\ (hand s : list bytes) = [[x05]; [x06]] /\ (length after_shut <= 5 + 2 * length (hand s))%nat /\
  exists k, frames s' = frames s ++ k /\ map snd k `prefix_of` hand s.
Proof.
  cbv zeta. destruct (bridge_close (C := toy_ops) [x07] two_frames cn0 0 made_two before_shut (run_two before_shut) (run_two (before_shut ++ [Shut])) after_shut
    (run_two (before_shut ++ [Shut] ++ after_shut))) as (Hl & Hf & _).
  - vm_compute. reflexivity.
  - vm_compute. reflexivity.
  - vm_compute. exact I.
  - vm_compute. reflexivity.
  - intros H. repeat (apply elem_of_cons in H as [H|H]; [discriminate|]). by apply not_elem_of_nil in H.
  - vm_compute. reflexivity.
  - split; [vm_compute; reflexivity|]. split; [vm_compute; reflexivity|]. split; [vm_compute; reflexivity|]. split; [exact Hl|exact Hf].
Defined.

(** [Close] during a handshake closes nothing: the handshake completes, [run] goes on to
    read the new connection, and until the peer sends or hangs up there is no step but
    that read - [Close] waits for [run], and the connection stays open. *)
Example close_hangs_in_handshake :
  let s := bridge_after_events [Go; Read 0; Put; Read 0; Go; Sleep false; Dial (Some (2%nat, server_bytes sn0 cn0 [])); Close; Shut; Handshake cn0 0; Go] in
  closed s = true /\ shut s = true /\ at_ s = Reading 2 (mkReader [] []) /\ bool_decide (2%nat ∈ opened s) = true /\
  forallb (fun e => match bridge_run (C := toy_ops) [x07] s [e] with None => true | Some _ => false end) [Go; Put; Quit; Sleep true; Dial None; Shut] = true.
Proof. vm_compute. done. Qed.

(** A frame over the cap ends the reading, but the socket is not closed: the client
    redials while the old connection stays open. *)
Example oversized_frame_leaks :
  let s := default made (bridge_run (C := toy_ops) [x07]
    (mkState (Some (0%nat, mkReader (be_bytes 4 (tcpMTU + 1)) [])) {[0%nat]} false false Top reconnectMin [] []) [Go; Read 0; Go; Sleep false]) in
  conn s = None /\ bool_decide (0%nat ∈ opened s) = true.
Proof. vm_compute. done. Qed.
End Client.

(** ** Datagrams: lemmas *)

(** A datagram goes out whole, to the address asked for or the broadcast address, or not
    at all; never over the cap and never after [Close]. *)
Lemma udp_Send_sound resolve written u addr frame dst out :
  udp_Send resolve written u addr frame = Ok (dst, out) ->
  out = frame /\ len frame <= u_sendCap u /\ u_closed u = false /\ (if String.eqb addr "" then u_broadcast u = Some dst else resolve addr = Some dst).
Proof.
  unfold udp_Send, Broadcast. destruct (Z.ltb_spec (u_sendCap u) (len frame)); [done|]. destruct (String.eqb addr ""); cbn [negb].
  - destruct (u_broadcast u) as [d|]; [|done]. destruct (u_closed u); cbn [negb andb]; [done|]. destruct (written d); [|done]. by intros [= <- <-].
  - destruct (resolve addr) as [d|]; [|done]. destruct (u_closed u); cbn [negb andb]; [done|]. destruct (written d); [|done]. by intros [= <- <-].
Qed.

Lemma NewUDP_caps resolve bind l b mtu cap u : NewUDPInterfaceSized resolve bind l b mtu cap = Ok u -> c_MTU (udp_Caps u) = mtu /\ mtu <= u_sendCap u /\ (u_sendCap u = cap \/ cap < mtu).
Proof.
  unfold NewUDPInterfaceSized. destruct (resolve l); [|done]. destruct (negb _); [done|].
  destruct (String.eqb b ""); [|destruct (resolve b); [|done]]; intros [= <-]; cbn; destruct (Z.ltb_spec cap mtu); lia.
Qed.

(** The buffer is shared by all datagrams, and none of it is seen in the frames. *)
Lemma udp_readLoop_frames addr_String buf evs : length buf = udp_buf ->
  udp_readLoop addr_String buf (map (fun p => (p, false)) evs) = map (fun p => mkInbound (addr_String p.1) (take udp_buf p.2)) evs.
Proof.
  revert buf. induction evs as [|[src d] evs IH]; intros buf Hb; [done|]. cbn [map udp_readLoop fst snd]. set (n := Nat.min (length d) udp_buf).
  assert (Hn : (n <= udp_buf)%nat) by lia. assert (Hd : length (take n d) = n) by (rewrite length_take; lia).
  rewrite IH by (rewrite length_app, length_drop; lia). f_equal. f_equal. rewrite take_app_length' by done. unfold n.
  destruct (Nat.le_ge_cases (length d) udp_buf); [rewrite Nat.min_l by done; by rewrite !take_ge|by rewrite Nat.min_r].
Qed.

(** LAN peering only ever uses links that are up, multicast, not loopback and have an
    IPv6 link-local address, and a broadcast puts the frame once on every one of them that
    takes it, to the group on that link; it succeeds if one did. *)
Lemma auto_broadcast ifaces join written resolve6 a frame :
  NewAutoInterface ifaces join = Ok a -> len frame <= udpMTU ->
  (exists l, ifaces = Some l /\ a_members a = map ni_Name (List.filter (auto_eligible join) l) /\ a_members a <> []) /\
  let '(out, r) := auto_Send resolve6 written a "" frame in
  out = map (fun m => (m, auto_group m, frame)) (List.filter (fun m => written m (auto_group m)) (a_members a)) /\
  (r = Ok tt <-> exists m, m ∈ a_members a /\ written m (auto_group m) = true).
Proof.
  unfold NewAutoInterface. destruct ifaces as [l|]; [|done]. destruct (map ni_Name _) as [|m ms] eqn:E; [done|]. intros [= <-] Hl. split; [exists l; rewrite E; done|].
  unfold auto_Send. cbn [a_mtu a_closed a_members]. destruct (Z.ltb_spec udpMTU (len frame)); [lia|]. cbn [negb String.eqb Broadcast]. set (f := fun m => written m (auto_group m)).
  split; [done|]. destruct (List.filter f (m :: ms)) as [|m' out] eqn:Ef; cbn [map].
  - split; [done|]. intros (x & Hx & Hw). exfalso. assert (Hin : x ∈ List.filter f (m :: ms)) by (apply list_elem_of_In, filter_In; split; [by apply list_elem_of_In|done]).
    rewrite Ef in Hin. by apply not_elem_of_nil in Hin.
  - split; [|done]. intros _. exists m'. assert (Hin : In m' (List.filter f (m :: ms))) by (rewrite Ef; by left). apply filter_In in Hin as [Hin Hw].
    split; [by apply list_elem_of_In|exact Hw].
Qed.

(** The two serial backends accept the same line rates. *)
Lemma baud_backends unix_B baud : is_Some (baudConst unix_B baud) <-> validBaud baud = true.
Proof. unfold baudConst, validBaud, standardBauds. destruct (existsb _ _); split; (done || by intros []). Qed.
