(* ===== verification/Serial.v ===== *)
(** * Opening a serial port (internal/iface/serial_linux.go, serial_darwin.go, serial_other.go, radio.go)

    The termios arithmetic that puts a line into raw mode, the two ways the line rate is
    set, and what becomes of the file when a step fails.  The constants of
    [golang.org/x/sys/unix] are the class [UnixConsts]; what the sources rely on of them
    is [UnixLaws]; the values of Linux on x86 are the instance of the witness.  What the
    operating system answers is an argument. *)

From S2P Require Import Prelude Ifaces.

Class UnixConsts : Type := {
  IGNBRK : Z; BRKINT : Z; PARMRK : Z; ISTRIP : Z; INLCR : Z; IGNCR : Z; ICRNL : Z; IXON : Z;
  OPOST : Z; ECHO : Z; ECHONL : Z; ICANON : Z; ISIG : Z; IEXTEN : Z;
  CSIZE : Z; PARENB : Z; CBAUD : Z; CS8 : Z; CREAD : Z; CLOCAL : Z;
  VMIN : nat; VTIME : nat;
  unix_B : Z -> Z      (** [unix.B1200], ... *)
}.

(** [CS8] lies in the size field, a speed in the speed field, and the fields and the
    other bits of [c_cflag] are apart. *)
Class UnixLaws (U : UnixConsts) : Prop := {
  cs8_size : Z.land CS8 CSIZE = CS8;
  cs8_else : Z.land CS8 (Z.lor PARENB CBAUD) = 0;
  speed_field b : Z.land (unix_B b) CBAUD = unix_B b;
  speed_else b : Z.land (unix_B b) (Z.lor CSIZE PARENB) = 0;
  modem_else : Z.land (Z.lor CREAD CLOCAL) (Z.lor (Z.lor CSIZE PARENB) CBAUD) = 0;
  vmin_vtime : VMIN <> VTIME
}.

Record Termios : Type := mkTermios { t_Iflag : Z; t_Oflag : Z; t_Cflag : Z; t_Lflag : Z; t_Cc : list Z; t_Ispeed : Z; t_Ospeed : Z }.

Definition ors (l : list Z) : Z := fold_left Z.lor l 0.

(** What the system answers to the open, the read and the write of the settings. *)
Record tty : Type := mkTty { ty_open : bool; ty_get : option Termios; ty_set : Termios -> bool }.

Inductive serial_err : Type := EBaud (baud : Z) | EOpenFile | EGetTermios | ESetTermios | ENotImplemented.
Inductive file_end : Type := NeverOpened | LeftOpen | FileClosed.

Section Serial.
Context `{U : UnixConsts}.

Definition input_mask : Z := ors [IGNBRK; BRKINT; PARMRK; ISTRIP; INLCR; IGNCR; ICRNL; IXON].
Definition local_mask : Z := ors [ECHO; ECHONL; ICANON; ISIG; IEXTEN].

(** On Linux the speed is a field of [c_cflag] too. *)
Definition raw_linux (speed : Z) (t : Termios) : Termios :=
  mkTermios (Z.ldiff (t_Iflag t) input_mask) (Z.ldiff (t_Oflag t) OPOST)
    (Z.lor (Z.ldiff (t_Cflag t) (ors [CSIZE; PARENB; CBAUD])) (ors [CS8; CREAD; CLOCAL; speed]))
    (Z.ldiff (t_Lflag t) local_mask) (<[VTIME := 0]> (<[VMIN := 1]> (t_Cc t))) speed speed.

Definition raw_darwin (baud : Z) (t : Termios) : Termios :=
  mkTermios (Z.ldiff (t_Iflag t) input_mask) (Z.ldiff (t_Oflag t) OPOST)
    (Z.lor (Z.ldiff (t_Cflag t) (ors [CSIZE; PARENB])) (ors [CS8; CREAD; CLOCAL]))
    (Z.ldiff (t_Lflag t) local_mask) (<[VTIME := 0]> (<[VMIN := 1]> (t_Cc t))) (u64 baud) (u64 baud).

(** From the opened file on. *)
Definition configure_tty (raw : Termios -> Termios) (y : tty) : result serial_err Termios * file_end :=
  if negb (ty_open y) then (Err EOpenFile, NeverOpened)
  else match ty_get y with
       | None => (Err EGetTermios, FileClosed)
       | Some t => if ty_set y (raw t) then (Ok (raw t), LeftOpen) else (Err ESetTermios, FileClosed)
       end.

Definition openSerial_linux (baud : Z) (y : tty) : result serial_err Termios * file_end :=
  match baudConst unix_B baud with
  | None => (Err (EBaud baud), NeverOpened)
  | Some speed => configure_tty (raw_linux speed) y
  end.

Definition openSerial_darwin (baud : Z) (y : tty) : result serial_err Termios * file_end :=
  if negb (validBaud baud) then (Err (EBaud baud), NeverOpened) else configure_tty (raw_darwin baud) y.

Definition openSerial_other (baud : Z) : result serial_err Termios * file_end := (Err ENotImplemented, NeverOpened).

(** The ports of [NewLoRaInterface] and [NewSerialInterface] on Linux. *)
Definition backend_linux (y : tty) (baud : Z) : bool := result_ok (openSerial_linux baud y).1.

(** ** What the settings come to *)

Lemma land_ldiff a m : Z.land (Z.ldiff a m) m = 0.
Proof using Type. apply Z.bits_inj'. intros n _. rewrite Z.land_spec, Z.ldiff_spec, Z.bits_0. by destruct (Z.testbit a n), (Z.testbit m n). Qed.

Lemma land_zero_bit a m n : Z.land a m = 0 -> Z.testbit a n && Z.testbit m n = false.
Proof using Type. intros H. by rewrite <- Z.land_spec, H, Z.bits_0. Qed.

Lemma land_self_bit a m n : Z.land a m = a -> Z.testbit a n = true -> Z.testbit m n = true.
Proof using Type. intros H Ha. rewrite <- H, Z.land_spec in Ha. by apply andb_true_iff in Ha as [_ ?]. Qed.

Lemma ldiff_twice a m : Z.ldiff (Z.ldiff a m) m = Z.ldiff a m.
Proof using Type. apply Z.bits_inj'. intros n _. rewrite !Z.ldiff_spec. by destruct (Z.testbit a n), (Z.testbit m n). Qed.

Lemma set_field a m v : Z.lor (Z.ldiff (Z.lor (Z.ldiff a m) v) m) v = Z.lor (Z.ldiff a m) v.
Proof using Type.
  apply Z.bits_inj'. intros n _. rewrite !Z.lor_spec, !Z.ldiff_spec, !Z.lor_spec, !Z.ldiff_spec. by destruct (Z.testbit a n), (Z.testbit m n), (Z.testbit v n).
Qed.

(** Raw mode: no input or output processing, no echo, no line editing or signals, eight
    data bits, no parity, the receiver on, the modem lines ignored, the speed asked for,
    a read that waits for one byte; all other bits as they were. *)
Record raw (t t' : Termios) (speed : Z) : Prop := {
  raw_input : Z.land (t_Iflag t') input_mask = 0;
  raw_output : Z.land (t_Oflag t') OPOST = 0;
  raw_local : Z.land (t_Lflag t') local_mask = 0;
  raw_size : Z.land (t_Cflag t') CSIZE = CS8;
  raw_parity : Z.land (t_Cflag t') PARENB = 0;
  raw_speed : Z.land (t_Cflag t') CBAUD = speed /\ t_Ispeed t' = speed /\ t_Ospeed t' = speed;
  raw_modem : Z.land (t_Cflag t') (Z.lor CREAD CLOCAL) = Z.lor CREAD CLOCAL;
  raw_read : (VMIN < length (t_Cc t))%nat -> (VTIME < length (t_Cc t))%nat -> t_Cc t' !! VMIN = Some 1 /\ t_Cc t' !! VTIME = Some 0;
  raw_rest n : Z.testbit input_mask n = false -> Z.testbit OPOST n = false -> Z.testbit local_mask n = false ->
    Z.testbit (t_Iflag t') n = Z.testbit (t_Iflag t) n /\ Z.testbit (t_Oflag t') n = Z.testbit (t_Oflag t) n /\ Z.testbit (t_Lflag t') n = Z.testbit (t_Lflag t) n
}.

Lemma raw_linux_raw `{UL : !UnixLaws U} baud t : raw t (raw_linux (unix_B baud) t) (unix_B baud).
Proof using Type.
  set (s := unix_B baud). assert (Hbits : forall n,
    (Z.testbit CS8 n = true -> Z.testbit CSIZE n = true) /\ (Z.testbit s n = true -> Z.testbit CBAUD n = true) /\
    (Z.testbit CS8 n && (Z.testbit PARENB n || Z.testbit CBAUD n) = false) /\ (Z.testbit s n && (Z.testbit CSIZE n || Z.testbit PARENB n) = false) /\
    ((Z.testbit CREAD n || Z.testbit CLOCAL n) && (Z.testbit CSIZE n || Z.testbit PARENB n || Z.testbit CBAUD n) = false)).
  { intros n. destruct UL as [L1 L2 L3 L4 L5 _]. split_and!; [by apply land_self_bit|apply land_self_bit, L3|..].
    - rewrite <- Z.lor_spec. by apply land_zero_bit.
    - rewrite <- Z.lor_spec. apply land_zero_bit, L4.
    - rewrite <- !Z.lor_spec. by apply land_zero_bit. }
  split; try apply land_ldiff.
  1-4: cbn [t_Cflag raw_linux t_Ispeed t_Ospeed]; try (split; [|done]); apply Z.bits_inj'; intros n _; destruct (Hbits n) as (H1 & H2 & H3 & H4 & H5); unfold ors; cbn [fold_left];
    rewrite ?Z.land_spec, ?Z.lor_spec, ?Z.ldiff_spec, ?Z.lor_spec, ?Z.bits_0;
    destruct (Z.testbit (t_Cflag t) n), (Z.testbit CS8 n), (Z.testbit CSIZE n), (Z.testbit PARENB n), (Z.testbit CBAUD n), (Z.testbit CREAD n), (Z.testbit CLOCAL n), (Z.testbit s n);
    cbn in *; try done; try (by specialize (H1 eq_refl)); by specialize (H2 eq_refl).
  - intros Hm Ht. cbn. destruct UL as [_ _ _ _ _ Hne]. rewrite list_lookup_insert_ne by done. rewrite !list_lookup_insert_eq by (rewrite ?length_insert; done). done.
  - intros n H1 H2 H3. cbn [t_Iflag t_Oflag t_Lflag raw_linux]. rewrite !Z.ldiff_spec, H1, H2, H3. by rewrite !andb_true_r.
Qed.

(** Setting it again changes nothing. *)
Lemma raw_linux_idempotent speed t : raw_linux speed (raw_linux speed t) = raw_linux speed t.
Proof using Type.
  unfold raw_linux. cbn. rewrite !ldiff_twice, set_field. f_equal. apply list_eq. intros i. rewrite !list_lookup_insert, ?length_insert. repeat case_decide; naive_solver.
Qed.
End Serial.

(** ** Claims *)

(** A port is either in raw mode at a standard rate and open, or closed.  On Linux
    opening succeeds exactly if the rate is standard and the file opens and takes the
    settings; the port is then in raw mode at that rate with every bit outside the
    masks kept; on every failure the file, if it was opened, is closed, and a rate that
    is not standard does not touch the device.  Darwin fails and closes in the same
    cases, and elsewhere nothing opens. *)
Theorem open_serial `{UL : UnixLaws} baud y :
  match openSerial_linux baud y with
  | (Ok t', f) => f = LeftOpen /\ validBaud baud = true /\ ty_open y = true /\ exists t, ty_get y = Some t /\ ty_set y t' = true /\ raw t t' (unix_B baud)
  | (Err e, f) => f <> LeftOpen /\ (e = EBaud baud <-> validBaud baud = false) /\ (f = NeverOpened <-> validBaud baud = false \/ ty_open y = false)
  end /\
  (validBaud baud = true -> ty_open y = true -> forall t, ty_get y = Some t -> ty_set y (raw_linux (unix_B baud) t) = true ->
     openSerial_linux baud y = (Ok (raw_linux (unix_B baud) t), LeftOpen)) /\
  match openSerial_darwin baud y with
  | (Ok _, f) => f = LeftOpen /\ validBaud baud = true
  | (Err _, f) => f <> LeftOpen
  end /\
  (openSerial_other baud).2 = NeverOpened.
Proof.
  pose proof (baud_backends unix_B baud) as Hb. unfold openSerial_linux, openSerial_darwin. destruct (baudConst unix_B baud) as [speed|] eqn:Eb.
  - assert (Hv : validBaud baud = true) by (apply Hb; eauto). assert (speed = unix_B baud) as -> by (unfold baudConst in Eb; destruct (existsb _ _); congruence).
    rewrite Hv. cbn [negb]. unfold configure_tty. destruct (ty_open y); cbn [negb].
    + destruct (ty_get y) as [t|].
      * split_and!; [|intros _ _ t' [= <-] Hs; by rewrite Hs| |done].
        -- destruct (ty_set y (raw_linux (unix_B baud) t)) eqn:Es; [split_and!; [done..|]; exists t; split_and!; [done|done|by apply raw_linux_raw]|].
           split_and!; [done|split; done|split; [done|by intros []]].
        -- by destruct (ty_set y _).
      * split_and!; [done|split; done|split; [done|by intros []]|done|done|done].
    + split_and!; [done|split; done|split; [by right|done]|done|done|done].
  - assert (Hv : validBaud baud = false) by (destruct (validBaud baud); [|done]; by destruct (proj2 Hb eq_refl)). rewrite Hv. cbn [negb].
    split_and!; [done|split; done|split; [by left|done]|done|done|done].
Qed.

(** ** Witness: the constants of Linux on x86 *)

#[local] Instance linux_consts : UnixConsts := {|
  IGNBRK := 1; BRKINT := 2; PARMRK := 8; ISTRIP := 32; INLCR := 64; IGNCR := 128; ICRNL := 256; IXON := 1024; OPOST := 1;
  ECHO := 8; ECHONL := 64; ICANON := 2; ISIG := 1; IEXTEN := 32768; CSIZE := 48; PARENB := 256; CBAUD := 4111; CS8 := 48; CREAD := 128; CLOCAL := 2048;
  VMIN := 6; VTIME := 5; unix_B b := if b =? 115200 then 4098 else 13
|}.
Lemma linux_laws : UnixLaws linux_consts.
Proof. split; cbn; try done; intros b; by destruct (_ =? _). Qed.

(** A line in its usual cooked mode, at 38400. *)
Definition cooked : Termios := mkTermios 1280 5 191 35387 (repeat 0 19) 15 15.
Definition port : tty := mkTty true (Some cooked) (fun _ => true).

Lemma open_serial_witness :
  openSerial_linux 9600 port = (Ok (mkTermios 0 4 2237 2608 (<[6%nat := 1]> (repeat 0 19)) 13 13), LeftOpen) /\ raw cooked (raw_linux 13 cooked) 13.
Proof.
  pose proof linux_laws as UL. destruct (open_serial (UL := UL) 9600 port) as (H & _). split; [vm_compute; reflexivity|].
  change (openSerial_linux 9600 port) with (Ok (E := serial_err) (raw_linux 13 cooked), LeftOpen) in H. cbv iota in H.
  destruct H as (_ & _ & _ & t & [= <-] & _ & H). exact H.
Defined.
