(* ===== verification/PeerTable.v ===== *)
(** * The peer table (internal/discovery/discovery.go, dht.go)

    The table of known peers: anti-eclipse admission, updates from first-hand
    packets and from hearsay, gossip, and the latency rounds that decide
    liveness.

    A [*Node] is its value together with the identity [n_ptr] of the object, so a
    probe that finishes after its node was evicted updates an object that is no
    longer in the table.  [now] is what [time.Now] returns, in nanoseconds; [it]
    is the order in which [range d.nodes] visits the table. *)

From S2P Require Import Prelude Crypto Wire Net Dht.

Definition maxLatency : Z := 2 * 1000000000.
Definition maxPeers : Z := 512.
Definition maxPeersPerSubnet : Z := 8.
Definition maxGossipAccept : Z := 32.
Definition maxVerifyPerRound : Z := 8.

(** The zero [time.Time], 1 January of year 1. *)
Definition time_zero : Z := - 62135596800 * 1000000000.

Record Node : Type := mkNode {
  n_ptr : nat;
  n_ID : string;
  n_Address : string;
  n_LastSeen : Z;
  n_Latency : Z;
  n_Active : bool;
  n_PubKey : bytes;
  n_SignKey : bytes;
  n_Port : Z;
  n_Capabilities : list string;
  n_RelayIDs : list string;
  n_MLKEMPub : bytes
}.

(** The part of [Discovery] the table's operations use. *)
Record Peers : Type := mkPeers {
  d_selfID : string;
  d_nodes : gmap string Node;
  d_next : nat;                     (** the next object *)
  d_bootstrap : list string;
  d_joins : Z;
  d_evictions : Z;
  d_rt : option RoutingTable
}.

Record PeerInfo : Type := mkPeerInfo {
  pi_NodeID : string;
  pi_Address : string;
  pi_PubKey : bytes;
  pi_SignKey : bytes;
  pi_Port : Z;
  pi_Capabilities : list string;
  pi_RelayIDs : list string;
  pi_MLKEMPub : bytes;
  pi_LastSeen : Z
}.

Definition set_nodes (d : Peers) (m : gmap string Node) : Peers :=
  mkPeers (d_selfID d) m (d_next d) (d_bootstrap d) (d_joins d) (d_evictions d) (d_rt d).

Definition evict_node (d : Peers) (n : Node) : Peers :=
  mkPeers (d_selfID d) (delete (n_ID n) (d_nodes d)) (d_next d) (d_bootstrap d) (d_joins d) (u64 (d_evictions d + 1)) (d_rt d).

(** [d.nodes[id] = &Node{...}; d.joins++]. *)
Definition join_node (d : Peers) (id : string) (n : nat -> Node) : Peers :=
  mkPeers (d_selfID d) (<[id := n (d_next d)]> (d_nodes d)) (S (d_next d)) (d_bootstrap d) (u64 (d_joins d + 1))
    (d_evictions d) (d_rt d).

Definition rtUpdate (d : Peers) (nodeID udpAddr : string) (port : Z) : Peers :=
  match d_rt d with
  | None => d
  | Some rt =>
      if String.eqb nodeID (d_selfID d) then d
      else
        match ParseID nodeID with
        | Err _ => d
        | Ok id =>
            mkPeers (d_selfID d) (d_nodes d) (d_next d) (d_bootstrap d) (d_joins d) (d_evictions d)
              (Some (Update rt (mkContact id udpAddr port)))
        end
  end.

Section PeerTable.
Context `{N : NetOps}.

Definition disc_subnetKey (address : string) : string :=
  let host := match SplitHostPort address with Some (h, _) => h | None => address end in
  match ParseIP host with
  | None => host
  | Some ip =>
      match To4 ip with
      | Some (a :: b :: c :: _) => ("v4:" ++ dec a ++ "." ++ dec b ++ "." ++ dec c)%string
      | _ => ("v6:" ++ IPString (take 6 ip ++ repeat x00 10))%string
      end
  end.

Definition isBootstrapAddr (d : Peers) (addr : string) : bool :=
  let h1 := match SplitHostPort addr with Some (h, _) => h | None => addr end in
  existsb (fun b => let h2 := match SplitHostPort b with Some (h, _) => h | None => b end in String.eqb h1 h2)
    (d_bootstrap d).

Definition staler (n : Node) (best : option Node) : option Node :=
  match best with
  | None => Some n
  | Some b => if n_LastSeen n <? n_LastSeen b then Some n else best
  end.

(** The scan: the subnet's count and the stalest candidates. *)
Definition scan_step (d : Peers) (sk : string) (acc : Z * option Node * option Node) (e : string * Node) :
    Z * option Node * option Node :=
  let '(subnetCount, stalestSubnet, stalestGlobal) := acc in
  let n := e.2 in
  if isBootstrapAddr d (n_Address n) then acc
  else
    let stalestGlobal := staler n stalestGlobal in
    if String.eqb (disc_subnetKey (n_Address n)) sk
    then (subnetCount + 1, staler n stalestSubnet, stalestGlobal)
    else (subnetCount, stalestSubnet, stalestGlobal).

Definition admitLocked (it : list (string * Node)) (d : Peers) (addr : string) : Peers * bool :=
  if isBootstrapAddr d addr then (d, true)
  else
    let sk := disc_subnetKey addr in
    let '(subnetCount, stalestSubnet, stalestGlobal) := fold_left (scan_step d sk) it (0, None, None) in
    let after_subnet :=
      if maxPeersPerSubnet <=? subnetCount then
        match stalestSubnet with None => None | Some n => Some (evict_node d n) end
      else Some d in
    match after_subnet with
    | None => (d, false)
    | Some d =>
        if maxPeers <=? Z.of_nat (size (d_nodes d)) then
          match stalestGlobal with None => (d, false) | Some n => (evict_node d n, true) end
        else (d, true)
    end.

Definition nonempty {A} (l : list A) : bool := negb (len l =? 0).

(** The update of a known node. *)
Definition upserted (now : Z) (addr : string) (pubKey signKey : bytes) (port : Z) (capabilities relayIDs : list string)
    (mlkemPub : bytes) (verified : bool) (n : Node) : Node :=
  mkNode (n_ptr n) (n_ID n)
    (if verified then addr
     else if String.eqb (n_Address n) "" && negb (String.eqb addr "") then addr else n_Address n)
    (if verified then now else n_LastSeen n) (n_Latency n) (if verified then true else n_Active n)
    (if nonempty pubKey then pubKey else n_PubKey n)
    (if nonempty signKey then signKey else n_SignKey n)
    (if negb (port =? 0) then port else n_Port n)
    (if nonempty capabilities then capabilities else n_Capabilities n)
    (if nonempty relayIDs then relayIDs else n_RelayIDs n)
    (if nonempty mlkemPub then mlkemPub else n_MLKEMPub n).

Definition upsertNode (now : Z) (it : list (string * Node)) (d : Peers) (nodeID addr : string) (pubKey signKey : bytes)
    (port : Z) (capabilities relayIDs : list string) (mlkemPub : bytes) (verified : bool) : Peers :=
  if String.eqb nodeID (d_selfID d) then d
  else
    match d_nodes d !! nodeID with
    | Some n =>
        let n' := upserted now addr pubKey signKey port capabilities relayIDs mlkemPub verified n in
        rtUpdate (set_nodes d (<[nodeID := n']> (d_nodes d))) nodeID addr port
    | None =>
        let '(d, ok) := admitLocked it d addr in
        if negb ok then d
        else
          let d := join_node d nodeID (fun ptr =>
            mkNode ptr nodeID addr now 0 verified pubKey signKey port capabilities relayIDs mlkemPub) in
          rtUpdate d nodeID addr port
    end.

Definition updateNode now it d nodeID addr pubKey signKey port capabilities relayIDs mlkemPub : Peers :=
  upsertNode now it d nodeID addr pubKey signKey port capabilities relayIDs mlkemPub true.
Definition learnCandidate now it d nodeID addr pubKey signKey port capabilities relayIDs mlkemPub : Peers :=
  upsertNode now it d nodeID addr pubKey signKey port capabilities relayIDs mlkemPub false.

Definition attestedOnly (selfAttested : bool) (v : list string) : list string := if negb selfAttested then [] else v.

Context `{C : CryptoOps}.

(** The update of a known node by gossip. *)
Definition merged (pi : PeerInfo) (selfAttested : bool) (n : Node) : Node :=
  mkNode (n_ptr n) (n_ID n)
    (if negb (String.eqb (pi_Address pi) "") then pi_Address pi else n_Address n)
    (n_LastSeen n) (n_Latency n) (n_Active n)
    (if nonempty (pi_PubKey pi) then pi_PubKey pi else n_PubKey n)
    (if nonempty (pi_SignKey pi) then pi_SignKey pi else n_SignKey n)
    (if negb (pi_Port pi =? 0) then pi_Port pi else n_Port n)
    (if selfAttested && nonempty (pi_Capabilities pi) then pi_Capabilities pi else n_Capabilities n)
    (if selfAttested && nonempty (pi_RelayIDs pi) then pi_RelayIDs pi else n_RelayIDs n)
    (if nonempty (pi_MLKEMPub pi) then pi_MLKEMPub pi else n_MLKEMPub n).

Definition mergePeer (now : Z) (it : list (string * Node)) (d : Peers) (pi : PeerInfo) (selfAttested : bool) : Peers :=
  if String.eqb (pi_NodeID pi) "" || String.eqb (pi_NodeID pi) (d_selfID d) then d
  else if negb (String.eqb (pi_NodeID pi) (DeriveNodeID (pi_SignKey pi))) then d
  else
    match d_nodes d !! pi_NodeID pi with
    | Some n =>
        if pi_LastSeen pi <? n_LastSeen n then d
        else set_nodes d (<[pi_NodeID pi := merged pi selfAttested n]> (d_nodes d))
    | None =>
        let '(d, ok) := admitLocked it d (pi_Address pi) in
        if negb ok then d
        else
          let lastSeen := if pi_LastSeen pi =? time_zero then now else pi_LastSeen pi in
          join_node d (pi_NodeID pi) (fun ptr =>
            mkNode ptr (pi_NodeID pi) (pi_Address pi) lastSeen 0 false (pi_PubKey pi) (pi_SignKey pi) (pi_Port pi)
              (attestedOnly selfAttested (pi_Capabilities pi)) (attestedOnly selfAttested (pi_RelayIDs pi)) (pi_MLKEMPub pi))
    end.
End PeerTable.

(** ** Latency rounds *)

(** The peers a round probes: the active ones, and the first few others. *)
Definition probe_targets (it : list (string * Node)) : list Node * list Node :=
  fold_left (fun '(nodes, unverified) e =>
    let n := e.2 in
    if n_Active n then (nodes ++ [n], unverified)
    else if len unverified <? maxVerifyPerRound then (nodes, unverified ++ [n])
    else (nodes, unverified)) it ([], []).

Definition set_liveness (n : Node) (lastSeen latency : Z) (active : bool) : Node :=
  mkNode (n_ptr n) (n_ID n) (n_Address n) lastSeen latency active (n_PubKey n) (n_SignKey n) (n_Port n)
    (n_Capabilities n) (n_RelayIDs n) (n_MLKEMPub n).

(** What the end of a probe does to the object: [latency] is what was measured. *)
Definition probed (now latency : Z) (promote : bool) (cur : Node) : Node :=
  if maxLatency <? latency then
    if negb promote then set_liveness cur (n_LastSeen cur) (n_Latency cur) false else cur
  else
    if promote then set_liveness cur now latency true
    else set_liveness cur (n_LastSeen cur) latency (n_Active cur).

(** The object probed may have left the table. *)
Definition probe (now latency : Z) (promote : bool) (d : Peers) (n : Node) : Peers :=
  match d_nodes d !! n_ID n with
  | Some cur =>
      if negb (n_ptr cur =? n_ptr n)%nat then d
      else set_nodes d (<[n_ID n := probed now latency promote cur]> (d_nodes d))
  | None => d
  end.

(** A round whose probes end in the order of the targets; [lat] is what
    [measureLatency] returns for each object. *)
Definition checkLatencies (now : Z) (it : list (string * Node)) (lat : Node -> Z) (d : Peers) : Peers :=
  let '(nodes, unverified) := probe_targets it in
  let d := fold_left (fun d n => probe now (lat n) false d n) nodes d in
  fold_left (fun d n => probe now (lat n) true d n) unverified d.

(** The end of [FindNode] when the located peer answered. *)
Definition FindNode_promote (now lat : Z) (d : Peers) (target : string) : Peers :=
  match d_nodes d !! target with
  | Some n => set_nodes d (<[target := set_liveness n now lat true]> (d_nodes d))
  | None => d
  end.

Definition lookupLocal (d : Peers) (target : string) : option Node := d_nodes d !! target.

Definition CircuitReachable (d : Peers) (id : string) : bool :=
  match d_nodes d !! id with
  | None => false
  | Some n =>
      if len (n_RelayIDs n) =? 0 then false
      else existsb (fun rid => match d_nodes d !! rid with Some r => n_Active r | None => false end) (n_RelayIDs n)
  end.

(** ** Counting peers *)

Definition cnt (p : string * Node -> bool) (m : gmap string Node) : Z := Z.of_nat (size (filter (fun e => p e = true) m)).

Lemma cnt_insert_new p m k v : m !! k = None -> cnt p (<[k := v]> m) = cnt p m + (if p (k, v) then 1 else 0).
Proof.
  intros Hk. unfold cnt. destruct (p (k, v)) eqn:E.
  - rewrite map_filter_insert_True by done. rewrite map_size_insert_None; [lia|].
    apply map_lookup_filter_None. by left.
  - rewrite map_filter_insert_False by (rewrite E; done). rewrite delete_id by done. lia.
Qed.

Lemma cnt_delete p m k v : m !! k = Some v -> cnt p (delete k m) = cnt p m - (if p (k, v) then 1 else 0).
Proof.
  intros Hk. pose proof (cnt_insert_new p (delete k m) k v (lookup_delete_eq m k)) as H.
  rewrite insert_delete_id in H by done. lia.
Qed.

Lemma cnt_range p m it : range_of m it -> len (List.filter p it) = cnt p m.
Proof.
  intros Hr. unfold cnt, len. f_equal. rewrite <- length_map_to_list. apply Permutation_length.
  assert (Hnd : NoDup it) by (pose proof (range_keys_nodup m it Hr) as H; by apply NoDup_fmap_1 in H).
  apply NoDup_Permutation.
  - clear Hr. induction Hnd as [|x l Hx Hl IH]; cbn; [constructor|]. destruct (p x); [|done]. constructor; [|done].
    rewrite list_elem_of_In, List.filter_In, <- list_elem_of_In. tauto.
  - apply NoDup_map_to_list.
  - intros [k v]. rewrite list_elem_of_In, List.filter_In, <- list_elem_of_In, (range_elem m it k v Hr).
    rewrite elem_of_map_to_list, map_lookup_filter_Some. done.
Qed.

Section Admission.
Context `{N : NetOps}.

(** A peer that may be evicted, and one of the given subnet. *)
Definition evictable (d : Peers) (e : string * Node) : bool := negb (isBootstrapAddr d (n_Address e.2)).
Definition own (d : Peers) (sk : string) (e : string * Node) : bool :=
  evictable d e && String.eqb (disc_subnetKey (n_Address e.2)) sk.
Definition other (d : Peers) (sk : string) (e : string * Node) : bool :=
  evictable d e && negb (String.eqb (disc_subnetKey (n_Address e.2)) sk).

(** The stalest of the visited entries that satisfy [p]. *)
Definition stalest (p : string * Node -> bool) (it : list (string * Node)) (o : option Node) : Prop :=
  match o with
  | None => List.filter p it = []
  | Some n => (exists k, (k, n) ∈ it /\ p (k, n) = true) /\ forall e, e ∈ it -> p e = true -> n_LastSeen n <= n_LastSeen e.2
  end.

Lemma staler_stalest p it e o :
  stalest p it o -> stalest p (it ++ [e]) (if p e then staler e.2 o else o).
Proof using Type.
  intros H. destruct e as [k n]. unfold stalest in *. destruct (p (k, n)) eqn:E.
  - destruct o as [b|]; cbn [staler snd].
    + destruct H as [(kb & Hb & Hpb) Hmin]. destruct (Z.ltb_spec (n_LastSeen n) (n_LastSeen b)).
      * split; [exists k; rewrite elem_of_app; set_solver|]. intros e [He|He]%elem_of_app Hp; [specialize (Hmin e He Hp); lia|].
        apply list_elem_of_singleton in He. subst. cbn. lia.
      * split; [exists kb; rewrite elem_of_app; set_solver|]. intros e [He|He]%elem_of_app Hp; [by apply Hmin|].
        apply list_elem_of_singleton in He. subst. cbn. lia.
    + split; [exists k; rewrite elem_of_app; set_solver|]. intros e [He|He]%elem_of_app Hp.
      * exfalso. apply list_elem_of_In in He. assert (Hin : In e (List.filter p it)) by (apply List.filter_In; done). by rewrite H in Hin.
      * apply list_elem_of_singleton in He. subst. cbn. lia.
  - destruct o as [b|].
    + destruct H as [(kb & Hb & Hpb) Hmin]. split; [exists kb; rewrite elem_of_app; set_solver|].
      intros e [He|He]%elem_of_app Hp; [by apply Hmin|]. apply list_elem_of_singleton in He. by subst e; rewrite E in Hp.
    + rewrite List.filter_app, H. cbn. by rewrite E.
Qed.

Lemma scan_spec d sk it :
  let '(c, ss, sg) := fold_left (scan_step d sk) it (0, None, None) in
  c = len (List.filter (own d sk) it) /\ stalest (own d sk) it ss /\ stalest (evictable d) it sg.
Proof using Type.
  induction it as [|e it IH] using rev_ind; [cbn; done|]. rewrite fold_left_app.
  destruct (fold_left (scan_step d sk) it (0, None, None)) as [[c ss] sg]. destruct IH as (IH1 & IH2 & IH3).
  cbn [fold_left scan_step]. unfold scan_step.
  pose proof (staler_stalest (own d sk) it e ss IH2) as Hs. pose proof (staler_stalest (evictable d) it e sg IH3) as Hg.
  rewrite List.filter_app, len_app, <- IH1. cbn [List.filter]. unfold own, evictable in *.
  destruct (isBootstrapAddr d (n_Address e.2)); cbn [negb andb] in *; [split_and!; [rewrite len_nil; lia|done|done]|].
  destruct (String.eqb (disc_subnetKey (n_Address e.2)) sk); split_and!; try done; rewrite ?len_cons, ?len_nil; lia.
Qed.

(** The keys of the table are the identifiers of its nodes. *)
Definition ids_ok (d : Peers) : Prop := forall k n, d_nodes d !! k = Some n -> n_ID n = k.

(** What an admission does to the table: nothing, or one eviction. *)
Inductive admission (d : Peers) (addr : string) (d' : Peers) : bool -> Prop :=
| adm_none : d' = d -> (isBootstrapAddr d addr = true \/
    (cnt (own d (disc_subnetKey addr)) (d_nodes d) < maxPeersPerSubnet /\ Z.of_nat (size (d_nodes d)) < maxPeers)) ->
    admission d addr d' true
| adm_subnet n : d' = evict_node d n -> d_nodes d !! n_ID n = Some n -> own d (disc_subnetKey addr) (n_ID n, n) = true ->
    maxPeersPerSubnet <= cnt (own d (disc_subnetKey addr)) (d_nodes d) ->
    (forall k m, d_nodes d !! k = Some m -> own d (disc_subnetKey addr) (k, m) = true -> n_LastSeen n <= n_LastSeen m) ->
    admission d addr d' true
| adm_global n : d' = evict_node d n -> d_nodes d !! n_ID n = Some n -> evictable d (n_ID n, n) = true ->
    cnt (own d (disc_subnetKey addr)) (d_nodes d) < maxPeersPerSubnet -> maxPeers <= Z.of_nat (size (d_nodes d)) ->
    (forall k m, d_nodes d !! k = Some m -> evictable d (k, m) = true -> n_LastSeen n <= n_LastSeen m) ->
    admission d addr d' true
| adm_full : d' = d -> maxPeers <= Z.of_nat (size (d_nodes d)) -> cnt (evictable d) (d_nodes d) = 0 -> admission d addr d' false.

Lemma stalest_lookup p d it n :
  ids_ok d -> range_of (d_nodes d) it -> stalest p it (Some n) ->
  d_nodes d !! n_ID n = Some n /\ p (n_ID n, n) = true /\
  forall k m, d_nodes d !! k = Some m -> p (k, m) = true -> n_LastSeen n <= n_LastSeen m.
Proof using Type.
  intros Hids Hr [(k & Hk & Hp) Hmin]. apply (range_elem _ _ _ _ Hr) in Hk. pose proof (Hids _ _ Hk) as E. rewrite E.
  split_and!; [done|done|]. intros k' m Hm Hpm. apply (Hmin (k', m)); [|done]. by apply (range_elem _ _ _ _ Hr).
Qed.

Lemma admitLocked_spec it d addr :
  ids_ok d -> range_of (d_nodes d) it -> Z.of_nat (size (d_nodes d)) <= maxPeers ->
  admission d addr (admitLocked it d addr).1 (admitLocked it d addr).2.
Proof using Type.
  intros Hids Hr Hsz. unfold admitLocked. destruct (isBootstrapAddr d addr) eqn:Eb; [by apply adm_none; [|left]|].
  pose proof (scan_spec d (disc_subnetKey addr) it) as Hscan.
  destruct (fold_left _ it _) as [[c ss] sg]. destruct Hscan as (Hc & Hs & Hg). rewrite (cnt_range _ _ _ Hr) in Hc. subst c.
  destruct (Z.leb_spec maxPeersPerSubnet (cnt (own d (disc_subnetKey addr)) (d_nodes d))) as [Hfull|Hroom].
  - destruct ss as [n|].
    + destruct (stalest_lookup _ _ _ _ Hids Hr Hs) as (Hn & Hp & Hmin).
      assert (Hlt : (maxPeers <=? Z.of_nat (size (d_nodes (evict_node d n)))) = false).
      { apply Z.leb_gt. cbn [evict_node d_nodes]. rewrite map_size_delete_Some by (by eexists).
        assert (size (d_nodes d) <> 0)%nat by (intros E; apply map_size_empty_inv in E; by rewrite E in Hn). lia. }
      rewrite Hlt. by eapply adm_subnet.
    + cbn in Hs. rewrite <- (cnt_range _ _ _ Hr), Hs in Hfull. by compute in Hfull.
  - destruct (Z.leb_spec maxPeers (Z.of_nat (size (d_nodes d)))); [|by apply adm_none; [|right]].
    destruct sg as [n|].
    + destruct (stalest_lookup _ _ _ _ Hids Hr Hg) as (Hn & Hp & Hmin). by eapply adm_global.
    + apply adm_full; [done|done|]. cbn in Hg. by rewrite <- (cnt_range _ _ _ Hr), Hg.
Qed.

Context `{C : CryptoOps}.

(** The addition of a peer that is not in the table. *)
Inductive adds (id addr : string) : Peers -> Peers -> Prop :=
| adds_upsert d now it pubKey signKey port caps relays mlkem verified :
    range_of (d_nodes d) it -> d_nodes d !! id = None ->
    adds id addr d (upsertNode now it d id addr pubKey signKey port caps relays mlkem verified)
| adds_merge d now it pi attested :
    range_of (d_nodes d) it -> d_nodes d !! id = None -> pi_NodeID pi = id -> pi_Address pi = addr ->
    adds id addr d (mergePeer now it d pi attested).

Lemma rtUpdate_nodes d id a p :
  d_nodes (rtUpdate d id a p) = d_nodes d /\ d_bootstrap (rtUpdate d id a p) = d_bootstrap d /\
  d_selfID (rtUpdate d id a p) = d_selfID d.
Proof using Type. unfold rtUpdate. destruct (d_rt d); [|done]. destruct (String.eqb _ _); [done|]. by destruct (ParseID id). Qed.

Lemma admission_boot d addr d' ok : admission d addr d' ok -> d_bootstrap d' = d_bootstrap d.
Proof using Type. by inversion 1; subst. Qed.

Lemma adds_effect id addr d d' :
  ids_ok d -> Z.of_nat (size (d_nodes d)) <= maxPeers -> adds id addr d d' ->
  d' = d \/
  exists d1 ok n, admission d addr d1 ok /\ d_nodes d' = (if ok : bool then <[id := n]> (d_nodes d1) else d_nodes d1) /\
    n_ID n = id /\ n_Address n = addr /\ d_bootstrap d' = d_bootstrap d.
Proof using Type.
  intros Hids Hsz Ha. destruct Ha as [d now it pk sk port caps rel ml v Hr Hnew|d now it pi att Hr Hnew E1 E2]; [|subst id addr].
  - unfold upsertNode. destruct (String.eqb id (d_selfID d)); [by left|]. rewrite Hnew. right.
    pose proof (admitLocked_spec it d addr Hids Hr Hsz) as Had. destruct (admitLocked it d addr) as [d1 ok]. cbn [fst snd] in Had.
    pose proof (admission_boot _ _ _ _ Had) as Hb. destruct ok; cbn [negb].
    + exists d1, true. eexists. destruct (rtUpdate_nodes (join_node d1 id (fun ptr => mkNode ptr id addr now 0 v pk sk port caps rel ml)) id addr port) as (H1 & H2 & _).
      rewrite H1, H2. split_and!; try done.
    + exists d1, false, (mkNode 0 id addr 0 0 false [] [] 0 [] [] []). done.
  - unfold mergePeer. destruct (_ || _); [by left|]. destruct (negb _); [by left|]. rewrite Hnew. right.
    pose proof (admitLocked_spec it d (pi_Address pi) Hids Hr Hsz) as Had. destruct (admitLocked it d _) as [d1 ok]. cbn [fst snd] in Had.
    pose proof (admission_boot _ _ _ _ Had) as Hb. destruct ok; cbn [negb].
    + exists d1, true. eexists. split_and!; try done.
    + exists d1, false, (mkNode 0 (pi_NodeID pi) (pi_Address pi) 0 0 false [] [] 0 [] [] []). done.
Qed.

(** Additions of any number of peers, all of them from one subnet. *)
Inductive flood (sk : string) : Peers -> Peers -> Prop :=
| flood_nil d : flood sk d d
| flood_add d d1 d2 id addr :
    flood sk d d1 -> adds id addr d1 d2 -> d_nodes d1 !! id = None ->
    isBootstrapAddr d1 addr = false -> disc_subnetKey addr = sk -> flood sk d d2.

Lemma preds_boot d d' : d_bootstrap d' = d_bootstrap d ->
  (forall e, evictable d' e = evictable d e) /\ (forall sk e, own d' sk e = own d sk e) /\ (forall sk e, other d' sk e = other d sk e).
Proof using Type.
  intros H. unfold own, other, evictable, isBootstrapAddr. rewrite H. done.
Qed.

Lemma cnt_ext p q m : (forall e, p e = q e) -> cnt p m = cnt q m.
Proof using Type. intros H. unfold cnt. do 2 f_equal. apply map_filter_ext. intros k x _. by rewrite H. Qed.

(** What one addition from subnet [sk] keeps. *)
Record flood_inv (sk : string) (d d' : Peers) : Prop := {
  fi_boot : d_bootstrap d' = d_bootstrap d;
  fi_ids : ids_ok d';
  fi_size : Z.of_nat (size (d_nodes d')) <= maxPeers;
  fi_anchors : forall k n, d_nodes d !! k = Some n -> isBootstrapAddr d (n_Address n) = true -> d_nodes d' !! k = Some n;
  fi_count : Z.min (cnt (own d sk) (d_nodes d)) 8 + cnt (other d sk) (d_nodes d) <=
             Z.min (cnt (own d sk) (d_nodes d')) 8 + cnt (other d sk) (d_nodes d');
  fi_own : cnt (own d sk) (d_nodes d') <= Z.max (cnt (own d sk) (d_nodes d)) maxPeersPerSubnet
}.

Lemma adds_inv sk id addr d d' :
  ids_ok d -> Z.of_nat (size (d_nodes d)) <= maxPeers -> adds id addr d d' -> d_nodes d !! id = None ->
  isBootstrapAddr d addr = false -> disc_subnetKey addr = sk -> flood_inv sk d d'.
Proof using Type.
  intros Hids Hsz Ha Hnew Hb Hsk. destruct (adds_effect _ _ _ _ Hids Hsz Ha) as [-> | (d1 & ok & n & Had & Hn & HnI & HnA & Hboot)].
  { split; try done. lia. }
  assert (Hown : own d sk (id, n) = true) by (unfold own, evictable; cbn; by rewrite HnA, Hb, Hsk, String.eqb_refl).
  assert (Hoth : other d sk (id, n) = false) by (unfold other, evictable; cbn; by rewrite HnA, Hb, Hsk, String.eqb_refl).
  assert (Hdel : forall v : Node, d_nodes d !! n_ID v = Some v -> evictable d (n_ID v, v) = true ->
    cnt (own d sk) (delete (n_ID v) (d_nodes d)) = cnt (own d sk) (d_nodes d) - (if own d sk (n_ID v, v) then 1 else 0) /\
    cnt (other d sk) (delete (n_ID v) (d_nodes d)) = cnt (other d sk) (d_nodes d) - (if own d sk (n_ID v, v) then 0 else 1) /\
    size (delete (n_ID v) (d_nodes d)) = pred (size (d_nodes d)) /\ (0 < size (d_nodes d))%nat /\
    (forall k m, d_nodes d !! k = Some m -> isBootstrapAddr d (n_Address m) = true -> delete (n_ID v) (d_nodes d) !! k = Some m)).
  { intros v Hv He. assert (size (d_nodes d) <> 0)%nat by (intros E; apply map_size_empty_inv in E; by rewrite E in Hv).
    split_and!; [rewrite (cnt_delete _ _ _ _ Hv); done| | |lia|].
    - rewrite (cnt_delete _ _ _ _ Hv). unfold other, own in *. rewrite He. cbn [andb snd].
      destruct (String.eqb (disc_subnetKey (n_Address v)) sk); cbn [negb]; reflexivity.
    - by rewrite map_size_delete_Some by (by eexists).
    - intros k m Hm Hbm. apply lookup_delete_Some. split; [|done]. intros <-. rewrite Hv in Hm. injection Hm as <-.
      unfold evictable in He. cbn in He. by rewrite Hbm in He. }
  assert (Hins : forall m, m !! id = None -> cnt (own d sk) (<[id := n]> m) = cnt (own d sk) m + 1 /\
                           cnt (other d sk) (<[id := n]> m) = cnt (other d sk) m /\ size (<[id := n]> m) = S (size m)).
  { intros m Hm. rewrite !cnt_insert_new by done. rewrite Hown, Hoth, map_size_insert_None by done. split_and!; lia. }
  assert (Hids1 : ids_ok d1) by (inversion Had; subst; try done; intros k x Hx; cbn [evict_node d_nodes] in Hx;
    apply lookup_delete_Some in Hx as [_ Hx]; by apply Hids).
  assert (Hids' : ids_ok d').
  { intros k x. rewrite Hn. destruct ok; [|apply Hids1]. intros [[<- <-]|[_ Hx]]%lookup_insert_Some; [done|by apply Hids1]. }
  unfold maxPeersPerSubnet in *.
  inversion Had as [E1 [Hbad|[Hc Hs]]|v E1 Hv Hvo Hc Hmin|v E1 Hv Hve Hc Hs Hmin|E1 Hs Hz]; subst ok d1; rewrite ?Hsk in *;
    unfold maxPeersPerSubnet in *.
  - by rewrite Hb in Hbad.
  - destruct (Hins (d_nodes d) Hnew) as (I1 & I2 & I3). split; rewrite ?Hn, ?I1, ?I2, ?I3; try done; try unfold maxPeersPerSubnet; try lia.
    intros k x Hk _. rewrite lookup_insert_ne; [done|]. intros <-. by rewrite Hnew in Hk.
  - assert (Hve : evictable d (n_ID v, v) = true) by (unfold own in Hvo; by apply andb_true_iff in Hvo as [? _]).
    destruct (Hdel v Hv Hve) as (D1 & D2 & D3 & D4 & D5). rewrite Hvo in D1, D2. cbn [evict_node d_nodes] in Hn.
    destruct (Hins (delete (n_ID v) (d_nodes d))) as (I1 & I2 & I3); [apply lookup_delete_None; by right|].
    split; rewrite ?Hn, ?I1, ?I2, ?I3, ?D1, ?D2, ?D3; try done; try unfold maxPeersPerSubnet; try lia.
    intros k x Hk Hbx. rewrite lookup_insert_ne; [by apply D5|]. intros <-. by rewrite Hnew in Hk.
  - destruct (Hdel v Hv Hve) as (D1 & D2 & D3 & D4 & D5). cbn [evict_node d_nodes] in Hn.
    destruct (Hins (delete (n_ID v) (d_nodes d))) as (I1 & I2 & I3); [apply lookup_delete_None; by right|].
    split; rewrite ?Hn, ?I1, ?I2, ?I3, ?D1, ?D2, ?D3; try done; try unfold maxPeersPerSubnet; try (destruct (own d sk (n_ID v, v)); lia); try lia.
    intros k x Hk Hbx. rewrite lookup_insert_ne; [by apply D5|]. intros <-. by rewrite Hnew in Hk.
  - split; rewrite ?Hn; try done. lia.
Qed.

(** C14: A flood of new identities from one subnet cannot eclipse a node: however
    many arrive, directly or by gossip, the table stays within its cap, every peer
    at a bootstrap host stays, the subnet holds at most its share, and all but at
    most [maxPeersPerSubnet] of the peers of other subnets stay. *)
Theorem sybil_flood (sk : string) (d d' : Peers) :
  ids_ok d -> Z.of_nat (size (d_nodes d)) <= maxPeers -> flood sk d d' ->
  Z.of_nat (size (d_nodes d')) <= maxPeers /\
  (forall k n, d_nodes d !! k = Some n -> isBootstrapAddr d (n_Address n) = true -> d_nodes d' !! k = Some n) /\
  cnt (own d sk) (d_nodes d') <= Z.max (cnt (own d sk) (d_nodes d)) maxPeersPerSubnet /\
  cnt (other d sk) (d_nodes d) - maxPeersPerSubnet <= cnt (other d sk) (d_nodes d').
Proof using Type.
  intros Hids Hsz Hf.
  assert (Hinv : flood_inv sk d d').
  { induction Hf as [d|d d1 d2 id addr Hf IH Ha Hnew Hb Hsk]; [split; done || lia|]. specialize (IH Hids Hsz).
    destruct IH as [B1 B2 B3 B4 B5 B6]. destruct (adds_inv _ _ _ _ _ B2 B3 Ha Hnew Hb Hsk) as [A1 A2 A3 A4 A5 A6].
    destruct (preds_boot d d1 B1) as (_ & Po & Pt).
    rewrite !(cnt_ext _ _ _ (Po sk)), !(cnt_ext _ _ _ (Pt sk)) in A5. rewrite !(cnt_ext _ _ _ (Po sk)) in A6.
    split; try done; [congruence| |lia|lia]. intros k n Hk Hbn. apply A4; [by apply B4|].
    unfold isBootstrapAddr in *. by rewrite B1. }
  destruct Hinv as [B1 B2 B3 B4 B5 B6]. split_and!; try done.
  unfold maxPeersPerSubnet in *. assert (0 <= cnt (own d sk) (d_nodes d)) by (unfold cnt; lia). lia.
Qed.
End Admission.

Lemma sybil_flood_witness :
  let N : NetOps := {| ParseIP := fun _ => None; IPString := fun _ => ""%string |} in
  let d := mkPeers "me" {[ "a"%string := mkNode 0 "a" "h1:1" 5 0 true [] [] 1 [] [] [] ]} 1 [] 0 0 None in
  let d' := upsertNode (N := N) 9 (map_to_list (d_nodes d)) d "b" "h2:1" [] [] 1 [] [] [] true in
  Z.of_nat (size (d_nodes d')) <= maxPeers.
Proof.
  cbn zeta. set (N := {| ParseIP := _; IPString := _ |}). set (d := mkPeers _ _ _ _ _ _ _).
  refine (proj1 (sybil_flood (N := N) (C := toy_ops) "h2" d _ _ _ _)).
  - intros k n. cbn. rewrite lookup_singleton_Some. by intros [<- <-].
  - vm_compute. discriminate.
  - eapply (flood_add (N := N) _ d d _ "b" "h2:1"); [constructor| |reflexivity|reflexivity|vm_compute; reflexivity].
    apply adds_upsert; [apply range_map_to_list|reflexivity].
Defined.

(** ** Hearsay *)

Section Hearsay.
Context `{N : NetOps} `{C : CryptoOps}.

Lemma admitLocked_sub it d addr k n :
  d_nodes (admitLocked it d addr).1 !! k = Some n -> d_nodes d !! k = Some n.
Proof using Type.
  unfold admitLocked. destruct (isBootstrapAddr d addr); [done|]. destruct (fold_left _ it _) as [[c ss] sg].
  assert (Hev : forall d m, d_nodes (evict_node d m) !! k = Some n -> d_nodes d !! k = Some n)
    by (intros d0 m; cbn; intros [_ H]%lookup_delete_Some; done).
  destruct (maxPeersPerSubnet <=? c).
  - destruct ss as [m|]; [|done]. destruct (maxPeers <=? _); [|by cbn [fst]; apply Hev].
    destruct sg as [g|]; cbn [fst]; [intros H; by apply Hev, Hev in H|apply Hev].
  - destruct (maxPeers <=? _); [|done]. destruct sg as [g|]; [apply Hev|done].
Qed.

(** The entries after an update: untouched, updated, or new. *)
Lemma upsert_entry now it d id addr pk sk port caps rel ml v k n' :
  d_nodes (upsertNode now it d id addr pk sk port caps rel ml v) !! k = Some n' ->
  d_nodes d !! k = Some n' \/
  (k = id /\ exists n, d_nodes d !! id = Some n /\ n' = upserted now addr pk sk port caps rel ml v n) \/
  (k = id /\ d_nodes d !! id = None /\ exists ptr, n' = mkNode ptr id addr now 0 v pk sk port caps rel ml).
Proof using Type.
  unfold upsertNode. destruct (String.eqb _ _); [by left|]. destruct (d_nodes d !! id) as [n|] eqn:E.
  - rewrite (proj1 (rtUpdate_nodes _ _ _ _)). cbn [set_nodes d_nodes]. intros [[<- <-]|[_ Hk]]%lookup_insert_Some; [eauto 6|by left].
  - pose proof (admitLocked_sub it d addr k n') as Hs. destruct (admitLocked it d addr) as [d1 ok]. cbn [fst] in Hs.
    destruct ok; cbn [negb]; [|by left; auto]. rewrite (proj1 (rtUpdate_nodes _ _ _ _)). cbn [join_node d_nodes].
    intros [[<- <-]|[_ Hk]]%lookup_insert_Some; [right; right; eauto|left; auto].
Qed.

Lemma merge_entry now it d pi att k n' :
  d_nodes (mergePeer now it d pi att) !! k = Some n' ->
  d_nodes d !! k = Some n' \/
  (k = pi_NodeID pi /\ DeriveNodeID (pi_SignKey pi) = k /\
   ((exists n, d_nodes d !! k = Some n /\ n' = merged pi att n) \/
    (d_nodes d !! k = None /\ exists ptr ls, n' = mkNode ptr k (pi_Address pi) ls 0 false (pi_PubKey pi) (pi_SignKey pi) (pi_Port pi)
       (attestedOnly att (pi_Capabilities pi)) (attestedOnly att (pi_RelayIDs pi)) (pi_MLKEMPub pi)))).
Proof using Type.
  unfold mergePeer. destruct (_ || _); [by left|].
  destruct (String.eqb_spec (pi_NodeID pi) (DeriveNodeID (pi_SignKey pi))) as [Eid|]; cbn [negb]; [|by left].
  destruct (d_nodes d !! pi_NodeID pi) as [n|] eqn:E.
  - destruct (_ <? _); [by left|]. cbn [set_nodes d_nodes]. intros [[<- <-]|[_ Hk]]%lookup_insert_Some; [right; eauto 8|by left].
  - pose proof (admitLocked_sub it d (pi_Address pi) k n') as Hs. destruct (admitLocked it d _) as [d1 ok]. cbn [fst] in Hs.
    destruct ok; cbn [negb]; [|by left; auto]. cbn [join_node d_nodes].
    intros [[<- <-]|[_ Hk]]%lookup_insert_Some; [right; split_and!; [done|done|right; eauto]|left; auto].
Qed.

(** Liveness is first-hand: learning of a peer from a contact list or from
    gossip never makes it active, nor changes when an active peer was last seen or
    its latency; and gossip about a third party gives it no capabilities and no
    reservation relays. *)
Theorem hearsay_never_activates now it d nodeID addr pubKey signKey port caps relays mlkem pi attested :
  (forall k n', d_nodes (learnCandidate now it d nodeID addr pubKey signKey port caps relays mlkem) !! k = Some n' ->
     n_Active n' = true -> exists n, d_nodes d !! k = Some n /\ n_Active n = true /\ n_LastSeen n' = n_LastSeen n /\ n_Latency n' = n_Latency n) /\
  (forall k n', d_nodes (mergePeer now it d pi attested) !! k = Some n' ->
     (n_Active n' = true -> exists n, d_nodes d !! k = Some n /\ n_Active n = true /\ n_LastSeen n' = n_LastSeen n /\ n_Latency n' = n_Latency n) /\
     (attested = false -> match d_nodes d !! k with
                          | Some n => n_Capabilities n' = n_Capabilities n /\ n_RelayIDs n' = n_RelayIDs n
                          | None => n_Capabilities n' = [] /\ n_RelayIDs n' = []
                          end)).
Proof using Type.
  split; intros k n'.
  - intros [Hk|[(-> & n & Hn & ->)|(-> & _ & ptr & ->)]]%upsert_entry; [by exists n'|by exists n|done].
  - intros [Hk|(-> & _ & [(n & Hn & ->)|(Hn & ptr & ls & ->)])]%merge_entry; rewrite ?Hk, ?Hn.
    + split; [by exists n'|done].
    + split; [by exists n|]. by intros ->.
    + split; [done|]. by intros ->.
Qed.
End Hearsay.

(** ** Latency rounds *)

Lemma probe_targets_spec it :
  probe_targets it = (List.filter n_Active (map snd it), take (Z.to_nat maxVerifyPerRound) (List.filter (fun n => negb (n_Active n)) (map snd it))).
Proof.
  induction it as [|e it IH] using rev_ind; [done|]. unfold probe_targets in *. rewrite fold_left_app, IH. cbn [fold_left].
  rewrite map_app, !List.filter_app. cbn [map List.filter]. destruct (n_Active e.2); cbn [negb]; [by rewrite app_nil_r|].
  set (l := List.filter (fun n => negb (n_Active n)) (map snd it)). rewrite app_nil_r.
  destruct (Z.ltb_spec (len (take (Z.to_nat maxVerifyPerRound) l)) maxVerifyPerRound) as [H|H]; unfold len in H; rewrite length_take in H.
  - rewrite (take_ge l), (take_ge (l ++ [_])) by (rewrite ?length_app; cbn; unfold maxVerifyPerRound in *; lia). done.
  - rewrite take_app_le by (unfold maxVerifyPerRound in *; lia). done.
Qed.

Lemma n_ID_probed now l pr n : n_ID (probed now l pr n) = n_ID n /\ n_ptr (probed now l pr n) = n_ptr n.
Proof. unfold probed. destruct (_ <? _), pr; done. Qed.

Lemma fold_probe now lat pr l d :
  NoDup (map n_ID l) -> (forall n, n ∈ l -> d_nodes d !! n_ID n = Some n) ->
  let d' := fold_left (fun d n => probe now (lat n) pr d n) l d in
  (forall n, n ∈ l -> d_nodes d' !! n_ID n = Some (probed now (lat n) pr n)) /\
  (forall k, k ∉ map n_ID l -> d_nodes d' !! k = d_nodes d !! k).
Proof.
  revert d. induction l as [|n l IH]; intros d Hnd Hl; [split; [set_solver|done]|]. cbn [map] in Hnd.
  apply NoDup_cons in Hnd as [Hn Hnd]. cbn zeta. cbn [fold_left].
  assert (Hp : probe now (lat n) pr d n = set_nodes d (<[n_ID n := probed now (lat n) pr n]> (d_nodes d))).
  { unfold probe. rewrite (Hl n) by set_solver. by rewrite Nat.eqb_refl. }
  rewrite Hp. set (d1 := set_nodes d _). destruct (IH d1 Hnd) as [H1 H2].
  { intros m Hm. cbn. rewrite lookup_insert_ne; [apply Hl; set_solver|]. intros E. apply Hn. rewrite E. by apply (list_elem_of_fmap_2 n_ID). }
  split.
  - intros m [->|Hm]%elem_of_cons; [|by apply H1]. rewrite H2 by done. cbn. by rewrite lookup_insert_eq.
  - intros k Hk. cbn [map] in Hk. apply not_elem_of_cons in Hk as [Hk1 Hk2]. rewrite H2 by done. cbn. by rewrite lookup_insert_ne.
Qed.

(** After a latency round a peer is active exactly if it was probed and
    answered in time: every active peer is probed and demoted unless it answers,
    a candidate is promoted only by its own answer, and no peer is lost. *)
Theorem latency_round now it lat d k n :
  ids_ok d -> range_of (d_nodes d) it -> d_nodes d !! k = Some n ->
  exists n', d_nodes (checkLatencies now it lat d) !! k = Some n' /\
    (n_Active n' = true <-> lat n <= maxLatency /\ (n_Active n = true \/ n ∈ (probe_targets it).2)) /\
    (n_Active n' = true -> n_Latency n' = lat n).
Proof.
  intros Hids Hr Hk. unfold checkLatencies. rewrite probe_targets_spec.
  set (A := List.filter n_Active (map snd it)). set (I := List.filter (fun n => negb (n_Active n)) (map snd it)).
  set (U := take (Z.to_nat maxVerifyPerRound) I). cbn [snd].
  assert (Hin : forall m, m ∈ map snd it <-> d_nodes d !! n_ID m = Some m).
  { intros m. split.
    - intros ([k' m'] & -> & Hm)%list_elem_of_fmap. apply (range_elem _ _ _ _ Hr) in Hm. cbn. by rewrite (Hids _ _ Hm).
    - intros Hm. apply (range_elem _ _ _ _ Hr) in Hm. by apply (list_elem_of_fmap_2 snd) in Hm. }
  assert (HndI : NoDup (map n_ID (map snd it))).
  { rewrite map_map. rewrite (map_ext_in (fun e => n_ID e.2) fst).
    - apply (range_keys_nodup _ _ Hr).
    - intros [k' m'] Hm%list_elem_of_In. apply (range_elem _ _ _ _ Hr) in Hm. by apply Hids. }
  assert (Hf : forall p m, m ∈ List.filter p (map snd it) <-> d_nodes d !! n_ID m = Some m /\ p m = true).
  { intros p m. rewrite list_elem_of_In, List.filter_In, <- list_elem_of_In, Hin. done. }
  assert (Hnd : forall p, NoDup (map n_ID (List.filter p (map snd it)))).
  { intros p. clear -HndI. induction (map snd it) as [|m l IH]; [constructor|]. cbn in *. apply NoDup_cons in HndI as [H1 H2].
    destruct (p m); [|by apply IH]. cbn. constructor; [|by apply IH]. intros (m' & E & Hm')%list_elem_of_fmap.
    apply H1. rewrite E. apply (list_elem_of_fmap_2 n_ID). apply list_elem_of_In, List.filter_In in Hm' as [Hm' _]. by apply list_elem_of_In. }
  assert (HU : forall m, m ∈ U -> d_nodes d !! n_ID m = Some m /\ n_Active m = false).
  { intros m Hm. assert (Hm' : m ∈ I) by (rewrite <- (take_drop (Z.to_nat maxVerifyPerRound) I), elem_of_app; by left).
    apply Hf in Hm' as [H1 H2]. split; [done|]. by apply negb_true_iff in H2. }
  pose proof (Hids _ _ Hk) as Eid. subst k.
  destruct (fold_probe now lat false A d (Hnd _)) as [P1 P2]; [intros m Hm; apply Hf in Hm; apply Hm|].
  set (d1 := fold_left (fun d n => probe now (lat n) false d n) A d) in *.
  assert (HnA : forall m, m ∈ U -> n_ID m ∉ map n_ID A).
  { intros m Hm (a & E & Ha)%list_elem_of_fmap. apply Hf in Ha as [Ha1 Ha2]. destruct (HU m Hm) as [Hm1 Hm2].
    rewrite E, Ha1 in Hm1. injection Hm1 as ->. by rewrite Ha2 in Hm2. }
  destruct (fold_probe now lat true U d1) as [Q1 Q2].
  { unfold U. clear -Hnd. specialize (Hnd (fun n => negb (n_Active n))). fold I in Hnd.
    rewrite <- (take_drop (Z.to_nat maxVerifyPerRound) I), map_app in Hnd. by apply NoDup_app in Hnd as [? _]. }
  { intros m Hm. rewrite P2 by by apply HnA. by apply HU. }
  set (d2 := fold_left _ U d1) in *. destruct (n_Active n) eqn:Ea.
  - assert (Hn : n ∈ A) by by apply Hf. exists (probed now (lat n) false n). rewrite Q2, P1 by first [done|
      intros (m & E & Hm)%list_elem_of_fmap; apply (HnA m Hm); rewrite <- E; by apply (list_elem_of_fmap_2 n_ID)].
    split; [done|]. unfold probed. destruct (Z.ltb_spec maxLatency (lat n)); cbn; rewrite ?Ea; split; try done; [split; [done|lia]|].
    split; [intros _; split; [lia|by left]|done].
  - assert (HnAn : n_ID n ∉ map n_ID A).
    { intros (a & E & Ha)%list_elem_of_fmap. apply Hf in Ha as [Ha1 Ha2]. rewrite <- E, Hk in Ha1. injection Ha1 as ->. by rewrite Ea in Ha2. }
    destruct (decide (n_ID n ∈ map n_ID U)) as [(m & E & Hm)%list_elem_of_fmap|Hnu].
    + assert (m = n) as -> by (destruct (HU m Hm) as [Hm1 _]; rewrite <- E, Hk in Hm1; by injection Hm1).
      exists (probed now (lat n) true n). rewrite Q1 by done. split; [done|]. unfold probed.
      destruct (Z.ltb_spec maxLatency (lat n)); cbn; rewrite ?Ea; split; try done; [split; [done|lia]|].
      split; [intros _; split; [lia|by right]|done].
    + exists n. rewrite Q2, P2 by done. split; [done|]. rewrite Ea. split; [|done]. split; [done|].
      intros [_ [?|Hm]]; [done|]. exfalso. apply Hnu. by apply (list_elem_of_fmap_2 n_ID).
Qed.

Lemma latency_round_witness :
  let n := mkNode 0 "a" "h1:1" 5 0 false [] [] 1 [] [] [] in
  let d := mkPeers "me" {[ "a"%string := n ]} 1 [] 0 0 None in
  exists n', d_nodes (checkLatencies 9 (map_to_list (d_nodes d)) (fun _ => 7) d) !! "a"%string = Some n' /\ n_Latency n' = 7.
Proof.
  cbn zeta. set (n := mkNode _ _ _ _ _ _ _ _ _ _ _ _). set (d := mkPeers _ _ _ _ _ _ _).
  destruct (latency_round 9 (map_to_list (d_nodes d)) (fun _ => 7) d "a" n) as (n' & H1 & H2 & H3).
  - intros k m. cbn. rewrite lookup_singleton_Some. by intros [<- <-].
  - apply range_map_to_list.
  - reflexivity.
  - exists n'. split; [exact H1|]. apply H3, H2. split; [vm_compute; discriminate|]. right. vm_compute. set_solver.
Defined.

(** ** Two consequences of the code *)

(** The time a gossiped peer was last seen is the gossiper's claim, stored as is: a
    claim in the future keeps the peer from ever being the stalest. *)
Example gossip_sets_last_seen :
  let N : NetOps := {| ParseIP := fun _ => None; IPString := fun _ => ""%string |} in
  let pi := mkPeerInfo (@DeriveNodeID toy_ops [x07]) "evil:1" [] [x07] 1 [] [] [] (10 ^ 30) in
  n_LastSeen <$> d_nodes (mergePeer (N := N) (C := toy_ops) 9 [] (mkPeers "me" ∅ 0 [] 0 0 None) pi false) !! pi_NodeID pi = Some (10 ^ 30).
Proof. vm_compute. reflexivity. Qed.

(** A first-hand update without an address, as for a peer heard by routing, erases
    the address that was known. *)
Example update_erases_address :
  let N : NetOps := {| ParseIP := fun _ => None; IPString := fun _ => ""%string |} in
  let n := mkNode 0 "a" "h1:1" 5 0 true [] [] 1 [] [] [] in
  n_Address <$> d_nodes (updateNode (N := N) 9 [] (mkPeers "me" {[ "a"%string := n ]} 1 [] 0 0 None) "a" "" [] [] 1 [] [] []) !! "a"%string
  = Some ""%string.
Proof. vm_compute. reflexivity. Qed.
