(* ===== verification/Paths.v ===== *)
(** * The announce path table and the flood filter (internal/discovery/announce.go)

    [pathTable] keeps the best known path to each destination, [dedupSet] the
    flood keys seen recently; a full table evicts what it has not seen for longest.
    [it] is the order in which a table is ranged over, [now] what [time.Now]
    returns. *)

From S2P Require Import Prelude Announce.

Definition announceHopMax : Z := 128.
Definition announceDedupTTL : Z := 300 * 1000000000.
Definition maxPaths : Z := 4096.

(** ** Paths *)

Record pathEntry : Type := mkPath {
  pe_Iface : string;
  pe_NextHop : string;
  pe_Hops : Z;                          (** uint8 *)
  pe_LastSeen : Z;
  pe_OriginTS : Z;
  pe_Ann : option AnnouncePayload
}.

Record pathTable : Type := mkPathTable { pt_entries : gmap string pathEntry; pt_max : Z }.

Definition newPathTable (max : Z) : pathTable := mkPathTable ∅ max.

Definition oldest_path (best : option (string * Z)) (e : string * pathEntry) : option (string * Z) :=
  match best with
  | None => Some (e.1, pe_LastSeen e.2)
  | Some (_, oldest) => if pe_LastSeen e.2 <? oldest then Some (e.1, pe_LastSeen e.2) else best
  end.

Definition evictOldestLocked (it : list (string * pathEntry)) (m : gmap string pathEntry) : gmap string pathEntry :=
  match fold_left oldest_path it None with
  | Some (oldestKey, _) => if negb (String.eqb oldestKey "") then delete oldestKey m else m
  | None => m
  end.

Definition path_store (it : list (string * pathEntry)) (pt : pathTable) (dest : string) (e : pathEntry) : pathTable :=
  let m := <[dest := e]> (pt_entries pt) in
  mkPathTable (if pt_max pt <? Z.of_nat (size m) then evictOldestLocked it m else m) (pt_max pt).

Definition path_update (it : list (string * pathEntry)) (pt : pathTable) (dest : string) (e : pathEntry) : pathTable * bool :=
  match pt_entries pt !! dest with
  | Some cur =>
      if pe_OriginTS e <? pe_OriginTS cur then (pt, false)
      else if (pe_OriginTS e =? pe_OriginTS cur) && (pe_Hops cur <=? pe_Hops e) then
        let cur := mkPath (pe_Iface cur) (pe_NextHop cur) (pe_Hops cur) (pe_LastSeen e) (pe_OriginTS cur) (pe_Ann cur) in
        (mkPathTable (<[dest := cur]> (pt_entries pt)) (pt_max pt), false)
      else (path_store it pt dest e, true)
  | None => (path_store it pt dest e, true)
  end.

Definition path_lookup (pt : pathTable) (dest : string) : option pathEntry := pt_entries pt !! dest.

Definition PathTo (pt : pathTable) (destHash : string) : option (string * Z) :=
  match path_lookup pt destHash with None => None | Some e => Some (pe_NextHop e, pe_Hops e) end.

(** ** Flood keys *)

Record dedupSet : Type := mkDedup { ds_seen : gmap string Z; ds_ttl : Z }.

Definition newDedupSet (ttl : Z) : dedupSet := mkDedup ∅ ttl.

Definition dedup_prune (now ttl : Z) (it : list (string * Z)) (m : gmap string Z) : gmap string Z :=
  fold_left (fun m e => if ttl <=? now - e.2 then delete e.1 m else m) it m.

Definition observe (now : Z) (it : list (string * Z)) (d : dedupSet) (key : string) : dedupSet * bool :=
  let hit := match ds_seen d !! key with Some t => now - t <? ds_ttl d | None => false end in
  if hit then (d, true)
  else
    let m := if 8192 <? Z.of_nat (size (ds_seen d)) then dedup_prune now (ds_ttl d) it (ds_seen d) else ds_seen d in
    (mkDedup (<[key := now]> m) (ds_ttl d), false).

(** ** The path table: lemmas *)

Lemma oldest_path_in it best k t :
  fold_left oldest_path it best = Some (k, t) -> best = Some (k, t) \/ k ∈ it.*1.
Proof.
  revert best. induction it as [|e it IH]; intros best H; [by left|]. cbn in H. apply IH in H as [H|H]; [|set_solver].
  destruct best as [[k0 t0]|]; cbn in H.
  - destruct (_ <? t0); [simplify_eq; right; set_solver|by left].
  - simplify_eq. right. set_solver.
Qed.

Lemma oldest_path_some it best : is_Some best \/ it <> [] -> is_Some (fold_left oldest_path it best).
Proof.
  revert best. induction it as [|e it IH]; intros best H; [by destruct H|]. cbn. apply IH. left.
  destruct best as [[k t]|]; cbn; [by destruct (_ <? t); eexists|by eexists].
Qed.

(** No empty destination, and no more entries than the cap. *)
Definition paths_ok (pt : pathTable) : Prop :=
  pt_entries pt !! ""%string = None /\ Z.of_nat (size (pt_entries pt)) <= pt_max pt /\ 0 < pt_max pt.

(** The order in which a store ranges over the table. *)
Definition store_range (pt : pathTable) (dest : string) (e : pathEntry) (it : list (string * pathEntry)) : Prop :=
  range_of (<[dest := e]> (pt_entries pt)) it.

Lemma path_store_ok it pt dest e :
  paths_ok pt -> dest <> ""%string -> store_range pt dest e it -> paths_ok (path_store it pt dest e).
Proof.
  intros (He & Hs & Hm) Hd Hr. unfold path_store, paths_ok. cbn [pt_entries pt_max].
  set (m := <[dest := e]> (pt_entries pt)).
  assert (Hm0 : m !! ""%string = None) by (unfold m; by rewrite lookup_insert_ne by congruence).
  assert (Hsz : (size m <= S (size (pt_entries pt)))%nat) by (unfold m; rewrite map_size_insert; destruct (_ !! dest); cbn; lia).
  destruct (Z.ltb_spec (pt_max pt) (Z.of_nat (size m))) as [Hgt|Hle]; [|done].
  unfold evictOldestLocked. destruct (oldest_path_some it None) as [[k t] Hk].
  { right. intros ->. unfold store_range, range_of in Hr. apply Permutation_nil_l in Hr; symmetry in Hr; apply map_to_list_empty_iff in Hr. fold m in Hr.
    rewrite Hr in Hgt. rewrite map_size_empty in Hgt. lia. }
  rewrite Hk. apply oldest_path_in in Hk as [|Hk]; [done|].
  assert (Hmk : is_Some (m !! k)).
  { apply list_elem_of_fmap in Hk as ([k' v] & -> & Hin). apply (range_elem _ _ _ _ Hr) in Hin. by eexists. }
  destruct (String.eqb_spec k "") as [->|Hne]; [by rewrite Hm0 in Hmk; destruct Hmk|]. cbn [negb].
  split_and!; [by rewrite lookup_delete_ne| |done]. rewrite map_size_delete_Some by done. lia.
Qed.

Lemma path_update_ok it pt dest e :
  paths_ok pt -> dest <> ""%string -> store_range pt dest e it -> paths_ok (path_update it pt dest e).1.
Proof.
  intros Hok Hd Hr. unfold path_update. destruct (pt_entries pt !! dest) as [cur|] eqn:E; [|by apply path_store_ok].
  destruct (_ <? _); [done|]. destruct (_ && _); [|by apply path_store_ok].
  destruct Hok as (He & Hs & Hm). split_and!; cbn; [by rewrite lookup_insert_ne by congruence| |done].
  by rewrite map_size_insert_Some by (by eexists).
Qed.

(** A sequence of updates. *)
Fixpoint path_run (pt : pathTable) (us : list (list (string * pathEntry) * string * pathEntry)) : pathTable :=
  match us with
  | [] => pt
  | (it, dest, e) :: t => path_run (path_update it pt dest e).1 t
  end.

(** [e] is at least as good as what [u] offered: a newer announce, or the same one
    over a path that is no longer. *)
Definition as_good (e u : pathEntry) : Prop :=
  pe_OriginTS u < pe_OriginTS e \/ (pe_OriginTS u = pe_OriginTS e /\ pe_Hops e <= pe_Hops u).

(** The entry's route is one that was offered. *)
Definition same_route (e u : pathEntry) : Prop :=
  pe_Iface e = pe_Iface u /\ pe_NextHop e = pe_NextHop u /\ pe_Hops e = pe_Hops u /\ pe_OriginTS e = pe_OriginTS u /\ pe_Ann e = pe_Ann u.

Definition offers (us : list (list (string * pathEntry) * string * pathEntry)) (dest : string) : list pathEntry :=
  map snd (List.filter (fun u => String.eqb (u.1.2) dest) us).

(** The table tracks the best of the offers seen so far for [dest]. *)
Definition best_of (pt : pathTable) (dest : string) (offered : list pathEntry) : Prop :=
  match pt_entries pt !! dest with
  | None => offered = []
  | Some e => (exists u, u ∈ offered /\ same_route e u) /\ forall u, u ∈ offered -> as_good e u
  end.

Lemma path_update_best it pt dest e d offered :
  Z.of_nat (size (<[dest := e]> (pt_entries pt))) <= pt_max pt -> best_of pt d offered ->
  best_of (path_update it pt dest e).1 d (if String.eqb dest d then offered ++ [e] else offered).
Proof.
  intros Hsz Hb.
  assert (Hst : path_store it pt dest e = mkPathTable (<[dest := e]> (pt_entries pt)) (pt_max pt)).
  { unfold path_store. destruct (Z.ltb_spec (pt_max pt) (Z.of_nat (size (<[dest := e]> (pt_entries pt))))); [lia|done]. }
  unfold path_update. rewrite Hst. destruct (String.eqb_spec dest d) as [->|Hne].
  - unfold best_of in *. destruct (pt_entries pt !! d) as [cur|] eqn:E.
    + destruct Hb as [(u & Hu & Hroute) Hall]. pose proof Hroute as (R1 & R2 & R3 & R4 & R5). unfold as_good in *.
      destruct (Z.ltb_spec (pe_OriginTS e) (pe_OriginTS cur)) as [Hlt|Hge]; cbn [fst].
      * rewrite E. split; [exists u; split; [rewrite elem_of_app; by left|done]|].
        intros v [Hv|Hv]%elem_of_app; [by apply Hall|]. apply list_elem_of_singleton in Hv. subst v. by left.
      * destruct ((pe_OriginTS e =? pe_OriginTS cur) && (pe_Hops cur <=? pe_Hops e)) eqn:Ec; cbn [fst pt_entries]; rewrite lookup_insert_eq.
        -- apply andb_true_iff in Ec as [E1%Z.eqb_eq E2%Z.leb_le]. cbn. split.
           ++ exists u. split; [rewrite elem_of_app; by left|]. split_and!; cbn; congruence.
           ++ intros v [Hv|Hv]%elem_of_app; [by apply Hall|]. apply list_elem_of_singleton in Hv. subst v. right. lia.
        -- split; [exists e; split; [rewrite elem_of_app; set_solver|done]|].
           assert (Hbetter : pe_OriginTS cur < pe_OriginTS e \/ (pe_OriginTS e = pe_OriginTS cur /\ pe_Hops e < pe_Hops cur)).
           { apply andb_false_iff in Ec as [E1%Z.eqb_neq|E2%Z.leb_gt]; lia. }
           intros v [Hv|Hv]%elem_of_app; [specialize (Hall v Hv); lia|]. apply list_elem_of_singleton in Hv. subst v. right. lia.
    + subst offered. cbn [fst pt_entries]. rewrite lookup_insert_eq. split; [exists e; split; [set_solver|done]|].
      intros v Hv. apply list_elem_of_singleton in Hv. subst v. right. lia.
  - assert (Hk : pt_entries (path_update it pt dest e).1 !! d = pt_entries pt !! d).
    { unfold path_update. rewrite Hst. destruct (pt_entries pt !! dest); [|cbn; by rewrite lookup_insert_ne].
      destruct (_ <? _); [done|]. destruct (_ && _); cbn; by rewrite lookup_insert_ne. }
    unfold best_of, path_update in *. rewrite Hst in Hk. by rewrite Hk.
Qed.

(** The number of entries a sequence can create. *)
Definition dests (us : list (list (string * pathEntry) * string * pathEntry)) : gset string := list_to_set (map (fun u => u.1.2) us).

(** The offers for [dest] since its entry was last created: forgotten when the entry is
    evicted. *)
Fixpoint kept (pt : pathTable) (us : list (list (string * pathEntry) * string * pathEntry)) (dest : string) (offered : list pathEntry) : list pathEntry :=
  match us with
  | [] => offered
  | (it, d, e) :: us =>
      let pt := (path_update it pt d e).1 in
      kept pt us dest (match pt_entries pt !! dest with None => [] | Some _ => if String.eqb d dest then offered ++ [e] else offered end)
  end.

Lemma evict_sub it m k x : evictOldestLocked it m !! k = Some x -> m !! k = Some x.
Proof. unfold evictOldestLocked. destruct (fold_left _ it None) as [[o t]|]; [|done]. destruct (negb _); [|done]. by intros [_ H]%lookup_delete_Some. Qed.

(** What an update leaves is what it would leave in a table without a cap. *)
Lemma path_update_uncapped it pt dest e big k x :
  Z.of_nat (size (<[dest := e]> (pt_entries pt))) <= big ->
  pt_entries (path_update it pt dest e).1 !! k = Some x -> pt_entries (path_update it (mkPathTable (pt_entries pt) big) dest e).1 !! k = Some x.
Proof.
  intros Hb. unfold path_update, path_store. cbn [pt_entries pt_max]. rewrite (proj2 (Z.ltb_ge big _)) by done.
  assert (Hst : forall (c : bool) (m : gmap string pathEntry), (if c then evictOldestLocked it m else m) !! k = Some x -> m !! k = Some x)
    by (intros [|] m; [apply evict_sub|done]).
  destruct (pt_entries pt !! dest) as [cur|]; [|apply Hst]. destruct (pe_OriginTS e <? _); [done|]. destruct (_ && _); [done|apply Hst].
Qed.

Lemma path_update_kept it pt dest e d offered :
  best_of pt d offered ->
  let pt' := (path_update it pt dest e).1 in
  best_of pt' d (match pt_entries pt' !! d with None => [] | Some _ => if String.eqb dest d then offered ++ [e] else offered end).
Proof.
  intros Hb. cbv zeta. unfold best_of at 1. destruct (pt_entries (path_update it pt dest e).1 !! d) as [x|] eqn:E; [|done].
  set (big := mkPathTable (pt_entries pt) (Z.of_nat (size (<[dest := e]> (pt_entries pt))))).
  pose proof (path_update_best it big dest e d offered ltac:(subst big; cbn; lia) Hb) as H. unfold best_of in H.
  subst big. by rewrite (path_update_uncapped it pt dest e _ d x (Z.le_refl _) E) in H.
Qed.

Lemma path_run_kept us pt dest offered : best_of pt dest offered -> best_of (path_run pt us) dest (kept pt us dest offered).
Proof. revert pt offered. induction us as [|[[it d] e] us IH]; intros pt offered Hb; [done|]. cbn [path_run kept]. apply IH. exact (path_update_kept it pt d e dest offered Hb). Qed.

(** When the destinations fit the table no offer is forgotten. *)
Lemma kept_all us pt dest offered (U : gset string) :
  dom (pt_entries pt) ⊆ U -> dests us ⊆ U -> Z.of_nat (size U) <= pt_max pt -> (pt_entries pt !! dest = None -> offered = []) ->
  kept pt us dest offered = offered ++ offers us dest.
Proof.
  revert pt offered. induction us as [|[[it d] e] us IH]; intros pt offered Hdom Hus Hsz Hb; cbn [kept].
  { unfold offers. cbn. by rewrite app_nil_r. }
  unfold dests in Hus. cbn in Hus.
  assert (Hins : dom (<[d := e]> (pt_entries pt)) ⊆ U) by (rewrite dom_insert_L; set_solver).
  assert (Hs1 : Z.of_nat (size (<[d := e]> (pt_entries pt))) <= pt_max pt).
  { rewrite <- size_dom. pose proof (subseteq_size _ _ Hins). lia. }
  assert (Hpt : dom (pt_entries (path_update it pt d e).1) ⊆ U /\ pt_max (path_update it pt d e).1 = pt_max pt /\
    (pt_entries (path_update it pt d e).1 !! dest = None -> d <> dest /\ pt_entries pt !! dest = None)).
  { assert (Hl : <[d := e]> (pt_entries pt) !! dest = None -> d <> dest /\ pt_entries pt !! dest = None) by (rewrite lookup_insert_None; tauto).
    unfold path_update, path_store. destruct (Z.ltb_spec (pt_max pt) (Z.of_nat (size (<[d := e]> (pt_entries pt))))); [lia|].
    destruct (pt_entries pt !! d) as [cur|] eqn:E; [|done].
    destruct (_ <? _); [split_and!; [done..|]; cbn; intros H'; split; [intros ->; congruence|done]|]. destruct (_ && _); cbn; [|done].
    split_and!; [rewrite dom_insert_L; set_solver|done|]. rewrite lookup_insert_None. tauto. }
  destruct Hpt as (Hp1 & Hp2 & Hp3). rewrite (IH _ _ Hp1 ltac:(unfold dests; set_solver) ltac:(lia)).
  - unfold offers. cbn [List.filter fst snd]. destruct (pt_entries (path_update it pt d e).1 !! dest) as [x|] eqn:E.
    + destruct (String.eqb_spec d dest); [|done]. cbn [map snd]. by rewrite <- app_assoc.
    + destruct (Hp3 eq_refl) as [Hne Hn]. rewrite (proj2 (String.eqb_neq _ _) Hne), (Hb Hn). done.
  - intros E. by rewrite E.
Qed.

(** The entry evicted is one not seen for longest. *)
Lemma oldest_path_least it best k t :
  fold_left oldest_path it best = Some (k, t) ->
  (best = Some (k, t) \/ exists e, (k, e) ∈ it /\ pe_LastSeen e = t) /\
  (forall k' t', best = Some (k', t') -> t <= t') /\ forall e, e ∈ it -> t <= pe_LastSeen e.2.
Proof.
  revert best. induction it as [|[k0 e0] it IH]; intros best H; cbn [fold_left] in H.
  { subst best. split_and!; [by left|intros ? ? [= <- <-]; lia|by intros ? ?%not_elem_of_nil]. }
  destruct (IH _ H) as (H1 & H2 & H3). unfold oldest_path in H1, H2. cbn [fst snd] in H1, H2. split_and!.
  - destruct H1 as [H1|(e & He & Ht)]; [|right; exists e; split; [by right|done]].
    destruct best as [[k1 t1]|]; [destruct (_ <? t1); [|by left]|]; injection H1 as <- <-; right; exists e0; (split; [left|done]).
  - intros k' t' ->. destruct (Z.ltb_spec (pe_LastSeen e0) t'); [specialize (H2 _ _ eq_refl)|specialize (H2 _ _ eq_refl)]; lia.
  - intros e [->|He]%elem_of_cons; [|by apply H3]. cbn [snd]. destruct best as [[k1 t1]|]; [|by apply (H2 k0)].
    destruct (Z.ltb_spec (pe_LastSeen e0) t1); [by apply (H2 k0)|]. specialize (H2 _ _ eq_refl). lia.
Qed.

Lemma path_update_evicts it pt d e k x :
  store_range pt d e it -> <[d := e]> (pt_entries pt) !! k = Some x -> pt_entries (path_store it pt d e) !! k = None ->
  pt_max pt < Z.of_nat (size (<[d := e]> (pt_entries pt))) /\ forall k' x', <[d := e]> (pt_entries pt) !! k' = Some x' -> pe_LastSeen x <= pe_LastSeen x'.
Proof.
  intros Hr Hk Hn. unfold path_store in Hn. cbn [pt_entries] in Hn. destruct (Z.ltb_spec (pt_max pt) (Z.of_nat (size (<[d := e]> (pt_entries pt))))) as [Hc|]; [|congruence].
  split; [done|]. unfold evictOldestLocked in Hn. destruct (fold_left oldest_path it None) as [[o t]|] eqn:Ef; [|congruence].
  destruct (negb _); [|congruence]. apply lookup_delete_None in Hn as [->|Hn]; [|congruence].
  apply oldest_path_least in Ef as (H1 & _ & H3). destruct H1 as [|(y & Hy & <-)]; [done|].
  apply (range_elem _ _ _ _ Hr) in Hy. assert (y = x) as -> by congruence. intros k' x' Hk'. apply (range_elem _ _ _ _ Hr) in Hk'. exact (H3 _ Hk').
Qed.

(** C40: The path table keeps the best path it has heard of since it last held none.
    After any sequence of announces the entry of a destination is, among the offers made
    since that entry was last created ([kept]: an eviction forgets them), a route that
    was offered, from the newest announce generation, and the shortest among those of
    that generation; while the destinations offered fit the table nothing is forgotten,
    and those are all the offers there were.  Past the cap an evicted entry is created
    anew by whatever is offered next, older or longer though it be
    ([evicted_path_recreated]).  An update only ever evicts from a full table, and then
    an entry not seen for longest; so the table stays within its cap. *)
Theorem path_table_best (us : list (list (string * pathEntry) * string * pathEntry)) (dest : string) (max : Z)
    (it : list (string * pathEntry)) (pt : pathTable) (d : string) (e : pathEntry) :
  paths_ok pt -> d <> ""%string -> store_range pt d e it ->
  best_of (path_run (newPathTable max) us) dest (kept (newPathTable max) us dest []) /\
  (Z.of_nat (size (dests us)) <= max -> kept (newPathTable max) us dest [] = offers us dest) /\
  paths_ok (path_update it pt d e).1 /\
  forall k x, pt_entries pt !! k = Some x -> pt_entries (path_update it pt d e).1 !! k = None ->
    Z.of_nat (size (pt_entries pt)) = pt_max pt /\ forall k' x', pt_entries (path_update it pt d e).1 !! k' = Some x' -> pe_LastSeen x <= pe_LastSeen x'.
Proof.
  intros Hok Hd Hr. split_and!.
  - by apply path_run_kept.
  - intros Hsz. by apply (kept_all us (newPathTable max) dest [] (dests us)); [cbn; rewrite dom_empty_L; set_solver|..].
  - by apply path_update_ok.
  - intros k x Hk. unfold path_update. destruct (pt_entries pt !! d) as [cur|] eqn:E.
    + assert (Hsz : size (<[d := e]> (pt_entries pt)) = size (pt_entries pt)) by (by rewrite map_size_insert_Some by (by eexists)).
      destruct (_ <? _); [cbn; congruence|]. destruct (_ && _); [cbn; intros [? Hn]%lookup_insert_None; congruence|]. cbn [fst pt_entries].
      unfold path_store. rewrite Hsz. destruct Hok as (_ & Hs & _). rewrite (proj2 (Z.ltb_ge _ _)) by lia. cbn. intros [? Hn]%lookup_insert_None. congruence.
    + cbn [fst]. assert (Hne : d <> k) by (intros ->; congruence).
      intros Hn. destruct (path_update_evicts it pt d e k x Hr) as [H1 H2]; [by rewrite lookup_insert_ne|done|]. rewrite map_size_insert_None in H1 by done.
      split; [destruct Hok as (_ & Hs & _); lia|]. intros k' x' Hk'. apply (H2 k'). revert Hk'. unfold path_store. cbn [pt_entries]. destruct (_ <? _); [apply evict_sub|done].
Qed.

Definition near : pathEntry := mkPath "udp0" "h1:1" 1 10 7 None.
Definition far : pathEntry := mkPath "udp0" "h2:1" 3 11 7 None.
Definition other : pathEntry := mkPath "udp0" "h3:1" 1 12 7 None.

Lemma path_table_best_witness :
  let us := [([], "n"%string, far); ([], "n"%string, near)] in
  pt_entries (path_run (newPathTable 4) us) !! "n"%string = Some near /\
  best_of (path_run (newPathTable 4) us) "n" [far; near].
Proof.
  cbv zeta. split; [vm_compute; reflexivity|].
  destruct (path_table_best [([], "n"%string, far); ([], "n"%string, near)] "n" 4 [("n"%string, far)] (newPathTable 4) "n" far) as (H1 & H2 & _).
  - split; [reflexivity|]. split; vm_compute; [discriminate|reflexivity].
  - discriminate.
  - vm_compute. reflexivity.
  - rewrite H2 in H1 by (vm_compute; discriminate). exact H1.
Defined.

(** A table of one path: offering another destination evicts the near path to [n], and
    the far one is then taken in its place. *)
Example evicted_path_recreated :
  let us := [([("n"%string, near)], "n"%string, near); ([("n"%string, near); ("m"%string, other)], "m"%string, other);
             ([("m"%string, other); ("n"%string, mkPath "udp0" "h2:1" 3 13 7 None)], "n"%string, mkPath "udp0" "h2:1" 3 13 7 None)] in
  pt_entries (path_run (newPathTable 1) us) !! "n"%string = Some (mkPath "udp0" "h2:1" 3 13 7 None) /\
  kept (newPathTable 1) us "n" [] = [mkPath "udp0" "h2:1" 3 13 7 None].
Proof. vm_compute. split; reflexivity. Qed.

(** ** Flood keys: lemmas *)

Lemma dedup_prune_sub now ttl it m k t : dedup_prune now ttl it m !! k = Some t -> m !! k = Some t.
Proof.
  unfold dedup_prune. revert m. induction it as [|e it IH]; intros m H; [done|]. cbn in H. apply IH in H.
  destruct (_ <=? _); [|done]. by apply lookup_delete_Some in H as [_ H].
Qed.

Lemma dedup_prune_keep now ttl it m k t :
  (forall k' t', (k', t') ∈ it -> k' = k -> t' = t) -> now - t < ttl -> m !! k = Some t -> dedup_prune now ttl it m !! k = Some t.
Proof.
  unfold dedup_prune. revert m. induction it as [|[k' t'] it IH]; intros m Hit Ht Hm; [done|]. cbn [fold_left fst snd].
  apply IH; [intros ? ? Hin; apply Hit; set_solver|done|]. destruct (Z.leb_spec ttl (now - t')); [|done].
  rewrite lookup_delete_ne; [done|]. intros ->. rewrite (Hit k t') in H by set_solver. lia.
Qed.

(** The filter that never forgets: the time of the last accepted observation of
    each key. *)
Fixpoint dedup_spec (ttl : Z) (last : gmap string Z) (obs : list (Z * string)) : list bool :=
  match obs with
  | [] => []
  | (now, k) :: t =>
      if match last !! k with Some t0 => now - t0 <? ttl | None => false end
      then true :: dedup_spec ttl last t
      else false :: dedup_spec ttl (<[k := now]> last) t
  end.

Section Dedup.
Context (ord : gmap string Z -> list (string * Z)).
Hypothesis ord_range : forall m, range_of m (ord m).

Fixpoint observe_run (d : dedupSet) (obs : list (Z * string)) : list bool :=
  match obs with
  | [] => []
  | (now, k) :: t => let '(d, hit) := observe now (ord (ds_seen d)) d k in hit :: observe_run d t
  end.

(** What pruning may have forgotten has expired. *)
Definition forgets (ttl now : Z) (m last : gmap string Z) : Prop :=
  forall k, m !! k = last !! k \/ (m !! k = None /\ exists t, last !! k = Some t /\ ttl <= now - t).

Lemma observe_run_spec ttl now m last obs :
  forgets ttl now m last -> StronglySorted Z.le (now :: map fst obs) ->
  observe_run (mkDedup m ttl) obs = dedup_spec ttl last obs.
Proof using ord_range.
  revert now m last. induction obs as [|[t k] obs IH]; intros now m last Hf Hs; [done|]. cbn [observe_run dedup_spec].
  inversion Hs as [|? ? Hs' Hall]; subst. cbn [map fst] in *. inversion Hall as [|? ? Hle _]; subst.
  assert (Hf' : forgets ttl t m last).
  { intros k'. destruct (Hf k') as [H|(H & t0 & H1 & H2)]; [by left|]. right. split; [done|]. exists t0. split; [done|lia]. }
  unfold observe. cbn [ds_seen ds_ttl].
  assert (Hhit : match m !! k with Some t0 => t - t0 <? ttl | None => false end =
                 match last !! k with Some t0 => t - t0 <? ttl | None => false end).
  { destruct (Hf' k) as [H|(H & t0 & H1 & H2)]; [by rewrite H|]. rewrite H, H1. symmetry. apply Z.ltb_ge. lia. }
  rewrite Hhit. destruct (match last !! k with Some t0 => t - t0 <? ttl | None => false end); f_equal; [by apply (IH t)|].
  apply (IH t); [|done]. intros k'. destruct (decide (k' = k)) as [->|Hne]; [left; by rewrite !lookup_insert_eq|].
  rewrite !lookup_insert_ne by done. destruct (8192 <? _); [|apply Hf'].
  destruct (Hf' k') as [H|(H & t0 & H1 & H2)].
  - destruct (dedup_prune t ttl (ord m) m !! k') as [t1|] eqn:E; [left; apply dedup_prune_sub in E; by rewrite <- H, E|].
    destruct (last !! k') as [t1|] eqn:El; [|by left]. right. split; [done|]. exists t1. split; [done|].
    destruct (decide (ttl <= t - t1)); [done|]. exfalso. rewrite (dedup_prune_keep t ttl (ord m) m k' t1) in E; [done| |lia|done].
    intros k2 t2 Hin ->. apply (range_elem _ _ _ _ (ord_range m)) in Hin. congruence.
  - right. split; [|by exists t0]. destruct (dedup_prune t ttl (ord m) m !! k') eqn:E; [|done].
    apply dedup_prune_sub in E. congruence.
Qed.
End Dedup.

Lemma dedup_spec_gap ttl last obs k t0 j tj :
  last !! k = Some t0 -> StronglySorted Z.le (t0 :: map fst obs) ->
  obs !! j = Some (tj, k) -> dedup_spec ttl last obs !! j = Some false -> ttl <= tj - t0.
Proof.
  revert last t0 j. induction obs as [|[t k1] obs IH]; intros last t0 j Hl Hs Hj Hr; [done|].
  cbn [map fst] in Hs. inversion Hs as [|? ? Hs' Hall]; subst. inversion Hall as [|? ? Hle Hall']; subst. cbn [dedup_spec] in Hr.
  destruct j as [|j].
  - cbn in Hj. injection Hj as -> ->. rewrite Hl in Hr. destruct (Z.ltb_spec (tj - t0) ttl); [done|lia].
  - destruct (match last !! k1 with Some t1 => t - t1 <? ttl | None => false end); cbn in Hj, Hr.
    + apply (IH last t0 j); [done| |done|done]. inversion Hs'; subst. by constructor.
    + destruct (decide (k1 = k)) as [->|Hne].
      * assert (ttl <= tj - t); [|lia]. apply (IH (<[k := t]> last) t j); [by rewrite lookup_insert_eq|done|done|done].
      * apply (IH (<[k1 := t]> last) t0 j); [by rewrite lookup_insert_ne| |done|done]. inversion Hs'; subst. by constructor.
Qed.

(** The flood filter forgets nothing that matters: its answers are those of a
    filter that remembers every key for ever; so a flood key passes at most once in
    any [ttl], and a node forwards a given announce or request no more often. *)
Theorem dedup_refines (ord : gmap string Z -> list (string * Z)) (ttl : Z) (obs : list (Z * string)) :
  (forall m, range_of m (ord m)) -> StronglySorted Z.le (map fst obs) ->
  observe_run ord (newDedupSet ttl) obs = dedup_spec ttl ∅ obs /\
  forall i j ti tj k, (i < j)%nat -> obs !! i = Some (ti, k) -> obs !! j = Some (tj, k) ->
    observe_run ord (newDedupSet ttl) obs !! i = Some false -> observe_run ord (newDedupSet ttl) obs !! j = Some false ->
    ttl <= tj - ti.
Proof.
  intros Hord Hs.
  assert (He : observe_run ord (newDedupSet ttl) obs = dedup_spec ttl ∅ obs).
  { destruct obs as [|[t k] obs]; [done|]. apply (observe_run_spec ord Hord ttl t); [by left|].
    cbn [map fst] in *. constructor; [done|]. inversion Hs; subst. by constructor. }
  split; [done|]. rewrite He. clear He. generalize (∅ : gmap string Z) as last. revert Hs.
  induction obs as [|[t k1] obs IH]; intros Hs last i j ti tj k Hij Hi Hj Hri Hrj; [done|].
  cbn [map fst] in Hs. inversion Hs as [|? ? Hs' Hall]; subst. cbn [dedup_spec] in *.
  destruct j as [|j]; [lia|]. destruct i as [|i].
  - cbn in Hi. injection Hi as -> ->. destruct (match last !! k with Some t1 => ti - t1 <? ttl | None => false end); [done|].
    cbn in Hj, Hrj. apply (dedup_spec_gap ttl (<[k := ti]> last) obs k ti j); [by rewrite lookup_insert_eq|done|done|done].
  - destruct (match last !! k1 with Some t1 => t - t1 <? ttl | None => false end); cbn in Hi, Hj, Hri, Hrj;
      (eapply IH; [done|assert (Hlt : (i < j)%nat) by lia; exact Hlt|done|done|exact Hri|exact Hrj]).
Qed.

Lemma dedup_refines_witness :
  observe_run map_to_list (newDedupSet 10) [(0, "k"%string); (5, "k"%string); (11, "k"%string)] = [false; true; false].
Proof.
  rewrite (proj1 (dedup_refines map_to_list 10 [(0, "k"%string); (5, "k"%string); (11, "k"%string)]
    (fun m => range_map_to_list m) ltac:(cbn; repeat constructor; lia))). vm_compute. reflexivity.
Defined.
