(* ===== verification/Discovery.v ===== *)
(** * Discovery: the read loop and its handlers
      (internal/discovery/discovery.go, announce.go, routed.go, dht.go)

    What a node does with a frame: announces and path requests, per-hop routed
    packets, gossip, Kademlia queries and latency checks.  A handler returns the
    new state and what it emits: frames handed to an interface, and deliveries to
    the waiting parts of the node.

    The JSON codecs are the parameter [DiscJson].  An [env] is what a handler
    takes from outside: the clock, a random nonce, the iteration orders of the
    maps, and address resolution.  The random delay before an announce is flooded
    on is not modelled, nor is a send that fails. *)

From S2P Require Import Prelude Crypto Wire Announce Net Dht PeerTable Paths.

(** ** Payloads

    [DiscoveryPayload.Version] is always the same and never read; it is left to the
    encoding. *)

Record DiscoveryPayload : Type := mkDiscovery {
  dp_NodeID : string;
  dp_Capabilities : list string;
  dp_Port : Z;
  dp_Nonce : Z;
  dp_PubKey : bytes;
  dp_SignKey : bytes;
  dp_ObservedAddr : string;
  dp_RelayIDs : list string;
  dp_MLKEMPub : bytes
}.

Record DHTContact : Type := mkDHTContact {
  dc_NodeID : string;
  dc_Address : string;
  dc_PubKey : bytes;
  dc_SignKey : bytes;
  dc_Port : Z;
  dc_MLKEMPub : bytes
}.

Record FindNodePayload : Type := mkFindNode {
  fn_NodeID : string; fn_PubKey : bytes; fn_Port : Z; fn_Target : string; fn_Nonce : Z
}.

Record FindNodeReplyPayload : Type := mkFindNodeReply {
  fr_Nonce : Z; fr_Target : string; fr_Contacts : list DHTContact
}.

Record ReachabilityPayload : Type := mkReach {
  rp_NodeID : string; rp_Nonce : Z; rp_DataPort : Z; rp_Reachable : bool
}.

Class DiscJson := {
  ann_enc : AnnouncePayload -> bytes;
  ann_dec : bytes -> option AnnouncePayload;
  preq_enc : PathRequestPayload -> bytes;
  preq_dec : bytes -> option PathRequestPayload;
  disc_enc : DiscoveryPayload -> bytes;
  disc_dec : bytes -> option DiscoveryPayload;
  px_dec : bytes -> option (list PeerInfo);
  fn_dec : bytes -> option FindNodePayload;
  fr_enc : FindNodeReplyPayload -> bytes;
  fr_dec : bytes -> option FindNodeReplyPayload;
  rp_dec : bytes -> option ReachabilityPayload
}.

(** ** State *)

Record Disc : Type := mkDisc {
  di_peers : Peers;
  di_paths : pathTable;
  di_seenAnn : dedupSet;
  di_routedSeen : dedupSet;
  di_iface : option string;            (** the primary interface, by name *)
  di_ifaces : list string;
  di_nodeIface : gmap string string;
  di_addrIface : gmap string string;
  di_pending : gmap Z string;          (** outstanding latency checks: the node probed *)
  di_observed : gmap string Z;
  di_signPriv : bytes;
  di_pubKey : bytes;
  di_mlkemPub : bytes;
  di_port : Z;
  di_capabilities : list string;
  di_relayIDs : list string
}.

Definition selfID (D : Disc) : string := d_selfID (di_peers D).

Definition set_peers (D : Disc) (p : Peers) : Disc :=
  mkDisc p (di_paths D) (di_seenAnn D) (di_routedSeen D) (di_iface D) (di_ifaces D) (di_nodeIface D) (di_addrIface D)
    (di_pending D) (di_observed D) (di_signPriv D) (di_pubKey D) (di_mlkemPub D) (di_port D) (di_capabilities D) (di_relayIDs D).
Definition set_paths (D : Disc) (p : pathTable) : Disc :=
  mkDisc (di_peers D) p (di_seenAnn D) (di_routedSeen D) (di_iface D) (di_ifaces D) (di_nodeIface D) (di_addrIface D)
    (di_pending D) (di_observed D) (di_signPriv D) (di_pubKey D) (di_mlkemPub D) (di_port D) (di_capabilities D) (di_relayIDs D).
Definition set_seenAnn (D : Disc) (s : dedupSet) : Disc :=
  mkDisc (di_peers D) (di_paths D) s (di_routedSeen D) (di_iface D) (di_ifaces D) (di_nodeIface D) (di_addrIface D)
    (di_pending D) (di_observed D) (di_signPriv D) (di_pubKey D) (di_mlkemPub D) (di_port D) (di_capabilities D) (di_relayIDs D).
Definition set_routedSeen (D : Disc) (s : dedupSet) : Disc :=
  mkDisc (di_peers D) (di_paths D) (di_seenAnn D) s (di_iface D) (di_ifaces D) (di_nodeIface D) (di_addrIface D)
    (di_pending D) (di_observed D) (di_signPriv D) (di_pubKey D) (di_mlkemPub D) (di_port D) (di_capabilities D) (di_relayIDs D).
Definition set_nodeIface (D : Disc) (m : gmap string string) : Disc :=
  mkDisc (di_peers D) (di_paths D) (di_seenAnn D) (di_routedSeen D) (di_iface D) (di_ifaces D) m (di_addrIface D)
    (di_pending D) (di_observed D) (di_signPriv D) (di_pubKey D) (di_mlkemPub D) (di_port D) (di_capabilities D) (di_relayIDs D).
Definition set_addrIface (D : Disc) (m : gmap string string) : Disc :=
  mkDisc (di_peers D) (di_paths D) (di_seenAnn D) (di_routedSeen D) (di_iface D) (di_ifaces D) (di_nodeIface D) m
    (di_pending D) (di_observed D) (di_signPriv D) (di_pubKey D) (di_mlkemPub D) (di_port D) (di_capabilities D) (di_relayIDs D).
Definition set_observed (D : Disc) (m : gmap string Z) : Disc :=
  mkDisc (di_peers D) (di_paths D) (di_seenAnn D) (di_routedSeen D) (di_iface D) (di_ifaces D) (di_nodeIface D) (di_addrIface D)
    (di_pending D) m (di_signPriv D) (di_pubKey D) (di_mlkemPub D) (di_port D) (di_capabilities D) (di_relayIDs D).

(** What a handler takes from outside. *)
Record env : Type := mkEnv {
  e_now : Z;
  e_nowStr : bytes;
  e_rand : Z;
  e_ord : gmap string Node -> list (string * Node);
  e_pord : gmap string pathEntry -> list (string * pathEntry);
  e_sord : gmap string Z -> list (string * Z);
  e_resolve : string -> option string      (** [net.ResolveUDPAddr], printed back *)
}.

(** What a handler emits. *)
Inductive out : Type :=
| OSend (i addr : string) (frame : bytes)
| ORouted (inner : bytes) (origin : string)           (** [onRouted] *)
| OLink (addr : string) (pkt : Packet)                (** [linkMgr.Deliver]; the manager exists if there is a signing key *)
| OLatency (nonce : Z)                                (** the arrival, to the waiting probe *)
| OLookup (nonce : Z) (contacts : list DHTContact)
| ODialBack (addr : string) (p : ReachabilityPayload)
| OReach (nonce : Z) (reachable : bool).

(** [pkt.SourceNode = s] and [pkt.Payload = b]. *)
Definition set_source (s : string) (p : Packet) : Packet :=
  mkPacket (p_ID p) (p_Type p) (p_Timestamp p) s (p_DestGroup p) (p_DestNode p)
    (p_TotalChunks p) (p_ChunkNumber p) (p_SubIndex p) (p_SubTotal p) (p_Streaming p)
    (p_BlockIndex p) (p_BlockLen p) (p_Final p) (p_HybridSealed p) (p_PQ p) (p_Resumable p)
    (p_DataShards p) (p_ParityShards p) (p_OriginalLen p) (p_Variable p) (p_ReplyBlock p)
    (p_Decoy p) (p_Pad p) (p_PayloadSize p) (p_Payload p) (p_SignerKey p) (p_Signature p).
Definition set_payload (b : bytes) (p : Packet) : Packet :=
  mkPacket (p_ID p) (p_Type p) (p_Timestamp p) (p_SourceNode p) (p_DestGroup p) (p_DestNode p)
    (p_TotalChunks p) (p_ChunkNumber p) (p_SubIndex p) (p_SubTotal p) (p_Streaming p)
    (p_BlockIndex p) (p_BlockLen p) (p_Final p) (p_HybridSealed p) (p_PQ p) (p_Resumable p)
    (p_DataShards p) (p_ParityShards p) (p_OriginalLen p) (p_Variable p) (p_ReplyBlock p)
    (p_Decoy p) (p_Pad p) (p_PayloadSize p) b (p_SignerKey p) (p_Signature p).

Definition requestHopMax : Z := 128.
Definition announceFanout : Z := 12.
Definition defaultRoutedHopLimit : Z := 16.

Fixpoint u64hex_loop (i : nat) (n : Z) (buf : bytes) : bytes :=
  match i with
  | O => buf
  | S i => u64hex_loop i (Z.shiftr n 4) (hexdigit (Z.land n 15) :: buf)
  end.
Definition u64hex (n : Z) : string := bytes_str (u64hex_loop 16 n []).

(** ** Interfaces *)

Definition rememberIface (D : Disc) (nodeID src : string) : Disc :=
  if String.eqb nodeID "" then D else set_nodeIface D (<[nodeID := src]> (di_nodeIface D)).

Definition rememberAddrIface (D : Disc) (addr src : string) : Disc :=
  if String.eqb addr "" then D else set_addrIface D (<[addr := src]> (di_addrIface D)).

Definition ifaceFor (D : Disc) (nodeID : string) : option string :=
  match di_nodeIface D !! nodeID with Some i => Some i | None => di_iface D end.

Definition send_on (i : option string) (addr : string) (b : bytes) : list out :=
  match i with Some i => [OSend i addr b] | None => [] end.

Definition ifaceName (i : option string) : string := match i with Some n => n | None => ""%string end.

Definition floodFrame (D : Disc) (b : bytes) : list out := map (fun i => OSend i "" b) (di_ifaces D).

(** The peers a direct flood is also unicast to. *)
Definition flood_targets (it : list (string * Node)) : list (string * string) :=
  fold_left (fun targets e =>
    let n := e.2 in
    if announceFanout <=? len targets then targets
    else if n_Active n && negb (String.eqb (n_Address n) "") then targets ++ [(n_ID n, n_Address n)] else targets) it [].

Definition floodFrameDirect (e : env) (D : Disc) (b : bytes) : list out :=
  floodFrame D b ++
  concat (map (fun t => send_on (ifaceFor D t.1) t.2 b) (flood_targets (e_ord e (d_nodes (di_peers D))))).

Definition isTransport (D : Disc) : bool := existsb (String.eqb "relay") (di_capabilities D).

Section Discovery.
Context `{N : NetOps} `{C : CryptoOps} `{J : DiscJson}.

(** A packet of this node, signed. *)
Definition signed_packet (e : env) (D : Disc) (typ : Z) (data : bytes) (dest : string) : Packet :=
  Sign (di_signPriv D) (set_source (selfID D) (NewPacket (e_now e) (e_nowStr e) typ data "ANY" dest)).

(** ** Announces *)

Definition buildSelfAnnounce (e : env) (D : Disc) : option AnnouncePayload :=
  if (len (di_signPriv D) =? 0) || String.eqb (selfID D) "" then None
  else Some (a_Sign (di_signPriv D)
    (mkAnnounce (selfID D) [] (di_pubKey D) (di_mlkemPub D) (di_port D) (di_capabilities D) (di_relayIDs D) []
       (e_now e) (e_rand e) 0 [])).

Definition sendAnnounceMode (e : env) (D : Disc) (ap : AnnouncePayload) (direct : bool) : list out :=
  match di_iface D with
  | None => []
  | Some _ =>
      let b := MarshalBinary (signed_packet e D PacketTypeAnnounce (ann_enc ap) "") in
      if direct then floodFrameDirect e D b else floodFrame D b
  end.

Definition announceSelf (e : env) (D : Disc) : list out :=
  match di_iface D with
  | None => []
  | Some _ => match buildSelfAnnounce e D with Some ap => sendAnnounceMode e D ap true | None => [] end
  end.

(** Also returned: whether the announce was stored. *)
Definition handleAnnounce (e : env) (D : Disc) (remoteAddr src : string) (pkt : Packet) : Disc * list out * bool :=
  match ann_dec (p_Payload pkt) with
  | None => (D, [], false)
  | Some ap =>
      if String.eqb (a_DestHash ap) (selfID D) || negb (VerifyBound ap) then (D, [], false)
      else
        let D := rememberIface D (a_DestHash ap) src in
        let '(s, hit) := observe (e_now e) (e_sord e (ds_seen (di_seenAnn D))) (di_seenAnn D)
                           (a_DestHash ap ++ ":" ++ u64hex (a_Nonce ap))%string in
        let D := set_seenAnn D s in
        if hit then (D, [], false)
        else
          let it := e_ord e (d_nodes (di_peers D)) in
          let D := set_peers D
            (if a_HopCount ap =? 0
             then updateNode (e_now e) it (di_peers D) (a_DestHash ap) remoteAddr (a_PubKey ap) (a_SignKey ap) (a_Port ap)
                    (a_Capabilities ap) (a_RelayIDs ap) (a_MLKEMPub ap)
             else learnCandidate (e_now e) it (di_peers D) (a_DestHash ap) remoteAddr (a_PubKey ap) (a_SignKey ap) (a_Port ap)
                    (a_Capabilities ap) (a_RelayIDs ap) (a_MLKEMPub ap)) in
          let pe := mkPath (ifaceName (di_iface D)) remoteAddr (a_HopCount ap) (e_now e) (a_Timestamp ap) (Some ap) in
          let '(paths, stored) := path_update (e_pord e (<[a_DestHash ap := pe]> (pt_entries (di_paths D)))) (di_paths D) (a_DestHash ap) pe in
          let D := set_paths D paths in
          if stored && isTransport D && (a_HopCount ap + 1 <=? announceHopMax)
          then (D, sendAnnounceMode e D (set_hop_count (u8 (a_HopCount ap + 1)) ap) false, stored)
          else (D, [], stored)
  end.

Definition sendPathRequest (e : env) (D : Disc) (pr : PathRequestPayload) : list out :=
  match di_iface D with
  | None => []
  | Some _ =>
      if len (di_signPriv D) =? 0 then []
      else floodFrameDirect e D (MarshalBinary (signed_packet e D PacketTypePathRequest (preq_enc pr) ""))
  end.

Definition RequestPath (e : env) (D : Disc) (destHash : string) : list out :=
  sendPathRequest e D (mkPathRequest destHash (e_rand e) 0).

(** Also returned: the announce answered with, and whether the request went on. *)
Definition handlePathRequest (e : env) (D : Disc) (pkt : Packet) : Disc * list out * (option AnnouncePayload * bool) :=
  match preq_dec (p_Payload pkt) with
  | None => (D, [], (None, false))
  | Some pr =>
      if String.eqb (pr_DestHash pr) "" then (D, [], (None, false))
      else
        let '(s, hit) := observe (e_now e) (e_sord e (ds_seen (di_seenAnn D))) (di_seenAnn D)
                           ("REQ:" ++ pr_DestHash pr ++ ":" ++ u64hex (pr_Nonce pr))%string in
        let D := set_seenAnn D s in
        if hit then (D, [], (None, false))
        else if String.eqb (pr_DestHash pr) (selfID D) then
          match buildSelfAnnounce e D with
          | Some ap => (D, sendAnnounceMode e D ap true, (Some ap, false))
          | None => (D, [], (None, false))
          end
        else
          let forward :=
            if isTransport D && (pr_HopCount pr + 1 <=? requestHopMax)
            then (D, sendPathRequest e D (mkPathRequest (pr_DestHash pr) (pr_Nonce pr) (u8 (pr_HopCount pr + 1))), (None, true))
            else (D, [], (None, false)) in
          match path_lookup (di_paths D) (pr_DestHash pr) with
          | Some pe =>
              match pe_Ann pe with
              | Some ann =>
                  let resp := set_hop_count (u8 (pe_Hops pe + 1)) ann in
                  (D, sendAnnounceMode e D resp true, (Some resp, false))
              | None => forward
              end
          | None => forward
          end
  end.

(** ** Per-hop routing *)

Definition routeToward (D : Disc) (destHash : string) (pkt : Packet) : list out * bool :=
  match path_lookup (di_paths D) destHash with
  | None => ([], false)
  | Some pe =>
      if String.eqb (pe_NextHop pe) "" then ([], false)
      else
        match match di_addrIface D !! pe_NextHop pe with Some i => Some i | None => di_iface D end with
        | None => ([], false)
        | Some i => ([OSend i (pe_NextHop pe) (MarshalBinary pkt)], true)
        end
  end.

Definition SendRouted_packet (e : env) (D : Disc) (typ : Z) (destHash : string) (inner : bytes) (hopLimit : Z) : Packet :=
  let hopLimit := if hopLimit =? 0 then defaultRoutedHopLimit else hopLimit in
  set_source (selfID D) (NewPacket (e_now e) (e_nowStr e) typ (EncodeRouted hopLimit inner) "" destHash).

Definition SendRouted (e : env) (D : Disc) (destHash : string) (inner : bytes) (hopLimit : Z) : list out * bool :=
  routeToward D destHash (SendRouted_packet e D PacketTypeRouted destHash inner hopLimit).

Definition SendRoutedDiscovery (e : env) (D : Disc) (destHash : string) (signed : bytes) (hopLimit : Z) : list out * bool :=
  routeToward D destHash (SendRouted_packet e D PacketTypeRoutedDiscovery destHash signed hopLimit).

(** [pkt.Payload[0]--]. *)
Definition dec_hop (pkt : Packet) : Packet :=
  match p_Payload pkt with
  | [] => pkt
  | b :: t => set_payload (byte_of_Z (byte_to_Z b - 1) :: t) pkt
  end.

Definition handleRouted (e : env) (D : Disc) (pkt : Packet) : Disc * list out :=
  let '(s, hit) := observe (e_now e) (e_sord e (ds_seen (di_routedSeen D))) (di_routedSeen D) (EncodeToString (p_ID pkt)) in
  let D := set_routedSeen D s in
  if hit then (D, [])
  else if String.eqb (p_DestNode pkt) (selfID D) then (D, [ORouted (RoutedInner (p_Payload pkt)) (p_SourceNode pkt)])
  else if negb (isTransport D) then (D, [])
  else if RoutedHopLimit (p_Payload pkt) <=? 1 then (D, [])
  else (D, (routeToward D (p_DestNode pkt) (dec_hop pkt)).1).

Definition sendRoutedLatencyReply (e : env) (D : Disc) (nodeID : string) (nonce : Z) : list out :=
  let data := disc_enc (mkDiscovery (selfID D) [] 0 nonce [] [] "" [] []) in
  (SendRoutedDiscovery e D nodeID (MarshalBinary (signed_packet e D PacketTypeLatencyReply data nodeID)) 0).1.

Definition resolveLatency (D : Disc) (nonce : Z) (signer : string) : list out :=
  match di_pending D !! nonce with
  | Some nodeID => if String.eqb nodeID signer then [OLatency nonce] else []
  | None => []
  end.

Definition deliverRoutedDiscovery (e : env) (D : Disc) (ip : Packet) (from src : string) : Disc * list out :=
  if negb (Verify ip) then (D, [])
  else
    let signer := SignerID ip in
    if String.eqb signer "" || String.eqb signer (selfID D) || negb (String.eqb (p_SourceNode ip) signer) then (D, [])
    else
      match disc_dec (p_Payload ip) with
      | None => (D, [])
      | Some payload =>
          if negb (String.eqb (dp_NodeID payload) signer) then (D, [])
          else
            let D := rememberIface D signer src in
            let pe := mkPath src from 1 (e_now e) (p_Timestamp ip) None in
            let D := set_paths D (path_update (e_pord e (<[signer := pe]> (pt_entries (di_paths D)))) (di_paths D) signer pe).1 in
            if p_Type ip =? PacketTypeLatencyCheck then (D, sendRoutedLatencyReply e D signer (dp_Nonce payload))
            else if p_Type ip =? PacketTypeLatencyReply then (D, resolveLatency D (dp_Nonce payload) signer)
            else if p_Type ip =? PacketTypeDiscovery then
              (set_peers D (updateNode (e_now e) (e_ord e (d_nodes (di_peers D))) (di_peers D) signer "" (dp_PubKey payload)
                 (p_SignerKey ip) (dp_Port payload) (dp_Capabilities payload) (dp_RelayIDs payload) (dp_MLKEMPub payload)), [])
            else (D, [])
      end.

Definition handleRoutedDiscovery (e : env) (D : Disc) (pkt : Packet) (from src : string) : Disc * list out :=
  let '(s, hit) := observe (e_now e) (e_sord e (ds_seen (di_routedSeen D))) (di_routedSeen D) (EncodeToString (p_ID pkt)) in
  let D := set_routedSeen D s in
  if hit then (D, [])
  else if String.eqb (p_DestNode pkt) (selfID D) then
    match UnmarshalBinary (RoutedInner (p_Payload pkt)) with
    | Err _ => (D, [])
    | Ok ip => deliverRoutedDiscovery e D ip from src
    end
  else if negb (isTransport D) then (D, [])
  else if RoutedHopLimit (p_Payload pkt) <=? 1 then (D, [])
  else (D, (routeToward D (p_DestNode pkt) (dec_hop pkt)).1).

(** ** Kademlia queries *)

Definition find_contacts (D : Disc) (fn : FindNodePayload) (closest : list Contact) : list DHTContact :=
  concat (map (fun c =>
    let hexID := ID_String (c_ID c) in
    if String.eqb hexID (fn_NodeID fn) then []
    else
      match d_nodes (di_peers D) !! hexID with
      | Some n => [mkDHTContact hexID (c_Address c) (n_PubKey n) (n_SignKey n)
                     (if negb (n_Port n =? 0) then n_Port n else c_Port c) (n_MLKEMPub n)]
      | None => [mkDHTContact hexID (c_Address c) [] [] (c_Port c) []]
      end) closest).

(** [sendJSON]. *)
Definition sendJSON (e : env) (D : Disc) (nodeID addr : string) (typ : Z) (data : bytes) : list out :=
  send_on (ifaceFor D nodeID) addr (MarshalBinary (signed_packet e D typ data "")).

Definition handleFindNode (e : env) (D : Disc) (addr : string) (fn : FindNodePayload) : list out :=
  match d_rt (di_peers D) with
  | None => []
  | Some rt =>
      match ParseID (fn_Target fn) with
      | Err _ => []
      | Ok target =>
          sendJSON e D (fn_NodeID fn) addr PacketTypeFindNodeReply
            (fr_enc (mkFindNodeReply (fn_Nonce fn) (fn_Target fn) (find_contacts D fn (Closest rt target DefaultK))))
      end
  end.

Fixpoint learnContacts (e : env) (D : Disc) (contacts : list DHTContact) : Disc :=
  match contacts with
  | [] => D
  | c :: t =>
      let D :=
        if String.eqb (dc_NodeID c) "" || String.eqb (dc_NodeID c) (selfID D) || (len (dc_SignKey c) =? 0) then D
        else if negb (String.eqb (DeriveNodeID (dc_SignKey c)) (dc_NodeID c)) then D
        else set_peers D (learnCandidate (e_now e) (e_ord e (d_nodes (di_peers D))) (di_peers D) (dc_NodeID c) (dc_Address c)
               (dc_PubKey c) (dc_SignKey c) (dc_Port c) [] [] (dc_MLKEMPub c)) in
      learnContacts e D t
  end.

Definition handleFindNodeReply (e : env) (D : Disc) (fr : FindNodeReplyPayload) : Disc * list out :=
  (learnContacts e D (fr_Contacts fr), [OLookup (fr_Nonce fr) (fr_Contacts fr)]).

(** ** The read loop *)

(** The peers of a gossip message; each merge ranges over the table it finds. *)
Fixpoint merge_gossip (e : env) (D : Disc) (gossiper : string) (selfAttested : bool) (i : Z) (peers : list PeerInfo) : Disc :=
  match peers with
  | [] => D
  | pi :: t =>
      if maxGossipAccept <=? i then D
      else
        let D := set_peers D (mergePeer (e_now e) (e_ord e (d_nodes (di_peers D))) (di_peers D) pi
                                (selfAttested && String.eqb (pi_NodeID pi) gossiper)) in
        merge_gossip e D gossiper selfAttested (i + 1) t
  end.

Definition recordObserved (D : Disc) (addr : string) : Disc :=
  match SplitHostPort addr with
  | None => D
  | Some (host, _) =>
      if String.eqb host "" then D
      else set_observed D (<[host := default 0 (di_observed D !! host) + 1]> (di_observed D))
  end.

Definition sendLatencyReply (e : env) (D : Disc) (nodeID addr : string) (nonce : Z) : list out :=
  sendJSON e D nodeID addr PacketTypeLatencyReply (disc_enc (mkDiscovery (selfID D) [] 0 nonce [] [] addr [] [])).

(** A discovery packet, a latency check or a latency reply. *)
Definition handleDirect (e : env) (D : Disc) (remoteAddr : string) (pkt : Packet) (payload : DiscoveryPayload) : Disc * list out :=
  let signerID := SignerID pkt in
  let bound := String.eqb (dp_NodeID payload) signerID && String.eqb (p_SourceNode pkt) signerID in
  let learn := updateNode (e_now e) (e_ord e (d_nodes (di_peers D))) (di_peers D) (dp_NodeID payload) remoteAddr (dp_PubKey payload)
                 (p_SignerKey pkt) (dp_Port payload) (dp_Capabilities payload) (dp_RelayIDs payload) (dp_MLKEMPub payload) in
  if p_Type pkt =? PacketTypeDiscovery then
    if negb bound then (D, []) else (set_peers D learn, [])
  else if p_Type pkt =? PacketTypeLatencyCheck then
    if negb bound then (D, [])
    else let D := set_peers D learn in (D, sendLatencyReply e D (dp_NodeID payload) remoteAddr (dp_Nonce payload))
  else if p_Type pkt =? PacketTypeLatencyReply then
    let D := if negb (String.eqb (dp_ObservedAddr payload) "") then recordObserved D (dp_ObservedAddr payload) else D in
    (D, resolveLatency D (dp_Nonce payload) signerID)
  else (D, []).

(** What happens to a packet whose signature was checked. *)
Definition handleSigned (e : env) (D : Disc) (remoteAddr src : string) (pkt : Packet) : Disc * list out :=
  let signerID := SignerID pkt in
  if p_Type pkt =? PacketTypePeerExchange then
    match px_dec (p_Payload pkt) with
    | None => (D, [])
    | Some peers =>
        let selfAttested := negb (String.eqb signerID "") && String.eqb (p_SourceNode pkt) signerID in
        (merge_gossip e D signerID selfAttested 0 peers, [])
    end
  else if p_Type pkt =? PacketTypeFindNode then
    match fn_dec (p_Payload pkt) with
    | None => (D, [])
    | Some fn =>
        if negb (String.eqb (fn_NodeID fn) signerID) || negb (String.eqb (p_SourceNode pkt) signerID) then (D, [])
        else
          let D := set_peers D (updateNode (e_now e) (e_ord e (d_nodes (di_peers D))) (di_peers D) (fn_NodeID fn) remoteAddr
                     (fn_PubKey fn) (p_SignerKey pkt) (fn_Port fn) [] [] []) in
          (D, handleFindNode e D remoteAddr fn)
    end
  else if p_Type pkt =? PacketTypeFindNodeReply then
    match fr_dec (p_Payload pkt) with None => (D, []) | Some fr => handleFindNodeReply e D fr end
  else if p_Type pkt =? PacketTypeAnnounce then (handleAnnounce e D remoteAddr src pkt).1
  else if p_Type pkt =? PacketTypePathRequest then (handlePathRequest e D pkt).1
  else if p_Type pkt =? PacketTypeReachabilityCheck then
    match rp_dec (p_Payload pkt) with None => (D, []) | Some rp => (D, [ODialBack remoteAddr rp]) end
  else if p_Type pkt =? PacketTypeReachabilityResult then
    match rp_dec (p_Payload pkt) with None => (D, []) | Some rp => (D, [OReach (rp_Nonce rp) (rp_Reachable rp)]) end
  else
    match disc_dec (p_Payload pkt) with None => (D, []) | Some payload => handleDirect e D remoteAddr pkt payload end.

(** One frame, read on interface [src]. *)
Definition listen (e : env) (D : Disc) (frameAddr src : string) (data : bytes) : Disc * list out :=
  match e_resolve e frameAddr with
  | None => (D, [])
  | Some remoteAddr =>
      match UnmarshalBinary data with
      | Err _ => (D, [])
      | Ok pkt =>
          let D := rememberAddrIface D frameAddr src in
          if (p_Type pkt =? PacketTypeLinkRequest) || (p_Type pkt =? PacketTypeLinkProof) || (p_Type pkt =? PacketTypeLinkData)
          then (D, if len (di_signPriv D) =? ed_PrivateKeySize then [OLink remoteAddr pkt] else [])
          else if p_Type pkt =? PacketTypeRoutedDiscovery then handleRoutedDiscovery e D pkt remoteAddr src
          else if p_Type pkt =? PacketTypeRouted then handleRouted e D pkt
          else if negb (Verify pkt) then (D, [])
          else handleSigned e (rememberIface D (SignerID pkt) src) remoteAddr src pkt
      end
  end.
End Discovery.

(** ** Identity *)

Section Identity.
Context `{N : NetOps} `{C : CryptoOps} `{J : DiscJson}.

(** A frame carries a signature by the key of node [id]: on the packet, on the
    discovery packet routed inside it, or on an announce straight from its origin. *)
Inductive authenticated (data : bytes) (id : string) : Prop :=
| au_packet pkt : UnmarshalBinary data = Ok pkt -> Verify pkt = true -> SignerID pkt = id -> authenticated data id
| au_routed pkt ip : UnmarshalBinary data = Ok pkt -> p_Type pkt = PacketTypeRoutedDiscovery ->
    UnmarshalBinary (RoutedInner (p_Payload pkt)) = Ok ip -> Verify ip = true -> SignerID ip = id -> authenticated data id
| au_announce pkt ap : UnmarshalBinary data = Ok pkt -> p_Type pkt = PacketTypeAnnounce -> ann_dec (p_Payload pkt) = Some ap ->
    VerifyBound ap = true -> a_HopCount ap = 0 -> a_DestHash ap = id -> authenticated data id.

(** The operations on the peer table a frame leads to. *)
Inductive peer_step (auth : string -> Prop) (d : Peers) : Peers -> Prop :=
| ps_update now it id addr pk sk port caps rel ml :
    DeriveNodeID sk = id -> auth id -> peer_step auth d (updateNode now it d id addr pk sk port caps rel ml)
| ps_learn now it id addr pk sk port caps rel ml :
    DeriveNodeID sk = id -> peer_step auth d (learnCandidate now it d id addr pk sk port caps rel ml)
| ps_merge now it pi att : peer_step auth d (mergePeer now it d pi att).

Lemma VerifyBound_id ap : VerifyBound ap = true -> DeriveNodeID (a_SignKey ap) = a_DestHash ap.
Proof using Type. unfold VerifyBound. intros [[_ H]%andb_true_iff _]%andb_true_iff. by apply String.eqb_eq. Qed.

Lemma rememberIface_peers D id src : di_peers (rememberIface D id src) = di_peers D.
Proof using Type. unfold rememberIface. by destruct (String.eqb id ""). Qed.

Lemma handleAnnounce_steps e D addr src pkt (auth : string -> Prop) :
  (forall ap, ann_dec (p_Payload pkt) = Some ap -> VerifyBound ap = true -> a_HopCount ap = 0 -> auth (a_DestHash ap)) ->
  rtc (peer_step auth) (di_peers D) (di_peers (handleAnnounce e D addr src pkt).1.1).
Proof using Type.
  intros Hauth. unfold handleAnnounce. destruct (ann_dec (p_Payload pkt)) as [ap|]; [|by apply rtc_refl].
  destruct (String.eqb _ _) eqn:Es; cbn [orb]; [by apply rtc_refl|]. destruct (VerifyBound ap) eqn:Ev; cbn [negb]; [|by apply rtc_refl].
  destruct (observe _ _ _ _) as [s hit]. destruct hit; cbn [fst]; [cbn; by rewrite rememberIface_peers|].
  destruct (path_update _ _ _ _) as [paths stored].
  assert (Hs : forall b : bool, rtc (peer_step auth) (di_peers D)
    (if a_HopCount ap =? 0
     then updateNode (e_now e) (e_ord e (d_nodes (di_peers D))) (di_peers D) (a_DestHash ap) addr (a_PubKey ap) (a_SignKey ap) (a_Port ap)
            (a_Capabilities ap) (a_RelayIDs ap) (a_MLKEMPub ap)
     else learnCandidate (e_now e) (e_ord e (d_nodes (di_peers D))) (di_peers D) (a_DestHash ap) addr (a_PubKey ap) (a_SignKey ap) (a_Port ap)
            (a_Capabilities ap) (a_RelayIDs ap) (a_MLKEMPub ap))).
  { intros _. apply rtc_once. destruct (Z.eqb_spec (a_HopCount ap) 0); [apply ps_update|apply ps_learn]; auto using VerifyBound_id. }
  destruct (_ && _); cbn [fst set_paths set_peers set_seenAnn di_peers]; rewrite !rememberIface_peers; apply (Hs true).
Qed.

Lemma handlePathRequest_peers e D pkt : di_peers (handlePathRequest e D pkt).1.1 = di_peers D.
Proof using Type.
  unfold handlePathRequest. destruct (preq_dec _) as [pr|]; [|done]. destruct (String.eqb _ ""); [done|].
  destruct (observe _ _ _ _) as [s hit]. destruct hit; [done|]. destruct (String.eqb _ _); [by destruct (buildSelfAnnounce _ _)|].
  destruct (path_lookup _ _) as [pe|]; [destruct (pe_Ann pe); [done|]|]; by destruct (_ && _).
Qed.

Lemma learnContacts_steps e D l auth : rtc (peer_step auth) (di_peers D) (di_peers (learnContacts e D l)).
Proof using Type.
  revert D. induction l as [|c l IH]; intros D; [by apply rtc_refl|]. cbn [learnContacts].
  destruct (_ || _); [apply IH|]. destruct (String.eqb_spec (DeriveNodeID (dc_SignKey c)) (dc_NodeID c)); cbn [negb]; [|apply IH].
  eapply rtc_l; [|apply IH]. by apply ps_learn.
Qed.

Lemma merge_gossip_steps e D g att i l auth : rtc (peer_step auth) (di_peers D) (di_peers (merge_gossip e D g att i l)).
Proof using Type.
  revert D i. induction l as [|pi l IH]; intros D i; [by apply rtc_refl|]. cbn [merge_gossip].
  destruct (_ <=? i); [by apply rtc_refl|]. eapply rtc_l; [|apply IH]. apply ps_merge.
Qed.

Lemma handleDirect_steps e D addr pkt payload (auth : string -> Prop) :
  auth (SignerID pkt) -> rtc (peer_step auth) (di_peers D) (di_peers (handleDirect e D addr pkt payload).1).
Proof using Type.
  intros Ha. unfold handleDirect.
  assert (Hu : String.eqb (dp_NodeID payload) (SignerID pkt) && String.eqb (p_SourceNode pkt) (SignerID pkt) = true ->
    rtc (peer_step auth) (di_peers D) (updateNode (e_now e) (e_ord e (d_nodes (di_peers D))) (di_peers D) (dp_NodeID payload) addr (dp_PubKey payload)
      (p_SignerKey pkt) (dp_Port payload) (dp_Capabilities payload) (dp_RelayIDs payload) (dp_MLKEMPub payload))).
  { intros [Hn%String.eqb_eq _]%andb_true_iff. apply rtc_once. rewrite Hn. by apply ps_update. }
  destruct (_ && _); cbn [negb]; (destruct (_ =? _); [|destruct (_ =? _); [|destruct (_ =? _)]]);
    cbn [fst set_peers di_peers]; try (by apply rtc_refl); try (by apply Hu).
  all: destruct (String.eqb (dp_ObservedAddr payload) ""); cbn [negb]; [by apply rtc_refl|].
  all: unfold recordObserved; destruct (SplitHostPort _) as [[h p]|]; [|by apply rtc_refl]; destruct (String.eqb h ""); by apply rtc_refl.
Qed.

Lemma handleSigned_steps e D addr src pkt data (Hu : UnmarshalBinary data = Ok pkt) (Hv : Verify pkt = true) :
  rtc (peer_step (authenticated data)) (di_peers D) (di_peers (handleSigned e D addr src pkt).1).
Proof using Type.
  assert (Ha : authenticated data (SignerID pkt)) by by eapply au_packet.
  unfold handleSigned. destruct (_ =? _); [destruct (px_dec _); [apply merge_gossip_steps|by apply rtc_refl]|].
  destruct (_ =? _).
  { destruct (fn_dec _) as [fn|]; [|by apply rtc_refl].
    destruct (String.eqb_spec (fn_NodeID fn) (SignerID pkt)) as [E|]; cbn [negb orb]; [|by apply rtc_refl].
    destruct (String.eqb _ _); cbn [negb]; [|by apply rtc_refl]. cbn [fst set_peers di_peers]. apply rtc_once. rewrite E. by apply ps_update. }
  destruct (_ =? _); [destruct (fr_dec _); [apply learnContacts_steps|by apply rtc_refl]|].
  destruct (Z.eqb_spec (p_Type pkt) PacketTypeAnnounce).
  { apply handleAnnounce_steps. intros ap H1 H2 H3. by eapply au_announce. }
  destruct (_ =? _); [rewrite handlePathRequest_peers; by apply rtc_refl|].
  destruct (_ =? _); [destruct (rp_dec _); by apply rtc_refl|]. destruct (_ =? _); [destruct (rp_dec _); by apply rtc_refl|].
  destruct (disc_dec _); [by apply handleDirect_steps|by apply rtc_refl].
Qed.

Lemma deliverRoutedDiscovery_steps e D ip from src (auth : string -> Prop) :
  (Verify ip = true -> auth (SignerID ip)) ->
  rtc (peer_step auth) (di_peers D) (di_peers (deliverRoutedDiscovery e D ip from src).1).
Proof using Type.
  intros Ha. unfold deliverRoutedDiscovery. destruct (Verify ip); cbn [negb]; [|by apply rtc_refl].
  destruct (_ || _); [by apply rtc_refl|]. destruct (disc_dec _) as [payload|]; [|by apply rtc_refl].
  destruct (negb _); [by apply rtc_refl|]. specialize (Ha eq_refl).
  destruct (_ =? _); [|destruct (_ =? _); [|destruct (_ =? _)]]; cbn [fst set_peers set_paths di_peers]; rewrite !rememberIface_peers; try by apply rtc_refl.
  apply rtc_once. by apply ps_update.
Qed.

Lemma listen_steps e D a src data :
  rtc (peer_step (authenticated data)) (di_peers D) (di_peers (listen e D a src data).1).
Proof using Type.
  unfold listen. destruct (e_resolve e a) as [addr|]; [|by apply rtc_refl]. destruct (UnmarshalBinary data) as [pkt|] eqn:Hu; [|by apply rtc_refl].
  assert (Hr : di_peers (rememberAddrIface D a src) = di_peers D) by (unfold rememberAddrIface; by destruct (String.eqb a "")).
  rewrite <- Hr. set (D1 := rememberAddrIface D a src). clearbody D1. clear Hr.
  destruct (_ || _); [by apply rtc_refl|]. destruct (Z.eqb_spec (p_Type pkt) PacketTypeRoutedDiscovery).
  { unfold handleRoutedDiscovery. destruct (observe _ _ _ _) as [s hit]. destruct hit; [by apply rtc_refl|].
    destruct (String.eqb _ _).
    - destruct (UnmarshalBinary (RoutedInner _)) as [ip|] eqn:Ei; [|by apply rtc_refl].
      apply (deliverRoutedDiscovery_steps e (set_routedSeen D1 s)). intros Hv. by eapply au_routed.
    - destruct (negb _); [by apply rtc_refl|]. destruct (_ <=? 1); by apply rtc_refl. }
  destruct (_ =? _).
  { unfold handleRouted. destruct (observe _ _ _ _) as [s hit]. destruct hit; [by apply rtc_refl|]. destruct (String.eqb _ _); [by apply rtc_refl|].
    destruct (negb _); [by apply rtc_refl|]. destruct (_ <=? 1); by apply rtc_refl. }
  destruct (Verify pkt) eqn:Hv; cbn [negb]; [|by apply rtc_refl].
  rewrite <- (rememberIface_peers D1 (SignerID pkt) src). by apply handleSigned_steps.
Qed.

(** Every entry is filed under the identity derived from its signing key. *)
Definition key_bound (p : Peers) : Prop :=
  forall k n, d_nodes p !! k = Some n -> n_ID n = k /\ DeriveNodeID (n_SignKey n) = k.

Lemma upsert_bound now it d id addr pk sk port caps rel ml v :
  DeriveNodeID sk = id -> key_bound d -> key_bound (upsertNode now it d id addr pk sk port caps rel ml v).
Proof using Type.
  intros Hid Hb k n' [Hk|[(-> & n & Hn & ->)|(-> & _ & ptr & ->)]]%upsert_entry; [by apply Hb| |done].
  destruct (Hb _ _ Hn) as [H1 H2]. cbn. split; [done|]. by destruct (nonempty sk).
Qed.

Lemma merge_bound now it d pi att : key_bound d -> key_bound (mergePeer now it d pi att).
Proof using Type.
  intros Hb k n' [Hk|(-> & Hid & [(n & Hn & ->)|(Hn & ptr & ls & ->)])]%merge_entry; [by apply Hb| |done].
  destruct (Hb _ _ Hn) as [H1 H2]. cbn. split; [done|]. by destruct (nonempty (pi_SignKey pi)).
Qed.

Lemma peer_step_bound auth d d' : peer_step auth d d' -> key_bound d -> key_bound d'.
Proof using Type. intros [ | | ]; [by apply upsert_bound|by apply upsert_bound|by apply merge_bound]. Qed.

(** The entries that are active. *)
Definition active (p : Peers) (k : string) : Prop := exists n, d_nodes p !! k = Some n /\ n_Active n = true.

Lemma steps_active auth d d' k : rtc (peer_step auth) d d' -> active d' k -> auth k \/ active d k.
Proof using Type.
  induction 1 as [d|d d1 d2 Hstep _ IH]; [by right|]. intros Ha. destruct (IH Ha) as [|(n' & Hn' & Ha')]; [by left|].
  destruct Hstep as [now it id addr pk sk port caps rel ml Hid Hau|now it id addr pk sk port caps rel ml Hid|now it pi att].
  - apply upsert_entry in Hn' as [Hk|[(-> & _)|(-> & _)]]; [right; by exists n'|by left|by left].
  - right. apply upsert_entry in Hn' as [Hk|[(-> & n & Hn & ->)|(-> & _ & ptr & ->)]]; [by exists n'|by exists n|done].
  - right. apply merge_entry in Hn' as [Hk|(-> & _ & [(n & Hn & ->)|(_ & ptr & ls & ->)])]; [by exists n'|by exists n|done].
Qed.

(** A sequence of frames, each with its environment, source address and interface. *)
Fixpoint listen_all (D : Disc) (frames : list (env * string * string * bytes)) : Disc :=
  match frames with
  | [] => D
  | (e, a, src, data) :: t => listen_all (listen e D a src data).1 t
  end.

(** No identity can be forged: whatever frames arrive, from anyone, in any
    order, every peer in the table is filed under the identity derived from its
    signing key, and a peer is active only if it was before or if one of the
    frames carries a signature that verifies under the key of that identity. *)
Theorem identity_safety (D : Disc) (frames : list (env * string * string * bytes)) :
  key_bound (di_peers D) ->
  key_bound (di_peers (listen_all D frames)) /\
  forall k, active (di_peers (listen_all D frames)) k ->
    active (di_peers D) k \/ exists f, f ∈ frames /\ authenticated f.2 k.
Proof using Type.
  revert D. induction frames as [|[[[e a] src] data] frames IH]; intros D Hb; cbn [listen_all]; [split; [done|by left]|].
  pose proof (listen_steps e D a src data) as Hs. destruct (IH (listen e D a src data).1) as [H1 H2].
  { clear -Hs Hb. induction Hs as [|x y z Hxy _ IH]; [done|]. by apply IH, (peer_step_bound _ _ _ Hxy). }
  split; [done|]. intros k Hk. destruct (H2 k Hk) as [Ha|(f & Hf & Hau)]; [|right; exists f; split; [set_solver|done]].
  destruct (steps_active _ _ _ k Hs Ha) as [Hau|]; [|by left]. right. exists (e, a, src, data). split; [set_solver|done].
Qed.
End Identity.

(** ** Per-hop delivery *)

Section Routed.
Context `{N : NetOps} `{C : CryptoOps} `{L : !CryptoLaws C} `{J : DiscJson}.

(** The nodes a routed frame passes, each with the address and interface the frame
    arrives on; what the last of them delivers. *)
Fixpoint relay_chain (nodes : list (env * Disc * string * string)) (frame : bytes) : option (bytes * string) :=
  match nodes with
  | [] => None
  | (e, D, a, src) :: t =>
      match (listen e D a src frame).2 with
      | [ORouted inner origin] => Some (inner, origin)
      | [OSend _ _ b] => relay_chain t b
      | _ => None
      end
  end.

(** The node reads the frame and has not seen the packet. *)
Definition fresh_for (id : bytes) (n : env * Disc * string * string) : Prop :=
  let '(e, D, a, src) := n in
  is_Some (e_resolve e a) /\ ds_seen (di_routedSeen D) !! EncodeToString id = None.

(** A transport with a path to [dest]. *)
Definition forwards (dest : string) (n : env * Disc * string * string) : Prop :=
  let '(e, D, a, src) := n in
  selfID D <> dest /\ isTransport D = true /\ is_Some (di_iface D) /\
  exists pe, path_lookup (di_paths D) dest = Some pe /\ pe_NextHop pe <> ""%string.

Definition destination (dest : string) (n : env * Disc * string * string) : Prop :=
  let '(e, D, a, src) := n in selfID D = dest.

Lemma observe_fresh now it d k : ds_seen d !! k = None -> (observe now it d k).2 = false.
Proof using Type. intros H. unfold observe. by rewrite H. Qed.

Lemma routeToward_known D dest pkt :
  is_Some (di_iface D) -> (exists pe, path_lookup (di_paths D) dest = Some pe /\ pe_NextHop pe <> ""%string) ->
  exists i a, routeToward D dest pkt = ([OSend i a (MarshalBinary pkt)], true).
Proof using Type.
  intros [i Hi] (pe & Hp & Hn). unfold routeToward. rewrite Hp. apply String.eqb_neq in Hn. rewrite Hn.
  destruct (di_addrIface D !! pe_NextHop pe); [eauto|]. rewrite Hi. eauto.
Qed.

(** One node of the chain, on a routed packet it has not seen. *)
Lemma listen_routed e D a src pkt :
  wf_packet pkt -> p_Type pkt = PacketTypeRouted -> fresh_for (p_ID pkt) (e, D, a, src) ->
  (destination (p_DestNode pkt) (e, D, a, src) ->
     (listen e D a src (MarshalBinary pkt)).2 = [ORouted (RoutedInner (p_Payload pkt)) (p_SourceNode pkt)]) /\
  (forwards (p_DestNode pkt) (e, D, a, src) ->
     if RoutedHopLimit (p_Payload pkt) <=? 1 then (listen e D a src (MarshalBinary pkt)).2 = []
     else exists i b, (listen e D a src (MarshalBinary pkt)).2 = [OSend i b (MarshalBinary (dec_hop pkt))]).
Proof using Type.
  intros Hwf Ht [[addr Hr] Hseen]. unfold listen. rewrite Hr.
  pose proof (UnmarshalBinary_reads _ pkt [] (unmarshal_body_reads pkt Hwf)) as Hu. rewrite app_nil_r in Hu. rewrite Hu, Ht.
  set (D1 := rememberAddrIface D a src).
  assert (HD : di_routedSeen D1 = di_routedSeen D /\ di_peers D1 = di_peers D /\ di_paths D1 = di_paths D /\ di_iface D1 = di_iface D /\
               di_capabilities D1 = di_capabilities D) by (unfold D1, rememberAddrIface; by destruct (String.eqb a "")).
  destruct HD as (H1 & H2 & H3 & H4 & H5). cbn [Z.eqb Pos.eqb orb PacketTypeRouted PacketTypeLinkRequest PacketTypeLinkProof PacketTypeLinkData PacketTypeRoutedDiscovery].
  unfold handleRouted. pose proof (observe_fresh (e_now e) (e_sord e (ds_seen (di_routedSeen D1))) (di_routedSeen D1) (EncodeToString (p_ID pkt))) as Ho.
  rewrite <- H1 in Hseen. specialize (Ho Hseen). destruct (observe _ _ _ _) as [s hit]. cbn [snd] in Ho. subst hit.
  unfold selfID, isTransport. cbn [set_routedSeen di_peers di_capabilities]. rewrite H2, H5. split.
  - intros Hd. unfold destination, selfID in Hd. rewrite Hd, String.eqb_refl. done.
  - intros (Hne & Htr & Hi & Hp). unfold selfID, isTransport in *. destruct (String.eqb_spec (p_DestNode pkt) (d_selfID (di_peers D))); [congruence|].
    rewrite Htr. cbn [negb]. destruct (_ <=? 1); [done|].
    destruct (routeToward_known (set_routedSeen D1 s) (p_DestNode pkt) (dec_hop pkt)) as (i & b & Hro);
      [cbn; by rewrite H4|cbn; by rewrite H3|]. rewrite Hro. by exists i, b.
Qed.

Lemma dec_hop_wf pkt : wf_packet pkt -> wf_packet (dec_hop pkt).
Proof using Type.
  intros H. unfold dec_hop. destruct (p_Payload pkt) as [|b t] eqn:E; [done|]. destruct H. split; cbn; try done.
  rewrite E in *. done.
Qed.

Lemma relay_chain_delivers nodes final pkt h inner :
  wf_packet pkt -> p_Type pkt = PacketTypeRouted -> p_Payload pkt = EncodeRouted h inner -> 1 <= h <= 255 ->
  Forall (fresh_for (p_ID pkt)) (nodes ++ [final]) -> Forall (forwards (p_DestNode pkt)) nodes -> destination (p_DestNode pkt) final ->
  relay_chain (nodes ++ [final]) (MarshalBinary pkt) = if len nodes <? h then Some (inner, p_SourceNode pkt) else None.
Proof using Type.
  revert pkt h. induction nodes as [|[[[e D] a] src] nodes IH]; intros pkt h Hwf Ht Hp Hh Hfr Hfw Hd; cbn [app relay_chain].
  - destruct final as [[[e D] a] src]. inversion Hfr as [|? ? Hf _]; subst.
    destruct (listen_routed e D a src pkt Hwf Ht Hf) as [H _]. rewrite (H Hd), Hp. rewrite len_nil. destruct (Z.ltb_spec 0 h); [done|lia].
  - cbn [app] in Hfr. inversion Hfr as [|? ? Hf Hfr']; subst. inversion Hfw as [|? ? Hw Hfw']; subst.
    destruct (listen_routed e D a src pkt Hwf Ht Hf) as [_ H]. specialize (H Hw).
    assert (Hl : RoutedHopLimit (p_Payload pkt) = h) by (rewrite Hp; cbn; rewrite byte_to_of_Z, Z.mod_small; lia).
    rewrite Hl in H. rewrite len_cons. pose proof (len_nonneg nodes). destruct (Z.leb_spec h 1).
    + rewrite H. destruct (Z.ltb_spec (len nodes + 1) h); [lia|done].
    + destruct H as (i & b & ->).
      assert (Hdec : dec_hop pkt = set_payload (EncodeRouted (h - 1) inner) pkt).
      { unfold dec_hop. rewrite Hp. cbn [EncodeRouted app]. do 2 f_equal. rewrite byte_to_of_Z, Z.mod_small by lia. done. }
      rewrite Hdec. rewrite (IH (set_payload (EncodeRouted (h - 1) inner) pkt) (h - 1)); try done; [|by rewrite <- Hdec; apply dec_hop_wf|lia].
      cbn [p_SourceNode set_payload]. destruct (Z.ltb_spec (len nodes) (h - 1)), (Z.ltb_spec (len nodes + 1) h); try done; lia.
Qed.

(** C37: Per-hop routing delivers: a packet sent towards a destination through any
    chain of transports that know a path to it reaches the destination with its
    content and its claimed origin unchanged if the chain is shorter than the hop
    limit, and is dropped on the way otherwise. *)
Theorem routed_delivery (e : env) (D : Disc) (dest : string) (inner : bytes) (hopLimit : Z)
    (nodes : list (env * Disc * string * string)) (final : env * Disc * string * string) :
  let pkt := SendRouted_packet e D PacketTypeRouted dest inner hopLimit in
  let h := if hopLimit =? 0 then defaultRoutedHopLimit else hopLimit in
  is_i64 (e_now e) -> is_u8 hopLimit -> is_u32 (len inner + 1) -> is_u32 (len (str_bytes (selfID D))) -> is_u32 (len (str_bytes dest)) ->
  is_Some (di_iface D) -> (exists pe, path_lookup (di_paths D) dest = Some pe /\ pe_NextHop pe <> ""%string) ->
  Forall (fresh_for (p_ID pkt)) (nodes ++ [final]) -> Forall (forwards dest) nodes -> destination dest final ->
  exists i a frame, SendRouted e D dest inner hopLimit = ([OSend i a frame], true) /\
    relay_chain (nodes ++ [final]) frame = if len nodes <? h then Some (inner, selfID D) else None.
Proof using L.
  intros pkt h Hnow Hh8 Hin Hself Hdest Hi Hp Hfr Hfw Hd. unfold SendRouted.
  destruct (routeToward_known D dest pkt Hi Hp) as (i & a & Hro). exists i, a, (MarshalBinary pkt). split; [exact Hro|].
  assert (Hh : 1 <= h <= 255) by (unfold h, defaultRoutedHopLimit, is_u8 in *; destruct (Z.eqb_spec hopLimit 0); lia).
  apply (relay_chain_delivers nodes final pkt h inner); try done.
  assert (Hid : length (p_ID pkt) = 32%nat).
  { pose proof (sha256_len (([] ++ EncodeRouted h inner) ++ e_nowStr e)) as Hsha. unfold len in Hsha.
    change (p_ID pkt) with (sha256 (([] ++ EncodeRouted h inner) ++ e_nowStr e)). lia. }
  assert (Hl : is_u32 (len (EncodeRouted h inner))) by (unfold EncodeRouted; rewrite len_app; cbn [len length]; unfold is_u32, len in *; cbn [length]; lia).
  split; [done|..]; cbn -[u32 len str_bytes EncodeRouted]; try done; apply u32_is_u32.
Qed.
End Routed.

(** ** Witnesses *)

#[local] Instance sample_net : NetOps := {| ParseIP := fun _ => None; IPString := fun _ => ""%string |}.
#[local] Instance sample_json : DiscJson := {|
  ann_enc _ := []; ann_dec _ := None; preq_enc _ := []; preq_dec _ := None; disc_enc _ := []; disc_dec _ := None;
  px_dec _ := None; fn_dec _ := None; fr_enc _ := []; fr_dec _ := None; rp_dec _ := None |}.

Definition sample_env : env := mkEnv 0 [] 0 map_to_list map_to_list map_to_list Some.

(** A node with one path: to [dest], by way of [hop]. *)
Definition sample_disc (self dest hop : string) : Disc :=
  mkDisc (mkPeers self ∅ 0 [] 0 0 None) (mkPathTable {[ dest := mkPath "udp0" hop 1 0 0 None ]} 8) (newDedupSet 10) (newDedupSet 10)
    (Some "udp0"%string) ["udp0"%string] ∅ ∅ ∅ ∅ [] [] [] 1 ["relay"%string] [].

Lemma identity_safety_witness :
  key_bound (C := toy_ops) (di_peers (listen_all (C := toy_ops) (sample_disc "a" "c" "b:1") [(sample_env, "x:1"%string, "udp0"%string, [x01])])).
Proof.
  apply (identity_safety (C := toy_ops) (sample_disc "a" "c" "b:1") [(sample_env, "x:1"%string, "udp0"%string, [x01])]).
  intros k n Hk. cbn in Hk. by rewrite lookup_empty in Hk.
Defined.

Lemma routed_delivery_witness :
  exists i a frame,
    SendRouted (C := toy_ops) sample_env (sample_disc "a" "c" "b:1") "c" [x07; x08] 2 = ([OSend i a frame], true) /\
    relay_chain (C := toy_ops) [(sample_env, sample_disc "b" "c" "c:1", "a:1"%string, "udp0"%string);
                                (sample_env, sample_disc "c" "a" "b:1", "b:1"%string, "udp0"%string)] frame = Some ([x07; x08], "a"%string).
Proof.
  apply (routed_delivery (C := toy_ops) (L := toy_laws) sample_env (sample_disc "a" "c" "b:1") "c" [x07; x08] 2
    [(sample_env, sample_disc "b" "c" "c:1", "a:1"%string, "udp0"%string)] (sample_env, sample_disc "c" "a" "b:1", "b:1"%string, "udp0"%string)).
  - vm_compute; split; [discriminate|reflexivity].
  - vm_compute; split; [discriminate|reflexivity].
  - vm_compute; split; [discriminate|reflexivity].
  - vm_compute; split; [discriminate|reflexivity].
  - vm_compute; split; [discriminate|reflexivity].
  - by eexists.
  - exists (mkPath "udp0" "b:1" 1 0 0 None). split; [reflexivity|discriminate].
  - repeat constructor; cbn; try (by eexists); reflexivity.
  - apply Forall_singleton. split_and!; [discriminate|reflexivity|by eexists|]. exists (mkPath "udp0" "c:1" 1 0 0 None). split; [reflexivity|discriminate].
  - reflexivity.
Defined.

(** The hop count of an answer to a path request is one byte: a cached path of 255
    hops is answered with hop count 0, which the receiver takes for a direct
    announce. *)
Example path_answer_wraps :
  let J : DiscJson := {|
    ann_enc _ := []; ann_dec _ := None; preq_enc _ := []; preq_dec _ := Some (mkPathRequest "c" 1 0); disc_enc _ := []; disc_dec _ := None;
    px_dec _ := None; fn_dec _ := None; fr_enc _ := []; fr_dec _ := None; rp_dec _ := None |} in
  let D := sample_disc "a" "z" "b:1" in
  let D := set_paths D (mkPathTable {[ "c"%string := mkPath "udp0" "b:1" 255 0 0 (Some (mkAnnounce "c" [] [] [] 1 [] [] [] 0 0 255 [])) ]} 8) in
  option_map a_HopCount (handlePathRequest (C := toy_ops) (J := J) sample_env D sample_packet).2.1 = Some 0.
Proof. vm_compute. reflexivity. Qed.
