(* ===== verification/Reach.v ===== *)
(** * Reachability verdicts (internal/discovery/reachability.go)

    One AutoNAT round: the dial-back results received before the round ends, and
    the verdict drawn from them.  A round's events are what its [select] returns in
    turn. *)

From S2P Require Import Prelude.

Definition reachMinResponders : Z := 2.
Definition reachSoloRounds : Z := 3.

Record Reach : Type := mkReachState {
  r_known : bool;
  r_reachable : bool;
  r_solo : Z                 (** [soloFailures] *)
}.

(** Also returned: the calls of the change callback. *)
Definition setReachable (r : Reach) (reachable : bool) : Reach * list bool :=
  let changed := negb (r_known r) || negb (Bool.eqb (r_reachable r) reachable) in
  (mkReachState true reachable (r_solo r), if changed then [reachable] else []).

Definition set_solo (r : Reach) (n : Z) : Reach := mkReachState (r_known r) (r_reachable r) n.

Definition concludeRound (r : Reach) (responses : Z) (reachable : bool) : Reach * list bool :=
  if reachable then setReachable (set_solo r 0) true
  else if reachMinResponders <=? responses then setReachable (set_solo r 0) false
  else if responses =? 0 then (r, [])
  else
    let r := set_solo r (r_solo r + 1) in
    if reachSoloRounds <=? r_solo r then setReachable r false else (r, []).

Inductive reach_event : Type := EvResult (ok : bool) | EvTimeout | EvDone.

(** The collection loop; [None] is the early return on [ctx.Done]. *)
Fixpoint collect (peers : Z) (responses : Z) (reachable : bool) (evs : list reach_event) : option (Z * bool) :=
  if negb (responses <? peers) then Some (responses, reachable)
  else
    match evs with
    | [] => None
    | EvResult ok :: t => if ok then Some (responses + 1, true) else collect peers (responses + 1) reachable t
    | EvTimeout :: _ => Some (peers, reachable)
    | EvDone :: _ => None
    end.

Definition checkReachability (r : Reach) (dataPort peers : Z) (evs : list reach_event) : Reach * list bool :=
  if (dataPort =? 0) || (peers =? 0) then (r, [])
  else
    match collect peers 0 false evs with
    | None => (r, [])
    | Some (responses, reachable) => concludeRound r responses reachable
    end.

Lemma collect_false_results peers k n tail :
  0 <= k -> k + Z.of_nat n < peers ->
  collect peers k false (repeat (EvResult false) n ++ tail) = collect peers (k + Z.of_nat n) false tail.
Proof.
  revert k. induction n as [|n IH]; intros k Hk Hn; [cbn [repeat app]; by rewrite Z.add_0_r|]. cbn [repeat app collect].
  destruct (Z.ltb_spec k peers); [|lia]. cbn [negb]. rewrite IH by lia. f_equal. lia.
Qed.

Lemma collect_true peers k evs n b :
  collect peers k false evs = Some (n, b) -> b = true -> EvResult true ∈ evs.
Proof.
  revert k. induction evs as [|ev evs IH]; intros k; cbn [collect]; destruct (negb (k <? peers)); try (intros; simplify_eq; done).
  destruct ev as [ok| |]; [|intros; simplify_eq; done|done]. destruct ok; [set_solver|]. intros H Hb. apply IH in H; [set_solver|done].
Qed.

(** A round concludes that the node is reachable exactly when a peer it asked
    connected back: one success settles it, and no round without a success ever
    turns the verdict to reachable. *)
Theorem reach_verdict r dataPort peers evs n tail :
  dataPort <> 0 -> Z.of_nat n < peers ->
  r_reachable (checkReachability r dataPort peers (repeat (EvResult false) n ++ EvResult true :: tail)).1 = true /\
  (r_reachable r = false -> r_reachable (checkReachability r dataPort peers evs).1 = true -> EvResult true ∈ evs).
Proof.
  intros Hp Hn. unfold checkReachability. apply Z.eqb_neq in Hp. rewrite Hp. destruct (Z.eqb_spec peers 0); [lia|]. cbn [orb]. split.
  - rewrite collect_false_results by lia. cbn [collect]. destruct (Z.ltb_spec (0 + Z.of_nat n) peers); [|lia]. done.
  - intros Hr. destruct (collect peers 0 false evs) as [[responses b]|] eqn:E; [|cbn [fst]; congruence]. destruct b; [intros _; by eapply collect_true|].
    unfold concludeRound. destruct (_ <=? responses); [done|]. destruct (responses =? 0); [cbn [fst]; congruence|].
    destruct (_ <=? _); cbn; [done|congruence].
Qed.

Lemma reach_verdict_witness :
  r_reachable (checkReachability (mkReachState false false 0) 80 3 [EvResult false; EvResult true]).1 = true.
Proof. apply (reach_verdict (mkReachState false false 0) 80 3 [] 1 []); [discriminate|lia]. Defined.

(** A round of two or more peers in which nobody answers concludes that the node is
    unreachable: the timeout counts every peer as a response. *)
Example silence_is_unreachable :
  (checkReachability (mkReachState true true 0) 80 2 [EvTimeout]) = (mkReachState true false 0, [false]).
Proof. reflexivity. Qed.
