(* ===== verification/Pieces.v ===== *)
(** * Pieces of fragments on the wire
      (internal/transfer/transfer.go, anonymity.go, streaming.go)

    What whole transfers and streams share: the fragmentation scheme a packet
    carries, cutting a fragment into wire pieces and packing them into (padded)
    packets, absorbing the pieces that arrive back into fragments, choosing the
    sealer and its opener, and reassembly from Reed-Solomon shards.

    A call that would panic in Go is the outcome [RPanic]. *)

From S2P Require Import Prelude Crypto Wire Encryption Fragment PeerTable.

Record scheme : Type := mkScheme {
  sc_DataShards : Z;
  sc_ParityShards : Z;
  sc_OriginalLen : Z;
  sc_Variable : bool;
  sc_Streaming : bool;
  sc_HybridSealed : bool;
  sc_PQ : bool;
  sc_Resumable : bool
}.

(** What the transfer service was configured with. *)
Record TransferConfig : Type := mkTransferConfig {
  tc_sealer : option Sealer;
  tc_nodePriv : option bytes;
  tc_mlkemDecap : option bytes;
  tc_dataShards : Z;
  tc_parityShards : Z;
  tc_sealToRecipient : bool;
  tc_postQuantum : bool
}.

Definition schemeFromPacket (p : Packet) : scheme :=
  mkScheme (p_DataShards p) (p_ParityShards p) (p_OriginalLen p) (p_Variable p) (p_Streaming p) (p_HybridSealed p)
    (p_PQ p) (p_Resumable p).

Definition applyScheme (sc : scheme) (p : Packet) : Packet :=
  mkPacket (p_ID p) (p_Type p) (p_Timestamp p) (p_SourceNode p) (p_DestGroup p) (p_DestNode p)
    (p_TotalChunks p) (p_ChunkNumber p) (p_SubIndex p) (p_SubTotal p) (sc_Streaming sc)
    (p_BlockIndex p) (p_BlockLen p) (p_Final p) (sc_HybridSealed sc) (sc_PQ sc) (sc_Resumable sc)
    (sc_DataShards sc) (sc_ParityShards sc) (sc_OriginalLen sc) (sc_Variable sc) (p_ReplyBlock p)
    (p_Decoy p) (p_Pad p) (p_PayloadSize p) (p_Payload p) (p_SignerKey p) (p_Signature p).

(** ** Fragments and pieces *)

Definition set_piece (f : Fragment) (subIndex subTotal : Z) (payload : bytes) : Fragment :=
  mkFragment (f_TransferID f) (f_Index f) (f_Total f) payload subIndex subTotal (f_Streaming f) (f_BlockIndex f)
    (f_BlockLen f) (f_Final f).

Definition fragmentPieces (frag : Fragment) (subChunkSize : Z) : list Fragment :=
  if (subChunkSize <=? 0) || (len (f_Payload frag) <=? subChunkSize) then [set_piece frag 0 1 (f_Payload frag)]
  else
    let parts := Split (f_Payload frag) subChunkSize in
    imap (fun i p => set_piece frag (u32 (Z.of_nat i)) (u32 (len parts)) p) parts.

(** ** Packets *)

Definition stampStreaming (pkt : Packet) (frag : Fragment) : Packet :=
  mkPacket (p_ID pkt) (p_Type pkt) (p_Timestamp pkt) (p_SourceNode pkt) (p_DestGroup pkt) (p_DestNode pkt)
    (p_TotalChunks pkt) (p_ChunkNumber pkt) (p_SubIndex pkt) (p_SubTotal pkt) (f_Streaming frag)
    (f_BlockIndex frag) (f_BlockLen frag) (f_Final frag) (p_HybridSealed pkt) (p_PQ pkt) (p_Resumable pkt)
    (p_DataShards pkt) (p_ParityShards pkt) (p_OriginalLen pkt) (p_Variable pkt) (p_ReplyBlock pkt)
    (p_Decoy pkt) (p_Pad pkt) (p_PayloadSize pkt) (p_Payload pkt) (p_SignerKey pkt) (p_Signature pkt).

(** [MarshalBinary] of a packet never fails. *)
Definition marshaledLen (pkt : Packet) : Z := len (MarshalBinary pkt).

Definition padPacket (padCell : Z) (pkt : Packet) : Packet :=
  if padCell <=? 0 then pkt
  else
    let pkt := set_pad [] pkt in
    let base := marshaledLen pkt in
    let rem := base mod padCell in
    if rem =? 0 then pkt else set_pad (repeat x00 (Z.to_nat (padCell - rem))) pkt.

(** The assignments of identity and position to a fresh packet. *)
Definition set_position (id : bytes) (sourceNode : string) (frag : Fragment) (pkt : Packet) : Packet :=
  mkPacket id (p_Type pkt) (p_Timestamp pkt) sourceNode (p_DestGroup pkt) (p_DestNode pkt)
    (f_Total frag) (f_Index frag) (f_SubIndex frag) (f_SubTotal frag) (p_Streaming pkt)
    (p_BlockIndex pkt) (p_BlockLen pkt) (p_Final pkt) (p_HybridSealed pkt) (p_PQ pkt) (p_Resumable pkt)
    (p_DataShards pkt) (p_ParityShards pkt) (p_OriginalLen pkt) (p_Variable pkt) (p_ReplyBlock pkt)
    (p_Decoy pkt) (p_Pad pkt) (p_PayloadSize pkt) (p_Payload pkt) (p_SignerKey pkt) (p_Signature pkt).

Definition set_replyBlock (rb : bytes) (pkt : Packet) : Packet :=
  mkPacket (p_ID pkt) (p_Type pkt) (p_Timestamp pkt) (p_SourceNode pkt) (p_DestGroup pkt) (p_DestNode pkt)
    (p_TotalChunks pkt) (p_ChunkNumber pkt) (p_SubIndex pkt) (p_SubTotal pkt) (p_Streaming pkt)
    (p_BlockIndex pkt) (p_BlockLen pkt) (p_Final pkt) (p_HybridSealed pkt) (p_PQ pkt) (p_Resumable pkt)
    (p_DataShards pkt) (p_ParityShards pkt) (p_OriginalLen pkt) (p_Variable pkt) rb
    (p_Decoy pkt) (p_Pad pkt) (p_PayloadSize pkt) (p_Payload pkt) (p_SignerKey pkt) (p_Signature pkt).

(** The packet of [buildInnerFragment], before it is marshaled; [now] and [nowStr]
    are the clock reading of [NewPacket]. *)
Definition innerPacket `{C : CryptoOps} (padCell now : Z) (nowStr id : bytes) (destID sourceNode : string)
    (frag : Fragment) (sc : scheme) (replyBlock : bytes) : Packet :=
  let pkt := NewPacket now nowStr PacketTypeData (f_Payload frag) "" destID in
  let pkt := set_position id sourceNode frag pkt in
  let pkt := stampStreaming pkt frag in
  let pkt := set_replyBlock replyBlock pkt in
  let pkt := applyScheme sc pkt in
  padPacket padCell pkt.

Definition buildInnerFragment `{C : CryptoOps} (padCell now : Z) (nowStr id : bytes) (destID sourceNode : string)
    (frag : Fragment) (sc : scheme) (replyBlock : bytes) : bytes :=
  MarshalBinary (innerPacket padCell now nowStr id destID sourceNode frag sc replyBlock).

(** ** Pieces to fragments *)

(** The concatenation loop: [parts[i]] of an absent key is nil. *)
Definition join_parts (parts : gmap Z bytes) (total : Z) : bytes :=
  fold_left (fun buf i => buf ++ default [] (parts !! i)) (seqZ 0 total) [].

(** The logical index is [pkt.ChunkNumber]; returned are the new buffers and the
    complete payload, if there is one. *)
Definition absorbSubChunk (received : gmap Z bool) (subParts : gmap Z (gmap Z bytes)) (pkt : Packet) :
    gmap Z (gmap Z bytes) * option bytes :=
  let idx := p_ChunkNumber pkt in
  if default false (received !! idx) then (subParts, None)
  else if p_SubTotal pkt <=? 1 then (subParts, Some (p_Payload pkt))
  else if p_SubTotal pkt <=? p_SubIndex pkt then (subParts, None)
  else
    let parts := default ∅ (subParts !! idx) in
    let parts := match parts !! p_SubIndex pkt with Some _ => parts | None => <[p_SubIndex pkt := p_Payload pkt]> parts end in
    if u32 (Z.of_nat (size parts)) <? p_SubTotal pkt then (<[idx := parts]> subParts, None)
    else (delete idx subParts, Some (join_parts parts (p_SubTotal pkt))).

(** ** Sealers *)

Section Sealers.
Context `{C : CryptoOps}.

(** [dest] is [None] for a nil node (a broadcast). *)
Definition contentSealer (t : TransferConfig) (dest : option Node) : option Sealer * bool * bool :=
  match dest with
  | None => (tc_sealer t, false, false)
  | Some dest =>
      if negb (tc_sealToRecipient t) || (len (n_PubKey dest) =? 0) then (tc_sealer t, false, false)
      else if negb (x_valid_pub (n_PubKey dest)) then (tc_sealer t, false, false)
      else if tc_postQuantum t && (0 <? len (n_MLKEMPub dest)) && ml_valid_pub (n_MLKEMPub dest)
      then (Some (NewPQHybridSealer (Some (n_PubKey dest)) (Some (n_MLKEMPub dest)) None None), true, true)
      else (Some (NewHybridSealer (Some (n_PubKey dest)) None), true, false)
  end.

Definition recipientOpener (t : TransferConfig) (sc : scheme) : option Sealer :=
  if sc_HybridSealed sc then
    if sc_PQ sc then Some (NewPQHybridSealer None None (tc_nodePriv t) (tc_mlkemDecap t))
    else Some (NewHybridSealer None (tc_nodePriv t))
  else tc_sealer t.
End Sealers.

(** ** Shards to data *)

Inductive reasm : Type := RData (data : bytes) | RFail | RPanic.

Section Shards.
Context `{R : RSOps}.

(** An [RSReassembler] fed the shards [it] in the order in which the map of chunks
    is ranged over, the errors of [Add] ignored.  A nil sealer is only called for a
    shard that is present. *)
Definition rs_assemble (sealer : option Sealer) (id : bytes) (total dataShards parityShards originalLen : Z)
    (it : list (Z * bytes)) : reasm :=
  match sealer with
  | Some s =>
      let r := fold_left (fun r e => match RSReassembler_Add r (new_fragment id e.1 total e.2) with Ok r => r | Err _ => r end)
                 it (NewRSReassembler s dataShards parityShards originalLen) in
      match Reconstruct r id with Ok data => RData data | Err _ => RFail end
  | None =>
      if negb (rs_New dataShards parityShards) then RFail
      else if (total =? u32 (dataShards + parityShards)) && existsb (fun e => e.1 <? total) it then RPanic
      else RFail
  end.
End Shards.

(** ** Partially filled sequences *)

Section Partial.
Context {A : Type}.
Implicit Types (xs : list A) (P Q : nat -> bool).

(** The entries of [xs], keyed by position, at the positions in [P]. *)
Definition pmap xs P : gmap Z A := filter (fun kv => P (Z.to_nat kv.1) = true) (map_seqZ 0 xs).

Lemma pmap_lookup xs P k x : pmap xs P !! k = Some x <-> 0 <= k /\ xs !! Z.to_nat k = Some x /\ P (Z.to_nat k) = true.
Proof.
  unfold pmap. rewrite map_lookup_filter_Some, lookup_map_seqZ_Some. cbn. rewrite Z.sub_0_r. tauto.
Qed.

Lemma pmap_lookup_nat xs P j : pmap xs P !! Z.of_nat j = if P j then xs !! j else None.
Proof.
  destruct (pmap xs P !! Z.of_nat j) as [x|] eqn:E.
  - apply pmap_lookup in E as (_ & H1 & H2). rewrite Nat2Z.id in *. by rewrite H2.
  - destruct (P j) eqn:Ep; [|done]. destruct (xs !! j) as [x|] eqn:Ex; [|done]. exfalso.
    assert (H : pmap xs P !! Z.of_nat j = Some x) by (apply pmap_lookup; rewrite Nat2Z.id; split_and!; [lia|done|done]). congruence.
Qed.

Lemma pmap_lookup_neg xs P k : k < 0 \/ len xs <= k -> pmap xs P !! k = None.
Proof.
  intros Hk. destruct (pmap xs P !! k) as [x|] eqn:E; [|done]. apply pmap_lookup in E as (H0 & H1 & _).
  apply lookup_lt_Some in H1. unfold len in Hk. lia.
Qed.

Lemma pmap_ext xs P Q : (forall j, (j < length xs)%nat -> P j = Q j) -> pmap xs P = pmap xs Q.
Proof.
  intros H. apply map_eq. intros k. destruct (decide (k < 0 \/ len xs <= k)) as [Hk|Hk]; [by rewrite !pmap_lookup_neg|].
  replace k with (Z.of_nat (Z.to_nat k)) by lia. rewrite !pmap_lookup_nat, H; [done|]. unfold len in Hk. lia.
Qed.

Lemma pmap_none xs : pmap xs (fun _ => false) = ∅.
Proof. apply map_eq. intros k. rewrite lookup_empty. destruct (pmap _ _ !! k) eqn:E; [|done]. by apply pmap_lookup in E as (_ & _ & ?). Qed.

Lemma pmap_insert xs P Q j x :
  xs !! j = Some x -> (forall k, Q k = P k || (k =? j)%nat) -> pmap xs Q = <[Z.of_nat j := x]> (pmap xs P).
Proof.
  intros Hx HQ. apply map_eq. intros k. destruct (decide (k = Z.of_nat j)) as [->|Hne].
  - by rewrite lookup_insert_eq, pmap_lookup_nat, HQ, Nat.eqb_refl, orb_true_r.
  - rewrite lookup_insert_ne by done. destruct (decide (k < 0)) as [Hk|Hk]; [rewrite !pmap_lookup_neg by (by left); done|].
    replace k with (Z.of_nat (Z.to_nat k)) by lia. rewrite !pmap_lookup_nat, HQ.
    destruct (Nat.eqb_spec (Z.to_nat k) j); [lia|]. by rewrite orb_false_r.
Qed.

Lemma pmap_size xs P : Z.of_nat (size (pmap xs P)) = len (List.filter P (seq 0 (length xs))).
Proof.
  induction xs as [|x xs IH] using rev_ind; [by rewrite (pmap_ext [] P (fun _ => false)) by (cbn; lia); rewrite pmap_none|].
  rewrite length_app. cbn [length]. rewrite seq_app, List.filter_app, len_app. cbn [plus seq List.filter].
  assert (Hnew : (pmap xs P : gmap Z A) !! Z.of_nat (length xs) = None) by (apply pmap_lookup_neg; right; unfold len; lia).
  assert (He : pmap (xs ++ [x]) P = if P (length xs) then <[Z.of_nat (length xs) := x]> (pmap xs P) else pmap xs P).
  { apply map_eq. intros k. destruct (decide (k < 0)) as [Hk|Hk].
    { rewrite pmap_lookup_neg by (by left). destruct (P (length xs)); [rewrite lookup_insert_ne by lia|]; by rewrite pmap_lookup_neg by (by left). }
    replace k with (Z.of_nat (Z.to_nat k)) by lia. set (j := Z.to_nat k). clearbody j. rewrite pmap_lookup_nat.
    destruct (decide (j = length xs)) as [->|Hne].
    - destruct (P (length xs)) eqn:Ep; [rewrite lookup_insert_eq|by rewrite Hnew]. by apply list_lookup_middle.
    - assert (Hl : (xs ++ [x]) !! j = xs !! j).
      { destruct (decide (j < length xs)%nat); [by apply lookup_app_l|]. rewrite !(proj2 (lookup_ge_None _ _)); [done|lia|rewrite length_app; cbn; lia]. }
      rewrite Hl. destruct (P (length xs)); [rewrite lookup_insert_ne by lia|]; by rewrite pmap_lookup_nat. }
  rewrite He. destruct (P (length xs)); [rewrite map_size_insert_None by done|]; rewrite ?len_cons, ?len_nil; lia.
Qed.

Lemma pmap_size_le xs P : (size (pmap xs P) <= length xs)%nat.
Proof.
  pose proof (pmap_size xs P) as H. pose proof (List.filter_length_le P (seq 0 (length xs))) as H'. rewrite length_seq in H'.
  unfold len in H. lia.
Qed.

Lemma pmap_full xs P : size (pmap xs P) = length xs <-> forallb P (seq 0 (length xs)) = true.
Proof.
  pose proof (pmap_size xs P) as H. unfold len in H. pose proof (length_seq (length xs) 0) as Hq. split.
  - intros Hs. apply List.filter_length_forallb. lia.
  - intros Hf. rewrite List.forallb_filter_id in H by done. lia.
Qed.

Lemma forallb_pointwise P Q (l : list nat) : (forall j, P j = Q j) -> forallb P l = forallb Q l.
Proof. intros H. induction l as [|j l IH]; [done|]. cbn [forallb]. by rewrite H, IH. Qed.

Lemma forallb_seq P n : forallb P (seq 0 n) = true <-> forall j, (j < n)%nat -> P j = true.
Proof.
  rewrite forallb_forall. split; intros H j Hj; apply H; [apply in_seq; lia|apply in_seq in Hj; lia].
Qed.
End Partial.

Lemma join_parts_full (xs : list bytes) (P : nat -> bool) :
  (forall j, (j < length xs)%nat -> P j = true) -> join_parts (pmap xs P) (len xs) = concat xs.
Proof.
  intros HP. unfold join_parts.
  assert (H : forall (ys zs : list bytes) acc, (forall i x, ys !! i = Some x -> (pmap xs P : gmap Z bytes) !! (Z.of_nat (length zs) + Z.of_nat i) = Some x) ->
    fold_left (fun buf i => buf ++ default [] ((pmap xs P : gmap Z bytes) !! i)) (seqZ (Z.of_nat (length zs)) (len ys)) acc = acc ++ concat ys).
  { induction ys as [|y ys IH]; intros zs acc Hy; [cbn; by rewrite app_nil_r|].
    rewrite len_cons, Z.add_comm, seqZ_cons by (pose proof (len_nonneg ys); lia). cbn [fold_left concat].
    pose proof (Hy 0%nat y eq_refl) as H0. rewrite Z.add_0_r in H0. rewrite H0. cbn [default from_option Datatypes.id].
    replace (Z.succ (Z.of_nat (length zs))) with (Z.of_nat (length (zs ++ [y]))) by (rewrite length_app; cbn; lia).
    replace (Z.pred (1 + len ys)) with (len ys) by lia.
    rewrite IH; [by rewrite <- app_assoc|]. intros i x Hi. specialize (Hy (S i) x Hi).
    rewrite length_app. cbn [length]. replace (Z.of_nat (length zs + 1) + Z.of_nat i) with (Z.of_nat (length zs) + Z.of_nat (S i)) by lia. done. }
  apply (H xs [] []). intros i x Hi. cbn [length]. rewrite Z.add_0_l, pmap_lookup_nat, HP; [done|]. by apply lookup_lt_Some in Hi.
Qed.


(** ** The pieces of a transfer *)

(** The fragments of transfer [id], each at its position. *)
Definition positioned (id : bytes) (fs : list Fragment) : Prop :=
  forall j f, fs !! j = Some f -> f = new_fragment id (Z.of_nat j) (len fs) (f_Payload f).

Definition piece_payloads (sub : Z) (f : Fragment) : list bytes := map f_Payload (fragmentPieces f sub).

Lemma piece_payloads_payload sub f g : f_Payload f = f_Payload g -> piece_payloads sub f = piece_payloads sub g.
Proof.
  intros H. unfold piece_payloads, fragmentPieces. rewrite H. destruct (_ || _); [by cbn|].
  apply list_eq. intros i. change (map f_Payload) with (fmap f_Payload : list Fragment -> list bytes).
  rewrite !list_lookup_fmap, !list_lookup_imap. by destruct (Split _ _ !! i).
Qed.

Lemma Split_nonempty data n : 0 < n < len data -> (1 < length (Split data n))%nat.
Proof.
  intros H. destruct (split_join_facts data n) as (_ & _ & Hl); [lia|]. unfold len in *.
  enough (2 <= Z.of_nat (length (Split data n))) by lia. rewrite Hl. apply Z.div_le_lower_bound; lia.
Qed.

(** A fragment is one piece or the chunks of its payload, the pieces numbered in
    order, and the payload is their concatenation. *)
Lemma fragmentPieces_spec f sub :
  len (fragmentPieces f sub) < 2 ^ 32 ->
  (0 < length (piece_payloads sub f))%nat /\ concat (piece_payloads sub f) = f_Payload f /\
  forall pc, pc ∈ fragmentPieces f sub ->
    exists j p, piece_payloads sub f !! j = Some p /\ pc = set_piece f (Z.of_nat j) (len (piece_payloads sub f)) p.
Proof.
  unfold piece_payloads, fragmentPieces. destruct ((sub <=? 0) || _) eqn:Heqb.
  { intros _. split_and!; [cbn; lia|cbn; apply app_nil_r|]. intros pc ->%list_elem_of_singleton. by exists 0%nat, (f_Payload f). }
  apply orb_false_iff in Heqb as [H1 H2]. split_bools. pose proof (Split_nonempty (f_Payload f) sub ltac:(lia)) as Hn.
  destruct (split_join_facts (f_Payload f) sub ltac:(lia)) as (Hj & _ & _). rewrite Join_concat in Hj.
  set (parts := Split _ _) in *. intros Hb. unfold len in Hb. rewrite length_imap in Hb.
  assert (He : map f_Payload (imap (fun i p => set_piece f (u32 (Z.of_nat i)) (u32 (len parts)) p) parts) = parts).
  { change (map f_Payload) with (fmap f_Payload : list Fragment -> list bytes). rewrite fmap_imap. apply list_eq. intros i. rewrite list_lookup_imap. by destruct (parts !! i). }
  rewrite He. split_and!; [lia|done|]. intros pc [j Hpc]%list_elem_of_lookup_1. rewrite list_lookup_imap in Hpc.
  destruct (parts !! j) as [p|] eqn:E; [|done]. cbn in Hpc. simplify_eq. exists j, p. split; [done|].
  apply lookup_lt_Some in E as Hlt. rewrite !u32_id by (unfold is_u32, len; lia). done.
Qed.

(** ** What has arrived *)

(** Some packet of [arr] carries piece [j] of fragment [i]. *)
Definition arrived (arr : list Packet) (i j : nat) : bool :=
  existsb (fun p => (p_ChunkNumber p =? Z.of_nat i) && (p_SubIndex p =? Z.of_nat j)) arr.

(** All pieces of fragment [i] have arrived. *)
Definition whole (sub : Z) (fs : list Fragment) (arr : list Packet) (i : nat) : bool :=
  match fs !! i with
  | Some f => forallb (arrived arr i) (seq 0 (length (piece_payloads sub f)))
  | None => false
  end.

(** How many fragments are whole. *)
Definition wholes (sub : Z) (fs : list Fragment) (arr : list Packet) : Z :=
  len (List.filter (whole sub fs arr) (seq 0 (length fs))).

(** [pkt] carries piece [j] of fragment [i]. *)
Record carries (id : bytes) (fs : list Fragment) (sub : Z) (sc : scheme) (pkt : Packet) (i j : nat) : Prop := {
  ca_fragment f : fs !! i = Some f ->
    p_SubTotal pkt = len (piece_payloads sub f) /\ piece_payloads sub f !! j = Some (p_Payload pkt);
  ca_index : (i < length fs)%nat;
  ca_ID : p_ID pkt = id;
  ca_chunk : p_ChunkNumber pkt = Z.of_nat i;
  ca_sub : p_SubIndex pkt = Z.of_nat j;
  ca_total : p_TotalChunks pkt = len fs;
  ca_scheme : schemeFromPacket pkt = sc
}.

Section Arrivals.
Context (id : bytes) (fs : list Fragment) (sub : Z) (sc : scheme).

Lemma arrived_snoc arr pkt i j i' j' :
  carries id fs sub sc pkt i j -> arrived (arr ++ [pkt]) i' j' = arrived arr i' j' || ((i' =? i)%nat && (j' =? j)%nat).
Proof.
  intros H. unfold arrived. rewrite existsb_app. cbn [existsb]. rewrite orb_false_r. f_equal.
  rewrite (ca_chunk _ _ _ _ _ _ _ H), (ca_sub _ _ _ _ _ _ _ H).
  destruct (Nat.eqb_spec i' i), (Nat.eqb_spec j' j), (Z.eqb_spec (Z.of_nat i) (Z.of_nat i')), (Z.eqb_spec (Z.of_nat j) (Z.of_nat j')); done || lia.
Qed.

Lemma whole_other arr pkt i j i' :
  carries id fs sub sc pkt i j -> i' <> i -> whole sub fs (arr ++ [pkt]) i' = whole sub fs arr i'.
Proof.
  intros H Hne. unfold whole. destruct (fs !! i') as [f|]; [|done]. apply forallb_pointwise. intros j'.
  rewrite (arrived_snoc _ _ _ _ _ _ H). destruct (Nat.eqb_spec i' i); [done|]. apply orb_false_r.
Qed.

Lemma whole_mono arr pkt i : whole sub fs arr i = true -> whole sub fs (arr ++ [pkt]) i = true.
Proof.
  unfold whole. destruct (fs !! i) as [f|]; [|done]. rewrite !forallb_forall. intros H j Hj. specialize (H j Hj).
  unfold arrived in *. by rewrite existsb_app, H.
Qed.

Lemma wholes_mono arr pkt : wholes sub fs arr <= wholes sub fs (arr ++ [pkt]).
Proof.
  unfold wholes. generalize (seq 0 (length fs)) as l. induction l as [|i l IH]; [done|]. cbn [List.filter].
  destruct (whole sub fs arr i) eqn:E; [rewrite (whole_mono _ _ _ E), !len_cons; lia|].
  destruct (whole _ _ (_ ++ _) _); rewrite ?len_cons; lia.
Qed.

Lemma wholes_le arr : wholes sub fs arr <= len fs.
Proof.
  unfold wholes, len. pose proof (List.filter_length_le (whole sub fs arr) (seq 0 (length fs))) as H. rewrite length_seq in H. lia.
Qed.

(** The buffers of a receiver after the pieces [arr]. *)
Record pieces (arr : list Packet) (rc : gmap Z bool) (ch : gmap Z bytes) (sp : gmap Z (gmap Z bytes)) : Prop := {
  pc_Received : rc = pmap (map (fun _ => true) fs) (whole sub fs arr);
  pc_Chunks : ch = pmap (map f_Payload fs) (whole sub fs arr);
  pc_sub i f : fs !! i = Some f -> whole sub fs arr i = false ->
    default ∅ (sp !! Z.of_nat i) = pmap (piece_payloads sub f) (arrived arr i)
}.

Lemma whole_nil k : (forall f, f ∈ fs -> len (fragmentPieces f sub) < 2 ^ 32) -> whole sub fs [] k = false.
Proof.
  intros Hb. unfold whole. destruct (fs !! k) as [f|] eqn:E; [|done].
  destruct (fragmentPieces_spec f sub) as (Hp & _); [apply Hb; by eapply list_elem_of_lookup_2|].
  by destruct (length _); [lia|].
Qed.

Lemma pieces_nil : (forall f, f ∈ fs -> len (fragmentPieces f sub) < 2 ^ 32) -> pieces [] ∅ ∅ ∅.
Proof.
  intros Hb. split.
  - by rewrite (pmap_ext _ _ (fun _ => false)), pmap_none by (intros; by apply whole_nil).
  - by rewrite (pmap_ext _ _ (fun _ => false)), pmap_none by (intros; by apply whole_nil).
  - intros k f _ _. rewrite lookup_empty. cbn. by rewrite (pmap_ext _ _ (fun _ => false)), pmap_none.
Qed.

(** A fragment becoming whole is recorded; one that stays partial is not. *)
Lemma whole_snoc {A} (xs : list A) arr pkt i j x :
  carries id fs sub sc pkt i j -> xs !! i = Some x ->
  pmap xs (whole sub fs (arr ++ [pkt])) =
    if whole sub fs (arr ++ [pkt]) i then <[Z.of_nat i := x]> (pmap xs (whole sub fs arr)) else pmap xs (whole sub fs arr).
Proof.
  intros H Hx. destruct (whole sub fs (arr ++ [pkt]) i) eqn:E.
  - apply pmap_insert; [done|]. intros k. destruct (Nat.eqb_spec k i) as [->|Hne]; [by rewrite E, orb_true_r|].
    rewrite orb_false_r. by eapply whole_other.
  - apply pmap_ext. intros k _. destruct (decide (k = i)) as [->|Hne]; [|by eapply whole_other].
    rewrite E. destruct (whole sub fs arr i) eqn:E'; [|done]. by rewrite (whole_mono _ _ _ E') in E.
Qed.

(** The parts of fragment [i] after one more piece of it. *)
Lemma arrived_parts arr pkt i j f :
  carries id fs sub sc pkt i j -> fs !! i = Some f ->
  pmap (piece_payloads sub f) (arrived (arr ++ [pkt]) i) =
    match pmap (piece_payloads sub f) (arrived arr i) !! p_SubIndex pkt with
    | Some _ => pmap (piece_payloads sub f) (arrived arr i)
    | None => <[p_SubIndex pkt := p_Payload pkt]> (pmap (piece_payloads sub f) (arrived arr i))
    end.
Proof.
  intros H Hf. destruct (ca_fragment _ _ _ _ _ _ _ H f Hf) as [_ Hp]. rewrite (ca_sub _ _ _ _ _ _ _ H), pmap_lookup_nat, Hp.
  assert (Ha : forall k, arrived (arr ++ [pkt]) i k = arrived arr i k || (k =? j)%nat).
  { intros k. by rewrite (arrived_snoc _ _ _ _ _ _ H), Nat.eqb_refl. }
  destruct (arrived arr i j) eqn:E; [|by apply pmap_insert].
  apply pmap_ext. intros k _. rewrite Ha. destruct (Nat.eqb_spec k j) as [->|]; [by rewrite E|apply orb_false_r].
Qed.

Lemma map_lookup_frag {A} (g : Fragment -> A) i f : fs !! i = Some f -> map g fs !! i = Some (g f).
Proof. intros Hf. change (map g fs) with (g <$> fs). by rewrite list_lookup_fmap, Hf. Qed.

(** One piece through [absorbSubChunk]: the payload comes out when its fragment
    becomes whole, and only the buffers of that fragment change. *)
Lemma absorb_piece arr rc ch sp0 pkt i j f sp r :
  len (fragmentPieces f sub) < 2 ^ 32 ->
  pieces arr rc ch sp0 -> carries id fs sub sc pkt i j -> fs !! i = Some f ->
  absorbSubChunk rc sp0 pkt = (sp, r) ->
  r = (if whole sub fs (arr ++ [pkt]) i && negb (whole sub fs arr i) then Some (f_Payload f) else None) /\
  (forall k, k <> Z.of_nat i -> sp !! k = sp0 !! k) /\
  (whole sub fs (arr ++ [pkt]) i = false -> default ∅ (sp !! Z.of_nat i) = pmap (piece_payloads sub f) (arrived (arr ++ [pkt]) i)).
Proof.
  intros Hsmall Hst H Hf Eabs. destruct (ca_fragment _ _ _ _ _ _ _ H f Hf) as [Hn Hp].
  destruct (fragmentPieces_spec f sub Hsmall) as (Hpos & Hcat & _).
  assert (Hpl : length (piece_payloads sub f) = length (fragmentPieces f sub)) by apply length_map.
  assert (Hw : whole sub fs (arr ++ [pkt]) i = forallb (arrived (arr ++ [pkt]) i) (seq 0 (length (piece_payloads sub f))))
    by (unfold whole; by rewrite Hf).
  assert (Hr : default false (rc !! p_ChunkNumber pkt) = whole sub fs arr i).
  { rewrite (pc_Received _ _ _ _ Hst), (ca_chunk _ _ _ _ _ _ _ H), pmap_lookup_nat. destruct (whole sub fs arr i); [|done].
    by rewrite (map_lookup_frag (fun _ => true) i f Hf). }
  unfold absorbSubChunk in Eabs. rewrite Hr in Eabs.
  destruct (whole sub fs arr i) eqn:Ew; [simplify_eq; rewrite (whole_mono _ _ _ Ew); done|].
  rewrite andb_true_r. destruct (Z.leb_spec (p_SubTotal pkt) 1) as [H1|H1].
  { simplify_eq. unfold len in *. assert (Hl : length (piece_payloads sub f) = 1%nat) by lia.
    destruct (piece_payloads sub f) as [|q [|]] eqn:Eq; try (cbn in Hl; lia).
    apply lookup_lt_Some in Hp as Hj. cbn in Hj. assert (j = 0%nat) as -> by lia. cbn in Hp, Hcat. simplify_eq.
    rewrite app_nil_r in Hcat. rewrite Hcat, Hw. cbn [length seq forallb].
    by rewrite (arrived_snoc _ _ _ _ _ _ H), !Nat.eqb_refl, orb_true_r. }
  apply lookup_lt_Some in Hp as Hj. unfold len in *.
  assert (Hlt : (p_SubTotal pkt <=? p_SubIndex pkt) = false) by (apply Z.leb_gt; rewrite (ca_sub _ _ _ _ _ _ _ H); lia).
  rewrite Hlt, (ca_chunk _ _ _ _ _ _ _ H), (pc_sub _ _ _ _ Hst i f Hf Ew), <- (arrived_parts arr pkt i j f H Hf) in Eabs.
  pose proof (pmap_size_le (piece_payloads sub f) (arrived (arr ++ [pkt]) i)) as Hsz.
  rewrite u32_id in Eabs by (unfold is_u32; lia).
  destruct (whole sub fs (arr ++ [pkt]) i) eqn:Ew'; symmetry in Hw.
  - apply pmap_full in Hw as Hfull. rewrite Hfull, Hn in Eabs. rewrite Z.ltb_irrefl in Eabs. simplify_eq.
    split_and!; [|intros k Hk; by rewrite lookup_delete_ne|done].
    f_equal. rewrite <- Hcat. apply join_parts_full. by apply forallb_seq.
  - destruct (Z.ltb_spec (Z.of_nat (size (pmap (piece_payloads sub f) (arrived (arr ++ [pkt]) i)))) (p_SubTotal pkt)) as [Hs|Hs].
    + simplify_eq. split_and!; [done|intros k Hk; by rewrite lookup_insert_ne|intros _; by rewrite lookup_insert_eq].
    + exfalso. assert (Hfull : size (pmap (piece_payloads sub f) (arrived (arr ++ [pkt]) i)) = length (piece_payloads sub f)) by lia.
      apply pmap_full in Hfull. congruence.
Qed.

(** One more piece: the payload of a fragment that becomes whole is recorded. *)
Lemma pieces_absorb arr rc ch sp pkt i j :
  (forall f, f ∈ fs -> len (fragmentPieces f sub) < 2 ^ 32) ->
  pieces arr rc ch sp -> carries id fs sub sc pkt i j ->
  let '(sp', r) := absorbSubChunk rc sp pkt in
  match r with
  | Some payload => pieces (arr ++ [pkt]) (<[p_ChunkNumber pkt := true]> rc) (<[p_ChunkNumber pkt := payload]> ch) sp'
  | None => pieces (arr ++ [pkt]) rc ch sp'
  end.
Proof.
  intros Hb Hst H. destruct (lookup_lt_is_Some_2 fs i (ca_index _ _ _ _ _ _ _ H)) as [f Hf].
  destruct (absorbSubChunk rc sp pkt) as [sp' r] eqn:Eabs.
  destruct (absorb_piece arr rc ch sp pkt i j f sp' r) as (Hr' & Hother & Hself); [apply Hb; by eapply list_elem_of_lookup_2|done..|].
  assert (Hrc : forall A (g : Fragment -> A), pmap (map g fs) (whole sub fs (arr ++ [pkt])) =
    match r with Some _ => <[p_ChunkNumber pkt := g f]> (pmap (map g fs) (whole sub fs arr)) | None => pmap (map g fs) (whole sub fs arr) end).
  { intros A g. rewrite (whole_snoc _ arr pkt i j (g f) H (map_lookup_frag g i f Hf)), Hr', (ca_chunk _ _ _ _ _ _ _ H).
    destruct (whole sub fs arr i) eqn:Ew; [|rewrite andb_true_r; by destruct (whole _ _ (_ ++ _) _)].
    rewrite (whole_mono _ _ _ Ew). cbn. apply insert_id. rewrite pmap_lookup_nat, Ew. by apply map_lookup_frag. }
  pose proof (Hrc bool (fun _ => true)) as Hrc1. pose proof (Hrc bytes f_Payload) as Hrc2.
  assert (Hpay : forall v, r = Some v -> v = f_Payload f) by (intros v Hv; rewrite Hv in Hr'; by destruct (_ && _); simplify_eq).
  destruct r as [v|]; [rewrite (Hpay v eq_refl)|];
    (split; [by rewrite Hrc1, (pc_Received _ _ _ _ Hst)|by rewrite Hrc2, (pc_Chunks _ _ _ _ Hst)|]; intros k g Hg Hk;
     destruct (decide (k = i)) as [->|Hne];
     [simplify_eq; by apply Hself|
      rewrite Hother by lia; rewrite (whole_other _ _ _ _ _ H Hne) in Hk; rewrite (pc_sub _ _ _ _ Hst k g Hg Hk); apply pmap_ext;
      intros l _; rewrite (arrived_snoc _ _ _ _ _ _ H); destruct (Nat.eqb_spec k i); [done|by rewrite orb_false_r]]).
Qed.

Lemma pieces_count arr rc ch sp : pieces arr rc ch sp -> Z.of_nat (size rc) = wholes sub fs arr.
Proof. intros H. rewrite (pc_Received _ _ _ _ H), pmap_size, length_map. done. Qed.
End Arrivals.

Lemma seal_chunks_positioned s id total i chunks ds fs :
  seal_chunks s id total i chunks ds = Ok fs -> 0 <= i -> i + len chunks <= 2 ^ 32 ->
  length fs = length chunks /\ forall j f, fs !! j = Some f -> f = new_fragment id (i + Z.of_nat j) total (f_Payload f).
Proof.
  revert i ds fs. induction chunks as [|c chunks IH]; intros i ds fs Hs Hi Hb; cbn [seal_chunks] in Hs; [by simplify_eq|].
  rewrite len_cons in Hb. pose proof (len_nonneg chunks). destruct (sl_Seal _ _ _ _) as [ct|]; [|done].
  destruct (seal_chunks s id total (i + 1) chunks (drop 1 ds)) as [fs'|] eqn:E; [|done]. cbn in Hs. simplify_eq.
  destruct (IH _ _ _ E) as [Hl Hf]; [lia|lia|]. rewrite u32_id by (unfold is_u32; lia). split; [cbn; lia|].
  intros [|j] f Hj; cbn in Hj; [simplify_eq; by rewrite Z.add_0_r|]. rewrite (Hf j f Hj) at 1. by replace (i + Z.of_nat (S j)) with (i + 1 + Z.of_nat j) by lia.
Qed.

Section Reassembly.
Context (id : bytes) (fs : list Fragment) (P : nat -> bool) (Hpos : positioned id fs).

(** A stored chunk is the payload of a fragment. *)
Lemma stored_fragment k v :
  (pmap (map f_Payload fs) P : gmap Z bytes) !! k = Some v -> new_fragment id k (len fs) v ∈ fs.
Proof using Hpos.
  intros (Hk & Hv & _)%pmap_lookup. change (map f_Payload fs) with (f_Payload <$> fs) in Hv.
  rewrite list_lookup_fmap in Hv. destruct (fs !! Z.to_nat k) as [f|] eqn:E; [|done]. cbn in Hv. simplify_eq.
  apply list_elem_of_lookup_2 with (Z.to_nat k). rewrite E. f_equal. rewrite (Hpos _ _ E) at 1. by rewrite Z2Nat.id.
Qed.

Context (HP : forall j, (j < length fs)%nat -> P j = true).

Lemma full_lookup j f : fs !! j = Some f -> (pmap (map f_Payload fs) P : gmap Z bytes) !! Z.of_nat j = Some (f_Payload f).
Proof using HP.
  intros Hj. rewrite pmap_lookup_nat, HP by (by eapply lookup_lt_Some). by apply map_lookup_frag.
Qed.

Lemma full_chunks {B} (g : Z -> bytes -> B) :
  map (fun i => g i (default [] ((pmap (map f_Payload fs) P : gmap Z bytes) !! i))) (seqZ 0 (len fs)) =
  imap (fun j f => g (Z.of_nat j) (f_Payload f)) fs.
Proof using HP.
  apply list_eq. intros j. rewrite list_lookup_imap.
  match goal with |- map ?h ?l !! j = _ => change (map h l) with (h <$> l) end. rewrite list_lookup_fmap.
  destruct (fs !! j) as [f|] eqn:E.
  - rewrite lookup_seqZ_lt by (apply lookup_lt_Some in E; unfold len; lia). cbn [fmap option_fmap option_map].
    by rewrite Z.add_0_l, (full_lookup j f E).
  - rewrite lookup_seqZ_ge by (apply lookup_ge_None in E; unfold len; lia). done.
Qed.

Lemma full_fragments :
  map (fun i => new_fragment id i (len fs) (default [] ((pmap (map f_Payload fs) P : gmap Z bytes) !! i))) (seqZ 0 (len fs)) = fs.
Proof using Hpos HP.
  rewrite (full_chunks (fun i v => new_fragment id i (len fs) v)). apply list_eq. intros j. rewrite list_lookup_imap.
  destruct (fs !! j) as [f|] eqn:E; [|done]. cbn. by rewrite <- (Hpos j f E).
Qed.
End Reassembly.

Lemma rs_add_fold {A} (g : A -> Fragment) l r r' :
  rs_add_all r (map g l) = Ok r' ->
  fold_left (fun r e => match RSReassembler_Add r (g e) with Ok r => r | Err _ => r end) l r = r'.
Proof.
  revert r. induction l as [|e l IH]; intros r; cbn [fold_left map rs_add_all]; [intros; by simplify_eq|].
  destruct (RSReassembler_Add r (g e)) as [r1|]; [|done]. cbn. apply IH.
Qed.

(** What the sender's and the receiver's configuration must agree on: a sealer and
    its opener, or no key on either side. *)
Definition sealer_match (snd rcv : option Sealer) : Prop :=
  match snd, rcv with
  | Some s, Some r => SealerPair s r
  | None, None => True
  | _, _ => False
  end.

Lemma seal_chunks_length s id total i chunks ds fs : seal_chunks s id total i chunks ds = Ok fs -> length fs = length chunks.
Proof.
  revert i ds fs. induction chunks as [|c chunks IH]; intros i ds fs Hs; cbn [seal_chunks] in Hs; [by simplify_eq|].
  destruct (sl_Seal _ _ _ _) as [ct|]; [|done].
  destruct (seal_chunks s id total (i + 1) chunks (drop 1 ds)) as [fs'|] eqn:E; [|done]. cbn in Hs. simplify_eq.
  cbn. by rewrite (IH _ _ _ E).
Qed.

Lemma NoDup_fmap_fst_frag id total (it : list (Z * bytes)) :
  NoDup it.*1 -> NoDup (map (fun e => new_fragment id e.1 total e.2) it).
Proof.
  intros H. apply (NoDup_fmap_1 f_Index).
  change (NoDup (f_Index <$> ((fun e : Z * bytes => new_fragment id e.1 total e.2) <$> it))). by rewrite <- list_fmap_compose.
Qed.

(** Any [d] shards or more rebuild the first [n] bytes of the data. *)
Lemma rs_assemble_ok `{R : RSOps} `{RL : !RSLaws R} snd rcv id data d p ds :
  SealerPair snd rcv -> 0 < d -> 0 < p -> d + p <= 256 -> d <= len data -> Forall wf_draws ds -> d + p <= len ds ->
  exists fs, RSFragmenter_Fragment (mkRSFragmenter snd d p) id data ds = Ok (fs, len data) /\
    len fs = d + p /\ positioned id fs /\
    forall P n it, 0 <= n <= len data -> it ≡ₚ map_to_list (pmap (map f_Payload fs) P : gmap Z bytes) ->
      d <= len (List.filter P (seq 0 (length fs))) ->
      rs_assemble (Some rcv) id (len fs) d p n it = RData (take (Z.to_nat n) data).
Proof.
  intros SP Hd Hp Hsum Hlen Hwf Hds.
  destruct (rs_pipeline id data d p ds 0 Hd Hp Hsum Hlen Hwf Hds) as (fs & HF & [Hlf _] & _); [lia|]. exists fs. split; [done|]. split; [done|].
  assert (Hpos : positioned id fs).
  { unfold RSFragmenter_Fragment in HF. destruct (len data <? _); [done|]. destruct (negb _); [done|].
    destruct (rs_Split _ _ data) as [sh|]; [|done]. cbn [of_option] in HF. destruct (rs_Encode _ _ sh) as [enc|]; [|done].
    cbn [of_option rsf_sealer] in HF. destruct (seal_chunks _ _ _ _ enc ds) as [fs'|] eqn:E; [|done]. simplify_eq.
    assert (Hel : len fs = len enc) by (unfold len; by rewrite (seal_chunks_length _ _ _ _ _ _ _ E)).
    destruct (seal_chunks_positioned _ _ _ _ _ _ _ E) as [_ Hf]; [lia|lia|]. intros j f Hj. rewrite (Hf j f Hj) at 1.
    by rewrite Hel, u32_id by (unfold is_u32; lia). }
  split; [done|]. intros P n it Hnb Hit Hn. cbn [rs_assemble].
  destruct (rs_pipeline id data d p ds n Hd Hp Hsum Hlen Hwf Hds Hnb) as (fs' & HF' & _ & Hrun).
  assert (fs' = fs) as -> by congruence.
  set (arr := map (fun e : Z * bytes => new_fragment id e.1 (len fs) e.2) it).
  assert (Hin : forall f, f ∈ arr -> f ∈ fs).
  { intros f Hf. subst arr. apply list_elem_of_fmap in Hf as ([k v] & -> & Hkv). cbn. rewrite Hit in Hkv.
    apply elem_of_map_to_list in Hkv. by eapply stored_fragment. }
  assert (Hag : agree arr).
  { intros f g Hf Hg He. apply Hin, list_elem_of_lookup_1 in Hf as [i Hi]. apply Hin, list_elem_of_lookup_1 in Hg as [k Hk].
    rewrite (Hpos _ _ Hi), (Hpos _ _ Hk) in He. cbn in He. assert (i = k) as -> by lia. congruence. }
  destruct (Hrun arr [] ltac:(auto) Hag) as (r & HA & Hrec); [intros f Hf; by apply not_elem_of_nil in Hf|].
  rewrite (rs_add_fold _ _ _ _ HA), Hrec, (proj2 (Z.leb_le _ _)); [done|]. etrans; [exact Hn|].
  pose proof (pmap_size (map f_Payload fs) P) as Hsz. rewrite length_map in Hsz. rewrite <- Hsz.
  assert (HND : NoDup arr).
  { subst arr. apply NoDup_fmap_fst_frag. rewrite Hit. apply NoDup_fst_map_to_list. }
  assert (Hla : length arr = size (pmap (map f_Payload fs) P : gmap Z bytes)).
  { subst arr. rewrite length_map, Hit. apply length_map_to_list. }
  unfold len. rewrite <- Hla. apply inj_le, submseteq_length, NoDup_submseteq; [done|].
  intros f Hf. apply list_elem_of_filter. auto.
Qed.

Section Sent.
Context `{C : CryptoOps}.

(** [pkt] carries the piece [pc] of transfer [id], with scheme [sc]. *)
Record packs (id : bytes) (sc : scheme) (pc : Fragment) (pkt : Packet) : Prop := {
  pk_ID : p_ID pkt = id;
  pk_index : p_ChunkNumber pkt = f_Index pc;
  pk_total : p_TotalChunks pkt = f_Total pc;
  pk_sub : p_SubIndex pkt = f_SubIndex pc;
  pk_subtotal : p_SubTotal pkt = f_SubTotal pc;
  pk_payload : p_Payload pkt = f_Payload pc;
  pk_scheme : schemeFromPacket pkt = sc;
  pk_block : p_BlockIndex pkt = f_BlockIndex pc;
  pk_blocklen : p_BlockLen pkt = f_BlockLen pc;
  pk_final : p_Final pkt = f_Final pc
}.

Lemma padPacket_fields cell p : exists d, padPacket cell p = set_pad d p.
Proof.
  unfold padPacket. destruct (cell <=? 0); [exists (p_Pad p); by destruct p|].
  destruct (_ =? 0); [by exists []|]. eexists. by destruct p.
Qed.

Lemma innerPacket_packs padCell now nowStr id destID sourceNode pc sc rb :
  packs id sc pc (innerPacket padCell now nowStr id destID sourceNode pc sc rb).
Proof.
  unfold innerPacket. match goal with |- context [padPacket ?c ?q] => destruct (padPacket_fields c q) as [d ->] end.
  split; try done. by destruct sc.
Qed.

(** A packet [buildInnerFragment] makes of a piece of one of the fragments [fs]. *)
Definition sent (id : bytes) (fs : list Fragment) (sub : Z) (sc : scheme) (pkt : Packet) : Prop :=
  exists f pc padCell now nowStr destID sourceNode replyBlock, f ∈ fs /\ pc ∈ fragmentPieces f sub /\
    pkt = innerPacket padCell now nowStr id destID sourceNode pc sc replyBlock.

Lemma sent_packs id fs sub sc pkt : sent id fs sub sc pkt -> exists f pc, f ∈ fs /\ pc ∈ fragmentPieces f sub /\ packs id sc pc pkt.
Proof.
  intros (f & pc & cell & now & nowStr & dest & src & rb & Hf & Hpc & ->). exists f, pc.
  split; [done|]. split; [done|]. apply innerPacket_packs.
Qed.

(** A fragment [f'] with the position and payload of the [i]-th fragment. *)
Lemma packs_carries id fs sub sc f f' pc pkt i :
  fs !! i = Some f -> f_Index f' = Z.of_nat i -> f_Total f' = len fs -> f_Payload f' = f_Payload f ->
  len (fragmentPieces f' sub) < 2 ^ 32 -> pc ∈ fragmentPieces f' sub -> packs id sc pc pkt ->
  exists j, carries id fs sub sc pkt i j.
Proof.
  intros Hi Hx Ht Hp Hb Hpc Hk. destruct (fragmentPieces_spec f' sub Hb) as (_ & _ & Hs).
  destruct (Hs pc Hpc) as (j & p & Hj & ->). exists j. rewrite (piece_payloads_payload sub f' f Hp) in *.
  split; [|by apply lookup_lt_Some in Hi|apply Hk|..].
  - intros g Hg. assert (g = f) as -> by congruence. rewrite (pk_subtotal _ _ _ _ Hk), (pk_payload _ _ _ _ Hk). done.
  - by rewrite (pk_index _ _ _ _ Hk).
  - by rewrite (pk_sub _ _ _ _ Hk).
  - by rewrite (pk_total _ _ _ _ Hk).
  - apply Hk.
Qed.

Lemma sent_carries id fs sub sc pkt :
  positioned id fs -> (forall f, f ∈ fs -> len (fragmentPieces f sub) < 2 ^ 32) -> sent id fs sub sc pkt ->
  exists i j, carries id fs sub sc pkt i j.
Proof.
  intros Hpos Hb (f & pc & Hf & Hpc & Hk)%sent_packs. apply list_elem_of_lookup_1 in Hf as [i Hi]. exists i.
  pose proof (Hpos i f Hi) as Hf. eapply packs_carries with (f' := f); try done; try (by rewrite Hf).
  apply Hb. by eapply list_elem_of_lookup_2.
Qed.
End Sent.

(** ** Padding *)

Lemma marshaledLen_pad d p : marshaledLen (set_pad d p) = marshaledLen (set_pad [] p) + len d.
Proof.
  unfold marshaledLen. rewrite !MarshalBinary_fields. unfold marshal_fields, set_pad. cbn zeta.
  cbn [p_ID p_Type p_Timestamp p_SourceNode p_DestGroup p_DestNode p_TotalChunks p_ChunkNumber p_SubIndex p_SubTotal p_Streaming
       p_BlockIndex p_BlockLen p_Final p_HybridSealed p_PQ p_Resumable p_DataShards p_ParityShards p_OriginalLen p_Variable
       p_ReplyBlock p_Decoy p_Pad p_PayloadSize p_Payload p_SignerKey p_Signature].
  rewrite !len_app, !len_be_bytes, len_nil. lia.
Qed.

(** With a cell size configured, the inner packet of a fragment fills a whole
    number of cells on the wire, by less than one cell of filler, and the filler is
    not part of what is signed. *)
Theorem cell_padding `{C : CryptoOps} padCell now nowStr id destID sourceNode frag sc replyBlock :
  0 < padCell ->
  let plain := innerPacket 0 now nowStr id destID sourceNode frag sc replyBlock in
  let padded := innerPacket padCell now nowStr id destID sourceNode frag sc replyBlock in
  len (buildInnerFragment padCell now nowStr id destID sourceNode frag sc replyBlock) mod padCell = 0 /\
  0 <= marshaledLen padded - marshaledLen plain < padCell /\ canonicalBytes padded = canonicalBytes plain.
Proof.
  intros Hc plain padded. unfold buildInnerFragment. fold padded. change (len (MarshalBinary padded)) with (marshaledLen padded).
  subst plain padded. unfold innerPacket. match goal with |- context [padPacket padCell ?q] => set (p := q) end.
  assert (Hp : set_pad [] p = p) by done. unfold padPacket. rewrite (proj2 (Z.leb_gt padCell 0)) by done.
  change (0 <=? 0) with true. cbv iota zeta. rewrite Hp. pose proof (Z.mod_pos_bound (marshaledLen p) padCell Hc) as Hm.
  destruct (Z.eqb_spec (marshaledLen p mod padCell) 0) as [H0|H0]; [split_and!; [done|lia|lia|done]|].
  rewrite marshaledLen_pad, Hp. unfold len. rewrite repeat_length. split_and!; [|lia|lia|done].
  rewrite Z2Nat.id by lia. pose proof (Z.div_mod (marshaledLen p) padCell ltac:(lia)) as Hdm.
  replace (marshaledLen p + (padCell - marshaledLen p mod padCell)) with ((marshaledLen p / padCell + 1) * padCell) by lia.
  apply Z_mod_mult.
Qed.

(** ** Witness *)

Definition sample_id : bytes := repeat x00 32.
Definition sample_scheme : scheme := mkScheme 2 1 3 true false false false false.

Lemma cell_padding_witness :
  len (@buildInnerFragment toy_ops 256 0 [] sample_id "dest" "" (new_fragment sample_id 0 1 [x01]) sample_scheme []) mod 256 = 0.
Proof.
  refine (proj1 (@cell_padding toy_ops 256 0 [] sample_id "dest" "" (new_fragment sample_id 0 1 [x01]) sample_scheme [] _)).
  reflexivity.
Defined.
