(* ===== verification/Stream.v ===== *)
(** * Streamed transfers (internal/transfer/streaming.go)

    A stream is cut into blocks, each erasure-coded on its own; the assembler
    rebuilds blocks from the shards that arrive and flushes them in order to a sink
    or a buffer.  Resuming, idle sweeping and the cap on retained streams are here
    too.

    A reader is the bytes it will yield and whether it then fails instead of
    ending.  [send] is the callback that emits a fragment, as a state transformer.
    The sink is the list of writes made to it; as in the source, what [Write] and
    [Close] return is ignored. *)

From S2P Require Import Prelude Crypto Wire Encryption Fragment Pieces.

Definition defaultStreamBlockSize : Z := 4 * 1024 * 1024.
Definition resumableStreamTTL : Z := 3600 * 1000000000.
Definition maxRetainedStreams : Z := 512.

(** ** The sender *)

Record reader : Type := mkReader { rd_data : bytes; rd_fails : bool }.

(** [io.ReadFull(r, buf)] of [size] bytes, as [readBlock] reports it: the block, if
    any, whether it is the last, or the error. *)
Definition readBlock (size : Z) (r : reader) : option (option bytes * bool) * reader :=
  if size <=? len (rd_data r) then
    (Some (Some (take (Z.to_nat size) (rd_data r)), false), mkReader (drop (Z.to_nat size) (rd_data r)) (rd_fails r))
  else if rd_fails r then (None, mkReader [] true)
  else if len (rd_data r) =? 0 then (Some (None, true), r)
  else (Some (Some (rd_data r), true), mkReader [] false).

Definition set_block (blockIndex blockLen : Z) (final : bool) (f : Fragment) : Fragment :=
  mkFragment (f_TransferID f) (f_Index f) (f_Total f) (f_Payload f) (f_SubIndex f) (f_SubTotal f) true blockIndex blockLen final.

Inductive stream_result : Type := SDone | SReadError | SEncodeError (e : frag_err) | SSendError | SOutOfFuel.

Section Sender.
Context `{R : RSOps}.

Definition encodeBlock (t : TransferConfig) (id : bytes) (blockIndex : Z) (data : bytes) (final : bool) (sealer : option Sealer)
    (ds : list draws) : result frag_err (list Fragment) :=
  try f := NewRSFragmenter sealer (tc_dataShards t) (tc_parityShards t) in
  let blockLen := len data in
  let enc := if len data <? tc_dataShards t then data ++ repeat x00 (Z.to_nat (tc_dataShards t) - length data) else data in
  try (frags, n) := RSFragmenter_Fragment f id enc ds in
  Ok (map (set_block blockIndex (u32 blockLen) final) frags).

Section Emit.
Context {S : Type} (send : S -> Fragment -> S * bool).

Fixpoint send_all (s : S) (fs : list Fragment) : S * bool :=
  match fs with
  | [] => (s, true)
  | f :: fs => let '(s, ok) := send s f in if negb ok then (s, false) else send_all s fs
  end.

(** [ds] are the draws of the block's seals. *)
Definition emit (t : TransferConfig) (id : bytes) (sealer : option Sealer) (ds : list draws) (s : S)
    (blockIndex : Z) (data : bytes) (final : bool) : S * stream_result :=
  match encodeBlock t id blockIndex data final sealer ds with
  | Err e => (s, SEncodeError e)
  | Ok frags => let '(s, ok) := send_all s frags in (s, if ok then SDone else SSendError)
  end.

(** The loop, [prev] being the block read ahead; [draw b] are the draws of block
    [b]. *)
Fixpoint stream_loop (fuel : nat) (t : TransferConfig) (size : Z) (id : bytes) (sealer : option Sealer) (draw : Z -> list draws)
    (s : S) (r : reader) (blockIndex : Z) (prev : bytes) (prevFinal : bool) : S * stream_result :=
  match fuel with
  | O => (s, SOutOfFuel)
  | Datatypes.S fuel =>
      if prevFinal then emit t id sealer (draw blockIndex) s blockIndex prev true
      else
        match readBlock size r with
        | (None, _) => (s, SReadError)
        | (Some (None, _), _) => emit t id sealer (draw blockIndex) s blockIndex prev true
        | (Some (Some next, nextFinal), r) =>
            match emit t id sealer (draw blockIndex) s blockIndex prev false with
            | (s, SDone) => stream_loop fuel t size id sealer draw s r (u32 (blockIndex + 1)) next nextFinal
            | (s, e) => (s, e)
            end
        end
  end.

(** Every pass but the last consumes a byte or more of the reader. *)
Definition streamBlocks (t : TransferConfig) (streamBlockSize : Z) (r : reader) (id : bytes) (sealer : option Sealer)
    (draw : Z -> list draws) (startBlock : Z) (s : S) : S * stream_result :=
  let size := if streamBlockSize <=? 0 then defaultStreamBlockSize else streamBlockSize in
  match readBlock size r with
  | (None, _) => (s, SReadError)
  | (Some (None, _), _) => emit t id sealer (draw startBlock) s startBlock [] true
  | (Some (Some prev, prevFinal), r) =>
      stream_loop (Datatypes.S (Datatypes.S (length (rd_data r)))) t size id sealer draw s r startBlock prev prevFinal
  end.

(** A stream does to the sender's state only what its sends do. *)
Lemma streamBlocks_preserves (rel : S -> S -> Prop) `{!PreOrder rel} t size r id sealer draw b s :
  (forall s f, rel s (send s f).1) -> rel s (streamBlocks t size r id sealer draw b s).1.
Proof.
  intros Hs. assert (Ha : forall fs s, rel s (send_all s fs).1).
  { intros fs. induction fs as [|f fs IH]; intros s1; cbn [send_all]; [reflexivity|]. pose proof (Hs s1 f) as H.
    destruct (send s1 f) as [s2 [|]]; cbn in *; [by etrans|done]. }
  assert (He : forall ds s b data fin, rel s (emit t id sealer ds s b data fin).1).
  { intros ds s1 b1 data fin. unfold emit. destruct (encodeBlock _ _ _ _ _ _ _) as [l|]; [|reflexivity].
    pose proof (Ha l s1) as H. by destruct (send_all s1 l). }
  assert (Hl : forall fuel sz s r b prev fin, rel s (stream_loop fuel t sz id sealer draw s r b prev fin).1).
  { intros fuel. induction fuel as [|fuel IH]; intros sz s1 r1 b1 prev fin; cbn [stream_loop]; [reflexivity|]. destruct fin; [apply He|].
    destruct (readBlock sz r1) as [[[[next|] nf]|] r2]; [|apply He|reflexivity].
    pose proof (He (draw b1) s1 b1 prev false) as H. destruct (emit _ _ _ _ _ _ _ _) as [s2 []]; cbn in *; try done. by etrans. }
  unfold streamBlocks. destruct (readBlock _ r) as [[[[prev|] fin]|] r2]; [apply Hl|apply He|reflexivity].
Qed.
End Emit.
End Sender.

(** ** The assembler *)

Record streamBlock : Type := mkBlock {
  sb_total : Z;
  sb_blockLen : Z;
  sb_final : bool;
  sb_received : gmap Z bool;
  sb_chunks : gmap Z bytes;
  sb_subParts : gmap Z (gmap Z bytes);
  sb_data : bytes;
  sb_ready : bool
}.

Record streamAssembler : Type := mkAssembler {
  sa_id : bytes;
  sa_dataShards : Z;
  sa_parityShards : Z;
  sa_sink : bool;                       (** an external sink, else the buffer *)
  sa_written : list bytes;              (** the writes made to it *)
  sa_blocks : gmap Z streamBlock;
  sa_nextFlush : Z;
  sa_done : bool;
  sa_replyBlock : bytes;
  sa_sourceNode : string;
  sa_hybridSealed : bool;
  sa_pq : bool;
  sa_lastActivity : Z
}.

(** What the end of a stream does: close the sink or hand the buffer to [onData],
    and acknowledge. *)
Inductive stream_event : Type :=
  | SClose
  | SData (data : bytes)
  | SAckReply (replyBlock : bytes)
  | SAck (sourceNode : string) (id : bytes).

(** [hasSink] says whether [t.streamSink] gave a sink. *)
Definition newStreamAssembler (now : Z) (hasSink : bool) (pkt : Packet) : streamAssembler :=
  mkAssembler (p_ID pkt) (p_DataShards pkt) (p_ParityShards pkt) hasSink [] ∅ 0 false (p_ReplyBlock pkt) (p_SourceNode pkt)
    (p_HybridSealed pkt) (p_PQ pkt) now.

Definition new_block (pkt : Packet) : streamBlock :=
  mkBlock (p_TotalChunks pkt) (p_BlockLen pkt) (p_Final pkt) ∅ ∅ ∅ [] false.

Definition set_blocks (sa : streamAssembler) (m : gmap Z streamBlock) : streamAssembler :=
  mkAssembler (sa_id sa) (sa_dataShards sa) (sa_parityShards sa) (sa_sink sa) (sa_written sa) m (sa_nextFlush sa) (sa_done sa)
    (sa_replyBlock sa) (sa_sourceNode sa) (sa_hybridSealed sa) (sa_pq sa) (sa_lastActivity sa).

Definition set_activity (sa : streamAssembler) (now : Z) : streamAssembler :=
  mkAssembler (sa_id sa) (sa_dataShards sa) (sa_parityShards sa) (sa_sink sa) (sa_written sa) (sa_blocks sa) (sa_nextFlush sa)
    (sa_done sa) (sa_replyBlock sa) (sa_sourceNode sa) (sa_hybridSealed sa) (sa_pq sa) now.

Definition set_done (sa : streamAssembler) : streamAssembler :=
  mkAssembler (sa_id sa) (sa_dataShards sa) (sa_parityShards sa) (sa_sink sa) (sa_written sa) (sa_blocks sa) (sa_nextFlush sa)
    true (sa_replyBlock sa) (sa_sourceNode sa) (sa_hybridSealed sa) (sa_pq sa) (sa_lastActivity sa).

(** Writing block [nextFlush] and dropping it. *)
Definition flush_one (sa : streamAssembler) (data : bytes) : streamAssembler :=
  mkAssembler (sa_id sa) (sa_dataShards sa) (sa_parityShards sa) (sa_sink sa) (sa_written sa ++ [data])
    (delete (sa_nextFlush sa) (sa_blocks sa)) (u32 (sa_nextFlush sa + 1)) (sa_done sa) (sa_replyBlock sa) (sa_sourceNode sa)
    (sa_hybridSealed sa) (sa_pq sa) (sa_lastActivity sa).

(** [onData] is set. *)
Definition finish (sa : streamAssembler) : streamAssembler * list stream_event :=
  (set_done sa,
   (if sa_sink sa then [SClose] else [SData (concat (sa_written sa))]) ++
   (if 0 <? len (sa_replyBlock sa) then [SAckReply (sa_replyBlock sa)]
    else if negb (String.eqb (sa_sourceNode sa) "") then [SAck (sa_sourceNode sa) (sa_id sa)] else [])).

(** Every pass deletes a block, so their number is enough fuel. *)
Fixpoint flush_loop (fuel : nat) (sa : streamAssembler) : streamAssembler * list stream_event :=
  match fuel with
  | O => (sa, [])
  | S fuel =>
      match sa_blocks sa !! sa_nextFlush sa with
      | None => (sa, [])
      | Some b =>
          if negb (sb_ready b) then (sa, [])
          else
            let sa := flush_one sa (sb_data b) in
            if sb_final b then finish sa else flush_loop fuel sa
      end
  end.

Definition flushReady (sa : streamAssembler) : streamAssembler * list stream_event := flush_loop (size (sa_blocks sa)) sa.

Section Assembler.
Context `{R : RSOps} `{C : CryptoOps}.

Definition reconstructBlock (t : TransferConfig) (it : list (Z * bytes)) (sa : streamAssembler) (b : streamBlock) : reasm :=
  let sealer := recipientOpener t (mkScheme 0 0 0 false false (sa_hybridSealed sa) (sa_pq sa) false) in
  rs_assemble sealer (sa_id sa) (sb_total b) (sa_dataShards sa) (sa_parityShards sa) (sb_blockLen b) it.

(** [absorbStreamPiece] and the recording of its result. *)
Definition absorbStreamPiece (b : streamBlock) (pkt : Packet) : streamBlock :=
  let '(sub, r) := absorbSubChunk (sb_received b) (sb_subParts b) pkt in
  let '(rc, ch) := match r with
                   | Some payload => (<[p_ChunkNumber pkt := true]> (sb_received b), <[p_ChunkNumber pkt := payload]> (sb_chunks b))
                   | None => (sb_received b, sb_chunks b)
                   end in
  mkBlock (sb_total b) (sb_blockLen b) (sb_final b) rc ch sub (sb_data b) (sb_ready b).

Inductive added : Type := Added (sa : streamAssembler) (evs : list stream_event) | AddPanic.

(** The reported boolean is [sa_done] of the result; [ord] is the order in which
    the chunks of a block are ranged over. *)
Definition add (t : TransferConfig) (now : Z) (ord : gmap Z bytes -> list (Z * bytes)) (sa : streamAssembler) (pkt : Packet) : added :=
  if sa_done sa then Added sa []
  else
    let sa := set_activity sa now in
    let b := match sa_blocks sa !! p_BlockIndex pkt with Some b => b | None => new_block pkt end in
    if sb_ready b then Added (set_blocks sa (<[p_BlockIndex pkt := b]> (sa_blocks sa))) []
    else
      let b := absorbStreamPiece b pkt in
      let store b := let '(sa, evs) := flushReady (set_blocks sa (<[p_BlockIndex pkt := b]> (sa_blocks sa))) in Added sa evs in
      if u32 (sa_dataShards sa) <=? u32 (Z.of_nat (size (sb_received b))) then
        match reconstructBlock t (ord (sb_chunks b)) sa b with
        | RData data => store (mkBlock (sb_total b) (sb_blockLen b) (sb_final b) ∅ ∅ ∅ data true)
        | RFail => store b
        | RPanic => AddPanic
        end
      else store b.

(** The fragments [arr] handed to [add] one after the other, each with its time. *)
Definition stream_add_all (t : TransferConfig) (ord : gmap Z bytes -> list (Z * bytes)) (sa : streamAssembler) (arr : list (Z * Packet)) :
    option (streamAssembler * list stream_event) :=
  fold_left (fun st e =>
    match st with
    | Some (sa, evs) => match add t e.1 ord sa e.2 with Added sa evs' => Some (sa, evs ++ evs') | AddPanic => None end
    | None => None
    end) arr (Some (sa, [])).

Definition resumeFrom (sa : streamAssembler) : Z := sa_nextFlush sa.

Definition abandonIfIdle (cutoff : Z) (sa : streamAssembler) : streamAssembler * list stream_event * bool :=
  if sa_done sa || (cutoff <? sa_lastActivity sa) then (sa, [], false)
  else (set_done sa, if sa_sink sa then [SClose] else [], true).
End Assembler.

(** ** Chunks of a stream *)

Lemma split_loop_fuel f g data c i :
  (0 < c)%nat -> (length data - i <= f)%nat -> (length data - i <= g)%nat -> split_loop f data c i = split_loop g data c i.
Proof.
  intros Hc. revert g i. induction f as [|f IH]; intros [|g] i Hf Hg; cbn [split_loop]; [done| | |].
  - destruct (Nat.ltb_spec i (length data)); [lia|done].
  - destruct (Nat.ltb_spec i (length data)); [lia|done].
  - destruct (Nat.ltb_spec i (length data)); [|done]. f_equal. apply IH; lia.
Qed.

Lemma split_loop_shift f data c k i : split_loop f data c (k + i) = split_loop f (drop k data) c i.
Proof.
  revert i. induction f as [|f IH]; intros i; [done|]. cbn [split_loop]. rewrite length_drop.
  destruct (Nat.ltb_spec (k + i) (length data)), (Nat.ltb_spec i (length data - k)); try lia; [|done]. f_equal.
  - unfold subslice. rewrite drop_drop. f_equal.
    destruct (Nat.ltb_spec (length data) (k + i + c)), (Nat.ltb_spec (length data - k) (i + c)); lia.
  - rewrite <- IH. f_equal. lia.
Qed.

Lemma Split_cons data c : 0 < c -> data <> [] -> Split data c = take (Z.to_nat c) data :: Split (drop (Z.to_nat c) data) c.
Proof.
  intros Hc Hne. assert (Hl : (0 < length data)%nat) by (destruct data; cbn; [done|lia]). unfold Split.
  rewrite (proj2 (Z.leb_gt c 0)) by lia. rewrite (proj2 (Z.eqb_neq (len data) 0)) by (unfold len; lia). cbn [orb].
  destruct (length data) as [|n] eqn:En; [lia|]. cbn [split_loop]. rewrite En, (proj2 (Nat.ltb_lt 0 (S n))) by lia.
  f_equal.
  - unfold subslice. rewrite drop_0. destruct (Nat.ltb_spec (S n) (0 + Z.to_nat c)).
    + rewrite (take_ge _ (Z.to_nat c)) by lia. apply take_ge. lia.
    + f_equal. lia.
  - replace (0 + Z.to_nat c)%nat with (Z.to_nat c + 0)%nat by lia. rewrite split_loop_shift.
    destruct (Z.eqb_spec (len (drop (Z.to_nat c) data)) 0) as [H0|H0].
    + apply Z.eqb_eq, len_zero in H0. rewrite H0. by destruct n.
    + apply split_loop_fuel; rewrite ?length_drop; lia.
Qed.

Lemma Split_nil c : Split [] c = [].
Proof. unfold Split. by destruct (c <=? 0). Qed.

(** The blocks of a stream: at least one, the empty one of an empty stream. *)
Definition stream_blocks (size : Z) (data : bytes) : list bytes :=
  match data with [] => [[]] | _ => Split data size end.

Lemma stream_blocks_concat size data : 0 < size -> concat (stream_blocks size data) = data.
Proof.
  intros Hs. destruct data as [|b data]; [done|]. cbn [stream_blocks]. rewrite <- Join_concat. by apply split_join_facts.
Qed.

Lemma stream_blocks_bound size data : 0 < size -> Forall (fun b => len b <= size) (stream_blocks size data).
Proof.
  intros Hs. destruct data as [|b data]; [repeat constructor; rewrite len_nil; lia|]. cbn [stream_blocks].
  eapply Forall_impl; [apply split_join_facts, Hs|]. cbn. lia.
Qed.

(** ** The sender emits the blocks *)

Section SenderProofs.
Context `{R : RSOps} (t : TransferConfig) (size : Z) (id : bytes) (sealer : option Sealer) (draw : Z -> list draws).
Context (Hsize : 0 < size).

(** The fragments of the blocks [bs], the first of which is number [k]. *)
Fixpoint block_frags (k : Z) (bs : list bytes) : result frag_err (list (list Fragment)) :=
  match bs with
  | [] => Ok []
  | [b] => try f := encodeBlock t id k b true sealer (draw k) in Ok [f]
  | b :: bs => try f := encodeBlock t id k b false sealer (draw k) in try fs := block_frags (u32 (k + 1)) bs in Ok (f :: fs)
  end.

Lemma block_frags_cons k b c bs :
  block_frags k (b :: c :: bs) =
    (try f := encodeBlock t id k b false sealer (draw k) in try fs := block_frags (u32 (k + 1)) (c :: bs) in Ok (f :: fs)).
Proof. done. Qed.

(** The callback that records what it is given. *)
Definition collect (s : list Fragment) (f : Fragment) : list Fragment * bool := (s ++ [f], true).

Lemma send_all_collect s fs : send_all collect s fs = (s ++ fs, true).
Proof.
  revert s. induction fs as [|f fs IH]; intros s; cbn; [by rewrite app_nil_r|]. by rewrite IH, <- app_assoc.
Qed.

Lemma emit_collect s k b final f :
  encodeBlock t id k b final sealer (draw k) = Ok f -> emit collect t id sealer (draw k) s k b final = (s ++ f, SDone).
Proof. intros H. unfold emit. by rewrite H, send_all_collect. Qed.

Lemma stream_loop_S fuel s r k prev fin :
  stream_loop collect (S fuel) t size id sealer draw s r k prev fin =
    if fin then emit collect t id sealer (draw k) s k prev true
    else
      match readBlock size r with
      | (None, _) => (s, SReadError)
      | (Some (None, _), _) => emit collect t id sealer (draw k) s k prev true
      | (Some (Some next, nextFinal), r) =>
          match emit collect t id sealer (draw k) s k prev false with
          | (s, SDone) => stream_loop collect fuel t size id sealer draw s r (u32 (k + 1)) next nextFinal
          | (s, e) => (s, e)
          end
      end.
Proof. done. Qed.

Lemma stream_loop_blocks fuel s rest k prev fin F :
  (length rest < fuel)%nat -> (fin = true -> rest = []) ->
  block_frags k (prev :: Split rest size) = Ok F ->
  stream_loop collect (S fuel) t size id sealer draw s (mkReader rest false) k prev fin = (s ++ concat F, SDone).
Proof using Hsize.
  revert s rest k prev fin F. induction fuel as [|fuel IH]; intros s rest k prev fin F Hf Hfin HF; [lia|].
  rewrite stream_loop_S. destruct (decide (rest = [])) as [->|Hne].
  - rewrite Split_nil in HF. cbn [block_frags] in HF. destruct (encodeBlock _ _ _ _ true _ _) as [f|] eqn:E; [|done].
    simplify_eq. cbn [concat]. rewrite app_nil_r. destruct fin; [by apply emit_collect|].
    unfold readBlock. cbn [rd_data rd_fails]. rewrite len_nil, (proj2 (Z.leb_gt size 0)) by lia. by apply emit_collect.
  - destruct fin; [specialize (Hfin eq_refl); done|]. rewrite (Split_cons rest size Hsize Hne) in HF.
    assert (Hpos : 0 < len rest) by (destruct rest; [done|rewrite len_cons; pose proof (len_nonneg rest); lia]).
    rewrite block_frags_cons in HF. destruct (encodeBlock _ _ k prev false _ _) as [f|] eqn:E; [|done].
    destruct (block_frags (u32 (k + 1)) _) as [F'|] eqn:EF; [|done]. simplify_eq. cbn [concat].
    unfold readBlock. cbn [rd_data rd_fails]. destruct (Z.leb_spec size (len rest)) as [Hs|Hs].
    + rewrite (emit_collect s k prev false f E). rewrite app_assoc. apply IH; [|done|done].
      rewrite length_drop. unfold len in *. lia.
    + rewrite (proj2 (Z.eqb_neq (len rest) 0)) by lia. rewrite (emit_collect s k prev false f E), app_assoc.
      rewrite drop_ge, Split_nil, take_ge in EF by (unfold len in *; lia). apply IH; [unfold len in *; cbn [length]; lia|done|].
      by rewrite Split_nil.
Qed.

(** The whole stream, for a reader that ends. *)
Lemma streamBlocks_emits data start F :
  block_frags start (stream_blocks size data) = Ok F ->
  streamBlocks collect t size (mkReader data false) id sealer draw start [] = (concat F, SDone).
Proof using Hsize.
  intros HF. unfold streamBlocks. rewrite (proj2 (Z.leb_gt size 0)) by done.
  unfold readBlock. cbn [rd_data rd_fails]. destruct data as [|c data].
  - rewrite len_nil, (proj2 (Z.leb_gt size 0)) by lia. cbn [Z.eqb]. cbn [stream_blocks block_frags] in HF.
    destruct (encodeBlock _ _ _ _ true _ _) as [f|] eqn:E; [|done]. simplify_eq. cbn [concat]. rewrite app_nil_r.
    by apply (emit_collect []).
  - cbn [stream_blocks] in HF. rewrite Split_cons in HF by done. set (d := c :: data) in *.
    assert (Hd : 0 < len d) by (subst d; rewrite len_cons; pose proof (len_nonneg data); lia).
    destruct (Z.leb_spec size (len d)) as [Hs|Hs].
    + cbn [rd_data]. apply (stream_loop_blocks (S _) []); [lia|done|done].
    + rewrite (proj2 (Z.eqb_neq (len d) 0)) by lia. cbn [rd_data].
      rewrite drop_ge, take_ge in HF by (unfold len in *; lia). apply (stream_loop_blocks 1 []); [cbn; lia|done|by rewrite Split_nil in *].
Qed.
End SenderProofs.

(** ** The fragments of a block *)

(** [fs] are shards that any [d] of rebuild [blk] at the receiver. *)
Record rebuilds_block `{R : RSOps} (rcv : Sealer) (id : bytes) (d p : Z) (blk : bytes) (fs : list Fragment) : Prop := {
  rb_len : len fs = d + p;
  rb_pos : positioned id fs;
  rb_data P it : it ≡ₚ map_to_list (pmap (map f_Payload fs) P : gmap Z bytes) ->
    d <= len (List.filter P (seq 0 (length fs))) -> rs_assemble (Some rcv) id (len fs) d p (len blk) it = RData blk
}.

(** The shards of the blocks [bs], tagged with their block, the first being [k]. *)
Fixpoint tag_blocks (k : Z) (bs : list bytes) (Fs : list (list Fragment)) : list (list Fragment) :=
  match bs, Fs with
  | b :: bs, fs :: Fs => map (set_block k (len b) (match bs with [] => true | _ => false end)) fs :: tag_blocks (k + 1) bs Fs
  | _, _ => []
  end.

Lemma tag_blocks_lookup k bs Fs i fs blk :
  Fs !! i = Some fs -> bs !! i = Some blk ->
  tag_blocks k bs Fs !! i = Some (map (set_block (k + Z.of_nat i) (len blk) (S i =? length bs)%nat) fs).
Proof.
  revert k bs Fs. induction i as [|i IH]; intros k [|b bs] [|g Fs] Hf Hb; try done; cbn in Hf, Hb; simplify_eq.
  - cbn. rewrite Z.add_0_r. by destruct bs.
  - cbn [tag_blocks]. change ((?x :: ?l) !! S i) with (l !! i). cbn [lookup list_lookup]. rewrite (IH (k + 1) bs Fs Hf Hb).
    by replace (k + 1 + Z.of_nat i) with (k + Z.of_nat (S i)) by lia.
Qed.

Lemma tag_blocks_length k bs Fs : length Fs = length bs -> length (tag_blocks k bs Fs) = length bs.
Proof. revert k Fs. induction bs as [|b bs IH]; intros k [|fs Fs] H; cbn in *; try done. by rewrite IH by lia. Qed.

Section EncodeProofs.
Context `{R : RSOps} `{RL : !RSLaws R} (t : TransferConfig) (id : bytes) (snd rcv : Sealer) `{SP : !SealerPair snd rcv}.
Context (draw : Z -> list draws).
Abbreviation d := (tc_dataShards t).
Abbreviation p := (tc_parityShards t).
Context (Hd : 0 < d) (Hp : 0 < p) (Hsum : d + p <= 256).
Context (Hdraw : forall k, Forall wf_draws (draw k) /\ d + p <= len (draw k)).

Lemma encodeBlock_ok k data final :
  len data < 2 ^ 32 ->
  exists fs, encodeBlock t id k data final (Some snd) (draw k) = Ok (map (set_block k (len data) final) fs) /\
    rebuilds_block rcv id d p data fs.
Proof using RL SP Hd Hp Hsum Hdraw.
  intros Hlen. pose proof (len_nonneg data) as H0. destruct (Hdraw k) as [Hw Hdl].
  set (enc := if len data <? d then data ++ repeat x00 (Z.to_nat d - length data) else data).
  assert (Henc : d <= len enc /\ len data <= len enc /\ take (length data) enc = data).
  { subst enc. destruct (Z.ltb_spec (len data) d) as [Hs|Hs].
    - unfold len in *. rewrite length_app, repeat_length, take_app_length. split_and!; [lia|lia|done].
    - rewrite firstn_all. split_and!; [done|lia|done]. }
  destruct Henc as (He1 & He2 & He3).
  destruct (rs_assemble_ok snd rcv id enc d p (draw k) SP Hd Hp Hsum He1 Hw Hdl) as (fs & HF & Hlf & Hpos & Hrun).
  exists fs. unfold encodeBlock, NewRSFragmenter.
  rewrite (proj2 (Z.leb_gt d 0)), (proj2 (Z.leb_gt p 0)) by done. cbn [orb]. fold enc. rewrite HF.
  rewrite u32_id by (unfold is_u32; lia). split; [done|]. split; [done|done|].
  intros P it Hit Hn. rewrite (Hrun P (len data) it ltac:(lia) Hit Hn). f_equal. unfold len. by rewrite Nat2Z.id.
Qed.

Lemma block_frags_ok k bs :
  bs <> [] -> 0 <= k -> k + len bs <= 2 ^ 32 -> Forall (fun b => len b < 2 ^ 32) bs ->
  exists Fs, block_frags t id (Some snd) draw k bs = Ok (tag_blocks k bs Fs) /\ Forall2 (rebuilds_block rcv id d p) bs Fs.
Proof using RL SP Hd Hp Hsum Hdraw.
  revert k. induction bs as [|b bs IH]; intros k Hne Hk Hb Hs; [done|]. inversion_clear Hs as [|? ? Hs0 Hs'].
  rewrite len_cons in Hb. pose proof (len_nonneg bs). destruct bs as [|c bs].
  - destruct (encodeBlock_ok k b true Hs0) as (fs & HE & Hr). exists [fs]. cbn [block_frags tag_blocks]. rewrite HE. split; [done|].
    by constructor.
  - destruct (encodeBlock_ok k b false Hs0) as (fs & HE & Hr).
    destruct (IH (k + 1)) as (Fs & HF & HFs); [done|lia|lia|done|]. exists (fs :: Fs).
    rewrite block_frags_cons, HE, u32_id by (unfold is_u32; rewrite len_cons in *; pose proof (len_nonneg bs); lia).
    rewrite HF. split; [done|by constructor].
Qed.
End EncodeProofs.

(** ** The assembler *)

(** The first position from [i] on, within [todo] steps, where [P] fails. *)
Fixpoint leading (P : nat -> bool) (i todo : nat) : nat :=
  match todo with O => i | S todo => if P i then leading P (S i) todo else i end.

Lemma leading_spec P i n :
  (i <= leading P i n <= i + n)%nat /\ (forall j, (i <= j < leading P i n)%nat -> P j = true) /\
  ((leading P i n < i + n)%nat -> P (leading P i n) = false).
Proof.
  revert i. induction n as [|n IH]; intros i; cbn [leading]; [split_and!; [lia|lia|intros j Hj; lia|lia]|].
  destruct (P i) eqn:E; [|split_and!; [lia|lia|intros j Hj; lia|done]].
  destruct (IH (S i)) as (H1 & H2 & H3). split_and!; [lia|lia| |].
  - intros j Hj. destruct (decide (j = i)) as [->|]; [done|]. apply H2. lia.
  - intros H. apply H3. lia.
Qed.

Lemma leading_skip P k n : (forall j, (j < k)%nat -> P j = true) -> (k <= n)%nat -> leading P 0 n = leading P k (n - k).
Proof.
  intros HP Hk. destruct (leading_spec P 0 n) as (H1 & H2 & H3), (leading_spec P k (n - k)) as (K1 & K2 & K3).
  set (a := leading P 0 n) in *. set (b := leading P k (n - k)) in *.
  destruct (Nat.lt_trichotomy a b) as [Hl|[->|Hl]]; [|done|].
  - assert (P a = true) as Ha; [|rewrite H3 in Ha by lia; done].
    destruct (decide (a < k)%nat); [by apply HP|]. apply K2. lia.
  - assert (P b = true) as Hb by (apply H2; lia). rewrite K3 in Hb by lia. done.
Qed.

Lemma leading_ext P Q i n : (forall j, P j = Q j) -> leading P i n = leading Q i n.
Proof. intros H. revert i. induction n as [|n IH]; intros i; cbn [leading]; [done|]. by rewrite H, IH. Qed.

(** The packets of block [b]. *)
Definition on_block (b : nat) (arr : list Packet) : list Packet := List.filter (fun p => p_BlockIndex p =? Z.of_nat b) arr.

(** How many shards of block [b] have arrived. *)
Definition shards (sub : Z) (Fs : list (list Fragment)) (arr : list Packet) (b : nat) : Z :=
  match Fs !! b with Some fs => wholes sub fs (on_block b arr) | None => 0 end.

(** Block [b] has its data shards. *)
Definition block_ready (d sub : Z) (Fs : list (list Fragment)) (arr : list Packet) (b : nat) : bool := d <=? shards sub Fs arr b.

(** How many leading blocks have their data shards. *)
Definition flushed (d sub : Z) (Fs : list (list Fragment)) (arr : list Packet) : nat :=
  leading (block_ready d sub Fs arr) 0 (length Fs).

Definition end_events (sink : bool) (data rb : bytes) (src : string) (id : bytes) : list stream_event :=
  (if sink then [SClose] else [SData data]) ++
  (if 0 <? len rb then [SAckReply rb] else if negb (String.eqb src "") then [SAck src id] else []).

Section AssemblerProofs.
Context `{R : RSOps} `{C : CryptoOps} (t : TransferConfig) (ord : gmap Z bytes -> list (Z * bytes)).
Context (Hord : forall m, ord m ≡ₚ map_to_list m).
Context (id : bytes) (sub d p : Z) (sc : scheme) (rcv : Sealer) (bs : list bytes) (Fs : list (list Fragment)).
Context (sink : bool) (rb : bytes) (src : string).
Context (Hopen : recipientOpener t (mkScheme 0 0 0 false false (sc_HybridSealed sc) (sc_PQ sc) false) = Some rcv).
Context (Hscd : sc_DataShards sc = d) (Hscp : sc_ParityShards sc = p) (Hd : 0 < d) (Hp : 0 < p) (Hsum : d + p <= 256).
Context (HFs : Forall2 (rebuilds_block rcv id d p) bs Fs) (HN : len bs < 2 ^ 32).
Context (Hpb : forall fs f, fs ∈ Fs -> f ∈ fs -> len (fragmentPieces f sub) < 2 ^ 32).

Abbreviation ready := (block_ready d sub Fs).
Abbreviation N := (length bs).

Lemma Fs_length : length Fs = N.
Proof using HFs. symmetry. by eapply Forall2_length. Qed.

(** [pkt] carries piece [j] of shard [i] of block [b]. *)
Record block_packet (pkt : Packet) (b i j : nat) (fs : list Fragment) (blk : bytes) : Prop := {
  bp_Fs : Fs !! b = Some fs;
  bp_bs : bs !! b = Some blk;
  bp_carries : carries id fs sub sc pkt i j;
  bp_index : p_BlockIndex pkt = Z.of_nat b;
  bp_len : p_BlockLen pkt = len blk;
  bp_final : p_Final pkt = (S b =? N)%nat
}.

Lemma block_lookup b : (b < N)%nat -> exists fs blk, Fs !! b = Some fs /\ bs !! b = Some blk /\ rebuilds_block rcv id d p blk fs.
Proof using HFs.
  intros [blk Hb]%lookup_lt_is_Some_2. destruct (Forall2_lookup_l _ _ _ _ _ HFs Hb) as (fs & Hf & Hr). by exists fs, blk.
Qed.

Lemma sent_block_packet pkt :
  sent id (concat (tag_blocks 0 bs Fs)) sub sc pkt -> exists b i j fs blk, block_packet pkt b i j fs blk.
Proof using HFs Hpb.
  intros (f & pc & Hf & Hpc & Hk)%sent_packs. apply list_elem_of_In, in_concat in Hf as (l & Hl & Hf).
  apply list_elem_of_In, list_elem_of_lookup_1 in Hl as [b Hb]. apply list_elem_of_In in Hf.
  assert (Hlt : (b < N)%nat) by (apply lookup_lt_Some in Hb; rewrite tag_blocks_length in Hb; [done|apply Fs_length]).
  destruct (block_lookup b Hlt) as (fs & blk & Hfs & Hblk & Hr).
  rewrite (tag_blocks_lookup 0 bs Fs b fs blk Hfs Hblk) in Hb. injection Hb as <-.
  apply list_elem_of_fmap in Hf as (g & -> & Hg). apply list_elem_of_lookup_1 in Hg as [i Hi].
  pose proof (rb_pos _ _ _ _ _ _ Hr i g Hi) as Hgi.
  assert (Hpieces : len (fragmentPieces (set_block (0 + Z.of_nat b) (len blk) (S b =? N)%nat g) sub) < 2 ^ 32).
  { pose proof (Hpb fs g ltac:(by eapply list_elem_of_lookup_2) ltac:(by eapply list_elem_of_lookup_2)) as H.
    assert (He : length (piece_payloads sub (set_block (0 + Z.of_nat b) (len blk) (S b =? N)%nat g)) = length (piece_payloads sub g))
      by (f_equal; by apply piece_payloads_payload).
    unfold piece_payloads in He. rewrite !length_map in He. unfold len in *. lia. }
  destruct (packs_carries id fs sub sc g (set_block (0 + Z.of_nat b) (len blk) (S b =? N)%nat g) pc pkt i) as [j Hj];
    [done|by rewrite Hgi|by rewrite Hgi|done|done|done|done|].
  destruct (fragmentPieces_spec _ _ Hpieces) as (_ & _ & Hs). destruct (Hs pc Hpc) as (j' & q & _ & ->).
  exists b, i, j, fs, blk. split; try done.
  - by rewrite (pk_block _ _ _ _ Hk).
  - by rewrite (pk_blocklen _ _ _ _ Hk).
  - by rewrite (pk_final _ _ _ _ Hk).
Qed.

Lemma on_block_snoc b arr pkt :
  on_block b (arr ++ [pkt]) = if p_BlockIndex pkt =? Z.of_nat b then on_block b arr ++ [pkt] else on_block b arr.
Proof using Type.
  unfold on_block. rewrite List.filter_app. cbn [List.filter]. destruct (_ =? _); [done|apply app_nil_r].
Qed.

Lemma shards_other arr pkt b i j fs blk b' :
  block_packet pkt b i j fs blk -> b' <> b -> shards sub Fs (arr ++ [pkt]) b' = shards sub Fs arr b'.
Proof using Type.
  intros H Hne. unfold shards. rewrite on_block_snoc, (bp_index _ _ _ _ _ _ H), (proj2 (Z.eqb_neq (Z.of_nat b) (Z.of_nat b'))) by lia. done.
Qed.

Lemma ready_mono arr pkt b i j fs blk b' :
  block_packet pkt b i j fs blk -> ready arr b' = true -> ready (arr ++ [pkt]) b' = true.
Proof using Type.
  intros H. unfold block_ready. rewrite !Z.leb_le. intros Hr. etrans; [exact Hr|]. unfold shards. destruct (Fs !! b'); [|done]. rewrite on_block_snoc.
  destruct (_ =? _); [apply wholes_mono|done].
Qed.

Lemma not_ready_nil arr b fs : Fs !! b = Some fs -> on_block b arr = [] -> ready arr b = false.
Proof using Hpb Hd.
  intros Hfs He. apply Z.leb_gt. unfold shards. rewrite Hfs, He. unfold wholes.
  rewrite (List.filter_ext _ (fun _ => false)); [|intros j; apply whole_nil; intros g Hg; eapply Hpb; [by eapply list_elem_of_lookup_2|done]].
  by rewrite List.filter_false.
Qed.

(** What the assembler holds of a block that is not flushed. *)
Definition block_ok (arr : list Packet) (b : nat) (o : option streamBlock) : Prop :=
  forall fs blk, Fs !! b = Some fs -> bs !! b = Some blk ->
  match o with
  | None => on_block b arr = []
  | Some k =>
      sb_total k = len fs /\ sb_blockLen k = len blk /\ sb_final k = (S b =? N)%nat /\
      if ready arr b then sb_ready k = true /\ sb_data k = blk
      else sb_ready k = false /\ pieces fs sub (on_block b arr) (sb_received k) (sb_chunks k) (sb_subParts k)
  end.

Record assembling (arr : list Packet) (k : nat) (sa : streamAssembler) : Prop := {
  as_id : sa_id sa = id;
  as_d : sa_dataShards sa = d;
  as_p : sa_parityShards sa = p;
  as_flags : sa_hybridSealed sa = sc_HybridSealed sc /\ sa_pq sa = sc_PQ sc;
  as_end : sa_sink sa = sink /\ sa_replyBlock sa = rb /\ sa_sourceNode sa = src;
  as_open : sa_done sa = false;
  as_written : sa_written sa = take k bs;
  as_next : sa_nextFlush sa = Z.of_nat k;
  as_before b : (b < k)%nat -> ready arr b = true;
  as_blocks b : (k <= b < N)%nat -> block_ok arr b (sa_blocks sa !! Z.of_nat b)
}.

(** The state after the last block has been flushed. *)
Definition finished (sa : streamAssembler) : Prop := sa_done sa = true /\ sa_written sa = bs.

(** Flushing from block [k]: every leading block that is ready. *)
Lemma flush_loop_ok fuel arr k sa :
  assembling arr k sa -> (k < N)%nat -> (size (sa_blocks sa) <= fuel)%nat ->
  let r := leading (ready arr) k (N - k) in
  let '(sa', evs) := flush_loop fuel sa in
  if (r =? N)%nat then finished sa' /\ evs = end_events sink (concat bs) rb src id
  else assembling arr r sa' /\ evs = [].
Proof using HFs HN Hd Hpb.
  revert k sa. induction fuel as [|fuel IH]; intros k sa Ha Hk Hf; cbn zeta; destruct (block_lookup k Hk) as (fs & blk & Hfs & Hblk & Hrb);
    pose proof (as_blocks _ _ _ Ha k ltac:(lia) fs blk Hfs Hblk) as Hbk; (destruct (N - k)%nat as [|n] eqn:En; [lia|]); cbn [leading flush_loop].
  - assert (He : sa_blocks sa = ∅) by (apply map_size_empty_iff; lia). rewrite He, lookup_empty in Hbk.
    rewrite (not_ready_nil arr k fs Hfs Hbk), (proj2 (Nat.eqb_neq k N)) by lia. done.
  - rewrite (as_next _ _ _ Ha). destruct (sa_blocks sa !! Z.of_nat k) as [b|] eqn:Eb.
    2: { rewrite (not_ready_nil arr k fs Hfs Hbk), (proj2 (Nat.eqb_neq k N)) by lia. done. }
    destruct Hbk as (_ & _ & Hfin & Hst). destruct (ready arr k) eqn:Er.
    2: { destruct Hst as [-> _]. cbn [negb]. by rewrite (proj2 (Nat.eqb_neq k N)) by lia. }
    destruct Hst as [-> Hdata]. cbn [negb]. rewrite Hfin, Hdata. set (sa1 := flush_one sa blk).
    assert (Hw : sa_written sa1 = take (S k) bs).
    { subst sa1. cbn [flush_one sa_written]. rewrite (as_written _ _ _ Ha). symmetry. by apply take_S_r. }
    destruct (Nat.eqb_spec (S k) N) as [HkN|HkN].
    + assert (n = 0)%nat as -> by lia. cbn [leading]. rewrite HkN, Nat.eqb_refl. unfold finish.
      assert (Hc : sa_id sa1 = id /\ sa_sink sa1 = sink /\ sa_replyBlock sa1 = rb /\ sa_sourceNode sa1 = src) by (split; [apply Ha|apply Ha]).
      destruct Hc as (-> & -> & -> & ->). rewrite Hw, take_ge by lia. split; [|done]. split; [done|].
      cbn [set_done sa_written]. rewrite Hw. apply take_ge. lia.
    + specialize (IH (S k) sa1). cbn zeta in IH. replace (N - S k)%nat with n in IH by lia. apply IH; [|lia|].
      * destruct Ha as [? ? ? ? ? ? ? Hnx Hbf Hbl]. split; try done.
        -- subst sa1. cbn [flush_one sa_nextFlush]. rewrite Hnx. rewrite u32_id by (unfold is_u32, len in *; lia). lia.
        -- intros b' Hb'. destruct (decide (b' = k)) as [->|]; [done|]. apply Hbf. lia.
        -- intros b' Hb'. subst sa1. cbn [flush_one sa_blocks]. rewrite Hnx, lookup_delete_ne by lia. apply Hbl. lia.
      * subst sa1. cbn [flush_one sa_blocks]. rewrite (as_next _ _ _ Ha), map_size_delete, Eb. lia.
Qed.

(** A packet stored in its block, before flushing. *)
Lemma add_stored arr k sa pkt b i j fs blk blk' :
  assembling arr k sa -> block_packet pkt b i j fs blk ->
  ((k <= b)%nat -> block_ok (arr ++ [pkt]) b (Some blk')) ->
  assembling (arr ++ [pkt]) k (set_blocks sa (<[p_BlockIndex pkt := blk']> (sa_blocks sa))).
Proof using Type.
  intros Ha H Hb. destruct Ha as [? ? ? ? ? ? ? ? Hbf Hbl]. split; try done.
  - intros b' Hb'. eapply ready_mono; [done|]. by apply Hbf.
  - intros b' Hb'. cbn [set_blocks sa_blocks]. rewrite (bp_index _ _ _ _ _ _ H).
    destruct (decide (b' = b)) as [->|Hne]; [rewrite lookup_insert_eq; apply Hb; lia|].
    rewrite lookup_insert_ne by lia. intros fs' blk0 Hfs' Hblk'. specialize (Hbl b' Hb' fs' blk0 Hfs' Hblk').
    assert (Ho : on_block b' (arr ++ [pkt]) = on_block b' arr).
    { rewrite on_block_snoc, (bp_index _ _ _ _ _ _ H), (proj2 (Z.eqb_neq (Z.of_nat b) (Z.of_nat b'))) by lia. done. }
    unfold block_ready in *. rewrite Ho, (shards_other arr pkt b i j fs blk b' H Hne). exact Hbl.
Qed.

(** The block of a packet, with its buffers, once the packet is absorbed. *)
Lemma absorb_block arr b i j fs blk pkt o :
  block_packet pkt b i j fs blk -> block_ok arr b o -> ready arr b = false ->
  let k := absorbStreamPiece (match o with Some k => k | None => new_block pkt end) pkt in
  sb_total k = len fs /\ sb_blockLen k = len blk /\ sb_final k = (S b =? N)%nat /\ sb_ready k = false /\
  pieces fs sub (on_block b (arr ++ [pkt])) (sb_received k) (sb_chunks k) (sb_subParts k).
Proof using Hpb.
  intros H Ho Hr. specialize (Ho fs blk (bp_Fs _ _ _ _ _ _ H) (bp_bs _ _ _ _ _ _ H)). rewrite Hr in Ho.
  assert (Hsmall : forall f, f ∈ fs -> len (fragmentPieces f sub) < 2 ^ 32).
  { intros f Hf. eapply Hpb; [|done]. eapply list_elem_of_lookup_2, H. }
  assert (Hk : exists k, match o with Some k => k | None => new_block pkt end = k /\ sb_total k = len fs /\ sb_blockLen k = len blk /\
    sb_final k = (S b =? N)%nat /\ sb_ready k = false /\ pieces fs sub (on_block b arr) (sb_received k) (sb_chunks k) (sb_subParts k)).
  { destruct o as [k|]; [destruct Ho as (? & ? & ? & ? & ?); by exists k|]. eexists. split; [done|]. rewrite Ho.
    cbn [new_block sb_total sb_blockLen sb_final sb_ready sb_received sb_chunks sb_subParts].
    split_and!; [apply H|apply H|apply H|done|by apply pieces_nil]. }
  destruct Hk as (k & -> & H1 & H2 & H3 & H4 & H5).
  rewrite on_block_snoc, (bp_index _ _ _ _ _ _ H), Z.eqb_refl. unfold absorbStreamPiece.
  pose proof (pieces_absorb id fs sub sc (on_block b arr) _ _ _ pkt i j Hsmall H5 (bp_carries _ _ _ _ _ _ H)) as Hp'.
  destruct (absorbSubChunk (sb_received k) (sb_subParts k) pkt) as [sp r]. by destruct r.
Qed.

Lemma reconstruct_ok arr b fs blk sa k it :
  sa_id sa = id -> sa_dataShards sa = d -> sa_parityShards sa = p -> sa_hybridSealed sa = sc_HybridSealed sc /\ sa_pq sa = sc_PQ sc ->
  Fs !! b = Some fs -> bs !! b = Some blk -> sb_total k = len fs -> sb_blockLen k = len blk ->
  pieces fs sub (on_block b arr) (sb_received k) (sb_chunks k) (sb_subParts k) -> it ≡ₚ map_to_list (sb_chunks k) ->
  ready arr b = true -> reconstructBlock t it sa k = RData blk.
Proof using Hopen HFs.
  intros Hi Hd' Hp' [Hh Hq] Hfs Hblk Ht Hl Hpc Hit Hr. unfold reconstructBlock. rewrite Hh, Hq, Hopen, Hi, Hd', Hp', Ht, Hl.
  destruct (Forall2_lookup_lr _ _ _ _ _ _ HFs Hblk Hfs) as [_ _ Hdata]. eapply Hdata.
  - rewrite Hit. by rewrite (pc_Chunks _ _ _ _ _ _ Hpc).
  - apply Z.leb_le in Hr. unfold shards in Hr. rewrite Hfs in Hr. exact Hr.
Qed.

(** The number of blocks flushed. *)
Abbreviation flushed_now := (flushed d sub Fs).

Lemma flushed_same arr pkt b i j fs blk :
  block_packet pkt b i j fs blk -> ready arr b = true -> flushed_now (arr ++ [pkt]) = flushed_now arr.
Proof using Type.
  intros H Hr. unfold flushed. apply leading_ext. intros b'. destruct (decide (b' = b)) as [->|Hne].
  - by rewrite (ready_mono arr pkt b i j fs blk b H Hr).
  - unfold block_ready. by rewrite (shards_other arr pkt b i j fs blk b' H Hne).
Qed.

(** The assembler after [arr], and what the last packet made it emit. *)
Definition progressed (arr : list Packet) (sa : streamAssembler) (evs : list stream_event) : Prop :=
  if (flushed_now arr =? N)%nat then finished sa /\ evs = end_events sink (concat bs) rb src id
  else assembling arr (flushed_now arr) sa /\ evs = [].

Definition add_ok (arr : list Packet) (r : added) : Prop :=
  match r with Added sa evs => progressed arr sa evs | AddPanic => False end.

Lemma add_flush arr sa pkt b i j fs blk blk' :
  assembling arr (flushed_now arr) sa -> (flushed_now arr < N)%nat -> block_packet pkt b i j fs blk ->
  ((flushed_now arr <= b)%nat -> block_ok (arr ++ [pkt]) b (Some blk')) ->
  add_ok (arr ++ [pkt]) (let '(sa, evs) := flushReady (set_blocks sa (<[p_BlockIndex pkt := blk']> (sa_blocks sa))) in Added sa evs).
Proof using HFs HN Hd Hpb.
  intros Ha Hk H Hok. pose proof (add_stored arr _ sa pkt b i j fs blk blk' Ha H Hok) as Hst.
  pose proof (flush_loop_ok _ (arr ++ [pkt]) _ _ Hst Hk (le_n _)) as Hfl. unfold flushReady.
  rewrite <- leading_skip in Hfl by (first [apply Hst|lia]).
  destruct (flush_loop _ _) as [sa' evs]. cbn [add_ok]. unfold progressed, flushed at 1 2. by rewrite Fs_length.
Qed.

Lemma add_quiet arr sa pkt b i j fs blk blk' :
  assembling arr (flushed_now arr) sa -> (flushed_now arr < N)%nat -> block_packet pkt b i j fs blk -> ready arr b = true ->
  ((flushed_now arr <= b)%nat -> block_ok (arr ++ [pkt]) b (Some blk')) ->
  add_ok (arr ++ [pkt]) (Added (set_blocks sa (<[p_BlockIndex pkt := blk']> (sa_blocks sa))) []).
Proof using All.
  intros Ha Hk H Hr Hok. cbn [add_ok]. unfold progressed. rewrite (flushed_same arr pkt b i j fs blk H Hr).
  rewrite (proj2 (Nat.eqb_neq _ N)) by lia. split; [|done]. by eapply add_stored.
Qed.

Lemma reconstruct_no_panic arr k sa it b : assembling arr k sa -> reconstructBlock t it sa b <> RPanic.
Proof using Hopen.
  intros Ha. unfold reconstructBlock. destruct (as_flags _ _ _ Ha) as [-> ->]. rewrite Hopen. cbn [rs_assemble].
  by destruct (Reconstruct _ _).
Qed.

(** [block_ok] need only be shown at the block's own shards and data. *)
Lemma block_ok_intro arr pkt b i j fs blk k :
  block_packet pkt b i j fs blk -> sb_total k = len fs -> sb_blockLen k = len blk -> sb_final k = (S b =? N)%nat ->
  (if ready arr b then sb_ready k = true /\ sb_data k = blk
   else sb_ready k = false /\ pieces fs sub (on_block b arr) (sb_received k) (sb_chunks k) (sb_subParts k)) ->
  block_ok arr b (Some k).
Proof using Type.
  intros H H1 H2 H3 H4 fs' blk' Hfs Hblk. rewrite (bp_Fs _ _ _ _ _ _ H) in Hfs. rewrite (bp_bs _ _ _ _ _ _ H) in Hblk.
  injection Hfs as <-. injection Hblk as <-. split_and!; assumption.
Qed.

(** A packet of a block that still lacks shards. *)
Lemma add_open_block arr sa pkt b i j fs blk :
  assembling arr (flushed_now arr) sa -> (flushed_now arr <= b < N)%nat -> block_packet pkt b i j fs blk -> ready arr b = false ->
  let b0 := match sa_blocks sa !! p_BlockIndex pkt with Some b => b | None => new_block pkt end in
  let b1 := absorbStreamPiece b0 pkt in
  let store b := let '(sa, evs) := flushReady (set_blocks sa (<[p_BlockIndex pkt := b]> (sa_blocks sa))) in Added sa evs in
  sb_ready b0 = false /\
  add_ok (arr ++ [pkt])
    (if u32 (sa_dataShards sa) <=? u32 (Z.of_nat (size (sb_received b1))) then
       match reconstructBlock t (ord (sb_chunks b1)) sa b1 with
       | RData data => store (mkBlock (sb_total b1) (sb_blockLen b1) (sb_final b1) ∅ ∅ ∅ data true)
       | RFail => store b1
       | RPanic => AddPanic
       end
     else store b1).
Proof using All.
  intros Ha Hk H Hr. cbn zeta. pose proof (as_blocks _ _ _ Ha b ltac:(lia)) as Hob.
  rewrite <- (bp_index _ _ _ _ _ _ H) in Hob.
  destruct (absorb_block arr b i j fs blk pkt (sa_blocks sa !! p_BlockIndex pkt) H Hob Hr) as (A1 & A2 & A3 & A4 & A5). split.
  { unfold absorbStreamPiece in A4. destruct (absorbSubChunk _ _ _) as [sp r]. by destruct r. }
  set (b1 := absorbStreamPiece _ pkt) in *.
  assert (Hcond : (u32 (sa_dataShards sa) <=? u32 (Z.of_nat (size (sb_received b1)))) = ready (arr ++ [pkt]) b).
  { rewrite (as_d _ _ _ Ha), (pieces_count _ _ _ _ _ _ A5). unfold block_ready, shards. rewrite (bp_Fs _ _ _ _ _ _ H).
    pose proof (wholes_le fs sub (on_block b (arr ++ [pkt]))) as Hle. assert (0 <= wholes sub fs (on_block b (arr ++ [pkt]))) by apply len_nonneg.
    destruct (Forall2_lookup_lr _ _ _ _ _ _ HFs (bp_bs _ _ _ _ _ _ H) (bp_Fs _ _ _ _ _ _ H)) as [Hlf _ _].
    by rewrite !u32_id by (unfold is_u32; lia). }
  rewrite Hcond. destruct (ready (arr ++ [pkt]) b) eqn:Hr'.
  - rewrite (reconstruct_ok (arr ++ [pkt]) b fs blk sa b1 (ord (sb_chunks b1))); try done; try (by apply Ha); try (by apply H); try apply Hord.
    eapply add_flush; [done|lia|done|]. intros _. by eapply block_ok_intro; [done|done|done|done|]; rewrite Hr'.
  - eapply add_flush; [done|lia|done|]. intros _. eapply block_ok_intro; [done|done|done|done|]. by rewrite Hr'.
Qed.

Lemma add_step now arr sa pkt :
  assembling arr (flushed_now arr) sa -> (flushed_now arr < N)%nat -> sent id (concat (tag_blocks 0 bs Fs)) sub sc pkt ->
  add_ok (arr ++ [pkt]) (add t now ord sa pkt).
Proof using All.
  intros Ha Hk Hs. destruct (sent_block_packet pkt Hs) as (b & i & j & fs & blk & H). unfold add. rewrite (as_open _ _ _ Ha).
  assert (Ha' : assembling arr (flushed_now arr) (set_activity sa now)) by (by destruct Ha). clear Ha.
  set (sa0 := set_activity sa now) in *. pose proof (lookup_lt_Some _ _ _ (bp_bs _ _ _ _ _ _ H)) as HbN.
  destruct (decide (b < flushed_now arr)%nat) as [Hbk|Hbk]; [|destruct (ready arr b) eqn:Hr].
  - pose proof (as_before _ _ _ Ha' b Hbk) as Hr. cbv zeta.
    destruct (sb_ready _); [eapply add_quiet; [done..|lia]|].
    destruct (_ <=? _); [|eapply add_flush; [done..|lia]].
    destruct (reconstructBlock _ _ _ _) as [data| |] eqn:Er; [eapply add_flush; [done..|lia]|eapply add_flush; [done..|lia]|].
    by apply (reconstruct_no_panic _ _ _ _ _ Ha') in Er.
  - pose proof (as_blocks _ _ _ Ha' b ltac:(lia) fs blk (bp_Fs _ _ _ _ _ _ H) (bp_bs _ _ _ _ _ _ H)) as Hb.
    rewrite (bp_index _ _ _ _ _ _ H). destruct (sa_blocks sa0 !! Z.of_nat b) as [b0|] eqn:Eb0.
    2: { by rewrite (not_ready_nil arr b fs (bp_Fs _ _ _ _ _ _ H) Hb) in Hr. }
    rewrite Hr in Hb. destruct Hb as (? & ? & ? & Hrd & ?). cbv zeta. rewrite Hrd, <- (bp_index _ _ _ _ _ _ H).
    eapply add_quiet; [done..|]. intros _. eapply block_ok_intro; [done..|]. by rewrite (ready_mono arr pkt b i j fs blk b H Hr).
  - destruct (add_open_block arr sa0 pkt b i j fs blk Ha' ltac:(lia) H Hr) as [H0 H1]. cbv zeta in *. by rewrite H0.
Qed.

Lemma flushed_le arr : (flushed_now arr <= N)%nat.
Proof using HFs. unfold flushed. rewrite Fs_length. destruct (leading_spec (ready arr) 0 N) as [[_ H] _]. exact H. Qed.

(** Once every block is flushed, a further packet changes nothing. *)
Lemma flushed_all arr pkt :
  flushed_now arr = N -> sent id (concat (tag_blocks 0 bs Fs)) sub sc pkt -> flushed_now (arr ++ [pkt]) = N.
Proof using HFs Hpb.
  intros Hk Hs. destruct (sent_block_packet pkt Hs) as (b & i & j & fs & blk & H).
  rewrite (flushed_same arr pkt b i j fs blk H); [done|].
  destruct (leading_spec (ready arr) 0 (length Fs)) as (_ & Hr & _). apply Hr. pose proof (lookup_lt_Some _ _ _ (bp_bs _ _ _ _ _ _ H)).
  unfold flushed in Hk. lia.
Qed.

Lemma flushed_nil : N <> 0%nat -> flushed_now [] = 0%nat.
Proof using HFs Hd Hpb.
  intros HN0. destruct (block_lookup 0) as (fs & blk & Hfs & _); [lia|]. unfold flushed. rewrite Fs_length.
  destruct N; [done|]. cbn [leading]. by rewrite (not_ready_nil [] 0 fs Hfs).
Qed.

Lemma add_all_ok now0 pkt0 arr :
  N <> 0%nat -> schemeFromPacket pkt0 = sc -> p_ID pkt0 = id -> p_ReplyBlock pkt0 = rb -> p_SourceNode pkt0 = src ->
  Forall (sent id (concat (tag_blocks 0 bs Fs)) sub sc) (map snd arr) ->
  exists sa evs, stream_add_all t ord (newStreamAssembler now0 sink pkt0) arr = Some (sa, evs) /\
    if (flushed_now (map snd arr) =? N)%nat then finished sa /\ evs = end_events sink (concat bs) rb src id
    else assembling (map snd arr) (flushed_now (map snd arr)) sa /\ evs = [].
Proof using All.
  intros HN0 Hsc Hid Hrb Hsrc. induction arr as [|[now pkt] arr IH] using rev_ind; intros Hall.
  - eexists _, _. split; [done|]. cbn [map]. rewrite (flushed_nil HN0), (proj2 (Nat.eqb_neq 0 N)) by lia. split; [|done].
    split; cbn; try done; [by rewrite <- Hscd, <- Hsc|by rewrite <- Hscp, <- Hsc|by rewrite <- Hsc|].
    intros b Hb. lia.
  - rewrite map_app in *. apply Forall_app in Hall as [Hall Hp']. inversion_clear Hp' as [|? ? Hs _].
    destruct (IH Hall) as (sa & evs & Hrun & Hst). unfold stream_add_all in *. rewrite fold_left_app, Hrun. cbn [fold_left fst snd map].
    cbn [map snd] in Hs. destruct (Nat.eqb_spec (flushed_now (map snd arr)) N) as [Hk|Hk].
    + destruct Hst as [[Hdone Hw] ->]. eexists _, _. unfold add. rewrite Hdone. split; [done|].
      rewrite (flushed_all _ _ Hk Hs), Nat.eqb_refl, app_nil_r. done.
    + destruct Hst as [Ha ->]. pose proof (flushed_le (map snd arr)).
      pose proof (add_step now (map snd arr) sa pkt Ha ltac:(lia) Hs) as Hstep.
      destruct (add _ _ _ _ _) as [sa' evs'|]; [|done]. by exists sa', evs'.
Qed.
End AssemblerProofs.

(** ** Resuming *)

Lemma Split_drop data c k :
  0 < c -> Split (drop (k * Z.to_nat c) data) c = drop k (Split data c).
Proof.
  intros Hc. revert data. induction k as [|k IH]; intros data; [by rewrite !drop_0|].
  destruct (decide (data = [])) as [->|Hne]; [by rewrite drop_nil, Split_nil, drop_nil|].
  rewrite (Split_cons data c Hc Hne). cbn [drop]. rewrite <- IH, drop_drop. done.
Qed.

Lemma stream_blocks_drop data size k :
  0 < size -> (k < length (stream_blocks size data))%nat ->
  stream_blocks size (drop (k * Z.to_nat size) data) = drop k (stream_blocks size data).
Proof.
  intros Hs Hk. destruct data as [|c data]; cbn [stream_blocks] in *.
  - assert (k = 0)%nat as -> by (cbn in Hk; lia). done.
  - rewrite <- Split_drop by done. destruct (drop (k * Z.to_nat size) (c :: data)) as [|c' data'] eqn:E; [|done].
    exfalso. assert (H : drop k (Split (c :: data) size) = []) by (by rewrite <- Split_drop, E, Split_nil).
    apply (f_equal length) in H. rewrite length_drop in H. cbn in H. lia.
Qed.

Lemma block_frags_drop `{R : RSOps} t id sealer draw k j bs F :
  0 <= j -> j + len bs <= 2 ^ 32 -> (k < length bs)%nat -> block_frags t id sealer draw j bs = Ok F ->
  block_frags t id sealer draw (j + Z.of_nat k) (drop k bs) = Ok (drop k F).
Proof.
  revert j bs F. induction k as [|k IH]; intros j bs F Hj Hb Hk HF; [by rewrite Z.add_0_r, !drop_0|].
  destruct bs as [|b [|c bs]]; [cbn in Hk; lia|cbn in Hk; lia|]. rewrite block_frags_cons in HF.
  destruct (encodeBlock _ _ _ _ _ _ _) as [f|]; [|done]. cbn [drop]. rewrite !len_cons in Hb. pose proof (len_nonneg bs).
  destruct (block_frags _ _ _ _ (u32 (j + 1)) _) as [F'|] eqn:E; [|done]. injection HF as <-. cbn [drop].
  rewrite u32_id in E by (unfold is_u32; lia). replace (j + Z.of_nat (S k)) with (j + 1 + Z.of_nat k) by lia.
  apply IH; [lia|rewrite len_cons; lia|cbn in *; lia|done].
Qed.

(** ** Termination *)

Lemma emit_fuel `{R : RSOps} {S} (send : S -> Fragment -> S * bool) t id sealer ds s k data final :
  snd (emit send t id sealer ds s k data final) <> SOutOfFuel.
Proof. unfold emit. destruct (encodeBlock _ _ _ _ _ _ _); [|done]. destruct (send_all _ _ _) as [s' []]; done. Qed.

Lemma readBlock_shrinks size r blk fin r' :
  0 < size -> readBlock size r = (Some (Some blk, fin), r') -> (length (rd_data r') < length (rd_data r))%nat.
Proof.
  intros Hs. unfold readBlock. destruct (Z.leb_spec size (len (rd_data r))) as [H|H].
  - intros [= _ _ <-]. cbn [rd_data]. rewrite length_drop. unfold len in *. lia.
  - destruct (rd_fails r); [done|]. destruct (Z.eqb_spec (len (rd_data r)) 0) as [H0|H0]; [done|].
    intros [= _ _ <-]. cbn. unfold len in *. lia.
Qed.

Lemma stream_loop_fuel `{R : RSOps} {S} (send : S -> Fragment -> S * bool) fuel t size id sealer draw s r k prev fin :
  0 < size -> (length (rd_data r) < fuel)%nat -> snd (stream_loop send fuel t size id sealer draw s r k prev fin) <> SOutOfFuel.
Proof.
  intros Hs. revert s r k prev fin. induction fuel as [|fuel IH]; intros s r k prev fin Hf; [lia|]. cbn [stream_loop].
  destruct fin; [apply emit_fuel|]. destruct (readBlock size r) as [[[[next|] nf]|] r'] eqn:Er; [|apply emit_fuel|done].
  apply readBlock_shrinks in Er; [|done].
  pose proof (emit_fuel send t id sealer (draw k) s k prev false) as He.
  destruct (emit _ _ _ _ _ _ _ _ _) as [s' []]; try done. apply IH. lia.
Qed.

(** ** Claims *)

(** Whatever the reader holds or fails with, whatever the callback answers and
    whatever the block size configured (zero and negative included), the sending loop
    of a stream comes to an end: it reports success or one of the three errors of
    the code. *)
Theorem streamBlocks_terminates `{R : RSOps} {S} (send : S -> Fragment -> S * bool) t streamBlockSize r id sealer draw start s :
  match snd (streamBlocks send t streamBlockSize r id sealer draw start s) with
  | SDone | SReadError | SEncodeError _ | SSendError => True
  | SOutOfFuel => False
  end.
Proof.
  assert (H : snd (streamBlocks send t streamBlockSize r id sealer draw start s) <> SOutOfFuel); [|by destruct (snd _)].
  unfold streamBlocks. cbv zeta. set (size := if streamBlockSize <=? 0 then _ else _).
  assert (Hs : 0 < size) by (subst size; destruct (Z.leb_spec streamBlockSize 0); [done|lia]).
  destruct (readBlock size r) as [[[[prev|] pf]|] r'] eqn:Er; [|apply emit_fuel|done].
  apply stream_loop_fuel; [done|lia].
Qed.

(** C5: A stream sent in blocks is delivered block by block.  The sender emits the
    shards of every block of the data and succeeds.  A receiver to which any of
    these shards arrive, in any order, lost, duplicated or cut in pieces, has at any
    time written exactly the leading blocks of which [dataShards] shards are there,
    in order; it never panics, and it closes the sink (or hands over the data) and
    acknowledges once, exactly when the last block is written. *)
Theorem stream_delivery `{R : RSOps} `{RL : !RSLaws R} `{C : CryptoOps} (t rt : TransferConfig) ord size data id (snd rcv : Sealer)
    `{SP : !SealerPair snd rcv} draw sc sub hasSink :
  (forall m : gmap Z bytes, ord m ≡ₚ map_to_list m) ->
  0 < size < 2 ^ 32 -> len (stream_blocks size data) < 2 ^ 32 ->
  0 < tc_dataShards t -> 0 < tc_parityShards t -> tc_dataShards t + tc_parityShards t <= 256 ->
  (forall k, Forall wf_draws (draw k) /\ tc_dataShards t + tc_parityShards t <= len (draw k)) ->
  sc_DataShards sc = tc_dataShards t -> sc_ParityShards sc = tc_parityShards t ->
  recipientOpener rt (mkScheme 0 0 0 false false (sc_HybridSealed sc) (sc_PQ sc) false) = Some rcv ->
  let blocks := stream_blocks size data in
  concat blocks = data /\
  exists Fs, let frags := concat (tag_blocks 0 blocks Fs) in
    streamBlocks collect t size (mkReader data false) id (Some snd) draw 0 [] = (frags, SDone) /\ length Fs = length blocks /\
    ((forall fs f, fs ∈ Fs -> f ∈ fs -> len (fragmentPieces f sub) < 2 ^ 32) ->
     forall now0 pkt0 arr, Forall (sent id frags sub sc) (pkt0 :: map Datatypes.snd arr) ->
     let k := flushed (tc_dataShards t) sub Fs (map Datatypes.snd arr) in
     let complete := (k =? length blocks)%nat in
     exists sa, stream_add_all rt ord (newStreamAssembler now0 hasSink pkt0) arr =
         Some (sa, if complete then end_events hasSink data (p_ReplyBlock pkt0) (p_SourceNode pkt0) id else []) /\
       sa_written sa = take k blocks /\ sa_done sa = complete).
Proof.
  intros Hord Hsize Hlen Hd Hp Hsum Hdraw Hscd Hscp Hopen blocks. fold blocks in Hlen.
  assert (Hc : concat blocks = data) by (apply stream_blocks_concat; lia). split; [done|].
  assert (Hne : blocks <> []).
  { subst blocks. destruct data; [done|]. intros H. by rewrite H in Hc. }
  destruct (block_frags_ok t id snd rcv draw Hd Hp Hsum Hdraw 0 blocks) as (Fs & HF & HFs); [done|lia|lia| |].
  { eapply Forall_impl; [apply (stream_blocks_bound size data); lia|]. cbn. lia. }
  exists Fs. cbv zeta. split; [apply streamBlocks_emits; [lia|done]|]. split; [symmetry; by eapply Forall2_length|].
  intros Hpb now0 pkt0 arr [Hs0 Hall]%Forall_cons. set (k := flushed _ _ _ _).
  destruct (sent_packs _ _ _ _ _ Hs0) as (f0 & pc0 & _ & _ & Hk0).
  destruct (add_all_ok rt ord Hord id sub _ _ sc rcv blocks Fs hasSink (p_ReplyBlock pkt0) (p_SourceNode pkt0) Hopen Hscd Hscp
              Hd Hp Hsum HFs Hlen Hpb now0 pkt0 arr) as (sa & evs & Hrun & Hst); try done; try apply Hk0.
  { by destruct blocks. }
  exists sa. rewrite Hrun. fold k in Hst. destruct (Nat.eqb_spec k (length blocks)) as [Hk|Hk].
  - destruct Hst as [[Hdone Hw] ->]. rewrite Hc, Hk, firstn_all. done.
  - destruct Hst as [Ha ->]. split; [done|]. split; apply Ha.
Qed.

(** Resuming a stream at block [k] (the reader moved to [k] block sizes, the
    counter started at [k]) emits exactly the fragments that the whole stream has
    from block [k] on, numbers and final mark included. *)
Theorem resume_suffix `{R : RSOps} t size data id sealer draw k F :
  0 < size -> len (stream_blocks size data) <= 2 ^ 32 -> (k < length (stream_blocks size data))%nat ->
  block_frags t id sealer draw 0 (stream_blocks size data) = Ok F ->
  streamBlocks collect t size (mkReader data false) id sealer draw 0 [] = (concat F, SDone) /\
  streamBlocks collect t size (mkReader (drop (k * Z.to_nat size) data) false) id sealer draw (Z.of_nat k) [] = (concat (drop k F), SDone).
Proof.
  intros Hs Hl Hk HF. split; [by apply streamBlocks_emits|]. apply streamBlocks_emits; [done|].
  rewrite stream_blocks_drop by done. by apply (block_frags_drop t id sealer draw k 0).
Qed.

(** ** Witnesses *)

Definition stream_config : TransferConfig := mkTransferConfig (Some toy_sealer) None None 2 1 false false.
Definition stream_scheme : scheme := mkScheme 2 1 0 false true false false false.
Definition stream_draws (k : Z) : list draws := repeat sample_draw 3.

(** The fragments of a stream of three bytes in blocks of two. *)
Definition stream_frags : list Fragment :=
  (@streamBlocks toy_rs _ collect stream_config 2 (mkReader [x01; x02; x03] false) sample_id (Some toy_sealer) stream_draws 0 []).1.

Definition stream_packet (i : nat) : Packet :=
  @innerPacket toy_ops 0 0 [] sample_id "dest" "alice" (set_piece (nth i stream_frags (new_fragment [] 0 0 [])) 0 1
    (f_Payload (nth i stream_frags (new_fragment [] 0 0 [])))) stream_scheme [].

(** Shards 1 and 2 of the last block, then 2 and 0 of the first. *)
Definition stream_arrivals : list (Z * Packet) :=
  [(1, stream_packet 4); (2, stream_packet 5); (3, stream_packet 2); (4, stream_packet 0)].

Lemma stream_packet_sent i : (i < 6)%nat -> @sent toy_ops sample_id stream_frags 0 stream_scheme (stream_packet i).
Proof.
  intros Hi. unfold stream_packet, sent. set (f := nth i stream_frags _).
  exists f, (set_piece f 0 1 (f_Payload f)), 0, 0, [], "dest"%string, "alice"%string, []. split_and!; [| |done].
  - apply list_elem_of_In, nth_In. vm_compute. lia.
  - apply list_elem_of_singleton. reflexivity.
Qed.

Lemma stream_delivery_witness :
  exists sa, @stream_add_all toy_rs toy_ops stream_config map_to_list (newStreamAssembler 0 false (stream_packet 4)) stream_arrivals =
    Some (sa, [SData [x01; x02; x03]; SAck "alice" sample_id]) /\ sa_written sa = [[x01; x02]; [x03]] /\ sa_done sa = true.
Proof.
  destruct (@stream_delivery toy_rs toy_rs_laws toy_ops stream_config stream_config map_to_list 2 [x01; x02; x03] sample_id toy_sealer toy_sealer
    toy_sealer_pair stream_draws stream_scheme 0 false) as (_ & Fs & HS & HL & H).
  - reflexivity.
  - vm_compute. done.
  - vm_compute. done.
  - vm_compute. done.
  - vm_compute. done.
  - vm_compute. done.
  - intros k. split; [repeat constructor|vm_compute; done].
  - reflexivity.
  - reflexivity.
  - reflexivity.
  - assert (HF : concat (tag_blocks 0 (stream_blocks 2 [x01; x02; x03]) Fs) = stream_frags) by (unfold stream_frags; rewrite HS; reflexivity).
    destruct (H ltac:(intros; apply Z.ltb_lt; reflexivity) 0 (stream_packet 4) stream_arrivals) as (sa & Hrun & Hw & Hdone).
    + rewrite HF. unfold stream_arrivals. cbn [map snd]. repeat (apply List.Forall_cons; [apply stream_packet_sent; lia|]). apply List.Forall_nil.
    + destruct (@stream_add_all toy_rs toy_ops stream_config map_to_list (newStreamAssembler 0 false (stream_packet 4)) stream_arrivals) as [[sa' evs]|] eqn:E;
        [|discriminate Hrun]. exists sa. split; [|split].
      * injection Hrun as -> _. vm_compute in E. injection E as _ <-. reflexivity.
      * injection Hrun as -> _. vm_compute in E. injection E as <- _. reflexivity.
      * injection Hrun as -> _. vm_compute in E. injection E as <- _. reflexivity.
Defined.

Lemma resume_suffix_witness :
  let blocks := stream_blocks 2 [x01; x02; x03] in
  exists F, @block_frags toy_rs stream_config sample_id (Some toy_sealer) stream_draws 0 blocks = Ok F /\
    @streamBlocks toy_rs _ collect stream_config 2 (mkReader [x03] false) sample_id (Some toy_sealer) stream_draws 1 [] = (concat (drop 1 F), SDone).
Proof.
  intros blocks. eexists. split; [vm_compute; reflexivity|].
  refine (proj2 (@resume_suffix toy_rs stream_config 2 [x01; x02; x03] sample_id (Some toy_sealer) stream_draws 1 _ _ _ _ _)).
  - reflexivity.
  - vm_compute. discriminate.
  - vm_compute. lia.
  - vm_compute. reflexivity.
Defined.
