(* ===== verification/Acks.v ===== *)
(** * Delivery acknowledgements (internal/transfer/transfer.go)

    The table of transfers whose sender waits for an acknowledgement, or has given
    up waiting, and who may resolve them. *)

From S2P Require Import Prelude.

Definition lateAckTTL : Z := 30 * 60 * 1000000000.
Definition maxLateAcks : Z := 4096.

Record pendingAck : Type := mkPendingAck {
  pa_destKey : bytes;
  pa_token : bytes;
  pa_dest : string;
  pa_expires : Z;
  pa_late : bool
}.

Abbreviation acks := (gmap bytes pendingAck).

Definition registerAck (m : acks) (id destKey token : bytes) : acks := <[id := mkPendingAck destKey token "" 0 false]> m.
Definition unregisterAck (m : acks) (id : bytes) : acks := delete id m.

Definition late_oldest (best : option (bytes * Z)) (e : bytes * pendingAck) : option (bytes * Z) :=
  if negb (pa_late e.2) then best
  else
    match best with
    | None => Some (e.1, pa_expires e.2)
    | Some (_, oldest) => if pa_expires e.2 <? oldest then Some (e.1, pa_expires e.2) else best
    end.

(** The capping loop, each pass ranging over the map as it is; every pass but the
    last removes an entry, so the size of the map is enough fuel. *)
Fixpoint cap_late (fuel : nat) (ord : acks -> list (bytes * pendingAck)) (m : acks) : acks :=
  match fuel with
  | O => m
  | S fuel =>
      if maxLateAcks <? Z.of_nat (size m) then
        match fold_left late_oldest (ord m) None with
        | None => m
        | Some (k, _) => cap_late fuel ord (delete k m)
        end
      else m
  end.

Definition retainForLateAck (now : Z) (ord : acks -> list (bytes * pendingAck)) (m : acks) (id : bytes) (dest : string) : acks :=
  match m !! id with
  | None => m
  | Some pa =>
      let m := <[id := mkPendingAck (pa_destKey pa) (pa_token pa) dest (now + lateAckTTL) true]> m in
      let m := fold_left (fun m e => if pa_late e.2 && (pa_expires e.2 <? now) then delete e.1 m else m) (ord m) m in
      cap_late (size m) ord m
  end.

(** How a resolved acknowledgement is reported: to the waiting send, or late. *)
Inductive resolved : Type := AckNone | AckClose | AckLate (dest : string).

Definition resolveAck (m : acks) (id : bytes) (accept : pendingAck -> bool) : acks * resolved :=
  match m !! id with
  | None => (m, AckNone)
  | Some pa =>
      if accept pa then (delete id m, if pa_late pa then AckLate (pa_dest pa) else AckClose)
      else (m, AckNone)
  end.

Definition signalAckFrom (m : acks) (id signerKey : bytes) : acks * resolved :=
  resolveAck m id (fun pa => (0 <? len (pa_destKey pa)) && bool_decide (pa_destKey pa = signerKey)).

Definition signalAckToken (m : acks) (id token : bytes) : acks * resolved :=
  resolveAck m id (fun pa => (0 <? len (pa_token pa)) && bool_decide (pa_token pa = token)).

(** ** Acknowledgements refine an unbounded table *)

Inductive ack_op : Type :=
  | ORegister (id destKey token : bytes)
  | OUnregister (id : bytes)
  | ORetain (now : Z) (id : bytes) (dest : string)
  | OSigned (id signerKey : bytes)
  | OToken (id token : bytes).

Definition ack_step (ord : acks -> list (bytes * pendingAck)) (m : acks) (op : ack_op) : acks * resolved :=
  match op with
  | ORegister id k t => (registerAck m id k t, AckNone)
  | OUnregister id => (unregisterAck m id, AckNone)
  | ORetain now id dest => (retainForLateAck now ord m id dest, AckNone)
  | OSigned id k => signalAckFrom m id k
  | OToken id t => signalAckToken m id t
  end.

(** The specification: who a registration expects its acknowledgement from (a key,
    a token), and the destination to report once the sender has given up. *)
Abbreviation ideal := (gmap bytes (bytes * bytes * option string)).

Definition ideal_resolve (s : ideal) (id : bytes) (ok : bytes -> bytes -> bool) : ideal * resolved :=
  match s !! id with
  | Some (k, t, late) =>
      if ok k t then (delete id s, match late with Some dest => AckLate dest | None => AckClose end) else (s, AckNone)
  | None => (s, AckNone)
  end.

Definition ideal_step (s : ideal) (op : ack_op) : ideal * resolved :=
  match op with
  | ORegister id k t => (<[id := (k, t, None)]> s, AckNone)
  | OUnregister id => (delete id s, AckNone)
  | ORetain _ id dest => (match s !! id with Some (k, t, _) => <[id := (k, t, Some dest)]> s | None => s end, AckNone)
  | OSigned id key => ideal_resolve s id (fun k _ => bool_decide (k <> [] /\ k = key))
  | OToken id token => ideal_resolve s id (fun _ t => bool_decide (t <> [] /\ t = token))
  end.

Definition ack_view (pa : pendingAck) : bytes * bytes * option string :=
  (pa_destKey pa, pa_token pa, if pa_late pa then Some (pa_dest pa) else None).

(** What is kept is what was registered, and no waiting send is forgotten. *)
Record ack_rel (m : acks) (s : ideal) : Prop := {
  ar_sound id pa : m !! id = Some pa -> s !! id = Some (ack_view pa);
  ar_waiting id k t : s !! id = Some (k, t, None) -> exists pa, m !! id = Some pa
}.

(** The sends still waiting. *)
Definition waiting (m : acks) : acks := filter (fun e => pa_late e.2 = false) m.

(** [m'] is [m] less some late entries. *)
Record trimmed (m m' : acks) : Prop := {
  tr_sub : m' ⊆ m;
  tr_waiting id pa : m !! id = Some pa -> pa_late pa = false -> m' !! id = Some pa
}.

Lemma trimmed_refl m : trimmed m m.
Proof. by split. Qed.

Lemma trimmed_trans m1 m2 m3 : trimmed m1 m2 -> trimmed m2 m3 -> trimmed m1 m3.
Proof. intros H1 H2. split; [etrans; [apply H2|apply H1]|]. intros id pa Hm Hl. apply H2; [|done]. by apply H1. Qed.

Lemma trimmed_delete (m : acks) k pa : m !! k = Some pa -> pa_late pa = true -> trimmed m (delete k m).
Proof.
  intros Hk Hl. split; [apply delete_subseteq|]. intros id pa' Hm Hl'. rewrite lookup_delete_ne; [done|]. intros ->. congruence.
Qed.

Lemma trimmed_rel m m' s : trimmed m m' -> ack_rel m s -> ack_rel m' s.
Proof.
  intros Ht Hr. split.
  - intros id pa Hm. apply Hr. eapply lookup_weaken; [done|apply Ht].
  - intros id k t Hs. destruct (ar_waiting _ _ Hr id k t Hs) as [pa Hm]. exists pa. apply Ht; [done|].
    apply (ar_sound _ _ Hr) in Hm. unfold ack_view in Hm. destruct (pa_late pa); congruence.
Qed.

(** Each pass of the cap loop finds a late entry unless all are waiting. *)
Lemma late_oldest_spec l :
  match fold_left late_oldest l None with
  | Some (k, _) => exists pa, (k, pa) ∈ l /\ pa_late pa = true
  | None => Forall (fun e => pa_late e.2 = false) l
  end.
Proof.
  induction l as [|[k pa] l IH] using rev_ind; [constructor|]. rewrite fold_left_app. cbn [fold_left].
  destruct (fold_left late_oldest l None) as [[k' z]|]; unfold late_oldest; cbn [fst snd].
  - destruct IH as (pa' & Hin & Hl). destruct (pa_late pa) eqn:E; cbn [negb].
    + destruct (_ <? z); [exists pa|exists pa']; (split; [set_solver|done]).
    + exists pa'. split; [set_solver|done].
  - destruct (pa_late pa) eqn:E; cbn [negb]; [exists pa; split; [set_solver|done]|].
    apply Forall_app. split; [done|]. by repeat constructor.
Qed.

Lemma expire_trimmed now l m :
  (forall e, e ∈ l -> forall pa, m !! e.1 = Some pa -> pa = e.2) ->
  trimmed m (fold_left (fun m e => if pa_late e.2 && (pa_expires e.2 <? now) then delete e.1 m else m) l m).
Proof.
  revert m. induction l as [|[k pa] l IH]; intros m Hl; cbn [fold_left fst snd]; [apply trimmed_refl|].
  destruct (pa_late pa && (pa_expires pa <? now)) eqn:E.
  - apply andb_true_iff in E as [E _]. destruct (m !! k) as [pa'|] eqn:Em.
    + eapply trimmed_trans; [eapply trimmed_delete; [done|]|apply IH].
      * by rewrite (Hl (k, pa) ltac:(set_solver) pa' Em).
      * intros e He pa2 H2. apply lookup_delete_Some in H2 as [_ H2]. apply Hl; [set_solver|done].
    + rewrite delete_id by done. apply IH. intros e He. apply Hl. set_solver.
  - apply IH. intros e He. apply Hl. set_solver.
Qed.

(** One resolution on both sides. *)
Lemma resolve_rel m s id accept ok :
  ack_rel m s -> (forall pa, accept pa = ok (pa_destKey pa) (pa_token pa)) ->
  let '(m', o) := resolveAck m id accept in let '(s', o') := ideal_resolve s id ok in
  ack_rel m' s' /\ (o = o' \/ o = AckNone /\ exists d, o' = AckLate d).
Proof.
  intros Hr Hok. unfold resolveAck, ideal_resolve. destruct (m !! id) as [pa|] eqn:Em.
  - rewrite (ar_sound _ _ Hr id pa Em). unfold ack_view. rewrite Hok. destruct (ok _ _); [|split; [done|by left]]. split.
    + split.
      * intros id' pa' [Hne Hm]%lookup_delete_Some. rewrite lookup_delete_ne by done. by apply Hr.
      * intros id' k t [Hne Hs]%lookup_delete_Some. destruct (ar_waiting _ _ Hr id' k t Hs) as [pa' H]. exists pa'. by rewrite lookup_delete_ne.
    + left. by destruct (pa_late pa).
  - destruct (s !! id) as [[[k t] late]|] eqn:Es; [|split; [done|by left]]. destruct (ok k t); [|split; [done|by left]].
    destruct late as [d|]; [|destruct (ar_waiting _ _ Hr id k t Es); congruence]. split; [|right; eauto]. split.
    + intros id' pa' Hm. rewrite lookup_delete_ne by congruence. by apply Hr.
    + intros id' k' t' [Hne Hs]%lookup_delete_Some. by apply (ar_waiting _ _ Hr id' k' t').
Qed.
Lemma nonempty_match (x y : bytes) : (0 <? len x) && bool_decide (x = y) = bool_decide (x <> [] /\ x = y).
Proof.
  apply eq_bool_prop_intro. rewrite andb_True, !bool_decide_spec, Is_true_true, Z.ltb_lt. unfold len.
  destruct x; cbn; split; intros [H1 H2]; split; try done; lia.
Qed.

Section Acks.
Context (ord : acks -> list (bytes * pendingAck)) (Hord : forall m, ord m ≡ₚ map_to_list m).

Lemma cap_late_spec fuel m :
  (size m <= fuel)%nat ->
  trimmed m (cap_late fuel ord m) /\
  Z.of_nat (size (cap_late fuel ord m)) <= Z.max maxLateAcks (Z.of_nat (size (waiting (cap_late fuel ord m)))).
Proof using Hord.
  revert m. induction fuel as [|fuel IH]; intros m Hf; cbn [cap_late].
  { split; [apply trimmed_refl|]. unfold maxLateAcks. lia. }
  destruct (Z.ltb_spec maxLateAcks (Z.of_nat (size m))) as [Hc|Hc]; [|split; [apply trimmed_refl|lia]].
  pose proof (late_oldest_spec (ord m)) as Hl. destruct (fold_left late_oldest (ord m) None) as [[k z]|].
  - destruct Hl as (pa & Hin & Hl). rewrite Hord in Hin. apply elem_of_map_to_list in Hin.
    destruct (IH (delete k m)) as [Ht Hs]; [rewrite map_size_delete, Hin; lia|].
    split; [|done]. eapply trimmed_trans; [|done]. by eapply trimmed_delete.
  - split; [apply trimmed_refl|]. assert (Hw : waiting m = m); [|rewrite Hw; lia].
    apply map_filter_id. intros id pa Hm. rewrite Forall_forall in Hl. apply (Hl (id, pa)). rewrite Hord. by apply elem_of_map_to_list.
Qed.

(** The sender giving up on [id]: its entry turns late, late entries may go, and
    the table is within its cap unless more sends than that are waiting. *)
Lemma retain_spec now m id dest pa :
  m !! id = Some pa ->
  trimmed (<[id := mkPendingAck (pa_destKey pa) (pa_token pa) dest (now + lateAckTTL) true]> m) (retainForLateAck now ord m id dest) /\
  Z.of_nat (size (retainForLateAck now ord m id dest)) <=
    Z.max maxLateAcks (Z.of_nat (size (waiting (retainForLateAck now ord m id dest)))).
Proof using Hord.
  intros Hm. unfold retainForLateAck. rewrite Hm. set (m1 := <[id := _]> m).
  assert (H1 : trimmed m1 (fold_left (fun m e => if pa_late e.2 && (pa_expires e.2 <? now) then delete e.1 m else m) (ord m1) m1)).
  { apply expire_trimmed. intros [k v] He pa' Hpa'. rewrite Hord in He. apply elem_of_map_to_list in He. cbn in *. congruence. }
  set (m2 := fold_left _ _ _) in *. destruct (cap_late_spec (size m2) m2) as [H2 H3]; [lia|]. split; [|done].
  by eapply trimmed_trans.
Qed.

(** The cap loop removes nothing below the cap, and what is gone stays gone. *)
Lemma cap_late_keeps fuel m id :
  cap_late fuel ord m !! id = m !! id \/ cap_late fuel ord m !! id = None /\ maxLateAcks <= Z.of_nat (size (cap_late fuel ord m)).
Proof using Type.
  revert m. induction fuel as [|fuel IH]; intros m; cbn [cap_late]; [by left|]. destruct (Z.ltb_spec maxLateAcks (Z.of_nat (size m))) as [Hc|]; [|by left].
  destruct (fold_left late_oldest (ord m) None) as [[k z]|]; [|by left].
  assert (Hfull : forall fuel m, maxLateAcks <= Z.of_nat (size m) -> maxLateAcks <= Z.of_nat (size (cap_late fuel ord m))).
  { clear. induction fuel as [|fuel IH]; intros m H; cbn [cap_late]; [done|]. destruct (Z.ltb_spec maxLateAcks (Z.of_nat (size m))); [|done].
    destruct (fold_left late_oldest (ord m) None) as [[k z]|]; [|done]. apply IH. rewrite map_size_delete. destruct (m !! k); unfold id, maxLateAcks in *; lia. }
  destruct (IH (delete k m)) as [E|E]; [|by right]. destruct (decide (k = id)) as [->|Hne].
  - right. rewrite E, lookup_delete_eq. split; [done|]. apply Hfull. rewrite map_size_delete. destruct (m !! id); unfold Datatypes.id, maxLateAcks in *; lia.
  - left. by rewrite E, lookup_delete_ne.
Qed.

(** The entry given up on is held as a late one, unless the table is full. *)
Lemma retain_keeps now m id dest pa :
  m !! id = Some pa ->
  let m' := retainForLateAck now ord m id dest in
  m' !! id = Some (mkPendingAck (pa_destKey pa) (pa_token pa) dest (now + lateAckTTL) true) \/
  m' !! id = None /\ maxLateAcks <= Z.of_nat (size m').
Proof using Hord.
  intros Hm. unfold retainForLateAck. rewrite Hm. cbv zeta. set (late := mkPendingAck _ _ _ _ _). set (m1 := <[id := late]> m).
  assert (Hin : forall e, e ∈ ord m1 -> e.1 = id -> e.2 = late).
  { intros [k v] He. cbn. intros ->. rewrite Hord in He. apply elem_of_map_to_list in He. subst m1. rewrite lookup_insert_eq in He. congruence. }
  assert (H1 : forall l (m : acks), (forall e, e ∈ l -> e.1 = id -> e.2 = late) ->
    fold_left (fun m e => if pa_late e.2 && (pa_expires e.2 <? now) then delete e.1 m else m) l m !! id = m !! id).
  { clear. induction l as [|[k v] l IH]; intros m Hl; cbn [fold_left fst snd]; [done|]. rewrite IH by (intros e He; apply Hl; by right).
    destruct (pa_late v && (pa_expires v <? now)) eqn:E; [|done]. destruct (decide (k = id)) as [->|Hne]; [|by rewrite lookup_delete_ne].
    exfalso. pose proof (Hl (id, v) ltac:(left) eq_refl) as Hv. cbn in Hv. subst v. unfold late, lateAckTTL in E. cbn in E. lia. }
  specialize (H1 (ord m1) m1 Hin). set (m2 := fold_left _ (ord m1) m1) in *.
  destruct (cap_late_keeps (size m2) m2 id) as [E|E]; [left|by right]. rewrite E, H1. subst m1. by rewrite lookup_insert_eq.
Qed.

Lemma ack_step_rel m s op :
  ack_rel m s ->
  let '(m', o) := ack_step ord m op in let '(s', o') := ideal_step s op in
  ack_rel m' s' /\ (o = o' \/ o = AckNone /\ exists d, o' = AckLate d).
Proof using Hord.
  intros Hr. destruct op as [id k t|id|now id dest|id key|id token]; cbn [ack_step ideal_step].
  - split; [|by left]. split.
    + intros id' pa. unfold registerAck. rewrite !lookup_insert. case_decide; [intros; by simplify_eq|apply Hr].
    + intros id' k' t'. unfold registerAck. rewrite !lookup_insert. case_decide; [eauto|apply Hr].
  - split; [|by left]. unfold unregisterAck. split.
    + intros id' pa [Hne Hm]%lookup_delete_Some. rewrite lookup_delete_ne by done. by apply Hr.
    + intros id' k t [Hne Hs]%lookup_delete_Some. rewrite lookup_delete_ne by done. by eapply Hr.
  - split; [|by left]. destruct (m !! id) as [pa|] eqn:Em.
    + eapply trimmed_rel; [by apply retain_spec|]. rewrite (ar_sound _ _ Hr id pa Em). cbn [ack_view]. split.
      * intros id' pa'. rewrite !lookup_insert. case_decide; [intros; by simplify_eq|apply Hr].
      * intros id' k t. rewrite !lookup_insert. case_decide; [done|apply Hr].
    + unfold retainForLateAck. rewrite Em. destruct (s !! id) as [[[k t] l]|] eqn:Es; [|done]. split.
      * intros id' pa' Hm. rewrite lookup_insert_ne by congruence. by apply Hr.
      * intros id' k' t'. rewrite lookup_insert. case_decide; [done|apply Hr].
  - apply resolve_rel; [done|]. intros pa. apply nonempty_match.
  - apply resolve_rel; [done|]. intros pa. apply nonempty_match.
Qed.
End Acks.

(** A sequence of operations, and what each reported. *)
Fixpoint ack_run {S} (step : S -> ack_op -> S * resolved) (s : S) (ops : list ack_op) : S * list resolved :=
  match ops with
  | [] => (s, [])
  | op :: ops => let '(s, o) := step s op in let '(s, os) := ack_run step s ops in (s, o :: os)
  end.

(** C34: The acknowledgement table implements an unbounded one up to forgetting
    late entries.  In every sequence of registrations, cancellations, give-ups and
    incoming acknowledgements, an acknowledgement is reported only when the
    specification reports it too — it is for a live registration and carries its
    (non-empty) destination key or token — and at most once; it is missed only if
    the sender had already given up.  A send still waiting is never dropped, and
    giving up leaves at most [maxLateAcks] entries unless more sends are waiting. *)
Theorem ack_refinement ord ops :
  (forall m, ord m ≡ₚ map_to_list m) ->
  let '(m, outs) := ack_run (ack_step ord) ∅ ops in
  let '(s, specs) := ack_run ideal_step ∅ ops in
  Forall2 (fun o o' => o = o' \/ o = AckNone /\ exists d, o' = AckLate d) outs specs /\
  (forall id k t, s !! id = Some (k, t, None) -> exists pa, m !! id = Some pa /\ ack_view pa = (k, t, None)) /\
  (forall now id dest, is_Some (m !! id) ->
     let m' := retainForLateAck now ord m id dest in
     Z.of_nat (size m') <= Z.max maxLateAcks (Z.of_nat (size (waiting m')))).
Proof.
  intros Hord.
  assert (H : forall ops m s, ack_rel m s ->
    ack_rel (ack_run (ack_step ord) m ops).1 (ack_run ideal_step s ops).1 /\
    Forall2 (fun o o' => o = o' \/ o = AckNone /\ exists d, o' = AckLate d) (ack_run (ack_step ord) m ops).2 (ack_run ideal_step s ops).2).
  { clear ops. induction ops as [|op ops IH]; intros m s Hr; cbn [ack_run]; [split; [done|constructor]|].
    pose proof (ack_step_rel ord Hord m s op Hr) as H. destruct (ack_step ord m op) as [m' o], (ideal_step s op) as [s' o'].
    destruct H as [Hr' Ho]. specialize (IH m' s' Hr'). destruct (ack_run (ack_step ord) m' ops), (ack_run ideal_step s' ops).
    destruct IH. split; [done|by constructor]. }
  assert (H0 : ack_rel ∅ ∅) by (split; intros *; rewrite lookup_empty; done).
  destruct (H ops ∅ ∅ H0) as [Hr Ho]. destruct (ack_run (ack_step ord) ∅ ops) as [m outs], (ack_run ideal_step ∅ ops) as [s specs].
  cbn in Hr, Ho. split_and!; [done| |].
  - intros id k t Hs. destruct (ar_waiting _ _ Hr id k t Hs) as [pa Hm]. exists pa. split; [done|].
    apply (ar_sound _ _ Hr) in Hm. congruence.
  - intros now id dest [pa Hm]. by apply retain_spec with pa.
Qed.

(** ** Witness *)

Lemma ack_refinement_witness :
  let id := repeat x05 32 in
  let ops := [ORegister id [x01] [x02]; OSigned id [x09]; ORetain 0 id "bob"; OToken id [x02]; OToken id [x02]] in
  (ack_run (ack_step map_to_list) ∅ ops).2 = [AckNone; AckNone; AckNone; AckLate "bob"; AckNone] /\
  Forall2 (fun o o' => o = o' \/ o = AckNone /\ exists d, o' = AckLate d)
    (ack_run (ack_step map_to_list) ∅ ops).2 (ack_run ideal_step ∅ ops).2.
Proof.
  intros id ops. split; [vm_compute; reflexivity|].
  pose proof (ack_refinement map_to_list ops ltac:(reflexivity)) as H.
  destruct (ack_run (ack_step map_to_list) ∅ ops) as [m outs], (ack_run ideal_step ∅ ops) as [s specs]. exact (proj1 H).
Defined.
