(* ===== verification/Transfer.v ===== *)
(** * Whole-payload transfers (internal/transfer/transfer.go)

    Building the fragments of a payload; the table of transfers at the receiver,
    from arriving pieces to fragments to the delivered payload, with the streaming
    branch that hands pieces to a stream assembler; and the acknowledgements that a
    delivery sends out.

    A call that would panic in Go is an outcome of its own. *)

From S2P Require Import Prelude Crypto Wire Encryption Fragment Pieces Stream.

Definition maxChunkSize : Z := 1024 * 1024.
Definition ackRedundancy : nat := 3.

Record transferState : Type := mkTransferState {
  ts_ID : bytes;
  ts_Total : Z;
  ts_Received : gmap Z bool;
  ts_Chunks : gmap Z bytes;
  ts_subParts : gmap Z (gmap Z bytes);
  ts_scheme : scheme;
  ts_sourceNode : string;
  ts_replyBlock : bytes;
  ts_routed : bool;
  ts_stream : option streamAssembler;
  ts_delivered : bool
}.

Section Build.
Context `{R : RSOps}.

(** [ds] is the randomness of the seals. *)
Definition buildFragments (t : TransferConfig) (id data : bytes) (variable : bool) (sealer : option Sealer) (ds : list draws) :
    result frag_err (list Fragment * scheme) :=
  let sc := mkScheme 0 0 0 variable false false false false in
  let sequential :=
    match sealer with
    | Some s =>
        try f := NewFragmenter (Some s) maxChunkSize in
        try frags := Fragmenter_Fragment f id data ds in
        Ok (frags, sc)
    | None =>
        let chunks := Split data maxChunkSize in
        let total := u32 (len chunks) in
        Ok (imap (fun i c => new_fragment id (u32 (Z.of_nat i)) total c) chunks, sc)
    end in
  match sealer with
  | Some s =>
      if (0 <? tc_dataShards t) && (0 <? tc_parityShards t) && (tc_dataShards t <=? len data) then
        match NewRSFragmenter (Some s) (tc_dataShards t) (tc_parityShards t) with
        | Ok f =>
            match RSFragmenter_Fragment f id data ds with
            | Ok (frags, origLen) =>
                Ok (frags, mkScheme (u32 (tc_dataShards t)) (u32 (tc_parityShards t)) (u64 origLen) variable false false false false)
            | Err _ => sequential
            end
        | Err _ => sequential
        end
      else sequential
  | None => sequential
  end.
End Build.

(** ** Pieces to fragments *)

Definition absorb (st : transferState) (pkt : Packet) : transferState :=
  let '(sub, r) := absorbSubChunk (ts_Received st) (ts_subParts st) pkt in
  let '(rc, ch) := match r with
                   | Some payload => (<[p_ChunkNumber pkt := true]> (ts_Received st), <[p_ChunkNumber pkt := payload]> (ts_Chunks st))
                   | None => (ts_Received st, ts_Chunks st)
                   end in
  mkTransferState (ts_ID st) (ts_Total st) rc ch sub (ts_scheme st) (ts_sourceNode st) (ts_replyBlock st) (ts_routed st) (ts_stream st)
    (ts_delivered st).

Definition set_stream (sa : streamAssembler) (st : transferState) : transferState :=
  mkTransferState (ts_ID st) (ts_Total st) (ts_Received st) (ts_Chunks st) (ts_subParts st) (ts_scheme st) (ts_sourceNode st)
    (ts_replyBlock st) (ts_routed st) (Some sa) (ts_delivered st).

(** ** Fragments to payload *)

Definition isCompleteLocked (st : transferState) : bool :=
  (u32 (Z.of_nat (size (ts_Received st))) =? ts_Total st) &&
  forallb (fun i => default false (ts_Received st !! i)) (seqZ 0 (ts_Total st)).

Definition enoughToReassembleLocked (st : transferState) : bool :=
  if 0 <? sc_DataShards (ts_scheme st) then sc_DataShards (ts_scheme st) <=? u32 (Z.of_nat (size (ts_Received st)))
  else isCompleteLocked st.

(** [r.Add] over the fragments, the first error ending the loop. *)
Definition reassembleChunks (sealer : option Sealer) (id : bytes) (total : Z) (chunks : gmap Z bytes) : result frag_err bytes :=
  match sealer with
  | Some s =>
      try r := fold_left (fun r i => try r := r in Reassembler_Add r (new_fragment id i total (default [] (chunks !! i))))
                 (seqZ 0 total) (Ok (NewReassembler s total)) in
      Assemble r id
  | None => Ok (Join (map (fun i => default [] (chunks !! i)) (seqZ 0 total)))
  end.

(** ** Acknowledging a delivery *)

(** One way back to the sender. *)
Inductive ack_path : Type :=
  | PReply (replyBlock : bytes)
  | PRouted (sourceNode : string) (id : bytes)
  | PDirect (sourceNode : string) (id : bytes).

(** [t.discovery] is set. *)
Definition ackSenders (st : transferState) : list ack_path :=
  (if 0 <? len (ts_replyBlock st) then [PReply (ts_replyBlock st)] else []) ++
  (if negb (String.eqb (ts_sourceNode st) "") then
     [if ts_routed st then PRouted (ts_sourceNode st) (ts_ID st) else PDirect (ts_sourceNode st) (ts_ID st)]
   else []).

(** The sends of a node that is not stopped in between. *)
Definition ackWithRedundancy (st : transferState) : list ack_path := concat (repeat (ackSenders st) ackRedundancy).

Section Receive.
Context `{R : RSOps} `{C : CryptoOps}.

(** [it] is the order in which [state.Chunks] is ranged over. *)
Definition reassemble (t : TransferConfig) (it : list (Z * bytes)) (st : transferState) : reasm :=
  let sc := ts_scheme st in
  if 0 <? sc_DataShards sc then
    rs_assemble (recipientOpener t sc) (ts_ID st) (ts_Total st) (sc_DataShards sc) (sc_ParityShards sc) (i64 (sc_OriginalLen sc)) it
  else
    match reassembleChunks (recipientOpener t sc) (ts_ID st) (ts_Total st) (ts_Chunks st) with
    | Ok data => RData data
    | Err _ => RFail
    end.

Definition new_state (pkt : Packet) (routed : bool) : transferState :=
  mkTransferState (p_ID pkt) (p_TotalChunks pkt) ∅ ∅ ∅ (schemeFromPacket pkt) (p_SourceNode pkt) (p_ReplyBlock pkt) routed None false.

(** What a packet leads to: the payload, with its variable flag, handed to
    [onData] and the acknowledgements sent; what a stream did; or nothing yet. *)
Inductive ingested : Type :=
  | INone
  | IDispatch (data : bytes) (variable : bool) (acks : list ack_path)
  | IStream (evs : list stream_event)
  | IPanic.

Definition dispatch (st : transferState) (data : bytes) : ingested :=
  IDispatch data (sc_Variable (ts_scheme st)) (ackWithRedundancy st).

(** [sink id] says whether [t.streamSink] gives a sink for the transfer. *)
Definition ingestForwardedFragment (t : TransferConfig) (ord : gmap Z bytes -> list (Z * bytes)) (sink : bytes -> bool) (now : Z)
    (transfers : gmap bytes transferState) (pkt : Packet) (routed : bool) : gmap bytes transferState * ingested :=
  let st := match transfers !! p_ID pkt with Some st => st | None => new_state pkt routed end in
  if p_Streaming pkt then
    let sa := match ts_stream st with Some sa => sa | None => newStreamAssembler now (sink (p_ID pkt)) pkt end in
    match add t now ord sa pkt with
    | Added sa evs =>
        (if sa_done sa then delete (p_ID pkt) transfers else <[p_ID pkt := set_stream sa st]> transfers, IStream evs)
    | AddPanic => (<[p_ID pkt := set_stream sa st]> transfers, IPanic)
    end
  else if ts_delivered st then (<[p_ID pkt := st]> transfers, INone)
  else
    let st := absorb st pkt in
    if enoughToReassembleLocked st then
      match reassemble t (ord (ts_Chunks st)) st with
      | RData data => (delete (p_ID pkt) transfers, dispatch st data)
      | RFail => (<[p_ID pkt := st]> transfers, INone)
      | RPanic => (<[p_ID pkt := st]> transfers, IPanic)
      end
    else (<[p_ID pkt := st]> transfers, INone).
End Receive.

(** ** What the receiver holds *)

Section Collected.
Context (id : bytes) (fs : list Fragment) (sub : Z) (sc : scheme).

(** The receiver's record of the pieces [arr]. *)
Record collected (arr : list Packet) (st : transferState) : Prop := {
  co_ID : ts_ID st = id;
  co_Total : ts_Total st = len fs;
  co_scheme : ts_scheme st = sc;
  co_open : ts_delivered st = false;
  co_pieces : pieces fs sub arr (ts_Received st) (ts_Chunks st) (ts_subParts st)
}.

Lemma collected_new pkt i j routed : carries id fs sub sc pkt i j ->
  (forall f, f ∈ fs -> len (fragmentPieces f sub) < 2 ^ 32) -> collected [] (new_state pkt routed).
Proof. intros H Hb. split; [apply H|apply H|apply H|done|by apply pieces_nil]. Qed.

Lemma collected_absorb arr st pkt i j :
  (forall f, f ∈ fs -> len (fragmentPieces f sub) < 2 ^ 32) ->
  collected arr st -> carries id fs sub sc pkt i j -> collected (arr ++ [pkt]) (absorb st pkt).
Proof.
  intros Hb [H1 H2 H3 H4 H5] Hc. pose proof (pieces_absorb id fs sub sc arr _ _ _ pkt i j Hb H5 Hc) as Hp. unfold absorb.
  destruct (absorbSubChunk _ _ _) as [sp r]. by destruct r.
Qed.
End Collected.

(** ** Reassembly *)

(** The fragments needed: the data shards of a Reed-Solomon transfer, all of them
    otherwise. *)
Definition needed (sc : scheme) (fs : list Fragment) : Z := if 0 <? sc_DataShards sc then sc_DataShards sc else len fs.

Lemma add_fold (g : Z -> Fragment) l r :
  fold_left (fun r i => try r := r in Reassembler_Add r (g i)) l r = (try r := r in add_all r (map g l)).
Proof.
  revert r. induction l as [|i l IH]; intros r; cbn [fold_left map add_all]; [by destruct r|].
  rewrite IH. destruct r as [r|]; [|done]. cbn. by destruct (Reassembler_Add r (g i)).
Qed.

Lemma filter_full (P : nat -> bool) n : Z.of_nat n <= len (List.filter P (seq 0 n)) -> forall j, (j < n)%nat -> P j = true.
Proof.
  intros H. apply forallb_seq, List.filter_length_forallb. pose proof (List.filter_length_le P (seq 0 n)) as H'.
  rewrite length_seq in *. unfold len in H. lia.
Qed.

Section Rebuild.
Context `{R : RSOps} `{C : CryptoOps}.

(** Enough stored fragments of [fs] reassemble to [data]. *)
Definition rebuilds (id data : bytes) (fs : list Fragment) (sc : scheme) (rcv : option Sealer) : Prop :=
  forall t st P it, ts_ID st = id -> ts_Total st = len fs -> recipientOpener t (ts_scheme st) = rcv ->
    sc_DataShards (ts_scheme st) = sc_DataShards sc -> sc_ParityShards (ts_scheme st) = sc_ParityShards sc ->
    sc_OriginalLen (ts_scheme st) = sc_OriginalLen sc ->
    ts_Chunks st = pmap (map f_Payload fs) P -> it ≡ₚ map_to_list (ts_Chunks st) ->
    needed sc fs <= len (List.filter P (seq 0 (length fs))) ->
    reassemble t it st = RData data.

Lemma plain_rebuilds id data chunks sc :
  len chunks < 2 ^ 32 -> concat chunks = data -> sc_DataShards sc = 0 ->
  let fs := imap (fun i c => new_fragment id (u32 (Z.of_nat i)) (u32 (len chunks)) c) chunks in
  len fs = len chunks /\ positioned id fs /\ rebuilds id data fs sc None.
Proof.
  intros Hb Hd H0 fs. assert (Hl : len fs = len chunks) by (unfold len, fs; by rewrite length_imap). split; [done|].
  assert (Hpl : map f_Payload fs = chunks).
  { subst fs. apply list_eq. intros j. change (map f_Payload) with (fmap f_Payload : list Fragment -> list bytes).
    rewrite list_lookup_fmap, list_lookup_imap. by destruct (chunks !! j). }
  split.
  - intros j f Hj. rewrite Hl. subst fs. rewrite list_lookup_imap in Hj. destruct (chunks !! j) as [c|] eqn:E; [|done].
    cbn in Hj. simplify_eq. apply lookup_lt_Some in E. unfold len in *. by rewrite !u32_id by (unfold is_u32; lia).
  - intros t st P it Hid Ht Ho Hs _ _ Hc _ Hn. unfold reassemble. rewrite Hs, H0, Ho, Hc, Ht. cbn [Z.ltb Z.compare reassembleChunks].
    unfold needed in Hn. rewrite H0 in Hn. pose proof (filter_full _ _ Hn) as HP.
    rewrite (full_chunks fs P HP (fun _ v => v)), Join_concat. f_equal. rewrite <- Hd. f_equal. rewrite <- Hpl.
    apply list_eq. intros j. change (map f_Payload fs) with (f_Payload <$> fs). rewrite list_lookup_imap, list_lookup_fmap.
    by destruct (fs !! j).
Qed.

Lemma sealed_rebuilds snd rcv id data ds sc :
  SealerPair snd rcv -> len (Split data maxChunkSize) < 2 ^ 32 -> Forall wf_draws ds ->
  (length (Split data maxChunkSize) <= length ds)%nat -> sc_DataShards sc = 0 ->
  exists fs, Fragmenter_Fragment (mkFragmenter snd maxChunkSize) id data ds = Ok fs /\
    len fs = len (Split data maxChunkSize) /\ positioned id fs /\ rebuilds id data fs sc (Some rcv).
Proof.
  intros SP Hb Hd Hl H0. destruct (sealed_pipeline id data maxChunkSize ds ltac:(done) Hb Hd Hl) as (fs & HF & Hrun).
  exists fs. split; [done|]. unfold Fragmenter_Fragment in HF. cbn [fr_sealer fr_chunkSize] in HF.
  pose proof (len_nonneg (Split data maxChunkSize)).
  destruct (seal_chunks_positioned _ _ _ _ _ _ _ HF ltac:(lia) ltac:(lia)) as [Hlf Hf].
  assert (Hlen : len fs = len (Split data maxChunkSize)) by (unfold len; lia). split; [done|].
  assert (Hpos : positioned id fs).
  { intros j f Hj. rewrite (Hf j f Hj) at 1. by rewrite Hlen, u32_id by (unfold is_u32; lia). }
  split; [done|]. intros t st P it Hid Ht Ho Hs _ _ Hc _ Hn. unfold reassemble. rewrite Hs, H0, Ho, Hc, Ht, Hid.
  cbn [Z.ltb Z.compare reassembleChunks]. unfold needed in Hn. rewrite H0 in Hn. pose proof (filter_full _ _ Hn) as HP.
  rewrite add_fold, (full_fragments id fs P Hpos HP). destruct (Hrun fs) as (r & HA & Has); [done|].
  rewrite HA. cbn. rewrite Has, bool_decide_true; [done|]. by apply Forall_forall.
Qed.

Context `{RL : !RSLaws R}.

Lemma rs_rebuilds snd rcv id data d p ds sc :
  SealerPair snd rcv -> 0 < d -> 0 < p -> d + p <= 256 -> d <= len data -> Forall wf_draws ds -> d + p <= len ds ->
  sc_DataShards sc = d -> sc_ParityShards sc = p -> sc_OriginalLen sc = len data -> len data < 2 ^ 63 ->
  exists fs, RSFragmenter_Fragment (mkRSFragmenter snd d p) id data ds = Ok (fs, len data) /\
    len fs = d + p /\ positioned id fs /\ rebuilds id data fs sc (Some rcv).
Proof using RL.
  intros SP Hd Hp Hsum Hlen Hwf Hds Sd Sp So H63. pose proof (len_nonneg data).
  destruct (rs_assemble_ok snd rcv id data d p ds SP Hd Hp Hsum Hlen Hwf Hds) as (fs & HF & Hlf & Hpos & Hrun).
  exists fs. split_and!; [done|done|done|]. intros t st P it Hid Ht Ho S1 S2 S3 Hc Hit Hn. unfold reassemble.
  rewrite Ho, S1, S2, S3, Ht, Hid, Sd, Sp, So, i64_id by (unfold is_i64; lia).
  unfold needed in Hn. rewrite Sd in Hn. rewrite (proj2 (Z.ltb_lt 0 d)) in Hn |- * by done.
  rewrite (Hrun P (len data) it); [|lia|by rewrite Hit, Hc|done]. f_equal. unfold len. by rewrite Nat2Z.id, firstn_all.
Qed.

(** Whatever the shard configuration, the fragments built can be reassembled. *)
Lemma buildFragments_rebuilds t id data variable snd rcv ds :
  sealer_match snd rcv -> len (Split data maxChunkSize) < 2 ^ 32 -> len data < 2 ^ 63 ->
  tc_dataShards t + tc_parityShards t <= 256 -> Forall wf_draws ds ->
  len (Split data maxChunkSize) <= len ds -> tc_dataShards t + tc_parityShards t <= len ds ->
  exists fs sc, buildFragments t id data variable snd ds = Ok (fs, sc) /\
    len fs < 2 ^ 32 /\ positioned id fs /\ sc_Variable sc = variable /\ sc_Streaming sc = false /\ ((data <> [] -> 0 < needed sc fs) /\ needed sc fs <= len fs) /\ rebuilds id data fs sc rcv.
Proof using RL.
  intros Hm Hb H64 H256 Hwf Hl1 Hl2. unfold buildFragments.
  assert (Hl1' : (length (Split data maxChunkSize) <= length ds)%nat) by (unfold len in Hl1; lia).
  destruct (split_join_facts data maxChunkSize ltac:(done)) as (Hj & _). rewrite Join_concat in Hj.
  assert (Hne : data <> [] -> 0 < len (Split data maxChunkSize)).
  { intros Hd. rewrite Split_cons by done. rewrite len_cons. pose proof (len_nonneg (Split (drop (Z.to_nat maxChunkSize) data) maxChunkSize)). lia. }
  set (sc0 := mkScheme 0 0 0 variable false false false false).
  destruct snd as [snd|], rcv as [rcv|]; try done; cbn [sealer_match] in Hm.
  - destruct (sealed_rebuilds snd rcv id data ds sc0 Hm Hb Hwf Hl1' eq_refl) as (fs & HF & Hlf & Hp & Hr).
    destruct ((0 <? tc_dataShards t) && (0 <? tc_parityShards t) && (tc_dataShards t <=? len data)) eqn:E.
    + rewrite !andb_true_iff in E. destruct E as [[E1 E2] E3]. split_bools. unfold NewRSFragmenter.
      rewrite (proj2 (Z.leb_gt (tc_dataShards t) 0)), (proj2 (Z.leb_gt (tc_parityShards t) 0)) by done. cbn [orb].
      set (sc := mkScheme (u32 (tc_dataShards t)) (u32 (tc_parityShards t)) (u64 (len data)) variable false false false false).
      destruct (rs_rebuilds snd rcv id data (tc_dataShards t) (tc_parityShards t) ds sc Hm) as (gs & HG & Hlg & Hpg & Hrg);
        [done|done|done|done|done|done|by apply u32_id; unfold is_u32; lia..|by apply u64_id; unfold is_u64; pose proof (len_nonneg data); lia|done|].
      rewrite HG. assert (Hnd : needed sc gs = tc_dataShards t).
      { unfold needed. cbn [sc_DataShards sc]. rewrite u32_id by (unfold is_u32; lia). by rewrite (proj2 (Z.ltb_lt 0 _)) by done. }
      exists gs, sc. split_and!; try done; rewrite ?Hnd; intros; lia.
    + exists fs, sc0. unfold NewFragmenter. cbn [Z.leb Z.compare maxChunkSize Z.mul Pos.mul].
      change (maxChunkSize <=? 0) with false. cbn iota. rewrite HF. split_and!; try done; try lia; intros ?%Hne; unfold needed; cbn; by rewrite Hlf.
  - destruct (plain_rebuilds id data (Split data maxChunkSize) sc0 Hb Hj eq_refl) as (Hlf & Hp & Hr).
    eexists _, sc0. split; [done|]. split_and!; try done; try lia; intros ?%Hne; unfold needed; cbn; by rewrite Hlf.
Qed.
End Rebuild.

(** ** A transfer from fragments to delivery *)

(** [sc.HybridSealed] and [sc.PQ], as the send paths set them from [contentSealer]. *)
Definition seal_flags (sc : scheme) (hybrid pq : bool) : scheme :=
  mkScheme (sc_DataShards sc) (sc_ParityShards sc) (sc_OriginalLen sc) (sc_Variable sc) (sc_Streaming sc) hybrid pq (sc_Resumable sc).

Section Delivery.
Context `{R : RSOps} `{C : CryptoOps}.

(** The receiver over a sequence of packets, and the outcome of each; every packet
    comes with the time and with whether it was routed. *)
Fixpoint ingest_all (t : TransferConfig) (ord : gmap Z bytes -> list (Z * bytes)) (sink : bytes -> bool)
    (transfers : gmap bytes transferState) (arr : list (Packet * (Z * bool))) : gmap bytes transferState * list ingested :=
  match arr with
  | [] => (transfers, [])
  | (pkt, (now, routed)) :: arr =>
      let '(transfers, o) := ingestForwardedFragment t ord sink now transfers pkt routed in
      let '(transfers, os) := ingest_all t ord sink transfers arr in
      (transfers, o :: os)
  end.

Lemma ingest_all_snoc t ord sink transfers arr pkt now routed :
  ingest_all t ord sink transfers (arr ++ [(pkt, (now, routed))]) =
    let '(m, os) := ingest_all t ord sink transfers arr in
    let '(m, o) := ingestForwardedFragment t ord sink now m pkt routed in (m, os ++ [o]).
Proof.
  revert transfers. induction arr as [|[p [n b]] arr IH]; intros transfers; cbn [ingest_all app].
  - by destruct (ingestForwardedFragment _ _ _ _ _ _ _).
  - destruct (ingestForwardedFragment t ord sink n transfers p b) as [m o]. rewrite IH. destruct (ingest_all t ord sink m arr) as [m' os].
    by destruct (ingestForwardedFragment t ord sink now m' pkt routed).
Qed.

(** The acknowledgements of a transfer whose first packet is [pkt]. *)
Definition acks_of (pkt : Packet) (routed : bool) : list ack_path := ackWithRedundancy (new_state pkt routed).

Definition first_acks (arr : list (Packet * (Z * bool))) : list ack_path :=
  match arr with [] => [] | (pkt, (_, routed)) :: _ => acks_of pkt routed end.

(** The state of transfer [id] in the table after the packets [arr]. *)
Definition tracked (id : bytes) (fs : list Fragment) (sub : Z) (sc : scheme) (base : gmap bytes transferState)
    (arr : list (Packet * (Z * bool))) (m : gmap bytes transferState) : Prop :=
  match arr with
  | [] => m = base
  | _ => exists st, m = <[id := st]> base /\ collected id fs sub sc arr.*1 st /\ ackWithRedundancy st = first_acks arr
  end.

Lemma collected_complete id fs sub sc arr st :
  len fs < 2 ^ 32 -> collected id fs sub sc arr st -> isCompleteLocked st = (len fs <=? wholes sub fs arr).
Proof.
  intros Hb Hst. unfold isCompleteLocked. rewrite (pc_Received _ _ _ _ _ _ (co_pieces _ _ _ _ _ _ Hst)), (co_Total _ _ _ _ _ _ Hst).
  rewrite pmap_size, length_map. fold (wholes sub fs arr). pose proof (wholes_le fs sub arr) as Hle.
  assert (0 <= wholes sub fs arr) by apply len_nonneg. rewrite u32_id by (unfold is_u32; lia).
  destruct (Z.leb_spec (len fs) (wholes sub fs arr)) as [Hc|Hc]; [|rewrite (proj2 (Z.eqb_neq (wholes sub fs arr) (len fs))) by lia; done].
  rewrite (proj2 (Z.eqb_eq _ _)) by lia. cbn [andb]. apply forallb_forall. intros k Hk%list_elem_of_In%elem_of_seqZ.
  assert (Hall : forall j, (j < length fs)%nat -> whole sub fs arr j = true) by (apply filter_full; done).
  unfold len in Hk. replace k with (Z.of_nat (Z.to_nat k)) by lia. rewrite pmap_lookup_nat, Hall by lia.
  destruct (lookup_lt_is_Some_2 fs (Z.to_nat k)) as [f Hf]; [lia|]. by rewrite (map_lookup_frag fs (fun _ => true) _ f Hf).
Qed.

Lemma collected_enough id fs sub sc arr st :
  len fs < 2 ^ 32 -> collected id fs sub sc arr st ->
  enoughToReassembleLocked st = (needed sc fs <=? wholes sub fs arr).
Proof.
  intros Hb Hst. unfold enoughToReassembleLocked, needed. rewrite (collected_complete _ _ _ _ _ _ Hb Hst), (co_scheme _ _ _ _ _ _ Hst).
  rewrite (pieces_count _ _ _ _ _ _ (co_pieces _ _ _ _ _ _ Hst)). pose proof (wholes_le fs sub arr) as Hle.
  assert (0 <= wholes sub fs arr) by apply len_nonneg. rewrite u32_id by (unfold is_u32; lia). by destruct (0 <? sc_DataShards sc).
Qed.

Lemma absorb_acks st pkt : ackWithRedundancy (absorb st pkt) = ackWithRedundancy st.
Proof.
  unfold ackWithRedundancy, ackSenders, absorb. destruct (absorbSubChunk _ _ _) as [sp r]. by destruct r.
Qed.

Section Run.
Context (t : TransferConfig) (ord : gmap Z bytes -> list (Z * bytes)) (Hord : forall m, ord m ≡ₚ map_to_list m) (sink : bytes -> bool).
Context (base : gmap bytes transferState) (id data : bytes) (fs : list Fragment) (sub : Z) (sc : scheme) (hybrid pq : bool).
Context (Hbase : base !! id = None) (Hpos : positioned id fs) (Hb : len fs < 2 ^ 32) (Hstr : sc_Streaming sc = false).
Context (Hpb : forall f, f ∈ fs -> len (fragmentPieces f sub) < 2 ^ 32).
Context (Hr : rebuilds id data fs sc (recipientOpener t (seal_flags sc hybrid pq))).
Abbreviation sc' := (seal_flags sc hybrid pq).

Lemma collected_reassembles arr st it :
  collected id fs sub sc' arr st -> it ≡ₚ map_to_list (ts_Chunks st) -> needed sc fs <= wholes sub fs arr -> reassemble t it st = RData data.
Proof using Hr.
  intros Hst Hit Hn. apply (Hr t st (whole sub fs arr)); try (by rewrite (co_scheme _ _ _ _ _ _ Hst)); try apply Hst; done.
Qed.

Lemma tracked_state arr m pkt now routed i j :
  tracked id fs sub sc' base arr m -> carries id fs sub sc' pkt i j ->
  exists st, match m !! p_ID pkt with Some st => st | None => new_state pkt routed end = st /\
    collected id fs sub sc' arr.*1 st /\ ackWithRedundancy st = first_acks (arr ++ [(pkt, (now, routed))]) /\
    delete id m = base /\ forall st', <[id := st']> m = <[id := st']> base.
Proof using Hbase Hpb.
  intros Hm Hc. rewrite (ca_ID _ _ _ _ _ _ _ Hc). destruct arr as [|[q [n b]] arr]; cbn [tracked] in Hm.
  - subst m. rewrite Hbase. eexists. split; [done|]. split; [by eapply collected_new|]. split; [done|].
    split; [by apply delete_id|done].
  - destruct Hm as (st & -> & Hst & Hack). rewrite lookup_insert_eq. exists st. split_and!; [done|done|done|by rewrite delete_insert_id|].
    intros st'. by rewrite insert_insert_eq.
Qed.

Lemma ingest_tracked arr m pkt now routed :
  tracked id fs sub sc' base arr m -> sent id fs sub sc' pkt ->
  let arr' := arr ++ [(pkt, (now, routed))] in
  exists m', ingestForwardedFragment t ord sink now m pkt routed =
      (m', if needed sc fs <=? wholes sub fs arr'.*1 then IDispatch data (sc_Variable sc) (first_acks arr') else INone) /\
    if needed sc fs <=? wholes sub fs arr'.*1 then m' = base else tracked id fs sub sc' base arr' m'.
Proof using Hord Hbase Hpos Hb Hstr Hpb Hr.
  intros Hm Hs arr'. destruct (sent_carries _ _ _ _ _ Hpos Hpb Hs) as (i & j & Hc).
  destruct (tracked_state arr m pkt now routed i j Hm Hc) as (st & Est & Hst & Hack & Hdel & Hins). unfold ingestForwardedFragment.
  assert (Hps : p_Streaming pkt = false) by (pose proof (ca_scheme _ _ _ _ _ _ _ Hc) as Hsc; apply (f_equal sc_Streaming) in Hsc; by rewrite <- Hstr).
  rewrite Est, Hps, (co_open _ _ _ _ _ _ Hst), (ca_ID _ _ _ _ _ _ _ Hc).
  pose proof (collected_absorb _ _ _ _ arr.*1 st pkt i j Hpb Hst Hc) as Hst'.
  assert (Ha : arr'.*1 = arr.*1 ++ [pkt]) by (subst arr'; by rewrite fmap_app). rewrite Ha.
  rewrite (collected_enough _ _ _ _ _ _ Hb Hst'). change (needed sc' fs) with (needed sc fs).
  destruct (needed sc fs <=? wholes sub fs (arr.*1 ++ [pkt])) eqn:E.
  - rewrite (collected_reassembles _ _ _ Hst'); [|apply Hord|by apply Z.leb_le]. exists base. split; [|done]. f_equal; [done|].
    unfold dispatch. by rewrite (co_scheme _ _ _ _ _ _ Hst'), absorb_acks, Hack.
  - eexists. split; [done|]. rewrite Hins. rewrite <- Ha in Hst'. rewrite <- absorb_acks with (pkt := pkt) in Hack. fold arr' in Hack.
    destruct arr' as [|q l]; [by destruct arr|]. by exists (absorb st pkt).
Qed.

(** Until enough fragments are whole nothing is delivered. *)
Lemma ingest_waiting arr :
  Forall (fun e => sent id fs sub sc' e.1) arr -> wholes sub fs arr.*1 < needed sc fs ->
  exists m, ingest_all t ord sink base arr = (m, repeat INone (length arr)) /\ tracked id fs sub sc' base arr m.
Proof using Hord Hbase Hpos Hb Hstr Hpb Hr.
  induction arr as [|[pkt [now routed]] arr IH] using rev_ind; intros Ha Hw; [by exists base|].
  apply Forall_app in Ha as [Ha [Hp _]%Forall_cons]. rewrite fmap_app in Hw. cbn [fmap list_fmap fst] in Hw, Hp.
  pose proof (wholes_mono fs sub arr.*1 pkt) as Hmono.
  destruct IH as (m & Hrun & Htr); [done|lia|]. rewrite ingest_all_snoc, Hrun.
  destruct (ingest_tracked arr m pkt now routed Htr Hp) as (m' & Hi & Hm'). rewrite Hi. rewrite fmap_app in Hm' |- *. cbn [fmap list_fmap fst] in Hm' |- *.
  rewrite (proj2 (Z.leb_gt _ _)) in Hm' |- * by done. exists m'. split; [|done].
  rewrite length_app, repeat_app. done.
Qed.

(** Whatever arrives of a transfer, each packet delivers nothing or exactly [data]:
    after a delivery the copies still to come start the transfer anew. *)
Lemma ingest_rounds acks arr :
  Forall (fun e => sent id fs sub sc' e.1 /\ acks_of e.1 e.2.2 = acks) arr ->
  exists m os, ingest_all t ord sink base arr = (m, os) /\ length os = length arr /\ Forall (fun o => o = INone \/ o = IDispatch data (sc_Variable sc) acks) os.
Proof using Hord Hbase Hpos Hb Hstr Hpb Hr.
  intros Ha. cut (exists since m os, ingest_all t ord sink base arr = (m, os) /\ tracked id fs sub sc' base since m /\
    Forall (fun e => acks_of e.1 e.2.2 = acks) since /\ length os = length arr /\ Forall (fun o => o = INone \/ o = IDispatch data (sc_Variable sc) acks) os).
  { intros (since & m & os & H1 & _ & _ & H2 & H3). by exists m, os. }
  induction arr as [|[pkt [now routed]] arr IH] using rev_ind; [by exists [], base, []|].
  apply Forall_app in Ha as [Ha [[Hp Hk] _]%Forall_cons]. cbn [fst snd] in Hp, Hk.
  destruct (IH Ha) as (since & m & os & Hrun & Htr & Hsa & Hlen & Hos). rewrite ingest_all_snoc, Hrun.
  destruct (ingest_tracked since m pkt now routed Htr Hp) as (m' & Hi & Hm'). rewrite Hi.
  assert (Hsa' : Forall (fun e => acks_of e.1 e.2.2 = acks) (since ++ [(pkt, (now, routed))])) by (apply Forall_app; split; [done|by constructor]).
  assert (Hfirst : first_acks (since ++ [(pkt, (now, routed))]) = acks).
  { clear -Hsa'. destruct since as [|[? [? ?]] ?]; cbn [app] in Hsa' |- *; by apply Forall_cons_1 in Hsa' as [H0 _]. }
  eexists (if needed sc fs <=? wholes sub fs (since ++ [(pkt, (now, routed))]).*1 then [] else since ++ [(pkt, (now, routed))]), m', _.
  split; [reflexivity|]. rewrite !length_app, Hlen. split; [|split; [by destruct (_ <=? _)|split; [cbn [length]; lia|]]].
  - destruct (_ <=? _); [by subst m'|done].
  - apply Forall_app. split; [done|]. constructor; [|constructor]. destruct (_ <=? _); [right; by rewrite Hfirst|by left].
Qed.
End Run.

(** C3: A payload is delivered exactly when enough of it has arrived.  The
    fragments [buildFragments] makes of [data] — Reed-Solomon shards, sealed chunks
    or, with no key, plain chunks — are cut into pieces of [sub] bytes and packed
    into packets, in any number of copies.  For every sequence of such packets, in
    any order, with pieces lost and duplicated: no packet is reported until the
    needed number of fragments (the data shards, or all chunks) have all their
    pieces, and the packet that completes them dispatches exactly [data], with its
    variable flag, acknowledges over every return path the first packet named, and
    leaves the table of transfers as it was before. *)
Theorem transfer_delivery `{RL : !RSLaws R} t t' id data variable snd ds sub hybrid pq ord sink base :
  (forall sc, sealer_match snd (recipientOpener t' (seal_flags sc hybrid pq))) ->
  len (Split data maxChunkSize) < 2 ^ 32 -> len data < 2 ^ 63 ->
  tc_dataShards t + tc_parityShards t <= 256 -> Forall wf_draws ds ->
  len (Split data maxChunkSize) <= len ds -> tc_dataShards t + tc_parityShards t <= len ds ->
  base !! id = None -> (forall m, ord m ≡ₚ map_to_list m) ->
  exists fs sc, buildFragments t id data variable snd ds = Ok (fs, sc) /\
    ((forall f, f ∈ fs -> len (fragmentPieces f sub) < 2 ^ 32) ->
     forall arr last, let all := arr ++ [last] in
     Forall (fun e => sent id fs sub (seal_flags sc hybrid pq) e.1) all -> wholes sub fs arr.*1 < needed sc fs ->
     exists m, ingest_all t' ord sink base all =
         (m, repeat INone (length arr) ++
             [if needed sc fs <=? wholes sub fs all.*1 then IDispatch data variable (first_acks all) else INone]) /\
       (needed sc fs <= wholes sub fs all.*1 -> m = base)).
Proof.
  intros Hm Hb H64 H256 Hwf Hl1 Hl2 Hbase Hord.
  set (rcv := recipientOpener t' (seal_flags (mkScheme 0 0 0 variable false false false false) hybrid pq)).
  destruct (buildFragments_rebuilds t id data variable snd rcv ds (Hm _) Hb H64 H256 Hwf Hl1 Hl2)
    as (fs & sc & HB & Hlf & Hpos & Hv & Hstr & _ & Hr). exists fs, sc. split; [done|].
  intros Hpb arr [pkt [now routed]] all [Ha [Hp _]%Forall_cons]%Forall_app Hw.
  change rcv with (recipientOpener t' (seal_flags sc hybrid pq)) in Hr.
  destruct (ingest_waiting t' ord Hord sink base id data fs sub sc hybrid pq Hbase Hpos Hlf Hstr Hpb Hr arr Ha Hw) as (m & Hrun & Htr).
  destruct (ingest_tracked t' ord Hord sink base id data fs sub sc hybrid pq Hbase Hpos Hlf Hstr Hpb Hr arr m pkt now routed Htr Hp) as (m' & Hi & Hm').
  subst all. rewrite ingest_all_snoc, Hrun, Hi. exists m'. rewrite Hv. split; [done|]. intros Hn%Z.leb_le. by rewrite Hn in Hm'.
Qed.
End Delivery.

(** ** Retained resumable streams *)

(** A retained resumable stream. *)
Definition retained (st : transferState) : option streamAssembler :=
  if sc_Resumable (ts_scheme st) then ts_stream st else None.

(** One tick of the sweep, over the table in the order [ord]: the streams that were
    idle since the cutoff are closed and dropped. *)
Definition sweepResumableStreams (ord : gmap bytes transferState -> list (bytes * transferState)) (now : Z)
    (transfers : gmap bytes transferState) : gmap bytes transferState * list (bytes * list stream_event) :=
  let cutoff := now - resumableStreamTTL in
  fold_left (fun '(m, evs) e =>
    match retained e.2 with
    | Some sa =>
        let '(_, evs', gone) := abandonIfIdle cutoff sa in
        if gone then (delete e.1 m, evs ++ [(e.1, evs')]) else (m, evs)
    | None => (m, evs)
    end) (ord transfers) (transfers, []).

(** Closing the sink of one stream and dropping it. *)
Definition evict_stream (now : Z) (me : gmap bytes transferState * list (bytes * list stream_event)) (e : bytes * Z) :
    gmap bytes transferState * list (bytes * list stream_event) :=
  let '(m, evs) := me in
  (delete e.1 m,
   match m !! e.1 with
   | Some st => match ts_stream st with Some sa => evs ++ [(e.1, (abandonIfIdle now sa).1.2)] | None => evs end
   | None => evs
   end).

(** [srt] is [sort.Slice] by last activity. *)
Definition enforceRetainedStreamCap (ord : gmap bytes transferState -> list (bytes * transferState))
    (srt : list (bytes * Z) -> list (bytes * Z)) (now : Z) (transfers : gmap bytes transferState) :
    gmap bytes transferState * list (bytes * list stream_event) :=
  let held := omap (fun e => sa ← retained e.2; Some (e.1, sa_lastActivity sa)) (ord transfers) in
  if len held <=? maxRetainedStreams then (transfers, [])
  else fold_left (evict_stream now) (take (length held - Z.to_nat maxRetainedStreams) (srt held)) (transfers, []).

(** The retained streams of a table. *)
Definition retained_streams (m : gmap bytes transferState) : gmap bytes transferState := filter (fun e => is_Some (retained e.2)) m.

Lemma evict_fold now D m evs : (fold_left (evict_stream now) D (m, evs)).1 = fold_left (fun m k => delete k m) D.*1 m.
Proof. revert m evs. induction D as [|e D IH]; intros m evs; cbn; [done|]. apply IH. Qed.

Lemma delete_fold_lookup (D : list bytes) (m : gmap bytes transferState) k :
  fold_left (fun m k => delete k m) D m !! k = if decide (k ∈ D) then None else m !! k.
Proof.
  revert m. induction D as [|d D IH]; intros m; cbn [fold_left].
  - by rewrite decide_False by apply not_elem_of_nil.
  - rewrite IH. destruct (decide (k = d)) as [->|Hne].
    + rewrite lookup_delete_eq, (decide_True _ _ (list_elem_of_here d D)). by destruct (decide _).
    + rewrite lookup_delete_ne by done. apply decide_ext. rewrite elem_of_cons. tauto.
Qed.

Lemma delete_fold_count (D : list bytes) (m : gmap bytes transferState) :
  NoDup D -> (forall k, k ∈ D -> is_Some (retained_streams m !! k)) ->
  (size (retained_streams (fold_left (fun m k => delete k m) D m)) + length D = size (retained_streams m))%nat.
Proof.
  revert m. induction D as [|d D IH]; intros m Hnd Hin; cbn [fold_left length]; [lia|].
  apply NoDup_cons in Hnd as [Hd Hnd]. destruct (Hin d (list_elem_of_here d D)) as [st Hst].
  assert (Hdel : retained_streams (delete d m) = delete d (retained_streams m)) by apply map_filter_delete.
  assert (Hpos : size (retained_streams m) <> 0%nat) by (intros H0%map_size_empty_iff; by rewrite H0 in Hst).
  specialize (IH (delete d m) Hnd). rewrite Hdel, map_size_delete, Hst in IH. rewrite <- Nat.add_succ_comm. cbn in *.
  rewrite IH; [lia|]. intros k Hk. rewrite lookup_delete_ne by (by intros ->). apply Hin. by apply list_elem_of_further.
Qed.

Section RetainedCap.
Context (ord : gmap bytes transferState -> list (bytes * transferState)) (Hord : forall m, ord m ≡ₚ map_to_list m).

Abbreviation held m := (omap (fun e => sa ← retained e.2; Some (e.1, sa_lastActivity sa)) (ord m)).

Lemma held_elem m k z : (k, z) ∈ held m <-> exists st sa, m !! k = Some st /\ retained st = Some sa /\ sa_lastActivity sa = z.
Proof using Hord.
  rewrite list_elem_of_omap. split.
  - intros ([k' st] & Hin & He). rewrite Hord, elem_of_map_to_list in Hin. cbn in He. destruct (retained st) as [sa|] eqn:E; [|done].
    cbn in He. simplify_eq. eauto.
  - intros (st & sa & Hm & Hr & <-). exists (k, st). rewrite Hord, elem_of_map_to_list. cbn. by rewrite Hr.
Qed.

Lemma held_retained m k : k ∈ (held m).*1 <-> is_Some (retained_streams m !! k).
Proof using Hord.
  rewrite list_elem_of_fmap. split.
  - intros ([k' z] & -> & Hin%held_elem). destruct Hin as (st & sa & Hm & Hr & _). exists st. apply map_lookup_filter_Some. cbn. rewrite Hr. eauto.
  - intros [st [Hm [sa Hr]]%map_lookup_filter_Some]. exists (k, sa_lastActivity sa). split; [done|]. apply held_elem. cbn in Hr. eauto.
Qed.

Lemma held_NoDup m : NoDup (held m).*1.
Proof using Hord.
  assert (H : NoDup (ord m).*1) by (rewrite Hord; apply NoDup_fst_map_to_list). revert H. generalize (ord m). intros l.
  induction l as [|[k st] l IH]; cbn; [done|]. intros [Hk Hl]%NoDup_cons. destruct (retained st) as [sa|]; [|by apply IH].
  cbn. apply NoDup_cons. split; [|by apply IH]. intros Hin. apply Hk. apply list_elem_of_fmap in Hin as ([k' z] & He & Hin).
  cbn in He. subst k'. apply list_elem_of_omap in Hin as ([k' st'] & Hin & He). cbn in He. destruct (retained st'); [|done].
  cbn in He. simplify_eq. apply list_elem_of_fmap. by exists (k, st').
Qed.

Lemma held_size m : length (held m) = size (retained_streams m).
Proof using Hord.
  rewrite <- (length_fmap fst (held m)), <- size_dom. rewrite <- (size_list_to_set (C := gset bytes)) by apply held_NoDup.
  f_equal. apply set_eq. intros k. by rewrite elem_of_list_to_set, elem_of_dom, held_retained.
Qed.
End RetainedCap.

(** The cap on retained resumable streams holds whenever it is enforced, and
    it evicts the right ones: at most [maxRetainedStreams] are left, every entry that
    is not a retained stream is untouched, nothing is added, and every stream evicted
    was last active no later than every stream kept. *)
Theorem retained_cap ord srt now m :
  (forall m, ord m ≡ₚ map_to_list m) -> (forall l, srt l ≡ₚ l /\ StronglySorted (fun a b => a.2 <= b.2) (srt l)) ->
  let m' := (enforceRetainedStreamCap ord srt now m).1 in
  Z.of_nat (size (retained_streams m')) <= maxRetainedStreams /\ m' ⊆ m /\
  (forall k st, m !! k = Some st -> retained st = None -> m' !! k = Some st) /\
  (forall k st sa k' st' sa', m !! k = Some st -> m' !! k = None -> retained st = Some sa ->
     m' !! k' = Some st' -> retained st' = Some sa' -> sa_lastActivity sa <= sa_lastActivity sa').
Proof.
  intros Hord Hsrt m'. subst m'. unfold enforceRetainedStreamCap. cbv zeta.
  destruct (Hsrt (omap (fun e => sa ← retained e.2; Some (e.1, sa_lastActivity sa)) (ord m))) as [Hp Hs].
  pose proof (held_size ord Hord m) as Hsz. pose proof (held_NoDup ord Hord m) as Hnd.
  pose proof (held_elem ord Hord m) as Hel. pose proof (held_retained ord Hord m) as Hret. set (held := omap _ _) in *.
  destruct (Z.leb_spec (len held) maxRetainedStreams) as [Hc|Hc]; cbn [fst].
  { split_and!; [unfold len in Hc; lia|done|done|congruence]. }
  rewrite evict_fold.
  set (n := (length held - Z.to_nat maxRetainedStreams)%nat). pose proof (take_drop n (srt held)) as Htd.
  rewrite <- Hp in Hnd. rewrite <- Htd, fmap_app, NoDup_app in Hnd. destruct Hnd as (Hnd & Hdis & _).
  assert (Hin : forall e, e ∈ take n (srt held) -> e ∈ held) by (intros e He; rewrite <- Hp, <- Htd; set_solver).
  assert (Hkeys : forall k, k ∈ (take n (srt held)).*1 -> is_Some (retained_streams m !! k)).
  { intros k (e & -> & He)%list_elem_of_fmap. apply Hret. apply list_elem_of_fmap. eauto. }
  split_and!.
  - pose proof (delete_fold_count _ m Hnd Hkeys) as Hcount. rewrite length_fmap, length_take in Hcount.
    rewrite <- Hsz, (Permutation_length Hp) in Hcount. unfold len in Hc. unfold maxRetainedStreams in *. lia.
  - apply map_subseteq_spec. intros k st. rewrite delete_fold_lookup. by case_decide.
  - intros k st Hm Hr. rewrite delete_fold_lookup, decide_False; [done|]. intros Hk. destruct (Hkeys k Hk) as [st' Hst'].
    apply map_lookup_filter_Some in Hst' as [Hm' [sa Hsa]]. cbn in Hsa. congruence.
  - intros k st sa k' st' sa' Hm Hgone Hr Hkept Hr'. rewrite delete_fold_lookup in Hgone, Hkept.
    destruct (decide (k ∈ _)) as [Hk|]; [|congruence]. destruct (decide (k' ∈ _)) as [|Hk']; [done|].
    apply list_elem_of_fmap in Hk as ([k0 z] & -> & Hk). cbn in *.
    pose proof (Hin _ Hk) as Hz. apply Hel in Hz as (st0 & sa0 & Hm0 & Hr0 & <-). simplify_eq.
    assert (Hd : (k', sa_lastActivity sa') ∈ drop n (srt held)).
    { assert (Hh : (k', sa_lastActivity sa') ∈ held) by (apply Hel; eauto). rewrite <- Hp, <- Htd, elem_of_app in Hh.
      destruct Hh as [Hh|Hh]; [|done]. exfalso. apply Hk'. apply list_elem_of_fmap. by exists (k', sa_lastActivity sa'). }
    rewrite <- Htd in Hs. apply (StronglySorted_app_1_elem_of _ _ _ _ _ Hs Hk Hd).
Qed.

(** ** Witnesses *)

Definition sample_config : TransferConfig := mkTransferConfig (Some toy_sealer) None None 2 1 false false.
Definition sample_frags : list Fragment :=
  match @buildFragments toy_rs sample_config sample_id [x01; x02; x03] true (Some toy_sealer) (repeat sample_draw 3) with
  | Ok (fs, _) => fs
  | Err _ => []
  end.

(** Piece [j] of fragment [i], in pieces of 16 bytes. *)
Definition sample_piece (i j : nat) : Packet :=
  let f := nth i sample_frags (new_fragment [] 0 0 []) in
  let pc := nth j (fragmentPieces f 16) f in
  @innerPacket toy_ops 256 0 [] sample_id "dest" "alice" pc sample_scheme [].

Lemma sample_piece_sent i j : (i < 3)%nat -> (j < 2)%nat -> @sent toy_ops sample_id sample_frags 16 sample_scheme (sample_piece i j).
Proof.
  intros Hi Hj. unfold sample_piece, sent. set (f := nth i sample_frags _).
  exists f, (nth j (fragmentPieces f 16) f), 256, 0, [], "dest"%string, "alice"%string, []. split_and!; [| |done].
  - apply list_elem_of_In, nth_In. vm_compute. lia.
  - apply list_elem_of_In, nth_In. destruct i as [|[|[|]]]; [vm_compute; lia..|lia].
Qed.

(** Fragment 2 with a duplicate piece, and half of fragment 1. *)
(** Fragment 2 with a duplicate piece, and half of fragment 1. *)
Definition sample_arrivals : list (Packet * (Z * bool)) :=
  [(sample_piece 2 1, (1, true)); (sample_piece 2 0, (2, true)); (sample_piece 2 1, (3, false)); (sample_piece 1 0, (4, true))].

Lemma sample_pieces_small f : f ∈ sample_frags -> len (fragmentPieces f 16) < 2 ^ 32.
Proof.
  intros Hf. apply Z.ltb_lt. assert (H : forallb (fun f => len (fragmentPieces f 16) <? 2 ^ 32) sample_frags = true) by (vm_compute; reflexivity).
  rewrite forallb_forall in H. apply H. by apply list_elem_of_In.
Qed.

Lemma transfer_delivery_witness :
  @ingest_all toy_rs toy_ops sample_config map_to_list (fun _ => false) ∅ (sample_arrivals ++ [(sample_piece 1 1, (5, true))]) =
    (∅, repeat INone 4 ++ [IDispatch [x01; x02; x03] true (repeat (PRouted "alice" sample_id) 3)]).
Proof.
  destruct (@transfer_delivery toy_rs toy_ops toy_rs_laws sample_config sample_config sample_id [x01; x02; x03] true (Some toy_sealer)
    (repeat sample_draw 3) 16 false false map_to_list (fun _ => false) ∅) as (fs & sc & HB & H).
  - intros sc. exact toy_sealer_pair.
  - vm_compute. reflexivity.
  - vm_compute. reflexivity.
  - vm_compute. discriminate.
  - repeat constructor.
  - vm_compute. discriminate.
  - vm_compute. discriminate.
  - reflexivity.
  - reflexivity.
  - assert (Hfs : fs = sample_frags) by (unfold sample_frags; rewrite HB; reflexivity). subst fs.
    assert (sc = sample_scheme) as -> by (vm_compute in HB; injection HB as <-; reflexivity).
    destruct (H sample_pieces_small sample_arrivals (sample_piece 1 1, (5, true))) as (m & Hrun & Hm).
    + unfold sample_arrivals. cbn [app]. repeat (apply List.Forall_cons; [cbn [fst]; apply sample_piece_sent; lia|]). apply List.Forall_nil.
    + vm_compute. reflexivity.
    + assert (Hn : needed sample_scheme sample_frags <= wholes 16 sample_frags
        (sample_arrivals ++ [(sample_piece 1 1, (5, true))]).*1) by (vm_compute; discriminate).
      rewrite (Hm Hn) in Hrun. apply Z.leb_le in Hn. rewrite Hn in Hrun. exact Hrun.
Defined.

(** The entry of a delivered transfer is removed, so a retransmission of its
    fragments is delivered a second time. *)
Example retransmission_redelivers :
  let arr := sample_arrivals ++ [(sample_piece 1 1, (5, true))] in
  let d := IDispatch [x01; x02; x03] true (repeat (PRouted "alice" sample_id) 3) in
  (@ingest_all toy_rs toy_ops sample_config map_to_list (fun _ => false) ∅ (arr ++ arr)).2 = repeat INone 4 ++ [d] ++ repeat INone 4 ++ [d].
Proof. vm_compute. reflexivity. Qed.

(** On a node with no key, one packet that announces an erasure-coded transfer of
    one data shard calls the nil sealer. *)
Example keyless_rs_panics :
  let t := mkTransferConfig None None None 0 0 false false in
  let sc := mkScheme 1 1 3 false false false false false in
  let pkt := @innerPacket toy_ops 0 0 [] sample_id "dest" "" (set_piece (new_fragment sample_id 0 2 [x01]) 0 1 [x01]) sc [] in
  (@ingestForwardedFragment toy_rs toy_ops t map_to_list (fun _ => false) 0 ∅ pkt false).2 = IPanic.
Proof. vm_compute. reflexivity. Qed.

(** The shards left over after a delivery start a new entry in the table. *)
Example late_shard_leaks :
  let arr := [(sample_piece 0 0, (1, true)); (sample_piece 0 1, (2, true)); (sample_piece 1 0, (3, true)); (sample_piece 1 1, (4, true));
              (sample_piece 2 0, (5, true)); (sample_piece 2 1, (6, true))] in
  let '(m, outs) := @ingest_all toy_rs toy_ops sample_config map_to_list (fun _ => false) ∅ arr in
  outs !! 3%nat = Some (IDispatch [x01; x02; x03] true (repeat (PRouted "alice" sample_id) 3)) /\ size m = 1%nat.
Proof. vm_compute. done. Qed.

(** A stream abandoned while its sender is still connected goes on accepting (and
    dropping) fragments as if it were complete. *)
Example abandoned_stream_accepts :
  let pkt := @innerPacket toy_ops 0 0 [] sample_id "dest" "alice" (set_piece (new_fragment sample_id 0 3 [x01]) 0 1 [x01])
               (mkScheme 2 1 0 false true false false true) [] in
  let sa := newStreamAssembler 0 true pkt in
  let '(sa', evs, gone) := abandonIfIdle 10 sa in
  evs = [SClose] /\ gone = true /\ @add toy_rs toy_ops sample_config 11 map_to_list sa' pkt = Added sa' [] /\ sa_done sa' = true /\ sa_written sa' = [].
Proof. vm_compute. done. Qed.

(** A table of [n] retained streams, the [i]-th last active at time [i]. *)
Definition sample_retained (n : nat) : gmap bytes transferState :=
  list_to_map (map (fun i =>
    let pkt := @innerPacket toy_ops 0 0 [] sample_id "dest" "alice" (new_fragment sample_id 0 3 [x01]) (mkScheme 2 1 0 false true false false true) [] in
    (be_bytes 4 (Z.of_nat i), set_stream (newStreamAssembler (Z.of_nat i) true pkt) (new_state pkt false))) (seq 0 n)).

Definition by_activity (a b : bytes * Z) : Prop := a.2 <= b.2.
#[local] Instance by_activity_dec : RelDecision by_activity := fun a b => Z_le_dec a.2 b.2.
#[local] Instance by_activity_trans : Transitive by_activity.
Proof. unfold by_activity. intros ???. lia. Qed.
#[local] Instance by_activity_total : Total by_activity.
Proof. unfold by_activity. intros ??. lia. Qed.

Lemma retained_cap_witness :
  let m := sample_retained 514 in
  let m' := (enforceRetainedStreamCap map_to_list (merge_sort by_activity) 1000 m).1 in
  Z.of_nat (size (retained_streams m')) <= maxRetainedStreams /\
  (size m, size m', bool_decide (m' !! be_bytes 4 1 = None), bool_decide (m' !! be_bytes 4 2 = None)) = (514%nat, 512%nat, true, false).
Proof.
  intros m m'. split; [|vm_compute; reflexivity].
  refine (proj1 (retained_cap map_to_list (merge_sort by_activity) 1000 m (fun m => reflexivity _) _)).
  intros l. split; [apply merge_sort_Permutation|apply (StronglySorted_merge_sort by_activity)].
Defined.
