(* ===== verification/Direct.v ===== *)
(** * Direct connections (internal/transfer/transfer.go, streaming.go)

    The sender that opens one connection to the destination and exchanges every
    piece for an acknowledgement ([sendToNode], [streamDirect],
    [streamDirectResumable]), and the handler of an incoming connection
    ([handleConnection]).

    A connection is seen from one end at a time.  For the sender, [io] says of the
    packet sent [i]-th whether the write succeeds and whether an acknowledgement is
    then read.  For the handler, the input is the list of the packets it reads until
    the end of the connection or a read error, each with the time and with whether
    the acknowledgement that follows can be written.  What the handler does to the
    outside is a list of events; a connection is handled as one step on the table of
    transfers. *)

From S2P Require Import Prelude Crypto Wire Encryption Fragment Pieces Stream Transfer.

Definition maxRetries : nat := 3.

(** ** The sender *)

Inductive send_err : Type := ENoConn | EWrite | ERead | ESeek | EStream (r : stream_result).

(** [up i] says whether the [i]-th connection attempt succeeds. *)
Definition dialWithRetries (up : nat -> bool) : bool := existsb up (seq 0 maxRetries).

(** The packets written so far are the state of the sending end. *)
Section Sender.
Context `{R : RSOps} `{C : CryptoOps}.
Context (signKey : bytes) (selfID : string) (subChunkSize : Z).
Context (clock : nat -> Z * bytes) (io : nat -> bool * bool).

(** Writing one packet and reading its acknowledgement. *)
Definition exchange (c : list Packet) (pkt : Packet) : list Packet * result send_err unit :=
  let '(wrote, acked) := io (length c) in
  if negb wrote then (c, Err EWrite)
  else let c := c ++ [pkt] in (c, if acked then Ok tt else Err ERead).

Definition initPacket (i : nat) (id : bytes) (totalChunks : Z) (destGroup destNode : string) (sc : scheme) : Packet :=
  let pkt := NewPacket (clock i).1 (clock i).2 PacketTypeData [] destGroup destNode in
  let pkt := set_position id selfID (mkFragment id 0 totalChunks [] 0 0 false 0 0 false) pkt in
  Sign signKey (applyScheme sc pkt).

Definition piecePacket (i : nat) (id : bytes) (destGroup destNode : string) (sc : scheme) (piece : Fragment) : Packet :=
  let pkt := NewPacket (clock i).1 (clock i).2 PacketTypeData (f_Payload piece) destGroup destNode in
  let pkt := set_position id selfID piece pkt in
  let pkt := stampStreaming pkt piece in
  Sign signKey (applyScheme sc pkt).

Fixpoint send_pieces (c : list Packet) (id : bytes) (destGroup destNode : string) (sc : scheme) (ps : list Fragment) :
    list Packet * result send_err unit :=
  match ps with
  | [] => (c, Ok tt)
  | p :: ps =>
      match exchange c (piecePacket (length c) id destGroup destNode sc p) with
      | (c, Ok _) => send_pieces c id destGroup destNode sc ps
      | (c, Err e) => (c, Err e)
      end
  end.

Definition sendFragmentDirect (c : list Packet) (id : bytes) (destGroup destNode : string) (sc : scheme) (frag : Fragment) :
    list Packet * result send_err unit := send_pieces c id destGroup destNode sc (fragmentPieces frag subChunkSize).

Fixpoint send_frags (c : list Packet) (id : bytes) (destGroup destNode : string) (sc : scheme) (fs : list Fragment) :
    list Packet * result send_err unit :=
  match fs with
  | [] => (c, Ok tt)
  | f :: fs =>
      match sendFragmentDirect c id destGroup destNode sc f with
      | (c, Ok _) => send_frags c id destGroup destNode sc fs
      | (c, Err e) => (c, Err e)
      end
  end.

(** [totalChunks], [destGroup] and [destNode] are those of the chunk metadata. *)
Definition sendToNode (up : nat -> bool) (id : bytes) (totalChunks : Z) (destGroup destNode : string) (sc : scheme) (fs : list Fragment) :
    list Packet * result send_err unit :=
  if negb (dialWithRetries up) then ([], Err ENoConn)
  else
    match exchange [] (initPacket 0 id totalChunks destGroup destNode sc) with
    | (c, Ok _) => send_frags c id destGroup destNode sc fs
    | (c, Err e) => (c, Err e)
    end.

Definition stream_outcome (r : list Packet * stream_result) : list Packet * result send_err unit :=
  (r.1, match r.2 with SDone => Ok tt | e => Err (EStream e) end).

(** The callback of the streaming loops. *)
Definition direct_send (id : bytes) (dest : string) (sc : scheme) (c : list Packet) (f : Fragment) : list Packet * bool :=
  let '(c, r) := sendFragmentDirect c id "" dest sc f in (c, match r with Ok _ => true | Err _ => false end).

Definition streamDirect (t : TransferConfig) (streamBlockSize : Z) (up : nat -> bool) (id : bytes) (dest : string) (sc : scheme)
    (r : reader) (sealer : option Sealer) (draw : Z -> list draws) : list Packet * result send_err unit :=
  if negb (dialWithRetries up) then ([], Err ENoConn)
  else
    match exchange [] (initPacket 0 id 0 "" dest sc) with
    | (c, Ok _) => stream_outcome (streamBlocks (direct_send id dest sc) t streamBlockSize r id sealer draw 0 c)
    | (c, Err e) => (c, Err e)
    end.

(** [resumeFrom] is the [ChunkNumber] of the acknowledgement read; [seek n] is the
    reader moved to offset [n], if that is possible. *)
Definition streamDirectResumable (t : TransferConfig) (streamBlockSize : Z) (up : nat -> bool) (id : bytes) (dest : string) (sc : scheme)
    (r : reader) (seek : Z -> option reader) (resumeFrom : Z) (sealer : option Sealer) (draw : Z -> list draws) :
    list Packet * result send_err unit :=
  if negb (dialWithRetries up) then ([], Err ENoConn)
  else
    match exchange [] (initPacket 0 id 0 "" dest sc) with
    | (c, Ok _) =>
        let size := if streamBlockSize <=? 0 then defaultStreamBlockSize else streamBlockSize in
        match (if 0 <? resumeFrom then seek (i64 (resumeFrom * size)) else Some r) with
        | None => (c, Err ESeek)
        | Some r => stream_outcome (streamBlocks (direct_send id dest sc) t streamBlockSize r id sealer draw resumeFrom c)
        end
    | (c, Err e) => (c, Err e)
    end.
End Sender.

(** ** The handler *)

Inductive conn_event : Type :=
  | CRelay (blob : bytes)                      (** [handleRelay] *)
  | CSignalAck (id signerKey : bytes)          (** [signalAckFrom] *)
  | CReservation (node : string)               (** [serveReservation], for the rest of the connection *)
  | CWrite (ack : Packet)                      (** an acknowledgement written *)
  | CStream (evs : list stream_event)          (** what a stream assembler did *)
  | CDispatch (o : ingested)                   (** the payload delivered *)
  | CClosed (evs : list (bytes * list stream_event))   (** retained streams evicted *)
  | CPanic.

Definition shouldAcceptTransfer (selfID : string) (pkt : Packet) : bool :=
  String.eqb (p_DestNode pkt) selfID ||
  String.eqb (p_DestNode pkt) "" && (String.eqb (p_DestGroup pkt) "ANY" || String.eqb (p_DestGroup pkt) "ALL").

Definition isTransferComplete (st : transferState) : bool :=
  match ts_stream st with Some sa => sa_done sa | None => isCompleteLocked st end.

Inductive processed : Type := POk (st : transferState) (evs : list conn_event) | PErr | PPanic.

(** One read of a connection: the time, the packet, and whether the next write of
    the handler succeeds. *)
Record read : Type := mkRead { r_now : Z; r_pkt : Packet; r_wrote : bool }.

Definition set_ack (source : string) (chunk : Z) (pkt : Packet) : Packet :=
  mkPacket (p_ID pkt) (p_Type pkt) (p_Timestamp pkt) source (p_DestGroup pkt) (p_DestNode pkt)
    (p_TotalChunks pkt) chunk (p_SubIndex pkt) (p_SubTotal pkt) (p_Streaming pkt)
    (p_BlockIndex pkt) (p_BlockLen pkt) (p_Final pkt) (p_HybridSealed pkt) (p_PQ pkt) (p_Resumable pkt)
    (p_DataShards pkt) (p_ParityShards pkt) (p_OriginalLen pkt) (p_Variable pkt) (p_ReplyBlock pkt)
    (p_Decoy pkt) (p_Pad pkt) (p_PayloadSize pkt) (p_Payload pkt) (p_SignerKey pkt) (p_Signature pkt).

Section Handler.
Context `{R : RSOps} `{C : CryptoOps}.
Context (t : TransferConfig) (selfID : string) (signKey : bytes) (padCell : Z) (fmt : Z -> bytes).
Context (ord : gmap Z bytes -> list (Z * bytes)) (sink : bytes -> bool).

(** The acknowledgement to the sender of [pkt]. *)
Definition conn_ack (now : Z) (pkt : Packet) (chunk : Z) : Packet :=
  Sign signKey (padPacket padCell (set_ack selfID chunk (NewPacket now (fmt now) PacketTypeAcknowledgement [] "" (p_SourceNode pkt)))).

Definition processChunk (now : Z) (pkt : Packet) (st : transferState) : processed :=
  if negb (Verify pkt) then PErr
  else
    match ts_stream st with
    | Some sa =>
        match add t now ord sa pkt with
        | Added sa evs => POk (set_stream sa st) [CStream evs]
        | AddPanic => PPanic
        end
    | None => POk (absorb st pkt) []
    end.

(** The loop over the chunks; the boolean tells a [break] from a [return]. *)
Fixpoint chunk_loop (st : transferState) (rs : list read) : transferState * list conn_event * bool :=
  match rs with
  | [] => (st, [], true)
  | r :: rs =>
      match processChunk (r_now r) (r_pkt r) st with
      | PErr => (st, [], false)
      | PPanic => (st, [CPanic], false)
      | POk st evs =>
          if negb (r_wrote r) then (st, evs, false)
          else
            let evs := evs ++ [CWrite (conn_ack (r_now r) (r_pkt r) 0)] in
            match ts_stream st with
            | None =>
                if isTransferComplete st then (st, evs, true)
                else let '(st, evs', b) := chunk_loop st rs in (st, evs ++ evs', b)
            | Some _ => let '(st, evs', b) := chunk_loop st rs in (st, evs ++ evs', b)
            end
      end
  end.

Definition deliver (st : transferState) : list conn_event :=
  match ts_stream st with
  | Some _ => []
  | None =>
      match reassemble t (ord (ts_Chunks st)) st with
      | RData data => [CDispatch (dispatch st data)]
      | RFail => []
      | RPanic => [CPanic]
      end
  end.

(** Relay packets and acknowledgements, one after the other. *)
Fixpoint oneshot_loop (pkt : Packet) (rs : list read) : list conn_event :=
  let next :=
    match rs with
    | [] => []
    | r :: rs =>
        if negb (Verify (r_pkt r)) || negb (String.eqb (p_SourceNode (r_pkt r)) (SignerID (r_pkt r))) then []
        else oneshot_loop (r_pkt r) rs
    end in
  if p_Type pkt =? PacketTypeRelay then CRelay (p_Payload pkt) :: next
  else if p_Type pkt =? PacketTypeAcknowledgement then CSignalAck (p_ID pkt) (p_SignerKey pkt) :: next
  else [].

Definition conn_state (now : Z) (transfers : gmap bytes transferState) (pkt : Packet) : transferState :=
  let sc := schemeFromPacket pkt in
  let fresh := mkTransferState (p_ID pkt) (p_TotalChunks pkt) ∅ ∅ ∅ sc (p_SourceNode pkt) [] false
                 (if sc_Streaming sc then Some (newStreamAssembler now (sink (p_ID pkt)) pkt) else None) false in
  if sc_Resumable sc && sc_Streaming sc then match transfers !! p_ID pkt with Some st => st | None => fresh end else fresh.

Definition resume_point (sc : scheme) (st : transferState) : Z :=
  if sc_Resumable sc then match ts_stream st with Some sa => resumeFrom sa | None => 0 end else 0.

(** The deferred clean-up: a partial resumable stream is retained, under the cap. *)
Definition conn_cleanup (ordT : gmap bytes transferState -> list (bytes * transferState)) (srt : list (bytes * Z) -> list (bytes * Z))
    (now : Z) (sc : scheme) (transfers : gmap bytes transferState) (st : transferState) : gmap bytes transferState * list conn_event :=
  if sc_Resumable sc && sc_Streaming sc && negb (isTransferComplete st) then
    let '(m, evs) := enforceRetainedStreamCap ordT srt now (<[ts_ID st := st]> transfers) in (m, [CClosed evs])
  else (delete (ts_ID st) transfers, []).

Definition handleConnection (ordT : gmap bytes transferState -> list (bytes * transferState)) (srt : list (bytes * Z) -> list (bytes * Z))
    (transfers : gmap bytes transferState) (rs : list read) (endTime : Z) : gmap bytes transferState * list conn_event :=
  match rs with
  | [] => (transfers, [])
  | mkRead now pkt wrote :: rs =>
      if negb (Verify pkt) || negb (String.eqb (p_SourceNode pkt) (SignerID pkt)) then (transfers, [])
      else if p_Type pkt =? PacketTypeReservation then (transfers, [CReservation (p_SourceNode pkt)])
      else if (p_Type pkt =? PacketTypeRelay) || (p_Type pkt =? PacketTypeAcknowledgement) then (transfers, oneshot_loop pkt rs)
      else if negb (shouldAcceptTransfer selfID pkt) then (transfers, [])
      else
        let sc := schemeFromPacket pkt in
        let st := conn_state now transfers pkt in
        if negb wrote then conn_cleanup ordT srt endTime sc transfers st
        else
          let init := CWrite (conn_ack now pkt (resume_point sc st)) in
          let '(st, evs, broke) := chunk_loop st rs in
          let out := if broke && isTransferComplete st then deliver st else [] in
          let '(m, evs') := conn_cleanup ordT srt endTime sc transfers st in
          (m, init :: evs ++ out ++ evs')
  end.
End Handler.

(** ** A whole transfer over one connection *)

Abbreviation key p := (p_ChunkNumber p, p_SubIndex p).

Definition frag_keys (sub : Z) (f : Fragment) : list (Z * Z) :=
  map (fun j => (f_Index f, Z.of_nat j)) (seq 0 (length (piece_payloads sub f))).

Lemma fragmentPieces_keys f sub :
  len (fragmentPieces f sub) < 2 ^ 32 -> map (fun p => (f_Index p, f_SubIndex p)) (fragmentPieces f sub) = frag_keys sub f.
Proof.
  unfold frag_keys, piece_payloads. rewrite length_map. unfold fragmentPieces. destruct (_ || _); [done|]. intros Hb.
  unfold len in Hb. rewrite length_imap in Hb |- *. apply list_eq. intros j.
  match goal with |- map ?g ?l !! j = map ?h ?k !! j => change (map g l) with (g <$> l); change (map h k) with (h <$> k) end.
  rewrite !list_lookup_fmap, list_lookup_imap. destruct (Split _ _ !! j) as [p|] eqn:E.
  - apply lookup_lt_Some in E. rewrite lookup_seq_lt by done. cbn. rewrite u32_id by (unfold is_u32; lia). done.
  - apply lookup_ge_None in E. by rewrite lookup_seq_ge.
Qed.

Lemma frag_keys_NoDup sub fs k :
  (forall j f, fs !! j = Some f -> f_Index f = k + Z.of_nat j) -> NoDup (concat (map (frag_keys sub) fs)).
Proof.
  revert k. induction fs as [|f fs IH]; intros k Hk; cbn [map concat]; [constructor|]. apply NoDup_app. split_and!.
  - unfold frag_keys. match goal with |- NoDup (map ?g ?l) => change (map g l) with (g <$> l) end.
    apply NoDup_fmap_2_strong; [intros a b _ _ [= H]; lia|apply NoDup_seq].
  - intros x (j & -> & _)%list_elem_of_fmap Hx. apply list_elem_of_In, in_concat in Hx as (l & Hl & Hx).
    apply list_elem_of_In, list_elem_of_fmap in Hl as (g & -> & Hg). apply list_elem_of_In, list_elem_of_fmap in Hx as (j' & He & _).
    apply list_elem_of_lookup_1 in Hg as [i Hi]. pose proof (Hk (S i) g Hi) as Hgi. pose proof (Hk 0%nat f eq_refl) as Hfi.
    injection He as He _. lia.
  - apply (IH (k + 1)). intros j g Hg. rewrite (Hk (S j) g Hg). lia.
Qed.

Lemma key_arrived pre i j pkt :
  p_ChunkNumber pkt = Z.of_nat i -> p_SubIndex pkt = Z.of_nat j -> arrived pre i j = true <-> key pkt ∈ map (fun p => key p) pre.
Proof.
  intros Hi Hj. unfold arrived. rewrite existsb_exists. split.
  - intros (p & Hp & [H1 H2]%andb_true_iff). split_bools. apply list_elem_of_fmap. exists p. split; [congruence|by apply list_elem_of_In].
  - intros (p & He & Hp)%list_elem_of_fmap. exists p. split; [by apply list_elem_of_In|]. injection He as E1 E2.
    rewrite <- E1, <- E2, Hi, Hj, !Z.eqb_refl. done.
Qed.

(** All the pieces of [fs], once each. *)
Record complete_set (id : bytes) (fs : list Fragment) (sub : Z) (sc : scheme) (all : list Packet) : Prop := {
  cs_carries pkt : pkt ∈ all -> exists i j, carries id fs sub sc pkt i j;
  cs_once : NoDup (map (fun p => key p) all);
  cs_full i f j : fs !! i = Some f -> (j < length (piece_payloads sub f))%nat -> arrived all i j = true
}.

Lemma complete_set_wholes id fs sub sc all : complete_set id fs sub sc all -> wholes sub fs all = len fs.
Proof.
  intros H. unfold wholes, len. f_equal. rewrite (List.filter_ext_in _ (fun _ => true)), List.filter_true; [by rewrite length_seq|].
  intros i [_ Hi]%in_seq. unfold whole. destruct (lookup_lt_is_Some_2 fs i ltac:(lia)) as [f Hf]. rewrite Hf.
  apply forallb_seq. intros j Hj. by eapply cs_full.
Qed.

(** Before the last piece, some fragment is missing. *)
Lemma complete_set_prefix id fs sub sc pre suf :
  complete_set id fs sub sc (pre ++ suf) -> suf <> [] -> wholes sub fs pre < len fs.
Proof.
  intros H Hne. destruct suf as [|pkt suf]; [done|]. destruct (cs_carries _ _ _ _ _ H pkt ltac:(set_solver)) as (i & j & Hc).
  destruct (Z.lt_ge_cases (wholes sub fs pre) (len fs)) as [|Hge]; [done|]. exfalso.
  pose proof (filter_full (whole sub fs pre) (length fs) Hge i (ca_index _ _ _ _ _ _ _ Hc)) as Hw. unfold whole in Hw.
  destruct (fs !! i) as [f|] eqn:Ef; [|done]. destruct (ca_fragment _ _ _ _ _ _ _ Hc f Ef) as [_ Hj%lookup_lt_Some].
  rewrite forallb_seq in Hw. apply Hw in Hj. apply (key_arrived pre i j pkt) in Hj; [|apply Hc..].
  pose proof (cs_once _ _ _ _ _ H) as Hnd. rewrite map_app in Hnd. apply NoDup_app in Hnd as (_ & Hd & _).
  apply (Hd _ Hj). apply list_elem_of_here.
Qed.

Section SenderProofs.
Context `{C : CryptoOps} (signKey : bytes) (selfID : string) (sub : Z) (clock : nat -> Z * bytes) (io : nat -> bool * bool).
Context (Hio : forall i, io i = (true, true)).

Lemma exchange_ok c pkt : exchange io c pkt = (c ++ [pkt], Ok tt).
Proof using Hio. unfold exchange. by rewrite Hio. Qed.

(** The packets of the pieces [ps], after [n] others. *)
Definition piece_packets (n : nat) (id : bytes) (g d : string) (sc : scheme) (ps : list Fragment) : list Packet :=
  imap (fun j p => piecePacket signKey selfID clock (n + j) id g d sc p) ps.

Lemma send_pieces_ok c id g d sc ps :
  send_pieces signKey selfID clock io c id g d sc ps = (c ++ piece_packets (length c) id g d sc ps, Ok tt).
Proof using Hio.
  revert c. induction ps as [|p ps IH]; intros c; cbn [send_pieces]; [by rewrite app_nil_r|].
  rewrite exchange_ok, IH, <- app_assoc. unfold piece_packets. cbn [imap app]. rewrite length_app, Nat.add_0_r. do 3 f_equal.
  apply imap_ext. intros j q _. cbn. f_equal. lia.
Qed.

Lemma send_frags_ok c id g d sc fs :
  send_frags signKey selfID sub clock io c id g d sc fs =
    (c ++ piece_packets (length c) id g d sc (concat (map (fun f => fragmentPieces f sub) fs)), Ok tt).
Proof using Hio.
  revert c. induction fs as [|f fs IH]; intros c; cbn [send_frags map concat]; [by rewrite app_nil_r|].
  unfold sendFragmentDirect. rewrite send_pieces_ok, IH, <- app_assoc. do 2 f_equal. unfold piece_packets.
  rewrite imap_app, length_app, length_imap. f_equal. apply imap_ext. intros j q _. cbn. f_equal. lia.
Qed.

Lemma sendToNode_ok up id total g d sc fs :
  dialWithRetries up = true ->
  sendToNode signKey selfID sub clock io up id total g d sc fs =
    (initPacket signKey selfID clock 0 id total g d sc :: piece_packets 1 id g d sc (concat (map (fun f => fragmentPieces f sub) fs)), Ok tt).
Proof using Hio. intros Hup. unfold sendToNode. rewrite Hup, exchange_ok. cbn [negb]. apply send_frags_ok. Qed.

Lemma piecePacket_packs i id g d sc pc : packs id sc pc (piecePacket signKey selfID clock i id g d sc pc).
Proof using Type. unfold piecePacket, Sign. destruct (negb _); split; try done; by destruct sc. Qed.

Lemma piece_packets_complete n id g d sc fs :
  positioned id fs -> (forall f, f ∈ fs -> len (fragmentPieces f sub) < 2 ^ 32) ->
  complete_set id fs sub sc (piece_packets n id g d sc (concat (map (fun f => fragmentPieces f sub) fs))).
Proof using Type.
  intros Hpos Hb. set (ps := concat _).
  assert (Hkeys : map (fun p => key p) (piece_packets n id g d sc ps) = concat (map (frag_keys sub) fs)).
  { transitivity (map (fun p => (f_Index p, f_SubIndex p)) ps).
    - apply list_eq. intros j. unfold piece_packets.
      match goal with |- map ?u ?l !! j = map ?h ?k !! j => change (map u l) with (u <$> l); change (map h k) with (h <$> k) end.
      rewrite !list_lookup_fmap, list_lookup_imap. destruct (ps !! j) as [p|]; [|done]. cbn.
      pose proof (piecePacket_packs (n + j) id g d sc p) as Hp. by rewrite (pk_index _ _ _ _ Hp), (pk_sub _ _ _ _ Hp).
    - subst ps. rewrite concat_map, map_map. f_equal. apply map_ext_in. intros f Hf. apply fragmentPieces_keys, Hb. by apply list_elem_of_In. }
  split.
  - intros pkt [j Hj]%list_elem_of_lookup_1. unfold piece_packets in Hj. rewrite list_lookup_imap in Hj.
    destruct (ps !! j) as [pc|] eqn:Epc; [|done]. cbn in Hj. injection Hj as <-. apply list_elem_of_lookup_2 in Epc.
    apply list_elem_of_In, in_concat in Epc as (l & Hl & Hpc). apply list_elem_of_In, list_elem_of_fmap in Hl as (f & -> & Hf).
    pose proof (Hb f Hf) as Hbf. apply list_elem_of_lookup_1 in Hf as [i Hi]. exists i.
    pose proof (Hpos i f Hi) as Hfi. eapply packs_carries with (f' := f); try done; try (by rewrite Hfi).
    + by apply list_elem_of_In.
    + apply piecePacket_packs.
  - rewrite Hkeys. apply (frag_keys_NoDup sub fs 0). intros j f Hj. by rewrite (Hpos j f Hj).
  - intros i f j Hf Hj. assert (Hin : (Z.of_nat i, Z.of_nat j) ∈ map (fun p => key p) (piece_packets n id g d sc ps)).
    { rewrite Hkeys. apply list_elem_of_In, in_concat. exists (frag_keys sub f). split.
      - apply in_map, list_elem_of_In. by eapply list_elem_of_lookup_2.
      - apply in_map_iff. exists j. split; [by rewrite (Hpos i f Hf)|apply in_seq; lia]. }
    apply list_elem_of_fmap in Hin as (p & Hp & Hin). injection Hp as Hp1 Hp2. apply (key_arrived _ i j p); [done..|].
    apply list_elem_of_fmap. by exists p.
Qed.
End SenderProofs.

Section HandlerProofs.
Context `{R : RSOps} `{C : CryptoOps}.
Context (t : TransferConfig) (selfID : string) (signKey : bytes) (padCell : Z) (fmt : Z -> bytes).
Context (ord : gmap Z bytes -> list (Z * bytes)).
Context (id : bytes) (fs : list Fragment) (sub : Z) (sc : scheme) (all : list Packet).
Context (Hb : len fs < 2 ^ 32) (Hpb : forall f, f ∈ fs -> len (fragmentPieces f sub) < 2 ^ 32) (Hall : complete_set id fs sub sc all).
Context (Hver : forall pkt, pkt ∈ all -> Verify pkt = true).

(** Every chunk is acknowledged, and the loop does not stop before the last. *)
Lemma chunk_loop_ok done st rs :
  collected id fs sub sc done st -> ts_stream st = None -> done ++ map r_pkt rs = all -> Forall (fun r => r_wrote r = true) rs ->
  exists st', chunk_loop t selfID signKey padCell fmt ord st rs =
      (st', map (fun r => CWrite (conn_ack selfID signKey padCell fmt (r_now r) (r_pkt r) 0)) rs, true) /\
    collected id fs sub sc all st' /\ ts_stream st' = None /\ ackWithRedundancy st' = ackWithRedundancy st.
Proof using Hb Hpb Hall Hver.
  revert done st. induction rs as [|[now pkt w] rs IH]; intros done st Hst Hs Hd Hw.
  - rewrite app_nil_r in Hd. subst done. by exists st.
  - inversion_clear Hw as [|? ? Hw1 Hw']. cbn [r_wrote] in Hw1. subst w. cbn [map r_pkt] in Hd.
    destruct (cs_carries _ _ _ _ _ Hall pkt) as (i & j & Hc); [rewrite <- Hd; set_solver|].
    pose proof (collected_absorb _ _ _ _ done st pkt i j Hpb Hst Hc) as Hst'.
    assert (Hs' : ts_stream (absorb st pkt) = None).
    { unfold absorb. destruct (absorbSubChunk _ _ _) as [sp r]. by destruct r. }
    destruct (IH (done ++ [pkt]) (absorb st pkt) Hst' Hs') as (st' & Hrun & Hco & Hns & Hack); [by rewrite <- app_assoc|done|].
    exists st'. rewrite absorb_acks in Hack. split; [|done]. cbn [chunk_loop r_now r_pkt r_wrote map]. unfold processChunk.
    rewrite (Hver pkt) by (rewrite <- Hd; set_solver). rewrite Hs. cbn [negb]. rewrite Hs'. unfold isTransferComplete. rewrite Hs'.
    rewrite (collected_complete _ _ _ _ _ _ Hb Hst'), Hrun. destruct rs as [|r rs].
    + destruct (_ <=? _); [|done]. cbn [chunk_loop map] in Hrun. injection Hrun as <-. done.
    + rewrite (proj2 (Z.leb_gt _ _)); [done|]. eapply complete_set_prefix with (suf := map r_pkt (r :: rs)); [|done].
      rewrite <- app_assoc. cbn [app]. rewrite Hd. exact Hall.
Qed.
End HandlerProofs.

Lemma signed_accepted `{C : CryptoOps} `{L : !CryptoLaws C} priv p :
  len priv = ed_PrivateKeySize -> p_SourceNode p = DeriveNodeID (ed_public priv) ->
  Verify (Sign priv p) = true /\ p_SourceNode (Sign priv p) = SignerID (Sign priv p).
Proof.
  intros Hk Hs. destruct (sign_verify priv (set_timestamp 0 p) (p_Timestamp p) (p_Pad p)) as [H _]. destruct (H Hk) as (Hv & Hid & _).
  assert (He : set_timestamp (p_Timestamp p) (set_pad (p_Pad p) (Sign priv (set_timestamp 0 p))) = Sign priv p).
  { unfold Sign. rewrite Hk, Z.eqb_refl. by destruct p. }
  rewrite He in Hv. split; [done|]. unfold Sign. rewrite Hk, Z.eqb_refl. cbn. unfold SignerID. cbn. done.
Qed.

Lemma initPacket_fields `{C : CryptoOps} signKey selfID clock i id total g d sc :
  let p := initPacket signKey selfID clock i id total g d sc in
  p_Type p = PacketTypeData /\ p_ID p = id /\ p_TotalChunks p = total /\ schemeFromPacket p = sc /\ p_SourceNode p = selfID /\ p_DestNode p = d.
Proof. unfold initPacket, Sign. destruct (negb _); split_and!; try done; by destruct sc. Qed.

Section Accepted.
Context `{C : CryptoOps} `{L : !CryptoLaws C} (signKey : bytes) (selfID : string) (clock : nat -> Z * bytes).
Context (Hkey : len signKey = ed_PrivateKeySize) (Hself : selfID = DeriveNodeID (ed_public signKey)).

Lemma initPacket_accepted i id total g d sc :
  let p := initPacket signKey selfID clock i id total g d sc in Verify p = true /\ p_SourceNode p = SignerID p.
Proof using All. by apply signed_accepted. Qed.

Lemma piece_packets_accepted n id g d sc ps pkt : pkt ∈ piece_packets signKey selfID clock n id g d sc ps -> Verify pkt = true.
Proof using All.
  intros [j Hj]%list_elem_of_lookup_1. unfold piece_packets in Hj. rewrite list_lookup_imap in Hj. destruct (ps !! j); [|done].
  cbn in Hj. injection Hj as <-. by apply signed_accepted.
Qed.
End Accepted.

(** The state of a direct transfer that is not a stream, before any piece. *)
Lemma conn_state_fresh now sink transfers pkt fs sub id sc :
  (forall f, f ∈ fs -> len (fragmentPieces f sub) < 2 ^ 32) ->
  p_ID pkt = id -> p_TotalChunks pkt = len fs -> schemeFromPacket pkt = sc -> sc_Streaming sc = false ->
  let st := conn_state sink now transfers pkt in
  collected id fs sub sc [] st /\ ts_stream st = None /\
  (p_SourceNode pkt <> ""%string -> ackWithRedundancy st = repeat (PDirect (p_SourceNode pkt) id) ackRedundancy).
Proof.
  intros Hb Hid Ht Hsc Hstr. unfold conn_state. rewrite Hsc, Hstr, andb_false_r, Hid, Ht. split; [|split; [done|]].
  - by split; [..|apply pieces_nil].
  - intros Hn%String.eqb_neq. unfold ackWithRedundancy, ackSenders. cbn [ts_replyBlock ts_sourceNode ts_routed ts_ID].
    rewrite Hn. done.
Qed.

(** C6: A direct transfer completes.  Over a connection that does not fail, the
    sender exchanges the opening packet and every piece of every fragment for an
    acknowledgement and succeeds; the receiver, reading exactly these packets,
    writes one acknowledgement per packet (so neither end waits for the other),
    dispatches exactly the payload, once, after the last piece, and drops the
    transfer from its table.  The padding of the acknowledgements, the piece size
    and the kind of fragments are arbitrary. *)
Theorem direct_delivery `{R : RSOps} `{RL : !RSLaws R} `{C : CryptoOps} `{L : !CryptoLaws C}
    t t' id data variable snd ds sub hybrid pq ord ordT srt sink selfID rcvID signKey rcvKey padCell clock fmt group transfers up times endTime :
  (forall sc, sealer_match snd (recipientOpener t' (seal_flags sc hybrid pq))) ->
  len (Split data maxChunkSize) < 2 ^ 32 -> len data < 2 ^ 63 ->
  tc_dataShards t + tc_parityShards t <= 256 -> Forall wf_draws ds ->
  len (Split data maxChunkSize) <= len ds -> tc_dataShards t + tc_parityShards t <= len ds ->
  (forall m, ord m ≡ₚ map_to_list m) -> dialWithRetries up = true ->
  len signKey = ed_PrivateKeySize -> selfID = DeriveNodeID (ed_public signKey) -> selfID <> ""%string ->
  exists fs sc, buildFragments t id data variable snd ds = Ok (fs, sc) /\
    ((forall f, f ∈ fs -> len (fragmentPieces f sub) < 2 ^ 32) ->
     exists pkts, sendToNode signKey selfID sub clock (fun _ => (true, true)) up id (len fs) group rcvID (seal_flags sc hybrid pq) fs = (pkts, Ok tt) /\
       let rs := imap (fun i p => mkRead (times i) p true) pkts in
       handleConnection t' rcvID rcvKey padCell fmt ord sink ordT srt transfers rs endTime =
         (delete id transfers,
          map (fun r => CWrite (conn_ack rcvID rcvKey padCell fmt (r_now r) (r_pkt r) 0)) rs ++
          [CDispatch (IDispatch data variable (repeat (PDirect selfID id) ackRedundancy))])).
Proof.
  intros Hm Hlb H64 H256 Hwf Hl1 Hl2 Hord Hup Hkey Hself Hne.
  set (rcv := recipientOpener t' (seal_flags (mkScheme 0 0 0 variable false false false false) hybrid pq)).
  destruct (buildFragments_rebuilds t id data variable snd rcv ds (Hm _) Hlb H64 H256 Hwf Hl1 Hl2)
    as (fs & sc & HB & Hlf & Hpos & Hv & Hstr & [_ Hneed] & Hr). exists fs, sc. split; [done|]. intros Hpb. eexists.
  split; [by apply sendToNode_ok|]. cbv zeta. set (sc' := seal_flags sc hybrid pq). set (p0 := initPacket _ _ _ _ _ _ _ _ _).
  set (all := piece_packets _ _ _ _ _ _ _ _ _).
  pose proof (piece_packets_complete signKey selfID sub clock 1 id group rcvID sc' fs Hpos Hpb) as Hall. fold all in Hall.
  destruct (initPacket_accepted signKey selfID clock Hkey Hself 0 id (len fs) group rcvID sc') as [Hv0 Hs0].
  destruct (initPacket_fields signKey selfID clock 0 id (len fs) group rcvID sc') as (F1 & F2 & F3 & F4 & F5 & F6). fold p0 in Hv0, Hs0, F1, F2, F3, F4, F5, F6.
  destruct (conn_state_fresh (times 0%nat) sink transfers p0 fs sub id sc' Hpb F2 F3 F4 Hstr) as (Hst & Hns & Hack).
  rewrite F5 in Hack. specialize (Hack Hne). cbn [imap handleConnection map app r_now r_pkt]. set (rs := imap _ all).
  rewrite Hv0, <- Hs0, String.eqb_refl, F1. cbn [negb orb]. change (PacketTypeData =? PacketTypeReservation) with false.
  change ((PacketTypeData =? PacketTypeRelay) || (PacketTypeData =? PacketTypeAcknowledgement)) with false. cbv iota.
  unfold shouldAcceptTransfer. rewrite F6, String.eqb_refl, F4. cbn [orb negb].
  destruct (chunk_loop_ok t' rcvID rcvKey padCell fmt ord id fs sub sc' all Hlf Hpb Hall
    (fun pkt => piece_packets_accepted signKey selfID clock Hkey Hself _ _ _ _ _ _ pkt) [] _ rs Hst Hns) as (st' & Hrun & Hco & Hns' & Hack').
  { subst rs. apply list_eq. intros i. match goal with |- ([] ++ map ?u ?l) !! i = _ => change ([] ++ map u l) with (u <$> l) end.
    rewrite list_lookup_fmap, list_lookup_imap. by destruct (all !! i). }
  { subst rs. apply Forall_lookup. intros i r Hi. rewrite list_lookup_imap in Hi. destruct (all !! i); [|done]. cbn in Hi. by simplify_eq. }
  rewrite Hrun. unfold isTransferComplete. rewrite Hns', (collected_complete _ _ _ _ _ _ Hlf Hco), (complete_set_wholes _ _ _ _ _ Hall), Z.leb_refl.
  cbn [andb]. unfold deliver. rewrite Hns'.
  rewrite (collected_reassembles t' id data fs sub sc hybrid pq Hr all st' (ord (ts_Chunks st'))); [|done|apply Hord|by rewrite (complete_set_wholes _ _ _ _ _ Hall)].
  unfold conn_cleanup, resume_point. rewrite Hns. cbn [sc_Streaming sc' seal_flags]. rewrite Hstr, andb_false_r. cbn [andb].
  rewrite (co_ID _ _ _ _ _ _ Hco). unfold dispatch. rewrite (co_scheme _ _ _ _ _ _ Hco), Hack', Hack. cbn [sc_Variable sc' seal_flags]. rewrite Hv.
  f_equal. cbn [app]. f_equal. f_equal. by destruct (sc_Resumable _).
Qed.

(** ** Witness and examples *)

Definition sample_key : bytes := repeat x05 64.
Definition sample_self : string := @DeriveNodeID toy_ops (@ed_public toy_ops sample_key).

Lemma direct_delivery_witness :
  exists fs pkts, len pkts = 7 /\
    @sendToNode toy_ops sample_key sample_self 16 (fun _ => (0, [])) (fun _ => (true, true)) (fun _ => true) sample_id (len fs) "" "bob" sample_scheme fs = (pkts, Ok tt) /\
    let rs := imap (fun i p => mkRead (Z.of_nat i) p true) pkts in
    let out := @handleConnection toy_rs toy_ops sample_config "bob" sample_key 256 (fun _ => []) map_to_list (fun _ => false) map_to_list (fun l => l) ∅ rs 9 in
    out.1 = ∅ /\ last out.2 = Some (CDispatch (IDispatch [x01; x02; x03] true (repeat (PDirect sample_self sample_id) 3))).
Proof.
  destruct (@direct_delivery toy_rs toy_rs_laws toy_ops toy_laws sample_config sample_config sample_id [x01; x02; x03] true (Some toy_sealer)
    (repeat sample_draw 3) 16 false false map_to_list map_to_list (fun l => l) (fun _ => false) sample_self "bob" sample_key sample_key 256
    (fun _ => (0, [])) (fun _ => []) "" ∅ (fun _ => true) (fun i => Z.of_nat i) 9) as (fs & sc & HB & H).
  - intros sc. exact toy_sealer_pair.
  - vm_compute. reflexivity.
  - vm_compute. reflexivity.
  - vm_compute. discriminate.
  - repeat constructor.
  - vm_compute. discriminate.
  - vm_compute. discriminate.
  - reflexivity.
  - reflexivity.
  - reflexivity.
  - reflexivity.
  - vm_compute. discriminate.
  - assert (Hfs : fs = sample_frags) by (unfold sample_frags; rewrite HB; reflexivity). subst fs.
    assert (sc = sample_scheme) as -> by (vm_compute in HB; injection HB as <-; reflexivity).
    destruct (H sample_pieces_small) as (pkts & Hsend & Hrecv). exists sample_frags, pkts. cbv zeta in Hrecv |- *. split; [|split].
    + vm_compute in Hsend. injection Hsend as <-. reflexivity.
    + exact Hsend.
    + rewrite Hrecv. split; [reflexivity|]. cbn [snd]. apply last_snoc.
Defined.

(** An acknowledgement is padded before it is signed, so that on the wire it does
    not end on a cell boundary: the key and the signature (96 bytes) are on top. *)
Example signed_ack_off_cell :
  let ack := @conn_ack toy_ops "bob" sample_key 256 (fun _ => []) 0 (sample_piece 0 0) 0 in marshaledLen ack mod 256 = 96.
Proof. vm_compute. reflexivity. Qed.

(** When a resumed stream is sealed afresh, the pieces of one shard from both
    attempts are joined into a payload that is neither sealing of the shard. *)
Example resume_mixes_seals :
  let shard payload := set_piece (new_fragment sample_id 0 3 payload) 0 1 payload in
  let piece payload j := nth j (fragmentPieces (shard payload) 2) (shard payload) in
  let pkt payload j := @innerPacket toy_ops 0 0 [] sample_id "bob" "alice" (piece payload j) (mkScheme 2 1 0 false true false false true) [] in
  let first := [x01; x02; x03; x04] in
  let second := [x05; x06; x07; x08] in
  let '(sub, r0) := absorbSubChunk ∅ ∅ (pkt first 0%nat) in
  let '(sub, r1) := absorbSubChunk ∅ sub (pkt second 0%nat) in
  (r0, r1, (absorbSubChunk ∅ sub (pkt second 1%nat)).2) = (None, None, Some [x01; x02; x07; x08]).
Proof. vm_compute. reflexivity. Qed.
