(* ===== verification/Offline.v ===== *)
(** * Store and forward (internal/transfer/storeforward.go, reservation.go;
      the held blobs of internal/storage/storage.go)

    A relay holds the blobs it cannot deliver, in a queue per recipient, in memory
    and on disk; it flushes them when the recipient reserves a circuit or becomes
    reachable, expires them, and reloads them after a restart.  The reservation
    tables of a relay and of a node behind NAT are here too.

    The directory of held blobs is a map from directory names to files, and a file
    is its bytes; listing a directory sorts it by name, as [os.ReadDir] does.  Reads
    and writes of files succeed.  An operation reads the clock once. *)

From S2P Require Import Prelude Wire Dht.

Definition maxOfflinePerNode : nat := 64.

(** ** Decimal file names *)

Definition digit_byte (d : Z) : byte := byte_of_Z (48 + d).

Fixpoint dec_loop (fuel : nat) (z : Z) (acc : bytes) : bytes :=
  match fuel with
  | O => acc
  | S fuel => let acc := digit_byte (z mod 10) :: acc in if z <? 10 then acc else dec_loop fuel (z / 10) acc
  end.

(** [fmt.Sprintf("%d", n)] of a [uint64], which has at most twenty digits. *)
Definition dec_bytes (n : Z) : bytes := dec_loop 20 n [].

Definition dot_blob : bytes := str_bytes ".blob".
Definition blob_name (seq : Z) : string := bytes_str (dec_bytes seq ++ dot_blob).

Definition digit_val (b : byte) : option Z :=
  let d := byte_to_Z b - 48 in if (0 <=? d) && (d <=? 9) then Some d else None.

(** The digits at the head of [l], read into [v]; [None] if there are none. *)
Fixpoint scan_digits (v : Z) (l : bytes) : Z * bytes :=
  match l with
  | b :: t => match digit_val b with Some d => scan_digits (v * 10 + d) t | None => (v, l) end
  | [] => (v, [])
  end.

(** [fmt.Sscanf(name, "%d.blob", &seq)] of a name that starts with no blank. *)
Definition scan_blob_name (name : string) : option Z :=
  let l := str_bytes name in
  match l with
  | b :: _ =>
      match digit_val b with
      | Some _ =>
          let '(v, rest) := scan_digits 0 l in
          if (v <? 2 ^ 64) && bool_decide (take 5 rest = dot_blob) then Some v else None
      | None => None
      end
  | [] => None
  end.

(** ** The files of held blobs *)

Record OfflineBlob : Type := mkOfflineBlob { ob_Seq : Z; ob_Blob : bytes; ob_Expiry : Z }.

(** The directory [offline]: the files of each recipient's directory. *)
Abbreviation disk := (gmap string (gmap string bytes)).

Definition offlineNodeDir (nodeID : string) : string := EncodeToString (str_bytes nodeID).

Definition SaveOffline (s : disk) (nodeID : string) (seq : Z) (blob : bytes) (expiry : Z) : disk :=
  let dir := offlineNodeDir nodeID in
  let files := default ∅ (s !! dir) in
  <[dir := <[blob_name seq := be_bytes 8 (u64 expiry) ++ blob]> files]> s.

Definition DeleteOffline (s : disk) (nodeID : string) (seq : Z) : disk :=
  let dir := offlineNodeDir nodeID in
  match s !! dir with Some files => <[dir := delete (blob_name seq) files]> s | None => s end.

Definition DeleteOfflineNode (s : disk) (nodeID : string) : disk := delete (offlineNodeDir nodeID) s.

(** [os.ReadDir] sorts by name. *)
Definition name_le {A} (a b : string * A) : Prop := String.leb a.1 b.1 = true.
#[export] Instance name_le_dec {A} : RelDecision (name_le (A := A)) := fun a b => decide (String.leb a.1 b.1 = true).
Definition ReadDir {A} (m : gmap string A) : list (string * A) := merge_sort name_le (map_to_list m).

Definition is_blob_file (name : string) : bool :=
  let l := str_bytes name in bool_decide (drop (length l - 5) l = dot_blob).

Definition load_file (e : string * bytes) : option OfflineBlob :=
  if is_blob_file e.1 then
    seq ← scan_blob_name e.1;
    if len e.2 <? 8 then None else Some (mkOfflineBlob seq (drop 8 e.2) (i64 (be_val (take 8 e.2))))
  else None.

Definition load_dir (out : gmap string (list OfflineBlob)) (e : string * gmap string bytes) : gmap string (list OfflineBlob) :=
  match DecodeHex (str_bytes e.1) with
  | None => out
  | Some id =>
      let nodeID := bytes_str id in
      fold_left (fun out f => match load_file f with
                              | Some b => <[nodeID := default [] (out !! nodeID) ++ [b]]> out
                              | None => out
                              end) (ReadDir e.2) out
  end.

Definition LoadOffline (s : disk) : gmap string (list OfflineBlob) := fold_left load_dir (ReadDir s) ∅.

(** ** The queues *)

Record pendingBlob : Type := mkPending { pb_seq : Z; pb_blob : bytes; pb_expiry : Z }.

Record held : Type := mkHeld {
  h_offline : gmap string (list pendingBlob);
  h_offSeq : Z;
  h_storage : option disk
}.

Definition timeAfterNow (now ts : Z) : bool := now <? ts.

Definition with_disk (h : held) (f : disk -> disk) : held := mkHeld (h_offline h) (h_offSeq h) (f <$> h_storage h).
Definition set_offline (h : held) (m : gmap string (list pendingBlob)) : held := mkHeld m (h_offSeq h) (h_storage h).

Definition queue (h : held) (nodeID : string) : list pendingBlob := default [] (h_offline h !! nodeID).

Definition storeOffline (storeForward : bool) (offlineTTL now : Z) (nodeID : string) (blob : bytes) (h : held) : held :=
  if negb storeForward || String.eqb nodeID "" then h
  else
    let seq := u64 (h_offSeq h + 1) in
    let expiry := now + offlineTTL in
    let q := queue h nodeID ++ [mkPending seq blob expiry] in
    let over := (length q - maxOfflinePerNode)%nat in
    let h := mkHeld (<[nodeID := drop over q]> (h_offline h)) seq (h_storage h) in
    with_disk h (fun s =>
      let s := SaveOffline s nodeID seq blob expiry in
      fold_left (fun s pb => DeleteOffline s nodeID (pb_seq pb)) (take over q) s).

Definition clearOfflineStore (nodeID : string) (h : held) : held := with_disk h (fun s => DeleteOfflineNode s nodeID).

(** The blobs sent over the fresh reservation; a failure of [rc.send] is ignored. *)
Definition flushOffline (now : Z) (nodeID : string) (h : held) : held * list bytes :=
  let q := queue h nodeID in
  let h := set_offline h (delete nodeID (h_offline h)) in
  (clearOfflineStore nodeID h, map pb_blob (List.filter (fun pb => timeAfterNow now (pb_expiry pb)) q)).

Definition clearOffline (nodeID : string) (h : held) : held :=
  clearOfflineStore nodeID (set_offline h (delete nodeID (h_offline h))).

(** The sends of one redelivery, up to the first failure; [up i] says whether the
    [i]-th succeeds. *)
Fixpoint send_held (now : Z) (up : nat -> bool) (i : nat) (q : list pendingBlob) : list bytes * bool :=
  match q with
  | [] => ([], true)
  | pb :: q =>
      if negb (timeAfterNow now (pb_expiry pb)) then send_held now up i q
      else if up i then let '(sent, ok) := send_held now up (S i) q in (pb_blob pb :: sent, ok) else ([], false)
  end.

Definition redeliverTo (now : Z) (up : nat -> bool) (nodeID : string) (h : held) : held * list bytes * bool :=
  let '(sent, ok) := send_held now up 0 (queue h nodeID) in
  (if ok then clearOffline nodeID h else h, sent, ok).

(** [active] are the active nodes with their addresses, [reserved] whether a node
    holds a reservation here; [ord] lists the recipients.  Returned is also what
    was sent to which address. *)
Definition redeliverRound (now : Z) (up : string -> nat -> bool) (active : gmap string string) (reserved : string -> bool)
    (ord : gmap string (list pendingBlob) -> list string) (h : held) : held * list (string * list bytes) :=
  fold_left (fun '(h, out) id =>
    if reserved id then (h, out)
    else match active !! id with
         | None => (h, out)
         | Some addr => let '(h, sent, _) := redeliverTo now (up id) id h in (h, out ++ [(addr, sent)])
         end) (ord (h_offline h)) (h, []).

Definition expire_one (now : Z) (h : held) (e : string * list pendingBlob) : held :=
  let '(id, q) := e in
  let kept := List.filter (fun pb => timeAfterNow now (pb_expiry pb)) q in
  let gone := List.filter (fun pb => negb (timeAfterNow now (pb_expiry pb))) q in
  let h := set_offline h (match kept with [] => delete id (h_offline h) | _ => <[id := kept]> (h_offline h) end) in
  with_disk h (fun s => fold_left (fun s pb => DeleteOffline s id (pb_seq pb)) gone s).

Definition expireOffline (now : Z) (ord : gmap string (list pendingBlob) -> list (string * list pendingBlob)) (h : held) : held :=
  fold_left (expire_one now) (ord (h_offline h)) h.

(** What a node that starts finds on its disk. *)
Definition load_entry (now : Z) (nodeID : string) (st : held * Z) (e : OfflineBlob) : held * Z :=
  let '(h, maxSeq) := st in
  if negb (timeAfterNow now (ob_Expiry e)) then (with_disk h (fun s => DeleteOffline s nodeID (ob_Seq e)), maxSeq)
  else
    (set_offline h (<[nodeID := queue h nodeID ++ [mkPending (ob_Seq e) (ob_Blob e) (ob_Expiry e)]]> (h_offline h)),
     if maxSeq <? ob_Seq e then ob_Seq e else maxSeq).

Definition loadOffline (now : Z) (ord : gmap string (list OfflineBlob) -> list (string * list OfflineBlob)) (h : held) : held :=
  match h_storage h with
  | None => h
  | Some s =>
      let '(h, maxSeq) := fold_left (fun st '(id, es) => fold_left (load_entry now id) es st) (ord (LoadOffline s)) (h, 0) in
      if h_offSeq h <? maxSeq then mkHeld (h_offline h) maxSeq (h_storage h) else h
  end.

(** ** Reservations *)

(** The circuits a relay holds, each a connection. *)
Abbreviation circuits := (gmap string Z).

Definition reservationFor (m : circuits) (nodeID : string) : option Z := if String.eqb nodeID "" then None else m !! nodeID.

(** [serveReservation]: registering, and the clean-up when the connection closes. *)
Definition reserve_open (m : circuits) (nodeID : string) (rc : Z) : circuits := if String.eqb nodeID "" then m else <[nodeID := rc]> m.
Definition reserve_close (m : circuits) (nodeID : string) (rc : Z) : circuits :=
  match m !! nodeID with Some rc' => if rc' =? rc then delete nodeID m else m | None => m end.


(** ** File names round-trip *)

Lemma digit_val_byte d : 0 <= d < 10 -> digit_val (digit_byte d) = Some d.
Proof.
  intros H. unfold digit_val, digit_byte. rewrite byte_to_of_Z, Z.mod_small by lia. replace (48 + d - 48) with d by lia.
  rewrite (proj2 (Z.leb_le 0 d)), (proj2 (Z.leb_le d 9)) by lia. done.
Qed.

Definition is_digit (b : byte) : Prop := is_Some (digit_val b).

Lemma dec_loop_spec fuel z acc :
  0 <= z < 10 ^ Z.of_nat fuel -> (0 < fuel)%nat ->
  exists ds, dec_loop fuel z acc = ds ++ acc /\ ds <> [] /\ Forall is_digit ds /\
    forall v rest, scan_digits v (ds ++ rest) = scan_digits (v * 10 ^ len ds + z) rest.
Proof.
  revert z acc. induction fuel as [|fuel IH]; intros z acc Hz Hf; [lia|]. cbn [dec_loop].
  assert (Hd : digit_val (digit_byte (z mod 10)) = Some (z mod 10)) by (apply digit_val_byte, Z.mod_pos_bound; lia).
  destruct (Z.ltb_spec z 10) as [Hs|Hs].
  - exists [digit_byte (z mod 10)]. split_and!; [done|done| |].
    + constructor; [|constructor]. by exists (z mod 10).
    + intros v rest. cbn [app scan_digits]. rewrite Hd, Z.mod_small by lia. done.
  - assert (Hpow : 10 ^ Z.of_nat (S fuel) = 10 * 10 ^ Z.of_nat fuel) by (rewrite <- Z.pow_succ_r by lia; f_equal; lia).
    destruct (IH (z / 10) (digit_byte (z mod 10) :: acc)) as (ds & Hl & Hne & Hds & Hsc).
    { split; [apply Z.div_pos; lia|apply Z.div_lt_upper_bound; lia]. }
    { destruct fuel; [|lia]. cbn in Hz. lia. }
    exists (ds ++ [digit_byte (z mod 10)]). split_and!.
    + by rewrite Hl, <- app_assoc.
    + by destruct ds.
    + apply Forall_app. split; [done|]. constructor; [|constructor]. by exists (z mod 10).
    + intros v rest. rewrite <- app_assoc, Hsc. cbn [app scan_digits]. rewrite Hd, len_app. f_equal. change (len [_]) with 1.
      rewrite Z.pow_add_r by (try apply len_nonneg; lia). pose proof (Z.div_mod z 10 ltac:(lia)). lia.
Qed.

Lemma dec_bytes_spec n : is_u64 n ->
  exists ds, dec_bytes n = ds /\ ds <> [] /\ Forall is_digit ds /\ forall rest, scan_digits 0 (ds ++ rest) = scan_digits n rest.
Proof.
  intros Hn. destruct (dec_loop_spec 20 n []) as (ds & Hl & Hne & Hds & Hsc); [unfold is_u64 in Hn; cbn; lia|lia|].
  rewrite app_nil_r in Hl. exists ds. split_and!; try done.
Qed.

Lemma scan_blob_name_ok n : is_u64 n -> scan_blob_name (blob_name n) = Some n.
Proof.
  intros Hn. destruct (dec_bytes_spec n Hn) as (ds & Hl & Hne & Hds & Hsc). unfold scan_blob_name, blob_name.
  cbv zeta. rewrite bytes_str_bytes, Hl. specialize (Hsc dot_blob). destruct ds as [|b ds]; [done|].
  inversion_clear Hds as [|? ? [v Hv] _]. cbn [app] in *. rewrite Hv, Hsc. cbn [scan_digits dot_blob].
  change (scan_digits n dot_blob) with (n, dot_blob). cbv iota beta. unfold is_u64 in Hn.
  by rewrite (proj2 (Z.ltb_lt n (2 ^ 64))) by lia.
Qed.

Lemma blob_name_inj a b : is_u64 a -> is_u64 b -> blob_name a = blob_name b -> a = b.
Proof. intros Ha Hb H. apply (f_equal scan_blob_name) in H. rewrite !scan_blob_name_ok in H by done. congruence. Qed.

Lemma is_blob_file_ok n : is_blob_file (blob_name n) = true.
Proof.
  unfold is_blob_file, blob_name. rewrite bytes_str_bytes. apply bool_decide_eq_true. rewrite length_app.
  replace (length (dec_bytes n) + length dot_blob - 5)%nat with (length (dec_bytes n)) by (cbn; lia). apply drop_app_length.
Qed.

Lemma load_file_ok seq blob expiry :
  is_u64 seq -> is_i64 expiry -> load_file (blob_name seq, be_bytes 8 (u64 expiry) ++ blob) = Some (mkOfflineBlob seq blob expiry).
Proof.
  intros Hs He. unfold load_file. cbn [fst snd]. rewrite is_blob_file_ok, (scan_blob_name_ok seq Hs). cbn [mbind option_bind].
  rewrite len_app, len_be_bytes. pose proof (len_nonneg blob). rewrite (proj2 (Z.ltb_ge _ 8)) by lia.
  rewrite drop_app_length', take_app_length' by (by rewrite length_be_bytes). rewrite be_val_u64 by apply u64_is_u64. by rewrite i64_u64.
Qed.

Lemma node_dir_decode id : DecodeHex (str_bytes (offlineNodeDir id)) = Some (str_bytes id).
Proof. unfold offlineNodeDir, EncodeToString. by rewrite bytes_str_bytes, DecodeHex_hex_bytes. Qed.

Lemma node_dir_inj a b : offlineNodeDir a = offlineNodeDir b -> a = b.
Proof. intros H. apply (f_equal (fun s => DecodeHex (str_bytes s))) in H. rewrite !node_dir_decode in H. apply str_bytes_inj. congruence. Qed.

#[local] Opaque blob_name offlineNodeDir.

(** ** Disk and memory agree *)

Definition encode_blob (pb : pendingBlob) : bytes := be_bytes 8 (u64 (pb_expiry pb)) ++ pb_blob pb.

Definition file (s : disk) (id name : string) : option bytes := default ∅ (s !! offlineNodeDir id) !! name.

(** Every directory is a recipient's. *)
Definition dirs_ok (s : disk) : Prop := forall d fs, s !! d = Some fs -> exists id, d = offlineNodeDir id.

Lemma default_dir (s : disk) d d' fs : default ∅ ((<[d := fs]> s : disk) !! d') = if decide (d' = d) then fs else default ∅ (s !! d').
Proof. rewrite lookup_insert. destruct (decide (d = d')) as [->|]; [by rewrite decide_True|by rewrite decide_False by done]. Qed.

Lemma file_save s n seq blob expiry id name :
  file (SaveOffline s n seq blob expiry) id name =
    if decide (id = n /\ name = blob_name seq) then Some (encode_blob (mkPending seq blob expiry)) else file s id name.
Proof.
  unfold file, SaveOffline. rewrite default_dir. destruct (decide (offlineNodeDir id = offlineNodeDir n)) as [He|Hne].
  - apply node_dir_inj in He as ->. rewrite lookup_insert. destruct (decide (blob_name seq = name)) as [<-|]; [by rewrite decide_True|].
    rewrite decide_False; [done|naive_solver].
  - rewrite decide_False; [done|naive_solver].
Qed.

Lemma file_delete s n seq id name :
  file (DeleteOffline s n seq) id name = if decide (id = n /\ name = blob_name seq) then None else file s id name.
Proof.
  unfold file, DeleteOffline. destruct (s !! offlineNodeDir n) as [fs|] eqn:Es.
  - rewrite default_dir. destruct (decide (offlineNodeDir id = offlineNodeDir n)) as [He|Hne].
    + apply node_dir_inj in He as ->. rewrite Es. cbn. rewrite lookup_delete.
      destruct (decide (blob_name seq = name)) as [<-|]; [by rewrite decide_True|]. rewrite decide_False; [done|naive_solver].
    + rewrite decide_False; [done|naive_solver].
  - destruct (decide _) as [[-> ->]|]; [|done]. rewrite Es. apply lookup_empty.
Qed.

Lemma file_delete_all s n (pbs : list pendingBlob) id name :
  file (fold_left (fun s pb => DeleteOffline s n (pb_seq pb)) pbs s) id name =
    if decide (id = n /\ name ∈ map (fun pb => blob_name (pb_seq pb)) pbs) then None else file s id name.
Proof.
  revert s. induction pbs as [|pb pbs IH]; intros s; cbn [fold_left map].
  - rewrite decide_False; [done|]. intros [_ H]. by apply not_elem_of_nil in H.
  - rewrite IH, file_delete. set (names := map _ pbs).
    pose proof (elem_of_cons names name (blob_name (pb_seq pb))) as Hc.
    destruct (decide (id = n /\ name ∈ names)), (decide (id = n /\ name = blob_name (pb_seq pb))), (decide (id = n /\ name ∈ _ :: names));
      first [done|tauto].
Qed.

Lemma file_delete_node s n id name : file (DeleteOfflineNode s n) id name = if decide (id = n) then None else file s id name.
Proof.
  unfold file, DeleteOfflineNode. rewrite lookup_delete. destruct (decide (offlineNodeDir n = offlineNodeDir id)) as [He|Hne].
  - apply node_dir_inj in He as ->. by rewrite decide_True.
  - rewrite decide_False; [done|]. by intros ->.
Qed.

Lemma dirs_save s n seq blob expiry : dirs_ok s -> dirs_ok (SaveOffline s n seq blob expiry).
Proof. intros H d fs. unfold SaveOffline. rewrite lookup_insert. destruct (decide _) as [<-|]; [eauto|apply H]. Qed.

Lemma dirs_delete s n seq : dirs_ok s -> dirs_ok (DeleteOffline s n seq).
Proof.
  intros H d fs. unfold DeleteOffline. destruct (s !! offlineNodeDir n); [|apply H]. rewrite lookup_insert.
  destruct (decide _) as [<-|]; [eauto|apply H].
Qed.

Lemma dirs_delete_all s n (pbs : list pendingBlob) : dirs_ok s -> dirs_ok (fold_left (fun s pb => DeleteOffline s n (pb_seq pb)) pbs s).
Proof. revert s. induction pbs as [|pb pbs IH]; intros s H; cbn [fold_left]; [done|]. apply IH. by apply dirs_delete. Qed.

Lemma dirs_delete_node s n : dirs_ok s -> dirs_ok (DeleteOfflineNode s n).
Proof. intros H d fs. unfold DeleteOfflineNode. intros [_ Hd]%lookup_delete_Some. by eapply H. Qed.

(** Blobs with distinct numbers up to [top]. *)
Record numbered (top : Z) (q : list pendingBlob) : Prop := {
  nu_nodup : NoDup (map pb_seq q);
  nu_range pb : pb ∈ q -> 0 <= pb_seq pb <= top /\ is_i64 (pb_expiry pb)
}.

(** A queue as the relay keeps it. *)
Definition queue_ok (top : Z) (q : list pendingBlob) : Prop := numbered top q /\ (length q <= maxOfflinePerNode)%nat.

(** The files of a recipient are exactly the blobs of its queue. *)
Definition mirrors (s : disk) (id : string) (q : list pendingBlob) : Prop :=
  forall name data, file s id name = Some data <-> exists pb, pb ∈ q /\ name = blob_name (pb_seq pb) /\ data = encode_blob pb.

Record held_ok (h : held) : Prop := {
  ho_seq : is_u64 (h_offSeq h);
  ho_queue id : queue_ok (h_offSeq h) (queue h id);
  ho_disk : exists s, h_storage h = Some s /\ dirs_ok s /\ forall id, mirrors s id (queue h id)
}.

Lemma numbered_sub top q q' : numbered top q -> q' ⊆+ q -> numbered top q'.
Proof.
  intros [H1 H3] Hs. split.
  - apply submseteq_Permutation in Hs as [k Hk]. change (map pb_seq) with (fmap pb_seq : list pendingBlob -> list Z) in *.
    rewrite Hk, fmap_app in H1. by apply NoDup_app in H1 as [H1 _].
  - intros pb Hpb. apply H3. by eapply elem_of_submseteq.
Qed.

Lemma numbered_top top top' q : top <= top' -> numbered top q -> numbered top' q.
Proof. intros Ht [H1 H3]. split; [done|]. intros pb Hpb. destruct (H3 pb Hpb). split; [lia|done]. Qed.

(** In a queue, a file name names one blob. *)
Lemma numbered_name top q a b : is_u64 top -> numbered top q -> a ∈ q -> b ∈ q -> blob_name (pb_seq a) = blob_name (pb_seq b) -> a = b.
Proof.
  intros Ht [H1 H3] Ha Hb Hn. unfold is_u64 in Ht. apply blob_name_inj in Hn; [|destruct (H3 a Ha); unfold is_u64; lia|destruct (H3 b Hb); unfold is_u64; lia].
  apply list_elem_of_lookup_1 in Ha as [i Hi]. apply list_elem_of_lookup_1 in Hb as [j Hj].
  assert (i = j) as ->; [|congruence]. change (map pb_seq q) with (pb_seq <$> q) in H1.
  eapply NoDup_lookup; [exact H1| |]; rewrite list_lookup_fmap; [by rewrite Hi|]. rewrite Hj. cbn. by rewrite Hn.
Qed.

(** Deleting the files of the blobs [gone] of a queue. *)
Lemma mirrors_split s s' top id q gone kept :
  is_u64 top -> numbered top q -> q ≡ₚ gone ++ kept -> mirrors s id q ->
  (forall name, file s' id name = if decide (name ∈ map (fun pb => blob_name (pb_seq pb)) gone) then None else file s id name) ->
  mirrors s' id kept.
Proof.
  intros Ht Hq Hp Hm Hf name data. rewrite Hf. split.
  - destruct (decide _) as [|Hn]; [done|]. intros (pb & Hpb & -> & ->)%Hm. exists pb. split; [|done]. rewrite Hp in Hpb.
    apply elem_of_app in Hpb as [Hpb|]; [|done]. destruct Hn. apply list_elem_of_fmap. by exists pb.
  - intros (pb & Hpb & -> & ->). rewrite decide_False; [apply Hm; exists pb; by rewrite Hp, elem_of_app; auto|].
    intros (pb' & He & Hpb')%list_elem_of_fmap.
    assert (pb = pb') as <-.
    { apply (numbered_name top q); [done|done|rewrite Hp, elem_of_app; auto..|done]. }
    destruct Hq as [Hnd _]. change (map pb_seq q) with (pb_seq <$> q) in Hnd. apply NoDup_fmap_1 in Hnd. rewrite Hp in Hnd.
    apply NoDup_app in Hnd as (_ & Hd & _). by apply (Hd pb).
Qed.

Lemma filter_partition {A} (P : A -> bool) l : l ≡ₚ List.filter (fun x => negb (P x)) l ++ List.filter P l.
Proof.
  induction l as [|x l IH]; [done|]. cbn [List.filter]. destruct (P x); cbn [negb app].
  - etrans; [|apply Permutation_middle]. by apply Permutation_skip.
  - by apply Permutation_skip.
Qed.

(** ** Every operation keeps them in agreement *)

Lemma queue_set_offline h m id : queue (set_offline h m) id = default [] (m !! id).
Proof. done. Qed.

(** Clearing one recipient. *)
Lemma clear_ok id h : held_ok h -> held_ok (clearOffline id h) /\ forall id', queue (clearOffline id h) id' = if decide (id' = id) then [] else queue h id'.
Proof.
  intros [Hs Hq (s & Hst & Hd & Hm)].
  assert (Hqc : forall id', queue (clearOffline id h) id' = if decide (id' = id) then [] else queue h id').
  { intros id'. unfold queue. cbn. rewrite lookup_delete. destruct (decide (id' = id)) as [->|]; [by rewrite decide_True|by rewrite decide_False]. }
  split; [|done]. split; [done| |].
  - intros id'. rewrite Hqc. case_decide; [|apply Hq]. split; [split; [constructor|intros pb Hpb; by apply not_elem_of_nil in Hpb]|cbn; lia].
  - exists (DeleteOfflineNode s id). cbn. rewrite Hst. split; [done|]. split; [by apply dirs_delete_node|].
    intros id' name data. rewrite file_delete_node, Hqc. case_decide; [|apply Hm]. split; [done|].
    intros (pb & Hpb & _). by apply not_elem_of_nil in Hpb.
Qed.

Lemma flush_clear now id h : (flushOffline now id h).1 = clearOffline id h.
Proof. done. Qed.

Lemma redeliverTo_ok now up id h : held_ok h -> held_ok (redeliverTo now up id h).1.1.
Proof. intros H. unfold redeliverTo. destruct (send_held _ _ _ _) as [sent []]; [|done]. by apply clear_ok. Qed.

Lemma redeliverRound_ok now up active reserved ord h : held_ok h -> held_ok (redeliverRound now up active reserved ord h).1.
Proof.
  unfold redeliverRound. match goal with |- context [fold_left ?f] => set (step := f) end.
  enough (H : forall l h out, held_ok h -> held_ok (fold_left step l (h, out)).1) by (intros Hh; by apply H).
  clear h. induction l as [|id l IH]; intros h out Hh; cbn [fold_left]; [done|]. unfold step at 2. destruct (reserved id); [by apply IH|].
  destruct (active !! id) as [addr|]; [|by apply IH]. pose proof (redeliverTo_ok now (up id) id h Hh) as H.
  destruct (redeliverTo now (up id) id h) as [[h' sent] ok]. by apply IH.
Qed.

Lemma storeOffline_ok sf ttl now id blob h :
  held_ok h -> h_offSeq h + 1 < 2 ^ 64 -> is_i64 (now + ttl) -> held_ok (storeOffline sf ttl now id blob h).
Proof.
  intros Hh Hlt He. unfold storeOffline. destruct (_ || _); [done|]. destruct Hh as [Hs Hq (s & Hst & Hd & Hm)].
  assert (Hseq : u64 (h_offSeq h + 1) = h_offSeq h + 1) by (apply u64_id; unfold is_u64 in *; lia). rewrite Hseq.
  set (top := h_offSeq h + 1). set (new := mkPending top blob (now + ttl)). set (q := queue h id ++ [new]).
  set (over := (length q - maxOfflinePerNode)%nat).
  assert (Htop : is_u64 top) by (unfold is_u64 in *; lia).
  assert (Hqn : numbered top q).
  { destruct (Hq id) as [[H1 H3] H2]. split.
    - subst q. rewrite map_app. apply NoDup_app. split_and!; [done| |apply NoDup_singleton].
      intros x (pb & -> & Hpb)%list_elem_of_fmap Hx%list_elem_of_singleton. destruct (H3 pb Hpb) as [Hr _]. cbn in Hx. lia.
    - intros pb Hpb. subst q. apply elem_of_app in Hpb as [Hpb|Hpb%list_elem_of_singleton]; [|subst pb; cbn; unfold is_u64 in *; split; [lia|done]].
      destruct (H3 pb Hpb). split; [lia|done]. }
  set (s1 := SaveOffline s id top blob (now + ttl)).
  assert (Hm1 : mirrors s1 id q).
  { intros name data. subst s1. rewrite file_save. subst q. setoid_rewrite elem_of_app. setoid_rewrite list_elem_of_singleton. split.
    - destruct (decide _) as [[_ ->]|]; [intros [= <-]; exists new; auto|]. intros (pb & Hpb & Hn & Hdt)%Hm. exists pb. auto.
    - intros (pb & [Hpb| ->] & -> & ->); [|by rewrite decide_True]. rewrite decide_False; [apply Hm; eauto|].
      intros [_ Hn]. apply (numbered_name top (queue h id ++ [new]) pb new) in Hn; [|done|done|set_solver..]. subst pb.
      destruct (Hq id) as [[_ H3] _]. destruct (H3 new Hpb) as [Hr _]. cbn in Hr. lia. }
  assert (Hsub : drop over q ⊆+ q) by (rewrite <- (take_drop over q) at 2; by apply submseteq_inserts_l).
  split; cbn [h_offSeq h_offline h_storage with_disk].
  - done.
  - intros id'. unfold queue at 1. cbn [h_offline with_disk]. rewrite lookup_insert. destruct (decide (id = id')) as [<-|].
    + change (queue_ok top (drop over q)). split; [by eapply numbered_sub|]. rewrite length_drop. subst over. lia.
    + destruct (Hq id'). split; [|done]. eapply numbered_top; [|done]. lia.
  - rewrite Hst. cbn [fmap option_fmap option_map]. fold s1. eexists. split; [done|]. split; [by apply dirs_delete_all, dirs_save|].
    intros id'. unfold queue at 1. cbn [h_offline with_disk]. rewrite lookup_insert. destruct (decide (id = id')) as [<-|Hne].
    + match goal with |- mirrors ?d _ _ => change (mirrors d id (drop over q)) end. eapply (mirrors_split s1 _ top id q (take over q)); [done|done|by rewrite take_drop|done|].
      intros name. rewrite file_delete_all. apply decide_ext. tauto.
    + intros name data. rewrite file_delete_all, decide_False by naive_solver. subst s1. rewrite file_save, decide_False by naive_solver. apply Hm.
Qed.

Abbreviation unexpired now q := (List.filter (fun pb => timeAfterNow now (pb_expiry pb)) q).

Lemma expire_one_queue now h id q id' :
  queue (expire_one now h (id, q)) id' = if decide (id' = id) then unexpired now q else queue h id'.
Proof.
  unfold queue at 1. cbn [expire_one h_offline with_disk set_offline]. destruct (unexpired now q) as [|k kept].
  - rewrite lookup_delete. destruct (decide (id' = id)) as [->|]; [by rewrite decide_True|by rewrite decide_False].
  - rewrite lookup_insert. destruct (decide (id' = id)) as [->|]; [by rewrite decide_True|by rewrite decide_False].
Qed.

Lemma expire_one_ok now h id : held_ok h -> held_ok (expire_one now h (id, queue h id)).
Proof.
  intros [Hs Hq (s & Hst & Hd & Hm)]. pose proof (expire_one_queue now h id (queue h id)) as Hqc.
  pose proof (filter_partition (fun pb => timeAfterNow now (pb_expiry pb)) (queue h id)) as Hp. set (kept := unexpired now _) in *. set (gone := List.filter _ _) in Hp.
  split; [done| |].
  - intros id'. rewrite Hqc. case_decide; [subst id'|apply Hq]. destruct (Hq id) as [H1 H2].
    assert (Hsub : kept ⊆+ queue h id) by (rewrite Hp; by apply submseteq_inserts_l).
    split; [by eapply numbered_sub|]. apply submseteq_length in Hsub. lia.
  - cbn [expire_one h_storage with_disk set_offline]. rewrite Hst. eexists. split; [done|]. split; [by apply dirs_delete_all|].
    intros id'. rewrite Hqc. case_decide as He.
    + subst id'. eapply (mirrors_split s _ (h_offSeq h) id (queue h id) gone); [done|by apply Hq|done|done|].
      intros name. rewrite file_delete_all. apply decide_ext. tauto.
    + intros name data. rewrite file_delete_all, decide_False by naive_solver. apply Hm.
Qed.

Lemma expireOffline_fold now l h :
  NoDup l.*1 -> (forall e, e ∈ l -> e.2 = queue h e.1) ->
  (held_ok h -> held_ok (fold_left (expire_one now) l h)) /\
  forall id, queue (fold_left (expire_one now) l h) id = if decide (id ∈ l.*1) then unexpired now (queue h id) else queue h id.
Proof.
  revert h. induction l as [|[id q] l IH]; intros h Hnd Hl; cbn [fold_left].
  - split; [done|]. intros id. by rewrite decide_False by apply not_elem_of_nil.
  - apply NoDup_cons in Hnd as [Hni Hnd]. pose proof (Hl (id, q) ltac:(set_solver)) as Hid. cbn [fst snd] in Hid. subst q.
    pose proof (expire_one_queue now h id (queue h id)) as Hq1. destruct (IH (expire_one now h (id, queue h id)) Hnd) as [Hh2 Hq2].
    + intros e He. rewrite Hq1, decide_False; [apply Hl; set_solver|]. intros Hid'. apply Hni. rewrite <- Hid'. apply list_elem_of_fmap. by exists e.
    + split; [intros Hh; by apply Hh2, expire_one_ok|]. intros id'. rewrite Hq2, Hq1. cbn [fmap list_fmap fst].
      destruct (decide (id' = id)) as [->|Hne].
      * rewrite (decide_True (P := id ∈ id :: _)) by apply list_elem_of_here. by rewrite decide_False.
      * apply decide_ext. rewrite elem_of_cons. tauto.
Qed.

Lemma expireOffline_ok now ord h :
  (forall m, ord m ≡ₚ map_to_list m) ->
  (held_ok h -> held_ok (expireOffline now ord h)) /\ forall id, queue (expireOffline now ord h) id = unexpired now (queue h id).
Proof.
  intros Hord. unfold expireOffline. destruct (expireOffline_fold now (ord (h_offline h)) h) as [H1 H2].
  - rewrite Hord. apply NoDup_fst_map_to_list.
  - intros [id q] He. rewrite Hord in He. apply elem_of_map_to_list in He. unfold queue. cbn. by rewrite He.
  - split; [done|]. intros id. rewrite H2. case_decide as Hd; [done|]. unfold queue. destruct (h_offline h !! id) as [q|] eqn:E; [|done].
    destruct Hd. apply list_elem_of_fmap. exists (id, q). by rewrite Hord, elem_of_map_to_list.
Qed.

(** ** Reloading *)

Definition stored (pb : pendingBlob) : OfflineBlob := mkOfflineBlob (pb_seq pb) (pb_blob pb) (pb_expiry pb).
Definition reloaded (e : OfflineBlob) : pendingBlob := mkPending (ob_Seq e) (ob_Blob e) (ob_Expiry e).

Lemma ReadDir_perm {A} (m : gmap string A) : ReadDir m ≡ₚ map_to_list m.
Proof. apply merge_sort_Permutation. Qed.

Lemma load_files_lookup n l out id :
  default [] (fold_left (fun out f => match load_file f with
                                      | Some b => <[n := default [] (out !! n) ++ [b]]> out
                                      | None => out
                                      end) l out !! id) =
    default [] ((out : gmap string (list OfflineBlob)) !! id) ++ (if decide (id = n) then omap load_file l else []).
Proof.
  revert out. induction l as [|f l IH]; intros out; cbn [fold_left omap list_omap].
  - destruct (decide _); by rewrite app_nil_r.
  - rewrite IH. destruct (load_file f) as [b|]; [|done]. rewrite lookup_insert. destruct (decide (id = n)) as [->|Hne].
    + rewrite decide_True by done. cbn. by rewrite <- app_assoc.
    + by rewrite decide_False by done.
Qed.

Lemma load_dirs_lookup (l : list (string * gmap string bytes)) out id :
  NoDup l.*1 -> (forall e, e ∈ l -> exists id, e.1 = offlineNodeDir id) ->
  default [] (fold_left load_dir l out !! id) =
    default [] (out !! id) ++ omap load_file (ReadDir (default ∅ ((list_to_map l : disk) !! offlineNodeDir id))).
Proof.
  revert out. induction l as [|[d fs] l IH]; intros out Hnd Hd; cbn [fold_left list_to_map foldr fst snd].
  - change ((∅ : disk) !! offlineNodeDir id) with (@None (gmap string bytes)). cbn [default from_option]. by rewrite app_nil_r.
  - apply NoDup_cons in Hnd as [Hni Hnd]. rewrite IH by (try done; intros e He; apply Hd; set_solver).
    destruct (Hd (d, fs) ltac:(set_solver)) as [n Hn]. cbn [fst] in Hn, Hni. subst d. unfold load_dir. cbn [fst snd]. rewrite node_dir_decode.
    rewrite str_bytes_str, load_files_lookup, lookup_insert. destruct (decide (id = n)) as [->|Hne].
    + rewrite decide_True by done. cbn [default from_option]. rewrite (not_elem_of_list_to_map_1 l) by done. by rewrite app_nil_r.
    + rewrite decide_False by (intros He; apply Hne; by apply node_dir_inj). by rewrite app_nil_r.
Qed.

Lemma LoadOffline_mirrors s top id q :
  is_u64 top -> dirs_ok s -> numbered top q -> mirrors s id q -> default [] (LoadOffline s !! id) ≡ₚ map stored q.
Proof.
  intros Ht Hd Hq Hm. unfold LoadOffline. rewrite load_dirs_lookup.
  2: { rewrite (ReadDir_perm s). apply NoDup_fst_map_to_list. }
  2: { intros [d fs] He. rewrite ReadDir_perm in He. apply elem_of_map_to_list in He. by eapply Hd. }
  change (default [] (∅ !! id)) with (@nil OfflineBlob). cbn [app].
  rewrite (list_to_map_proper (ReadDir s) (map_to_list s)), list_to_map_to_list;
    [|rewrite (ReadDir_perm s); apply NoDup_fst_map_to_list|apply ReadDir_perm].
  set (fs := default ∅ (s !! offlineNodeDir id)). set (g pb := (blob_name (pb_seq pb), encode_blob pb)).
  assert (Hp : ReadDir fs ≡ₚ map g q).
  { rewrite ReadDir_perm. apply NoDup_Permutation.
    - apply NoDup_map_to_list.
    - pose proof (nu_nodup _ _ Hq) as Hnd. change (NoDup (pb_seq <$> q)) in Hnd. apply NoDup_fmap_1 in Hnd. change (NoDup (g <$> q)).
      apply NoDup_fmap_2_strong; [|done]. intros a b Ha Hb [= He _]. by apply (numbered_name top q).
    - intros [name data]. rewrite elem_of_map_to_list. change (file s id name = Some data <-> (name, data) ∈ g <$> q). rewrite (Hm name data), list_elem_of_fmap.
      subst g. cbn. split; [intros (pb & ? & -> & ->); eauto|intros (pb & [= -> ->] & ?); eauto]. }
  rewrite Hp. assert (Hin : forall pb, pb ∈ q -> load_file (g pb) = Some (stored pb)).
  { intros pb Hpb. destruct (nu_range _ _ Hq pb Hpb) as [Hr He]. exact (load_file_ok (pb_seq pb) (pb_blob pb) (pb_expiry pb) ltac:(unfold is_u64 in *; lia) He). }
  clear -Hin. induction q as [|pb q IH]; [done|]. cbn [map omap list_omap]. rewrite (Hin pb ltac:(set_solver)). apply Permutation_skip.
  apply IH. intros pb' H. apply Hin. set_solver.
Qed.

Definition live (now : Z) (e : OfflineBlob) : bool := timeAfterNow now (ob_Expiry e).

(** The entries of recipient [id] in a list of entries. *)
Definition for_id (id : string) (l : list (string * OfflineBlob)) : list OfflineBlob :=
  map snd (List.filter (fun x => bool_decide (x.1 = id)) l).

Definition flatten (l : list (string * list OfflineBlob)) : list (string * OfflineBlob) :=
  concat (map (fun e => map (pair e.1) e.2) l).

Lemma flatten_fold {S} (f : string -> S -> OfflineBlob -> S) l st :
  fold_left (fun st '(id, es) => fold_left (f id) es st) l st = fold_left (fun st x => f x.1 st x.2) (flatten l) st.
Proof.
  revert st. induction l as [|[id es] l IH]; intros st; [done|]. unfold flatten. cbn [fold_left map concat fst snd]. rewrite fold_left_app, IH.
  f_equal. revert st. induction es as [|e es IHe]; intros st; cbn; [done|]. apply IHe.
Qed.

Lemma flatten_for_id l id : NoDup l.*1 -> for_id id (flatten l) = default [] ((list_to_map l : gmap string (list OfflineBlob)) !! id).
Proof.
  induction l as [|[n es] l IH]; intros Hnd; [done|]. cbn [list_to_map foldr fst snd]. cbn [fmap list_fmap fst] in Hnd. apply NoDup_cons in Hnd as [Hni Hnd].
  assert (Hf : for_id id (flatten ((n, es) :: l)) = (if decide (n = id) then es else []) ++ for_id id (flatten l)).
  { unfold for_id, flatten. cbn [map concat fst snd]. rewrite List.filter_app, map_app. f_equal. destruct (decide (n = id)) as [->|Hne].
    - induction es as [|e es IHe]; cbn; [done|]. rewrite bool_decide_true by done. cbn. by rewrite IHe.
    - induction es as [|e es IHe]; cbn; [done|]. by rewrite bool_decide_false. }
  rewrite Hf, IH, lookup_insert by done. destruct (decide (n = id)) as [->|Hne]; [|done]. cbn [default from_option].
  rewrite not_elem_of_list_to_map_1 by done. apply app_nil_r.
Qed.

Lemma load_entries_spec now l h mx :
  let '(h', mx') := fold_left (fun st x => load_entry now x.1 st x.2) l (h, mx) in
  (forall id, queue h' id = queue h id ++ map reloaded (List.filter (live now) (for_id id l))) /\ h_offSeq h' = h_offSeq h /\
  h_storage h' = (fun s => fold_left (fun s x => DeleteOffline s x.1 (ob_Seq x.2)) (List.filter (fun x => negb (live now x.2)) l) s) <$> h_storage h /\
  mx <= mx' /\ (forall x, x ∈ l -> live now x.2 = true -> ob_Seq x.2 <= mx') /\
  (forall top, mx <= top -> (forall x, x ∈ l -> ob_Seq x.2 <= top) -> mx' <= top).
Proof.
  revert h mx. induction l as [|[n e] l IH]; intros h mx; cbn [fold_left].
  - split_and!; [intros id; cbn; by rewrite app_nil_r|done|by destruct (h_storage h)|lia|intros x Hx; by apply not_elem_of_nil in Hx|auto].
  - unfold load_entry at 2. cbn [fst snd List.filter]. change (timeAfterNow now (ob_Expiry e)) with (live now e). unfold for_id in *. cbn [List.filter fst].
    destruct (live now e) eqn:El; cbn [negb].
    + match goal with |- context [fold_left _ l (?a, ?b)] => specialize (IH a b) end. destruct (fold_left _ l _) as [h' mx'].
      destruct IH as (I1 & I2 & I3 & I4 & I5 & I6). split_and!.
      * intros id. rewrite I1, queue_set_offline, lookup_insert. destruct (decide (n = id)) as [->|Hne].
        -- rewrite bool_decide_true by done. cbn [map List.filter snd]. rewrite El. cbn [map].
           match goal with |- default [] (Some ?q) ++ _ = _ => change (default [] (Some q)) with q end. by rewrite <- app_assoc.
        -- by rewrite bool_decide_false.
      * done.
      * done.
      * destruct (Z.ltb_spec mx (ob_Seq e)); lia.
      * intros x [->|Hx]%elem_of_cons Hl; [|by apply I5]. cbn. destruct (Z.ltb_spec mx (ob_Seq e)); lia.
      * intros top Ht Hx. apply I6; [|intros x H; apply Hx; set_solver]. pose proof (Hx (n, e) ltac:(set_solver)). cbn in *.
        destruct (Z.ltb_spec mx (ob_Seq e)); lia.
    + match goal with |- context [fold_left _ l (?a, ?b)] => specialize (IH a b) end. destruct (fold_left _ l _) as [h' mx'].
      destruct IH as (I1 & I2 & I3 & I4 & I5 & I6). split_and!.
      * intros id. rewrite I1. change (queue (with_disk h _) id) with (queue h id). f_equal. destruct (bool_decide _); [|done].
        cbn [map List.filter snd]. by rewrite El.
      * done.
      * rewrite I3. cbn [fold_left fst snd]. cbn. by destruct (h_storage h).
      * done.
      * intros x [->|Hx]%elem_of_cons Hl; [cbn in Hl; congruence|by apply I5].
      * intros top Ht Hx. apply I6; [done|]. intros x H. apply Hx. set_solver.
Qed.

Lemma file_delete_many s (l : list (string * OfflineBlob)) id name :
  file (fold_left (fun s x => DeleteOffline s x.1 (ob_Seq x.2)) l s) id name =
    if decide (name ∈ map (fun e => blob_name (ob_Seq e)) (for_id id l)) then None else file s id name.
Proof.
  revert s. induction l as [|[n e] l IH]; intros s; cbn [fold_left]; [by rewrite decide_False by apply not_elem_of_nil|].
  rewrite IH. cbn [fst snd]. rewrite file_delete. unfold for_id. cbn [List.filter fst]. destruct (bool_decide_reflect (n = id)) as [->|Hne].
  - cbn [map snd]. fold (for_id id l). set (names := map _ (for_id id l)). pose proof (elem_of_cons names name (blob_name (ob_Seq e))) as Hc.
    destruct (decide (name ∈ names)), (decide (id = id /\ name = blob_name (ob_Seq e))), (decide (name ∈ _ :: names)); first [done|tauto].
  - destruct (decide (name ∈ _)); [done|]. rewrite decide_False; [done|]. intros [-> _]. done.
Qed.

Lemma dirs_delete_many s (l : list (string * OfflineBlob)) : dirs_ok s -> dirs_ok (fold_left (fun s x => DeleteOffline s x.1 (ob_Seq x.2)) l s).
Proof. revert s. induction l as [|x l IH]; intros s H; cbn [fold_left]; [done|]. apply IH. by apply dirs_delete. Qed.

(** A relay that stops and starts again finds its disk and an empty memory. *)
Definition restart (now : Z) (ord : gmap string (list OfflineBlob) -> list (string * list OfflineBlob)) (h : held) : held :=
  loadOffline now ord (mkHeld ∅ 0 (h_storage h)).

Lemma for_id_filter id (P : OfflineBlob -> bool) l : for_id id (List.filter (fun x => P x.2) l) = List.filter P (for_id id l).
Proof.
  unfold for_id. induction l as [|[n e] l IH]; [done|]. cbn [List.filter fst snd]. destruct (P e) eqn:E, (bool_decide (n = id)) eqn:En; cbn [List.filter fst snd map];
    rewrite ?En, ?E; cbn [map snd]; by rewrite ?IH.
Qed.

Lemma filter_stored (P : OfflineBlob -> bool) q : List.filter P (map stored q) = map stored (List.filter (fun pb => P (stored pb)) q).
Proof. induction q as [|pb q IH]; [done|]. cbn [map List.filter]. destruct (P (stored pb)); cbn; by rewrite IH. Qed.

Lemma restart_ok now ord h :
  (forall m, ord m ≡ₚ map_to_list m) -> held_ok h ->
  held_ok (restart now ord h) /\ h_offSeq (restart now ord h) <= h_offSeq h /\ forall id, queue (restart now ord h) id ≡ₚ unexpired now (queue h id).
Proof.
  intros Hord [Hs Hq (s & Hst & Hd & Hm)]. unfold restart, loadOffline. rewrite Hst. cbn [h_storage].
  set (flat := flatten (ord (LoadOffline s))). rewrite (flatten_fold (load_entry now)). fold flat.
  assert (Hfor : forall id, for_id id flat ≡ₚ map stored (queue h id)).
  { intros id. subst flat. rewrite flatten_for_id by (rewrite Hord; apply NoDup_fst_map_to_list).
    rewrite (list_to_map_proper _ (map_to_list (LoadOffline s))), list_to_map_to_list; [|rewrite Hord; apply NoDup_fst_map_to_list|apply Hord].
    destruct (Hq id). by eapply LoadOffline_mirrors. }
  assert (Hel : forall x, x ∈ flat -> exists pb, pb ∈ queue h x.1 /\ x.2 = stored pb).
  { intros [n e] Hx. assert (He : e ∈ for_id n flat).
    { unfold for_id. apply list_elem_of_fmap. exists (n, e). split; [done|]. apply list_elem_of_In, filter_In. split; [by apply list_elem_of_In|].
      by apply bool_decide_eq_true. }
    rewrite Hfor in He. apply list_elem_of_fmap in He as (pb & -> & Hpb). eauto. }
  pose proof (load_entries_spec now flat (mkHeld ∅ 0 (Some s)) 0) as Hspec. destruct (fold_left _ flat _) as [h' mx].
  destruct Hspec as (I1 & I2 & I3 & I4 & I5 & I6). cbn [h_offSeq h_storage] in I2, I3.
  assert (Hmx : mx <= h_offSeq h).
  { apply I6; [unfold is_u64 in Hs; lia|]. intros x (pb & Hpb & ->)%Hel. destruct (Hq x.1) as [[_ H3] _]. cbn. by apply H3. }
  match goal with |- held_ok ?x /\ _ => set (h2 := x) end.
  assert (Hseq : h_offSeq h2 = mx) by (subst h2; rewrite I2; destruct (Z.ltb_spec 0 mx); cbn; lia).
  assert (Hoff : h_offline h2 = h_offline h') by (subst h2; by destruct (_ <? _)).
  assert (Hsto : h_storage h2 = h_storage h') by (subst h2; by destruct (_ <? _)).
  assert (Hqe : forall id, queue h2 id = map reloaded (List.filter (live now) (for_id id flat))) by (intros id; unfold queue at 1; rewrite Hoff; apply I1).
  assert (Hqp : forall id, queue h2 id ≡ₚ unexpired now (queue h id)).
  { intros id. rewrite Hqe, (filter_perm _ _ _ (Hfor id)), filter_stored, map_map.
    rewrite (map_ext _ (fun pb => pb)) by (by intros []). by rewrite map_id. }
  split_and!; [|by rewrite Hseq|done]. split.
  - rewrite Hseq. unfold is_u64 in *. lia.
  - intros id. destruct (Hq id) as [Hn Hlen].
    assert (Hsub : queue h2 id ⊆+ queue h id).
    { rewrite Hqp. rewrite (filter_partition (fun pb => timeAfterNow now (pb_expiry pb)) (queue h id)) at 2. by apply submseteq_inserts_l. }
    split; [|apply submseteq_length in Hsub; lia]. pose proof (numbered_sub _ _ _ Hn Hsub) as [N1 N2]. split; [done|].
    intros pb Hpb. destruct (N2 pb Hpb) as [Hr He]. split; [|done]. split; [lia|]. rewrite Hseq. rewrite Hqe in Hpb.
    apply list_elem_of_fmap in Hpb as (e & -> & Hpb). apply list_elem_of_In, filter_In in Hpb as [Hpb Hl]. apply in_map_iff in Hpb as ([n e'] & <- & Hpb).
    apply filter_In in Hpb as [Hpb _]. apply (I5 (n, e')); [by apply list_elem_of_In|done].
  - rewrite Hsto, I3. eexists. split; [done|]. split; [by apply dirs_delete_many|]. intros id. destruct (Hq id) as [Hn _].
    eapply (mirrors_split s _ (h_offSeq h) id (queue h id) (List.filter (fun pb => negb (timeAfterNow now (pb_expiry pb))) (queue h id))); [done|done| |done|].
    + rewrite Hqp. apply (filter_partition (fun pb => timeAfterNow now (pb_expiry pb))).
    + intros name. rewrite file_delete_many, (for_id_filter id (fun e => negb (live now e))). apply decide_ext.
      rewrite !list_elem_of_fmap. setoid_rewrite (filter_perm _ _ _ (Hfor id)). rewrite filter_stored. split.
      * intros (e & -> & (pb & -> & Hpb)%list_elem_of_fmap). by exists pb.
      * intros (pb & -> & Hpb). exists (stored pb). split; [done|]. apply list_elem_of_fmap. by exists pb.
Qed.

(** ** Claims *)

Inductive off_op : Type :=
  | OpStore (now : Z) (id : string) (blob : bytes)
  | OpFlush (now : Z) (id : string)
  | OpRedeliver (now : Z) (up : nat -> bool) (id : string)
  | OpRound (now : Z) (up : string -> nat -> bool) (active : gmap string string) (reserved : string -> bool)
  | OpExpire (now : Z)
  | OpRestart (now : Z).

Definition op_time (op : off_op) : Z :=
  match op with OpStore n _ _ | OpFlush n _ | OpRedeliver n _ _ | OpRound n _ _ _ | OpExpire n | OpRestart n => n end.

Section Operations.
Context (sf : bool) (ttl : Z) (ordR : gmap string (list pendingBlob) -> list string).
Context (ordQ : gmap string (list pendingBlob) -> list (string * list pendingBlob)) (HordQ : forall m, ordQ m ≡ₚ map_to_list m).
Context (ordL : gmap string (list OfflineBlob) -> list (string * list OfflineBlob)) (HordL : forall m, ordL m ≡ₚ map_to_list m).

Definition offline_step (h : held) (op : off_op) : held :=
  match op with
  | OpStore now id blob => storeOffline sf ttl now id blob h
  | OpFlush now id => (flushOffline now id h).1
  | OpRedeliver now up id => (redeliverTo now up id h).1.1
  | OpRound now up active reserved => (redeliverRound now up active reserved ordR h).1
  | OpExpire now => expireOffline now ordQ h
  | OpRestart now => restart now ordL h
  end.

Lemma redeliverTo_seq now up id h : h_offSeq (redeliverTo now up id h).1.1 = h_offSeq h.
Proof using Type. unfold redeliverTo. by destruct (send_held _ _ _ _) as [sent []]. Qed.

Lemma redeliverRound_seq now up active reserved h : h_offSeq (redeliverRound now up active reserved ordR h).1 = h_offSeq h.
Proof using Type.
  unfold redeliverRound. match goal with |- context [fold_left ?f] => set (step := f) end.
  enough (H : forall l h out, h_offSeq (fold_left step l (h, out)).1 = h_offSeq h) by apply H.
  clear h. induction l as [|id l IH]; intros h out; cbn [fold_left]; [done|]. unfold step at 2. destruct (reserved id); [by apply IH|].
  destruct (active !! id) as [addr|]; [|by apply IH]. pose proof (redeliverTo_seq now (up id) id h) as H.
  destruct (redeliverTo now (up id) id h) as [[h' sent] ok]. rewrite IH. done.
Qed.

Lemma expire_seq now l h : h_offSeq (fold_left (expire_one now) l h) = h_offSeq h.
Proof using Type. revert h. induction l as [|[id q] l IH]; intros h; cbn [fold_left]; [done|]. by rewrite IH. Qed.

Lemma offline_step_ok h op :
  held_ok h -> h_offSeq h + 1 < 2 ^ 64 -> is_i64 (op_time op + ttl) ->
  held_ok (offline_step h op) /\ h_offSeq (offline_step h op) <= h_offSeq h + 1.
Proof using HordQ HordL.
  intros Hh Hlt Ht. destruct op as [now id blob|now id|now up id|now up active reserved|now|now]; cbn [offline_step op_time] in *.
  - split; [by apply storeOffline_ok|]. unfold storeOffline. destruct (_ || _); [lia|]. cbn.
    rewrite u64_id by (destruct Hh as [H _ _]; unfold is_u64 in *; lia). lia.
  - rewrite flush_clear. split; [by apply clear_ok|]. cbn. lia.
  - split; [by apply redeliverTo_ok|]. rewrite redeliverTo_seq. lia.
  - split; [by apply redeliverRound_ok|]. rewrite redeliverRound_seq. lia.
  - split; [by apply expireOffline_ok|]. unfold expireOffline. rewrite expire_seq. lia.
  - destruct (restart_ok now ordL h HordL Hh) as (H1 & H2 & _). split; [done|lia].
Qed.

Lemma empty_ok : held_ok (mkHeld ∅ 0 (Some ∅)).
Proof using Type.
  assert (Hq : forall id, queue (mkHeld ∅ 0 (Some ∅)) id = []) by (intros id; unfold queue; cbn; by rewrite lookup_empty).
  split; [unfold is_u64; cbn; lia| |].
  - intros id. rewrite Hq. split; [split; [constructor|intros pb Hpb; by apply not_elem_of_nil in Hpb]|cbn; lia].
  - exists ∅. split; [done|]. split; [intros d fs; by rewrite lookup_empty|]. intros id name data. rewrite Hq. unfold file. rewrite lookup_empty. cbn.
    rewrite lookup_empty. split; [done|]. intros (pb & Hpb & _). by apply not_elem_of_nil in Hpb.
Qed.

Lemma offline_run_ok ops :
  Z.of_nat (length ops) < 2 ^ 64 -> Forall (fun op => is_i64 (op_time op + ttl)) ops ->
  held_ok (fold_left offline_step ops (mkHeld ∅ 0 (Some ∅))) /\ h_offSeq (fold_left offline_step ops (mkHeld ∅ 0 (Some ∅))) <= Z.of_nat (length ops).
Proof using HordQ HordL.
  induction ops as [|op ops IH] using rev_ind; intros Hn Ht; [split; [apply empty_ok|cbn; lia]|].
  rewrite length_app in Hn |- *. cbn [length] in *. apply Forall_app in Ht as [Ht [Hop _]%Forall_cons]. destruct IH as [Hh Hs]; [lia|done|].
  rewrite fold_left_app. cbn [fold_left]. destruct (offline_step_ok _ op Hh) as [H1 H2]; [lia|done|]. split; [done|lia].
Qed.
End Operations.

(** C26: What a relay holds for its recipients survives a restart.  After any
    sequence of stores, flushes, redeliveries, expiries and restarts, with the blobs
    also on disk: no queue exceeds its cap; a restart brings back, for every
    recipient, exactly the blobs that were held and have not expired, each with its
    number and expiry; and the number of the next blob is larger than all of
    theirs, so that it overwrites no file. *)
Theorem offline_recovery sf ttl ordR ordQ ordL ops now :
  (forall m, ordQ m ≡ₚ map_to_list m) -> (forall m, ordL m ≡ₚ map_to_list m) ->
  Z.of_nat (length ops) + 1 < 2 ^ 64 -> Forall (fun op => is_i64 (op_time op + ttl)) ops ->
  let h := fold_left (offline_step sf ttl ordR ordQ ordL) ops (mkHeld ∅ 0 (Some ∅)) in
  let h' := restart now ordL h in
  forall id, (length (queue h id) <= maxOfflinePerNode)%nat /\ queue h' id ≡ₚ unexpired now (queue h id) /\
    forall pb, pb ∈ queue h' id -> pb_seq pb < u64 (h_offSeq h' + 1).
Proof.
  intros HQ HL Hn Ht h h' id. destruct (offline_run_ok sf ttl ordR ordQ HQ ordL HL ops ltac:(lia) Ht) as [Hh Hs]. fold h in Hh, Hs.
  destruct (restart_ok now ordL h HL Hh) as (Hr & Hle & Hp). fold h' in Hr, Hle, Hp. split_and!; [apply Hh|done|].
  intros pb Hpb. destruct (ho_queue _ Hr id) as [[_ H] _]. apply H in Hpb as [Hpb _].
  pose proof (ho_seq _ Hr) as Hseq. rewrite u64_id by (unfold is_u64 in *; lia). lia.
Qed.

(** ** Arrival order *)

(** The blobs stored for [id] since it was last flushed, with their expiry. *)
Definition history_step (ttl : Z) (id : string) (H : list (bytes * Z)) (op : off_op) : list (bytes * Z) :=
  match op with
  | OpStore now n blob => if String.eqb n id then H ++ [(blob, now + ttl)] else H
  | OpFlush _ n => if String.eqb n id then [] else H
  | _ => H
  end.

Definition history (ttl : Z) (id : string) (ops : list off_op) : list (bytes * Z) := fold_left (history_step ttl id) ops [].

Definition last_n {A} (n : nat) (l : list A) : list A := drop (length l - n) l.

Definition basic_op (op : off_op) : bool := match op with OpStore _ _ _ | OpFlush _ _ | OpExpire _ => true | _ => false end.

Abbreviation view q := (map (fun pb => (pb_blob pb, pb_expiry pb)) q).
Abbreviation fresh now l := (List.filter (fun x : bytes * Z => timeAfterNow now x.2) l).

(** Blobs in order of expiry expire from the front. *)
Lemma sorted_fresh now (l : list (bytes * Z)) :
  StronglySorted (fun a b => a.2 <= b.2) l ->
  exists k, (k <= length l)%nat /\ fresh now l = drop k l /\ Forall (fun x => timeAfterNow now x.2 = false) (take k l).
Proof.
  unfold timeAfterNow. induction 1 as [|x l Hs IH Hx]; [by exists 0%nat|]. cbn [List.filter]. destruct (Z.ltb_spec now x.2) as [Ht|Ht].
  - exists 0%nat. split; [lia|]. split; [|constructor]. cbn [drop]. f_equal. clear -Hx Ht. induction Hx as [|y l Hy _ IH]; [done|]. cbn [List.filter].
    rewrite (proj2 (Z.ltb_lt now y.2)) by lia. by rewrite IH.
  - destruct IH as (k & Hk & Hf & Ha). exists (S k). split; [cbn; lia|]. split; [done|]. cbn [take]. constructor; [apply Z.ltb_ge; lia|done].
Qed.

(** The queue is the end of the history, and what is missing of its last
    [maxOfflinePerNode] entries has expired at [T]. *)
Record ends (T : Z) (H : list (bytes * Z)) (q : list pendingBlob) : Prop := {
  en_sorted : StronglySorted (fun a b => a.2 <= b.2) H;
  en_suffix : exists j, (length H - maxOfflinePerNode <= j <= length H)%nat /\ view q = drop j H /\
    Forall (fun x => timeAfterNow T x.2 = false) (drop (length H - maxOfflinePerNode) (take j H))
}.

Lemma ends_later T T' H q : T <= T' -> ends T H q -> ends T' H q.
Proof.
  intros HT [Hs (j & Hj & Hv & Ha)]. split; [done|]. exists j. split_and!; try done; try lia. eapply Forall_impl; [exact Ha|].
  cbn. unfold timeAfterNow. intros x. rewrite !Z.ltb_ge. lia.
Qed.

Lemma ends_fresh T H q now : ends T H q -> T <= now -> fresh now (view q) = fresh now (last_n maxOfflinePerNode H).
Proof.
  intros He Hle. apply (ends_later _ _ _ _ Hle) in He. destruct He as [_ (j & Hj & -> & Ha)]. unfold last_n.
  set (n := (length H - maxOfflinePerNode)%nat) in *.
  assert (Hsplit : drop n H = drop n (take j H) ++ drop j H).
  { rewrite <- (take_drop j H) at 1. rewrite drop_app_le; [done|]. rewrite length_take. lia. }
  rewrite Hsplit, List.filter_app. assert (Hnil : fresh now (drop n (take j H)) = []); [|by rewrite Hnil].
  clear -Ha. induction (drop n (take j H)) as [|x l IH]; [done|]. inversion_clear Ha as [|? ? Hx Hl]. cbn [List.filter]. rewrite Hx. by apply IH.
Qed.

Lemma view_fresh now q : view (unexpired now q) = fresh now (view q).
Proof. induction q as [|pb q IH]; [done|]. cbn [List.filter map snd]. destruct (timeAfterNow now (pb_expiry pb)); cbn; by rewrite IH. Qed.

Lemma ends_expire T now H q : T <= now -> ends T H q -> ends now H (unexpired now q).
Proof.
  intros Hle He. apply (ends_later _ _ _ _ Hle) in He. destruct He as [Hs (j & Hj & Hv & Ha)]. split; [done|].
  assert (Hsd : StronglySorted (fun a b => a.2 <= b.2) (drop j H)) by (rewrite <- (take_drop j H) in Hs; by apply StronglySorted_app_1_r in Hs).
  destruct (sorted_fresh now (drop j H) Hsd) as (k & Hk & Hf & Hk'). rewrite length_drop in Hk. exists (j + k)%nat.
  split; [lia|]. split; [by rewrite view_fresh, Hv, Hf, drop_drop|].
  assert (Ht : take (j + k) H = take j H ++ take k (drop j H)).
  { rewrite <- (take_drop j H) at 1. rewrite take_app, take_take, length_take. f_equal; f_equal; lia. }
  rewrite Ht, drop_app_le by (rewrite length_take; lia). by apply Forall_app.
Qed.

Lemma ends_store T now ttl H q seq blob :
  T <= now -> Forall (fun x => x.2 <= now + ttl) H -> ends T H q ->
  let q' := q ++ [mkPending seq blob (now + ttl)] in
  ends now (H ++ [(blob, now + ttl)]) (drop (length q' - maxOfflinePerNode) q').
Proof.
  intros Hle Hb He q'. apply (ends_later _ _ _ _ Hle) in He. destruct He as [Hs (j & Hj & Hv & Ha)].
  assert (Hlq : length q = (length H - j)%nat) by (rewrite <- (length_map (fun pb => (pb_blob pb, pb_expiry pb)) q), Hv, length_drop; done).
  assert (Hlq' : length q' = (length H - j + 1)%nat) by (subst q'; rewrite length_app; cbn; lia). split.
  - apply StronglySorted_app. split_and!; [|done|repeat constructor]. intros x1 x2 H1 H2%list_elem_of_singleton. subst x2. cbn. rewrite Forall_forall in Hb. by apply Hb.
  - rewrite length_app. cbn [length]. set (over := (length q' - maxOfflinePerNode)%nat). exists (j + over)%nat. split; [subst over; lia|]. split.
    + match goal with |- map ?f ?l = _ => change (map f l) with (f <$> l) end. rewrite fmap_drop. subst q'. rewrite fmap_app.
      change ((fun pb => (pb_blob pb, pb_expiry pb)) <$> q) with (view q). rewrite Hv. cbn [fmap list_fmap].
      rewrite <- (drop_drop (H ++ _)), (drop_app_le H _ j) by lia. done.
    + assert (Hcase : over = 0%nat \/ (over = 1%nat /\ j = (length H - maxOfflinePerNode)%nat /\ (maxOfflinePerNode <= length H)%nat)) by (subst over; lia).
      destruct Hcase as [->|(-> & -> & Hmax)].
      * rewrite Nat.add_0_r, take_app_le by lia. eapply Forall_drop with (n := (length H + 1 - maxOfflinePerNode - (length H - maxOfflinePerNode))%nat) in Ha.
        rewrite drop_drop in Ha. by replace (length H - maxOfflinePerNode + (length H + 1 - maxOfflinePerNode - (length H - maxOfflinePerNode)))%nat
          with (length H + 1 - maxOfflinePerNode)%nat in Ha by lia.
      * rewrite drop_ge; [constructor|]. rewrite length_take. lia.
Qed.

Section Fifo.
Context (ttl : Z) (ordR : gmap string (list pendingBlob) -> list string).
Context (ordQ : gmap string (list pendingBlob) -> list (string * list pendingBlob)) (HordQ : forall m, ordQ m ≡ₚ map_to_list m).
Context (ordL : gmap string (list OfflineBlob) -> list (string * list OfflineBlob)) (sto : option disk).

Abbreviation run ops := (fold_left (offline_step true ttl ordR ordQ ordL) ops (mkHeld ∅ 0 sto)).

Lemma fifo_step id T H h op :
  id <> ""%string -> basic_op op = true -> T <= op_time op -> Forall (fun x => x.2 <= T + ttl) H -> ends T H (queue h id) ->
  ends (op_time op) (history_step ttl id H op) (queue (offline_step true ttl ordR ordQ ordL h op) id) /\
  Forall (fun x => x.2 <= op_time op + ttl) (history_step ttl id H op).
Proof using HordQ.
  intros Hid Hop Hle Hb He. assert (Hb' : Forall (fun x => x.2 <= op_time op + ttl) H) by (eapply Forall_impl; [exact Hb|cbn; lia]).
  destruct op as [now n blob|now n|now up n|now up active reserved|now|now]; try done; cbn [op_time history_step offline_step] in *.
  - unfold storeOffline. cbn [negb orb]. destruct (String.eqb_spec n "") as [->|Hn].
    { rewrite (proj2 (String.eqb_neq "" id)) by congruence. split; [|done]. by eapply ends_later. }
    unfold queue at 1. cbn [h_offline with_disk]. rewrite lookup_insert. destruct (String.eqb_spec n id) as [->|Hne].
    + rewrite decide_True by done. split; [by eapply ends_store|]. apply Forall_app. split; [done|]. by constructor.
    + rewrite decide_False by done. split; [|done]. by eapply ends_later.
  - unfold queue at 1. cbn [flushOffline fst clearOfflineStore with_disk set_offline h_offline]. rewrite lookup_delete.
    destruct (String.eqb_spec n id) as [->|Hne].
    + rewrite decide_True by done. split; [|constructor]. split; [constructor|]. exists 0%nat. split_and!; [cbn; lia..|done|constructor].
    + rewrite decide_False by done. split; [|done]. by eapply ends_later.
  - destruct (expireOffline_ok now ordQ h HordQ) as [_ ->]. split; [|done]. by eapply ends_expire.
Qed.

Lemma fifo_run id T ops :
  id <> ""%string -> forallb basic_op ops = true -> StronglySorted Z.le (map op_time ops ++ [T]) ->
  ends T (history ttl id ops) (queue (run ops) id) /\ Forall (fun x => x.2 <= T + ttl) (history ttl id ops).
Proof using HordQ.
  intros Hid. revert T. induction ops as [|op ops IH] using rev_ind; intros T Hb Hs.
  - assert (Hq : queue (run []) id = []) by (unfold queue; cbn; by rewrite lookup_empty). rewrite Hq. split; [|constructor]. split; [constructor|].
    exists 0%nat. split_and!; [cbn; lia..|done|constructor].
  - rewrite forallb_app in Hb. apply andb_true_iff in Hb as [Hb Hop]. cbn in Hop. rewrite andb_true_r in Hop. rewrite map_app in Hs.
    assert (HT : op_time op <= T) by (apply (StronglySorted_app_1_elem_of _ _ _ _ _ Hs); [cbn; set_solver|set_solver]).
    apply StronglySorted_app_1_l in Hs. destruct (IH (op_time op) Hb Hs) as [He Hle].
    unfold history. rewrite !fold_left_app. cbn [fold_left]. fold (history ttl id ops).
    destruct (fifo_step id (op_time op) _ _ op Hid Hop ltac:(lia) Hle He) as [H1 H2].
    split; [by eapply ends_later|]. eapply Forall_impl; [exact H2|]. cbn. lia.
Qed.
End Fifo.

(** C27: Between restarts, a queue that is only stored to, flushed and swept is first in,
    first out.  On a relay with store-and-forward on, after any sequence of stores,
    flushes and expiry sweeps from the empty queues, under a clock that does not run
    backwards, a named recipient that comes back is sent what a queue that forgets
    nothing would send: of the last [maxOfflinePerNode] blobs stored for it since it was
    last flushed, those that have not expired, in the order in which they came, however
    often the sweep has run in between.  Neither a restart nor a redelivery round is
    among the operations: a restart reloads a queue in the order of its file names
    ([reload_out_of_order]). *)
Theorem offline_fifo ttl ordR ordQ ordL sto ops id now :
  (forall m, ordQ m ≡ₚ map_to_list m) -> id <> ""%string -> forallb basic_op ops = true -> StronglySorted Z.le (map op_time ops ++ [now]) ->
  (flushOffline now id (fold_left (offline_step true ttl ordR ordQ ordL) ops (mkHeld ∅ 0 sto))).2 =
    map fst (List.filter (fun x => timeAfterNow now x.2) (last_n maxOfflinePerNode (history ttl id ops))).
Proof.
  intros HQ Hid Hb Hs. destruct (fifo_run ttl ordR ordQ HQ ordL sto id now ops Hid Hb Hs) as [He _].
  rewrite <- (ends_fresh _ _ _ now He) by lia. rewrite <- view_fresh, map_map. done.
Qed.

(** ** Witnesses and examples *)

Definition sample_ops : list off_op :=
  [OpStore 1 "bob" [x01]; OpStore 2 "eve" [x02]; OpStore 5 "bob" [x03]; OpExpire 11; OpStore 12 "bob" [x04]].

Lemma offline_recovery_witness :
  let h := fold_left (offline_step true 10 (fun m => (map_to_list m).*1) map_to_list map_to_list) sample_ops (mkHeld ∅ 0 (Some ∅)) in
  map pb_blob (queue h "bob") = [[x03]; [x04]] /\ queue (restart 14 map_to_list h) "bob" ≡ₚ unexpired 14 (queue h "bob").
Proof.
  intros h. split; [vm_compute; reflexivity|].
  refine (proj1 (proj2 (offline_recovery true 10 (fun m => (map_to_list m).*1) map_to_list map_to_list sample_ops 14
    (fun m => reflexivity _) (fun m => reflexivity _) _ _ "bob"))).
  - vm_compute. reflexivity.
  - repeat constructor; vm_compute; congruence.
Defined.

Lemma offline_fifo_witness :
  (flushOffline 14 "bob" (fold_left (offline_step true 10 (fun m => (map_to_list m).*1) map_to_list map_to_list) sample_ops (mkHeld ∅ 0 None))).2 =
    [[x03]; [x04]].
Proof.
  rewrite (offline_fifo 10 (fun m => (map_to_list m).*1) map_to_list map_to_list None sample_ops "bob" 14).
  - vm_compute. reflexivity.
  - intros m. reflexivity.
  - discriminate.
  - reflexivity.
  - repeat constructor; vm_compute; congruence.
Defined.

(** After a restart the queue is in the order of the file names: the tenth blob
    comes before the second, and is not the one kept longest. *)
Example reload_out_of_order :
  let ops := map (fun i => OpStore (Z.of_nat i) "bob" [byte_of_Z (Z.of_nat i)]) (seq 1 11) in
  let h := fold_left (offline_step true 100 (fun m => (map_to_list m).*1) map_to_list map_to_list) ops (mkHeld ∅ 0 (Some ∅)) in
  map pb_seq (queue (restart 50 map_to_list h) "bob") = [1; 10; 11; 2; 3; 4; 5; 6; 7; 8; 9].
Proof. vm_compute. reflexivity. Qed.
