(* ===== verification/Held.v ===== *)
(** * Store and forward under concurrency (internal/transfer/storeforward.go)

    [Offline] treats an operation of the held blobs as one step.  The code holds
    [offMu] only around the map: numbers are drawn before it, files are written and
    blobs are sent outside it, and [redeliverTo] takes the lock twice.  Here each of
    these parts is a step of a goroutine and the goroutines interleave: requests that
    store a blob, reservations that flush, the loop [redeliverOffline] and the loop
    [sweepOffline].

    Proved are an account of every blob for every interleaving, what redelivery may
    take away unsent, and that a goroutine that is not interrupted does what [Offline]
    says.  Two [Example]s show what interruptions do.

    An expiry reads the clock once; [up] and [now] of a send are those of that send. *)

From S2P Require Import Prelude Wire Fragment Acks Offline.

(** ** Goroutines *)

(** What a goroutine has left to do.  [JSend]'s [ids] are the recipients of the round that
    come after. *)
Inductive job : Type :=
| JStore (id : string) (pb : pendingBlob)                       (** the number is drawn *)
| JSave (id : string) (pb : pendingBlob) (dropped : list Z)     (** queued, not yet on disk *)
| JDelete (gone : list (string * Z))                            (** files to delete *)
| JFlush (id : string) (q : list pendingBlob)                   (** taken, to be sent *)
| JRound (ids : list string)
| JSend (id addr : string) (q : list pendingBlob) (ids : list string)
| JClear (id : string) (ids : option (list string)).            (** the directory is to be removed *)

Record relay_store : Type := mkStore {
  rs_held : held;
  rs_jobs : gmap nat job;
  rs_redelivering : bool;    (** [redeliverOffline] runs *)
  rs_sweeping : bool;        (** [sweepOffline] runs *)
  rs_stopped : bool
}.

(** The loops' goroutines; the others have numbers from 2. *)
Definition redeliverer : nat := 0.
Definition sweeper : nat := 1.

Inductive held_event : Type :=
| EvSeq (j : nat) (now : Z) (id : string) (blob : bytes)   (** [storeOffline] is called *)
| EvTake (j : nat) (id : string)                           (** [flushOffline] is called *)
| EvRedeliver                                              (** a tick of [redeliverOffline] *)
| EvSweep (now : Z)                                        (** a tick of [sweepOffline] *)
| EvStep (j : nat) (now : Z) (up : bool) (active : option string) (reserved : bool)
| EvHalt                                                   (** [Stop] cancels the context *)
| EvReturn (j : nat).                                      (** a loop sees it *)

(** What happens to a blob. *)
Inductive fate : Type :=
| Accepted          (** entered its queue *)
| Evicted           (** pushed out by a newer one *)
| Flushed           (** handed to a reservation *)
| Lapsed            (** had expired when its flush came to it *)
| Expired           (** removed by a sweep *)
| Sent (addr : string)   (** redelivered, still queued *)
| Passed            (** had expired when a redelivery came to it *)
| Cleared.          (** removed by a redelivery *)

(** [OBegin] marks where a redelivery copies a queue. *)
Inductive held_out : Type :=
| OFate (id : string) (pb : pendingBlob) (f : fate)
| OBegin (id : string).

Definition in_place (s : relay_store) (h : held) (jobs : gmap nat job) : relay_store :=
  mkStore h jobs (rs_redelivering s) (rs_sweeping s) (rs_stopped s).

Section Steps.
Context (storeForward : bool) (offlineTTL : Z).
Context (ordR : gmap string (list pendingBlob) -> list string) (ordQ : gmap string (list pendingBlob) -> list (string * list pendingBlob)).

Abbreviation stepped := (option (relay_store * list held_out)).

(** The number is drawn by [offSeq.Add], before the lock. *)
Definition store_call (j : nat) (now : Z) (id : string) (blob : bytes) (s : relay_store) : stepped :=
  match rs_jobs s !! j with
  | Some _ => None
  | None =>
      if (j <=? sweeper)%nat then None
      else if negb storeForward || String.eqb id "" then Some (s, [])
      else
        let h := rs_held s in
        let seq := u64 (h_offSeq h + 1) in
        Some (in_place s (mkHeld (h_offline h) seq (h_storage h)) (<[j := JStore id (mkPending seq blob (now + offlineTTL))]> (rs_jobs s)), [])
  end.

(** Its section under the lock: in at the back, the oldest over the cap out. *)
Definition store_queue (j : nat) (id : string) (pb : pendingBlob) (s : relay_store) : stepped :=
  let h := rs_held s in
  let q := queue h id ++ [pb] in
  let over := (length q - maxOfflinePerNode)%nat in
  Some (in_place s (set_offline h (<[id := drop over q]> (h_offline h))) (<[j := JSave id pb (map pb_seq (take over q))]> (rs_jobs s)),
        OFate id pb Accepted :: map (fun p => OFate id p Evicted) (take over q)).

Definition store_file (j : nat) (id : string) (pb : pendingBlob) (dropped : list Z) (s : relay_store) : stepped :=
  Some (in_place s (with_disk (rs_held s) (fun d => SaveOffline d id (pb_seq pb) (pb_blob pb) (pb_expiry pb)))
          (<[j := JDelete (map (pair id) dropped)]> (rs_jobs s)), []).

Definition delete_file (j : nat) (gone : list (string * Z)) (s : relay_store) : stepped :=
  match gone with
  | [] => Some (in_place s (rs_held s) (delete j (rs_jobs s)), [])
  | (id, seq) :: gone => Some (in_place s (with_disk (rs_held s) (fun d => DeleteOffline d id seq)) (<[j := JDelete gone]> (rs_jobs s)), [])
  end.

(** [flushOffline] takes the queue, then sends what it took. *)
Definition flush_call (j : nat) (id : string) (s : relay_store) : stepped :=
  match rs_jobs s !! j with
  | Some _ => None
  | None =>
      if (j <=? sweeper)%nat then None
      else
        let h := rs_held s in
        Some (in_place s (set_offline h (delete id (h_offline h))) (<[j := JFlush id (queue h id)]> (rs_jobs s)), [])
  end.

Definition flush_send (j : nat) (now : Z) (id : string) (q : list pendingBlob) (s : relay_store) : stepped :=
  match q with
  | [] => Some (in_place s (rs_held s) (<[j := JClear id None]> (rs_jobs s)), [])
  | pb :: q => Some (in_place s (rs_held s) (<[j := JFlush id q]> (rs_jobs s)), [OFate id pb (if timeAfterNow now (pb_expiry pb) then Flushed else Lapsed)])
  end.

(** [redeliverRound] reads the recipients; [redeliverTo] copies a queue, sends the
    copy, and on success removes the queue and then the directory. *)
Definition redeliver_tick (s : relay_store) : stepped :=
  match rs_jobs s !! redeliverer with
  | Some _ => None
  | None =>
      if rs_redelivering s then Some (in_place s (rs_held s) (<[redeliverer := JRound (ordR (h_offline (rs_held s)))]> (rs_jobs s)), []) else None
  end.

Definition round_next (j : nat) (active : option string) (reserved : bool) (ids : list string) (s : relay_store) : stepped :=
  match ids with
  | [] => Some (in_place s (rs_held s) (delete j (rs_jobs s)), [])
  | id :: ids =>
      match (if reserved then None else active) with
      | None => Some (in_place s (rs_held s) (<[j := JRound ids]> (rs_jobs s)), [])
      | Some addr => Some (in_place s (rs_held s) (<[j := JSend id addr (queue (rs_held s) id) ids]> (rs_jobs s)), [OBegin id])
      end
  end.

Definition redeliver_send (j : nat) (now : Z) (up : bool) (id addr : string) (q : list pendingBlob) (ids : list string) (s : relay_store) : stepped :=
  match q with
  | [] =>
      let h := rs_held s in
      Some (in_place s (set_offline h (delete id (h_offline h))) (<[j := JClear id (Some ids)]> (rs_jobs s)),
            map (fun p => OFate id p Cleared) (queue h id))
  | pb :: q =>
      if negb (timeAfterNow now (pb_expiry pb)) then Some (in_place s (rs_held s) (<[j := JSend id addr q ids]> (rs_jobs s)), [OFate id pb Passed])
      else if up then Some (in_place s (rs_held s) (<[j := JSend id addr q ids]> (rs_jobs s)), [OFate id pb (Sent addr)])
      else Some (in_place s (rs_held s) (<[j := JRound ids]> (rs_jobs s)), [])
  end.

Definition clear_dir (j : nat) (id : string) (ids : option (list string)) (s : relay_store) : stepped :=
  Some (in_place s (clearOfflineStore id (rs_held s))
          (match ids with Some ids => <[j := JRound ids]> (rs_jobs s) | None => delete j (rs_jobs s) end), []).

(** [expireOffline] sweeps every queue under one lock, and deletes the files after. *)
Definition unexpired (now : Z) (q : list pendingBlob) : list pendingBlob := List.filter (fun pb => timeAfterNow now (pb_expiry pb)) q.
Definition lapsed (now : Z) (q : list pendingBlob) : list pendingBlob := List.filter (fun pb => negb (timeAfterNow now (pb_expiry pb))) q.
Definition sweep_queue (now : Z) (h : held) (e : string * list pendingBlob) : held :=
  set_offline h (match unexpired now e.2 with [] => delete e.1 (h_offline h) | _ => <[e.1 := unexpired now e.2]> (h_offline h) end).
Definition swept (now : Z) (l : list (string * list pendingBlob)) : list (string * pendingBlob) :=
  concat (map (fun e => map (pair e.1) (lapsed now e.2)) l).
Definition sweep_tick (now : Z) (s : relay_store) : stepped :=
  match rs_jobs s !! sweeper with
  | Some _ => None
  | None =>
      if rs_sweeping s
      then
        let h := rs_held s in
        let l := ordQ (h_offline h) in
        Some (in_place s (fold_left (sweep_queue now) l h) (<[sweeper := JDelete (map (fun e => (e.1, pb_seq e.2)) (swept now l))]> (rs_jobs s)),
              map (fun e => OFate e.1 e.2 Expired) (swept now l))
      else None
  end.

(** The loops return between two rounds once the context is cancelled. *)
Definition loop_return (j : nat) (s : relay_store) : stepped :=
  match rs_jobs s !! j with
  | Some _ => None
  | None =>
      if negb (rs_stopped s) then None
      else if (j =? redeliverer)%nat then Some (mkStore (rs_held s) (rs_jobs s) false (rs_sweeping s) true, [])
      else if (j =? sweeper)%nat then Some (mkStore (rs_held s) (rs_jobs s) (rs_redelivering s) false true, [])
      else None
  end.

Definition held_step (ev : held_event) (s : relay_store) : stepped :=
  match ev with
  | EvSeq j now id blob => store_call j now id blob s
  | EvTake j id => flush_call j id s
  | EvRedeliver => redeliver_tick s
  | EvSweep now => sweep_tick now s
  | EvHalt => Some (mkStore (rs_held s) (rs_jobs s) (rs_redelivering s) (rs_sweeping s) true, [])
  | EvReturn j => loop_return j s
  | EvStep j now up active reserved =>
      match rs_jobs s !! j with
      | Some (JStore id pb) => store_queue j id pb s
      | Some (JSave id pb dropped) => store_file j id pb dropped s
      | Some (JDelete gone) => delete_file j gone s
      | Some (JFlush id q) => flush_send j now id q s
      | Some (JRound ids) => round_next j active reserved ids s
      | Some (JSend id addr q ids) => redeliver_send j now up id addr q ids s
      | Some (JClear id ids) => clear_dir j id ids s
      | None => None
      end
  end.

Fixpoint held_run (evs : list held_event) (s : relay_store) : stepped :=
  match evs with
  | [] => Some (s, [])
  | ev :: evs =>
      match held_step ev s with
      | Some (s, outs) => match held_run evs s with Some (s, outs') => Some (s, outs ++ outs') | None => None end
      | None => None
      end
  end.

(** [Start] launches both loops where the node stores for others. *)
Definition store_started (h : held) : relay_store := mkStore h ∅ storeForward storeForward false.
End Steps.

(** ** Accounts *)

(** The blobs a goroutine has taken from [id]'s queue and not yet handled. *)
Definition load (id : string) (w : job) : list pendingBlob :=
  match w with JFlush id' q => if String.eqb id' id then q else [] | _ => [] end.
Definition loads (id : string) (jobs : gmap nat job) : list pendingBlob := flat_map (fun e => load id e.2) (map_to_list jobs).
Definition carried (s : relay_store) (id : string) : list pendingBlob := loads id (rs_jobs s).

Definition entered (f : fate) : bool := match f with Accepted => true | _ => false end.
Definition final (f : fate) : bool := match f with Evicted | Flushed | Lapsed | Expired | Cleared => true | _ => false end.

(** The blobs of [id] with such a fate, in the order of the log. *)
Definition those (P : fate -> bool) (id : string) (outs : list held_out) : list pendingBlob :=
  omap (fun o => match o with OFate id' pb f => if String.eqb id' id && P f then Some pb else None | OBegin _ => None end) outs.
Definition accepted : string -> list held_out -> list pendingBlob := those entered.
Definition departed : string -> list held_out -> list pendingBlob := those final.

Lemma those_app P id a b : those P id (a ++ b) = those P id a ++ those P id b.
Proof. apply omap_app. Qed.

Lemma those_fate P id id' f q : those P id (map (fun p => OFate id' p f) q) = if String.eqb id' id && P f then q else [].
Proof. induction q as [|p q IH]; [by destruct (_ && _)|]. cbn. unfold those in IH. rewrite IH. by destruct (_ && _). Qed.

Lemma loads_delete id jobs j w : jobs !! j = Some w -> loads id jobs ≡ₚ load id w ++ loads id (delete j jobs).
Proof. intros H. unfold loads. by rewrite <- (map_to_list_delete jobs j w H). Qed.

Lemma loads_insert id jobs j w : loads id (<[j := w]> jobs) ≡ₚ load id w ++ loads id (delete j jobs).
Proof. rewrite (loads_delete id _ j w) by apply lookup_insert_eq. by rewrite delete_insert_eq. Qed.

Lemma loads_new id jobs j w : jobs !! j = None -> loads id (<[j := w]> jobs) ≡ₚ load id w ++ loads id jobs.
Proof. intros H. by rewrite loads_insert, delete_id. Qed.

Section Account.
Context (storeForward : bool) (offlineTTL : Z).
Context (ordR : gmap string (list pendingBlob) -> list string).
Context (ordQ : gmap string (list pendingBlob) -> list (string * list pendingBlob)) (HordQ : forall m, ordQ m ≡ₚ map_to_list m).

Abbreviation step := (held_step storeForward offlineTTL ordR ordQ).
Abbreviation run := (held_run storeForward offlineTTL ordR ordQ).

Lemma queue_put h id q id' : queue (set_offline h (<[id := q]> (h_offline h))) id' = if decide (id = id') then q else queue h id'.
Proof using Type. unfold queue. cbn. rewrite lookup_insert. by case_decide. Qed.
Lemma queue_drop h id id' : queue (set_offline h (delete id (h_offline h))) id' = if decide (id = id') then [] else queue h id'.
Proof using Type. unfold queue. cbn. rewrite lookup_delete. by case_decide. Qed.

(** A sweep of the iteration [l]. *)
Lemma sweep_fold now l h id :
  NoDup l.*1 -> (forall e, e ∈ l -> e.2 = queue h e.1) ->
  queue (fold_left (sweep_queue now) l h) id = (if decide (id ∈ l.*1) then unexpired now (queue h id) else queue h id) /\
  those final id (map (fun e => OFate e.1 e.2 Expired) (swept now l)) = (if decide (id ∈ l.*1) then lapsed now (queue h id) else []).
Proof using Type.
  revert h. induction l as [|[id' q] l IH]; intros h Hnd Hl; cbn [fold_left].
  - rewrite !decide_False by apply not_elem_of_nil. done.
  - apply NoDup_cons in Hnd as [Hni Hnd]. pose proof (Hl (id', q) ltac:(left)) as Hq. cbn [fst snd] in Hq.
    assert (Hs : forall x, queue (sweep_queue now h (id', q)) x = if decide (id' = x) then unexpired now q else queue h x).
    { intros x. unfold sweep_queue. cbn [fst snd]. destruct (unexpired now q) eqn:E; [apply queue_drop|apply queue_put]. }
    destruct (IH (sweep_queue now h (id', q)) Hnd) as [IH1 IH2].
    + intros e He. rewrite Hs, decide_False; [apply Hl; by right|]. intros ->. apply Hni. apply list_elem_of_fmap. by exists e.
    + rewrite IH1. change (swept now ((id', q) :: l)) with (map (pair id') (lapsed now q) ++ swept now l).
      rewrite map_app, those_app, map_map. cbn [fst snd]. rewrite those_fate, IH2, Hs. cbn [fmap list_fmap fst final]. rewrite andb_true_r.
      destruct (String.eqb_spec id' id) as [->|Hne].
      * rewrite !(decide_False (P := id ∈ l.*1)), !(decide_True (P := id ∈ id :: _)), app_nil_r by (done || left). rewrite decide_True by done. subst q. done.
      * rewrite (decide_False (P := id' = id)) by done. cbn [app]. split; apply decide_ext; rewrite elem_of_cons; naive_solver.
Qed.

Lemma sweep_all now h id :
  queue (fold_left (sweep_queue now) (ordQ (h_offline h)) h) id = unexpired now (queue h id) /\
  those final id (map (fun e => OFate e.1 e.2 Expired) (swept now (ordQ (h_offline h)))) = lapsed now (queue h id).
Proof using HordQ.
  destruct (sweep_fold now (ordQ (h_offline h)) h id) as [-> ->].
  - rewrite HordQ. apply NoDup_fst_map_to_list.
  - intros [id' q] He. rewrite HordQ in He. apply elem_of_map_to_list in He. unfold queue. cbn. by rewrite He.
  - case_decide as Hd; [done|]. assert (Hq : queue h id = []); [|by rewrite Hq]. unfold queue. destruct (h_offline h !! id) as [q|] eqn:E; [|done].
    destruct Hd. apply list_elem_of_fmap. exists (id, q). by rewrite HordQ, elem_of_map_to_list.
Qed.

Lemma sweep_entered now l id : those entered id (map (fun e => OFate e.1 e.2 Expired) (swept now l)) = [].
Proof using Type. generalize (swept now l) as m. induction m as [|[i p] m IH]; [done|]. cbn. rewrite andb_false_r. exact IH. Qed.

(** One step keeps the account of every recipient. *)
Definition balance (s : relay_store) (id : string) : list pendingBlob := queue (rs_held s) id ++ carried s id.

(** A goroutine that starts, goes on or ends and leaves the queues alone. *)
Lemma moved_new s j w h (outs : list held_out) id :
  rs_jobs s !! j = None -> load id w = [] -> queue h id = queue (rs_held s) id -> accepted id outs = [] -> departed id outs = [] ->
  balance s id ++ accepted id outs ≡ₚ balance (in_place s h (<[j := w]> (rs_jobs s))) id ++ departed id outs.
Proof using Type. intros E Hw Hq -> ->. unfold balance, carried. cbn [rs_held rs_jobs in_place]. by rewrite loads_new, Hw, Hq. Qed.

Lemma moved_on s j w w' h (outs : list held_out) id :
  rs_jobs s !! j = Some w -> load id w = load id w' -> queue h id = queue (rs_held s) id -> accepted id outs = [] -> departed id outs = [] ->
  balance s id ++ accepted id outs ≡ₚ balance (in_place s h (<[j := w']> (rs_jobs s))) id ++ departed id outs.
Proof using Type. intros E Hw Hq -> ->. unfold balance, carried. cbn [rs_held rs_jobs in_place]. by rewrite loads_insert, (loads_delete _ _ _ _ E), Hw, Hq. Qed.

Lemma moved_end s j w h (outs : list held_out) id :
  rs_jobs s !! j = Some w -> load id w = [] -> queue h id = queue (rs_held s) id -> accepted id outs = [] -> departed id outs = [] ->
  balance s id ++ accepted id outs ≡ₚ balance (in_place s h (delete j (rs_jobs s))) id ++ departed id outs.
Proof using Type. intros E Hw Hq -> ->. unfold balance, carried. cbn [rs_held rs_jobs in_place]. by rewrite (loads_delete _ _ _ _ E), Hw, Hq. Qed.

Lemma lapsed_split now q : q ≡ₚ lapsed now q ++ unexpired now q.
Proof using Type. apply filter_partition. Qed.

Lemma those_cons P id id' pb f outs : those P id (OFate id' pb f :: outs) = (if String.eqb id' id && P f then [pb] else []) ++ those P id outs.
Proof using Type. cbn. by destruct (_ && _). Qed.

Lemma step_balance ev s s' outs id :
  step ev s = Some (s', outs) -> balance s id ++ accepted id outs ≡ₚ balance s' id ++ departed id outs.
Proof using HordQ.
  intros H. destruct ev as [j now id' blob|j id'| |now|j now up act res| |j]; cbn [held_step] in H.
  - unfold store_call in H. destruct (rs_jobs s !! j) eqn:E; [done|]. destruct (_ <=? _)%nat; [done|]. destruct (_ || _); simplify_eq; [done|].
    by apply moved_new.
  - unfold flush_call in H. destruct (rs_jobs s !! j) eqn:E; [done|]. destruct (_ <=? _)%nat; [done|]. simplify_eq.
    unfold balance, carried, accepted, departed. cbn [rs_held rs_jobs in_place those omap list_omap]. rewrite loads_new, queue_drop by done. cbn [load].
    destruct (String.eqb_spec id' id) as [->|Hn]; [rewrite decide_True|rewrite decide_False]; by rewrite ?app_nil_r.
  - unfold redeliver_tick in H. destruct (rs_jobs s !! redeliverer) eqn:E; [done|]. destruct (rs_redelivering s); [|done]. simplify_eq. by apply moved_new.
  - unfold sweep_tick in H. destruct (rs_jobs s !! sweeper) eqn:E; [done|]. destruct (rs_sweeping s); [|done]. simplify_eq.
    unfold balance, carried, accepted, departed. cbn [rs_held rs_jobs in_place]. rewrite loads_new by done. rewrite sweep_entered.
    destruct (sweep_all now (rs_held s) id) as [-> ->]. cbn [load app]. rewrite app_nil_r. rewrite (lapsed_split now (queue (rs_held s) id)) at 1. solve_Permutation.
  - destruct (rs_jobs s !! j) as [w|] eqn:E; [|done]. destruct w as [id' pb|id' pb dropped|gone|id' q|ids|id' addr q ids|id' ids]; cbn [held_step] in H.
    + unfold store_queue in H. simplify_eq. unfold balance, carried, accepted, departed. cbn [rs_held rs_jobs in_place].
      rewrite loads_insert, queue_put, (loads_delete id _ _ _ E), those_cons, those_cons, !those_fate. cbn [load app entered final]. rewrite !andb_true_r, !andb_false_r.
      destruct (String.eqb_spec id' id) as [->|Hn]; [rewrite decide_True by done|by rewrite decide_False].
      set (q := queue (rs_held s) id ++ [pb]). set (over := (length q - maxOfflinePerNode)%nat). cbn [app].
      transitivity ((take over q ++ drop over q) ++ loads id (delete j (rs_jobs s))); [rewrite take_drop; unfold q|]; solve_Permutation.
    + unfold store_file in H. simplify_eq. by eapply moved_on.
    + unfold delete_file in H. destruct gone as [|[id' seq] gone]; simplify_eq; [by eapply moved_end|by eapply moved_on].
    + unfold flush_send in H. destruct q as [|pb q]; simplify_eq; [eapply moved_on; try done; cbn; by destruct (String.eqb _ _)|].
      unfold balance, carried, accepted, departed. cbn [rs_held rs_jobs in_place]. rewrite loads_insert, (loads_delete id _ _ _ E), !those_cons. cbn [load].
      destruct (timeAfterNow _ _); cbn [entered final those omap list_omap]; destruct (String.eqb_spec id' id) as [->|Hn]; cbn [andb app]; solve_Permutation.
    + unfold round_next in H. destruct ids as [|id' ids]; simplify_eq; [by eapply moved_end|]. destruct (if res then None else act); simplify_eq; by eapply moved_on.
    + unfold redeliver_send in H. destruct q as [|pb q]; simplify_eq; [|destruct (negb _); [|destruct up]; simplify_eq].
      * unfold balance, carried, accepted, departed. cbn [rs_held rs_jobs in_place]. rewrite loads_insert, (loads_delete id _ _ _ E), queue_drop, !those_fate. cbn [load entered final].
        rewrite andb_false_r, andb_true_r. cbn [app]. destruct (String.eqb_spec id' id) as [->|Hn]; [rewrite decide_True by done; solve_Permutation|by rewrite decide_False].
      * eapply moved_on; [exact E|done|done|..]; unfold accepted, departed; rewrite those_cons; cbn [entered final]; by rewrite andb_false_r.
      * eapply moved_on; [exact E|done|done|..]; unfold accepted, departed; rewrite those_cons; cbn [entered final]; by rewrite andb_false_r.
      * by eapply moved_on.
    + unfold clear_dir in H. destruct ids; simplify_eq; [by eapply moved_on|by eapply moved_end].
  - by simplify_eq.
  - unfold loop_return in H. destruct (rs_jobs s !! j); [done|]. destruct (negb _); [done|]. destruct (_ =? _)%nat; [by simplify_eq|]. destruct (_ =? _)%nat; by simplify_eq.
Qed.

(** No queue grows beyond its cap. *)
Definition capped (s : relay_store) : Prop := forall id, (length (queue (rs_held s) id) <= maxOfflinePerNode)%nat.

Lemma capped_drop s id h : capped s -> (forall id', queue h id' = if decide (id = id') then [] else queue (rs_held s) id') -> forall id', (length (queue h id') <= maxOfflinePerNode)%nat.
Proof using Type. intros H Hq id'. rewrite Hq. case_decide; [cbn; lia|apply H]. Qed.

Lemma step_capped ev s s' outs : step ev s = Some (s', outs) -> capped s -> capped s'.
Proof using HordQ.
  intros H Hc. destruct ev as [j now id blob|j id| |now|j now up act res| |j]; cbn [held_step] in H.
  - unfold store_call in H. destruct (rs_jobs s !! j); [done|]. destruct (_ <=? _)%nat; [done|]. by destruct (_ || _); simplify_eq.
  - unfold flush_call in H. destruct (rs_jobs s !! j); [done|]. destruct (_ <=? _)%nat; [done|]. simplify_eq.
    intros id'. eapply capped_drop; [exact Hc|apply queue_drop].
  - unfold redeliver_tick in H. destruct (rs_jobs s !! _); [done|]. by destruct (rs_redelivering s); simplify_eq.
  - unfold sweep_tick in H. destruct (rs_jobs s !! _); [done|]. destruct (rs_sweeping s); [|done]. simplify_eq. intros id'. cbn [rs_held in_place].
    destruct (sweep_all now (rs_held s) id') as [-> _]. etrans; [|apply (Hc id')]. rewrite (lapsed_split now (queue _ _)) at 2. rewrite length_app. lia.
  - destruct (rs_jobs s !! j) as [[id pb|id pb dropped|[|[id seq] gone]|id [|pb q]|[|id ids]|id addr [|pb q] ids|id [ids|]]|]; [..|done];
      cbv iota in H; unfold store_queue, store_file, delete_file, flush_send, round_next, redeliver_send, clear_dir in H; cbv zeta iota in H; simplify_eq; try exact Hc.
    + intros id'. cbn [rs_held in_place]. rewrite queue_put. case_decide; [rewrite length_drop; lia|apply Hc].
    + by destruct (if res then None else act); simplify_eq.
    + intros id'. eapply capped_drop; [exact Hc|apply queue_drop].
    + destruct (negb _); [by simplify_eq|]. by destruct up; simplify_eq.
  - by simplify_eq.
  - unfold loop_return in H. destruct (rs_jobs s !! j); [done|]. destruct (negb _); [done|]. destruct (_ =? _)%nat; [by simplify_eq|]. destruct (_ =? _)%nat; by simplify_eq.
Qed.

(** *** What a redelivery clears *)

(** Since the log [since] began, the blob came, or the redelivery came to it. *)
Definition accounted (id : string) (pb : pendingBlob) (since : list held_out) : Prop :=
  OFate id pb Accepted ∈ since \/ (exists addr, OFate id pb (Sent addr) ∈ since) \/ OFate id pb Passed ∈ since.

Lemma accounted_app id pb since more : accounted id pb since -> accounted id pb (since ++ more).
Proof using Type. unfold accounted. setoid_rewrite elem_of_app. naive_solver. Qed.

(** [post] is the log since the last copy of a queue, which was [id]'s. *)
Definition copies (outs : list held_out) : list string := omap (fun o => match o with OBegin id => Some id | OFate _ _ _ => None end) outs.
Definition begun (id : string) (log post : list held_out) : Prop := (exists pre, log = pre ++ OBegin id :: post) /\ copies post = [].

Lemma copies_app a b : copies (a ++ b) = copies a ++ copies b.
Proof using Type. apply omap_app. Qed.

Lemma copies_fate id f q : copies (map (fun p => OFate id p f) q) = [].
Proof using Type. by induction q. Qed.

Lemma copies_fates f (l : list (string * pendingBlob)) : copies (map (fun e => OFate e.1 e.2 f) l) = [].
Proof using Type. by induction l. Qed.

Lemma begun_app id log post more : copies more = [] -> begun id log post -> begun id (log ++ more) (post ++ more).
Proof using Type. intros Hm [[pre ->] Hp]. split; [exists pre; by rewrite <- app_assoc|by rewrite copies_app, Hp, Hm]. Qed.

(** Only the loop's goroutine is ever in a round. *)
Definition in_round (w : job) : bool := match w with JRound _ | JSend _ _ _ _ | JClear _ (Some _) => true | _ => false end.
Definition one_round (s : relay_store) : Prop := forall j w, rs_jobs s !! j = Some w -> in_round w = true -> j = redeliverer.

Lemma one_round_alter s h j (w : option job) :
  one_round s -> (forall w', w = Some w' -> in_round w' = true -> j = redeliverer) -> one_round (in_place s h (partial_alter (fun _ => w) j (rs_jobs s))).
Proof using Type.
  intros Hs Hw j' w'. cbn [rs_jobs in_place]. destruct (decide (j' = j)) as [->|Hn]; [rewrite lookup_partial_alter_eq; apply Hw|].
  rewrite lookup_partial_alter_ne by done. apply Hs.
Qed.

Lemma step_one_round ev s s' outs : step ev s = Some (s', outs) -> one_round s -> one_round s'.
Proof using Type.
  intros H Hs. destruct ev as [j now id blob|j id| |now|j now up act res| |j]; cbn [held_step] in H.
  - unfold store_call in H. destruct (rs_jobs s !! j); [done|]. destruct (_ <=? _)%nat; [done|].
    destruct (_ || _); simplify_eq; [done|]. by apply (one_round_alter s _ j (Some _)); [|intros ? [= <-]].
  - unfold flush_call in H. destruct (rs_jobs s !! j); [done|]. destruct (_ <=? _)%nat; [done|]. simplify_eq. by apply (one_round_alter s _ j (Some _)); [|intros ? [= <-]].
  - unfold redeliver_tick in H. destruct (rs_jobs s !! _); [done|]. destruct (rs_redelivering s); [|done]. simplify_eq. by apply (one_round_alter s _ redeliverer (Some _)).
  - unfold sweep_tick in H. destruct (rs_jobs s !! _); [done|]. destruct (rs_sweeping s); [|done]. simplify_eq. by apply (one_round_alter s _ sweeper (Some _)); [|intros ? [= <-]].
  - destruct (rs_jobs s !! j) as [w|] eqn:E; [|done]. pose proof (Hs j w E) as Hj.
    assert (Hset : forall h w', (in_round w' = true -> in_round w = true) -> one_round (in_place s h (<[j := w']> (rs_jobs s)))).
    { intros h w' Hw. apply (one_round_alter s h j (Some w') Hs). intros ? [= <-] ?. auto. }
    assert (Hdel : forall h, one_round (in_place s h (delete j (rs_jobs s)))) by (intros h; by apply (one_round_alter s h j None Hs)).
    destruct w as [id pb|id pb dropped|[|[id seq] gone]|id [|pb q]|[|id ids]|id addr [|pb q] ids|id [ids|]]; cbv iota in H;
      unfold store_queue, store_file, delete_file, flush_send, round_next, redeliver_send, clear_dir in H; cbv zeta iota in H; simplify_eq;
      try (by apply Hset); try apply Hdel.
    + destruct (if res then None else act); simplify_eq; by apply Hset.
    + destruct (negb _); [simplify_eq; by apply Hset|]. destruct up; simplify_eq; by apply Hset.
  - by simplify_eq.
  - unfold loop_return in H. destruct (rs_jobs s !! j); [done|]. destruct (negb _); [done|].
    destruct (_ =? _)%nat; [|destruct (_ =? _)%nat]; by simplify_eq.
Qed.

Definition sending_ok (log : list held_out) (s : relay_store) : Prop :=
  forall j id addr q ids, rs_jobs s !! j = Some (JSend id addr q ids) ->
    exists post, begun id log post /\ forall pb, pb ∈ queue (rs_held s) id -> pb ∈ q \/ accounted id pb post.

Definition cleared_ok (log : list held_out) : Prop :=
  forall a id pb b, log = a ++ OFate id pb Cleared :: b -> exists post, begun id a post /\ accounted id pb post.

Lemma sending_other log more s h j w :
  sending_ok log s -> (forall id addr q ids, w <> Some (JSend id addr q ids)) ->
  copies more = [] -> (forall id pb, pb ∈ queue h id -> pb ∈ queue (rs_held s) id \/ OFate id pb Accepted ∈ more) ->
  sending_ok (log ++ more) (in_place s h (partial_alter (fun _ => w) j (rs_jobs s))).
Proof using Type.
  intros Hs Hw Hm Hq j' id addr q ids H. cbn [rs_jobs rs_held in_place] in *. destruct (decide (j' = j)) as [->|Hn].
  - rewrite lookup_partial_alter_eq in H. by destruct (Hw id addr q ids).
  - rewrite lookup_partial_alter_ne in H by done. destruct (Hs _ _ _ _ _ H) as (post & Hb & Hp). exists (post ++ more). split; [by apply begun_app|].
    intros pb [Hpb|Hpb]%Hq; [destruct (Hp pb Hpb); [by left|right; by apply accounted_app]|]. right. left. apply elem_of_app. by right.
Qed.

Lemma sending_next log s j id addr pb q ids f :
  rs_jobs s !! j = Some (JSend id addr (pb :: q) ids) -> (f = Passed \/ exists a, f = Sent a) -> sending_ok log s ->
  sending_ok (log ++ [OFate id pb f]) (in_place s (rs_held s) (<[j := JSend id addr q ids]> (rs_jobs s))).
Proof using Type.
  intros E Hf Hs j' id' addr' q' ids' H. cbn [rs_jobs rs_held in_place] in *. destruct (decide (j' = j)) as [->|Hn].
  - rewrite lookup_insert_eq in H. simplify_eq. destruct (Hs _ _ _ _ _ E) as (post & Hb & Hp). exists (post ++ [OFate id' pb f]). split; [by apply begun_app|].
    assert (Hpb : accounted id' pb (post ++ [OFate id' pb f])) by (unfold accounted; setoid_rewrite elem_of_app; setoid_rewrite list_elem_of_singleton; naive_solver).
    intros pb' [[->|]%elem_of_cons|]%Hp; [by right|by left|right; by apply accounted_app].
  - rewrite lookup_insert_ne in H by done. destruct (Hs _ _ _ _ _ H) as (post & Hb & Hp). exists (post ++ [OFate id pb f]). split; [by apply begun_app|].
    intros pb' [Hpb|Hpb]%Hp; [by left|right; by apply accounted_app].
Qed.

Lemma sending_begin log s j id addr ids :
  one_round s -> j = redeliverer -> sending_ok (log ++ [OBegin id]) (in_place s (rs_held s) (<[j := JSend id addr (queue (rs_held s) id) ids]> (rs_jobs s))).
Proof using Type.
  intros Hs -> j' id' addr' q' ids' H. cbn [rs_jobs rs_held in_place] in *. destruct (decide (j' = redeliverer)) as [->|Hn].
  - rewrite lookup_insert_eq in H. simplify_eq. exists []. split; [split; [by exists log|done]|]. by left.
  - rewrite lookup_insert_ne in H by done. by destruct Hn; apply (Hs _ _ H).
Qed.

Lemma sending_flags log s s' : rs_jobs s' = rs_jobs s -> rs_held s' = rs_held s -> sending_ok log s -> sending_ok (log ++ []) s'.
Proof using Type. intros Hj Hh H. rewrite app_nil_r. unfold sending_ok. by rewrite Hj, Hh. Qed.

Lemma queue_drop_sub h id id' pb : pb ∈ queue (set_offline h (delete id (h_offline h))) id' -> pb ∈ queue h id'.
Proof using Type. rewrite queue_drop. case_decide; [by intros ?%not_elem_of_nil|done]. Qed.

Lemma step_sending ev s s' outs log : step ev s = Some (s', outs) -> one_round s -> sending_ok log s -> sending_ok (log ++ outs) s'.
Proof using HordQ.
  intros H H1 Hs. destruct ev as [j now id blob|j id| |now|j now up act res| |j]; cbn [held_step] in H.
  - unfold store_call in H. destruct (rs_jobs s !! j); [done|]. destruct (_ <=? _)%nat; [done|].
    destruct (_ || _); simplify_eq; [by apply (sending_flags log s')|]. apply (sending_other log [] s _ j (Some _)); [done..|by left].
  - unfold flush_call in H. destruct (rs_jobs s !! j); [done|]. destruct (_ <=? _)%nat; [done|]. simplify_eq.
    apply (sending_other log [] s _ j (Some _)); [done..|]. intros id' pb ?%queue_drop_sub. by left.
  - unfold redeliver_tick in H. destruct (rs_jobs s !! _); [done|]. destruct (rs_redelivering s); [|done]. simplify_eq.
    apply (sending_other log [] s _ redeliverer (Some _)); [done..|by left].
  - unfold sweep_tick in H. destruct (rs_jobs s !! _); [done|]. destruct (rs_sweeping s); [|done]. simplify_eq.
    apply (sending_other log _ s _ sweeper (Some _)); [done|done|apply copies_fates|]. intros id pb Hpb. left. destruct (sweep_all now (rs_held s) id) as [Hq _]. rewrite Hq in Hpb.
    rewrite (lapsed_split now (queue _ _)). apply elem_of_app. by right.
  - destruct (rs_jobs s !! j) as [[id pb|id pb dropped|[|[id seq] gone]|id [|pb q]|[|id ids]|id addr [|pb q] ids|id [ids|]]|] eqn:E; [..|done];
      cbv iota in H; unfold store_queue, store_file, delete_file, flush_send, round_next, redeliver_send, clear_dir in H; cbv zeta iota in H; simplify_eq.
    all: try (by apply (sending_other log _ s _ j (Some _)); [done..|by left]).
    all: try (by apply (sending_other log _ s _ j None); [done..|by left]).
    + apply (sending_other log _ s _ j (Some _)); [done|done|apply copies_fate|]. intros id' pb'. rewrite queue_put. case_decide as Hd; [subst id'|by left].
      intros Hpb. assert (Hq : pb' ∈ queue (rs_held s) id ++ [pb]) by (rewrite <- (take_drop (length (queue (rs_held s) id ++ [pb]) - maxOfflinePerNode)); apply elem_of_app; by right).
      apply elem_of_app in Hq as [| ->%list_elem_of_singleton]; [by left|right; left].
    + destruct (if res then None else act); simplify_eq; [apply sending_begin; [done|by apply (H1 _ _ E)]|]. by apply (sending_other log _ s _ j (Some _)); [done..|by left].
    + apply (sending_other log _ s _ j (Some _)); [done|done|apply copies_fate|]. intros id' pb ?%queue_drop_sub. by left.
    + destruct (negb _); [simplify_eq; eapply sending_next; eauto|]. destruct up; simplify_eq; [eapply sending_next; eauto|].
      by apply (sending_other log _ s _ j (Some _)); [done..|by left].
  - simplify_eq. by apply (sending_flags log s).
  - unfold loop_return in H. destruct (rs_jobs s !! j); [done|]. destruct (negb _); [done|].
    destruct (_ =? _)%nat; [|destruct (_ =? _)%nat]; simplify_eq; by apply (sending_flags log s).
Qed.

Lemma cleared_app log outs :
  cleared_ok log -> (forall a id pb b, outs = a ++ OFate id pb Cleared :: b -> exists post, begun id (log ++ a) post /\ accounted id pb post) -> cleared_ok (log ++ outs).
Proof using Type.
  intros Hl Ho a id pb b He. apply app_eq_inv in He as [(k & -> & He)|(k & -> & ->)]; [|by eapply Ho].
  destruct k as [|o k]; cbn [app] in He; [by specialize (Ho [] id pb b (eq_sym He)) as Ho; rewrite !app_nil_r in Ho|]. simplify_eq. by eapply Hl.
Qed.

Lemma cleared_none log outs : cleared_ok log -> (forall id pb, OFate id pb Cleared ∉ outs) -> cleared_ok (log ++ outs).
Proof using Type. intros Hl Ho. apply cleared_app; [done|]. intros a id pb b ->. destruct (Ho id pb). apply elem_of_app. right. left. Qed.

Lemma step_cleared ev s s' outs log : step ev s = Some (s', outs) -> sending_ok log s -> cleared_ok log -> cleared_ok (log ++ outs).
Proof using Type.
  intros H Hs Hl. destruct ev as [j now id blob|j id| |now|j now up act res| |j]; cbn [held_step] in H.
  - unfold store_call in H. destruct (rs_jobs s !! j); [done|]. destruct (_ <=? _)%nat; [done|]. destruct (_ || _); simplify_eq; by rewrite app_nil_r.
  - unfold flush_call in H. destruct (rs_jobs s !! j); [done|]. destruct (_ <=? _)%nat; [done|]. simplify_eq. by rewrite app_nil_r.
  - unfold redeliver_tick in H. destruct (rs_jobs s !! _); [done|]. destruct (rs_redelivering s); [|done]. simplify_eq. by rewrite app_nil_r.
  - unfold sweep_tick in H. destruct (rs_jobs s !! _); [done|]. destruct (rs_sweeping s); [|done]. simplify_eq. apply cleared_none; [done|].
    intros id pb (e & He & _)%list_elem_of_fmap. done.
  - destruct (rs_jobs s !! j) as [[id pb|id pb dropped|[|[id seq] gone]|id [|pb q]|[|id ids]|id addr [|pb q] ids|id [ids|]]|] eqn:E; [..|done];
      cbv iota in H; unfold store_queue, store_file, delete_file, flush_send, round_next, redeliver_send, clear_dir in H; cbv zeta iota in H; simplify_eq.
    all: try (by rewrite app_nil_r).
    + apply cleared_none; [done|]. intros id' pb' [?|(p & ? & _)%list_elem_of_fmap]%elem_of_cons; done.
    + apply cleared_none; [done|]. intros id' pb' ?%list_elem_of_singleton. by destruct (timeAfterNow _ _).
    + apply cleared_none; [done|]. intros id' pb'. destruct (if res then None else act); simplify_eq; [by intros ?%list_elem_of_singleton|by intros ?%not_elem_of_nil].
    + destruct (Hs _ _ _ _ _ E) as (post & Hb & Hp). apply cleared_app; [done|]. intros a id' pb b He. exists (post ++ a).
      assert (Hin : OFate id' pb Cleared ∈ map (fun p => OFate id p Cleared) (queue (rs_held s) id)) by (rewrite He; apply elem_of_app; right; left).
      assert (Ha : copies a = []).
      { pose proof (copies_fate id Cleared (queue (rs_held s) id)) as Hc. rewrite He, copies_app in Hc. by apply app_eq_nil in Hc as [? _]. }
      apply list_elem_of_fmap in Hin as (p & [= -> ->] & Hq). split; [by apply begun_app|]. apply accounted_app. by destruct (Hp _ Hq) as [?%not_elem_of_nil|].
    + apply cleared_none; [done|]. intros id' pb'. destruct (negb _); [simplify_eq; by intros ?%list_elem_of_singleton|].
      destruct up; simplify_eq; [by intros ?%list_elem_of_singleton|by intros ?%not_elem_of_nil].
  - simplify_eq. by rewrite app_nil_r.
  - unfold loop_return in H. destruct (rs_jobs s !! j); [done|]. destruct (negb _); [done|].
    destruct (_ =? _)%nat; [|destruct (_ =? _)%nat]; simplify_eq; by rewrite app_nil_r.
Qed.

Lemma run_inv evs : forall s s' outs log,
  run evs s = Some (s', outs) -> capped s -> one_round s -> sending_ok log s -> cleared_ok log ->
  capped s' /\ sending_ok (log ++ outs) s' /\ cleared_ok (log ++ outs) /\ forall id, balance s id ++ accepted id outs ≡ₚ balance s' id ++ departed id outs.
Proof using HordQ.
  induction evs as [|ev evs IH]; intros s s' outs log H Hc Ho Hs Hl; cbn [held_run] in H.
  - simplify_eq. by rewrite app_nil_r.
  - destruct (step ev s) as [[s1 o1]|] eqn:E; [|done]. destruct (run evs s1) as [[s2 o2]|] eqn:E2; [|done]. simplify_eq.
    destruct (IH s1 s' o2 (log ++ o1) E2) as (H1 & H2 & H3 & H4); [by eapply step_capped|by eapply step_one_round|by eapply step_sending|by eapply step_cleared|].
    rewrite (app_assoc log). split_and!; [done..|]. intros id. unfold accepted, departed. rewrite !those_app.
    fold (accepted id o1) (accepted id o2) (departed id o1) (departed id o2). rewrite app_assoc, (step_balance _ _ _ _ id E).
    transitivity ((balance s1 id ++ accepted id o2) ++ departed id o1); [solve_Permutation|]. rewrite H4. solve_Permutation.
Qed.

(** ** Goroutines that are not interrupted *)

Lemma run_app evs evs' : forall s s1 s2 o1 o2, run evs s = Some (s1, o1) -> run evs' s1 = Some (s2, o2) -> run (evs ++ evs') s = Some (s2, o1 ++ o2).
Proof using Type.
  induction evs as [|ev evs IH]; intros s s1 s2 o1 o2 H1 H2; cbn [held_run app] in *; [by simplify_eq|].
  destruct (step ev s) as [[s0 o]|]; [|done]. destruct (run evs s0) as [[s' o']|] eqn:E; [|done]. simplify_eq.
  rewrite (IH _ _ _ _ _ E H2). by rewrite app_assoc.
Qed.

Lemma run_cons ev evs s s1 s2 o1 o2 : step ev s = Some (s1, o1) -> run evs s1 = Some (s2, o2) -> run (ev :: evs) s = Some (s2, o1 ++ o2).
Proof using Type. intros H1 H2. cbn [held_run]. by rewrite H1, H2. Qed.

Lemma with_disk_twice h f g : with_disk (with_disk h f) g = with_disk h (fun d => g (f d)).
Proof using Type. unfold with_disk. cbn. by destruct (h_storage h). Qed.
Lemma with_disk_id h : with_disk h (fun d => d) = h.
Proof using Type. unfold with_disk. destruct h as [m n []]; done. Qed.

(** The goroutine that takes a step. *)
Definition of_goroutine (j : nat) (ev : held_event) : Prop :=
  match ev with EvSeq i _ _ _ | EvTake i _ | EvStep i _ _ _ _ | EvReturn i => i = j | EvRedeliver => j = redeliverer | EvSweep _ => j = sweeper | EvHalt => False end.

Definition delete_all (gone : list (string * Z)) (d : disk) : disk := fold_left (fun d e => DeleteOffline d e.1 e.2) gone d.

Lemma delete_all_one id (l : list pendingBlob) d :
  delete_all (map (pair id) (map pb_seq l)) d = fold_left (fun d p => DeleteOffline d id (pb_seq p)) l d.
Proof using Type. revert d. induction l as [|p l IH]; intros d; [done|]. apply IH. Qed.

(** The blobs handed to reservations, with whose, and those redelivered, with where to. *)
Definition flushed (outs : list held_out) : list (string * bytes) :=
  omap (fun o => match o with OFate id pb Flushed => Some (id, pb_blob pb) | _ => None end) outs.
Definition redelivered (outs : list held_out) : list (string * bytes) :=
  omap (fun o => match o with OFate _ pb (Sent addr) => Some (addr, pb_blob pb) | _ => None end) outs.

Lemma flushed_app a b : flushed (a ++ b) = flushed a ++ flushed b.
Proof using Type. apply omap_app. Qed.
Lemma redelivered_app a b : redelivered (a ++ b) = redelivered a ++ redelivered b.
Proof using Type. apply omap_app. Qed.

(** A run that hands nothing over. *)
Definition silent (outs : list held_out) : Prop := flushed outs = [] /\ redelivered outs = [].

Lemma quiet_app a b : silent a -> silent b -> silent (a ++ b).
Proof using Type. unfold silent. intros [Ha Ha'] [Hb Hb']. by rewrite flushed_app, redelivered_app, Ha, Ha', Hb, Hb'. Qed.

Lemma silent_fates f (l : list (string * pendingBlob)) : f = Evicted \/ f = Expired \/ f = Cleared -> silent (map (fun e => OFate e.1 e.2 f) l).
Proof using Type. intros Hf. unfold silent. induction l as [|e l [IH1 IH2]]; [done|]. cbn. unfold flushed, redelivered in IH1, IH2. rewrite IH1, IH2. by destruct Hf as [->|[->| ->]]. Qed.

Lemma silent_fate id f q : f = Evicted \/ f = Expired \/ f = Cleared -> silent (map (fun p => OFate id p f) q).
Proof using Type. intros Hf. pose proof (silent_fates f (map (pair id) q) Hf) as H. by rewrite map_map in H. Qed.

Lemma delete_serial j gone : forall s, rs_jobs s !! j = Some (JDelete gone) ->
  exists evs, Forall (of_goroutine j) evs /\ run evs s = Some (in_place s (with_disk (rs_held s) (delete_all gone)) (delete j (rs_jobs s)), []).
Proof using Type.
  induction gone as [|[id seq] gone IH]; intros s E; pose (ev := EvStep j 0 true None false).
  - exists [ev]. split; [by repeat constructor|]. eapply (run_cons _ [] _ _ _ [] []); [cbn; rewrite E; reflexivity|]. cbn [held_run]. change (delete_all []) with (fun d : disk => d). by rewrite with_disk_id.
  - destruct (IH (in_place s (with_disk (rs_held s) (fun d => DeleteOffline d id seq)) (<[j := JDelete gone]> (rs_jobs s)))) as (evs & Hg & H); [apply lookup_insert_eq|].
    exists (ev :: evs). split; [by constructor|]. eapply (run_cons _ _ _ _ _ [] []); [cbn; rewrite E; reflexivity|]. rewrite H. cbn [rs_held rs_jobs in_place]. by rewrite with_disk_twice, delete_insert_eq.
Qed.

Lemma store_serial j now id blob s : (sweeper < j)%nat -> rs_jobs s !! j = None ->
  exists evs outs, Forall (of_goroutine j) evs /\ run evs s = Some (in_place s (storeOffline storeForward offlineTTL now id blob (rs_held s)) (rs_jobs s), outs) /\ silent outs.
Proof using Type.
  intros Hj E. assert (Hc : run [EvSeq j now id blob] s = match store_call storeForward offlineTTL j now id blob s with Some (s', o) => Some (s', o ++ []) | None => None end)
    by (cbn [held_run held_step]; by destruct (store_call _ _ _ _ _ _ _) as [[]|]).
  unfold store_call in Hc. rewrite E, (proj2 (Nat.leb_gt _ _) Hj) in Hc. unfold storeOffline. destruct (negb storeForward || String.eqb id "") eqn:Eo.
  { exists [EvSeq j now id blob], []. rewrite Hc. split_and!; [by repeat constructor|by destruct s|done]. }
  set (h := rs_held s) in *. set (pb := mkPending (u64 (h_offSeq h + 1)) blob (now + offlineTTL)) in *. set (q := queue h id ++ [pb]). set (over := (length q - maxOfflinePerNode)%nat).
  match type of Hc with _ = Some (?t, _) => set (s1 := t) in * end.
  set (h2 := mkHeld (<[id := drop over q]> (h_offline h)) (pb_seq pb) (h_storage h)).
  set (s2 := in_place s1 h2 (<[j := JSave id pb (map pb_seq (take over q))]> (rs_jobs s1))).
  set (h3 := with_disk h2 (fun d => SaveOffline d id (pb_seq pb) (pb_blob pb) (pb_expiry pb))).
  set (s3 := in_place s2 h3 (<[j := JDelete (map (pair id) (map pb_seq (take over q)))]> (rs_jobs s2))).
  destruct (delete_serial j (map (pair id) (map pb_seq (take over q))) s3) as (evs & Hg & H); [apply lookup_insert_eq|].
  set (ev := EvStep j 0 true None false). exists ([EvSeq j now id blob] ++ ev :: ev :: evs), ([] ++ (OFate id pb Accepted :: map (fun p => OFate id p Evicted) (take over q)) ++ [] ++ []).
  split; [by repeat constructor|]. split; [|rewrite app_nil_l, !app_nil_r; apply (quiet_app [_]); [done|apply silent_fate; by left]]. eapply run_app; [exact Hc|].
  assert (E1 : rs_jobs s1 !! j = Some (JStore id pb)) by apply lookup_insert_eq. assert (E2 : rs_jobs s2 !! j = Some (JSave id pb (map pb_seq (take over q)))) by apply lookup_insert_eq.
  eapply (run_cons ev _ s1 s2); [unfold ev, held_step; rewrite E1; reflexivity|].
  eapply (run_cons ev evs s2 s3); [unfold ev, held_step; rewrite E2; reflexivity|].
  etrans; [exact H|]. unfold s3, s2, s1, h3, in_place. cbn [rs_held rs_jobs rs_redelivering rs_sweeping rs_stopped].
  rewrite with_disk_twice, !insert_insert_eq, delete_insert_id by done.
  apply f_equal, f_equal2; [|reflexivity]. f_equal. unfold with_disk, h2. cbn [h_offline h_offSeq h_storage]. f_equal. destruct (h_storage h) as [d|]; cbn; [|done]. f_equal. apply delete_all_one.
Qed.

Lemma flush_sends j now id q : forall s, rs_jobs s !! j = Some (JFlush id q) ->
  exists evs outs, Forall (of_goroutine j) evs /\ run evs s = Some (in_place s (rs_held s) (<[j := JClear id None]> (rs_jobs s)), outs) /\
    flushed outs = map (fun pb => (id, pb_blob pb)) (unexpired now q) /\ redelivered outs = [].
Proof using Type.
  induction q as [|pb q IH]; intros s E; set (ev := EvStep j now true None false).
  - exists [ev], []. split; [by repeat constructor|]. split; [|done]. eapply (run_cons _ [] _ _ _ [] []); [unfold ev, held_step; rewrite E; reflexivity|done].
  - destruct (IH (in_place s (rs_held s) (<[j := JFlush id q]> (rs_jobs s)))) as (evs & outs & Hg & H & Ho & Hr); [apply lookup_insert_eq|].
    exists (ev :: evs), ([OFate id pb (if timeAfterNow now (pb_expiry pb) then Flushed else Lapsed)] ++ outs). split_and!.
    + by constructor.
    + eapply run_cons; [unfold ev, held_step; rewrite E; reflexivity|]. rewrite H. cbn [rs_held rs_jobs in_place]. by rewrite insert_insert_eq.
    + rewrite flushed_app, Ho. unfold unexpired. cbn [List.filter]. by destruct (timeAfterNow now (pb_expiry pb)).
    + rewrite redelivered_app, Hr. by destruct (timeAfterNow now (pb_expiry pb)).
Qed.

Lemma flush_serial j now id s : (sweeper < j)%nat -> rs_jobs s !! j = None ->
  exists evs outs, Forall (of_goroutine j) evs /\ run evs s = Some (in_place s (flushOffline now id (rs_held s)).1 (rs_jobs s), outs) /\
    flushed outs = map (pair id) (flushOffline now id (rs_held s)).2 /\ redelivered outs = [].
Proof using Type.
  intros Hj E. set (h := rs_held s). set (s1 := in_place s (set_offline h (delete id (h_offline h))) (<[j := JFlush id (queue h id)]> (rs_jobs s))).
  destruct (flush_sends j now id (queue h id) s1) as (evs & outs & Hg & H & Ho & Hr); [apply lookup_insert_eq|].
  set (s2 := in_place s1 (rs_held s1) (<[j := JClear id None]> (rs_jobs s1))) in *. assert (E2 : rs_jobs s2 !! j = Some (JClear id None)) by apply lookup_insert_eq.
  set (ev := EvStep j now true None false). exists (EvTake j id :: evs ++ [ev]), ([] ++ outs ++ []).
  split; [constructor; [done|]; apply Forall_app; split; [done|by repeat constructor]|]. split; [|rewrite app_nil_l, app_nil_r, Ho; cbn [flushOffline snd]; by rewrite map_map].
  eapply run_cons; [cbn [held_step]; unfold flush_call; rewrite E, (proj2 (Nat.leb_gt _ _) Hj); reflexivity|]. eapply run_app; [exact H|].
  eapply (run_cons ev [] s2 _ _ [] []); [unfold ev, held_step; rewrite E2; reflexivity|]. unfold s2, s1, in_place. cbn [held_run rs_held rs_jobs rs_redelivering rs_sweeping rs_stopped].
  by rewrite insert_insert_eq, delete_insert_id.
Qed.

Lemma redeliver_sends j now up id addr ids q : forall i s, rs_jobs s !! j = Some (JSend id addr q ids) ->
  let '(sent, ok) := send_held now up i q in
  exists evs outs, Forall (of_goroutine j) evs /\ run evs s = Some (in_place s (if ok then clearOffline id (rs_held s) else rs_held s) (<[j := JRound ids]> (rs_jobs s)), outs) /\
    redelivered outs = map (pair addr) sent /\ flushed outs = [].
Proof using Type.
  induction q as [|pb q IH]; intros i s E; cbn [send_held].
  - set (h := rs_held s). set (s1 := in_place s (set_offline h (delete id (h_offline h))) (<[j := JClear id (Some ids)]> (rs_jobs s))).
    assert (E1 : rs_jobs s1 !! j = Some (JClear id (Some ids))) by apply lookup_insert_eq. set (ev := EvStep j now true None false).
    exists [ev; ev], (map (fun p => OFate id p Cleared) (queue h id) ++ []).
    destruct (silent_fate id Cleared (queue h id)) as [Hf Hr]; [by right; right|]. split; [by repeat constructor|]. split; [|by rewrite app_nil_r].
    eapply run_cons; [unfold ev, held_step; rewrite E; reflexivity|]. eapply (run_cons ev [] s1 _ _ [] []); [unfold ev, held_step; rewrite E1; reflexivity|].
    unfold s1, in_place. cbn [held_run rs_held rs_jobs rs_redelivering rs_sweeping rs_stopped]. by rewrite insert_insert_eq.
  - set (s1 := in_place s (rs_held s) (<[j := JSend id addr q ids]> (rs_jobs s))). assert (E1 : rs_jobs s1 !! j = Some (JSend id addr q ids)) by apply lookup_insert_eq.
    destruct (timeAfterNow now (pb_expiry pb)) eqn:Et; cbn [negb].
    + destruct (up i) eqn:Eu.
      * specialize (IH (S i) s1 E1). destruct (send_held now up (S i) q) as [sent ok]. destruct IH as (evs & outs & Hg & H & Ho & Hf). set (ev := EvStep j now true None false).
        exists (ev :: evs), ([OFate id pb (Sent addr)] ++ outs). split; [by constructor|]. split; [|by rewrite redelivered_app, flushed_app, Ho, Hf].
        eapply run_cons; [unfold ev, held_step, redeliver_send; rewrite E, Et; reflexivity|]. fold s1. rewrite H. unfold s1, in_place. cbn [rs_held rs_jobs rs_redelivering rs_sweeping rs_stopped]. by rewrite insert_insert_eq.
      * exists [EvStep j now false None false], []. split; [by repeat constructor|]. split; [|done]. eapply (run_cons _ [] _ _ _ [] []); [unfold held_step, redeliver_send; rewrite E, Et; reflexivity|done].
    + specialize (IH i s1 E1). destruct (send_held now up i q) as [sent ok]. destruct IH as (evs & outs & Hg & H & Ho & Hf). set (ev := EvStep j now true None false).
      exists (ev :: evs), ([OFate id pb Passed] ++ outs). split; [by constructor|]. split; [|by rewrite redelivered_app, flushed_app, Ho, Hf].
      eapply run_cons; [unfold ev, held_step, redeliver_send; rewrite E, Et; reflexivity|]. fold s1. rewrite H. unfold s1, in_place. cbn [rs_held rs_jobs rs_redelivering rs_sweeping rs_stopped]. by rewrite insert_insert_eq.
Qed.

Definition batches (l : list (string * list bytes)) : list (string * bytes) := concat (map (fun e => map (pair e.1) e.2) l).

Lemma batches_app (a b : list (string * list bytes)) : batches (a ++ b) = batches a ++ batches b.
Proof using Type. unfold batches. by rewrite map_app, concat_app. Qed.

(** The recipients of a round, one after the other. *)
Lemma round_rest now (up : string -> nat -> bool) (active : gmap string string) (reserved : string -> bool) ids : forall s (sent : list (string * list bytes)), rs_jobs s !! redeliverer = Some (JRound ids) ->
  let '(h, sent') := fold_left (fun '((h, out) : held * list (string * list bytes)) id =>
    if reserved id then (h, out)
    else match active !! id with
         | None => (h, out)
         | Some addr => let '(h, sent, _) := redeliverTo now (up id) id h in (h, out ++ [(addr, sent)])
         end) ids (rs_held s, sent) in
  exists evs outs, Forall (of_goroutine redeliverer) evs /\ run evs s = Some (in_place s h (delete redeliverer (rs_jobs s)), outs) /\
    batches sent' = batches sent ++ redelivered outs /\ flushed outs = [].
Proof using Type.
  induction ids as [|id ids IH]; intros s sent E; cbn [fold_left].
  - exists [EvStep redeliverer now true None false], []. split; [by repeat constructor|]. split; [|by rewrite app_nil_r].
    eapply (run_cons _ [] _ _ _ [] []); [unfold held_step, round_next; rewrite E; reflexivity|done].
  - set (j := redeliverer) in *. assert (Hskip : forall act res, (if res : bool then None else act) = None ->
      step (EvStep j now true act res) s = Some (in_place s (rs_held s) (<[j := JRound ids]> (rs_jobs s)), [])).
    { intros act res Hr. unfold held_step, round_next. by rewrite E, Hr. }
    set (s1 := in_place s (rs_held s) (<[j := JRound ids]> (rs_jobs s))) in *. assert (E1 : rs_jobs s1 !! j = Some (JRound ids)) by apply lookup_insert_eq.
    pose proof (IH s1 sent E1) as Hs. assert (Hback : forall h, in_place s1 h (delete j (rs_jobs s1)) = in_place s h (delete j (rs_jobs s)))
      by (intros h; unfold s1, in_place; cbn [rs_jobs rs_redelivering rs_sweeping rs_stopped]; by rewrite delete_insert_eq).
    change (rs_held s1) with (rs_held s) in Hs. destruct (reserved id) eqn:Er; [|destruct (active !! id) as [addr|] eqn:Ea].
    + destruct (fold_left _ ids _) as [h' sent']. destruct Hs as (evs & outs & Hg & H & Ho). exists (EvStep j now true None true :: evs), ([] ++ outs).
      split; [by constructor|]. split; [|done]. eapply run_cons; [by apply Hskip|]. by rewrite <- Hback.
    + set (s2 := in_place s (rs_held s) (<[j := JSend id addr (queue (rs_held s) id) ids]> (rs_jobs s))). assert (E2 : rs_jobs s2 !! j = Some (JSend id addr (queue (rs_held s) id) ids)) by apply lookup_insert_eq.
      pose proof (redeliver_sends j now (up id) id addr ids (queue (rs_held s) id) 0 s2 E2) as Hr. unfold redeliverTo. destruct (send_held now (up id) 0 (queue (rs_held s) id)) as [q ok].
      destruct Hr as (evs1 & outs1 & Hg1 & H1 & Ho1 & Hf1). set (h1 := if ok then clearOffline id (rs_held s) else rs_held s) in *. change (rs_held s2) with (rs_held s) in H1. fold h1 in H1.
      set (s3 := in_place s2 h1 (<[j := JRound ids]> (rs_jobs s2))) in *. assert (E3 : rs_jobs s3 !! j = Some (JRound ids)) by apply lookup_insert_eq.
      specialize (IH s3 (sent ++ [(addr, q)]) E3). change (rs_held s3) with h1 in IH. destruct (fold_left _ ids _) as [h' sent']. destruct IH as (evs & outs & Hg & H & Ho & Hf).
      exists (EvStep j now true (Some addr) false :: evs1 ++ evs), ([OBegin id] ++ outs1 ++ outs). split_and!.
      * constructor; [done|]. by apply Forall_app.
      * eapply run_cons; [unfold held_step, round_next; rewrite E; reflexivity|]. eapply run_app; [exact H1|]. rewrite H. unfold s3, s2, in_place.
        cbn [rs_jobs rs_redelivering rs_sweeping rs_stopped]. by rewrite !delete_insert_eq.
      * rewrite Ho, batches_app, !redelivered_app, Ho1, <- app_assoc. unfold batches at 2. cbn [map concat fst snd]. by rewrite app_nil_r.
      * by rewrite !flushed_app, Hf1, Hf.
    + destruct (fold_left _ ids _) as [h' sent']. destruct Hs as (evs & outs & Hg & H & Ho). exists (EvStep j now true None false :: evs), ([] ++ outs).
      split; [by constructor|]. split; [|done]. eapply run_cons; [by apply Hskip|]. by rewrite <- Hback.
Qed.

Lemma round_serial now up active reserved s : rs_redelivering s = true -> rs_jobs s !! redeliverer = None ->
  exists evs outs, Forall (of_goroutine redeliverer) evs /\ run evs s = Some (in_place s (redeliverRound now up active reserved ordR (rs_held s)).1 (rs_jobs s), outs) /\
    redelivered outs = batches (redeliverRound now up active reserved ordR (rs_held s)).2 /\ flushed outs = [].
Proof using Type.
  intros Hr E. set (s1 := in_place s (rs_held s) (<[redeliverer := JRound (ordR (h_offline (rs_held s)))]> (rs_jobs s))).
  pose proof (round_rest now up active reserved (ordR (h_offline (rs_held s))) s1 [] (lookup_insert_eq _ _ _)) as H. unfold redeliverRound. change (rs_held s1) with (rs_held s) in H.
  destruct (fold_left _ _ _) as [h sent]. destruct H as (evs & outs & Hg & H & Ho & Hf). exists (EvRedeliver :: evs), ([] ++ outs).
  split; [by constructor|]. split; [|cbn [snd app]; by rewrite Ho].
  eapply run_cons; [cbn [held_step]; unfold redeliver_tick; rewrite E, Hr; reflexivity|]. fold s1. rewrite H. unfold s1, in_place.
  cbn [rs_jobs rs_redelivering rs_sweeping rs_stopped]. by rewrite delete_insert_id.
Qed.

Lemma expire_split now l h :
  fold_left (expire_one now) l h = with_disk (fold_left (sweep_queue now) l h) (delete_all (map (fun e => (e.1, pb_seq e.2)) (swept now l))).
Proof using Type.
  assert (Hc : forall l h f, fold_left (sweep_queue now) l (with_disk h f) = with_disk (fold_left (sweep_queue now) l h) f).
  { clear l h. induction l as [|e l IH]; intros h f; [done|]. cbn [fold_left]. change (sweep_queue now (with_disk h f) e) with (with_disk (sweep_queue now h e) f). apply IH. }
  revert h. induction l as [|[id q] l IH]; intros h; cbn [fold_left]; [change (delete_all []) with (fun d : disk => d); by rewrite with_disk_id|].
  rewrite IH. change (swept now ((id, q) :: l)) with (map (pair id) (lapsed now q) ++ swept now l).
  change (expire_one now h (id, q)) with (with_disk (sweep_queue now h (id, q)) (fun d => fold_left (fun d pb => DeleteOffline d id (pb_seq pb)) (lapsed now q) d)).
  rewrite Hc, with_disk_twice. unfold with_disk. f_equal. destruct (h_storage _) as [d|]; [|done]. cbn. f_equal. unfold delete_all. rewrite map_app, fold_left_app, map_map. cbn [fst snd].
  f_equal. rewrite <- delete_all_one. unfold delete_all. by rewrite map_map.
Qed.

Lemma sweep_serial now s : rs_sweeping s = true -> rs_jobs s !! sweeper = None ->
  exists evs outs, Forall (of_goroutine sweeper) evs /\ run evs s = Some (in_place s (expireOffline now ordQ (rs_held s)) (rs_jobs s), outs) /\ silent outs.
Proof using Type.
  intros Hr E. set (l := ordQ (h_offline (rs_held s))). set (gone := map (fun e => (e.1, pb_seq e.2)) (swept now l)).
  set (s1 := in_place s (fold_left (sweep_queue now) l (rs_held s)) (<[sweeper := JDelete gone]> (rs_jobs s))).
  destruct (delete_serial sweeper gone s1) as (evs & Hg & H); [apply lookup_insert_eq|]. exists (EvSweep now :: evs), (map (fun e => OFate e.1 e.2 Expired) (swept now l) ++ []).
  split; [by constructor|]. split; [|rewrite app_nil_r; apply silent_fates; by right; left].
  eapply run_cons; [cbn [held_step]; unfold sweep_tick; rewrite E, Hr; reflexivity|]. unfold expireOffline. fold l. rewrite expire_split. fold gone s1. rewrite H. unfold s1, in_place.
  cbn [rs_held rs_jobs rs_redelivering rs_sweeping rs_stopped]. by rewrite delete_insert_id.
Qed.
End Account.

(** ** Claims *)

(** C22: The relay keeps account of every blob under any interleaving.  Whatever
    requests, reservations and loops do and in whatever order their steps come: for
    every recipient the blobs ever queued are those in the queue, those a flush has
    taken and not yet sent, and those that left it (pushed out by 64 newer ones, handed
    to a reservation, expired, or removed by a redelivery), each exactly once; no queue
    exceeds its cap; and a blob that a redelivery removed was sent by that redelivery,
    had expired when it came to it, or was queued only after the redelivery had copied
    the queue. *)
Theorem held_account storeForward ttl ordR ordQ h evs s outs :
  (forall m, ordQ m ≡ₚ map_to_list m) -> (forall id, (length (queue h id) <= maxOfflinePerNode)%nat) ->
  held_run storeForward ttl ordR ordQ evs (store_started storeForward h) = Some (s, outs) ->
  (forall id, queue h id ++ accepted id outs ≡ₚ queue (rs_held s) id ++ carried s id ++ departed id outs /\
              (length (queue (rs_held s) id) <= maxOfflinePerNode)%nat) /\
  (forall before id pb after, outs = before ++ OFate id pb Cleared :: after ->
     exists since, begun id before since /\ accounted id pb since).
Proof.
  intros Hord Hh H. destruct (run_inv storeForward ttl ordR ordQ Hord evs _ s outs [] H) as (Hc & _ & Hl & Hb).
  - exact Hh.
  - intros j w. cbn. by rewrite lookup_empty.
  - intros j id addr q ids. cbn. by rewrite lookup_empty.
  - intros a id pb b. by destruct a.
  - split; [|exact Hl]. intros id. split; [|apply Hc]. specialize (Hb id). unfold balance in Hb. cbn in Hb. rewrite app_nil_r in Hb. by rewrite Hb, app_assoc.
Qed.

(** The operations of [Offline] that are calls or rounds here. *)
Definition concurrent_op (op : off_op) : bool := match op with OpStore _ _ _ | OpFlush _ _ | OpRound _ _ _ _ | OpExpire _ => true | _ => false end.

(** What an operation of the specification hands to reservations, and what it redelivers. *)
Definition op_flushes (op : off_op) (h : held) : list (string * bytes) :=
  match op with OpFlush now id => map (pair id) (flushOffline now id h).2 | _ => [] end.
Definition op_redelivers (ordR : gmap string (list pendingBlob) -> list string) (op : off_op) (h : held) : list (string * bytes) :=
  match op with OpRound now up active reserved => batches (redeliverRound now up active reserved ordR h).2 | _ => [] end.

(** The goroutine [j] that can run an operation now: a fresh one for a request or a
    reservation, its own loop's for a round or a sweep if it runs and is between two. *)
Definition can_run (s : relay_store) (op : off_op) (j : nat) : Prop :=
  rs_jobs s !! j = None /\
  match op with
  | OpStore _ _ _ | OpFlush _ _ => (sweeper < j)%nat
  | OpRound _ _ _ _ => j = redeliverer /\ rs_redelivering s = true
  | OpExpire _ => j = sweeper /\ rs_sweeping s = true
  | OpRedeliver _ _ _ | OpRestart _ => False
  end.

(** C23: The stepwise operations implement the atomic ones.  From every state in which
    the goroutine of an operation of the specification [Offline.offline_step] can start,
    wherever the other goroutines are, some run of steps of that goroutine alone leads to
    the specified state, with the other goroutines as they were, and hands to
    reservations and redelivers exactly what the specification does, in its order. *)
Theorem held_refines storeForward ttl ordR ordQ ordL op j s :
  concurrent_op op = true -> can_run s op j ->
  exists evs outs, Forall (of_goroutine j) evs /\ held_run storeForward ttl ordR ordQ evs s =
    Some (in_place s (offline_step storeForward ttl ordR ordQ ordL (rs_held s) op) (rs_jobs s), outs) /\
    flushed outs = op_flushes op (rs_held s) /\ redelivered outs = op_redelivers ordR op (rs_held s).
Proof.
  intros Hop [Ej Hc]. destruct op as [now id blob|now id|now up id|now up active reserved|now|now]; try done; cbn [offline_step op_flushes op_redelivers].
  - destruct (store_serial storeForward ttl ordR ordQ j now id blob s Hc Ej) as (evs & outs & Hg & H & H1 & H2). eauto 10.
  - destruct (flush_serial storeForward ttl ordR ordQ j now id s Hc Ej) as (evs & outs & Hg & H & H1 & H2). eauto 10.
  - destruct Hc as [-> Hr]. destruct (round_serial storeForward ttl ordR ordQ now up active reserved s Hr Ej) as (evs & outs & Hg & H & H1 & H2). eauto 10.
  - destruct Hc as [-> Hr]. destruct (sweep_serial storeForward ttl ordR ordQ now s Hr Ej) as (evs & outs & Hg & H & H1 & H2). eauto 10.
Qed.

(** ** Witnesses *)

Definition no_held : held := mkHeld ∅ 0 (Some ∅).
Definition in_order (m : gmap string (list pendingBlob)) : list (string * list pendingBlob) := map_to_list m.
Definition names (m : gmap string (list pendingBlob)) : list string := map fst (map_to_list m).
Definition run_held (evs : list held_event) : option (relay_store * list held_out) := held_run true 100 names in_order evs (store_started true no_held).
Definition go (j : nat) : held_event := EvStep j 10 true (Some "bob:1"%string) false.

(** A blob is queued, redelivered and cleared. *)
Definition one_redelivery : list held_event :=
  [EvSeq 2 5 "bob" [x01]; go 2; go 2; go 2; EvRedeliver; go 0; go 0; go 0; go 0; go 0].
Definition after_held (evs : list held_event) : relay_store * list held_out := default (store_started true no_held, []) (run_held evs).

Lemma held_account_witness :
  departed "bob" (after_held one_redelivery).2 = [mkPending 1 [x01] 105] /\ queue (rs_held (after_held one_redelivery).1) "bob" = [] /\
  exists since, begun "bob" [OFate "bob" (mkPending 1 [x01] 105) Accepted; OBegin "bob"; OFate "bob" (mkPending 1 [x01] 105) (Sent "bob:1")] since /\
    accounted "bob" (mkPending 1 [x01] 105) since.
Proof.
  destruct (held_account true 100 names in_order no_held one_redelivery (after_held one_redelivery).1 (after_held one_redelivery).2
    ltac:(intros m; reflexivity) ltac:(intros id; unfold queue; cbn; rewrite lookup_empty; cbn; lia) ltac:(vm_compute; reflexivity)) as [H1 H2].
  destruct (H1 "bob"%string) as [_ _]. split; [vm_compute; reflexivity|]. split; [vm_compute; reflexivity|].
  apply (H2 _ "bob"%string (mkPending 1 [x01] 105) []). vm_compute. reflexivity.
Defined.

(** A flush while a redelivery of the same queue is under way: what it hands over. *)
Definition mid_redelivery : relay_store := (after_held [EvSeq 2 5 "bob" [x01]; go 2; go 2; go 2; EvRedeliver; go 0]).1.

Lemma held_refines_witness :
  rs_jobs mid_redelivery !! redeliverer = Some (JSend "bob" "bob:1" [mkPending 1 [x01] 105] []) /\
  exists evs outs, Forall (of_goroutine 2) evs /\ held_run true 100 names in_order evs mid_redelivery =
    Some (in_place mid_redelivery (flushOffline 10 "bob" (rs_held mid_redelivery)).1 (rs_jobs mid_redelivery), outs) /\
    flushed outs = [("bob"%string, [x01])] /\ redelivered outs = [].
Proof.
  split; [vm_compute; reflexivity|].
  exact (held_refines true 100 names in_order (fun m => map_to_list m) (OpFlush 10 "bob") 2 mid_redelivery
    eq_refl (conj (eq_refl : rs_jobs mid_redelivery !! 2%nat = None) (le_n 2))).
Defined.

(** A blob that arrives while the queue is being redelivered is removed unsent. *)
Example stored_during_redelivery_is_lost :
  let '(s, outs) := after_held ([EvSeq 2 5 "bob" [x01]; go 2; go 2; go 2; EvRedeliver; go 0; go 0] ++ [EvSeq 3 6 "bob" [x02]; go 3; go 3; go 3] ++ [go 0; go 0; go 0]) in
  rs_jobs s = ∅ /\ queue (rs_held s) "bob" = [] /\ h_storage (rs_held s) = Some ∅ /\ redelivered outs = [("bob:1"%string, [x01])] /\
  departed "bob" outs = [mkPending 1 [x01] 105; mkPending 2 [x02] 106].
Proof. vm_compute. done. Qed.

(** A flush removes the directory after it sent: a blob queued in between is held in
    memory only, and a restart loses it. *)
Example flush_removes_a_new_file :
  let '(s, _) := after_held ([EvTake 2 "bob"] ++ [EvSeq 3 6 "bob" [x02]; go 3; go 3; go 3] ++ [go 2; go 2]) in
  rs_jobs s = ∅ /\ queue (rs_held s) "bob" = [mkPending 1 [x02] 106] /\ h_storage (rs_held s) = Some ∅ /\
  queue (restart 20 (fun m => map_to_list m) (rs_held s)) "bob" = [].
Proof. vm_compute. done. Qed.

(** The other way about, a file written after the flush brings a delivered blob back. *)
Example late_file_redelivers :
  let '(s, outs) := after_held ([EvSeq 3 6 "bob" [x02]; go 3] ++ [EvTake 2 "bob"; go 2; go 2; go 2] ++ [go 3; go 3]) in
  rs_jobs s = ∅ /\ departed "bob" outs = [mkPending 1 [x02] 106] /\ queue (restart 20 (fun m => map_to_list m) (rs_held s)) "bob" = [mkPending 1 [x02] 106].
Proof. vm_compute. done. Qed.

(** After [Stop] a loop ends once it is between two rounds, and then runs no more. *)
Example stopped_loops_return :
  (run_held [EvRedeliver; EvHalt; EvReturn 0]) = None /\
  match run_held [EvRedeliver; EvHalt; go 0; EvReturn 0; EvReturn 1] with
  | Some (s, _) => rs_redelivering s = false /\ rs_sweeping s = false
  | None => False
  end /\ run_held [EvHalt; EvReturn 0; EvRedeliver] = None.
Proof. vm_compute. done. Qed.
