(* ===== verification/Reputation.v ===== *)
(** * Relay standing (internal/transfer/reputation.go; the client side of
      reservation.go)

    The strikes and excommunications of relays, the relays a node may route
    through, the outstanding liveness probes and the choice of relays to reserve
    with.  The network round trip of a probe is an outcome given from outside. *)

From S2P Require Import Prelude Net Routing PeerTable.
From stdpp Require Import pretty.
#[local] Open Scope Z_scope.

Definition transferPort : Z := 64513.
Definition defaultStrikeLimit : Z := 3.
Definition defaultPenance : Z := 3600 * 1000000000.
Definition maxProbeRelays : nat := 8.
Definition maxReservationRelays : Z := 2.

Definition peerDialAddr (node : Node) : string :=
  let host := match SplitHostPort (n_Address node) with Some (h, _) => h | None => n_Address node end in
  let port := if n_Port node =? 0 then transferPort else n_Port node in
  JoinHostPort host (pretty port).

Definition hasCapability (caps : list string) (want : string) : bool := existsb (fun c => String.eqb c want) caps.

(** ** Standing *)

Record standing : Type := mkStanding {
  rp_strikes : gmap string Z;
  rp_excommunions : gmap string Z
}.

Record scoring : Type := mkScoring { sg_strikeLimit : Z; sg_penance : Z }.

(** [SetRelayScoring]: the limits in force. *)
Definition SetRelayScoring (strikeLimit penance : Z) : scoring :=
  mkScoring (if strikeLimit <=? 0 then defaultStrikeLimit else strikeLimit) (if penance <=? 0 then defaultPenance else penance).

Definition isExcommunicated (now : Z) (relayID : string) (st : standing) : standing * bool :=
  match rp_excommunions st !! relayID with
  | None => (st, false)
  | Some until =>
      if now <? until then (st, true)
      else (mkStanding (delete relayID (rp_strikes st)) (delete relayID (rp_excommunions st)), false)
  end.

Definition recordProbe (sg : scoring) (now : Z) (relayID : string) (ok : bool) (st : standing) : standing :=
  if ok then mkStanding (delete relayID (rp_strikes st)) (rp_excommunions st)
  else
    let strikes := default 0 (rp_strikes st !! relayID) + 1 in
    if sg_strikeLimit sg <=? strikes
    then mkStanding (delete relayID (rp_strikes st)) (<[relayID := now + sg_penance sg]> (rp_excommunions st))
    else mkStanding (<[relayID := strikes]> (rp_strikes st)) (rp_excommunions st).

(** ** Relays to route through *)

Definition relay_peer (n : Node) : Peer :=
  mkPeer (n_ID n) (peerDialAddr n) (n_Latency n) (n_Active n) (n_PubKey n) (n_Port n) true.

Fixpoint relayPeers (now : Z) (nodes : list Node) (excludeID : string) (st : standing) : standing * list Peer :=
  match nodes with
  | [] => (st, [])
  | n :: nodes =>
      if String.eqb (n_ID n) excludeID || (len (n_PubKey n) =? 0) || negb (hasCapability (n_Capabilities n) "relay")
      then relayPeers now nodes excludeID st
      else
        let '(st, out) := isExcommunicated now (n_ID n) st in
        let '(st, rest) := relayPeers now nodes excludeID st in
        (st, if out then rest else relay_peer n :: rest)
  end.

(** ** Probes *)

Definition registerProbe (probes : gset bytes) (id : bytes) : gset bytes := {[id]} ∪ probes.
Definition unregisterProbe (probes : gset bytes) (id : bytes) : gset bytes := probes ∖ {[id]}.
Definition signalProbe (probes : gset bytes) (id : bytes) : gset bytes * bool :=
  if bool_decide (id ∈ probes) then (probes ∖ {[id]}, true) else (probes, false).

(** The relays challenged in a round. *)
Fixpoint probe_targets (now : Z) (selfID : string) (nodes : list Node) (room : nat) (st : standing) : standing * list string :=
  match nodes, room with
  | _, O | [], _ => (st, [])
  | n :: nodes, S room' =>
      if String.eqb (n_ID n) selfID || (len (n_PubKey n) =? 0) || negb (hasCapability (n_Capabilities n) "relay")
      then probe_targets now selfID nodes room st
      else
        let '(st, out) := isExcommunicated now (n_ID n) st in
        if out then probe_targets now selfID nodes room st
        else let '(st, rest) := probe_targets now selfID nodes room' st in (st, n_ID n :: rest)
  end.

(** [outcome id] says whether the probe of relay [id] comes back in time; returned
    are also the challenges made. *)
Definition probeRound (sg : scoring) (now : Z) (selfID : string) (nodes : list Node) (outcome : string -> bool) (st : standing) :
    standing * list (string * bool) :=
  let '(st, targets) := probe_targets now selfID nodes maxProbeRelays st in
  let log := map (fun id => (id, outcome id)) targets in
  (fold_left (fun st e => recordProbe sg now e.1 e.2 st) log st, log).

(** ** Reservations of a node behind NAT *)

Fixpoint reserve_loop (now : Z) (selfID : string) (nodes : list Node) (active : Z) (clients : gset string) (st : standing) :
    standing * gset string * list string :=
  match nodes with
  | [] => (st, clients, [])
  | n :: nodes =>
      if maxReservationRelays <=? active then (st, clients, [])
      else if String.eqb (n_ID n) selfID || (len (n_PubKey n) =? 0) || negb (hasCapability (n_Capabilities n) "relay")
      then reserve_loop now selfID nodes active clients st
      else
        let '(st, out) := isExcommunicated now (n_ID n) st in
        if out then reserve_loop now selfID nodes active clients st
        else if bool_decide (n_ID n ∈ clients) then reserve_loop now selfID nodes active clients st
        else
          let '(st, clients, started) := reserve_loop now selfID nodes (active + 1) ({[n_ID n]} ∪ clients) st in
          (st, clients, n_ID n :: started)
  end.

(** [clients] are the relays a reservation loop runs for; returned are also the
    ones started. *)
Definition ensureReservations (now : Z) (needsRelay : bool) (selfID : string) (nodes : list Node) (clients : gset string) (st : standing) :
    standing * gset string * list string :=
  if negb needsRelay then (st, clients, [])
  else reserve_loop now selfID nodes (Z.of_nat (size clients)) clients st.

(** The relays this node tells its peers to reach it through. *)
Definition setReserved (ids : gset string) (relayID : string) (ok : bool) : gset string :=
  if ok then {[relayID]} ∪ ids else ids ∖ {[relayID]}.

(** ** Standing is a function of the recent challenges *)

(** The length of the run of failures at the end of a history of challenges. *)
Fixpoint trailing (l : list (Z * bool)) : nat :=
  match l with
  | [] => 0
  | (_, ok) :: t => if (length t =? trailing t)%nat then if ok then trailing t else S (trailing t) else trailing t
  end.

Lemma trailing_le l : (trailing l <= length l)%nat.
Proof. induction l as [|[z ok] t IH]; cbn [trailing length]; [lia|]. destruct (_ =? _)%nat eqn:E; [|lia]. destruct ok; lia. Qed.

Lemma trailing_snoc l z ok : trailing (l ++ [(z, ok)]) = if ok then 0%nat else S (trailing l).
Proof.
  induction l as [|[z' ok'] t IH]; cbn [trailing app]; [by destruct ok|]. rewrite length_app, IH. cbn [length].
  pose proof (trailing_le t). destruct ok.
  - rewrite (proj2 (Nat.eqb_neq _ _)) by lia. done.
  - replace (length t + 1 =? S (trailing t))%nat with (length t =? trailing t)%nat
      by (destruct (Nat.eqb_spec (length t) (trailing t)), (Nat.eqb_spec (length t + 1) (S (trailing t))); lia).
    destruct (_ =? _)%nat; [by destruct ok'|done].
Qed.

(** A relay is out iff its last challenge completed a group of [strikeLimit]
    failures in a row and the penance since then is not over. *)
Definition cast_out (sg : scoring) (h : list (Z * bool)) (now : Z) : bool :=
  match last h with
  | Some (t, _) =>
      (0 <? Z.of_nat (trailing h)) && (Z.of_nat (trailing h) mod sg_strikeLimit sg =? 0) && (now <? t + sg_penance sg)
  | None => false
  end.

Section History.
Context (sg : scoring) (HL : 0 < sg_strikeLimit sg).

(** What the tables say of a relay with challenges [h], at time [T]. *)
Definition stands (h : list (Z * bool)) (T : Z) (strikes until : option Z) : Prop :=
  match until with
  | Some u => (0 < trailing h)%nat /\ Z.of_nat (trailing h) mod sg_strikeLimit sg = 0 /\ strikes = None /\
      exists t ok, last h = Some (t, ok) /\ u = t + sg_penance sg
  | None => default 0 strikes = Z.of_nat (trailing h) mod sg_strikeLimit sg /\ cast_out sg h T = false
  end.

Abbreviation stands_in st id h T := (stands h T (rp_strikes st !! id) (rp_excommunions st !! id)).

Lemma cast_out_later h T T' : T <= T' -> cast_out sg h T = false -> cast_out sg h T' = false.
Proof using Type.
  unfold cast_out. intros Hle. destruct (last h) as [[t ok]|]; [|done]. rewrite !andb_false_iff, !Z.ltb_ge. intros [H|H]; [by left|right; lia].
Qed.

Lemma stands_later h T T' s u : T <= T' -> stands h T s u -> stands h T' s u.
Proof using Type. intros Hle. unfold stands. destruct u; [done|]. intros [H1 H2]. split; [done|by eapply cast_out_later]. Qed.

(** A query answers [cast_out], and leaves the relay with no expired entry. *)
Lemma query_stands h T now id st :
  T <= now -> stands_in st id h T ->
  let '(st', out) := isExcommunicated now id st in
  out = cast_out sg h now /\ stands_in st' id h now /\ (out = false -> rp_excommunions st' !! id = None).
Proof using Type.
  intros Hle Hs. unfold isExcommunicated. destruct (rp_excommunions st !! id) as [u|] eqn:Eu.
  - destruct Hs as (H1 & H2 & H3 & t & ok & Ht & ->). assert (Hco : cast_out sg h now = (now <? t + sg_penance sg)).
    { unfold cast_out. rewrite Ht, H2. cbn [Z.eqb]. rewrite (proj2 (Z.ltb_lt 0 _)) by lia. done. }
    rewrite <- Hco. destruct (cast_out sg h now) eqn:Ec.
    + split; [done|]. rewrite Eu. split; [|done]. split_and!; try done. eauto.
    + split; [done|]. cbn [rp_strikes rp_excommunions]. rewrite !lookup_delete_eq. split; [|done]. cbn. by rewrite H2.
  - destruct Hs as [H1 H2]. pose proof (cast_out_later _ _ _ Hle H2) as Hc. split; [by rewrite Hc|]. rewrite Eu. done.
Qed.

Lemma query_other now id id' st : id' <> id ->
  let '(st', _) := isExcommunicated now id st in
  rp_strikes st' !! id' = rp_strikes st !! id' /\ rp_excommunions st' !! id' = rp_excommunions st !! id'.
Proof using Type.
  intros Hne. unfold isExcommunicated. destruct (rp_excommunions st !! id); [|done]. destruct (_ <? _); [done|]. cbn.
  by rewrite !lookup_delete_ne by congruence.
Qed.

(** The standing of all relays, each with its own history. *)
Definition all_stand (hist : string -> list (Z * bool)) (T : Z) (st : standing) : Prop := forall id, stands_in st id (hist id) T.

Lemma all_query hist T now id st :
  T <= now -> all_stand hist T st ->
  let '(st', out) := isExcommunicated now id st in
  out = cast_out sg (hist id) now /\ all_stand hist now st' /\ (out = false -> rp_excommunions st' !! id = None) /\
  forall id', rp_excommunions st !! id' = None -> rp_excommunions st' !! id' = None.
Proof using Type.
  intros Hle Ha. pose proof (query_stands _ _ now id st Hle (Ha id)) as Hq. destruct (isExcommunicated now id st) as [st' out] eqn:Eq.
  destruct Hq as (H1 & H2 & H3). split; [done|]. split; [|split; [done|]].
  - intros id'. destruct (decide (id' = id)) as [->|Hne]; [done|]. pose proof (query_other now id id' st Hne) as Ho. rewrite Eq in Ho.
    destruct Ho as [-> ->]. by eapply stands_later.
  - intros id' Hn. destruct (decide (id' = id)) as [->|Hne].
    + unfold isExcommunicated in Eq. rewrite Hn in Eq. by simplify_eq.
    + pose proof (query_other now id id' st Hne) as Ho. rewrite Eq in Ho. destruct Ho as [_ ->]. done.
Qed.

Lemma record_stands h now id ok st :
  rp_excommunions st !! id = None -> stands_in st id h now ->
  stands_in (recordProbe sg now id ok st) id (h ++ [(now, ok)]) now.
Proof using HL.
  intros Hn Hs. rewrite Hn in Hs. destruct Hs as [Hs Hc]. unfold recordProbe, stands. rewrite trailing_snoc. destruct ok.
  - cbn [rp_strikes rp_excommunions]. rewrite lookup_delete_eq, Hn. split; [cbn; by rewrite Z.mod_0_l by lia|].
    unfold cast_out. rewrite last_snoc, trailing_snoc. done.
  - rewrite Hs. pose proof (Z.mod_pos_bound (Z.of_nat (trailing h)) (sg_strikeLimit sg) HL) as Hb.
    pose proof (Z.div_mod (Z.of_nat (trailing h)) (sg_strikeLimit sg) ltac:(lia)) as Hdm.
    destruct (Z.leb_spec (sg_strikeLimit sg) (Z.of_nat (trailing h) mod sg_strikeLimit sg + 1)) as [Hge|Hlt]; cbn [rp_strikes rp_excommunions].
    + rewrite lookup_delete_eq, lookup_insert_eq. split; [lia|]. split; [|split; [done|exists now, false; by rewrite last_snoc]].
      symmetry. apply (Z.mod_unique _ _ (Z.of_nat (trailing h) / sg_strikeLimit sg + 1)); lia.
    + rewrite lookup_insert_eq, Hn. assert (Hm : Z.of_nat (S (trailing h)) mod sg_strikeLimit sg = Z.of_nat (trailing h) mod sg_strikeLimit sg + 1).
      { symmetry. apply (Z.mod_unique _ _ (Z.of_nat (trailing h) / sg_strikeLimit sg)); lia. }
      split; [cbn; lia|]. unfold cast_out. rewrite last_snoc, trailing_snoc, Hm. rewrite (proj2 (Z.eqb_neq _ 0)) by lia. by rewrite andb_false_r.
Qed.

Lemma record_other now id id' ok st : id' <> id ->
  rp_strikes (recordProbe sg now id ok st) !! id' = rp_strikes st !! id' /\
  rp_excommunions (recordProbe sg now id ok st) !! id' = rp_excommunions st !! id'.
Proof using Type.
  intros Hne. unfold recordProbe. destruct ok; [cbn; by rewrite lookup_delete_ne by congruence|]. destruct (_ <=? _); cbn.
  - by rewrite lookup_delete_ne, lookup_insert_ne by congruence.
  - by rewrite lookup_insert_ne by congruence.
Qed.
End History.

(** ** Rounds of challenges *)

(** The challenges of relay [id] in a log. *)
Definition challenges (id : string) (log : list (string * (Z * bool))) : list (Z * bool) :=
  map snd (List.filter (fun e => String.eqb e.1 id) log).

Inductive rep_op : Type :=
  | RRound (now : Z) (selfID : string) (nodes : list Node) (outcome : string -> bool)
  | RQuery (now : Z) (id : string)
  | RRelays (now : Z) (nodes : list Node) (excludeID : string)
  | RReserve (now : Z) (needsRelay : bool) (selfID : string) (nodes : list Node) (clients : gset string).

Definition rep_time (op : rep_op) : Z := match op with RRound n _ _ _ | RQuery n _ | RRelays n _ _ | RReserve n _ _ _ _ => n end.

(** The node table has one node per ID. *)
Definition rep_wf (op : rep_op) : Prop := match op with RRound _ _ nodes _ => NoDup (map n_ID nodes) | _ => True end.

Definition rep_step (sg : scoring) (s : standing * list (string * (Z * bool))) (op : rep_op) : standing * list (string * (Z * bool)) :=
  let '(st, log) := s in
  match op with
  | RRound now self nodes outcome =>
      let '(st, made) := probeRound sg now self nodes outcome st in (st, log ++ map (fun e => (e.1, (now, e.2))) made)
  | RQuery now id => ((isExcommunicated now id st).1, log)
  | RRelays now nodes excl => ((relayPeers now nodes excl st).1, log)
  | RReserve now needs self nodes clients => ((ensureReservations now needs self nodes clients st).1.1, log)
  end.

Definition routable (excludeID : string) (n : Node) : bool :=
  negb (String.eqb (n_ID n) excludeID || (len (n_PubKey n) =? 0) || negb (hasCapability (n_Capabilities n) "relay")).

(** The relays a node may use at [now]: keyed, capable, not the one named, and in
    good standing. *)
Definition offered (sg : scoring) (hist : string -> list (Z * bool)) (now : Z) (excludeID : string) (nodes : list Node) : list Node :=
  List.filter (fun n => routable excludeID n && negb (cast_out sg (hist (n_ID n)) now)) nodes.

(** The relays a round of reservations starts with: the first offered ones it has
    no loop for, as many as there is room. *)
Definition fresh (clients : gset string) (n : Node) : bool := negb (bool_decide (n_ID n ∈ clients)).
Definition to_reserve (clients : gset string) (room : Z) (nodes : list Node) : list string :=
  map n_ID (take (Z.to_nat room) (List.filter (fresh clients) nodes)).

Lemma to_reserve_skip clients n room nodes : n_ID n ∈ clients -> to_reserve clients room (n :: nodes) = to_reserve clients room nodes.
Proof. intros H. unfold to_reserve. cbn [List.filter]. unfold fresh at 1. by rewrite bool_decide_true. Qed.

Lemma to_reserve_start clients n room nodes :
  0 < room -> n_ID n ∉ clients -> n_ID n ∉ map n_ID nodes ->
  to_reserve clients room (n :: nodes) = n_ID n :: to_reserve ({[n_ID n]} ∪ clients) (room - 1) nodes.
Proof.
  intros Hr Hn Hnot. unfold to_reserve. cbn [List.filter]. unfold fresh at 1. rewrite bool_decide_false by done. cbn [negb].
  replace (Z.to_nat room) with (S (Z.to_nat (room - 1))) by lia. cbn [take map]. do 3 f_equal.
  apply List.filter_ext_in. intros m Hm. unfold fresh. f_equal. apply bool_decide_ext.
  assert (n_ID m <> n_ID n) by (intros E; apply Hnot; rewrite <- E; apply list_elem_of_In, in_map, Hm). set_solver.
Qed.

Section Rounds.
Context (sg : scoring) (HL : 0 < sg_strikeLimit sg).

Lemma offered_cons hist now excl n nodes :
  offered sg hist now excl (n :: nodes) =
  if routable excl n && negb (cast_out sg (hist (n_ID n)) now) then n :: offered sg hist now excl nodes else offered sg hist now excl nodes.
Proof using Type. done. Qed.

Lemma offered_sub hist now excl nodes : map n_ID (offered sg hist now excl nodes) `sublist_of` map n_ID nodes.
Proof using Type.
  induction nodes as [|n nodes IH]; [done|]. rewrite offered_cons. cbn [map]. destruct (_ && _); cbn [map]; [by apply sublist_skip|by apply sublist_cons].
Qed.

Lemma probe_targets_ok hist T now self nodes room st :
  T <= now -> all_stand sg hist T st ->
  let '(st', ids) := probe_targets now self nodes room st in
  all_stand sg hist now st' /\ (forall id, id ∈ ids -> rp_excommunions st' !! id = None) /\
  ids = map n_ID (take room (offered sg hist now self nodes)) /\
  (forall id, rp_excommunions st !! id = None -> rp_excommunions st' !! id = None).
Proof using Type.
  revert T room st. induction nodes as [|n nodes IH]; intros T room st Hle Ha; cbn [probe_targets].
  { destruct room; split_and!; try done; try (intros id; by eapply stands_later); intros id Hid; by apply not_elem_of_nil in Hid. }
  destruct room as [|room].
  { split_and!; try done; [intros id; by eapply stands_later|intros id Hid; by apply not_elem_of_nil in Hid]. }
  rewrite offered_cons. unfold routable. destruct (_ || _); cbn [negb andb].
  { specialize (IH T (S room) st Hle Ha). by destruct (probe_targets _ _ _ _ _) as [st' ids]. }
  pose proof (all_query sg hist T now (n_ID n) st Hle Ha) as Hq. destruct (isExcommunicated now (n_ID n) st) as [st1 out].
  destruct Hq as (<- & Ha1 & Hnone & Hkeep). destruct out; cbn [negb].
  - specialize (IH now (S room) st1 ltac:(lia) Ha1). destruct (probe_targets _ _ _ _ _) as [st' ids]. destruct IH as (I1 & I2 & I3 & I4).
    split_and!; try done. auto.
  - specialize (IH now room st1 ltac:(lia) Ha1). destruct (probe_targets _ _ _ _ _) as [st' ids]. destruct IH as (I1 & I2 & -> & I4).
    split_and!; try done; [|auto]. intros id [->|Hid]%elem_of_cons; auto.
Qed.

Lemma challenges_app id a b : challenges id (a ++ b) = challenges id a ++ challenges id b.
Proof using Type. unfold challenges. by rewrite List.filter_app, map_app. Qed.

Lemma record_all hist now made st :
  all_stand sg hist now st -> NoDup (map fst made) -> (forall id, id ∈ map fst made -> rp_excommunions st !! id = None) ->
  all_stand sg (fun id => hist id ++ challenges id (map (fun e => (e.1, (now, e.2))) made)) now
    (fold_left (fun st e => recordProbe sg now e.1 e.2 st) made st).
Proof using HL.
  revert hist st. induction made as [|[n ok] made IH]; intros hist st Ha Hnd Hn; cbn [fold_left map fst snd].
  - intros id. cbn. rewrite app_nil_r. apply Ha.
  - cbn [map fst] in Hnd, Hn. apply NoDup_cons in Hnd as [Hni Hnd].
    set (hist1 id := if String.eqb n id then hist id ++ [(now, ok)] else hist id).
    assert (Ha1 : all_stand sg hist1 now (recordProbe sg now n ok st)).
    { intros id. subst hist1. cbn. destruct (String.eqb_spec n id) as [<-|Hne].
      - apply record_stands; [done|apply Hn; apply list_elem_of_here|apply Ha].
      - destruct (record_other sg now n id ok st ltac:(congruence)) as [-> ->]. apply Ha. }
    specialize (IH hist1 _ Ha1 Hnd). intros id. assert (He : forall i, i ∈ map fst made -> rp_excommunions (recordProbe sg now n ok st) !! i = None).
    { intros i Hi. destruct (record_other sg now n i ok st) as [_ ->]; [by intros ->|]. apply Hn. by apply list_elem_of_further. }
    specialize (IH He id). subst hist1. cbn in IH. unfold challenges at 1. cbn [List.filter fst]. destruct (String.eqb n id); [|done].
    cbn [map snd]. by rewrite <- app_assoc in IH.
Qed.

Lemma relayPeers_ok hist T now nodes excl st :
  T <= now -> all_stand sg hist T st ->
  let '(st', relays) := relayPeers now nodes excl st in
  all_stand sg hist now st' /\ relays = map relay_peer (offered sg hist now excl nodes).
Proof using Type.
  revert T st. induction nodes as [|n nodes IH]; intros T st Hle Ha; cbn [relayPeers].
  { split; [|done]. intros id. by eapply stands_later. }
  rewrite offered_cons. unfold routable at 1. destruct (_ || _); cbn [negb andb].
  { specialize (IH T st Hle Ha). destruct (relayPeers now nodes excl st). done. }
  pose proof (all_query sg hist T now (n_ID n) st Hle Ha) as Hq. destruct (isExcommunicated now (n_ID n) st) as [st1 out].
  destruct Hq as (Hout & Ha1 & _). specialize (IH now st1 ltac:(lia) Ha1). destruct (relayPeers now nodes excl st1) as [st' rest].
  destruct IH as [I1 ->]. split; [done|]. rewrite Hout. by destruct (cast_out _ _ _).
Qed.

(** Reservations are started with exactly the first offered relays not reserved with
    yet, while there is room. *)
Lemma reserve_loop_ok hist T now self nodes active clients st :
  T <= now -> all_stand sg hist T st ->
  let '(st', clients', started) := reserve_loop now self nodes active clients st in
  all_stand sg hist now st' /\ clients' = clients ∪ list_to_set started /\
  (NoDup (map n_ID nodes) -> started = to_reserve clients (maxReservationRelays - active) (offered sg hist now self nodes)).
Proof using HL.
  revert T active clients st. induction nodes as [|n nodes IH]; intros T active clients st Hle Ha; cbn [reserve_loop].
  { split; [intros id; eapply stands_later; [done|apply Ha]|]. split; [set_solver|]. intros _. unfold to_reserve. cbn. by rewrite take_nil. }
  destruct (Z.leb_spec maxReservationRelays active) as [Hm|Hm].
  { split; [intros id; eapply stands_later; [done|apply Ha]|]. split; [set_solver|]. intros _. unfold to_reserve.
    by replace (Z.to_nat (maxReservationRelays - active)) with 0%nat by lia. }
  rewrite offered_cons. unfold routable. destruct (_ || _); cbn [negb andb map].
  { specialize (IH T active clients st Hle Ha). destruct (reserve_loop _ _ _ _ _ _) as [[st' c'] s']. destruct IH as (I1 & I2 & I3).
    split_and!; try done. intros [_ Hnd]%NoDup_cons. by apply I3. }
  pose proof (all_query sg hist T now (n_ID n) st Hle Ha) as Hq. destruct (isExcommunicated now (n_ID n) st) as [st1 out].
  destruct Hq as (<- & Ha1 & _). destruct out; cbn [negb].
  { specialize (IH now active clients st1 ltac:(lia) Ha1). destruct (reserve_loop _ _ _ _ _ _) as [[st' c'] s']. destruct IH as (I1 & I2 & I3).
    split_and!; try done. intros [_ Hnd]%NoDup_cons. by apply I3. }
  destruct (bool_decide_reflect (n_ID n ∈ clients)) as [Hin|Hni].
  { specialize (IH now active clients st1 ltac:(lia) Ha1). destruct (reserve_loop _ _ _ _ _ _) as [[st' c'] s']. destruct IH as (I1 & I2 & I3).
    split_and!; try done. intros [_ Hnd]%NoDup_cons. rewrite to_reserve_skip by done. by apply I3. }
  specialize (IH now (active + 1) ({[n_ID n]} ∪ clients) st1 ltac:(lia) Ha1).
  destruct (reserve_loop _ _ _ _ _ _) as [[st' c'] s']. destruct IH as (I1 & I2 & I3). split_and!; [done|set_solver|].
  intros [Hnot Hnd]%NoDup_cons. rewrite to_reserve_start; [|lia|done|].
  - rewrite I3 by done. do 2 f_equal. lia.
  - intros Hin. apply Hnot. pose proof (offered_sub hist now self nodes) as Hsub. by eapply elem_of_sublist.
Qed.

Lemma ensureReservations_ok hist T now needs self nodes clients st :
  T <= now -> all_stand sg hist T st ->
  let '(st', clients', started) := ensureReservations now needs self nodes clients st in
  all_stand sg hist now st' /\ clients' = clients ∪ list_to_set started /\
  (NoDup (map n_ID nodes) ->
    started = if needs then to_reserve clients (maxReservationRelays - Z.of_nat (size clients)) (offered sg hist now self nodes) else []).
Proof using HL.
  intros Hle Ha. unfold ensureReservations. destruct needs; [by eapply reserve_loop_ok|]. cbn [negb].
  split; [intros id; eapply stands_later; [done|apply Ha]|]. split; [set_solver|done].
Qed.

Lemma probeRound_targets hist T now self nodes outcome st :
  T <= now -> all_stand sg hist T st ->
  (probeRound sg now self nodes outcome st).2 =
    map (fun n => (n_ID n, outcome (n_ID n))) (take maxProbeRelays (offered sg hist now self nodes)).
Proof using Type.
  intros Hle Ha. unfold probeRound. pose proof (probe_targets_ok hist T now self nodes maxProbeRelays st Hle Ha) as Ht.
  destruct (probe_targets _ _ _ _ _) as [st1 ids]. destruct Ht as (_ & _ & -> & _). cbn [snd]. by rewrite map_map.
Qed.

Lemma rep_step_ok T s op :
  T <= rep_time op -> rep_wf op -> all_stand sg (fun id => challenges id s.2) T s.1 ->
  all_stand sg (fun id => challenges id (rep_step sg s op).2) (rep_time op) (rep_step sg s op).1.
Proof using HL.
  destruct s as [st log]. cbn [fst snd]. intros Hle Hwf Ha. destruct op as [now self nodes outcome|now id|now nodes excl|now needs self nodes clients]; cbn [rep_step rep_time] in *.
  - unfold probeRound. pose proof (probe_targets_ok _ T now self nodes maxProbeRelays st Hle Ha) as Ht.
    destruct (probe_targets _ _ _ _ _) as [st1 ids]. destruct Ht as (Ha1 & Hn & Hids & _). cbn [fst snd]. set (made := map (fun id => (id, outcome id)) ids).
    assert (Hfst : map fst made = ids) by (subst made; rewrite map_map; apply map_id).
    pose proof (record_all _ now made st1 Ha1) as Hr. rewrite Hfst in Hr. intros id. rewrite challenges_app. apply Hr; [|done].
    eapply sublist_NoDup; [exact Hwf|]. rewrite Hids, <- firstn_map. etransitivity; [apply sublist_take|apply offered_sub].
  - pose proof (all_query sg _ T now id st Hle Ha) as Hq. destruct (isExcommunicated now id st) as [st' out]. apply Hq.
  - pose proof (relayPeers_ok _ T now nodes excl st Hle Ha) as Hq. destruct (relayPeers now nodes excl st) as [st' rs]. apply Hq.
  - pose proof (ensureReservations_ok _ T now needs self nodes clients st Hle Ha) as Hq. destruct (ensureReservations _ _ _ _ _ _) as [[st' c'] s']. apply Hq.
Qed.

Lemma rep_run_ok T ops :
  Forall rep_wf ops -> StronglySorted Z.le (map rep_time ops ++ [T]) ->
  let '(st, log) := fold_left (rep_step sg) ops (mkStanding ∅ ∅, []) in all_stand sg (fun id => challenges id log) T st.
Proof using HL.
  revert T. induction ops as [|op ops IH] using rev_ind; intros T Hwf Hs.
  - intros id. cbn [fold_left challenges map List.filter]. unfold rp_strikes, rp_excommunions. rewrite !lookup_empty. split; [cbn; by rewrite Z.mod_0_l by lia|done].
  - apply Forall_app in Hwf as [Hwf [Hop _]%Forall_cons]. rewrite map_app in Hs.
    assert (HT : rep_time op <= T) by (apply (StronglySorted_app_1_elem_of _ _ _ _ _ Hs); [cbn; set_solver|set_solver]).
    apply StronglySorted_app_1_l in Hs. specialize (IH (rep_time op) Hwf Hs). rewrite fold_left_app. cbn [fold_left].
    destruct (fold_left (rep_step sg) ops _) as [st log]. pose proof (rep_step_ok (rep_time op) (st, log) op ltac:(lia) Hop IH) as H.
    destruct (rep_step sg (st, log) op) as [st' log']. intros id. eapply stands_later; [exact HT|apply H].
Qed.
End Rounds.

(** C28: The standing of relays is a function of their recent challenges.  After any
    sequence of probe rounds, queries, route selections and reservation rounds, made
    under a clock that does not run backwards and over node tables that hold each ID
    once, a relay is excluded at [now] exactly when its last challenge completed a
    group of [strikeLimit] consecutive failures and the penance has not passed since,
    whatever was queried, and so lifted, in between.  The three uses of a standing
    then leave out exactly the excluded: the relays offered for routing are all the
    keyed, capable nodes other than the one named that are not cast out; a probe round
    challenges the first [maxProbeRelays] of them; and a reservation round starts a
    loop with the first of them it has none for, up to [maxReservationRelays] in all,
    if the node needs a relay, and otherwise with none. *)
Theorem reputation_history strikeLimit penance ops now :
  Forall rep_wf ops -> StronglySorted Z.le (map rep_time ops ++ [now]) ->
  let sg := SetRelayScoring strikeLimit penance in
  let '(st, log) := fold_left (rep_step sg) ops (mkStanding ∅ ∅, []) in
  let hist id := challenges id log in
  (forall id, (isExcommunicated now id st).2 = cast_out sg (hist id) now) /\
  (forall nodes excl, (relayPeers now nodes excl st).2 = map relay_peer (offered sg hist now excl nodes)) /\
  (forall nodes self outcome, (probeRound sg now self nodes outcome st).2 =
    map (fun n => (n_ID n, outcome (n_ID n))) (take maxProbeRelays (offered sg hist now self nodes))) /\
  forall nodes self needs clients, NoDup (map n_ID nodes) ->
    let '(_, clients', started) := ensureReservations now needs self nodes clients st in
    clients' = clients ∪ list_to_set started /\
    started = if needs then to_reserve clients (maxReservationRelays - Z.of_nat (size clients)) (offered sg hist now self nodes) else [].
Proof.
  intros Hwf Hs sg. assert (HL : 0 < sg_strikeLimit sg) by (subst sg; cbn; destruct (Z.leb_spec strikeLimit 0); [done|lia]).
  pose proof (rep_run_ok sg HL now ops Hwf Hs) as Ha. destruct (fold_left _ ops _) as [st log]. cbv zeta. split_and!.
  - intros id. pose proof (all_query sg _ now now id st ltac:(lia) Ha) as Hq. destruct (isExcommunicated now id st) as [st' out]. apply Hq.
  - intros nodes excl. pose proof (relayPeers_ok sg _ now now nodes excl st ltac:(lia) Ha) as Hq. destruct (relayPeers now nodes excl st) as [st' rs]. apply Hq.
  - intros nodes self outcome. apply (probeRound_targets sg _ now); [lia|exact Ha].
  - intros nodes self needs clients Hnd. pose proof (ensureReservations_ok sg HL _ now now needs self nodes clients st ltac:(lia) Ha) as Hq.
    destruct (ensureReservations _ _ _ _ _ _) as [[st' c'] s']. destruct Hq as (_ & H1 & H2). auto.
Qed.

(** At most [maxReservationRelays] reservation loops are started. *)
Lemma reserve_loop_bound now self nodes active clients st :
  Z.of_nat (size clients) <= active ->
  Z.of_nat (size (reserve_loop now self nodes active clients st).1.2) <= Z.max active maxReservationRelays.
Proof.
  revert active clients st. induction nodes as [|n nodes IH]; intros active clients st Hc; cbn [reserve_loop]; [cbn [fst snd]; lia|].
  destruct (Z.leb_spec maxReservationRelays active) as [Hm|Hm]; [cbn [fst snd]; lia|]. destruct (_ || _); [by apply IH|].
  destruct (isExcommunicated now (n_ID n) st) as [st1 []]; [by apply IH|]. destruct (bool_decide_reflect (n_ID n ∈ clients)) as [|Hni]; [by apply IH|].
  assert (Hsz : Z.of_nat (size ({[n_ID n]} ∪ clients)) <= active + 1) by (rewrite size_union, size_singleton by set_solver; lia).
  specialize (IH (active + 1) ({[n_ID n]} ∪ clients) st1 Hsz). destruct (reserve_loop _ _ _ _ _ _) as [[st2 c2] s2]. cbn [fst snd] in *. lia.
Qed.

(** ** Witness *)

Definition sample_relay (id : string) : Node := mkNode 0 id "h:1" 0 5 true [x01] [] 0 ["relay"] [] [].

(** Three rounds in which relay [a] fails and relay [b] does not. *)
Definition sample_rounds : list rep_op :=
  map (fun i => RRound (Z.of_nat i) "self" [sample_relay "a"; sample_relay "b"] (fun id => String.eqb id "b")) (seq 1 3).

Lemma reputation_history_witness :
  let ops := sample_rounds in
  let st := (fold_left (rep_step (SetRelayScoring 3 10)) ops (mkStanding ∅ ∅, [])).1 in
  map pe_ID (relayPeers 4 [sample_relay "a"; sample_relay "b"] "z" st).2 = ["b"] /\
  map pe_ID (relayPeers 13 [sample_relay "a"; sample_relay "b"] "z" st).2 = ["a"; "b"] /\
  (probeRound (SetRelayScoring 3 10) 4 "self" [sample_relay "a"; sample_relay "b"] (fun _ => true) st).2 = [("b", true)] /\
  (ensureReservations 4 true "self" [sample_relay "a"; sample_relay "b"] ∅ st).2 = ["b"].
Proof.
  cbv zeta. set (ops := sample_rounds).
  assert (Hwf : Forall rep_wf ops) by (repeat constructor; set_solver).
  assert (Hs : forall t, 4 <= t -> StronglySorted Z.le (map rep_time ops ++ [t])) by (intros t Ht; repeat constructor; cbn; lia).
  pose proof (reputation_history 3 10 ops 4 Hwf (Hs 4 ltac:(lia))) as H4. pose proof (reputation_history 3 10 ops 13 Hwf (Hs 13 ltac:(lia))) as H13.
  cbv zeta in H4, H13. destruct (fold_left (rep_step (SetRelayScoring 3 10)) ops (mkStanding ∅ ∅, [])) as [st log] eqn:E.
  assert (Hlog : log = (fold_left (rep_step (SetRelayScoring 3 10)) ops (mkStanding ∅ ∅, [])).2) by (rewrite E; reflexivity).
  destruct H4 as (_ & H4 & P4 & R4), H13 as (_ & H13 & _). specialize (R4 [sample_relay "a"; sample_relay "b"] "self" true ∅).
  assert (Hnd : NoDup (map n_ID [sample_relay "a"; sample_relay "b"])) by (repeat constructor; set_solver).
  specialize (R4 Hnd). cbn [fst]. destruct (ensureReservations _ _ _ _ _ _) as [[st' c'] s']. destruct R4 as [_ R4]. cbn [snd].
  rewrite H4, H13, P4, R4, Hlog. repeat split; vm_compute; reflexivity.
Defined.
