(* ===== verification/Chunks.v ===== *)
(** * The local chunk store (internal/storage/storage.go)

    The plaintext chunks a sender keeps and their metadata: [SaveChunk],
    [LoadChunk], [GetChunkMeta] and [CleanupOldChunks], and the stored nodes.

    A directory is a map from file names to bytes, [chunks] one of directories; reads
    and writes succeed.  The JSON text of the metadata and of a node is a parameter
    ([StoreJson]) with the round trip the code relies on ([StoreJsonLaws]). *)

From S2P Require Import Prelude Wire Dht PeerTable Routing Offline.

Record ChunkMeta : Type := mkChunkMeta {
  cm_ID : bytes;
  cm_TotalChunks : Z;
  cm_ChunkSize : Z;
  cm_Timestamp : Z;
  cm_DestGroup : string;
  cm_DestNode : string
}.

(** The Go types of the fields; JSON text is UTF-8, so the names are kept to ASCII. *)
Definition ascii_str (s : string) : Prop := Forall (fun b => byte_to_Z b < 128) (str_bytes s).

Record wf_meta (m : ChunkMeta) : Prop := {
  wm_ID : length (cm_ID m) = 32%nat;
  wm_Total : is_u32 (cm_TotalChunks m);
  wm_Size : is_u32 (cm_ChunkSize m);
  wm_Time : is_i64 (cm_Timestamp m);
  wm_Group : ascii_str (cm_DestGroup m);
  wm_Node : ascii_str (cm_DestNode m)
}.

Class StoreJson := {
  meta_enc : ChunkMeta -> bytes;
  meta_dec : bytes -> option ChunkMeta;
  node_enc : Node -> bytes;
  node_dec : bytes -> option Node
}.

Class StoreJsonLaws (J : StoreJson) : Prop := {
  meta_roundtrip m : wf_meta m -> meta_dec (meta_enc m) = Some m
}.

Record Storage : Type := mkStorage {
  so_nodes : gmap string bytes;
  so_chunks : gmap string (gmap string bytes);
  so_meta : gmap string bytes
}.

Definition chunk_name (chunkNum : Z) : string := bytes_str (dec_bytes chunkNum ++ str_bytes ".chunk").
Definition json_name (base : string) : string := bytes_str (str_bytes base ++ str_bytes ".json").

(** [filepath.Ext(name) == ".json"]. *)
Definition is_json_file (name : string) : bool :=
  let l := str_bytes name in bool_decide (drop (length l - 5) l = str_bytes ".json").

(** [time.Time.Sub], which saturates. *)
Definition time_Sub (a b : Z) : Z := Z.max (- 2 ^ 63) (Z.min (2 ^ 63 - 1) (a - b)).

Section Store.
Context `{J : StoreJson}.

Definition SaveChunk (s : Storage) (id : bytes) (chunkNum : Z) (data : bytes) (meta : ChunkMeta) : Storage :=
  let hexID := EncodeToString id in
  let dir := default ∅ (so_chunks s !! hexID) in
  let s := mkStorage (so_nodes s) (<[hexID := <[chunk_name chunkNum := data]> dir]> (so_chunks s)) (so_meta s) in
  if chunkNum =? 1 then mkStorage (so_nodes s) (so_chunks s) (<[json_name hexID := meta_enc meta]> (so_meta s)) else s.

Definition LoadChunk (s : Storage) (id : bytes) (chunkNum : Z) : option bytes :=
  so_chunks s !! EncodeToString id ≫= lookup (chunk_name chunkNum).

Definition GetChunkMeta (s : Storage) (id : bytes) : option ChunkMeta := so_meta s !! json_name (EncodeToString id) ≫= meta_dec.

Definition cleanup_one (now maxAge : Z) (s : Storage) (file : string * bytes) : Storage :=
  if negb (is_json_file file.1) then s
  else
    match meta_dec file.2 with
    | None => s
    | Some meta =>
        if maxAge <? time_Sub now (cm_Timestamp meta)
        then mkStorage (so_nodes s) (delete (EncodeToString (cm_ID meta)) (so_chunks s)) (delete file.1 (so_meta s))
        else s
    end.

Definition CleanupOldChunks (s : Storage) (now maxAge : Z) : Storage := fold_left (cleanup_one now maxAge) (ReadDir (so_meta s)) s.

Definition SaveNode (s : Storage) (node : Node) : Storage :=
  mkStorage (<[json_name (n_ID node) := node_enc node]> (so_nodes s)) (so_chunks s) (so_meta s).

Definition LoadNodes (s : Storage) : list Node :=
  omap (fun file => if is_json_file file.1 then node_dec file.2 else None) (ReadDir (so_nodes s)).
End Store.

(** ** Names *)

Lemma json_name_inj a b : json_name a = json_name b -> a = b.
Proof.
  unfold json_name. intros H. apply (f_equal str_bytes) in H. rewrite !bytes_str_bytes in H.
  apply app_inj_2 in H as [H _]; [|done]. by apply str_bytes_inj.
Qed.

Lemma is_json_name a : is_json_file (json_name a) = true.
Proof.
  unfold is_json_file, json_name. rewrite bytes_str_bytes, length_app.
  replace (length (str_bytes a) + length (str_bytes ".json") - 5)%nat with (length (str_bytes a)) by (cbn; lia).
  rewrite drop_app_length. by apply bool_decide_eq_true.
Qed.

Lemma chunk_name_inj a b : is_u32 a -> is_u32 b -> chunk_name a = chunk_name b -> a = b.
Proof.
  unfold chunk_name, is_u32. intros Ha Hb H. apply (f_equal str_bytes) in H. rewrite !bytes_str_bytes in H.
  apply app_inj_2 in H as [H _]; [|done]. apply blob_name_inj; try (unfold is_u64; lia). unfold blob_name. by rewrite H.
Qed.

(** ** The store refines a map from transfers to their chunks *)

(** A store's contents: the chunks of each transfer, and its metadata. *)
Record contents : Type := mkContents { ct_chunks : gmap bytes (gmap Z bytes); ct_meta : gmap bytes ChunkMeta }.

Definition too_old (now maxAge : Z) (m : ChunkMeta) : bool := maxAge <? time_Sub now (cm_Timestamp m).

Inductive chunk_op : Type :=
  | KSave (id : bytes) (chunkNum : Z) (data : bytes) (meta : ChunkMeta)
  | KCleanup (now maxAge : Z).

Definition forget (id : bytes) (c : contents) : contents := mkContents (delete id (ct_chunks c)) (delete id (ct_meta c)).

(** The transfers whose metadata is too old. *)
Definition outdated (now maxAge : Z) (c : contents) : gset bytes :=
  dom (filter (fun e => too_old now maxAge e.2 = true) (ct_meta c)).

Definition contents_step (c : contents) (op : chunk_op) : contents :=
  match op with
  | KSave id n data meta =>
      mkContents (<[id := <[n := data]> (default ∅ (ct_chunks c !! id))]> (ct_chunks c))
        (if n =? 1 then <[id := meta]> (ct_meta c) else ct_meta c)
  | KCleanup now maxAge =>
      let old := outdated now maxAge c in
      mkContents (filter (fun e => e.1 ∉ old) (ct_chunks c)) (filter (fun e => e.1 ∉ old) (ct_meta c))
  end.

Definition chunk_step `{J : StoreJson} (s : Storage) (op : chunk_op) : Storage :=
  match op with KSave id n data meta => SaveChunk s id n data meta | KCleanup now maxAge => CleanupOldChunks s now maxAge end.

Definition op_wf (op : chunk_op) : Prop :=
  match op with KSave id n _ meta => is_u32 n /\ wf_meta meta /\ cm_ID meta = id | KCleanup _ _ => True end.

Section Refinement.
Context `{J : StoreJson} `{JL : !StoreJsonLaws J}.

Definition meta_of (id : bytes) : string := json_name (EncodeToString id).

Record holds (s : Storage) (c : contents) : Prop := {
  hd_files f b : so_meta s !! f = Some b -> exists id, f = meta_of id;
  hd_meta id : so_meta s !! meta_of id = meta_enc <$> ct_meta c !! id;
  hd_wf id m : ct_meta c !! id = Some m -> wf_meta m /\ cm_ID m = id;
  hd_chunks id n : is_u32 n -> LoadChunk s id n = default ∅ (ct_chunks c !! id) !! n
}.

Lemma meta_of_inj a b : meta_of a = meta_of b -> a = b.
Proof. intros H. by apply EncodeToString_inj, json_name_inj. Qed.

Lemma save_holds s c id n data meta :
  holds s c -> op_wf (KSave id n data meta) -> holds (SaveChunk s id n data meta) (contents_step c (KSave id n data meta)).
Proof using.
  intros [Hf Hm Hw Hc] (Hn & Hwm & Hid). unfold SaveChunk. cbn [contents_step so_meta so_chunks so_nodes].
  assert (Hch : forall id' n' meta', is_u32 n' ->
    LoadChunk (mkStorage (so_nodes s) (<[EncodeToString id := <[chunk_name n := data]> (default ∅ (so_chunks s !! EncodeToString id))]> (so_chunks s)) meta') id' n' =
    default ∅ (<[id := <[n := data]> (default ∅ (ct_chunks c !! id))]> (ct_chunks c) !! id') !! n').
  { intros id' n' meta' Hn'. unfold LoadChunk. cbn [so_chunks]. pose proof (Hc id' n' Hn') as H. unfold LoadChunk in H.
    destruct (decide (id' = id)) as [->|Hne].
    - rewrite !lookup_insert_eq. cbn. destruct (decide (n' = n)) as [->|Hnn]; [by rewrite !lookup_insert_eq|].
      rewrite !lookup_insert_ne; [|done|by intros ?%chunk_name_inj]. rewrite <- H. by destruct (so_chunks s !! _).
    - rewrite !lookup_insert_ne; [done|done|by intros ?%EncodeToString_inj]. }
  destruct (n =? 1); split; cbn [so_meta ct_meta ct_chunks]; try done; try (intros; by apply Hch).
  - intros f b [[<- <-]|[Hne Hb]]%lookup_insert_Some; [by exists id|by eapply Hf].
  - intros id'. destruct (decide (id' = id)) as [->|Hne]; [by rewrite !lookup_insert_eq|].
    rewrite !lookup_insert_ne; [apply Hm|done|by intros ?%meta_of_inj].
  - intros id' m [[<- <-]|[_ H]]%lookup_insert_Some; [done|by apply Hw].
Qed.

Lemma forget_holds s c id :
  holds s c -> holds (mkStorage (so_nodes s) (delete (EncodeToString id) (so_chunks s)) (delete (meta_of id) (so_meta s))) (forget id c).
Proof using.
  intros [Hf Hm Hw Hc]. split; cbn [so_meta so_chunks forget ct_meta ct_chunks].
  - intros f b [_ Hb]%lookup_delete_Some. by eapply Hf.
  - intros id'. destruct (decide (id' = id)) as [->|Hne]; [by rewrite !lookup_delete_eq|].
    rewrite !lookup_delete_ne; [apply Hm|done|by intros ?%meta_of_inj].
  - intros id' m [_ H]%lookup_delete_Some. by apply Hw.
  - intros id' n Hn. unfold LoadChunk. cbn [so_chunks]. pose proof (Hc id' n Hn) as H. unfold LoadChunk in H.
    destruct (decide (id' = id)) as [->|Hne]; [by rewrite !lookup_delete_eq|].
    rewrite !lookup_delete_ne; [done|done|by intros ?%EncodeToString_inj].
Qed.

(** The clean-up forgets the outdated ones among the files it has come across. *)
Definition forget_old (now maxAge : Z) (c : contents) (e : bytes * ChunkMeta) : contents := if too_old now maxAge e.2 then forget e.1 c else c.

Lemma cleanup_fold now maxAge (l : list (bytes * ChunkMeta)) s c :
  holds s c -> Forall (fun e => wf_meta e.2 /\ cm_ID e.2 = e.1) l ->
  holds (fold_left (cleanup_one now maxAge) (map (fun e => (meta_of e.1, meta_enc e.2)) l) s) (fold_left (forget_old now maxAge) l c).
Proof using JL.
  revert s c. induction l as [|[id m] l IH]; intros s c Hh Hl; [done|]. apply Forall_cons in Hl as [[Hwm Hid] Hl]. cbn [map fold_left].
  apply IH; [|done]. unfold cleanup_one. cbn [fst snd] in *. unfold meta_of at 1. rewrite is_json_name. cbn [negb].
  rewrite meta_roundtrip by done. unfold forget_old, too_old. cbn [fst snd].
  destruct (maxAge <? _); [|done]. rewrite Hid. by apply forget_holds.
Qed.

Lemma forget_old_fold now maxAge l c :
  let old : gset bytes := list_to_set (map fst (List.filter (fun e => too_old now maxAge e.2) l)) in
  fold_left (forget_old now maxAge) l c =
  mkContents (filter (fun e => e.1 ∉ old) (ct_chunks c)) (filter (fun e => e.1 ∉ old) (ct_meta c)).
Proof.
  revert c. induction l as [|[id m] l IH]; intros [ch me].
  - cbn. rewrite !map_filter_id; [done|set_solver..].
  - cbn [fold_left List.filter]. rewrite IH. unfold forget_old. cbn [fst snd]. destruct (too_old now maxAge m); [|done].
    cbn [forget ct_chunks ct_meta map fst list_to_set]. f_equal.
    + apply map_eq; intros k. apply option_eq; intros x. rewrite !map_lookup_filter_Some, lookup_delete_Some. cbn. set_solver.
    + apply map_eq; intros k. apply option_eq; intros x. rewrite !map_lookup_filter_Some, lookup_delete_Some. cbn. set_solver.
Qed.

(** The metadata files a clean-up reads. *)
Lemma meta_files s c : holds s c ->
  exists l, ReadDir (so_meta s) = map (fun e => (meta_of e.1, meta_enc e.2)) l /\ forall id m, (id, m) ∈ l <-> ct_meta c !! id = Some m.
Proof using.
  intros [Hf Hm _ _].
  assert (Hsrc : forall f, f ∈ ReadDir (so_meta s) -> exists e, f = (meta_of e.1, meta_enc e.2) /\ ct_meta c !! e.1 = Some e.2).
  { intros [f b]. rewrite ReadDir_perm, elem_of_map_to_list. intros Hb. destruct (Hf f b Hb) as [id ->].
    rewrite Hm in Hb. apply fmap_Some in Hb as (m & Hm' & ->). by exists (id, m). }
  assert (Hl : exists l, ReadDir (so_meta s) = map (fun e => (meta_of e.1, meta_enc e.2)) l /\ Forall (fun e => ct_meta c !! e.1 = Some e.2) l).
  { revert Hsrc. generalize (ReadDir (so_meta s)). intros fs. induction fs as [|f fs IH]; intros Hs; [by exists []|].
    destruct (Hs f ltac:(left)) as (e & -> & He). destruct IH as (l & -> & Hl); [intros; apply Hs; by right|]. exists (e :: l). by repeat constructor. }
  destruct Hl as (l & Hl & Hall). exists l. split; [done|]. intros id m. split.
  - intros H. rewrite Forall_forall in Hall. by apply (Hall _ H).
  - intros H. assert (Hin : (meta_of id, meta_enc m) ∈ ReadDir (so_meta s)) by (rewrite ReadDir_perm, elem_of_map_to_list, Hm, H; done).
    rewrite Hl in Hin. apply list_elem_of_fmap in Hin as ([id' m'] & [= Hid _] & Hin). apply meta_of_inj in Hid as <-.
    rewrite Forall_forall in Hall. pose proof (Hall _ Hin) as H'. cbn in H'. congruence.
Qed.

Lemma cleanup_holds s c now maxAge : holds s c -> holds (CleanupOldChunks s now maxAge) (contents_step c (KCleanup now maxAge)).
Proof using JL.
  intros Hh. destruct (meta_files s c Hh) as (l & Hl & Hin). unfold CleanupOldChunks. rewrite Hl.
  pose proof (cleanup_fold now maxAge l s c Hh) as H. rewrite forget_old_fold in H. cbn [contents_step].
  replace (outdated now maxAge c) with (list_to_set (map fst (List.filter (fun e => too_old now maxAge e.2) l)) : gset bytes).
  - apply H. apply Forall_forall. intros [id m] Hx%Hin. by apply Hh.
  - apply set_eq. intros id. unfold outdated. rewrite elem_of_list_to_set, elem_of_dom. split.
    + intros ([id' m] & -> & [Hx Ho]%elem_of_filterb)%list_elem_of_fmap. exists m. apply map_lookup_filter_Some. split; [by apply Hin|done].
    + intros [m [Hx%Hin Ho]%map_lookup_filter_Some]. apply list_elem_of_fmap. exists (id, m). split; [done|]. by apply elem_of_filterb.
Qed.

Lemma chunk_run_holds ops s c : holds s c -> Forall op_wf ops -> holds (fold_left chunk_step ops s) (fold_left contents_step ops c).
Proof using JL.
  revert s c. induction ops as [|op ops IH]; intros s c Hh Ho; [done|]. apply Forall_cons in Ho as [H0 Ho]. cbn [fold_left].
  apply IH; [|done]. destruct op; [by apply save_holds|by apply cleanup_holds].
Qed.

(** The chunk store is a map: after any saves and clean-ups, loading a chunk gives the
    data last saved under its transfer and number, and the metadata is that of the
    last first chunk, except that a clean-up forgets exactly the transfers whose
    metadata is older than its limit — so never one whose first chunk was not saved. *)
Lemma chunk_store ops :
  Forall op_wf ops ->
  let s := fold_left chunk_step ops (mkStorage ∅ ∅ ∅) in
  let c := fold_left contents_step ops (mkContents ∅ ∅) in
  (forall id n, is_u32 n -> LoadChunk s id n = default ∅ (ct_chunks c !! id) !! n) /\
  forall id, GetChunkMeta s id = ct_meta c !! id.
Proof using JL.
  intros Ho s c. assert (Hh : holds s c).
  { apply chunk_run_holds; [|done]. split; intros; try done. }
  split; [intros; by apply Hh|]. intros id. unfold GetChunkMeta. fold (meta_of id). rewrite (hd_meta _ _ Hh).
  destruct (ct_meta c !! id) as [m|] eqn:E; [|done]. cbn. apply meta_roundtrip. by apply (hd_wf _ _ Hh id).
Qed.
End Refinement.
