(* ===== verification/Pool.v ===== *)
(** * Pooled connections and the hop trace (internal/transfer/connpool.go, tracing.go, transfer.go)

    The pool of idle outbound connections that one-shot packets share, and the bounded
    ring of recent hop events.

    A connection is a number.  The operations of the pool are atomic (they hold its
    lock); several senders interleave between them, so the pool is a step relation
    over the pool, the connections checked out and the ones closed. *)

From S2P Require Import Prelude.

Definition maxIdlePerAddr : nat := 4.
Definition connIdleTTL : Z := 30 * 1000000000.
Definition defaultTraceSize : nat := 256.

(** ** The pool *)

Record pooledConn : Type := mkPooled { pc_conn : nat; pc_lastUsed : Z }.
Record connPool : Type := mkConnPool { cp_idle : gmap string (list pooledConn); cp_closed : bool }.

Definition newConnPool : connPool := mkConnPool ∅ false.

Definition get (p : connPool) (addr : string) : connPool * option nat :=
  let q := default [] (cp_idle p !! addr) in
  match last q with
  | None => (p, None)
  | Some c =>
      (mkConnPool (if Nat.eqb (length q) 1 then delete addr (cp_idle p) else <[addr := take (length q - 1) q]> (cp_idle p)) (cp_closed p), Some (pc_conn c))
  end.

(** Returned are also the connections closed. *)
Definition put (p : connPool) (addr : string) (conn : nat) (now : Z) : connPool * list nat :=
  let q := default [] (cp_idle p !! addr) in
  if cp_closed p || (maxIdlePerAddr <=? length q)%nat then (p, [conn])
  else (mkConnPool (<[addr := q ++ [mkPooled conn now]]> (cp_idle p)) (cp_closed p), []).

Definition stale (now : Z) (c : pooledConn) : bool := pc_lastUsed c <? now - connIdleTTL.

Definition reap_one (now : Z) (st : connPool * list nat) (e : string * list pooledConn) : connPool * list nat :=
  let '(p, dead) := st in
  let kept := List.filter (fun c => negb (stale now c)) e.2 in
  let gone := List.filter (stale now) e.2 in
  (mkConnPool (if Nat.eqb (length kept) 0 then delete e.1 (cp_idle p) else <[e.1 := kept]> (cp_idle p)) (cp_closed p), dead ++ map pc_conn gone).

(** The map is ranged over in the order [ord]. *)
Definition reap (ord : gmap string (list pooledConn) -> list (string * list pooledConn)) (p : connPool) (now : Z) : connPool * list nat :=
  fold_left (reap_one now) (ord (cp_idle p)) (p, []).

Definition closeAll (ord : gmap string (list pooledConn) -> list (string * list pooledConn)) (p : connPool) : connPool * list nat :=
  (mkConnPool ∅ true, concat (map (fun e => map pc_conn e.2) (ord (cp_idle p)))).

(** ** Senders *)

(** The pool, every connection dialled so far with its address, the ones a sender has
    checked out, and the ones closed. *)
Record pool_state : Type := mkPoolState {
  po_pool : connPool;
  po_dialled : list string;
  po_out : gset nat;
  po_closed : gset nat
}.

Section Senders.
Context (ord : gmap string (list pooledConn) -> list (string * list pooledConn)).

Definition do_get (addr : string) (s : pool_state) : pool_state * option nat :=
  let '(p, c) := get (po_pool s) addr in
  (mkPoolState p (po_dialled s) (match c with Some c => {[c]} ∪ po_out s | None => po_out s end) (po_closed s), c).

Definition do_dial (addr : string) (s : pool_state) : pool_state * nat :=
  let c := length (po_dialled s) in (mkPoolState (po_pool s) (po_dialled s ++ [addr]) ({[c]} ∪ po_out s) (po_closed s), c).

Definition do_put (addr : string) (c : nat) (now : Z) (s : pool_state) : pool_state :=
  let '(p, closed) := put (po_pool s) addr c now in mkPoolState p (po_dialled s) (po_out s ∖ {[c]}) (list_to_set closed ∪ po_closed s).

Definition do_close (c : nat) (s : pool_state) : pool_state :=
  mkPoolState (po_pool s) (po_dialled s) (po_out s ∖ {[c]}) ({[c]} ∪ po_closed s).

Definition do_reap (now : Z) (s : pool_state) : pool_state :=
  let '(p, dead) := reap ord (po_pool s) now in mkPoolState p (po_dialled s) (po_out s) (list_to_set dead ∪ po_closed s).

Definition do_stop (s : pool_state) : pool_state :=
  let '(p, dead) := closeAll ord (po_pool s) in mkPoolState p (po_dialled s) (po_out s) (list_to_set dead ∪ po_closed s).

(** [wrote] tells of the first and the second write whether it succeeds, [up] whether
    a dial does. *)
Definition sendPooled (addr : string) (wrote : bool * bool) (up : bool) (now : Z) (s : pool_state) : pool_state * bool :=
  let fresh s :=
    if up then
      let '(s, c) := do_dial addr s in
      if wrote.2 then (do_put addr c now s, true) else (do_close c s, false)
    else (s, false) in
  match do_get addr s with
  | (s, Some c) => if wrote.1 then (do_put addr c now s, true) else fresh (do_close c s)
  | (s, None) => fresh s
  end.

(** One atomic step of a sender, the reaper or a stop; a sender returns or closes a
    connection it has checked out, to the address it was dialled for. *)
Inductive pool_step : pool_state -> pool_state -> Prop :=
  | step_get addr s : pool_step s (do_get addr s).1
  | step_dial addr s : pool_step s (do_dial addr s).1
  | step_put addr c now s : c ∈ po_out s -> po_dialled s !! c = Some addr -> pool_step s (do_put addr c now s)
  | step_close c s : c ∈ po_out s -> pool_step s (do_close c s)
  | step_reap now s : pool_step s (do_reap now s)
  | step_stop s : pool_step s (do_stop s).

Record pool_ok (s : pool_state) : Prop := {
  po_idle addr q : cp_idle (po_pool s) !! addr = Some q ->
    NoDup (map pc_conn q) /\ (length q <= maxIdlePerAddr)%nat /\
    Forall (fun x => po_dialled s !! pc_conn x = Some addr /\ (pc_conn x ∉ po_out s) /\ (pc_conn x ∉ po_closed s)) q;
  po_outs c : c ∈ po_out s -> (c < length (po_dialled s))%nat /\ (c ∉ po_closed s);
  po_closes c : c ∈ po_closed s -> (c < length (po_dialled s))%nat;
  po_stopped : cp_closed (po_pool s) = true -> cp_idle (po_pool s) = ∅
}.

Context (Hord : forall m, ord m ≡ₚ map_to_list m).

Lemma get_spec p addr :
  match get p addr with
  | (p', None) => p' = p
  | (p', Some c) => exists q x, cp_idle p !! addr = Some (q ++ [x]) /\ pc_conn x = c /\ cp_closed p' = cp_closed p /\
      cp_idle p' = match q with [] => delete addr (cp_idle p) | _ => <[addr := q]> (cp_idle p) end
  end.
Proof.
  unfold get. destruct (cp_idle p !! addr) as [q|] eqn:E; [|done]. change (default [] (Some q)) with q. destruct q as [|y q _] using rev_ind; [done|].
  rewrite last_snoc. exists q, y. split_and!; [done|done|done|]. cbn [cp_idle]. rewrite length_app. cbn [length].
  replace (length q + 1 - 1)%nat with (length q) by lia. rewrite take_app_length. destruct q; [done|]. cbn [length].
  destruct (Nat.eqb_spec (S (length q) + 1) 1); [lia|done].
Qed.

Lemma get_ok addr s : pool_ok s -> pool_ok (do_get addr s).1.
Proof.
  intros [Hi Ho Hc Hs]. unfold do_get. pose proof (get_spec (po_pool s) addr) as Hg. destruct (get (po_pool s) addr) as [p [c|]]; cbn [fst].
  2: { subst p. by split. }
  destruct Hg as (q & x & Hq & <- & Hcl & Hid). destruct (Hi addr (q ++ [x]) Hq) as (Hn & Hl & Hf). apply Forall_app in Hf as [Hf Hx].
  apply Forall_singleton in Hx as (Hd & Hxo & Hxc). rewrite map_app in Hn. apply NoDup_app in Hn as (Hn & Hdis & _).
  split; cbn [po_pool po_dialled po_out po_closed].
  - intros addr' q' Hq'. assert (Hcase : addr' = addr /\ q' = q /\ q <> [] \/ addr' <> addr /\ cp_idle (po_pool s) !! addr' = Some q').
    { rewrite Hid in Hq'. destruct q as [|y q]; [apply lookup_delete_Some in Hq' as [? ?]; right; by split|].
      apply lookup_insert_Some in Hq' as [[<- <-]|[? ?]]; [by left|right; by split]. }
    destruct Hcase as [(-> & -> & _)|[Hne Hq2]].
    + split_and!; [done|rewrite length_app in Hl; cbn in Hl; lia|]. apply Forall_forall. intros z Hz. rewrite Forall_forall in Hf. destruct (Hf z Hz) as (? & ? & ?).
      split_and!; [done| |done]. intros [Hzx%elem_of_singleton|?]%elem_of_union; [|done]. apply (Hdis (pc_conn z)); [by apply list_elem_of_fmap_2|rewrite Hzx; by left].
    + destruct (Hi addr' q' Hq2) as (? & ? & Hf2). split_and!; [done..|]. eapply Forall_impl; [exact Hf2|]. cbn. intros z (Hz & ? & ?). split_and!; [done| |done].
      intros [Hzx%elem_of_singleton|?]%elem_of_union; [|done]. congruence.
  - intros c [->%elem_of_singleton|Hin]%elem_of_union; [|by apply Ho]. split; [by eapply lookup_lt_Some|done].
  - done.
  - intros Hc'. rewrite Hcl in Hc'. rewrite (Hs Hc') in Hq. done.
Qed.

Lemma dial_ok addr s : pool_ok s -> pool_ok (do_dial addr s).1.
Proof.
  intros [Hi Ho Hc Hs]. unfold do_dial. cbn [fst]. split; cbn [po_pool po_dialled po_out po_closed].
  - intros a q Hq. destruct (Hi a q Hq) as (? & ? & Hf). split_and!; [done..|]. eapply Forall_impl; [exact Hf|]. cbn. intros x (Hd & ? & ?).
    pose proof (lookup_lt_Some _ _ _ Hd). split_and!; [by apply lookup_app_l_Some| |done]. intros [?%elem_of_singleton|?]%elem_of_union; [lia|done].
  - intros c [->%elem_of_singleton|Hin]%elem_of_union; rewrite length_app; cbn [length].
    + split; [lia|]. intros ?%Hc. lia.
    + destruct (Ho c Hin). split; [lia|done].
  - intros c Hin%Hc. rewrite length_app. lia.
  - done.
Qed.

Lemma close_ok c s : c ∈ po_out s -> pool_ok s -> pool_ok (do_close c s).
Proof.
  intros Hin [Hi Ho Hc Hs]. split; cbn [do_close po_pool po_dialled po_out po_closed].
  - intros a q Hq. destruct (Hi a q Hq) as (? & ? & Hf). split_and!; [done..|]. eapply Forall_impl; [exact Hf|]. cbn. intros x (Hd & ? & ?). split_and!; [done|set_solver|set_solver].
  - intros c' Hc'. destruct (Ho c' ltac:(set_solver)). split; [done|]. set_solver.
  - intros c' [->%elem_of_singleton|Hin']%elem_of_union; [by apply Ho|by apply Hc].
  - done.
Qed.

Lemma put_ok addr c now s : c ∈ po_out s -> po_dialled s !! c = Some addr -> pool_ok s -> pool_ok (do_put addr c now s).
Proof.
  intros Hin Hd Hok. pose proof (close_ok c s Hin Hok) as Hcl. destruct Hok as [Hi Ho Hc Hs]. unfold do_put, put.
  destruct (cp_closed (po_pool s)) eqn:Hcp; cbn [orb list_to_set].
  { rewrite union_empty_r_L. exact Hcl. }
  destruct (Nat.leb_spec maxIdlePerAddr (length (default [] (cp_idle (po_pool s) !! addr)))) as [Hfull|Hroom].
  { cbn [list_to_set]. rewrite union_empty_r_L. exact Hcl. }
  cbn [list_to_set]. rewrite union_empty_l_L. split; cbn [po_pool po_dialled po_out po_closed cp_idle cp_closed].
  - intros a q [[<- <-]|[Hne Hq]]%lookup_insert_Some.
    + assert (Hq : NoDup (map pc_conn (default [] (cp_idle (po_pool s) !! addr))) /\
        Forall (fun x => po_dialled s !! pc_conn x = Some addr /\ (pc_conn x ∉ po_out s) /\ (pc_conn x ∉ po_closed s)) (default [] (cp_idle (po_pool s) !! addr))).
      { destruct (cp_idle (po_pool s) !! addr) as [q|] eqn:E; [|split; constructor]. destruct (Hi addr q E) as (? & _ & ?). by split. }
      destruct Hq as [Hn Hf]. split_and!.
      * rewrite map_app. apply NoDup_app. split_and!; [done| |apply NoDup_singleton]. intros z (x & -> & Hx)%list_elem_of_fmap ?%list_elem_of_singleton.
        cbn in *. rewrite Forall_forall in Hf. destruct (Hf x Hx) as (_ & Hno & _). congruence.
      * rewrite length_app. cbn [length]. lia.
      * apply Forall_app. split; [|apply Forall_singleton; cbn; split_and!; [done|set_solver|by apply Ho]].
        eapply Forall_impl; [exact Hf|]. cbn. intros x (? & ? & ?). split_and!; [done|set_solver|done].
    + destruct (Hi a q Hq) as (? & ? & Hf). split_and!; [done..|]. eapply Forall_impl; [exact Hf|]. cbn. intros x (? & ? & ?). split_and!; [done|set_solver|done].
  - intros c' Hc'. apply Ho. set_solver.
  - done.
  - congruence.
Qed.

Abbreviation kept now q := (List.filter (fun c => negb (stale now c)) q).

Lemma reap_fold now l p dead :
  NoDup l.*1 ->
  let '(p', dead') := fold_left (reap_one now) l (p, dead) in
  cp_closed p' = cp_closed p /\
  (forall a q', cp_idle p' !! a = Some q' -> (exists q, (a, q) ∈ l /\ q' = kept now q) \/ (a ∉ l.*1) /\ cp_idle p !! a = Some q') /\
  (forall c, c ∈ dead' -> c ∈ dead \/ exists a q x, (a, q) ∈ l /\ x ∈ q /\ stale now x = true /\ pc_conn x = c).
Proof.
  revert p dead. induction l as [|[a q] l IH]; intros p dead Hn; cbn [fold_left].
  { split_and!; [done|intros; right; split; [apply not_elem_of_nil|done]|by left]. }
  cbn in Hn. apply NoDup_cons in Hn as [Ha Hn]. cbn [reap_one fst snd].
  match goal with |- context [fold_left _ l (?p1, ?d1)] => specialize (IH p1 d1 Hn) end.
  destruct (fold_left _ l _) as [p' dead']. destruct IH as (H1 & H2 & H3). split_and!; [done| |].
  - intros b q' Hb. destruct (H2 b q' Hb) as [(q2 & Hin & ->)|[Hnin Hp]]; [left; exists q2; split; [by right|done]|]. cbn [cp_idle] in Hp.
    destruct (Nat.eqb_spec (length (kept now q)) 0) as [_|_].
    + apply lookup_delete_Some in Hp as [Hne Hp]. right. split; [|done]. cbn. rewrite not_elem_of_cons. by split.
    + apply lookup_insert_Some in Hp as [[<- <-]|[Hne Hp]]; [left; exists q; split; [by left|done]|]. right. split; [|done]. cbn. rewrite not_elem_of_cons. by split.
  - intros c Hc. destruct (H3 c Hc) as [Hd|(b & q2 & x & Hin & Hx)]; [|right; exists b, q2, x; split; [by right|done]].
    apply elem_of_app in Hd as [Hd|(x & -> & Hx)%list_elem_of_fmap]; [by left|]. apply elem_of_filterb in Hx as [Hx Hst]. right. exists a, q, x. by split_and!; [left|..].
Qed.

Lemma ord_lookup (m : gmap string (list pooledConn)) a q : (a, q) ∈ ord m <-> m !! a = Some q.
Proof using Hord. by rewrite Hord, elem_of_map_to_list. Qed.

Lemma reap_ok now s : pool_ok s -> pool_ok (do_reap now s).
Proof using Hord.
  intros [Hi Ho Hc Hs]. unfold do_reap, reap.
  pose proof (reap_fold now (ord (cp_idle (po_pool s))) (po_pool s) []) as Hf. destruct (fold_left _ _ _) as [p dead].
  destruct Hf as (Hcl & Hid & Hdead); [rewrite Hord; apply NoDup_fst_map_to_list|].
  assert (Hd : forall c, c ∈ dead -> exists a q x, cp_idle (po_pool s) !! a = Some q /\ x ∈ q /\ stale now x = true /\ pc_conn x = c).
  { intros c Hin. destruct (Hdead c Hin) as [?%not_elem_of_nil|(a & q & x & Hq%ord_lookup & Hx)]; [done|by exists a, q, x]. }
  assert (Hk : forall a q', cp_idle p !! a = Some q' -> exists q, cp_idle (po_pool s) !! a = Some q /\ q' = kept now q).
  { intros a q' Hq'. destruct (Hid a q' Hq') as [(q & Hq%ord_lookup & ->)|[Hnin Hq]]; [by exists q|]. destruct Hnin. apply list_elem_of_fmap.
    exists (a, q'). split; [done|]. by apply ord_lookup. }
  split; cbn [po_pool po_dialled po_out po_closed].
  - intros a q' Hq'. destruct (Hk a q' Hq') as (q & Hq & ->). destruct (Hi a q Hq) as (Hn & Hl & Hf). split_and!.
    + by apply map_nodup_filter.
    + pose proof (sublist_length _ _ (filter_sublist (fun c => negb (stale now c)) q)). lia.
    + apply Forall_forall. intros x [Hx Hst]%elem_of_filterb. rewrite Forall_forall in Hf. destruct (Hf x Hx) as (Hdx & ? & ?). split_and!; [done|done|].
      intros [Hin%elem_of_list_to_set|?]%elem_of_union; [|done]. destruct (Hd _ Hin) as (a2 & q2 & y & Hq2 & Hy & Hsy & He).
      destruct (Hi a2 q2 Hq2) as (_ & _ & Hf2). rewrite Forall_forall in Hf2. destruct (Hf2 y Hy) as (Hdy & _ & _). rewrite He in Hdy.
      assert (a2 = a) as -> by congruence. assert (q2 = q) as -> by congruence. assert (x = y) as -> by by apply (nodup_map_inj pc_conn q). by rewrite Hsy in Hst.
  - intros c Hin. destruct (Ho c Hin) as [? Hnc]. split; [done|]. intros [(a & q & x & Hq & Hx & _ & <-)%elem_of_list_to_set%Hd|?]%elem_of_union; [|done].
    destruct (Hi a q Hq) as (_ & _ & Hf). rewrite Forall_forall in Hf. by destruct (Hf x Hx) as (_ & Hno & _).
  - intros c [(a & q & x & Hq & Hx & _ & <-)%elem_of_list_to_set%Hd|?]%elem_of_union; [|by apply Hc].
    destruct (Hi a q Hq) as (_ & _ & Hf). rewrite Forall_forall in Hf. destruct (Hf x Hx) as (Hdx & _). by eapply lookup_lt_Some.
  - intros Hp. rewrite Hcl in Hp. apply map_eq. intros a. rewrite lookup_empty. apply eq_None_not_Some. intros [q' Hq']. destruct (Hk a q' Hq') as (q & Hq & _).
    by rewrite (Hs Hp) in Hq.
Qed.

Lemma stop_ok s : pool_ok s -> pool_ok (do_stop s).
Proof using Hord.
  intros [Hi Ho Hc Hs]. unfold do_stop, closeAll.
  assert (Hd : forall c, c ∈ concat (map (fun e => map pc_conn e.2) (ord (cp_idle (po_pool s)))) -> exists a q x, cp_idle (po_pool s) !! a = Some q /\ x ∈ q /\ pc_conn x = c).
  { intros c. rewrite list_elem_of_In, in_concat. intros (l & ([a q] & <- & Hin)%in_map_iff & Hl). apply list_elem_of_In in Hin, Hl. apply ord_lookup in Hin.
    apply list_elem_of_fmap in Hl as (x & -> & Hx). by exists a, q, x. }
  split; cbn [po_pool po_dialled po_out po_closed cp_idle]; try done.
  - intros c Hin. destruct (Ho c Hin) as [? Hnc]. split; [done|]. intros [(a & q & x & Hq & Hx & <-)%elem_of_list_to_set%Hd|?]%elem_of_union; [|done].
    destruct (Hi a q Hq) as (_ & _ & Hf). rewrite Forall_forall in Hf. by destruct (Hf x Hx) as (_ & Hno & _).
  - intros c [(a & q & x & Hq & Hx & <-)%elem_of_list_to_set%Hd|?]%elem_of_union; [|by apply Hc].
    destruct (Hi a q Hq) as (_ & _ & Hf). rewrite Forall_forall in Hf. destruct (Hf x Hx) as (Hdx & _). by eapply lookup_lt_Some.
Qed.

Lemma pool_step_ok s s' : pool_step s s' -> pool_ok s -> pool_ok s'.
Proof using Hord. intros []; [apply get_ok|apply dial_ok|by apply put_ok|by apply close_ok|apply reap_ok|apply stop_ok]. Qed.

Definition pool_init : pool_state := mkPoolState newConnPool [] ∅ ∅.

Lemma pool_reachable_ok s : rtc pool_step pool_init s -> pool_ok s.
Proof using Hord.
  intros H. assert (Hp : forall s0, rtc pool_step s0 s -> pool_ok s0 -> pool_ok s).
  { clear H. intros s0 H. induction H as [s|s s1 s2 H1 H2 IH]; [done|]. intros Hok. apply IH. by eapply pool_step_ok. }
  apply (Hp _ H). split; cbn; done.
Qed.

(** A whole [sendPooled] is a sequence of such steps. *)
Lemma sendPooled_steps addr wrote up now s : pool_ok s -> rtc pool_step s (sendPooled addr wrote up now s).1.
Proof.
  intros Hok. assert (Hfresh : forall s, rtc pool_step s ((if up then let '(s, c) := do_dial addr s in if wrote.2 then (do_put addr c now s, true) else (do_close c s, false) else (s, false)).1)).
  { intros s0. destruct up; [|reflexivity]. eapply rtc_l; [apply (step_dial addr)|]. cbn [do_dial fst snd].
    destruct wrote.2; cbn [fst]; apply rtc_once; [apply step_put|apply step_close]; cbn [po_out po_dialled]; try set_solver. apply list_lookup_middle. done. }
  unfold sendPooled. pose proof (step_get addr s) as Hg. unfold do_get in *. pose proof (get_spec (po_pool s) addr) as Hs.
  destruct (get (po_pool s) addr) as [p [c|]]; cbn [fst] in Hg; [|eapply rtc_l; [exact Hg|apply Hfresh]].
  destruct Hs as (q & x & Hq & <- & _). destruct (po_idle _ Hok addr _ Hq) as (_ & _ & Hf). apply Forall_app in Hf as [_ Hx]. apply Forall_singleton in Hx as (Hd & _).
  eapply rtc_l; [exact Hg|]. destruct wrote.1; [apply rtc_once, step_put; cbn; [set_solver|done]|].
  eapply rtc_l; [apply (step_close (pc_conn x)); cbn [po_out]; set_solver|apply Hfresh].
Qed.
End Senders.

(** C36: Pooled connections are never shared.  However senders, the reaper and a stop
    interleave, in every reachable state: the idle connections of an address are at
    most [maxIdlePerAddr] distinct open connections dialled to that address, none of
    them checked out; so what [get] hands out is an open connection to the address
    that no sender holds and that the pool no longer has; and a closed pool keeps
    none.  A [sendPooled] moves between reachable states only. *)
Theorem pool_exclusive ord s :
  (forall m, ord m ≡ₚ map_to_list m) -> rtc (pool_step ord) pool_init s ->
  (forall addr q, cp_idle (po_pool s) !! addr = Some q -> NoDup (map pc_conn q) /\ (length q <= maxIdlePerAddr)%nat) /\
  (forall addr c s', do_get addr s = (s', Some c) ->
     po_dialled s !! c = Some addr /\ (c ∉ po_out s) /\ (c ∉ po_closed s) /\
     forall a q, cp_idle (po_pool s') !! a = Some q -> c ∉ map pc_conn q) /\
  (cp_closed (po_pool s) = true -> cp_idle (po_pool s) = ∅) /\
  (forall addr wrote up now, rtc (pool_step ord) pool_init (sendPooled addr wrote up now s).1).
Proof.
  intros Hord Hr. pose proof (pool_reachable_ok ord Hord s Hr) as Hok. split_and!.
  - intros addr q Hq. destruct (po_idle _ Hok addr q Hq) as (? & ? & _). by split.
  - intros addr c s' Hg. pose proof (get_ok addr s Hok) as Hok'. rewrite Hg in Hok'. cbn [fst] in Hok'.
    unfold do_get in Hg. pose proof (get_spec (po_pool s) addr) as Hs. destruct (get (po_pool s) addr) as [p [c'|]]; [|done]. injection Hg as <- ->.
    destruct Hs as (q & x & Hq & <- & _). destruct (po_idle _ Hok addr _ Hq) as (_ & _ & Hf). apply Forall_app in Hf as [_ Hx].
    apply Forall_singleton in Hx as (? & ? & ?). split_and!; [done..|]. intros a q2 Hq2 Hin.
    destruct (po_idle _ Hok' a q2 Hq2) as (_ & _ & Hf2). apply list_elem_of_fmap in Hin as (y & He & Hy). rewrite Forall_forall in Hf2.
    destruct (Hf2 y Hy) as (_ & Hno & _). rewrite <- He in Hno. cbn [po_out] in Hno. set_solver.
  - apply Hok.
  - intros addr wrote up now. etrans; [exact Hr|by apply sendPooled_steps].
Qed.

Definition all_idle (m : gmap string (list pooledConn)) : list (string * list pooledConn) := map_to_list m.

Lemma pool_exclusive_witness :
  let s := (sendPooled "b:1" (true, true) true 7 (sendPooled "a:1" (true, true) true 5 pool_init).1).1 in
  (do_get "a:1" s).2 = Some 0%nat /\ po_dialled s !! 0%nat = Some "a:1"%string /\ (0%nat ∉ po_out s).
Proof.
  split; [vm_compute; reflexivity|].
  destruct (pool_exclusive all_idle pool_init) as (_ & _ & _ & H1); [reflexivity|reflexivity|].
  destruct (pool_exclusive all_idle (sendPooled "a:1" (true, true) true 5 pool_init).1) as (_ & _ & _ & H2); [reflexivity|apply H1|].
  destruct (pool_exclusive all_idle (sendPooled "b:1" (true, true) true 7 (sendPooled "a:1" (true, true) true 5 pool_init).1).1) as (_ & H & _); [reflexivity|apply H2|].
  destruct (H "a:1"%string 0%nat _ eq_refl) as (Hd & Ho & _). split; [exact Hd|exact Ho].
Defined.

(** ** The hop trace *)

Record HopEvent : Type := mkHopEvent { he_Time : Z; he_Role : string; he_Detail : string }.

Record hopTracer : Type := mkTracer { tr_enabled : bool; tr_size : nat; tr_buf : list HopEvent; tr_next : nat; tr_count : nat }.

Definition SetTracing (enabled : bool) (size : Z) : hopTracer :=
  mkTracer enabled (if size <=? 0 then defaultTraceSize else Z.to_nat size) [] 0 0.

Definition no_event : HopEvent := mkHopEvent 0 "" "".

(** An empty buffer is [nil]. *)
Definition recordHop (tr : hopTracer) (ev : HopEvent) : hopTracer :=
  if negb (tr_enabled tr) || Nat.eqb (tr_size tr) 0 then tr
  else
    let buf := match tr_buf tr with [] => repeat no_event (tr_size tr) | b => b end in
    mkTracer (tr_enabled tr) (tr_size tr) (<[tr_next tr := ev]> buf) ((tr_next tr + 1) mod tr_size tr)
      (if (tr_count tr <? tr_size tr)%nat then tr_count tr + 1 else tr_count tr).

Definition HopTrace (tr : hopTracer) : list HopEvent :=
  if Nat.eqb (tr_count tr) 0 || Nat.eqb (tr_size tr) 0 then []
  else
    let start := ((tr_next tr + tr_size tr - tr_count tr) mod tr_size tr)%nat in
    map (fun i => nth ((start + i) mod tr_size tr) (tr_buf tr) no_event) (seq 0 (tr_count tr)).

Section Ring.
Context (size : nat) (Hsize : (0 < size)%nat).

(** After the events [es]. *)
Record ring (es : list HopEvent) (tr : hopTracer) : Prop := {
  rg_enabled : tr_enabled tr = true;
  rg_size : tr_size tr = size;
  rg_next : tr_next tr = (length es mod size)%nat;
  rg_count : tr_count tr = (length es `min` size)%nat;
  rg_buf : es = [] /\ tr_buf tr = [] \/ length (tr_buf tr) = size;
  rg_events j ev : es !! j = Some ev -> (length es - size <= j)%nat -> tr_buf tr !! (j mod size)%nat = Some ev
}.

Lemma ring_record es tr ev : ring es tr -> ring (es ++ [ev]) (recordHop tr ev).
Proof using Hsize.
  intros [He Hs Hn Hc Hb Hev]. unfold recordHop. rewrite He, Hs. destruct (Nat.eqb_spec size 0); [lia|]. cbn [negb orb].
  set (buf := match tr_buf tr with [] => _ | _ => _ end).
  assert (Hbuf : length buf = size) by (unfold buf; destruct (tr_buf tr) eqn:E; [by rewrite repeat_length|destruct Hb as [[_ ?]|?]; [done|by rewrite <- E in *]]).
  pose proof (Nat.mod_upper_bound (length es) size ltac:(lia)) as Hm.
  split; cbn [tr_enabled tr_size tr_next tr_count tr_buf]; rewrite ?length_app; cbn [length].
  - done.
  - done.
  - by rewrite Hn, Nat.Div0.add_mod_idemp_l.
  - rewrite Hc. destruct (Nat.ltb_spec (length es `min` size) size); lia.
  - right. by rewrite length_insert.
  - intros j e Hj Hr. rewrite Hn. apply lookup_app_Some in Hj as [Hj|[Hge Hj]].
    + pose proof (lookup_lt_Some _ _ _ Hj) as Hlt. assert (Hne : (j mod size)%nat <> (length es mod size)%nat).
      { intros Heq. replace (length es) with (j + (length es - j))%nat in Heq by lia. rewrite <- Nat.Div0.add_mod_idemp_l in Heq.
        set (d := (length es - j)%nat) in *. assert (0 < d < size)%nat by lia. pose proof (Nat.mod_upper_bound j size ltac:(lia)) as Hj'. set (r := (j mod size)%nat) in *.
        destruct (Nat.lt_ge_cases (r + d) size); [rewrite (Nat.mod_small (r + d)) in Heq by lia; lia|].
        replace (r + d)%nat with ((r + d - size) + 1 * size)%nat in Heq by lia. rewrite Nat.Div0.mod_add, Nat.mod_small in Heq by lia. lia. }
      rewrite list_lookup_insert_ne by done. specialize (Hev j e Hj ltac:(lia)). unfold buf. by destruct (tr_buf tr).
    + apply list_lookup_singleton_Some in Hj as [H0 <-]. replace j with (length es) by lia. rewrite list_lookup_insert_eq; [done|lia].
Qed.

Lemma ring_run es tr : ring [] tr -> ring es (fold_left recordHop es tr).
Proof using Hsize.
  intros H. induction es as [|ev es IH] using rev_ind; [done|]. rewrite fold_left_app. by apply ring_record.
Qed.

Lemma ring_trace es tr : ring es tr -> HopTrace tr = drop (length es - size) es.
Proof using Hsize.
  intros [He Hs Hn Hc Hb Hev]. unfold HopTrace. rewrite Hs, Hc, Hn. destruct (Nat.eqb_spec size 0); [lia|]. rewrite orb_false_r.
  destruct (Nat.eqb_spec (length es `min` size) 0) as [H0|H0].
  { destruct es; [done|]. cbn [length] in H0; lia. }
  apply list_eq_same_length with (n := (length es `min` size)%nat); [rewrite length_drop; lia|by rewrite length_map, length_seq|].
  intros i x y Hi Hx Hy. rewrite lookup_drop in Hy. change (map ?f ?l) with (f <$> l) in Hx. rewrite list_lookup_fmap, lookup_seq_lt in Hx by lia.
  injection Hx as <-. specialize (Hev _ y Hy ltac:(lia)).
  assert (Hidx : ((((length es mod size + size - length es `min` size) mod size) + (0 + i)) mod size = (length es - size + i) mod size)%nat).
  { rewrite Nat.Div0.add_mod_idemp_l. destruct (Nat.le_gt_cases (length es) size) as [Hle|Hgt].
    - rewrite Nat.min_l by lia. destruct (decide (length es = size)) as [E|E].
      + rewrite E, Nat.Div0.mod_same. f_equal; lia.
      + rewrite (Nat.mod_small (length es)) by lia. replace (length es + size - length es + (0 + i))%nat with (i + 1 * size)%nat by lia.
        rewrite Nat.Div0.mod_add. f_equal; lia.
    - rewrite Nat.min_r by lia. replace (length es mod size + size - size + (0 + i))%nat with (length es mod size + i)%nat by lia.
      rewrite Nat.Div0.add_mod_idemp_l. replace (length es + i)%nat with ((length es - size + i) + 1 * size)%nat by lia. apply Nat.Div0.mod_add. }
  change (0 + i)%nat with i in Hidx. rewrite Hidx. by apply nth_lookup_Some.
Qed.
End Ring.

(** The hop trace is the recent past: once tracing is enabled with a ring of
    [size] events, the trace after any events is exactly the last [size] of them,
    oldest first — and none while it is disabled. *)
Theorem trace_ring enabled size es :
  let n := if size <=? 0 then defaultTraceSize else Z.to_nat size in
  HopTrace (fold_left recordHop es (SetTracing enabled size)) = if enabled then drop (length es - n) es else [].
Proof.
  intros n. assert (Hn : (0 < n)%nat) by (unfold n, defaultTraceSize; destruct (Z.leb_spec size 0); lia). destruct enabled.
  - apply (ring_trace n Hn), (ring_run n Hn). unfold SetTracing. fold n. split; cbn; try done; [by rewrite Nat.Div0.mod_0_l|by left].
  - assert (Hf : forall es, fold_left recordHop es (SetTracing false size) = SetTracing false size); [|by rewrite Hf].
    clear es. intros es. induction es as [|e es IH]; [done|]. exact IH.
Qed.
