(* ===== verification/Forward.v ===== *)
(** * Sending (internal/transfer/transfer.go, streaming.go, anonymity.go)

    The send side of a transfer: locating the destination, the fail-closed check, the
    choice between per-hop routing, onion routing and a direct connection, the onion
    context with its reply block, the copies of every piece over tiered paths, and the
    confirmation loop.

    A send is a sequence of actions on a [world]: the log of everything handed to the
    network so far, the random values drawn, and the standing of the relays.  Whether
    the [n]-th attempt succeeds is [v_net env n]; clocks, randomness, the answers of
    discovery and what happens while the sender waits are fields of [sendEnv] too.
    The concurrent direct sends of a broadcast go to different connections and share
    nothing, so they are logged one after the other. *)

From S2P Require Import Prelude Crypto Wire Net Routing Encryption Fragment PeerTable Discovery Pieces Stream Acks.
From S2P Require Import Transfer Direct Offline Reputation Chunks.

Definition defaultMaxRedundancy : Z := 4.
Definition innerFragmentReserve : Z := 256.
Definition minRoutedSubChunk : Z := 64.
Definition RoutedFrameOverhead : Z := 256.
Definition maxAckAttempts : nat := 3.
Definition coverPayloadSize : nat := 512.

(** ** Configuration *)

Record SendConfig : Type := mkSendConfig {
  sf_transfer : TransferConfig;
  sf_selfID : string;
  sf_signKey : bytes;
  sf_selfAddr : string;             (** reachable host and data port *)
  sf_hopCount : Z;
  sf_adaptiveOnion : bool;
  sf_minOnionHops : Z;
  sf_maxOnionHops : Z;
  sf_seedHosts : gset string;
  sf_adaptiveRedundancy : bool;
  sf_minRedundancy : Z;
  sf_maxRedundancy : Z;
  sf_redundancy : Z;
  sf_subChunkSize : Z;
  sf_streamBlockSize : Z;
  sf_padCell : Z;
  sf_strictAnon : bool;
  sf_onionOverLinks : bool;
  sf_perHopRouting : bool;
  sf_confirm : bool
}.

Definition wantForward (t : SendConfig) : bool := (0 <? sf_hopCount t) || sf_adaptiveOnion t.
Definition failClosed (t : SendConfig) : bool := sf_strictAnon t || sf_adaptiveOnion t.
Definition usePerHop (t : SendConfig) : bool := sf_perHopRouting t && negb (sf_strictAnon t) && negb (sf_adaptiveOnion t).

Definition hopsFor `{N : NetOps} (t : SendConfig) (relays : list Peer) (destAddr : string) : Z :=
  if sf_adaptiveOnion t then AdaptiveHops destAddr relays (sf_minOnionHops t) (sf_maxOnionHops t) else sf_hopCount t.

Definition pathsFor `{N : NetOps} (t : SendConfig) (relays : list Peer) (destAddr : string) : Z :=
  if sf_adaptiveRedundancy t then
    let n := DistinctSubnetRelays destAddr relays in
    let n := if (0 <? sf_minRedundancy t) && (n <? sf_minRedundancy t) then sf_minRedundancy t else n in
    let max := if sf_maxRedundancy t <=? 0 then defaultMaxRedundancy else sf_maxRedundancy t in
    let n := if max <? n then max else n in
    if n <? 1 then 1 else n
  else if sf_redundancy t <? 1 then 1 else sf_redundancy t.

Definition routedSubChunkFor (mtu subChunkSize padCell : Z) : Z :=
  if mtu <=? 0 then subChunkSize
  else
    let budget := mtu - RoutedFrameOverhead - innerFragmentReserve - padCell in
    let budget := if budget <? minRoutedSubChunk then minRoutedSubChunk else budget in
    if budget <? subChunkSize then budget else subChunkSize.

Definition pickReservationRelay (relays : list Peer) (relayIDs : list string) : option Peer :=
  let want : gset string := list_to_set relayIDs in
  List.find (fun r => bool_decide (pe_ID r ∈ want)) relays.

Definition set_decoy (b : bool) (p : Packet) : Packet :=
  mkPacket (p_ID p) (p_Type p) (p_Timestamp p) (p_SourceNode p) (p_DestGroup p) (p_DestNode p)
    (p_TotalChunks p) (p_ChunkNumber p) (p_SubIndex p) (p_SubTotal p) (p_Streaming p)
    (p_BlockIndex p) (p_BlockLen p) (p_Final p) (p_HybridSealed p) (p_PQ p) (p_Resumable p)
    (p_DataShards p) (p_ParityShards p) (p_OriginalLen p) (p_Variable p) (p_ReplyBlock p)
    b (p_Pad p) (p_PayloadSize p) (p_Payload p) (p_SignerKey p) (p_Signature p).

(** ** The reply block *)

Record replyBlock : Type := mkReplyBlock { rb_EntryAddr : string; rb_Blob : bytes }.

(** [json.Marshal] and [json.Unmarshal] of a [replyBlock]; the text is UTF-8, so an
    address round-trips if it is ASCII. *)
Class ReplyJson := {
  rb_enc : replyBlock -> bytes;
  rb_dec : bytes -> option replyBlock
}.

Class ReplyJsonLaws (RJ : ReplyJson) : Prop := {
  rb_roundtrip rb : ascii_str (rb_EntryAddr rb) -> rb_dec (rb_enc rb) = Some rb;
  rb_dec_empty : rb_dec [] = None
}.

(** ** The world *)

(** What is handed to the network: a packet written to a pooled TCP connection, an
    onion over a link, a per-hop routed packet, the packets of a direct connection, a
    packet over a connection that was reserved with this node. *)
Inductive emission : Type :=
  | XTCP (addr : string) (pkt : Packet)
  | XLink (node : string) (blob : bytes)
  | XRouted (dest : string) (inner : bytes)
  | XDirect (node : string) (pkts : list Packet)
  | XCircuit (conn : Z) (pkt : Packet).

Record world : Type := mkWorld {
  w_log : list emission;
  w_drawn : nat;
  w_standing : standing
}.

Record sendEnv : Type := mkSendEnv {
  v_clock : nat -> Z * bytes;             (** by the number of emissions so far *)
  v_net : nat -> bool;                    (** whether the [n]-th emission succeeds *)
  v_up : nat -> nat -> bool;              (** dials of the [n]-th emission *)
  v_io : nat -> nat -> bool * bool;       (** exchanges of the [n]-th emission *)
  v_draw : nat -> draws;
  v_mtu : string -> Z;                    (** [discovery.MTUToward] *)
  v_active : nat -> list Node;            (** the [n]-th [GetActiveNodes] *)
  v_find : bool;                          (** [discovery.FindNode] finds the destination *)
  v_circuit : nat -> bool;                (** the [n]-th [CircuitReachable] *)
  v_resolve : bool;                       (** [discovery.ResolvePath] *)
  v_node : option Node;                   (** [discovery.NodeByID] *)
  v_acks : nat -> list ack_op;            (** what happens to the table during the [n]-th wait *)
  v_cancel : nat -> bool;                 (** the node is stopped during the [n]-th wait *)
  v_save : nat -> bool                    (** whether the [n]-th [SaveChunk] succeeds *)
}.

Inductive fwd_err : Type :=
  | ENoActiveNodes | EDestinationUnreachable | ENoAnonymousRoute | ENotConfirmed | ECanceled
  | EBuildFragments (e : frag_err) | ESaveChunk (i : nat) | EPlanRoute (e : routing_err)
  | EMissingKeys | ENoReservationRelay | ENoDiversity | EPath (e : routing_err) | EHopKey (e : enc_err)
  | EOnion (e : enc_err) | EPathsFailed | ENoPath | EStreamConfig | EStreamDest | EStreamNotConfirmed | EDirect (e : send_err) | EStreaming (r : stream_result) | EPanic.

(** Actions on the world that may fail. *)
Definition act (A : Type) : Type := world -> world * result fwd_err A.

Definition act_bind {A B} (m : act A) (k : A -> act B) : act B :=
  fun w => let '(w, r) := m w in match r with Ok a => k a w | Err e => (w, Err e) end.
Definition ok {A} (a : A) : act A := fun w => (w, Ok a).
Definition fail {A} (e : fwd_err) : act A := fun w => (w, Err e).
Definition lift {A E} (f : E -> fwd_err) (r : result E A) : act A :=
  fun w => (w, match r with Ok a => Ok a | Err e => Err (f e) end).

Notation "'let*' x ':=' m 'in' k" := (act_bind m (fun x => k)) (at level 10, x pattern, m at level 100, k at level 200).

(** A loop that stops at the first error. *)
Fixpoint for_each {A} (f : A -> act unit) (l : list A) : act unit :=
  match l with [] => ok tt | x :: l => let* _ := f x in for_each f l end.

(** [hops] as the onion needs them. *)
Fixpoint toOnionHops `{C : CryptoOps} (hops : list Hop) : result enc_err (list OnionHop) :=
  match hops with
  | [] => Ok []
  | h :: hops =>
      try pub := NewPublicKey (h_PubKey h) in
      try rest := toOnionHops hops in
      Ok (mkOnionHop (h_NodeID h) (h_Address h) (Some pub) :: rest)
  end.

(** The destination as the last hop of a path. *)
Definition dest_peer (dest : Node) : Peer := mkPeer (n_ID dest) (peerDialAddr dest) 0 true (n_PubKey dest) 0 false.

(** This node as the last hop of a reply path. *)
Definition self_peer (t : SendConfig) (pub : bytes) : Peer := mkPeer (sf_selfID t) (sf_selfAddr t) 0 true pub 0 false.

(** The seed of one copy of a piece: [int64] arithmetic. *)
Definition copy_seed (id : bytes) (piece : Fragment) (copyIdx : Z) : Z :=
  i64 (Z.lxor (i64 (be_val (rev (take 8 id))))
    (i64 (Z.lor (Z.lor (Z.lor (i64 (Z.shiftl (f_BlockIndex piece) 40)) (Z.shiftl (f_Index piece) 16)) (Z.shiftl (f_SubIndex piece) 4)) copyIdx))).

Record forwardCtx : Type := mkForwardCtx {
  fc_id : bytes;
  fc_sc : scheme;
  fc_destID : string;
  fc_destPeer : Peer;
  fc_relays : list Peer;
  fc_replyBlock : bytes;
  fc_paths : Z;
  fc_hops : Z;
  fc_deprioritize : gset string;
  fc_exitNear : gset string
}.

Section Send.
Context `{R : RSOps} `{C : CryptoOps} `{N : NetOps} `{J : StoreJson} `{RJ : ReplyJson}.
Context (shuffle : Z -> list nat -> list Peer -> list Peer) (t : SendConfig) (env : sendEnv).

Definition emit_to (e : emission) (w : world) : world * bool :=
  (mkWorld (w_log w ++ [e]) (w_drawn w) (w_standing w), v_net env (length (w_log w))).

(** The next [n] random draws. *)
Definition draw_n (n : nat) : act (list draws) :=
  fun w => (mkWorld (w_log w) (w_drawn w + n) (w_standing w), Ok (map (v_draw env) (seq (w_drawn w) n))).

Definition clock_now (w : world) : Z * bytes := v_clock env (length (w_log w)).

(** ** One hop *)

Definition relayPacket (now : Z) (nowStr blob : bytes) : Packet :=
  Sign (sf_signKey t) (set_source (sf_selfID t) (NewPacket now nowStr PacketTypeRelay blob "" "")).

Definition sendRelayBlob (addr : string) (blob : bytes) (w : world) : world * bool :=
  emit_to (XTCP addr (relayPacket (clock_now w).1 (clock_now w).2 blob)) w.

Definition sendRelayViaLink (nodeID : string) (blob : bytes) (w : world) : world * bool :=
  if String.eqb nodeID "" then (w, false) else emit_to (XLink nodeID blob) w.

Definition sendRelayHop (nodeID addr : string) (blob : bytes) (w : world) : world * bool :=
  if sf_onionOverLinks t then
    let '(w, ok) := sendRelayViaLink nodeID blob w in
    if ok then (w, true) else sendRelayBlob addr blob w
  else
    let '(w, ok) := sendRelayBlob addr blob w in
    if ok then (w, true) else sendRelayViaLink nodeID blob w.

Definition relays_for (nodes : list Node) (excludeID : string) : act (list Peer) :=
  fun w => let '(st, relays) := relayPeers (clock_now w).1 nodes excludeID (w_standing w) in
           (mkWorld (w_log w) (w_drawn w) st, Ok relays).

(** ** Onion routing *)

(** The path of a reply block back to this node, if one with a relay can be built. *)
Definition reply_path (relays : list Peer) : option (list Hop) :=
  match tc_nodePriv (sf_transfer t) with
  | Some priv =>
      if negb (wantForward t) || (len relays =? 0) then None
      else
        let selfPeer := self_peer t (x_public priv) in
        let nhops := hopsFor t relays (pe_Address selfPeer) in
        if nhops <? 1 then None
        else
          match BuildPath selfPeer relays nhops with
          | Ok hops => if len hops <? 2 then None else Some hops
          | Err _ => None
          end
  | None => None
  end.

Definition ackPacket (now : Z) (nowStr id ackToken : bytes) : Packet :=
  set_position id "" (new_fragment id 0 0 []) (NewPacket now nowStr PacketTypeAcknowledgement ackToken "" "").

(** [nil] is the empty block. *)
Definition buildReplyBlock (id : bytes) (relays : list Peer) (ackToken : bytes) : act bytes :=
  match reply_path relays with
  | None => ok []
  | Some hops =>
      match hops, toOnionHops hops with
      | h :: _, Ok onionHops =>
          let* ds := draw_n (length hops) in
          fun w =>
            let ackBytes := MarshalBinary (ackPacket (clock_now w).1 (clock_now w).2 id ackToken) in
            match BuildOnion onionHops ds ackBytes with
            | Ok blob => (w, Ok (rb_enc (mkReplyBlock (h_Address h) blob)))
            | Err _ => (w, Ok [])
            end
      | _, _ => ok []
      end
  end.

Definition newForwardCtx (dest : Node) (nodes : list Node) (id : bytes) (sc : scheme) (ackToken : bytes) : act forwardCtx :=
  match tc_nodePriv (sf_transfer t) with
  | None => fail EMissingKeys
  | Some _ =>
      if len (n_PubKey dest) =? 0 then fail EMissingKeys
      else
        let* relays := relays_for nodes (n_ID dest) in
        if (0 <? len (n_RelayIDs dest)) && match pickReservationRelay relays (n_RelayIDs dest) with None => true | Some _ => false end
        then fail ENoReservationRelay
        else
          let destAddr := peerDialAddr dest in
          let hops := hopsFor t relays destAddr in
          if hops <=? 0 then fail ENoDiversity
          else
            let paths := pathsFor t relays destAddr in
            let paths := if (0 <? len relays) && (len relays <? paths) then len relays else paths in
            let* rb := buildReplyBlock id relays ackToken in
            ok (mkForwardCtx id sc (n_ID dest) (dest_peer dest) relays rb paths hops
                  (sf_seedHosts t) (list_to_set (n_RelayIDs dest)))
  end.

(** One copy of a piece over a path of its own: whether the first hop took it. *)
Definition send_copy (fc : forwardCtx) (inner : bytes) (piece : Fragment) (copyIdx : nat) : act bool :=
  let opt := mkOpts (copy_seed (fc_id fc) piece (Z.of_nat copyIdx)) (fc_deprioritize fc) (fc_exitNear fc) in
  let* hops := lift EPath (BuildPathTiered shuffle (fc_destPeer fc) (fc_relays fc) (fc_hops fc) opt) in
  let* onionHops := lift EHopKey (toOnionHops hops) in
  let* ds := draw_n (length hops) in
  let* blob := lift EOnion (BuildOnion onionHops ds inner) in
  match hops with
  | [] => fail EPanic
  | h :: _ => fun w => let '(w, ok) := sendRelayHop (h_NodeID h) (h_Address h) blob w in (w, Ok ok)
  end.

Fixpoint send_copies (fc : forwardCtx) (inner : bytes) (piece : Fragment) (copies : list nat) (sent : bool) : act bool :=
  match copies with
  | [] => ok sent
  | c :: copies => let* took := send_copy fc inner piece c in send_copies fc inner piece copies (sent || took)
  end.

Definition send_piece (fc : forwardCtx) (piece : Fragment) : act unit :=
  fun w =>
    let inner := buildInnerFragment (sf_padCell t) (clock_now w).1 (clock_now w).2 (fc_id fc) (fc_destID fc) "" piece (fc_sc fc) (fc_replyBlock fc) in
    (let* sent := send_copies fc inner piece (seq 0 (Z.to_nat (fc_paths fc))) false in
     if sent then ok tt else fail EPathsFailed) w.

Definition sendFragment (fc : forwardCtx) (frag : Fragment) : act unit :=
  for_each (send_piece fc) (fragmentPieces frag (sf_subChunkSize t)).

Definition sendForwarded (dest : Node) (nodes : list Node) (id : bytes) (frags : list Fragment) (sc : scheme) (ackToken : bytes) : act unit :=
  let* fc := newForwardCtx dest nodes id sc ackToken in
  for_each (sendFragment fc) frags.

(** ** Per-hop routing *)

Definition send_routed_piece (destID ackOrigin : string) (id : bytes) (sc : scheme) (piece : Fragment) : act unit :=
  fun w =>
    let inner := buildInnerFragment (sf_padCell t) (clock_now w).1 (clock_now w).2 id destID ackOrigin piece sc [] in
    let '(w, ok) := emit_to (XRouted destID inner) w in
    (w, if ok then Ok tt else Err ENoPath).

Definition sendRouted (destID ackOrigin : string) (id : bytes) (frags : list Fragment) (sc : scheme) : act unit :=
  let sub := routedSubChunkFor (v_mtu env destID) (sf_subChunkSize t) (sf_padCell t) in
  for_each (fun frag => for_each (send_routed_piece destID ackOrigin id sc) (fragmentPieces frag sub)) frags.

(** ** Direct connections *)

Definition direct_to (n : Node) (id : bytes) (frags : list Fragment) (destGroup destNode : string) (sc : scheme) (w : world) : world :=
  let i := length (w_log w) in
  let clock k := v_clock env (i + k)%nat in
  let pkts := (sendToNode (sf_signKey t) (sf_selfID t) (sf_subChunkSize t) clock (v_io env i) (v_up env i) id (u32 (len frags)) destGroup destNode sc frags).1 in
  (emit_to (XDirect (n_ID n) pkts) w).1.

(** ** Choosing how to send *)

Definition by_id (nodes : list Node) : gmap string Node := fold_left (fun m n => <[n_ID n := n]> m) nodes ∅.

(** The nodes to route over, once the destination has been looked for; the reads of
    the active set after the first are numbered from 1. *)
Definition resolveDest (destNode : string) (nodes : list Node) : list Node :=
  let known := existsb (fun n => String.eqb (n_ID n) destNode) in
  if String.eqb destNode "" then nodes
  else if known nodes then nodes
  else if v_find env && v_circuit env 0 then v_active env 1
  else if known (v_active env 2) then v_active env 3
  else if v_resolve env then v_active env 4
  else nodes.

Definition nodesToPeers (nodes : list Node) : list Peer :=
  map (fun n => mkPeer (n_ID n) (n_Address n) (n_Latency n) (n_Active n) (n_PubKey n) (n_Port n) (hasCapability (n_Capabilities n) "relay")) nodes.

(** The destination, admitted if it is active or has a live circuit. *)
Definition admit_dest (destNode : string) (nodes : list Node) : list Node :=
  if String.eqb destNode "" then nodes
  else
    match by_id nodes !! destNode with
    | Some _ => nodes
    | None => match v_node env with Some n => if v_circuit env 1 then nodes ++ [n] else nodes | None => nodes end
    end.

(** [sendOnce]; an error of a send is seen only by its caller here. *)
Definition sendOnce (destGroup destNode : string) (nodes : list Node) (ordered : list Peer) (id : bytes) (frags : list Fragment) (sc : scheme)
    (ackToken : bytes) (w : world) : world :=
  let byID := by_id nodes in
  let targeted := negb (String.eqb destNode "") in
  let direct w :=
    let targets := if targeted then match byID !! destNode with Some n => [n] | None => [] end
                   else omap (fun p => byID !! pe_ID p) ordered in
    fold_left (fun w n => direct_to n id frags destGroup destNode sc w) targets w in
  let forward w :=
    if targeted && wantForward t && match tc_nodePriv (sf_transfer t) with Some _ => true | None => false end then
      match byID !! destNode with
      | Some dest =>
          if 0 <? len (n_PubKey dest) then
            match sendForwarded dest nodes id frags sc ackToken w with
            | (w, Ok _) => w
            | (w, Err _) => if failClosed t then w else direct w
            end
          else direct w
      | None => direct w
      end
    else direct w in
  if targeted && usePerHop t then
    match sendRouted destNode (if sf_confirm t then sf_selfID t else ""%string) id frags sc w with
    | (w, Ok _) => w
    | (w, Err _) => forward w
    end
  else forward w.

(** The acknowledgement table while the sender waits: whether the channel of [id] was
    closed. *)
Definition wait_step (ord : acks -> list (bytes * pendingAck)) (id : bytes) (mc : acks * bool) (op : ack_op) : acks * bool :=
  let '(m, r) := ack_step ord mc.1 op in
  (m, mc.2 || match r, op with
              | AckClose, OSigned i _ | AckClose, OToken i _ => bool_decide (i = id)
              | _, _ => false
              end).
Definition wait_acks (ord : acks -> list (bytes * pendingAck)) (id : bytes) (ops : list ack_op) (m : acks) : acks * bool :=
  fold_left (wait_step ord id) ops (m, false).

(** The attempts, the first numbered [attempt]. *)
Fixpoint confirm_loop (ord : acks -> list (bytes * pendingAck)) (id : bytes) (destNode : string) (send : world -> world)
    (todo attempt : nat) (w : world) (m : acks) : world * acks * result fwd_err unit :=
  match todo with
  | O => (w, retainForLateAck (clock_now w).1 ord m id destNode, Err ENotConfirmed)
  | S todo =>
      let w := send w in
      let '(m, closed) := wait_acks ord id (v_acks env attempt) m in
      if closed then (w, m, Ok tt)
      else if v_cancel env attempt then (w, m, Err ECanceled)
      else confirm_loop ord id destNode send todo (S attempt) w m
  end.

(** The deferred clean-up: a registration that is not retained is removed. *)
Definition release_ack (id : bytes) (m : acks) : acks :=
  match m !! id with Some pa => if pa_late pa then m else unregisterAck m id | None => unregisterAck m id end.

Definition save_chunks (s : Storage) (id : bytes) (meta : ChunkMeta) (chunks : list bytes) : Storage * result fwd_err unit :=
  (fix go (i : nat) (s : Storage) (chunks : list bytes) :=
     match chunks with
     | [] => (s, Ok tt)
     | c :: chunks => if v_save env i then go (S i) (SaveChunk s id (u32 (Z.of_nat i + 1)) c meta) chunks else (s, Err (ESaveChunk (S i)))
     end) O s chunks.

(** The check made before anything is sent. *)
Definition anonymity_check (destNode : string) (nodes : list Node) : act unit :=
  if failClosed t && negb (String.eqb destNode "") && wantForward t && match tc_nodePriv (sf_transfer t) with Some _ => true | None => false end then
    let* relays := relays_for nodes destNode in
    match by_id nodes !! destNode with
    | None => fail ENoAnonymousRoute
    | Some dest =>
        if (len (n_PubKey dest) =? 0) || (len relays =? 0) || (hopsFor t relays (peerDialAddr dest) <=? 0)
        then fail ENoAnonymousRoute else ok tt
    end
  else ok tt.

Definition locate (destNode : string) : result fwd_err (list Node) :=
  let nodes := resolveDest destNode (v_active env 0) in
  if len nodes =? 0 then Err ENoActiveNodes
  else
    let nodes := admit_dest destNode nodes in
    if negb (String.eqb destNode "") && match by_id nodes !! destNode with None => true | Some _ => false end
    then Err EDestinationUnreachable else Ok nodes.

(** [id] and [ackToken] are drawn at random, [ds] for the seals. *)
Definition SendDataTracked (ord : acks -> list (bytes * pendingAck)) (id ackToken : bytes) (ds : list draws)
    (data : bytes) (destGroup destNode : string) (variable : bool) (w : world) (s : Storage) (m : acks) :
    world * Storage * acks * result fwd_err unit :=
  match locate destNode with
  | Err e => (w, s, m, Err e)
  | Ok nodes =>
      match anonymity_check destNode nodes w with
      | (w, Err e) => (w, s, m, Err e)
      | (w, Ok _) =>
          let byID := by_id nodes in
          let '(sealer, hybrid, pq) := contentSealer (sf_transfer t) (byID !! destNode) in
          match buildFragments (sf_transfer t) id data variable sealer ds with
          | Err e => (w, s, m, Err (EBuildFragments e))
          | Ok (frags, sc) =>
              let sc := seal_flags sc hybrid pq in
              let meta := mkChunkMeta id (u32 (len frags)) (u32 maxChunkSize) (clock_now w).1 destGroup destNode in
              match save_chunks s id meta (Split data maxChunkSize) with
              | (s, Err e) => (w, s, m, Err e)
              | (s, Ok _) =>
                  match FastestRoute destNode (nodesToPeers nodes) with
                  | Err e => (w, s, m, Err (EPlanRoute e))
                  | Ok ordered =>
                      if negb (String.eqb destNode "") && sf_confirm t then
                        let m := registerAck m id (match byID !! destNode with Some n => n_SignKey n | None => [] end) ackToken in
                        let '(w, m, r) := confirm_loop ord id destNode (sendOnce destGroup destNode nodes ordered id frags sc ackToken)
                                            maxAckAttempts 0 w m in
                        (w, s, release_ack id m, r)
                      else (sendOnce destGroup destNode nodes ordered id frags sc [] w, s, m, Ok tt)
                  end
              end
          end
      end
  end.

(** ** Streams *)

Definition stream_config_ok : bool :=
  match tc_sealer (sf_transfer t) with Some _ => (0 <? tc_dataShards (sf_transfer t)) && (0 <? tc_parityShards (sf_transfer t)) | None => false end.

Definition stream_scheme (hybrid pq resumable : bool) : scheme :=
  mkScheme (u32 (tc_dataShards (sf_transfer t))) (u32 (tc_parityShards (sf_transfer t))) 0 false true hybrid pq resumable.

(** The callback of [streamBlocks] over a forwarding context. *)
Definition forward_send (fc : forwardCtx) (w : world) (f : Fragment) : world * bool :=
  let '(w, r) := sendFragment fc f w in (w, match r with Ok _ => true | Err _ => false end).

(** The forwarded attempt of a stream: [None] if no route can be built. *)
Definition stream_forwarded (dest : Node) (nodes : list Node) (id : bytes) (sc : scheme) (ackToken : bytes) (r : reader)
    (sealer : option Sealer) (draw : Z -> list draws) (w : world) : world * option stream_result :=
  if wantForward t && match tc_nodePriv (sf_transfer t) with Some _ => true | None => false end && (0 <? len (n_PubKey dest)) then
    match newForwardCtx dest nodes id sc ackToken w with
    | (w, Ok fc) =>
        if 0 <? len (fc_relays fc) then
          let '(w, r) := streamBlocks (forward_send fc) (sf_transfer t) (sf_streamBlockSize t) r id sealer draw 0 w in (w, Some r)
        else (w, None)
    | (w, Err _) => (w, None)
    end
  else (w, None).

Definition stream_direct_to (dest : Node) (id : bytes) (sc : scheme) (r : reader) (sealer : option Sealer) (draw : Z -> list draws) (w : world) :
    world * result fwd_err unit :=
  let i := length (w_log w) in
  let '(pkts, res) := streamDirect (sf_signKey t) (sf_selfID t) (sf_subChunkSize t) (fun k => v_clock env (i + k)%nat) (v_io env i) (sf_transfer t)
                        (sf_streamBlockSize t) (v_up env i) id (n_ID dest) sc r sealer draw in
  ((emit_to (XDirect (n_ID dest) pkts) w).1, match res with Ok _ => Ok tt | Err e => Err (EDirect e) end).

(** [id] is the hash of a random token and the clock. *)
Definition SendStream (ord : acks -> list (bytes * pendingAck)) (id ackToken : bytes) (draw : Z -> list draws) (r : reader) (destNode : string)
    (w : world) (m : acks) : world * acks * result fwd_err unit :=
  if negb stream_config_ok || String.eqb destNode "" then (w, m, Err EStreamConfig)
  else
    let nodes := resolveDest destNode (v_active env 0) in
    match List.find (fun n => String.eqb (n_ID n) destNode) nodes with
    | None => (w, m, Err EStreamDest)
    | Some dest =>
        let '(sealer, hybrid, pq) := contentSealer (sf_transfer t) (Some dest) in
        let sc := stream_scheme hybrid pq false in
        let ackToken := if sf_confirm t then ackToken else [] in
        let m := if sf_confirm t then registerAck m id (n_SignKey dest) ackToken else m in
        let finish w m res := (w, if sf_confirm t then unregisterAck m id else m, res) in
        let confirm w m :=
          if sf_confirm t then
            let '(m, closed) := wait_acks ord id (v_acks env 0) m in
            finish w m (if closed then Ok tt else if v_cancel env 0 then Err ECanceled else Err EStreamNotConfirmed)
          else (w, m, Ok tt) in
        match stream_forwarded dest nodes id sc ackToken r sealer draw w with
        | (w, Some SDone) => confirm w m
        | (w, Some e) => finish w m (Err (EStreaming e))
        | (w, None) =>
            if failClosed t then finish w m (Err ENoAnonymousRoute)
            else
              match stream_direct_to dest id sc r sealer draw w with
              | (w, Ok _) => confirm w m
              | (w, Err e) => finish w m (Err e)
              end
        end
    end.

(** The stable identifier of a resumable stream. *)
Definition resumable_id (destNode streamID : string) : bytes :=
  sha256 (str_bytes (sf_selfID t) ++ str_bytes "|" ++ str_bytes destNode ++ str_bytes "|" ++ str_bytes streamID).

Definition SendStreamResumable (draw : Z -> list draws) (r : reader) (seek : Z -> option reader) (resumeFrom : Z) (destNode streamID : string) (w : world) :
    world * result fwd_err unit :=
  if negb stream_config_ok || String.eqb destNode "" || String.eqb streamID "" then (w, Err EStreamConfig)
  else
    let nodes := resolveDest destNode (v_active env 0) in
    match List.find (fun n => String.eqb (n_ID n) destNode) nodes with
    | None => (w, Err EStreamDest)
    | Some dest =>
        let '(sealer, hybrid, pq) := contentSealer (sf_transfer t) (Some dest) in
        let i := length (w_log w) in
        let '(pkts, res) := streamDirectResumable (sf_signKey t) (sf_selfID t) (sf_subChunkSize t) (fun k => v_clock env (i + k)%nat) (v_io env i)
                              (sf_transfer t) (sf_streamBlockSize t) (v_up env i) (resumable_id destNode streamID) (n_ID dest)
                              (stream_scheme hybrid pq true) r seek resumeFrom sealer draw in
        ((emit_to (XDirect (n_ID dest) pkts) w).1, match res with Ok _ => Ok tt | Err e => Err (EDirect e) end)
    end.

(** ** Cover traffic *)

(** [payload] is [coverPayloadSize] random bytes. *)
Definition decoyPacket (now : Z) (nowStr payload : bytes) : Packet :=
  padPacket (sf_padCell t) (set_decoy true (NewPacket now nowStr PacketTypeData payload "" "")).

Definition buildDecoyInner (now : Z) (nowStr payload : bytes) : bytes := MarshalBinary (decoyPacket now nowStr payload).

(** [rnd] is the random [uint64] behind [randIndex]. *)
Definition sendCover (nodes : list Node) (rnd : Z) (payload : bytes) : act unit :=
  match tc_nodePriv (sf_transfer t) with
  | None => ok tt
  | Some _ =>
      if sf_hopCount t <? 1 then ok tt
      else
        let* relays := relays_for nodes (sf_selfID t) in
        match relays !! Z.to_nat (rnd mod len relays) with
        | None => ok tt
        | Some dest =>
            let others := List.filter (fun r => negb (String.eqb (pe_ID r) (pe_ID dest))) relays in
            let hops := match BuildPath dest others (sf_hopCount t - 1) with Ok hops => hops | Err _ => [hop_of dest] end in
            match hops, toOnionHops hops with
            | h :: _, Ok onionHops =>
                let* ds := draw_n (length hops) in
                fun w =>
                  match BuildOnion onionHops ds (buildDecoyInner (clock_now w).1 (clock_now w).2 payload) with
                  | Ok blob => ((sendRelayHop (h_NodeID h) (h_Address h) blob w).1, Ok tt)
                  | Err _ => (w, Ok tt)
                  end
            | _, _ => ok tt
            end
        end
  end.
End Send.

(** ** What is sent, and to whom *)

(** The log grows by emissions that satisfy [P]. *)
Definition grows (P : emission -> Prop) (w w' : world) : Prop := exists es, w_log w' = w_log w ++ es /\ Forall P es.

#[export] Instance grows_preorder P : PreOrder (grows P).
Proof.
  split.
  - intros w. exists []. by rewrite app_nil_r.
  - intros w1 w2 w3 (e1 & H1 & F1) (e2 & H2 & F2). exists (e1 ++ e2). rewrite H2, H1, app_assoc. split; [done|]. by apply Forall_app.
Qed.

Lemma grows_impl (P Q : emission -> Prop) w w' : (forall e, P e -> Q e) -> grows P w w' -> grows Q w w'.
Proof. intros H (es & He & Hf). exists es. split; [done|]. eapply Forall_impl; [exact Hf|done]. Qed.

Lemma grows_log P w w' : w_log w' = w_log w -> grows P w w'.
Proof. intros H. exists []. by rewrite app_nil_r. Qed.

(** An action that only emits [P] and whose result, if any, satisfies [Q]. *)
Definition emits {A} (P : emission -> Prop) (m : act A) (Q : A -> Prop) : Prop :=
  forall w, grows P w (m w).1 /\ forall a, (m w).2 = Ok a -> Q a.

Section Emits.
Context {A B : Type} (P : emission -> Prop).

Lemma emits_ok (a : A) (Q : A -> Prop) : Q a -> emits P (ok a) Q.
Proof. intros H w. split; [reflexivity|]. by intros ? [= <-]. Qed.

Lemma emits_fail e (Q : A -> Prop) : emits P (fail e) Q.
Proof. intros w. split; [reflexivity|done]. Qed.

Lemma emits_lift {E} (f : E -> fwd_err) (r : result E A) (Q : A -> Prop) : (forall a, r = Ok a -> Q a) -> emits P (lift f r) Q.
Proof. intros H w. split; [reflexivity|]. destruct r; cbn; intros ? [= <-]. by apply H. Qed.

Lemma emits_bind (m : act A) (k : A -> act B) Q Q' : emits P m Q -> (forall a, Q a -> emits P (k a) Q') -> emits P (act_bind m k) Q'.
Proof.
  intros Hm Hk w. unfold act_bind. destruct (Hm w) as [Hg Hq]. destruct (m w) as [w1 [a|e]]; cbn in *; [|split; [done|done]].
  destruct (Hk a (Hq a eq_refl) w1) as [Hg' Hq']. split; [by etrans|done].
Qed.

Lemma emits_for_each (f : A -> act unit) l : (forall x, x ∈ l -> emits P (f x) (fun _ => True)) -> emits P (for_each f l) (fun _ => True).
Proof.
  induction l as [|x l IH]; intros H; cbn [for_each].
  - intros w. split; [reflexivity|done].
  - intros w. pose proof (H x ltac:(left) w) as [Hg _]. unfold act_bind. destruct (f x w) as [w1 [a|e]]; cbn in *; [|done].
    destruct (IH ltac:(intros; apply H; by right) w1) as [Hg' _]. split; [by etrans|done].
Qed.
End Emits.

(** [r] is a relay among [nodes], and not the destination. *)
Definition relay_among (nodes : list Node) (destNode : string) (r : Peer) : Prop :=
  exists n, n ∈ nodes /\ r = relay_peer n /\ n_ID n <> destNode /\ hasCapability (n_Capabilities n) "relay" = true.

Lemma relayPeers_sublist now nodes excl st : exists ns,
  (relayPeers now nodes excl st).2 = map relay_peer ns /\ ns `sublist_of` nodes /\
  Forall (fun n => n_ID n <> excl /\ hasCapability (n_Capabilities n) "relay" = true) ns.
Proof.
  revert st. induction nodes as [|n nodes IH]; intros st; [by exists []|]. cbn [relayPeers].
  destruct (String.eqb_spec (n_ID n) excl) as [He|He]; cbn [orb].
  { destruct (IH st) as (ns & H1 & H2 & H3). exists ns. by split_and!; [|constructor|]. }
  destruct (len (n_PubKey n) =? 0); cbn [orb].
  { destruct (IH st) as (ns & H1 & H2 & H3). exists ns. by split_and!; [|constructor|]. }
  destruct (hasCapability (n_Capabilities n) "relay") eqn:Hc; cbn [negb].
  2: { destruct (IH st) as (ns & H1 & H2 & H3). exists ns. by split_and!; [|constructor|]. }
  destruct (isExcommunicated now (n_ID n) st) as [st1 out]. destruct (IH st1) as (ns & H1 & H2 & H3).
  destruct (relayPeers now nodes excl st1) as [st2 rest]. cbn in H1 |- *. destruct out.
  - exists ns. by split_and!; [|constructor|].
  - exists (n :: ns). subst rest. split_and!; [done|by constructor|by repeat constructor].
Qed.

Section Anonymity.
Context `{R : RSOps} `{C : CryptoOps} `{N : NetOps} `{J : StoreJson} `{RJ : ReplyJson}.
Context (shuffle : Z -> list nat -> list Peer -> list Peer) (Hshuffle : forall seed before l, shuffle seed before l ≡ₚ l).
Context (t : SendConfig) (env : sendEnv).

(** An onion for a path through relays among [nodes], none of them the destination,
    handed to the first of them; the packet inside says nothing about its sender. *)
Definition onion_emission (nodes : list Node) (dest : Peer) (e : emission) : Prop :=
  exists r picked onionHops ds inner blob,
    NoDup (map pe_ID (r :: picked)) /\ Forall (relay_among nodes (pe_ID dest)) (r :: picked) /\
    toOnionHops (map hop_of (r :: picked) ++ [hop_of dest]) = Ok onionHops /\
    BuildOnion onionHops ds (MarshalBinary inner) = Ok blob /\
    p_SourceNode inner = ""%string /\ p_SignerKey inner = [] /\ p_Signature inner = [] /\
    ((exists now nowStr, e = XTCP (pe_Address r) (relayPacket t now nowStr blob)) \/ e = XLink (pe_ID r) blob).

Lemma relays_for_emits P nodes excl :
  NoDup (map n_ID nodes) ->
  emits P (relays_for env nodes excl) (fun relays => NoDup (map pe_ID relays) /\ Forall (relay_among nodes excl) relays).
Proof.
  intros Hn w. unfold relays_for. destruct (relayPeers_sublist (clock_now env w).1 nodes excl (w_standing w)) as (ns & H1 & H2 & H3).
  destruct (relayPeers _ _ _ _) as [st relays]. cbn in *. split; [by apply grows_log|]. intros ? [= <-]. subst relays. split.
  - rewrite map_map. cbn. apply (fmap_sublist n_ID) in H2. by eapply sublist_NoDup.
  - apply Forall_fmap, Forall_forall. intros n Hin. rewrite Forall_forall in H3. destruct (H3 n Hin). exists n. split_and!; try done.
    by eapply elem_of_sublist.
Qed.

Lemma draw_n_emits P n : emits P (draw_n env n) (fun _ => True).
Proof. intros w. split; [by apply grows_log|done]. Qed.

Lemma sendRelayHop_grows (P : emission -> Prop) node addr blob w :
  (forall now nowStr, P (XTCP addr (relayPacket t now nowStr blob))) -> P (XLink node blob) -> grows P w (sendRelayHop t env node addr blob w).1.
Proof.
  intros H1 H2.
  assert (Ht : forall w, grows P w (sendRelayBlob t env addr blob w).1).
  { intros w'. eexists. split; [done|]. by repeat constructor. }
  assert (Hl : forall w, grows P w (sendRelayViaLink env node blob w).1).
  { intros w'. unfold sendRelayViaLink. destruct (String.eqb node ""); [reflexivity|]. eexists. split; [done|]. by repeat constructor. }
  unfold sendRelayHop. destruct (sf_onionOverLinks t).
  - pose proof (Hl w) as Hw. destruct (sendRelayViaLink env node blob w) as [w1 [|]]; cbn in *; [done|]. by etrans.
  - pose proof (Ht w) as Hw. destruct (sendRelayBlob t env addr blob w) as [w1 [|]]; cbn in *; [done|]. by etrans.
Qed.

(** A forwarding context for [dest] over [nodes]. *)
Record ctx_ok (nodes : list Node) (dest : Node) (fc : forwardCtx) : Prop := {
  cx_nodup : NoDup (map pe_ID (fc_relays fc));
  cx_relays : Forall (relay_among nodes (n_ID dest)) (fc_relays fc);
  cx_peer : fc_destPeer fc = dest_peer dest;
  cx_hops : 0 < fc_hops fc
}.

Lemma buildReplyBlock_emits P id relays tok : emits P (buildReplyBlock t env id relays tok) (fun _ => True).
Proof.
  unfold buildReplyBlock. destruct (reply_path t relays) as [[|h hops]|]; try by apply emits_ok.
  destruct (toOnionHops _); [|by apply emits_ok]. eapply emits_bind; [apply draw_n_emits|]. intros ds _ w.
  destruct (BuildOnion _ _ _); (split; [reflexivity|done]).
Qed.

Lemma newForwardCtx_emits P dest nodes id sc tok :
  NoDup (map n_ID nodes) -> emits P (newForwardCtx t env dest nodes id sc tok) (ctx_ok nodes dest).
Proof.
  intros Hn. unfold newForwardCtx. destruct (tc_nodePriv _); [|apply emits_fail]. destruct (_ =? 0); [apply emits_fail|].
  eapply emits_bind; [by apply relays_for_emits|]. intros relays [H1 H2]. destruct (_ && _); [apply emits_fail|].
  destruct (Z.leb_spec (hopsFor t relays (peerDialAddr dest)) 0); [apply emits_fail|].
  eapply emits_bind; [apply buildReplyBlock_emits|]. intros rb _. by apply emits_ok.
Qed.

Definition anonymous_packet (inner : Packet) : Prop := p_SourceNode inner = ""%string /\ p_SignerKey inner = [] /\ p_Signature inner = [].

Lemma innerPacket_anonymous cell now nowStr id dest piece sc rb : anonymous_packet (innerPacket cell now nowStr id dest "" piece sc rb).
Proof. unfold innerPacket. match goal with |- context [padPacket ?c ?q] => destruct (padPacket_fields c q) as [d ->] end. done. Qed.

(** The path a copy is sent over. *)
Lemma copy_path fc nodes dest opt hops :
  ctx_ok nodes dest fc -> BuildPathTiered shuffle (fc_destPeer fc) (fc_relays fc) (fc_hops fc) opt = Ok hops ->
  exists r picked, hops = map hop_of (r :: picked) ++ [hop_of (fc_destPeer fc)] /\ NoDup (map pe_ID (r :: picked)) /\
    Forall (relay_among nodes (n_ID dest)) (r :: picked) /\ (length (r :: picked) <= Z.to_nat (fc_hops fc))%nat.
Proof using Hshuffle.
  intros [Hn Hr Hp Hh] HB. pose proof (BuildPathTiered_spec shuffle Hshuffle (fc_destPeer fc) (fc_relays fc) (fc_hops fc) opt Hn) as Hs.
  destruct (path_guard _ _ _) as [e|] eqn:Hg; [congruence|]. destruct Hs as (picked & HB' & Hl & Hnd & Hall & _).
  assert (hops = map hop_of picked ++ [hop_of (fc_destPeer fc)]) as -> by congruence.
  assert (Hne : picked <> []).
  { intros ->. cbn in Hl. unfold path_guard in Hg. do 2 (case_bool_decide; [done|]). case_bool_decide as Hc; [done|].
    unfold path_len in Hl. apply Hc. split; [done|]. apply length_zero_iff_nil. lia. }
  destruct picked as [|r picked]; [done|]. exists r, picked. split_and!; [done|done| |rewrite Hl; unfold path_len; lia]. eapply Forall_impl; [exact Hall|]. cbn. intros x (Hx & _ & _).
  rewrite Forall_forall in Hr. by apply Hr.
Qed.

Lemma send_copy_emits fc nodes dest inner piece c :
  ctx_ok nodes dest fc -> anonymous_packet inner ->
  emits (onion_emission nodes (fc_destPeer fc)) (send_copy shuffle t env fc (MarshalBinary inner) piece c) (fun _ => True).
Proof using Hshuffle.
  intros Hc (Hs & Hk & Hsig). unfold send_copy. eapply emits_bind; [apply emits_lift; intros hops H; exact (copy_path _ _ _ _ _ Hc H)|].
  intros hops (r & picked & -> & Hnd & Hall & _). eapply emits_bind; [apply emits_lift; intros oh H; exact H|]. intros oh Hoh.
  eapply emits_bind; [apply draw_n_emits|]. intros ds _. eapply emits_bind; [apply emits_lift; intros b H; exact H|]. intros blob Hb w.
  cbn [map app]. assert (He : pe_ID (fc_destPeer fc) = n_ID dest) by by rewrite (cx_peer _ _ _ Hc).
  pose proof (sendRelayHop_grows (onion_emission nodes (fc_destPeer fc)) (h_NodeID (hop_of r)) (h_Address (hop_of r)) blob w) as Hg.
  destruct (sendRelayHop _ _ _ _ _ _) as [w' b]. split; [|done]. apply Hg.
  - intros now nowStr. exists r, picked, oh, ds, inner, blob. rewrite He. split_and!; try done. left. by exists now, nowStr.
  - exists r, picked, oh, ds, inner, blob. rewrite He. split_and!; try done. by right.
Qed.

Lemma sendFragment_emits fc nodes dest frag :
  ctx_ok nodes dest fc -> emits (onion_emission nodes (fc_destPeer fc)) (sendFragment shuffle t env fc frag) (fun _ => True).
Proof using Hshuffle.
  intros Hc. apply emits_for_each. intros piece _ w. unfold send_piece.
  match goal with |- context [act_bind ?m ?k] => assert (He : emits (onion_emission nodes (fc_destPeer fc)) (act_bind m k) (fun _ => True)) end.
  { eapply emits_bind with (Q := fun _ => True); [|intros [|] _; [by apply emits_ok|apply emits_fail]].
    generalize false as sent. induction (seq 0 _) as [|c l IH]; intros sent; cbn [send_copies]; [by apply emits_ok|].
    eapply emits_bind; [apply (send_copy_emits fc nodes dest); [done|apply innerPacket_anonymous]|]. intros took _. apply IH. }
  apply He.
Qed.

Lemma sendForwarded_emits dest nodes id frags sc tok :
  NoDup (map n_ID nodes) ->
  emits (onion_emission nodes (dest_peer dest))
    (sendForwarded shuffle t env dest nodes id frags sc tok) (fun _ => True).
Proof using Hshuffle.
  intros Hn. eapply emits_bind; [by apply newForwardCtx_emits|]. intros fc Hc. apply emits_for_each. intros f _.
  rewrite <- (cx_peer _ _ _ Hc). by apply (sendFragment_emits fc nodes dest).
Qed.

Lemma by_id_lookup nodes k n : by_id nodes !! k = Some n -> n ∈ nodes /\ n_ID n = k.
Proof.
  unfold by_id. rewrite <- fold_left_rev_right. rewrite <- (elem_of_reverse n nodes). unfold reverse. rewrite <- rev_alt.
  induction (rev nodes) as [|x l IH]; cbn [fold_right]; [done|]. intros [[<- <-]|[_ H]]%lookup_insert_Some.
  - split; [left|done].
  - destruct (IH H). split; [by right|done].
Qed.

Lemma by_id_none nodes k : by_id nodes !! k = None -> k ∉ map n_ID nodes.
Proof.
  unfold by_id. rewrite <- fold_left_rev_right. intros H Hin. apply list_elem_of_fmap in Hin as (n & -> & Hn).
  rewrite <- (elem_of_reverse n nodes) in Hn. unfold reverse in Hn. rewrite <- rev_alt in Hn. revert H Hn.
  induction (rev nodes) as [|x l IH]; cbn [fold_right]; [by intros _ ?%not_elem_of_nil|].
  intros [H1 H2]%lookup_insert_None [->|Hn]%elem_of_cons; [done|by apply IH].
Qed.

Section Located.
Context (Hactive : forall k, NoDup (map n_ID (v_active env k))) (destNode : string) (Hnode : forall n, v_node env = Some n -> n_ID n = destNode).
Abbreviation known := (resolveDest env destNode (v_active env 0)).

Lemma resolveDest_NoDup : NoDup (map n_ID known).
Proof using Hactive. unfold resolveDest. repeat (case_match; [apply Hactive|]). apply Hactive. Qed.

Lemma admit_dest_NoDup : NoDup (map n_ID (admit_dest env destNode known)).
Proof using Hactive Hnode.
  pose proof resolveDest_NoDup as Hn. unfold admit_dest. case_match; [done|]. destruct (by_id known !! destNode) eqn:Hb; [done|].
  destruct (v_node env) as [n|] eqn:Hv; [|done]. destruct (v_circuit env 1); [|done]. rewrite map_app. apply NoDup_app. split_and!; [done| |apply NoDup_singleton].
  intros x Hx ->%list_elem_of_singleton. rewrite (Hnode n eq_refl) in Hx. by apply by_id_none in Hb.
Qed.

Lemma locate_ok nodes : locate env destNode = Ok nodes -> nodes = admit_dest env destNode known.
Proof. unfold locate. destruct (_ =? 0); [done|]. by destruct (_ && _); [|intros [= <-]]. Qed.
End Located.

Context (Hclosed : failClosed t = true) (Hwant : wantForward t = true) (Hpriv : is_Some (tc_nodePriv (sf_transfer t))).

Lemma sendOnce_grows destGroup destNode nodes ordered id frags sc tok w dest :
  destNode <> ""%string -> NoDup (map n_ID nodes) -> by_id nodes !! destNode = Some dest -> 0 < len (n_PubKey dest) ->
  grows (onion_emission nodes (dest_peer dest)) w (sendOnce shuffle t env destGroup destNode nodes ordered id frags sc tok w).
Proof using Hshuffle Hclosed Hwant Hpriv.
  intros Hd Hn Hb Hk. unfold sendOnce. destruct (String.eqb_spec destNode "") as [?|_]; [done|]. cbn [negb andb].
  assert (usePerHop t = false) as ->.
  { unfold usePerHop, failClosed in *. destruct (sf_perHopRouting t), (sf_strictAnon t), (sf_adaptiveOnion t); done. }
  destruct Hpriv as [priv ->]. rewrite Hwant, Hb, Hclosed. cbn [andb]. rewrite (proj2 (Z.ltb_lt _ _) Hk).
  pose proof (proj1 (sendForwarded_emits dest nodes id frags sc tok Hn w)) as Hg. by destruct (sendForwarded _ _ _ _ _ _ _ _ _ _) as [w' [|]].
Qed.

Lemma confirm_loop_grows P ord id destNode send todo attempt w m :
  (forall w, grows P w (send w)) -> grows P w (confirm_loop env ord id destNode send todo attempt w m).1.1.
Proof.
  intros Hs. revert attempt w m. induction todo as [|todo IH]; intros attempt w m; cbn [confirm_loop]; [reflexivity|].
  destruct (wait_acks _ _ _ _) as [m' closed]. destruct closed; [apply Hs|]. destruct (v_cancel env attempt); [apply Hs|].
  etrans; [apply Hs|apply IH].
Qed.

Lemma anonymity_check_ok destNode nodes w w' :
  destNode <> ""%string -> NoDup (map n_ID nodes) -> anonymity_check t env destNode nodes w = (w', Ok tt) ->
  exists dest, by_id nodes !! destNode = Some dest /\ 0 < len (n_PubKey dest).
Proof using Hclosed Hwant Hpriv.
  intros Hd Hn. unfold anonymity_check. destruct (String.eqb_spec destNode "") as [?|_]; [done|]. destruct Hpriv as [priv ->]. rewrite Hclosed, Hwant. cbn [negb andb].
  unfold act_bind. destruct (relays_for env nodes destNode w) as [w1 [relays|e]]; [|done]. destruct (by_id nodes !! destNode) as [dest|]; [|done].
  destruct (Z.eqb_spec (len (n_PubKey dest)) 0); [done|]. intros _. exists dest. split; [done|]. pose proof (len_nonneg (n_PubKey dest)). lia.
Qed.

Lemma anonymity_check_grows P destNode nodes w : NoDup (map n_ID nodes) -> grows P w (anonymity_check t env destNode nodes w).1.
Proof.
  intros Hn. assert (He : emits P (anonymity_check t env destNode nodes) (fun _ => True)); [|apply He].
  unfold anonymity_check. destruct (_ && _ && _ && _); [|by apply emits_ok].
  eapply emits_bind; [by apply relays_for_emits|]. intros relays _. destruct (by_id nodes !! destNode); [|apply emits_fail].
  destruct (_ || _ || _); [apply emits_fail|by apply emits_ok].
Qed.

Section Closed.
Context (Hactive : forall k, NoDup (map n_ID (v_active env k))) (destNode : string) (Hnode : forall n, v_node env = Some n -> n_ID n = destNode).
Context (Hd : destNode <> ""%string).

(** An emission towards [destNode] through the nodes discovery knows. *)
Definition anonymous_emission (e : emission) : Prop :=
  exists nodes dest, (nodes = resolveDest env destNode (v_active env 0) \/ nodes = admit_dest env destNode (resolveDest env destNode (v_active env 0))) /\
    dest ∈ nodes /\ n_ID dest = destNode /\ onion_emission nodes (dest_peer dest) e.

Lemma SendDataTracked_grows ord id tok ds data destGroup variable w s m :
  grows anonymous_emission w (SendDataTracked shuffle t env ord id tok ds data destGroup destNode variable w s m).1.1.1.
Proof using Hshuffle Hclosed Hwant Hpriv Hactive Hnode Hd.
  unfold SendDataTracked. destruct (locate env destNode) as [nodes|e] eqn:Hl; [|reflexivity]. apply locate_ok in Hl.
  assert (Hn : NoDup (map n_ID nodes)) by (subst nodes; by apply admit_dest_NoDup).
  pose proof (anonymity_check_grows anonymous_emission destNode nodes w Hn) as Hc.
  destruct (anonymity_check t env destNode nodes w) as [w1 [[]|e]] eqn:Ha; [|done]. cbn [fst] in Hc.
  apply anonymity_check_ok in Ha as (dest & Hb & Hk); [|done..]. destruct (by_id_lookup _ _ _ Hb) as [Hin Hid].
  assert (Hs : forall ordered frags sc tok w, grows anonymous_emission w (sendOnce shuffle t env destGroup destNode nodes ordered id frags sc tok w)).
  { intros ordered frags sc tok' w'. eapply grows_impl; [|by apply (sendOnce_grows destGroup destNode nodes ordered id frags sc tok' w' dest)].
    intros e He. exists nodes, dest. split_and!; [by right|done..]. }
  destruct (contentSealer _ _) as [[sealer hybrid] pq]. destruct (buildFragments _ _ _ _ _ _) as [[frags sc]|e]; [|done].
  destruct (save_chunks _ _ _ _ _) as [s1 [[]|e]]; [|done]. destruct (FastestRoute _ _) as [ordered|e]; [|done].
  destruct (_ && sf_confirm t); [|cbn [fst]; by etrans]. etrans; [exact Hc|].
  match goal with |- context [confirm_loop env ord id destNode ?send ?k 0 w1 ?m1] =>
    pose proof (confirm_loop_grows anonymous_emission ord id destNode send k 0 w1 m1 (Hs _ _ _ _)) as Hg;
    destruct (confirm_loop env ord id destNode send k 0 w1 m1) as [[w2 m2] r] end. exact Hg.
Qed.

Lemma SendStream_grows ord id tok draw r w m :
  grows anonymous_emission w (SendStream shuffle t env ord id tok draw r destNode w m).1.1.
Proof using Hshuffle Hclosed Hwant Hactive Hd.
  unfold SendStream. destruct (_ || _); [reflexivity|]. destruct (List.find _ _) as [dest|] eqn:Hf; [|reflexivity].
  apply List.find_some in Hf as [Hin%list_elem_of_In Hid%String.eqb_eq]. destruct (contentSealer _ _) as [[sealer hybrid] pq].
  set (nodes := resolveDest env destNode (v_active env 0)) in *.
  assert (Hn : NoDup (map n_ID nodes)) by by apply resolveDest_NoDup.
  assert (Hg : forall sc tok, grows anonymous_emission w (stream_forwarded shuffle t env dest nodes id sc tok r sealer draw w).1).
  { intros sc tok'. eapply grows_impl with (P := onion_emission nodes (dest_peer dest)).
    { intros e He. exists nodes, dest. split_and!; [by left|done..]. }
    unfold stream_forwarded. destruct (_ && _ && _); [|reflexivity].
    destruct (newForwardCtx_emits (onion_emission nodes (dest_peer dest)) dest nodes id sc tok' Hn w) as [Hw Hfc].
    destruct (newForwardCtx _ _ _ _ _ _ _ _) as [w1 [fc|e]]; cbn [fst snd] in *; [|done]. specialize (Hfc fc eq_refl). destruct (0 <? _); [|done].
    etrans; [exact Hw|].
    pose proof (streamBlocks_preserves (forward_send shuffle t env fc) (grows (onion_emission nodes (dest_peer dest))) (sf_transfer t) (sf_streamBlockSize t) r id sealer draw 0 w1) as Hp.
    destruct (streamBlocks _ _ _ _ _ _ _ _ _) as [w2 res]. apply Hp. intros w' f. unfold forward_send.
    pose proof (proj1 (sendFragment_emits fc nodes dest f Hfc w')) as Hw'. rewrite (cx_peer _ _ _ Hfc) in Hw'. by destruct (sendFragment _ _ _ _ _ _). }
  specialize (Hg (stream_scheme t hybrid pq false) (if sf_confirm t then tok else [])).
  destruct (stream_forwarded _ _ _ _ _ _ _ _ _ _ _ _) as [w1 [[]|]]; cbn [fst] in Hg; try done.
  - destruct (sf_confirm t); [|done]. by destruct (wait_acks _ _ _ _).
  - by rewrite Hclosed.
Qed.
End Closed.

(** C7: A node that fails closed does not reveal itself on the two send paths that
    honour the setting.  Suppose [failClosed] (strict anonymity or adaptive onion
    routing) and [wantForward] (a positive hop count or adaptive onion routing) hold,
    the node has its onion key, the destination is named, the node discovery returns for
    it bears that ID and discovery lists each active node once.  Then, whatever the
    network, the clock and discovery do, and however often the send is repeated,
    everything [SendDataTracked] and [SendStream] hand to the network is an onion for a
    path of one or more distinct relays, none of them the destination, given to the
    first relay; the packet inside names no sender and carries no signature.  Nothing
    they send goes directly or by per-hop routing.  Outside these conditions the claim
    is false of the code: without an onion key a strict node sends directly
    ([strict_without_key_is_direct]), and so does a resumable stream
    ([resumable_stream_is_direct]). *)
Theorem fail_closed destNode ord id tok ds draw data destGroup variable r w s m :
  (forall k, NoDup (map n_ID (v_active env k))) -> (forall n, v_node env = Some n -> n_ID n = destNode) -> destNode <> ""%string ->
  grows (anonymous_emission destNode) w (SendDataTracked shuffle t env ord id tok ds data destGroup destNode variable w s m).1.1.1 /\
  grows (anonymous_emission destNode) w (SendStream shuffle t env ord id tok draw r destNode w m).1.1.
Proof using Hshuffle Hclosed Hwant Hpriv.
  intros Hactive Hnode Hd. split; [by apply SendDataTracked_grows|by apply SendStream_grows].
Qed.
End Anonymity.

(** ** Confirmed sends *)

(** An acknowledgement of [id] by the destination's key or the secret token. *)
Definition genuine (id key tok : bytes) (op : ack_op) : bool :=
  match op with
  | OSigned i k => bool_decide (i = id) && ((0 <? len key) && bool_decide (key = k))
  | OToken i k => bool_decide (i = id) && ((0 <? len tok) && bool_decide (tok = k))
  | _ => false
  end.

(** Another send's operation on the table: transfer identifiers are drawn at random. *)
Definition foreign (id : bytes) (op : ack_op) : Prop :=
  match op with ORegister i _ _ | OUnregister i | ORetain _ i _ => i <> id | _ => True end.

Section Confirmed.
Context (ord : acks -> list (bytes * pendingAck)) (Hord : forall m, ord m ≡ₚ map_to_list m).
Context (id key tok : bytes).
Abbreviation entry := (mkPendingAck key tok "" 0 false).

Lemma ack_step_foreign m op :
  foreign id op -> m !! id = None \/ m !! id = Some entry -> genuine id key tok op = false ->
  (ack_step ord m op).1 !! id = m !! id.
Proof using Hord.
  intros Hf Hm Hg. destruct op as [i k t|i|now i d|i k|i k]; cbn [ack_step fst] in *.
  - by apply lookup_insert_ne.
  - by apply lookup_delete_ne.
  - destruct (m !! i) as [pa|] eqn:Ei; [|unfold retainForLateAck; by rewrite Ei].
    destruct (retain_spec ord Hord now m i d pa Ei) as [Ht _]. destruct Hm as [Hm|Hm]; rewrite Hm.
    + apply eq_None_not_Some. intros [pa' Hpa']. eapply lookup_weaken in Hpa'; [|apply Ht]. rewrite lookup_insert_ne in Hpa' by done. congruence.
    + apply Ht; [by rewrite lookup_insert_ne|done].
  - unfold signalAckFrom, resolveAck. destruct (decide (i = id)) as [->|Hne].
    + destruct Hm as [Hm|Hm]; rewrite Hm; [done|]. cbn in *. rewrite bool_decide_eq_true_2 in Hg by done. cbn in Hg. by rewrite Hg.
    + destruct (m !! i) as [pa|]; [|done]. destruct (_ && _); [|done]. by apply lookup_delete_ne.
  - unfold signalAckToken, resolveAck. destruct (decide (i = id)) as [->|Hne].
    + destruct Hm as [Hm|Hm]; rewrite Hm; [done|]. cbn in *. rewrite bool_decide_eq_true_2 in Hg by done. cbn in Hg. by rewrite Hg.
    + destruct (m !! i) as [pa|]; [|done]. destruct (_ && _); [|done]. by apply lookup_delete_ne.
Qed.

Lemma ack_step_genuine m op : m !! id = Some entry -> genuine id key tok op = true -> ack_step ord m op = (delete id m, AckClose).
Proof.
  intros Hm Hg. destruct op as [i k t|i|now i d|i k|i k]; try done; cbn [genuine] in Hg; apply andb_true_iff in Hg as [->%bool_decide_eq_true Hg];
    cbn [ack_step]; unfold signalAckFrom, signalAckToken, resolveAck; rewrite Hm; cbn [pa_destKey pa_token pa_late]; by rewrite Hg.
Qed.

(** The channel is closed by the first genuine acknowledgement, and by nothing else. *)
Lemma wait_acks_spec ops m :
  Forall (foreign id) ops -> m !! id = Some entry ->
  let '(m', closed) := wait_acks ord id ops m in
  closed = existsb (genuine id key tok) ops /\ m' !! id = if closed then None else Some entry.
Proof using Hord.
  intros Hf Hm. unfold wait_acks.
  assert (H : forall ops (m : acks) (closed : bool), Forall (foreign id) ops -> m !! id = (if closed then None else Some entry) ->
    let '(m', c) := fold_left (wait_step ord id) ops (m, closed) in
    c = closed || existsb (genuine id key tok) ops /\ m' !! id = (if c then None else Some entry)).
  { clear ops m Hf Hm. intros ops. induction ops as [|op ops IH]; intros m closed Hf Hm; cbn [fold_left existsb].
    { by rewrite orb_false_r. }
    apply Forall_cons in Hf as [Hf0 Hf]. destruct (genuine id key tok op) eqn:Hg.
    - destruct closed.
      + assert (Hs : exists m', wait_step ord id (m, true) op = (m', true) /\ m' !! id = None).
        { unfold wait_step. cbn [fst snd]. destruct op as [| | |i k|i k]; try done; cbn [genuine] in Hg; apply andb_true_iff in Hg as [->%bool_decide_eq_true _];
            cbn [ack_step]; unfold signalAckFrom, signalAckToken, resolveAck; rewrite Hm; by exists m. }
        destruct Hs as (m' & -> & Hm'). specialize (IH m' true Hf Hm'). by destruct (fold_left (wait_step ord id) ops (m', true)).
      + assert (Hs : wait_step ord id (m, false) op = (delete id m, true)).
        { unfold wait_step. cbn [fst snd]. rewrite (ack_step_genuine m op Hm Hg). f_equal. destruct op as [| | |i k|i k]; try done; cbn [genuine] in Hg;
            by apply andb_true_iff in Hg as [-> _]. }
        rewrite Hs. specialize (IH (delete id m) true Hf ltac:(apply lookup_delete_eq)). by destruct (fold_left (wait_step ord id) ops (delete id m, true)).
    - assert (Hs : exists m', wait_step ord id (m, closed) op = (m', closed) /\ m' !! id = m !! id).
      { unfold wait_step. cbn [fst snd]. pose proof (ack_step_foreign m op Hf0 ltac:(destruct closed; auto) Hg) as Hk. destruct (ack_step ord m op) as [m' r] eqn:Ea. cbn [fst] in Hk.
        exists m'. split; [|done]. f_equal. destruct closed; [done|]. cbn [orb]. destruct r; try done. destruct op as [| | |i k|i k]; try done; cbn [ack_step] in Ea;
          (apply bool_decide_eq_false; intros ->; unfold signalAckFrom, signalAckToken, resolveAck in Ea; rewrite Hm in Ea; cbn in Ea, Hg;
           rewrite bool_decide_eq_true_2 in Hg by done; cbn in Hg; by rewrite Hg in Ea). }
      destruct Hs as (m' & -> & Hm'). rewrite <- Hm' in Hm. specialize (IH m' closed Hf Hm). by destruct (fold_left (wait_step ord id) ops (m', closed)). }
  specialize (H ops m false Hf Hm). by destruct (fold_left (wait_step ord id) ops (m, false)).
Qed.

(** The attempts: how many sends were made, and what the outcome says. *)
Lemma confirm_loop_spec env destNode send todo attempt w m :
  (forall k, Forall (foreign id) (v_acks env k)) -> m !! id = Some entry ->
  let '(w', m', r) := confirm_loop env ord id destNode send todo attempt w m in
  exists n, (n <= todo)%nat /\ w' = Nat.iter n send w /\
    match r with
    | Ok _ => (0 < n)%nat /\ existsb (genuine id key tok) (v_acks env (attempt + n - 1)) = true /\ m' !! id = None
    | Err ENotConfirmed =>
        n = todo /\ (forall k, (attempt <= k < attempt + todo)%nat -> existsb (genuine id key tok) (v_acks env k) = false) /\
        (m' !! id = Some (mkPendingAck key tok destNode ((clock_now env w').1 + lateAckTTL) true) \/
         m' !! id = None /\ maxLateAcks <= Z.of_nat (size m'))
    | Err ECanceled => m' !! id = Some entry
    | Err _ => False
    end.
Proof using Hord.
  intros Hf. revert attempt w m. induction todo as [|todo IH]; intros attempt w m Hm; cbn [confirm_loop].
  - exists 0%nat. split_and!; [lia|done|done|lia|]. exact (retain_keeps ord Hord (clock_now env w).1 m id destNode entry Hm).
  - pose proof (wait_acks_spec (v_acks env attempt) m (Hf attempt) Hm) as Hw. destruct (wait_acks ord id _ m) as [m1 closed].
    destruct Hw as [Hc Hm1]. destruct closed.
    { exists 1%nat. split_and!; [lia|done|lia| |done]. by replace (attempt + 1 - 1)%nat with attempt by lia. }
    destruct (v_cancel env attempt); [exists 1%nat; split_and!; [lia|done|done]|].
    specialize (IH (S attempt) (send w) m1 Hm1). destruct (confirm_loop _ _ _ _ _ _ _ _ _) as [[w' m'] r].
    destruct IH as (n & Hn & -> & Hr). exists (S n). split_and!; [lia|by rewrite Nat.iter_succ_r|].
    destruct r as [[]|[]]; try done.
    + destruct Hr as (H1 & H2 & H3). split_and!; [lia| |done]. by replace (attempt + S n - 1)%nat with (S attempt + n - 1)%nat by lia.
    + destruct Hr as (-> & H2 & H3). split_and!; [done| |done]. intros k Hk. destruct (decide (k = attempt)) as [->|]; [done|]. apply H2. lia.
Qed.
End Confirmed.

Section Outcomes.
Context `{R : RSOps} `{C : CryptoOps} `{N : NetOps} `{J : StoreJson} `{RJ : ReplyJson}.
Context (shuffle : Z -> list nat -> list Peer -> list Peer) (t : SendConfig) (env : sendEnv).
Context (ord : acks -> list (bytes * pendingAck)) (Hord : forall m, ord m ≡ₚ map_to_list m).

Lemma locate_err destNode e : locate env destNode = Err e ->
  e = ENoActiveNodes \/ e = EDestinationUnreachable /\ destNode <> ""%string /\
    (destNode ∉ map n_ID (resolveDest env destNode (v_active env 0))) /\ (v_circuit env 1 = false \/ v_node env = None \/ (n_ID <$> v_node env) <> Some destNode).
Proof.
  unfold locate. destruct (_ =? 0); [by intros [= <-]; left|]. destruct (String.eqb_spec destNode "") as [->|Hd]; [done|]. cbn [negb andb].
  unfold admit_dest. rewrite (proj2 (String.eqb_neq _ _) Hd).
  destruct (by_id (resolveDest env destNode (v_active env 0)) !! destNode) as [n|] eqn:Hb; [by rewrite Hb|].
  pose proof (by_id_none _ _ Hb) as Hnin. destruct (v_node env) as [n|].
  - destruct (v_circuit env 1) eqn:Hc; [|rewrite Hb; intros [= <-]; right; by split_and!; [..|left]].
    destruct (by_id (_ ++ [n]) !! destNode) eqn:Hb2; [done|]. intros [= <-]. right. split_and!; try done. right; right.
    intros [= He]. apply by_id_none in Hb2. apply Hb2. rewrite map_app, elem_of_app. right. rewrite <- He. by left.
  - rewrite Hb. intros [= <-]. right. split_and!; try done. right; by left.
Qed.

Lemma save_chunks_err s id meta chunks s' e : save_chunks env s id meta chunks = (s', Err e) -> exists i, e = ESaveChunk i.
Proof.
  unfold save_chunks. generalize 0%nat as i. revert s. induction chunks as [|c chunks IH]; intros s i; [done|].
  destruct (v_save env i); [apply IH|]. intros [= <- <-]. eauto.
Qed.

(** An error a send can return before it has emitted anything. *)
Definition before_sending (e : fwd_err) : Prop :=
  match e with ENoActiveNodes | EDestinationUnreachable | ENoAnonymousRoute | EBuildFragments _ | ESaveChunk _ | EPlanRoute _ => True | _ => False end.

(** C35: What the result of a send tells.  [ErrDestinationUnreachable] is returned
    only for a destination that is neither among the resolved nodes nor admitted by a
    live circuit, and like every error but the last two it means that nothing was
    handed to the network and that no acknowledgement is expected; and nothing was
    stored, unless it is about storing or planning.  With confirmation, success means
    that during one of at most [maxAckAttempts] waits an acknowledgement came that was
    signed with the destination's key or carried the transfer's secret token;
    [ErrNotConfirmed] means that none came in any of them, and that the transfer's
    entry is now one that reports a late acknowledgement for the same key, token and
    destination, for [lateAckTTL] from the end of the send — unless it was evicted from a
    table that still holds [maxLateAcks] others; and when the send is cancelled its entry
    is gone. *)
Theorem send_outcome id tok ds data destGroup destNode variable w s m :
  (forall k, Forall (foreign id) (v_acks env k)) ->
  let '(w', s', m', r) := SendDataTracked shuffle t env ord id tok ds data destGroup destNode variable w s m in
  match r with
  | Ok _ => destNode <> ""%string -> sf_confirm t = true ->
      exists nodes dest k, locate env destNode = Ok nodes /\ by_id nodes !! destNode = Some dest /\ (k < maxAckAttempts)%nat /\
        existsb (genuine id (n_SignKey dest) tok) (v_acks env k) = true /\ m' !! id = None
  | Err ENotConfirmed =>
      exists nodes dest, locate env destNode = Ok nodes /\ by_id nodes !! destNode = Some dest /\
        (forall k, (k < maxAckAttempts)%nat -> existsb (genuine id (n_SignKey dest) tok) (v_acks env k) = false) /\
        (m' !! id = Some (mkPendingAck (n_SignKey dest) tok destNode ((clock_now env w').1 + lateAckTTL) true) \/
         m' !! id = None /\ maxLateAcks <= Z.of_nat (size m'))
  | Err ECanceled => m' !! id = None
  | Err e => before_sending e /\ w_log w' = w_log w /\ m' = m /\
      match e with
      | EDestinationUnreachable =>
          s' = s /\ destNode <> ""%string /\ (destNode ∉ map n_ID (resolveDest env destNode (v_active env 0))) /\
          (v_circuit env 1 = false \/ v_node env = None \/ (n_ID <$> v_node env) <> Some destNode)
      | ENoActiveNodes | ENoAnonymousRoute | EBuildFragments _ => s' = s
      | _ => True
      end
  end.
Proof using Hord.
  intros Hf. unfold SendDataTracked. destruct (locate env destNode) as [nodes|e] eqn:Hl.
  2: { apply locate_err in Hl as [->|(-> & H)]; split_and!; try done; apply H. }
  assert (Hb : destNode <> ""%string -> exists dest, by_id nodes !! destNode = Some dest).
  { intros Hd. unfold locate in Hl. destruct (_ =? 0); [done|]. rewrite (proj2 (String.eqb_neq _ _) Hd) in Hl. cbn [negb andb] in Hl.
    destruct (by_id (admit_dest _ _ _) !! destNode) as [dest|] eqn:E; [|done]. injection Hl as <-. eauto. }
  assert (Hc : w_log (anonymity_check t env destNode nodes w).1 = w_log w /\
    forall e, (anonymity_check t env destNode nodes w).2 = Err e -> e = ENoAnonymousRoute).
  { unfold anonymity_check. destruct (_ && _ && _ && _); [|done]. unfold act_bind, relays_for. destruct (relayPeers _ _ _ _) as [st relays].
    destruct (by_id nodes !! destNode); [destruct (_ || _ || _)|]; split; try done; by intros ? [= <-]. }
  destruct (anonymity_check t env destNode nodes w) as [w1 [[]|e]]; cbn [fst snd] in Hc; destruct Hc as [Hlog He].
  2: { rewrite (He e eq_refl). by split_and!. }
  destruct (contentSealer _ _) as [[sealer hybrid] pq]. destruct (buildFragments _ _ _ _ _ _) as [[frags sc]|e]; [|by split_and!].
  destruct (save_chunks _ _ _ _ _) as [s1 [[]|e]] eqn:Hs; [|apply save_chunks_err in Hs as [i ->]; by split_and!].
  destruct (FastestRoute _ _) as [ordered|e]; [|by split_and!].
  destruct (String.eqb_spec destNode "") as [->|Hd]; cbn [negb andb]; [done|]. destruct (sf_confirm t); [|done].
  destruct (Hb Hd) as [dest Hdest]. rewrite Hdest.
  match goal with |- context [confirm_loop env ord id destNode ?send _ 0 w1 _] =>
    pose proof (confirm_loop_spec ord Hord id (n_SignKey dest) tok env destNode send maxAckAttempts 0 w1
      (registerAck m id (n_SignKey dest) tok) Hf ltac:(apply lookup_insert_eq)) as Hloop end.
  destruct (confirm_loop _ _ _ _ _ _ _ _ _) as [[w2 m2] r]. destruct Hloop as (n & Hn & _ & Hr). unfold release_ack.
  destruct r as [[]|[]]; try done.
  - destruct Hr as (Hpos & Hg & Hm2). intros _ _. exists nodes, dest, (n - 1)%nat. rewrite Hm2. split_and!; try done; [lia|apply lookup_delete_eq].
  - destruct Hr as (-> & Hg & Hlate). exists nodes, dest. split_and!; try done.
    + intros k Hk. apply Hg. lia.
    + destruct Hlate as [E|[E Hfull]]; [left; by rewrite E|right]. rewrite E. unfold unregisterAck. by rewrite delete_id by done.
  - rewrite Hr. apply lookup_delete_eq.
Qed.
End Outcomes.

(** ** Witnesses and examples *)

#[local] Instance toy_store_json : StoreJson :=
  {| meta_enc m := cm_ID m; meta_dec b := None; node_enc n := []; node_dec b := None |}.
#[local] Instance toy_reply_json : ReplyJson :=
  {| rb_enc rb := str_bytes (rb_EntryAddr rb) ++ xff :: rb_Blob rb;
     rb_dec b := match IndexByte b xff with Some n => Some (mkReplyBlock (bytes_str (take n b)) (drop (S n) b)) | None => None end |}.

Lemma toy_reply_laws : ReplyJsonLaws toy_reply_json.
Proof.
  split; [|reflexivity]. intros [addr blob] Ha. cbn [rb_enc rb_dec toy_reply_json rb_EntryAddr rb_Blob] in *.
  assert (Hi : IndexByte (str_bytes addr ++ xff :: blob) xff = Some (length (str_bytes addr))).
  { unfold ascii_str in Ha. induction (str_bytes addr) as [|b l IH]; [done|]. apply Forall_cons in Ha as [Hb Ha]. cbn [app IndexByte length].
    destruct (bool_decide (b = xff)) eqn:E; [apply bool_decide_eq_true in E as ->; by vm_compute in Hb|]. by rewrite IH. }
  rewrite Hi, take_app_length, drop_app_ge by lia. replace (S (length (str_bytes addr)) - length (str_bytes addr))%nat with 1%nat by lia. cbn [drop]. by rewrite str_bytes_str.
Qed.

Definition node_at (id : string) (key : byte) (caps relays : list string) : Node :=
  mkNode 0 id (id ++ ":1")%string 0 5 true (@x_public toy_ops [key]) [key] 0 caps relays [].
Definition sample_net : list Node := [node_at "r1" x01 ["relay"] []; node_at "r2" x02 ["relay"] []; node_at "bob" x03 [] []].

Definition sample_send (hops : Z) (strict confirm : bool) (priv : option bytes) : SendConfig :=
  mkSendConfig (mkTransferConfig None priv None 0 0 false false) "me" sample_key "me:1" hops false 0 0 ∅ false 0 0 1 0 2 0 strict false false confirm.

Definition sample_env_with (nodes : list Node) (acks_seen : nat -> list ack_op) : sendEnv :=
  mkSendEnv (fun _ => (0, [])) (fun _ => true) (fun _ _ => true) (fun _ _ => (true, true)) (fun _ => sample_draws) (fun _ => 0)
    (fun _ => nodes) false (fun _ => false) false None acks_seen (fun _ => false) (fun _ => true).

Definition empty_world : world := mkWorld [] 0 (mkStanding ∅ ∅).
Definition empty_store : Storage := mkStorage ∅ ∅ ∅.

Definition sample_sending (t : SendConfig) (env : sendEnv) : world * Storage * acks * result fwd_err unit :=
  @SendDataTracked toy_rs toy_ops toy_net toy_store_json toy_reply_json toy_shuffle t env map_to_list sample_id [x42]
    [] [x01] "" "bob" false empty_world empty_store ∅.

Lemma fail_closed_witness :
  let t := sample_send 1 true false (Some [x07]) in
  let env := sample_env_with sample_net (fun _ => []) in
  len (w_log (sample_sending t env).1.1.1) = 1 /\
  grows (@anonymous_emission toy_ops t env "bob") empty_world (sample_sending t env).1.1.1.
Proof.
  split; [vm_compute; reflexivity|].
  destruct (@fail_closed toy_rs toy_ops toy_net toy_store_json toy_reply_json toy_shuffle toy_shuffle_perm (sample_send 1 true false (Some [x07]))
    (sample_env_with sample_net (fun _ => [])) eq_refl eq_refl (ex_intro _ _ eq_refl)
    "bob" map_to_list sample_id [x42] [] (fun _ => []) [x01] "" false (mkReader [] false) empty_world empty_store ∅) as [H _].
  - intros k. apply (bool_decide_unpack _). vm_compute. exact I.
  - discriminate.
  - discriminate.
  - exact H.
Defined.

Lemma send_outcome_witness :
  let t := sample_send 0 false true (Some [x07]) in
  let env := sample_env_with sample_net (fun k => if Nat.eqb k 1 then [OToken sample_id [x42]] else []) in
  (sample_sending t env).2 = Ok tt /\
  exists nodes dest k, locate env "bob" = Ok nodes /\ by_id nodes !! "bob"%string = Some dest /\ (k < maxAckAttempts)%nat /\
    existsb (genuine sample_id (n_SignKey dest) [x42]) (v_acks env k) = true.
Proof.
  split; [vm_compute; reflexivity|].
  pose proof (@send_outcome toy_rs toy_ops toy_net toy_store_json toy_reply_json toy_shuffle (sample_send 0 false true (Some [x07]))
    (sample_env_with sample_net (fun k => if Nat.eqb k 1 then [OToken sample_id [x42]] else [])) map_to_list (fun m => reflexivity _)
    sample_id [x42] [] [x01] "" "bob" false empty_world empty_store ∅) as H.
  destruct H as (nodes & dest & k & H1 & H2 & H3 & H4 & _).
  - intros k. destruct k as [|[|k]]; repeat constructor.
  - discriminate.
  - reflexivity.
  - exists nodes, dest, k. split_and!; [exact H1|exact H2|exact H3|exact H4].
Defined.

(** The destination advertises a reservation relay this node does not know: the check
    before the send passes, every attempt fails, and a send without confirmation
    reports success although nothing was sent; with confirmation it is reported as
    sent but not confirmed. *)
Definition nat_net : list Node := [node_at "r1" x01 ["relay"] []; node_at "bob" x03 [] ["r9"]].

Example strict_send_dropped_silently :
  let out := sample_sending (sample_send 1 true false (Some [x07])) (sample_env_with nat_net (fun _ => [])) in
  w_log out.1.1.1 = [] /\ out.2 = Ok tt.
Proof. vm_compute. by split. Qed.

Example not_confirmed_nothing_sent :
  let out := sample_sending (sample_send 1 true true (Some [x07])) (sample_env_with nat_net (fun _ => [])) in
  w_log out.1.1.1 = [] /\ out.2 = Err ENotConfirmed.
Proof. vm_compute. by split. Qed.

(** Strict anonymity binds neither a node without a key nor a resumable stream. *)
Example strict_without_key_is_direct :
  exists pkts, w_log (sample_sending (sample_send 1 true false None) (sample_env_with sample_net (fun _ => []))).1.1.1 = [XDirect "bob" pkts].
Proof. vm_compute. by eexists. Qed.

Example resumable_stream_is_direct :
  let t := mkSendConfig (mkTransferConfig (Some toy_sealer) (Some [x07]) None 2 1 false false) "me" sample_key "me:1" 1 false 0 0 ∅ false 0 0 1 0 2 0 true false false false in
  let out := @SendStreamResumable toy_rs toy_ops t (sample_env_with sample_net (fun _ => [])) (fun _ => repeat sample_draw 3) (mkReader [x01] false)
               (fun _ => None) 0 "bob" "s" empty_world in
  exists pkts, w_log out.1 = [XDirect "bob" pkts] /\ Forall (fun p => p_SourceNode p = "me"%string) pkts.
Proof. eexists. vm_compute. split; [reflexivity|]. repeat constructor. Qed.
