(* ===== verification/Timers.v ===== *)
(** * Random waits and ticker loops (transfer/anonymity.go, reputation.go, transfer.go, discovery/announce.go, discovery.go)

    What the random bytes of the operating system become as waits and indices, the loop of
    cover traffic with what it sends (a turn calls [Forward.sendCover]), and the loops that do a round per tick until the node stops, as a
    machine over the tick channel, with the reaper, the challenges and the first
    reachability rounds as instances.  Durations are in nanoseconds. *)

From S2P Require Import Prelude Crypto Wire Announce Net Routing Encryption PeerTable Discovery Reach Pieces Transfer Pool Reputation Forward.

(** ** Random numbers *)

(** [rd] is the outcome of [rand.Read] on eight bytes. *)
Definition randUint64 (rd : option bytes) : Z := match rd with Some b => be_val b | None => 0 end.
Definition discovery_randUint64 (unixNano : Z) (rd : option bytes) : Z := match rd with Some b => be_val b | None => u64 unixNano end.

Definition randDuration (max : Z) (rd : option bytes) : Z := if max <=? 0 then 0 else i64 (randUint64 rd mod u64 max).
Definition randIndex (n : Z) (rd : option bytes) : Z := if n <=? 0 then 0 else i64 (randUint64 rd mod u64 n).
Definition randSpread (max : Z) (rd : option bytes) : Z :=
  if max <=? 0 then 0 else match rd with Some b => i64 (be_val b mod u64 max) | None => max / 2 end.

(** [rand.Read] fills its buffer. *)
Definition eight (rd : option bytes) : Prop := forall b, rd = Some b -> length b = 8%nat.

Lemma randUint64_range rd : eight rd -> is_u64 (randUint64 rd).
Proof.
  intros H. unfold is_u64, randUint64. destruct rd as [b|]; [|done]. pose proof (be_val_range b) as Hb. unfold len in Hb. by rewrite (H b eq_refl) in Hb.
Qed.

(** Below a positive [max] the conversions lose nothing. *)
Lemma mod_int64 x max : 0 < max < 2 ^ 63 -> i64 (x mod u64 max) = x mod max /\ 0 <= x mod max < max.
Proof.
  intros H. rewrite (u64_id max) by (unfold is_u64; lia). pose proof (Z.mod_pos_bound x max) as Hm. split; [|lia]. apply i64_id. unfold is_i64. lia.
Qed.

Lemma randDuration_range max rd : 0 < max < 2 ^ 63 -> randDuration max rd = randUint64 rd mod max /\ 0 <= randDuration max rd < max.
Proof. intros H. unfold randDuration. rewrite (proj2 (Z.leb_gt _ _)) by lia. pose proof (mod_int64 (randUint64 rd) max H) as [-> Hr]. by split. Qed.

(** An index drawn for a list that is not empty is one of its own. *)
Lemma randIndex_lookup {A} (l : list A) rd :
  l <> [] -> len l < 2 ^ 63 -> randIndex (len l) rd = randUint64 rd mod len l /\ is_Some (l !! Z.to_nat (randIndex (len l) rd)).
Proof.
  intros Hl Hb. assert (0 < len l) by (destruct l; [done|]; rewrite len_cons; pose proof (len_nonneg l); lia).
  unfold randIndex. rewrite (proj2 (Z.leb_gt _ _)) by lia. pose proof (mod_int64 (randUint64 rd) (len l)) as [-> Hr]; [lia|]. split; [done|].
  apply lookup_lt_is_Some. unfold len in *. lia.
Qed.

Lemma randSpread_range max rd : 0 <= max < 2 ^ 63 -> 0 <= randSpread max rd /\ randSpread max rd <= Z.max 0 (max - 1).
Proof.
  intros H. unfold randSpread. destruct (Z.leb_spec max 0); [lia|]. destruct rd as [b|]; [pose proof (mod_int64 (be_val b) max) as [-> Hr]; lia|].
  split; [apply Z.div_pos; lia|]. pose proof (Z.div_lt max 2). lia.
Qed.

(** ** Waits *)

Definition coverBaseInterval : Z := 8 * 1000000000.
Definition announceSpreadMax : Z := 200 * 1000000.

(** How long a hop waits before it forwards; [cancel] is when the node stops, if it does
    while it waits. *)
Definition applyJitter (relayJitter : Z) (rd : option bytes) (cancel : option Z) : Z :=
  if relayJitter <=? 0 then 0
  else let d := randDuration relayJitter rd in match cancel with Some c => Z.min c d | None => d end.

Definition forwardAnnounce `{C : CryptoOps} `{J : DiscJson} (e : env) (D : Disc) (ap : AnnouncePayload) (rd : option bytes) (stopped : bool) : Z * list out :=
  (randSpread announceSpreadMax rd, if stopped then [] else sendAnnounceMode e D ap false).

Definition cover_wait (rd : option bytes) : Z := coverBaseInterval + randDuration coverBaseInterval rd.

(** A turn of the loop: the random bytes of its wait; how long [sendCover] took after it,
    [None] where the node stopped during the wait; and what [sendCover] finds: the active
    nodes, the random bytes of its choice and those of the decoy. *)
Record coverTurn : Type := mkTurn {
  ct_wait : option bytes;
  ct_took : option Z;
  ct_nodes : list Node;
  ct_pick : option bytes;
  ct_payload : bytes
}.

(** A call of [sendCover]: when, and what it handed to the network. *)
Record attempt : Type := mkAttempt { at_time : Z; at_sent : list emission }.

Fixpoint maintainCover `{C : CryptoOps} `{N : NetOps} (t : SendConfig) (env : sendEnv) (now : Z) (turns : list coverTurn) (w : world) : world * list attempt :=
  match turns with
  | [] => (w, [])
  | turn :: turns =>
      match ct_took turn with
      | None => (w, [])
      | Some took =>
          let due := now + cover_wait (ct_wait turn) in
          let w1 := (sendCover t env (ct_nodes turn) (randUint64 (ct_pick turn)) (ct_payload turn) w).1 in
          let '(w2, l) := maintainCover t env (due + took) turns w1 in
          (w2, mkAttempt due (drop (length (w_log w)) (w_log w1)) :: l)
      end
  end.

(** The times of the attempts. *)
Fixpoint cover_times (now : Z) (turns : list (option bytes * option Z)) : list Z :=
  match turns with
  | (rd, Some took) :: turns => let t := now + cover_wait rd in t :: cover_times (t + took) turns
  | _ => []
  end.

Lemma cover_wait_range rd : coverBaseInterval <= cover_wait rd < 2 * coverBaseInterval.
Proof. unfold cover_wait. pose proof (randDuration_range coverBaseInterval rd) as [_ Hr]; [unfold coverBaseInterval; lia|]. lia. Qed.

Lemma cover_times_spec now turns :
  Forall (fun t => match t.2 with Some took => 0 <= took | None => True end) turns ->
  let l := cover_times now turns in
  (forall i t, l !! i = Some t ->
     (exists rd took before, turns !! i = Some (rd, Some took) /\ coverBaseInterval <= t - before < 2 * coverBaseInterval /\
        (rd = None -> t - before = coverBaseInterval) /\
        match i with O => before = now | S j => exists u rd' took', l !! j = Some u /\ turns !! j = Some (rd', Some took') /\ before = u + took' end) /\
     now + (Z.of_nat i + 1) * coverBaseInterval <= t) /\
  (forall i, (i < length l)%nat <-> forall j, (j <= i)%nat -> exists rd took, turns !! j = Some (rd, Some took)).
Proof.
  cbv zeta. intros H. revert now. induction H as [|[rd [took|]] turns Ht H IH]; intros now; cbn [cover_times length];
    [split; [by intros|]; intros i; split; [lia|]; intros Hj; destruct (Hj O) as (? & ? & [=]); lia| |
     split; [by intros|]; intros i; split; [lia|]; intros Hj; destruct (Hj O) as (? & ? & [=]); lia].
  destruct (IH (now + cover_wait rd + took)) as [IHa IHb]. pose proof (cover_wait_range rd) as Hr. cbn [snd] in Ht. split.
  - intros [|i] t; cbn [lookup list_lookup].
    + intros [= <-]. split; [|lia]. exists rd, took, now. split_and!; [done|lia|lia| |done].
      intros ->. change (cover_wait None) with coverBaseInterval. lia.
    + intros Hi. destruct (IHa _ _ Hi) as [(rd' & took' & before & H1 & H2 & H3 & H4) H5]. split; [|lia]. exists rd', took', before. split_and!; try done; try lia.
      destruct i as [|j]; [|exact H4]. subst before. exists (now + cover_wait rd), rd, took. done.
  - intros [|i]; [split; [|lia]; intros _ j Hj; destruct j; [|lia]; by exists rd, took|]. rewrite <- Nat.succ_lt_mono, IHb. split.
    + intros Hi [|j] Hj; [by exists rd, took|]. apply (Hi j). lia.
    + intros Hi j Hj. apply (Hi (S j)). lia.
Qed.

(** ** Decoys *)

Section Cover.
Context `{C : CryptoOps} `{L : !CryptoLaws C} `{N : NetOps}.
Context (t : SendConfig) (env : sendEnv).

(** An onion through distinct relays among [nodes], at most as many as the hop count,
    around a packet marked as a decoy that says nothing of its sender. *)
Definition cover_emission (nodes : list Node) (e : emission) : Prop :=
  exists r rest oh ds decoy blob,
    NoDup (map pe_ID (r :: rest)) /\ Forall (relay_among nodes (sf_selfID t)) (r :: rest) /\ len (r :: rest) <= sf_hopCount t /\
    toOnionHops (map hop_of (r :: rest)) = Ok oh /\ BuildOnion oh ds (MarshalBinary decoy) = Ok blob /\
    p_Type decoy = PacketTypeData /\ p_Decoy decoy = true /\ anonymous_packet decoy /\
    ((exists now nowStr, e = XTCP (pe_Address r) (relayPacket t now nowStr blob)) \/ e = XLink (pe_ID r) blob).

(** The path of a decoy that ends at the relay [dest]. *)
Definition cover_path (relays : list Peer) (dest : Peer) : list Hop :=
  match BuildPath dest (List.filter (fun r => negb (String.eqb (pe_ID r) (pe_ID dest))) relays) (sf_hopCount t - 1) with
  | Ok hops => hops
  | Err _ => [hop_of dest]
  end.

Lemma cover_path_spec relays dest :
  NoDup (map pe_ID relays) -> dest ∈ relays -> 1 <= sf_hopCount t ->
  exists r rest, cover_path relays dest = map hop_of (r :: rest) /\ NoDup (map pe_ID (r :: rest)) /\ Forall (fun x => x ∈ relays) (r :: rest) /\
    len (r :: rest) <= sf_hopCount t.
Proof using Type.
  intros Hnd Hin Hh. unfold cover_path. set (others := List.filter _ relays).
  assert (Ho : NoDup (map pe_ID others)) by (by apply map_nodup_filter).
  pose proof (BuildPath_correct dest others (sf_hopCount t - 1) Ho) as HB.
  assert (Halone : exists r rest, [hop_of dest] = map hop_of (r :: rest) /\ NoDup (map pe_ID (r :: rest)) /\ Forall (fun x => x ∈ relays) (r :: rest) /\ len (r :: rest) <= sf_hopCount t).
  { exists dest, []. split_and!; [done|apply NoDup_singleton|by constructor|done]. }
  destruct (path_guard _ _ _) eqn:Eg; [by rewrite HB|]. clear HB.
  destruct (BuildPath_selection dest others (sf_hopCount t - 1) Ho Eg) as (picked & -> & Hl & Hpn & Hpe & _).
  assert (Hall : Forall (fun x => x ∈ relays /\ pe_ID x <> pe_ID dest) picked).
  { eapply Forall_impl; [exact Hpe|]. intros x Hx. apply list_elem_of_In, filter_In in Hx as [Hx _]. apply filter_In in Hx as [Hx Hne].
    split; [by apply list_elem_of_In|]. by apply negb_true_iff, String.eqb_neq in Hne. }
  assert (Hcat : map hop_of picked ++ [hop_of dest] = map hop_of (picked ++ [dest])) by by rewrite map_app.
  assert (HN : NoDup (map pe_ID (picked ++ [dest]))).
  { rewrite map_app. apply NoDup_app. split_and!; [done| |apply NoDup_singleton]. intros x (y & -> & Hy)%list_elem_of_fmap He%list_elem_of_singleton.
    rewrite Forall_forall in Hall. by apply (Hall y Hy). }
  assert (HF : Forall (fun x => x ∈ relays) (picked ++ [dest])).
  { apply Forall_app. split; [eapply Forall_impl; [exact Hall|]; by intros x [? _]|by constructor]. }
  assert (HL : len (picked ++ [dest]) <= sf_hopCount t) by (unfold len; rewrite length_app, Hl; unfold path_len; cbn [length]; lia).
  rewrite Hcat. destruct (picked ++ [dest]) as [|r rest] eqn:E; [by destruct picked|]. by exists r, rest.
Qed.

Lemma decoyPacket_fields now nowStr payload :
  p_Type (decoyPacket t now nowStr payload) = PacketTypeData /\ p_Decoy (decoyPacket t now nowStr payload) = true /\ anonymous_packet (decoyPacket t now nowStr payload).
Proof using Type. unfold decoyPacket. match goal with |- context [padPacket ?c ?q] => destruct (padPacket_fields c q) as [d ->] end. done. Qed.

Lemma sendCover_emits nodes rnd payload : NoDup (map n_ID nodes) -> emits (cover_emission nodes) (sendCover t env nodes rnd payload) (fun _ => True).
Proof using Type.
  intros Hn. unfold sendCover. destruct (tc_nodePriv _); [|by apply emits_ok]. destruct (Z.ltb_spec (sf_hopCount t) 1); [by apply emits_ok|].
  eapply emits_bind; [by apply relays_for_emits|]. intros relays [H1 H2]. destruct (relays !! _) as [dest|] eqn:Ed; [|by apply emits_ok].
  apply list_elem_of_lookup_2 in Ed. fold (cover_path relays dest). destruct (cover_path_spec relays dest H1 Ed ltac:(lia)) as (r & rest & -> & Hnd & Hall & Hl).
  cbn [map]. change (hop_of r :: map hop_of rest) with (map hop_of (r :: rest)). destruct (toOnionHops (map hop_of (r :: rest))) as [oh|] eqn:Eo; [|by apply emits_ok].
  eapply emits_bind; [apply draw_n_emits|]. intros ds _ w. destruct (BuildOnion oh ds _) as [blob|] eqn:Eb; [|by split].
  split; [|done]. destruct (decoyPacket_fields (clock_now env w).1 (clock_now env w).2 payload) as (D1 & D2 & D3).
  assert (Hrel : Forall (relay_among nodes (sf_selfID t)) (r :: rest)) by (eapply Forall_impl; [exact Hall|]; intros x Hx; rewrite Forall_forall in H2; by apply H2).
  apply sendRelayHop_grows.
  - intros now nowStr. eexists r, rest, oh, ds, _, blob. split_and!; try done. left. by exists now, nowStr.
  - eexists r, rest, oh, ds, _, blob. split_and!; try done. by right.
Qed.

(** It emits at most two packets: the second where the first transport failed. *)
Lemma sendRelayHop_log node addr blob w : exists es, w_log (sendRelayHop t env node addr blob w).1 = w_log w ++ es /\ (1 <= length es <= 2)%nat /\
  w_standing (sendRelayHop t env node addr blob w).1 = w_standing w.
Proof using Type.
  unfold sendRelayHop, sendRelayBlob, sendRelayViaLink, emit_to.
  repeat match goal with |- context [if ?b then _ else _] => destruct b end; cbn;
    try (eexists; split; [reflexivity|cbn; split; [lia|done]]); (eexists [_; _]; split; [by rewrite <- app_assoc|cbn; split; [lia|done]]).
Qed.

Lemma sendCover_log nodes rnd payload w : exists es, w_log (sendCover t env nodes rnd payload w).1 = w_log w ++ es /\ (length es <= 2)%nat.
Proof using Type.
  assert (H0 : forall w', w_log w' = w_log w -> exists es, w_log w' = w_log w ++ es /\ (length es <= 2)%nat) by (intros w' E; exists []; rewrite app_nil_r; cbn; split; [done|lia]).
  unfold sendCover. destruct (tc_nodePriv _); [|by apply H0]. destruct (_ <? _); [by apply H0|]. unfold act_bind at 1, relays_for.
  destruct (relayPeers _ _ _ _) as [st relays]. destruct (relays !! _); [|by apply H0]. fold (cover_path relays p). destruct (cover_path relays p) as [|h hops]; [by apply H0|].
  destruct (toOnionHops _); [|by apply H0]. cbn. destruct (BuildOnion _ _ _); [|by apply H0]. cbn.
  match goal with |- context [sendRelayHop t env ?n ?a ?b ?w1] => destruct (sendRelayHop_log n a b w1) as (es & H1 & H2 & _) end. exists es. split; [exact H1|lia].
Qed.
(** *** When a turn sends a decoy *)

Lemma relayPeers_keeps now nodes excl st id :
  rp_excommunions st !! id = None -> rp_excommunions (relayPeers now nodes excl st).1 !! id = None.
Proof using Type.
  revert st. induction nodes as [|n nodes IH]; intros st H; cbn [relayPeers]; [done|]. destruct (_ || _); [by apply IH|].
  assert (H1 : rp_excommunions (isExcommunicated now (n_ID n) st).1 !! id = None).
  { unfold isExcommunicated. destruct (rp_excommunions st !! n_ID n); [|done]. destruct (_ <? _); [done|]. cbn. apply lookup_delete_None. by right. }
  destruct (isExcommunicated now (n_ID n) st) as [st1 out]. specialize (IH st1 H1). destruct (relayPeers now nodes excl st1). exact IH.
Qed.

Lemma relayPeers_offers now nodes excl st n :
  n ∈ nodes -> routable excl n = true -> rp_excommunions st !! n_ID n = None -> relay_peer n ∈ (relayPeers now nodes excl st).2.
Proof using Type.
  revert st. induction nodes as [|m nodes IH]; intros st Hin Hr Hx; [by apply not_elem_of_nil in Hin|]. cbn [relayPeers].
  apply elem_of_cons in Hin as [->|Hin].
  - unfold routable in Hr. apply negb_true_iff in Hr. rewrite Hr. unfold isExcommunicated. rewrite Hx.
    destruct (relayPeers now nodes excl st). left.
  - destruct (_ || _); [by apply IH|]. assert (H1 : rp_excommunions (isExcommunicated now (n_ID m) st).1 !! n_ID n = None).
    { unfold isExcommunicated. destruct (rp_excommunions st !! n_ID m); [|done]. destruct (_ <? _); [done|]. cbn. apply lookup_delete_None. by right. }
    destruct (isExcommunicated now (n_ID m) st) as [st1 out]. specialize (IH st1 Hin Hr H1). destruct (relayPeers now nodes excl st1) as [st2 rest].
    cbn [snd] in *. destruct out; [done|by right].
Qed.

Lemma toOnionHops_valid ps : Forall (fun r => exists priv, pe_PubKey r = x_public priv) ps ->
  exists privs, length privs = length ps /\ toOnionHops (map hop_of ps) = Ok (zip_with hop_for privs (map (fun r => (pe_ID r, pe_Address r)) ps)).
Proof using L.
  induction 1 as [|r ps [priv Hk] _ (privs & Hl & IH)]; [by exists []|]. exists (priv :: privs). split; [cbn; by rewrite Hl|].
  cbn [map toOnionHops hop_of h_PubKey zip_with]. unfold NewPublicKey. rewrite Hk, x_public_valid, IH. by unfold hop_for.
Qed.

(** What a turn needs to send a decoy: an onion key and a hop count, a relay in good
    standing, relays whose keys are keys, and lengths within their fields. *)
Record can_cover (turn : coverTurn) (w : world) : Prop := {
  cc_key : is_Some (tc_nodePriv (sf_transfer t)) /\ 1 <= sf_hopCount t;
  cc_relay : exists n, n ∈ ct_nodes turn /\ routable (sf_selfID t) n = true /\ rp_excommunions (w_standing w) !! n_ID n = None;
  cc_keys n : n ∈ ct_nodes turn -> hasCapability (n_Capabilities n) "relay" = true -> exists priv, n_PubKey n = x_public priv;
  cc_draws i : wf_draws (v_draw env i);
  cc_fits k ns : Forall (fun n => n ∈ ct_nodes turn) ns -> len ns <= sf_hopCount t ->
    onion_size (map (fun n => (n_ID n, peerDialAddr n)) ns) (buildDecoyInner t (v_clock env k).1 (v_clock env k).2 (ct_payload turn)) < 2 ^ 32
}.

Lemma sendCover_standing nodes rnd payload w id :
  rp_excommunions (w_standing w) !! id = None -> rp_excommunions (w_standing (sendCover t env nodes rnd payload w).1) !! id = None.
Proof using Type.
  intros H. unfold sendCover. destruct (tc_nodePriv _); [|done]. destruct (_ <? _); [done|]. unfold act_bind at 1, relays_for.
  pose proof (relayPeers_keeps (clock_now env w).1 nodes (sf_selfID t) (w_standing w) id H) as H1. destruct (relayPeers _ _ _ _) as [st relays]. cbn [fst] in H1.
  destruct (relays !! _); [|done]. fold (cover_path relays p). destruct (cover_path relays p) as [|h hops]; [done|].
  destruct (toOnionHops _); [|done]. cbn. destruct (BuildOnion _ _ _); [|done]. cbn.
  match goal with |- context [sendRelayHop t env ?n ?a ?b ?w1] => destruct (sendRelayHop_log n a b w1) as (es & _ & _ & ->) end. exact H1.
Qed.

Lemma sendCover_sends turn rnd w : NoDup (map n_ID (ct_nodes turn)) -> can_cover turn w ->
  w_log (sendCover t env (ct_nodes turn) rnd (ct_payload turn) w).1 <> w_log w.
Proof using L.
  intros Hn [[[priv Hk] Hh] (n & Hin & Hr & Hx) Hkeys Hdraw Hfit]. unfold sendCover. rewrite Hk, (proj2 (Z.ltb_ge _ _)) by lia.
  unfold act_bind at 1, relays_for. pose proof (relayPeers_offers (clock_now env w).1 (ct_nodes turn) (sf_selfID t) (w_standing w) n Hin Hr Hx) as Hoff.
  destruct (relayPeers_sublist (clock_now env w).1 (ct_nodes turn) (sf_selfID t) (w_standing w)) as (ns & E & Hsub & Hns).
  destruct (relayPeers _ _ _ _) as [st relays]. cbn [snd] in *. subst relays.
  assert (Hlen : 0 < len (map relay_peer ns)) by (destruct (map relay_peer ns); [by apply not_elem_of_nil in Hoff|rewrite len_cons; pose proof (len_nonneg l); lia]).
  assert (Hpos : (Z.to_nat (rnd mod len (map relay_peer ns)) < length (map relay_peer ns))%nat) by (pose proof (Z.mod_pos_bound rnd _ Hlen); unfold len in *; lia).
  destruct (lookup_lt_is_Some_2 _ _ Hpos) as [dest Hd]. rewrite Hd. apply list_elem_of_lookup_2 in Hd. fold (cover_path (map relay_peer ns) dest).
  assert (Hnd : NoDup (map pe_ID (map relay_peer ns))) by (rewrite map_map; cbn; apply (fmap_sublist n_ID) in Hsub; by eapply sublist_NoDup).
  destruct (cover_path_spec (map relay_peer ns) dest Hnd Hd Hh) as (r & rest & -> & _ & Hall & Hl).
  assert (Hps : exists ms, r :: rest = map relay_peer ms /\ Forall (fun m => m ∈ ns) ms).
  { clear -Hall. induction Hall as [|x ps Hx _ (ms & -> & Hms)]; [by exists []|]. apply list_elem_of_fmap in Hx as (m & -> & Hm). exists (m :: ms). split; [done|by constructor]. }
  destruct Hps as (ms & Eps & Hms). destruct ms as [|m ms]; [done|]. rewrite Eps in Hl. injection Eps as -> ->.
  assert (Hval : Forall (fun r => exists priv, pe_PubKey r = x_public priv) (map relay_peer (m :: ms))).
  { apply Forall_fmap. eapply Forall_impl; [exact Hms|]. intros m' Hm. rewrite Forall_forall in Hns. destruct (Hns m' Hm) as [_ Hc]. apply Hkeys; [exact (elem_of_sublist _ _ _ Hm Hsub)|done]. }
  destruct (toOnionHops_valid _ Hval) as (privs & Hpl & Eo). cbn [map] in Eo |- *. rewrite Eo.
  unfold act_bind, draw_n. cbv beta iota zeta.
  match goal with |- context [BuildOnion ?oh ?ds ?pl] => destruct (BuildOnion_forward privs (map (fun r => (pe_ID r, pe_Address r)) (map relay_peer (m :: ms))) ds pl) as (blob & _ & Hb & _) end.
  - by rewrite length_map.
  - rewrite !length_map, length_seq. cbn [length]. by rewrite !length_map.
  - done.
  - apply Forall_fmap, Forall_forall. intros i _. apply Hdraw.
  - rewrite map_map. cbn [relay_peer pe_ID pe_Address]. apply Hfit; [eapply Forall_impl; [exact Hms|]; intros x Hx'; exact (elem_of_sublist _ _ _ Hx' Hsub)|]. by rewrite len_map in Hl.
  - cbn [map] in Hb. rewrite Hb. cbn [fst].
    match goal with |- context [sendRelayHop t env ?n ?a ?b ?w1] => destruct (sendRelayHop_log n a b w1) as (es & H1 & H2 & _) end.
    rewrite H1. cbn [w_log]. intros H0. apply (f_equal length) in H0. rewrite length_app in H0. lia.
Qed.

(** ** The loop *)

Lemma maintainCover_times now turns w :
  map at_time (maintainCover t env now turns w).2 = cover_times now (map (fun turn => (ct_wait turn, ct_took turn)) turns).
Proof using Type.
  revert now w. induction turns as [|turn turns IH]; intros now w; [done|]. cbn [maintainCover map cover_times]. destruct (ct_took turn); [|done].
  match goal with |- context [maintainCover t env ?a turns ?b] => specialize (IH a b); destruct (maintainCover t env a turns b) end. cbn [snd map at_time] in *. by rewrite IH.
Qed.

(** What an attempt of a turn hands to the network. *)
Definition attempt_ok (w : world) (turn : coverTurn) (a : attempt) : Prop :=
  Forall (cover_emission (ct_nodes turn)) (at_sent a) /\ (length (at_sent a) <= 2)%nat /\ (can_cover turn w -> at_sent a <> []).

Lemma can_cover_later turn w w' :
  (forall id, rp_excommunions (w_standing w) !! id = None -> rp_excommunions (w_standing w') !! id = None) -> can_cover turn w -> can_cover turn w'.
Proof using Type. intros H [H1 (n & H2 & H3 & H4) H5 H6 H7]. split; try done. exists n. auto. Qed.

Lemma maintainCover_sends now turns w :
  Forall (fun turn => NoDup (map n_ID (ct_nodes turn))) turns ->
  let '(w', l) := maintainCover t env now turns w in
  w_log w' = w_log w ++ concat (map at_sent l) /\
  forall i turn a, turns !! i = Some turn -> l !! i = Some a -> attempt_ok w turn a.
Proof using L.
  intros Hn. revert now w. induction Hn as [|turn turns Hnd Hn IH]; intros now w; cbn [maintainCover]; [split; [by rewrite app_nil_r|by intros ? ? ? ?]|].
  destruct (ct_took turn) as [took|]; [|split; [by rewrite app_nil_r|by intros ? ? ? ?]].
  set (rnd := randUint64 (ct_pick turn)). set (w1 := (sendCover t env (ct_nodes turn) rnd (ct_payload turn) w).1).
  specialize (IH (now + cover_wait (ct_wait turn) + took) w1). destruct (maintainCover t env _ turns w1) as [w2 l]. destruct IH as [IH1 IH2].
  destruct (sendCover_log (ct_nodes turn) rnd (ct_payload turn) w) as (es & He & Hle). fold w1 in He.
  assert (Hdrop : drop (length (w_log w)) (w_log w1) = es) by (rewrite He; apply drop_app_length). rewrite Hdrop. split.
  - cbn [map concat at_sent]. by rewrite IH1, He, <- app_assoc.
  - intros [|i] turn' a Ht Ha; cbn in Ht, Ha.
    + injection Ht as <-. injection Ha as <-. split_and!; [|done|].
      * destruct (proj1 (sendCover_emits (ct_nodes turn) rnd (ct_payload turn) Hnd w)) as (es' & He' & Hf). fold w1 in He'.
        rewrite He in He'. apply app_inv_head in He'. by subst es'.
      * intros Hc. cbn [at_sent]. intros ->. apply (sendCover_sends turn rnd w Hnd Hc). fold w1. by rewrite He, app_nil_r.
    + destruct (IH2 i turn' a Ht Ha) as (H1 & H2 & H3). split_and!; try done. intros Hc. apply H3. eapply can_cover_later; [|exact Hc].
      intros id. apply sendCover_standing.
Qed.
End Cover.

(** C25: Decoys keep their distance and are what they should be.  Reading the waits off
    their timers, between the end of one call of [sendCover] and the next lie at least
    eight and less than sixteen seconds, whatever the randomness (eight exactly where it
    fails), so that the [n]-th cannot come sooner than [8n] seconds after the start, and
    there is one for each turn until the node stops.  A call may send nothing; all that
    the loop hands to the network are, at most two packets a call (the second when the
    first transport failed), onions through distinct relays, no more than the hop count,
    around a packet marked as a decoy that names no sender.  And a call does send one if
    the node has its onion key and a positive hop count, knows a relay in good standing,
    the relays' keys are keys and the sizes fit their fields. *)
Theorem cover_cadence `{C : CryptoOps} `{L : !CryptoLaws C} `{N : NetOps} t env now turns w :
  Forall (fun turn => match ct_took turn with Some took => 0 <= took | None => True end) turns ->
  Forall (fun turn => NoDup (map n_ID (ct_nodes turn))) turns ->
  let '(w', l) := maintainCover t env now turns w in
  (forall i a, l !! i = Some a ->
     (exists turn took before, turns !! i = Some turn /\ ct_took turn = Some took /\
        coverBaseInterval <= at_time a - before < 2 * coverBaseInterval /\
        (ct_wait turn = None -> at_time a - before = coverBaseInterval) /\
        match i with
        | O => before = now
        | S j => exists a' turn' took', l !! j = Some a' /\ turns !! j = Some turn' /\ ct_took turn' = Some took' /\ before = at_time a' + took'
        end) /\
     now + (Z.of_nat i + 1) * coverBaseInterval <= at_time a) /\
  (forall i, (i < length l)%nat <-> forall j, (j <= i)%nat -> exists turn, turns !! j = Some turn /\ is_Some (ct_took turn)) /\
  w_log w' = w_log w ++ concat (map at_sent l) /\
  forall i turn a, turns !! i = Some turn -> l !! i = Some a -> attempt_ok t env w turn a.
Proof.
  intros Ht Hn. set (pairs := map (fun turn => (ct_wait turn, ct_took turn)) turns).
  assert (Hp : Forall (fun t => match t.2 with Some took => 0 <= took | None => True end) pairs) by (apply Forall_fmap; exact Ht).
  destruct (cover_times_spec now pairs Hp) as [Ha Hb]. unfold pairs in Ha, Hb. rewrite <- (maintainCover_times t env now turns w) in Ha, Hb.
  pose proof (maintainCover_sends t env now turns w Hn) as Hs. destruct (maintainCover t env now turns w) as [w' l]. cbn [snd] in Ha, Hb.
  assert (Hl : forall j u, map at_time l !! j = Some u -> exists a, l !! j = Some a /\ u = at_time a).
  { intros j u Hj. apply list_lookup_fmap_Some in Hj as (a & -> & Hj). by exists a. }
  assert (Hq : forall j rd took, map (fun turn => (ct_wait turn, ct_took turn)) turns !! j = Some (rd, took) ->
    exists turn, turns !! j = Some turn /\ rd = ct_wait turn /\ took = ct_took turn).
  { intros j rd took Hj. apply list_lookup_fmap_Some in Hj as (turn & [= -> ->] & Hj). by exists turn. }
  split; [|split; [|exact Hs]].
  - intros i a Hi. destruct (Ha i (at_time a)) as [(rd & took & before & H1 & H2 & H3 & H4) H5]; [change (map at_time l) with (at_time <$> l); by rewrite list_lookup_fmap, Hi|].
    split; [|exact H5]. apply Hq in H1 as (turn & H1 & -> & Hk). exists turn, took, before. split_and!; try done; try lia.
    destruct i as [|j]; [done|]. destruct H4 as (u & rd' & took' & (a' & E1 & ->)%Hl & (turn' & E2 & _ & E3)%Hq & ->). by exists a', turn', took'.
  - intros i. rewrite <- (length_map at_time l), (Hb i). split; intros H j Hj.
    + destruct (H j Hj) as (rd & took & (turn & E1 & _ & E2)%Hq). exists turn. split; [done|]. by exists took.
    + destruct (H j Hj) as (turn & E1 & [took E2]). exists (ct_wait turn), took. change (map ?f turns) with (f <$> turns). by rewrite list_lookup_fmap, E1, <- E2.
Qed.

(** A node of two hops among two relays, a turn with random bytes, one without, and the
    node is stopped during the third. *)
Definition cover_config : SendConfig := sample_send 2 false false (Some [x07]).
Definition cover_turns : list coverTurn :=
  [mkTurn (Some (repeat x00 7 ++ [x05])) (Some 3) sample_net (Some (repeat x00 8)) [x01]; mkTurn None (Some 0) sample_net None [x02]; mkTurn None None [] None []].
Abbreviation cover_env := (sample_env_with sample_net (fun _ => [])).

Lemma cover_turn_ready nodes rd took pick b :
  nodes = sample_net -> can_cover (C := toy_ops) cover_config cover_env (mkTurn rd took nodes pick [b]) empty_world.
Proof.
  intros ->. split.
  - split; [by eexists|vm_compute; discriminate].
  - exists (node_at "r1" x01 ["relay"] []). split_and!; [left|reflexivity|reflexivity].
  - intros n [->|[->|[->|[]%not_elem_of_nil]%elem_of_cons]%elem_of_cons]%elem_of_cons _; by eexists.
  - intros i. reflexivity.
  - intros k ns Hns Hl. change (ct_nodes _) with sample_net in Hns. destruct ns as [|n1 [|n2 [|n3 ns]]].
    4: { exfalso. rewrite !len_cons in Hl. pose proof (len_nonneg ns). change (sf_hopCount cover_config) with 2 in Hl. lia. }
    all: repeat match goal with
      | H : Forall _ (_ :: _) |- _ => apply Forall_cons in H as [? H]
      | H : ?n ∈ sample_net |- _ => apply elem_of_cons in H as [->|[->|[->|[]%not_elem_of_nil]%elem_of_cons]%elem_of_cons]
      end; destruct b; vm_compute; reflexivity.
Qed.

Lemma cover_cadence_witness :
  let '(w, l) := maintainCover (C := toy_ops) (N := toy_net) cover_config cover_env 0 cover_turns empty_world in
  map at_time l = [8000000005; 16000000008] /\ w_log w = concat (map at_sent l) /\
  (forall a, l !! 0%nat = Some a -> Forall (cover_emission (C := toy_ops) cover_config sample_net) (at_sent a) /\ at_sent a <> []).
Proof.
  pose proof (cover_cadence (C := toy_ops) (L := toy_laws) (N := toy_net) cover_config cover_env 0 cover_turns empty_world) as H.
  assert (H1 : Forall (fun turn => match ct_took turn with Some took => 0 <= took | None => True end) cover_turns) by (repeat constructor; cbn; lia).
  assert (H2 : Forall (fun turn => NoDup (map n_ID (ct_nodes turn))) cover_turns) by (repeat constructor; apply (bool_decide_unpack _); vm_compute; exact I).
  specialize (H H1 H2). pose proof (maintainCover_times (C := toy_ops) (N := toy_net) cover_config cover_env 0 cover_turns empty_world) as Ht.
  destruct (maintainCover cover_config cover_env 0 cover_turns empty_world) as [w l]. destruct H as (_ & _ & H3 & H4). split_and!.
  - cbn [snd] in Ht. rewrite Ht. vm_compute. reflexivity.
  - exact H3.
  - intros a Ha. destruct (H4 0%nat _ a eq_refl Ha) as (H5 & _ & H6). split; [exact H5|]. apply H6. by apply cover_turn_ready.
Defined.

(** Each of the two turns sends a decoy; a node that does not forward sends none. *)
Example covers_sent :
  map (fun a => length (at_sent a)) (maintainCover (C := toy_ops) (N := toy_net) cover_config cover_env 0 cover_turns empty_world).2 = [1; 1]%nat /\
  map (fun a => length (at_sent a)) (maintainCover (C := toy_ops) (N := toy_net) (sample_send 0 false false (Some [x07])) cover_env 0 cover_turns empty_world).2 = [0; 0]%nat.
Proof. vm_compute. split; reflexivity. Qed.

(** ** Ticker loops *)

(** A loop that runs a round when the ticker's channel, of capacity one, has a tick, and
    returns when it takes [ctx.Done] instead or when [until] holds after a round. *)
Record loop (S : Type) : Type := mkLoop { lp_state : S; lp_tick : bool; lp_stopped : bool; lp_running : bool }.
Arguments mkLoop {S}.
Arguments lp_state {S}.
Arguments lp_tick {S}.
Arguments lp_stopped {S}.
Arguments lp_running {S}.

Inductive loop_event (A : Type) : Type :=
| LTick                (** the timer fires; a tick that finds the channel full is lost *)
| LStop                (** the context is cancelled *)
| LRound (a : A)       (** the [select] takes the tick; [a] is what the round finds *)
| LReturn.             (** the [select] takes [ctx.Done] *)
Arguments LTick {A}.
Arguments LStop {A}.
Arguments LRound {A}.
Arguments LReturn {A}.

Section Loop.
Context {S A : Type} (round : A -> S -> S) (until : S -> bool).

Definition loop_step (ev : loop_event A) (l : loop S) : option (loop S) :=
  match ev with
  | LTick => Some (mkLoop (lp_state l) true (lp_stopped l) (lp_running l))
  | LStop => Some (mkLoop (lp_state l) (lp_tick l) true (lp_running l))
  | LRound a =>
      if lp_running l && lp_tick l then let s := round a (lp_state l) in Some (mkLoop s false (lp_stopped l) (negb (until s))) else None
  | LReturn => if lp_running l && lp_stopped l then Some (mkLoop (lp_state l) (lp_tick l) true false) else None
  end.

Fixpoint loop_run (evs : list (loop_event A)) (l : loop S) : option (loop S) :=
  match evs with [] => Some l | ev :: evs => match loop_step ev l with Some l => loop_run evs l | None => None end end.

Definition loop_start (s : S) : loop S := mkLoop s false false true.

Definition ticks (evs : list (loop_event A)) : nat := length (List.filter (fun ev => match ev with LTick => true | _ => false end) evs).
Definition rounds (evs : list (loop_event A)) : list A := omap (fun ev => match ev with LRound a => Some a | _ => None end) evs.

(** The rounds in order, up to and with the first after which the loop ends itself. *)
Fixpoint do_rounds (l : list A) (s : S) : option S :=
  match l with
  | [] => Some s
  | a :: l => let s := round a s in if until s then match l with [] => Some s | _ => None end else do_rounds l s
  end.

Definition pending (l : loop S) : nat := if lp_tick l then 1 else 0.

Lemma loop_step_room ev l l' : loop_step ev l = Some l' -> (length (rounds [ev]) + pending l' <= pending l + ticks [ev])%nat.
Proof using Type.
  destruct ev; unfold loop_step, pending; [intros [= <-]|intros [= <-]| |]; cbn; try (destruct (lp_tick l); lia).
  - destruct (lp_running l), (lp_tick l); intros [= <-]. cbn. lia.
  - destruct (lp_running l), (lp_stopped l); intros [= <-]. cbn. destruct (lp_tick l); lia.
Qed.

Lemma loop_run_room evs l l' : loop_run evs l = Some l' -> (length (rounds evs) + pending l' <= pending l + ticks evs)%nat.
Proof using Type.
  revert l. induction evs as [|ev evs IH]; intros l; cbn [loop_run]; [intros [= <-]; cbn; lia|]. destruct (loop_step ev l) as [l1|] eqn:Es; [|done]. intros H%IH.
  apply loop_step_room in Es. unfold rounds, ticks in *. destruct ev; cbn in *; lia.
Qed.

Lemma loop_run_app evs evs' l : loop_run (evs ++ evs') l = match loop_run evs l with Some l' => loop_run evs' l' | None => None end.
Proof using Type. revert l. induction evs as [|ev evs IH]; intros l; cbn [app loop_run]; [done|]. by destruct (loop_step ev l). Qed.

(** A loop that has returned does nothing more. *)
Lemma loop_over evs l l' : lp_running l = false -> loop_run evs l = Some l' -> lp_running l' = false /\ rounds evs = [] /\ lp_state l' = lp_state l.
Proof using Type.
  revert l. induction evs as [|ev evs IH]; intros l Hr; cbn [loop_run]; [by intros [= <-]|]. destruct (loop_step ev l) as [l1|] eqn:Es; [|done].
  intros H. destruct ev; cbn in Es; rewrite ?Hr in Es; simplify_eq; apply IH in H as (? & ? & ?); done.
Qed.

Lemma loop_run_rounds evs l l' : lp_running l = true -> loop_run evs l = Some l' ->
  do_rounds (rounds evs) (lp_state l) = Some (lp_state l') /\
  (lp_running l' = false -> lp_stopped l' = true \/ until (lp_state l') = true).
Proof using Type.
  revert l. induction evs as [|ev evs IH]; intros l Hr; cbn [loop_run]; [intros [= <-]; split; [done|by rewrite Hr]|].
  destruct (loop_step ev l) as [l1|] eqn:Es; [|done]. intros H.
  destruct ev as [| |a|]; cbn in Es; rewrite ?Hr in Es; [simplify_eq; by apply IH in H|simplify_eq; by apply IH in H| |].
  - destruct (lp_tick l); [|done]. cbn in Es. injection Es as <-. change (rounds (LRound a :: evs)) with (a :: rounds evs). cbn [do_rounds].
    destruct (until (round a (lp_state l))) eqn:Eu; [|by apply IH in H].
    apply loop_over in H as (H1 & -> & H3); [|done]. cbn in H3. rewrite H3. split; [done|]. by right.
  - destruct (lp_stopped l) eqn:Est; [|done]. cbn in Es. injection Es as <-. change (rounds (LReturn :: evs)) with (rounds evs).
    clear IH. assert (Hs : forall evs l, loop_run evs l = Some l' -> lp_stopped l = true -> lp_stopped l' = true).
    { clear. induction evs as [|ev evs IH]; intros l; cbn [loop_run]; [by intros [= <-]|]. destruct (loop_step ev l) as [l1|] eqn:Es; [|done].
      intros H Hs. apply (IH _ H). destruct ev; cbn in Es; [by simplify_eq|by simplify_eq| |]; destruct (_ && _); by simplify_eq. }
    pose proof (Hs _ _ H eq_refl) as Hst. apply loop_over in H as (H1 & -> & H3); [|done]. cbn in H3. rewrite H3. split; [done|]. by left.
Qed.
End Loop.

(** However ticks, rounds and the stop interleave, a loop has done its rounds one after
    another on its state; in no stretch of the run more than one more than the timer
    fired in it; it ends only because the node stopped or the round it ended with was the
    first to satisfy [until]; after its end no round runs; and while it runs a stop lets
    it return at once. *)
Theorem ticker_loop {S A} (round : A -> S -> S) (until : S -> bool) evs s l :
  loop_run round until evs (loop_start s) = Some l ->
  do_rounds round until (rounds evs) s = Some (lp_state l) /\
  (forall before during after, evs = before ++ during ++ after -> (length (rounds during) <= 1 + ticks during)%nat) /\
  (length (rounds evs) <= ticks evs)%nat /\
  (lp_running l = false -> (lp_stopped l = true \/ until (lp_state l) = true) /\
     forall evs' l', loop_run round until evs' l = Some l' -> rounds evs' = [] /\ lp_state l' = lp_state l) /\
  (lp_running l = true -> exists l', loop_run round until [LStop; LReturn] l = Some l' /\ lp_running l' = false /\ lp_state l' = lp_state l).
Proof.
  intros H. pose proof (loop_run_rounds round until evs (loop_start s) l eq_refl H) as [H1 H2]. split_and!.
  - exact H1.
  - intros before during after ->. rewrite loop_run_app in H. destruct (loop_run round until before _) as [l1|]; [|done].
    rewrite loop_run_app in H. destruct (loop_run round until during l1) as [l2|] eqn:E; [|done]. apply loop_run_room in E. unfold pending in E. destruct (lp_tick l1), (lp_tick l2); lia.
  - pose proof (loop_run_room round until _ _ _ H) as Hr. unfold pending in Hr. cbn in Hr. lia.
  - intros Hr. split; [by apply H2|]. intros evs' l' H'. by apply (loop_over round until) in H' as (_ & ? & ?).
  - intros Hr. cbn [loop_run loop_step lp_running lp_stopped]. rewrite Hr. cbn. by eexists.
Qed.

(** ** The loops *)

(** [reapPool]: a round closes the idle connections. *)
Definition reapPool (ord : gmap string (list pooledConn) -> list (string * list pooledConn)) : list (loop_event Z) -> loop pool_state -> option (loop pool_state) :=
  loop_run (do_reap ord) (fun _ => false).

(** [maintainReputation]: a round finds the clock, the nodes and how the probes end. *)
Definition maintainReputation (sg : scoring) (selfID : string) :
    list (loop_event (Z * list Node * (string -> bool))) -> loop standing -> option (loop standing) :=
  loop_run (fun a st => (probeRound sg a.1.1 selfID a.1.2 a.2 st).1) (fun _ => false).

(** [initialReachabilityCheck]: a round finds the data port, the peers asked and what
    they answer; a verdict ends the loop. *)
Definition initialReachabilityCheck : list (loop_event (Z * Z * list reach_event)) -> loop Reach -> option (loop Reach) :=
  loop_run (fun a r => (checkReachability r a.1.1 a.1.2 a.2).1) r_known.

(** Two failing answers end the first rounds with a verdict; the round before it found
    nobody to ask. *)
Lemma ticker_loop_witness :
  let evs := [LTick; LRound (7001, 0, []); LTick; LTick; LRound (7001, 2, [EvResult false; EvResult false]); LTick] in
  let l := mkLoop (mkReachState true false 0) true false false in
  initialReachabilityCheck evs (loop_start (mkReachState false false 0)) = Some l /\
  (forall evs' l', initialReachabilityCheck evs' l = Some l' -> rounds evs' = [] /\ lp_state l' = lp_state l).
Proof.
  cbv zeta. assert (H : initialReachabilityCheck [LTick; LRound (7001, 0, []); LTick; LTick; LRound (7001, 2, [EvResult false; EvResult false]); LTick]
    (loop_start (mkReachState false false 0)) = Some (mkLoop (mkReachState true false 0) true false false)) by reflexivity.
  split; [exact H|]. exact (proj2 (proj1 (proj2 (proj2 (proj2 (ticker_loop _ _ _ _ _ H)))) eq_refl)).
Defined.
