(* ===== verification/Relay.v ===== *)
(** * Relaying and receiving (internal/transfer/transfer.go, reservation.go, reputation.go)

    What a node does with an onion: peel a layer, forward the rest over a held circuit,
    a connection or a link, or hold it for an offline recipient; at the end of the path,
    drop a decoy, match a probe or an acknowledgement, or take in the fragment.  Also
    the three ways an acknowledgement goes back, and the probe of a relay.

    The state of a node is a [relayNode]; its sends go to a [world] as in Forward. *)

From S2P Require Import Prelude Crypto Wire Net Routing Encryption Fragment PeerTable Discovery Pieces Stream Acks.
From S2P Require Import Transfer Direct Offline Reputation Chunks Forward.

Record relayNode : Type := mkRelayNode {
  rn_config : SendConfig;
  rn_storeForward : bool;
  rn_offlineTTL : Z;
  rn_transfers : gmap bytes transferState;
  rn_acks : acks;
  rn_probes : gset bytes;
  rn_held : held;
  rn_circuits : circuits
}.

Definition with_transfers (n : relayNode) (m : gmap bytes transferState) : relayNode :=
  mkRelayNode (rn_config n) (rn_storeForward n) (rn_offlineTTL n) m (rn_acks n) (rn_probes n) (rn_held n) (rn_circuits n).
Definition with_acks (n : relayNode) (m : acks) : relayNode :=
  mkRelayNode (rn_config n) (rn_storeForward n) (rn_offlineTTL n) (rn_transfers n) m (rn_probes n) (rn_held n) (rn_circuits n).
Definition with_probes (n : relayNode) (p : gset bytes) : relayNode :=
  mkRelayNode (rn_config n) (rn_storeForward n) (rn_offlineTTL n) (rn_transfers n) (rn_acks n) p (rn_held n) (rn_circuits n).
Definition with_held (n : relayNode) (h : held) : relayNode :=
  mkRelayNode (rn_config n) (rn_storeForward n) (rn_offlineTTL n) (rn_transfers n) (rn_acks n) (rn_probes n) h (rn_circuits n).

(** What came of an onion or an inner packet. *)
Inductive relay_event : Type :=
  | RDropped                               (** unpeelable, or malformed inside *)
  | RDecoy
  | RProbe (id : bytes)                    (** one of our own probes came home *)
  | RAck (id : bytes) (r : resolved)
  | RIngested (o : ingested)
  | RForwarded (nextNode : string) (blob : bytes)
  | RHeld (nextNode : string) (blob : bytes).

Section Relay.
Context `{R : RSOps} `{C : CryptoOps} `{N : NetOps} `{RJ : ReplyJson}.
Context (env : sendEnv) (ord : gmap Z bytes -> list (Z * bytes)) (sink : bytes -> bool).

(** [rc.send] on a held connection. *)
Definition circuit_send (t : SendConfig) (rc : Z) (blob : bytes) (w : world) : world * bool :=
  emit_to env (XCircuit rc (relayPacket t (clock_now env w).1 (clock_now env w).2 blob)) w.

Definition forwardToNextHop (n : relayNode) (nextNode nextAddr : string) (blob : bytes) (w : world) : relayNode * world * list relay_event :=
  let t := rn_config n in
  let dial w :=
    let '(w, ok) := sendRelayHop t env nextNode nextAddr blob w in
    if ok then (n, w, [RForwarded nextNode blob])
    else (with_held n (storeOffline (rn_storeForward n) (rn_offlineTTL n) (clock_now env w).1 nextNode blob (rn_held n)), w, [RHeld nextNode blob]) in
  match reservationFor (rn_circuits n) nextNode with
  | Some rc =>
      let '(w, ok) := circuit_send t rc blob w in
      if ok then (n, w, [RForwarded nextNode blob]) else dial w
  | None => dial w
  end.

Definition handleRelayBlob (n : relayNode) (blob : bytes) (w : world) : relayNode * world * list relay_event :=
  let t := sf_transfer (rn_config n) in
  match tc_nodePriv t with
  | None => (n, w, [])
  | Some priv =>
      match PeelOnion priv blob with
      | Err _ => (n, w, [RDropped])
      | Ok peel =>
          if l_IsFinal peel then
            match UnmarshalBinary (l_Inner peel) with
            | Err _ => (n, w, [RDropped])
            | Ok inner =>
                if p_Decoy inner then (n, w, [RDecoy])
                else if p_Type inner =? PacketTypeAcknowledgement then
                  let '(probes, hit) := signalProbe (rn_probes n) (p_ID inner) in
                  if hit then (with_probes n probes, w, [RProbe (p_ID inner)])
                  else
                    let '(m, r) := signalAckToken (rn_acks n) (p_ID inner) (p_Payload inner) in
                    (with_acks n m, w, [RAck (p_ID inner) r])
                else
                  let '(tr, o) := ingestForwardedFragment t ord sink (clock_now env w).1 (rn_transfers n) inner false in
                  (with_transfers n tr, w, [RIngested o])
            end
          else forwardToNextHop n (l_NextNode peel) (l_NextAddr peel) (l_Inner peel) w
      end
  end.

Definition ingestRoutedFragment (n : relayNode) (inner : bytes) (now : Z) : relayNode * list relay_event :=
  match UnmarshalBinary inner with
  | Err _ => (n, [])
  | Ok pkt =>
      if p_Type pkt =? PacketTypeAcknowledgement then
        if Verify pkt then let '(m, r) := signalAckFrom (rn_acks n) (p_ID pkt) (p_SignerKey pkt) in (with_acks n m, [RAck (p_ID pkt) r]) else (n, [])
      else if p_Decoy pkt then (n, [RDecoy])
      else
        let '(tr, o) := ingestForwardedFragment (sf_transfer (rn_config n)) ord sink now (rn_transfers n) pkt true in
        (with_transfers n tr, [RIngested o])
  end.

(** ** Acknowledging *)

Definition sendAckReply (t : SendConfig) (rbBytes : bytes) (w : world) : world :=
  match rb_dec rbBytes with
  | None => w
  | Some rb => if String.eqb (rb_EntryAddr rb) "" then w else (sendRelayBlob t env (rb_EntryAddr rb) (rb_Blob rb) w).1
  end.

(** The signed acknowledgement of [id]: padded, then signed. *)
Definition signed_ack (t : SendConfig) (now : Z) (nowStr : bytes) (dest : string) (id : bytes) : Packet :=
  Sign (sf_signKey t) (padPacket (sf_padCell t)
    (set_position id (sf_selfID t) (new_fragment id 0 0 []) (NewPacket now nowStr PacketTypeAcknowledgement [] "" dest))).

Definition sendRoutedAck (t : SendConfig) (originID : string) (id : bytes) (w : world) : world :=
  if String.eqb originID "" || String.eqb originID (sf_selfID t) then w
  else (emit_to env (XRouted originID (MarshalBinary (signed_ack t (clock_now env w).1 (clock_now env w).2 originID id))) w).1.

(** [nodes] are the active nodes. *)
Definition sendAck (t : SendConfig) (nodes : list Node) (sourceID : string) (id : bytes) (w : world) : world :=
  if String.eqb sourceID "" || String.eqb sourceID (sf_selfID t) then w
  else
    match List.find (fun n => String.eqb (n_ID n) sourceID) nodes with
    | None => w
    | Some src => (emit_to env (XTCP (peerDialAddr src) (signed_ack t (clock_now env w).1 (clock_now env w).2 sourceID id)) w).1
    end.

(** Running the sends [ackWithRedundancy] chose. *)
Definition send_ack_path (t : SendConfig) (nodes : list Node) (w : world) (p : ack_path) : world :=
  match p with
  | PReply rb => sendAckReply t rb w
  | PRouted src id => sendRoutedAck t src id w
  | PDirect src id => sendAck t nodes src id w
  end.

(** ** Probing a relay *)

Definition probePacket (now : Z) (nowStr probeID : bytes) : Packet := ackPacket now nowStr probeID [].

(** [probeID] is random; the onion sent, if one can be built and written. *)
Definition probeRelay_send (t : SendConfig) (relay : Node) (probeID : bytes) : act bool :=
  match tc_nodePriv (sf_transfer t) with
  | None => ok false
  | Some priv =>
      match NewPublicKey (n_PubKey relay) with
      | Err _ => ok false
      | Ok relayPub =>
          let hops := [mkOnionHop (n_ID relay) (peerDialAddr relay) (Some relayPub); mkOnionHop (sf_selfID t) (sf_selfAddr t) (Some (x_public priv))] in
          let* ds := draw_n env 2 in
          fun w =>
            match BuildOnion hops ds (MarshalBinary (probePacket (clock_now env w).1 (clock_now env w).2 probeID)) with
            | Err _ => (w, Ok false)
            | Ok blob =>
                let '(w, sent) := emit_to env (XTCP (peerDialAddr relay) (relayPacket t (clock_now env w).1 (clock_now env w).2 blob)) w in (w, Ok sent)
            end
      end
  end.
End Relay.

(** ** Onions travel along their path *)

Lemma sendRelayHop_up `{C : CryptoOps} t env node addr blob w :
  (forall i, v_net env i = true) -> (sendRelayHop t env node addr blob w).2 = true.
Proof.
  intros Hup. unfold sendRelayHop, sendRelayViaLink, sendRelayBlob, emit_to. destruct (sf_onionOverLinks t); [destruct (String.eqb node "")|]; by rewrite !Hup.
Qed.

Section Travel.
Context `{R : RSOps} `{C : CryptoOps}.
Context (ord : gmap Z bytes -> list (Z * bytes)) (sink : bytes -> bool).
Context (net : string -> option (relayNode * sendEnv)) (key : string -> bytes).

(** An onion handed to [node]: each node that forwards it passes the rest to the node
    it names; where it ends, the node's new state and what came of it. *)
Fixpoint travel (fuel : nat) (node : string) (blob : bytes) : option (string * relayNode * list relay_event) :=
  match fuel with
  | O => None
  | S fuel =>
      match net node with
      | None => None
      | Some (n, env) =>
          match handleRelayBlob env ord sink n blob (mkWorld [] 0 (mkStanding ∅ ∅)) with
          | (_, _, [RForwarded next rest]) => travel fuel next rest
          | (n, _, evs) => Some (node, n, evs)
          end
      end
  end.

(** The node is up, can send, and has the private key [key] says it has. *)
Definition up (id : string) : Prop :=
  exists n env, net id = Some (n, env) /\ tc_nodePriv (sf_transfer (rn_config n)) = Some (key id) /\ forall i, v_net env i = true.

Lemma handle_forward env n k blob next addr inner w :
  tc_nodePriv (sf_transfer (rn_config n)) = Some k -> (forall i, v_net env i = true) ->
  PeelOnion k blob = Ok (mkLayer false addr next inner) ->
  exists w', handleRelayBlob env ord sink n blob w = (n, w', [RForwarded next inner]).
Proof.
  intros Hk Hup Hp. unfold handleRelayBlob. rewrite Hk, Hp. cbn [l_IsFinal l_NextNode l_NextAddr l_Inner]. unfold forwardToNextHop.
  assert (Hd : forall w, exists w', (let '(w, ok) := sendRelayHop (rn_config n) env next addr inner w in
    if ok then (n, w, [RForwarded next inner])
    else (with_held n (storeOffline (rn_storeForward n) (rn_offlineTTL n) (clock_now env w).1 next inner (rn_held n)), w, [RHeld next inner])) = (n, w', [RForwarded next inner])).
  { intros w0. pose proof (sendRelayHop_up (rn_config n) env next addr inner w0 Hup) as H. destruct (sendRelayHop _ _ _ _ _ w0) as [w' b]. cbn in H. subst b. eauto. }
  destruct (reservationFor _ _); [|apply Hd]. unfold circuit_send, emit_to. rewrite Hup. eauto.
Qed.

Lemma onion_travels path blob ps payload :
  path <> [] -> Forall (fun na => up na.1) path ->
  forward (map (fun na => key na.1) path) blob = Ok ps -> map seen_by ps = learnt path -> (l_Inner <$> last ps) = Some payload ->
  exists first dest n env rest,
    head path = Some first /\ last path = Some dest /\ net dest.1 = Some (n, env) /\
    PeelOnion (key dest.1) rest = Ok (mkLayer true "" "" payload) /\
    forall n' w' evs, handleRelayBlob env ord sink n rest (mkWorld [] 0 (mkStanding ∅ ∅)) = (n', w', evs) ->
      (forall next b, evs <> [RForwarded next b]) -> travel (length path) first.1 blob = Some (dest.1, n', evs).
Proof.
  revert blob ps. induction path as [|[id addr] path IH]; intros blob ps Hne Hup Hf Hs Hl; [done|]. apply Forall_cons in Hup as [Hup0 Hup].
  destruct Hup0 as (n & env & Hnet & Hk & Hok). cbn [fst] in *. cbn [map forward fst] in Hf.
  destruct (PeelOnion (key id) blob) as [p|] eqn:Hp; [|done]. destruct path as [|[id' addr'] path].
  - cbn in Hf. injection Hf as <-. destruct p as [fin a nn inner]. injection Hs as -> -> ->. cbn in Hl. injection Hl as ->.
    exists (id, addr), (id, addr), n, env, blob. split_and!; try done. intros n' w' evs He Hnf. cbn [length travel fst]. rewrite Hnet, He.
    destruct evs as [|[] [|]]; try done. by edestruct Hnf.
  - destruct (forward (map _ ((id', addr') :: path)) (l_Inner p)) as [ps'|] eqn:Hf'; [|done]. injection Hf as <-.
    destruct p as [fin a nn inner]. cbn [map seen_by learnt] in Hs. injection Hs as -> -> -> Hs. cbn [l_Inner] in Hf'.
    destruct (IH inner ps') as (first & dest & nd & envd & rest & H1 & H2 & H3 & H4 & H5); try done.
    { destruct ps'; [by destruct path as [|[]]|]. exact Hl. }
    exists (id, addr), dest, nd, envd, rest. split_and!; try done. intros n' w' evs He Hnf. specialize (H5 n' w' evs He Hnf).
    injection H1 as <-. destruct (handle_forward env n (key id) blob id' addr' inner (mkWorld [] 0 (mkStanding ∅ ∅)) Hk Hok Hp) as [w1 Hh].
    cbn [length travel fst] in *. rewrite Hnet, Hh. exact H5.
Qed.
End Travel.

(** ** The sender's side of a path *)

Lemma prefix_grows P w w' : grows P w w' -> w_log w `prefix_of` w_log w'.
Proof. intros (es & -> & _). by exists es. Qed.

(** A loop that succeeds ran every body successfully. *)
Lemma for_each_ok {A} (f : A -> act unit) l w w' x :
  (forall y, emits (fun _ => True) (f y) (fun _ => True)) -> for_each f l w = (w', Ok tt) -> x ∈ l ->
  exists w1 w2, f x w1 = (w2, Ok tt) /\ w_log w `prefix_of` w_log w1 /\ w_log w2 `prefix_of` w_log w'.
Proof.
  intros Hf. revert w. induction l as [|y l IH]; intros w Hl Hx; [by apply not_elem_of_nil in Hx|]. cbn [for_each] in Hl. unfold act_bind in Hl.
  destruct (f y w) as [w1 [[]|e]] eqn:Hy; [|done]. pose proof (prefix_grows _ _ _ (proj1 (Hf y w))) as Hp1. rewrite Hy in Hp1. cbn [fst] in Hp1.
  pose proof (prefix_grows _ _ _ (proj1 (emits_for_each (fun _ => True) f l ltac:(intros; apply Hf) w1))) as Hp2. rewrite Hl in Hp2. cbn [fst] in Hp2.
  apply elem_of_cons in Hx as [->|Hx]; [by exists w, w1|]. destruct (IH w1 Hl Hx) as (w2 & w3 & H1 & H2 & H3). exists w2, w3. split_and!; [done|by etrans|done].
Qed.

Section Sent.
Context `{C : CryptoOps} `{L : !CryptoLaws C} `{N : NetOps}.
Context (shuffle : Z -> list nat -> list Peer -> list Peer) (Hshuffle : forall seed before l, shuffle seed before l ≡ₚ l).
Context (t : SendConfig) (env : sendEnv).

(** Between [w] and [w'], [blob] was accepted by [r] over a connection or a link. *)
Definition handed (w w' : world) (r : Peer) (blob : bytes) : Prop :=
  exists j e, w_log w' !! j = Some e /\ (length (w_log w) <= j)%nat /\ v_net env j = true /\
    ((exists now nowStr, e = XTCP (pe_Address r) (relayPacket t now nowStr blob)) \/ e = XLink (pe_ID r) blob).

Lemma handed_mono w0 w w' w1 r blob : w_log w0 `prefix_of` w_log w -> w_log w' `prefix_of` w_log w1 -> handed w w' r blob -> handed w0 w1 r blob.
Proof.
  intros H0 H1 (j & e & Hj & Hl & Hn & He). exists j, e. split_and!; [|apply prefix_length in H0; lia|done|done]. by eapply prefix_lookup_Some.
Qed.

Lemma sendRelayHop_handed r blob w w' : sendRelayHop t env (pe_ID r) (pe_Address r) blob w = (w', true) -> handed w w' r blob.
Proof.
  assert (Ht : forall w w', sendRelayBlob t env (pe_Address r) blob w = (w', true) -> handed w w' r blob).
  { intros w1 w1'. unfold sendRelayBlob, emit_to. intros [= <- Hn]. eexists _, _. split_and!; [cbn [w_log]; by apply list_lookup_middle|lia|done|left; eauto]. }
  assert (Hl : forall w w', sendRelayViaLink env (pe_ID r) blob w = (w', true) -> handed w w' r blob).
  { intros w1 w1'. unfold sendRelayViaLink, emit_to. destruct (String.eqb _ ""); [done|]. intros [= <- Hn].
    eexists _, _. split_and!; [cbn [w_log]; by apply list_lookup_middle|lia|done|by right]. }
  assert (Hp : forall e w, w_log w `prefix_of` w_log (emit_to env e w).1) by (intros e w1; by exists [e]).
  unfold sendRelayHop. destruct (sf_onionOverLinks t).
  - destruct (sendRelayViaLink env (pe_ID r) blob w) as [w1 [|]] eqn:E; [intros [= <-]; by apply Hl|]. intros H. eapply handed_mono; [|done|by apply Ht].
    unfold sendRelayViaLink in E. destruct (String.eqb _ ""); [by injection E as <-|]. rewrite (surjective_pairing (emit_to _ _ _)) in E. injection E as <- _. apply Hp.
  - destruct (sendRelayBlob t env (pe_Address r) blob w) as [w1 [|]] eqn:E; [intros [= <-]; by apply Ht|]. intros H. eapply handed_mono; [|done|by apply Hl].
    unfold sendRelayBlob in E. rewrite (surjective_pairing (emit_to _ _ _)) in E. injection E as <- _. apply Hp.
Qed.

Lemma send_copy_took fc nodes dest inner piece c w w' :
  ctx_ok nodes dest fc -> send_copy shuffle t env fc inner piece c w = (w', Ok true) ->
  exists r picked oh k blob, let path := r :: picked ++ [dest_peer dest] in
    Forall (relay_among nodes (n_ID dest)) (r :: picked) /\ (length (r :: picked) <= Z.to_nat (fc_hops fc))%nat /\
    toOnionHops (map hop_of path) = Ok oh /\ BuildOnion oh (map (v_draw env) (seq k (length path))) inner = Ok blob /\ handed w w' r blob.
Proof using Hshuffle.
  intros Hc. unfold send_copy, act_bind, lift. destruct (BuildPathTiered _ _ _ _ _) as [hops|] eqn:HB; [|done].
  destruct (copy_path shuffle Hshuffle fc nodes dest _ hops Hc HB) as (r & picked & -> & _ & Hall & Hlen). rewrite (cx_peer _ _ _ Hc) in *.
  destruct (toOnionHops _) as [oh|] eqn:Ho; [|done]. unfold draw_n. cbn beta iota zeta.
  destruct (BuildOnion _ _ _) as [blob|] eqn:Hb; [|done]. cbn [map app].
  destruct (sendRelayHop _ _ _ _ _ _) as [w1 took] eqn:Hs. intros [= <- ->]. exists r, picked, oh, (w_drawn w), blob. cbn zeta.
  split_and!; [done|done|by cbn [map]; rewrite map_app| |].
  { replace (length (r :: picked ++ [dest_peer dest])) with (length (map hop_of (r :: picked) ++ [hop_of (dest_peer dest)])); [exact Hb|].
    cbn [length map app]. by rewrite !length_app, length_map. }
  apply sendRelayHop_handed in Hs. eapply handed_mono; [|done|exact Hs]. done.
Qed.

Lemma send_copies_took fc inner piece copies sent w w' :
  (forall c, emits (fun _ => True) (send_copy shuffle t env fc inner piece c) (fun _ => True)) ->
  send_copies shuffle t env fc inner piece copies sent w = (w', Ok true) ->
  sent = true \/ exists c w1 w2, send_copy shuffle t env fc inner piece c w1 = (w2, Ok true) /\ w_log w `prefix_of` w_log w1 /\ w_log w2 `prefix_of` w_log w'.
Proof.
  intros He. revert sent w. induction copies as [|c copies IH]; intros sent w Hs; cbn [send_copies] in Hs; [injection Hs as _ ->; by left|].
  unfold act_bind in Hs. destruct (send_copy _ _ _ _ _ _ c w) as [w1 [took|]] eqn:Hc; [|done].
  pose proof (prefix_grows _ _ _ (proj1 (He c w))) as Hp. rewrite Hc in Hp. cbn [fst] in Hp.
  assert (Hr : forall sent, w_log w1 `prefix_of` w_log (send_copies shuffle t env fc inner piece copies sent w1).1).
  { intros sent'. eapply prefix_grows with (P := fun _ => True). assert (Hem : emits (fun _ => True) (send_copies shuffle t env fc inner piece copies sent') (fun _ => True)); [|apply Hem].
    clear - He. revert sent'. induction copies as [|c copies IH]; intros sent'; cbn [send_copies]; [by apply emits_ok|]. eapply emits_bind; [apply He|]. intros took _. apply IH. }
  destruct took.
  - right. exists c, w, w1. split_and!; [done|done|]. specialize (Hr (sent || true)). by rewrite Hs in Hr.
  - destruct (IH (sent || false) w1 Hs) as [Hsent|(c' & w2 & w3 & H1 & H2 & H3)]; [left; by rewrite orb_false_r in Hsent|].
    right. exists c', w2, w3. split_and!; [done|by etrans|done].
Qed.
End Sent.

(** ** From the sender to the destination *)

Section Delivery.
Context `{R : RSOps} `{C : CryptoOps} `{L : !CryptoLaws C} `{N : NetOps} `{RJ : ReplyJson}.
Context (shuffle : Z -> list nat -> list Peer -> list Peer) (Hshuffle : forall seed before l, shuffle seed before l ≡ₚ l).
Context (t : SendConfig) (env : sendEnv) (Hdraw : forall i, wf_draws (v_draw env i)).
Context (ord : gmap Z bytes -> list (Z * bytes)) (sink : bytes -> bool).
Context (net : string -> option (relayNode * sendEnv)) (key : string -> bytes).

(** A peer whose key is known and whose node is up, with a name and an address that
    take at most [bound] bytes in a layer. *)
Definition reachable (bound : Z) (r : Peer) : Prop :=
  pe_PubKey r = x_public (key (pe_ID r)) /\ up net key (pe_ID r) /\ 73 + len (str_bytes (pe_Address r)) + len (str_bytes (pe_ID r)) <= bound.

Abbreviation place r := (pe_ID r, pe_Address r).

Lemma toOnionHops_keyed bound ps : Forall (reachable bound) ps ->
  toOnionHops (map hop_of ps) = Ok (zip_with hop_for (map (fun r => key (pe_ID r)) ps) (map (fun r => place r) ps)).
Proof using L.
  induction ps as [|r ps IH]; intros Hps; [done|]. apply Forall_cons in Hps as [(Hk & _ & _) Hps]. cbn [map toOnionHops hop_of h_PubKey zip_with].
  unfold NewPublicKey. rewrite Hk, x_public_valid, IH by done. by unfold hop_for.
Qed.

Lemma onion_size_bound bound ps payload : Forall (reachable bound) ps ->
  onion_size (map (fun r => place r) ps) payload <= len payload + len ps * bound.
Proof.
  induction ps as [|r ps IH]; intros Hps; [cbn; unfold len; cbn; lia|]. apply Forall_cons in Hps as [(_ & _ & Hb) Hps]. specialize (IH Hps).
  pose proof (len_nonneg (str_bytes (pe_Address r))). pose proof (len_nonneg (str_bytes (pe_ID r))). rewrite len_cons.
  destruct ps as [|r' ps]; [cbn in *; unfold len in *; cbn in *; lia|].
  apply Forall_cons in Hps as [(_ & _ & Hb') _]. cbn [map] in *.
  change (onion_size (place r :: place r' :: map (fun r => place r) ps) payload) with
    (73 + len (str_bytes (pe_Address r')) + len (str_bytes (pe_ID r')) + onion_size (place r' :: map (fun r => place r) ps) payload). lia.
Qed.

(** An onion built for a path of reachable peers ends at the last of them, which
    peels the payload. *)
Lemma built_onion_travels bound ps oh k payload blob :
  ps <> [] -> Forall (reachable bound) ps -> toOnionHops (map hop_of ps) = Ok oh ->
  BuildOnion oh (map (v_draw env) (seq k (length ps))) payload = Ok blob -> len payload + len ps * bound < 2 ^ 32 ->
  exists first dest n envd rest, head ps = Some first /\ last ps = Some dest /\ net (pe_ID dest) = Some (n, envd) /\
    PeelOnion (key (pe_ID dest)) rest = Ok (mkLayer true "" "" payload) /\
    forall n' w' evs, handleRelayBlob envd ord sink n rest (mkWorld [] 0 (mkStanding ∅ ∅)) = (n', w', evs) ->
      (forall next b, evs <> [RForwarded next b]) -> travel ord sink net (length ps) (pe_ID first) blob = Some (pe_ID dest, n', evs).
Proof using L Hdraw.
  intros Hne Hps Ho Hb Hsz. rewrite (toOnionHops_keyed bound ps Hps) in Ho. injection Ho as <-.
  destruct (BuildOnion_forward (map (fun r => key (pe_ID r)) ps) (map (fun r => place r) ps) (map (v_draw env) (seq k (length ps))) payload)
    as (blob' & peels & Hb' & _ & Hf & Hs & Hl).
  - by rewrite !length_map.
  - by rewrite !length_map, length_seq.
  - by destruct ps.
  - apply Forall_fmap, Forall_forall. intros i _. apply Hdraw.
  - pose proof (onion_size_bound bound ps payload Hps). lia.
  - assert (blob' = blob) as -> by congruence.
    destruct (onion_travels ord sink net key (map (fun r => place r) ps) blob peels payload) as (first & dest & n & envd & rest & H1 & H2 & H3 & H4 & H5).
    + by destruct ps.
    + apply Forall_fmap. eapply Forall_impl; [exact Hps|]. by intros r (_ & Hup & _).
    + by rewrite map_map.
    + done.
    + done.
    + assert (Hh : head (map (fun r => place r) ps) = (fun r => place r) <$> head ps) by by destruct ps.
      rewrite Hh in H1. rewrite fmap_last in H2. destruct (head ps) as [f|]; [|done]. destruct (last ps) as [d|]; [|done]. injection H1 as <-. injection H2 as <-.
      exists f, d, n, envd, rest. split_and!; try done. intros n' w' evs He Hnf. specialize (H5 n' w' evs He Hnf). by rewrite length_map in H5.
Qed.

(** The context is for the transfer and scheme it was asked for. *)
Lemma newForwardCtx_ids dest nodes id sc tok w0 w fc :
  newForwardCtx t env dest nodes id sc tok w0 = (w, Ok fc) -> fc_id fc = id /\ fc_sc fc = sc.
Proof.
  unfold newForwardCtx. destruct (tc_nodePriv _); [|done]. destruct (_ =? 0); [done|]. unfold act_bind at 1. destruct (relays_for _ _ _ _) as [w1 [relays|]]; [|done].
  destruct (_ && _); [done|]. destruct (_ <=? 0); [done|]. unfold act_bind. destruct (buildReplyBlock _ _ _ _ _ w1) as [w2 [rb|]]; [|done].
  by intros [= _ <-].
Qed.

Lemma send_piece_quiet fc nodes dest : ctx_ok nodes dest fc -> forall pc, emits (fun _ => True) (send_piece shuffle t env fc pc) (fun _ => True).
Proof using Hshuffle.
  intros Hc pc w. unfold send_piece.
  match goal with |- context [act_bind ?m ?k] => assert (He : emits (fun _ => True) (act_bind m k) (fun _ => True)) end; [|apply He].
  eapply emits_bind with (Q := fun _ => True); [|intros [|] _; [by apply emits_ok|apply emits_fail]].
  generalize false as sent. induction (seq 0 _) as [|c l IH]; intros sent; cbn [send_copies]; [by apply emits_ok|].
  eapply emits_bind with (Q := fun _ => True); [|intros took _; apply IH]. intros w1.
  destruct (send_copy_emits shuffle Hshuffle t env fc nodes dest _ pc c Hc (innerPacket_anonymous (sf_padCell t) (clock_now env w).1 (clock_now env w).2 (fc_id fc) (fc_destID fc) pc (fc_sc fc) (fc_replyBlock fc)) w1).
  split; [by eapply grows_impl|done].
Qed.

(** The packet that carries a piece, built at time [i]. *)
Definition piece_packet (fc : forwardCtx) (pc : Fragment) (i : nat) : Packet :=
  innerPacket (sf_padCell t) (v_clock env i).1 (v_clock env i).2 (fc_id fc) (fc_destID fc) "" pc (fc_sc fc) (fc_replyBlock fc).

(** A piece that was sent was accepted by the first relay of a path. *)
Lemma send_piece_took fc nodes dest pc w w' :
  ctx_ok nodes dest fc -> send_piece shuffle t env fc pc w = (w', Ok tt) ->
  exists r picked oh k blob, let path := r :: picked ++ [dest_peer dest] in
    Forall (relay_among nodes (n_ID dest)) (r :: picked) /\ (length (r :: picked) <= Z.to_nat (fc_hops fc))%nat /\
    toOnionHops (map hop_of path) = Ok oh /\
    BuildOnion oh (map (v_draw env) (seq k (length path))) (MarshalBinary (piece_packet fc pc (length (w_log w)))) = Ok blob /\ handed t env w w' r blob.
Proof using Hshuffle.
  intros Hc. unfold send_piece, act_bind. destruct (send_copies _ _ _ _ _ _ _ _ _) as [w1 [[|]|]] eqn:Hs; try done. intros [= <-].
  apply send_copies_took in Hs as [?|(c & w2 & w3 & H1 & H2 & H3)]; [done| |].
  - destruct (send_copy_took shuffle Hshuffle t env fc nodes dest _ pc c w2 w3 Hc H1) as (r & picked & oh & k & blob & Hr & Hl & Ho & Hb & Hh).
    exists r, picked, oh, k, blob. cbn zeta in *. split_and!; try done. by eapply handed_mono.
  - intros c w2. destruct (send_copy_emits shuffle Hshuffle t env fc nodes dest _ pc c Hc (innerPacket_anonymous (sf_padCell t) (clock_now env w).1 (clock_now env w).2 (fc_id fc) (fc_destID fc) pc (fc_sc fc) (fc_replyBlock fc)) w2).
    split; [by eapply grows_impl|done].
Qed.

Lemma innerPacket_kind cell now nowStr id dest src pc sc rb :
  let p := innerPacket cell now nowStr id dest src pc sc rb in p_Type p = PacketTypeData /\ p_Decoy p = false.
Proof. cbn zeta. unfold innerPacket. match goal with |- context [padPacket ?c ?q] => destruct (padPacket_fields c q) as [d ->] end. done. Qed.

(** The last node of a path takes in the packet inside. *)
Lemma handle_data n envd k rest pkt w :
  tc_nodePriv (sf_transfer (rn_config n)) = Some k -> PeelOnion k rest = Ok (mkLayer true "" "" (MarshalBinary pkt)) -> wf_packet pkt ->
  p_Type pkt = PacketTypeData -> p_Decoy pkt = false ->
  let '(tr, o) := ingestForwardedFragment (sf_transfer (rn_config n)) ord sink (clock_now envd w).1 (rn_transfers n) pkt false in
  handleRelayBlob envd ord sink n rest w = (with_transfers n tr, w, [RIngested o]).
Proof.
  intros Hk Hp Hwf Ht Hd. destruct (ingestForwardedFragment _ _ _ _ _ _ _) as [tr o] eqn:Hi. unfold handleRelayBlob.
  rewrite Hk, Hp. cbn [l_IsFinal l_Inner]. rewrite marshal_roundtrip by done. rewrite Hd, Ht. cbn -[ingestForwardedFragment]. by rewrite Hi.
Qed.

(** C9: Onion routing delivers.  If every relay among [nodes] and the destination
    are up and own the keys they advertise, then for every piece of every fragment of
    a forwarded send that succeeds, some relay accepted an onion which, peeled and
    forwarded by the relays' own handlers, ends at the destination, where the handler
    takes in exactly the packet that carries the piece — so that what arrives is what
    [transfer_delivery] is about — and changes nothing but the destination's table of
    transfers. *)
Theorem forwarded_delivery (bound : Z) dest nodes id sc tok frags w0 w w' fc nd envd :
  NoDup (map n_ID nodes) ->
  (forall r, relay_among nodes (n_ID dest) r -> reachable bound r) -> reachable bound (dest_peer dest) -> net (n_ID dest) = Some (nd, envd) ->
  newForwardCtx t env dest nodes id sc tok w0 = (w, Ok fc) ->
  (forall i f pc, f ∈ frags -> pc ∈ fragmentPieces f (sf_subChunkSize t) ->
     wf_packet (piece_packet fc pc i) /\ marshaledLen (piece_packet fc pc i) + (fc_hops fc + 1) * bound < 2 ^ 32) ->
  for_each (sendFragment shuffle t env fc) frags w = (w', Ok tt) ->
  sendForwarded shuffle t env dest nodes id frags sc tok w0 = (w', Ok tt) /\
  forall f pc, f ∈ frags -> pc ∈ fragmentPieces f (sf_subChunkSize t) ->
  exists r blob fuel i, relay_among nodes (n_ID dest) r /\ handed t env w w' r blob /\ packs id sc pc (piece_packet fc pc i) /\
    let '(tr, o) := ingestForwardedFragment (sf_transfer (rn_config nd)) ord sink (v_clock envd 0).1 (rn_transfers nd) (piece_packet fc pc i) false in
    travel ord sink net fuel (pe_ID r) blob = Some (n_ID dest, with_transfers nd tr, [RIngested o]).
Proof using L Hshuffle Hdraw.
  intros Hn Hrel Hdest Hnet Hfc Hsz Hall. split; [by unfold sendForwarded, act_bind; rewrite Hfc|].
  destruct (newForwardCtx_emits t env (fun _ => True) dest nodes id sc tok Hn w0) as [_ Hctx]. rewrite Hfc in Hctx. specialize (Hctx fc eq_refl).
  assert (Hids : fc_id fc = id /\ fc_sc fc = sc) by by eapply newForwardCtx_ids.
  intros f pc Hf Hpc. assert (Hem : forall f, emits (fun _ => True) (sendFragment shuffle t env fc f) (fun _ => True)).
  { intros f' w1. destruct (sendFragment_emits shuffle Hshuffle t env fc nodes dest f' Hctx w1). split; [by eapply grows_impl|done]. }
  destruct (for_each_ok _ _ _ _ f Hem Hall Hf) as (w1 & w2 & Hsf & Hp1 & Hp2).
  destruct (for_each_ok _ _ _ _ pc (send_piece_quiet fc nodes dest Hctx) Hsf Hpc) as (w3 & w4 & Hsp & Hp3 & Hp4).
  destruct (send_piece_took fc nodes dest pc w3 w4 Hctx Hsp) as (r & picked & oh & k & blob & Hr & Hlen & Ho & Hb & Hh).
  set (pkt := piece_packet fc pc (length (w_log w3))). destruct (Hsz (length (w_log w3)) f pc Hf Hpc) as [Hwf Hm]. fold pkt in Hwf, Hm.
  destruct (built_onion_travels bound (r :: picked ++ [dest_peer dest]) oh k (MarshalBinary pkt) blob) as (first & d & n & envd' & rest & H1 & H2 & H3 & H4 & H5).
  - done.
  - rewrite app_comm_cons. apply Forall_app. split; [|by apply Forall_singleton]. eapply Forall_impl; [exact Hr|]. apply Hrel.
  - done.
  - done.
  - unfold marshaledLen in Hm. rewrite len_cons, len_app. unfold len at 2 3. cbn [length] in *. destruct Hdest as (_ & _ & Hbd).
    pose proof (len_nonneg (str_bytes (pe_Address (dest_peer dest)))). pose proof (len_nonneg (str_bytes (pe_ID (dest_peer dest)))).
    pose proof (cx_hops _ _ _ Hctx). nia.
  - injection H1 as <-. rewrite app_comm_cons, last_snoc in H2. injection H2 as <-. cbn [dest_peer pe_ID] in H3, H4, H5.
    assert (n = nd /\ envd' = envd) as [-> ->] by by split; congruence.
    exists r, blob, (length (r :: picked ++ [dest_peer dest])), (length (w_log w3)). fold pkt.
    split_and!; [by apply Forall_cons in Hr as [? _]|by eapply handed_mono; [..|exact Hh]; etrans|destruct Hids as [<- <-]; apply innerPacket_packs|].
    destruct Hdest as (_ & (n2 & env2 & Hn2 & Hk2 & _) & _). cbn [dest_peer pe_ID] in Hn2, Hk2. assert (n2 = nd) as -> by congruence.
    destruct (innerPacket_kind (sf_padCell t) (v_clock env (length (w_log w3))).1 (v_clock env (length (w_log w3))).2 (fc_id fc) (fc_destID fc) "" pc (fc_sc fc) (fc_replyBlock fc)) as [Hk Hdc].
    pose proof (handle_data nd envd (key (n_ID dest)) rest pkt (mkWorld [] 0 (mkStanding ∅ ∅)) Hk2 H4 Hwf Hk Hdc) as Hhd.
    change (clock_now envd (mkWorld [] 0 (mkStanding ∅ ∅))) with (v_clock envd 0) in Hhd. destruct (ingestForwardedFragment _ _ _ _ _ _ _) as [tr o].
    by apply (H5 _ _ _ Hhd).
Qed.

(** ** The acknowledgement's way back *)

Lemma reply_path_spec relays hops : NoDup (map pe_ID relays) -> reply_path t relays = Some hops ->
  exists priv r picked, tc_nodePriv (sf_transfer t) = Some priv /\
    hops = map hop_of (r :: picked ++ [self_peer t (x_public priv)]) /\ Forall (fun x => x ∈ relays) (r :: picked) /\ (length (r :: picked) <= length relays)%nat.
Proof.
  intros Hn. unfold reply_path. destruct (tc_nodePriv _) as [priv|]; [|done]. destruct (_ || _); [done|].
  destruct (Z.ltb_spec (hopsFor t relays (pe_Address (self_peer t (x_public priv)))) 1) as [?|Hh]; [done|].
  set (h := hopsFor _ _ _) in *. destruct (BuildPath _ relays h) as [hops'|e] eqn:HB; [|done]. destruct (Z.ltb_spec (len hops') 2) as [?|Hl]; [done|]. intros [= ->].
  destruct (path_guard (self_peer t (x_public priv)) relays h) as [e|] eqn:Hg; [by unfold BuildPath in HB; rewrite guard_spec, Hg in HB|].
  destruct (BuildPath_selection _ relays h Hn Hg) as (picked & HB' & Hlen & Hids & Hall & _). rewrite HB' in HB. injection HB as <-.
  destruct picked as [|r picked]; [by cbn in Hl|]. exists priv, r, picked. split_and!; [done|by rewrite app_comm_cons, map_app| |].
  - eapply Forall_impl; [exact Hall|]. cbn. by intros x [? _]%elem_of_filterb.
  - rewrite Hlen. unfold path_len. pose proof (sublist_length _ _ (filter_sublist (eligible_for (self_peer t (x_public priv))) relays)). lia.
Qed.

Definition ack_packet (id tok : bytes) (i : nat) : Packet := ackPacket (v_clock env i).1 (v_clock env i).2 id tok.

Lemma handle_ack n envd k rest id tok i w key0 :
  tc_nodePriv (sf_transfer (rn_config n)) = Some k -> PeelOnion k rest = Ok (mkLayer true "" "" (MarshalBinary (ack_packet id tok i))) ->
  wf_packet (ack_packet id tok i) -> id ∉ rn_probes n -> tok <> [] -> rn_acks n !! id = Some (mkPendingAck key0 tok "" 0 false) ->
  handleRelayBlob envd ord sink n rest w = (with_acks n (delete id (rn_acks n)), w, [RAck id AckClose]).
Proof.
  intros Hk Hp Hwf Hpr Ht Ha. unfold handleRelayBlob. rewrite Hk, Hp. cbn [l_IsFinal l_Inner]. rewrite marshal_roundtrip by done.
  change (p_Decoy (ack_packet id tok i)) with false. change (p_Type (ack_packet id tok i)) with PacketTypeAcknowledgement.
  change (p_ID (ack_packet id tok i)) with id. change (p_Payload (ack_packet id tok i)) with tok. cbn [Z.eqb PacketTypeAcknowledgement Pos.eqb].
  unfold signalProbe. rewrite bool_decide_eq_false_2 by done. unfold signalAckToken, resolveAck. rewrite Ha. cbn [pa_token pa_late].
  rewrite nonempty_match, bool_decide_eq_true_2 by done. done.
Qed.

(** The reply block of a transfer brings its acknowledgement home.  If relays
    and sender are up and own their keys, then whenever a reply path exists the
    sender's context carries a block from which any destination learns only the entry
    relay's address; the one packet the destination sends there, relayed by the
    relays' own handlers, comes back to the sender, which matches the secret token and
    releases the waiting send. *)
Theorem reply_block_returns `{RL : !ReplyJsonLaws RJ} (bound : Z) relays id tok w hops key0 ns envs :
  NoDup (map pe_ID relays) -> Forall (reachable bound) relays -> Forall (fun r => ascii_str (pe_Address r) /\ pe_Address r <> ""%string) relays ->
  (forall pub, tc_nodePriv (sf_transfer t) = Some pub -> reachable bound (self_peer t (x_public pub))) ->
  net (sf_selfID t) = Some (ns, envs) -> reply_path t relays = Some hops ->
  (forall i, wf_packet (ack_packet id tok i) /\ marshaledLen (ack_packet id tok i) + (len relays + 1) * bound < 2 ^ 32) ->
  id ∉ rn_probes ns -> tok <> [] -> rn_acks ns !! id = Some (mkPendingAck key0 tok "" 0 false) ->
  exists w' rb r blob fuel, buildReplyBlock t env id relays tok w = (w', Ok rb) /\ r ∈ relays /\
    rb <> [] /\
    (forall td envd wd, exists now nowStr, w_log (sendAckReply envd td rb wd) = w_log wd ++ [XTCP (pe_Address r) (relayPacket td now nowStr blob)]) /\
    travel ord sink net fuel (pe_ID r) blob = Some (sf_selfID t, with_acks ns (delete id (rn_acks ns)), [RAck id AckClose]).
Proof using L Hdraw.
  intros Hn Hrel Haddr Hself Hnet Hpath Hsz Hpr Htok Hack.
  destruct (reply_path_spec relays hops Hn Hpath) as (priv & r & picked & Hpriv & -> & Hin & Hlen). specialize (Hself priv Hpriv).
  set (ps := r :: picked ++ [self_peer t (x_public priv)]) in *.
  assert (Hps : Forall (reachable bound) ps).
  { unfold ps. rewrite app_comm_cons. apply Forall_app. split; [|by apply Forall_singleton]. rewrite Forall_forall in Hrel.
    eapply Forall_impl; [exact Hin|]. apply Hrel. }
  assert (Hr : r ∈ relays) by by apply Forall_cons in Hin as [? _]. rewrite Forall_forall in Haddr. destruct (Haddr r Hr) as [Hascii Hne].
  pose proof (toOnionHops_keyed bound ps Hps) as Ho. unfold buildReplyBlock. rewrite Hpath. unfold ps at 1. cbn [map].
  change (hop_of r :: map hop_of (picked ++ [self_peer t (x_public priv)])) with (map hop_of ps). rewrite Ho.
  set (i := length (w_log w)). destruct (Hsz i) as [Hwf Hm].
  assert (Hsize : len (MarshalBinary (ack_packet id tok i)) + len ps * bound < 2 ^ 32).
  { unfold marshaledLen in Hm. unfold ps. rewrite len_cons, len_app. unfold len in *. cbn [length] in *. destruct Hself as (_ & _ & Hbd).
    pose proof (len_nonneg (str_bytes (pe_Address (self_peer t (x_public priv))))). pose proof (len_nonneg (str_bytes (pe_ID (self_peer t (x_public priv))))).
    unfold len in *. nia. }
  assert (Hbuild : exists blob, BuildOnion (zip_with hop_for (map (fun r => key (pe_ID r)) ps) (map (fun r => (pe_ID r, pe_Address r)) ps))
                                  (map (v_draw env) (seq (w_drawn w) (length ps))) (MarshalBinary (ack_packet id tok i)) = Ok blob).
  { destruct (BuildOnion_forward (map (fun r => key (pe_ID r)) ps) (map (fun r => (pe_ID r, pe_Address r)) ps)
      (map (v_draw env) (seq (w_drawn w) (length ps))) (MarshalBinary (ack_packet id tok i))) as (blob & _ & Hb & _).
    - by rewrite !length_map.
    - by rewrite !length_map, length_seq.
    - done.
    - apply Forall_fmap, Forall_forall. intros k _. apply Hdraw.
    - pose proof (onion_size_bound bound ps (MarshalBinary (ack_packet id tok i)) Hps). lia.
    - by exists blob. }
  destruct Hbuild as [blob Hb].
  edestruct (built_onion_travels bound ps) as (first & d & n & envd & rest & H1 & H2 & H3 & H4 & H5); [done|done|exact Ho|exact Hb|exact Hsize|].
  injection H1 as <-. unfold ps in H2. rewrite app_comm_cons, last_snoc in H2. injection H2 as <-. cbn [self_peer pe_ID] in H3, H4, H5.
  assert (n = ns /\ envd = envs) as [-> ->] by by split; congruence.
  destruct Hself as (_ & (n2 & env2 & Hn2 & Hk2 & _) & _). cbn [self_peer pe_ID] in Hn2, Hk2. assert (n2 = ns) as -> by congruence.
  pose proof (handle_ack ns envs (key (sf_selfID t)) rest id tok i (mkWorld [] 0 (mkStanding ∅ ∅)) key0 Hk2 H4 Hwf Hpr Htok Hack) as Hh.
  eexists _, (rb_enc (mkReplyBlock (pe_Address r) blob)), r, blob, (length ps). split_and!; [|done| | |by apply (H5 _ _ _ Hh)].
  - unfold act_bind, draw_n, clock_now. cbn beta iota zeta. cbn [w_log w_drawn w_standing]. fold i. fold (ack_packet id tok i).
    by rewrite length_map, Hb.
  - intros H0. pose proof (rb_roundtrip (mkReplyBlock (pe_Address r) blob) Hascii) as H. by rewrite H0, rb_dec_empty in H.
  - intros td envd wd. unfold sendAckReply. rewrite rb_roundtrip by done. cbn [rb_EntryAddr rb_Blob]. rewrite (proj2 (String.eqb_neq _ _) Hne).
    unfold sendRelayBlob, emit_to. by eexists _, _.
Qed.
End Delivery.

(** ** Witnesses *)

#[local] Existing Instances toy_ops toy_net toy_rs toy_reply_json toy_laws toy_reply_laws.

Definition sample_key_of (id : string) : bytes := if String.eqb id "r1" then [x01] else if String.eqb id "bob" then [x03] else [x07].
Definition sample_relay_net : list Node := [node_at "r1" x01 ["relay"] []; node_at "bob" x03 [] []].
Definition sample_node (id : string) : relayNode :=
  mkRelayNode (sample_send 1 true true (Some (sample_key_of id))) false 0 ∅ (if String.eqb id "me" then {[sample_id := mkPendingAck [x03] [x42] "" 0 false]} else ∅) ∅
    (mkHeld ∅ 0 None) ∅.
Definition quiet_env : sendEnv := sample_env_with sample_relay_net (fun _ => []).
Definition sample_network (id : string) : option (relayNode * sendEnv) := Some (sample_node id, quiet_env).
Definition sample_frag : Fragment := new_fragment sample_id 0 1 [x01].
Definition sample_dest_node : Node := node_at "bob" x03 [] [].

Lemma sample_up id : up sample_network sample_key_of id.
Proof. exists (sample_node id), quiet_env. split_and!; reflexivity. Qed.

Definition sample_sender : SendConfig := sample_send 1 true true (Some [x07]).
Definition sample_ctx_run : world * result fwd_err forwardCtx := Eval vm_compute in
  newForwardCtx sample_sender quiet_env sample_dest_node sample_relay_net sample_id sample_scheme [x42] empty_world.
Definition sample_sent (fc : forwardCtx) : world * result fwd_err unit := for_each (sendFragment toy_shuffle sample_sender quiet_env fc) [sample_frag] sample_ctx_run.1.

Lemma forwarded_delivery_witness :
  exists fc w', sample_ctx_run.2 = Ok fc /\ sample_sent fc = (w', Ok tt) /\
  exists r blob fuel i, relay_among sample_relay_net "bob" r /\ handed sample_sender quiet_env sample_ctx_run.1 w' r blob /\
    let '(tr, o) := ingestForwardedFragment (sf_transfer (rn_config (sample_node "bob"))) map_to_list (fun _ => false) 0 ∅
                      (piece_packet sample_sender quiet_env fc (set_piece sample_frag 0 1 [x01]) i) false in
    travel map_to_list (fun _ => false) sample_network fuel (pe_ID r) blob = Some ("bob"%string, with_transfers (sample_node "bob") tr, [RIngested o]).
Proof.
  eexists _, _. split; [reflexivity|].
  match goal with |- context [sample_sent ?fc] => assert (Hs : (sample_sent fc).2 = Ok tt) by (vm_compute; reflexivity) end.
  split; [rewrite <- Hs; apply surjective_pairing|].
  match goal with |- context [piece_packet _ _ ?fc _ _] => destruct (@forwarded_delivery toy_rs toy_ops toy_laws toy_net toy_reply_json toy_shuffle toy_shuffle_perm
    sample_sender quiet_env (fun _ => eq_refl) map_to_list (fun _ => false) sample_network sample_key_of 100 sample_dest_node sample_relay_net sample_id sample_scheme [x42]
    [sample_frag] empty_world sample_ctx_run.1 (sample_sent fc).1 fc (sample_node "bob") quiet_env) as [_ H] end.
  - apply (bool_decide_unpack _). vm_compute. exact I.
  - intros r (n & Hn & -> & Hne & Hcap). apply elem_of_cons in Hn as [->|Hn].
    + split_and!; [vm_compute; reflexivity|apply sample_up|vm_compute; discriminate].
    + apply list_elem_of_singleton in Hn as ->. discriminate.
  - split_and!; [vm_compute; reflexivity|apply sample_up|vm_compute; discriminate].
  - reflexivity.
  - vm_compute. reflexivity.
  - intros i f pc Hf Hpc. apply list_elem_of_singleton in Hf as ->. apply list_elem_of_singleton in Hpc as ->. split.
    + match goal with |- wf_packet ?p => apply (unmarshal_wf (MarshalBinary p)) end. vm_compute. reflexivity.
    + vm_compute. reflexivity.
  - rewrite <- Hs. apply surjective_pairing.
  - destruct (H sample_frag (set_piece sample_frag 0 1 [x01])) as (r & blob & fuel & i & H1 & H2 & _ & H3); [by left|by left|].
    exists r, blob, fuel, i. split; [exact H1|]. split; [exact H2|exact H3].
Defined.

Lemma reply_block_returns_witness :
  let t := sample_send 1 true true (Some [x07]) in
  let relays := [relay_peer (node_at "r1" x01 ["relay"] [])] in
  exists w' rb blob fuel, buildReplyBlock t quiet_env sample_id relays [x42] empty_world = (w', Ok rb) /\
    travel map_to_list (fun _ => false) sample_network fuel "r1" blob = Some ("me"%string, with_acks (sample_node "me") ∅, [RAck sample_id AckClose]).
Proof.
  cbv zeta.
  destruct (@reply_block_returns toy_rs toy_ops toy_laws toy_net toy_reply_json (sample_send 1 true true (Some [x07])) quiet_env (fun _ => eq_refl) map_to_list (fun _ => false)
    sample_network sample_key_of toy_reply_laws 100 [relay_peer (node_at "r1" x01 ["relay"] [])] sample_id [x42] empty_world
    [hop_of (relay_peer (node_at "r1" x01 ["relay"] [])); hop_of (self_peer (sample_send 1 true true (Some [x07])) (x_public [x07]))] [x03] (sample_node "me") quiet_env)
    as (w' & rb & r & blob & fuel & H1 & H2 & _ & _ & H3).
  - apply (bool_decide_unpack _). vm_compute. exact I.
  - apply Forall_singleton. split_and!; [vm_compute; reflexivity|apply sample_up|vm_compute; discriminate].
  - apply Forall_singleton. split; [|vm_compute; discriminate]. repeat constructor.
  - intros priv [= <-]. split_and!; [vm_compute; reflexivity|apply sample_up|vm_compute; discriminate].
  - reflexivity.
  - vm_compute. reflexivity.
  - intros i. split; [|vm_compute; reflexivity]. apply (unmarshal_wf (MarshalBinary (ack_packet quiet_env sample_id [x42] 0))). vm_compute. reflexivity.
  - set_solver.
  - discriminate.
  - vm_compute. reflexivity.
  - apply list_elem_of_singleton in H2 as ->. exists w', rb, blob, fuel. split; [exact H1|]. exact H3.
Defined.
