(* ===== verification/Monitor.v ===== *)
(** * Activity counters (internal/monitoring/monitoring.go) and what the relay path counts

    The nil-safe atomic counters of a node and their snapshot, and the handlers of the
    relay path once more, each with the calls of the counters where the source has them
    (the suffix [_m]): what they do besides is proved to be what [Relay], [Transfer],
    [Stream], [Acks] and [Offline] have.  Atomic additions from many goroutines commute,
    so an execution is the list of the counters incremented, in any order. *)

From S2P Require Import Prelude Crypto Wire Net Routing Encryption Fragment PeerTable Discovery Pieces Stream Acks Transfer Offline Reputation Forward Relay.

(** ** Counters *)

Inductive counter : Type :=
  | FragmentsSent | FragmentsForwarded | FragmentsReceived | FragmentsDelivered | PacketsDropped | DecoysDropped | OfflineStored | AcksConfirmed | Excommunications.
#[export] Instance counter_eq : EqDecision counter.
Proof. solve_decision. Defined.

Record Snapshot : Type := mkSnapshot {
  sn_Sent : Z; sn_Forwarded : Z; sn_Received : Z; sn_Delivered : Z; sn_Dropped : Z; sn_Decoys : Z; sn_Stored : Z; sn_Acks : Z; sn_Excommunications : Z
}.
(** [Metrics] holds the same nine words. *)
Definition Metrics : Type := Snapshot.
Definition monitoring_New : Metrics := mkSnapshot 0 0 0 0 0 0 0 0 0.

Definition inc (m : Metrics) (c : counter) : Metrics :=
  let '(mkSnapshot a b d e f g h i j) := m in
  let up x := u64 (x + 1) in
  match c with
  | FragmentsSent => mkSnapshot (up a) b d e f g h i j
  | FragmentsForwarded => mkSnapshot a (up b) d e f g h i j
  | FragmentsReceived => mkSnapshot a b (up d) e f g h i j
  | FragmentsDelivered => mkSnapshot a b d (up e) f g h i j
  | PacketsDropped => mkSnapshot a b d e (up f) g h i j
  | DecoysDropped => mkSnapshot a b d e f (up g) h i j
  | OfflineStored => mkSnapshot a b d e f g (up h) i j
  | AcksConfirmed => mkSnapshot a b d e f g h (up i) j
  | Excommunications => mkSnapshot a b d e f g h i (up j)
  end.
(** The nil-safe [Inc] methods and [Snapshot]. *)
Definition Inc (m : option Metrics) (c : counter) : option Metrics := (fun m => inc m c) <$> m.
Definition monitoring_Snapshot (m : option Metrics) : Snapshot := default monitoring_New m.

Definition field (s : Snapshot) (c : counter) : Z :=
  match c with
  | FragmentsSent => sn_Sent s | FragmentsForwarded => sn_Forwarded s | FragmentsReceived => sn_Received s | FragmentsDelivered => sn_Delivered s
  | PacketsDropped => sn_Dropped s | DecoysDropped => sn_Decoys s | OfflineStored => sn_Stored s | AcksConfirmed => sn_Acks s | Excommunications => sn_Excommunications s
  end.

Definition times (c : counter) (l : list counter) : Z := len (List.filter (fun c' => bool_decide (c' = c)) l).

(** ** The relay path *)

(** The functions of the relay path once more, with the increments where the source has
    them: each returns with its result the counters it incremented, in order. *)
Section Relay.
Context `{R : RSOps} `{C : CryptoOps} `{N : NetOps} `{RJ : ReplyJson}.

Definition finish_m (sa : streamAssembler) : streamAssembler * list stream_event * list counter := (finish sa, [FragmentsDelivered]).

Fixpoint flush_loop_m (fuel : nat) (sa : streamAssembler) : streamAssembler * list stream_event * list counter :=
  match fuel with
  | O => (sa, [], [])
  | S fuel =>
      match sa_blocks sa !! sa_nextFlush sa with
      | None => (sa, [], [])
      | Some b =>
          if negb (sb_ready b) then (sa, [], [])
          else
            let sa := flush_one sa (sb_data b) in
            if sb_final b then finish_m sa else flush_loop_m fuel sa
      end
  end.

Definition add_m (t : TransferConfig) (now : Z) (ord : gmap Z bytes -> list (Z * bytes)) (sa : streamAssembler) (pkt : Packet) : added * list counter :=
  if sa_done sa then (Added sa [], [])
  else
    let sa := set_activity sa now in
    let b := match sa_blocks sa !! p_BlockIndex pkt with Some b => b | None => new_block pkt end in
    if sb_ready b then (Added (set_blocks sa (<[p_BlockIndex pkt := b]> (sa_blocks sa))) [], [])
    else
      let b := absorbStreamPiece b pkt in
      let store b :=
        let sa := set_blocks sa (<[p_BlockIndex pkt := b]> (sa_blocks sa)) in
        let '(sa, evs, incs) := flush_loop_m (size (sa_blocks sa)) sa in (Added sa evs, incs) in
      if u32 (sa_dataShards sa) <=? u32 (Z.of_nat (size (sb_received b))) then
        match reconstructBlock t (ord (sb_chunks b)) sa b with
        | RData data => store (mkBlock (sb_total b) (sb_blockLen b) (sb_final b) ∅ ∅ ∅ data true)
        | RFail => store b
        | RPanic => (AddPanic, [])
        end
      else store b.

Definition dispatch_m (st : transferState) (data : bytes) : ingested * list counter := (dispatch st data, [FragmentsDelivered]).

Definition ingestForwardedFragment_m (t : TransferConfig) (ord : gmap Z bytes -> list (Z * bytes)) (sink : bytes -> bool) (now : Z)
    (transfers : gmap bytes transferState) (pkt : Packet) (routed : bool) : gmap bytes transferState * ingested * list counter :=
  let st := match transfers !! p_ID pkt with Some st => st | None => new_state pkt routed end in
  if p_Streaming pkt then
    let sa := match ts_stream st with Some sa => sa | None => newStreamAssembler now (sink (p_ID pkt)) pkt end in
    match add_m t now ord sa pkt with
    | (Added sa evs, incs) => (if sa_done sa then delete (p_ID pkt) transfers else <[p_ID pkt := set_stream sa st]> transfers, IStream evs, incs)
    | (AddPanic, incs) => (<[p_ID pkt := set_stream sa st]> transfers, IPanic, incs)
    end
  else if ts_delivered st then (<[p_ID pkt := st]> transfers, INone, [])
  else
    let st := absorb st pkt in
    if enoughToReassembleLocked st then
      match reassemble t (ord (ts_Chunks st)) st with
      | RData data => let '(o, incs) := dispatch_m st data in (delete (p_ID pkt) transfers, o, incs)
      | RFail => (<[p_ID pkt := st]> transfers, INone, [])
      | RPanic => (<[p_ID pkt := st]> transfers, IPanic, [])
      end
    else (<[p_ID pkt := st]> transfers, INone, []).

Definition resolveAck_m (m : acks) (id : bytes) (accept : pendingAck -> bool) : acks * resolved * list counter :=
  match m !! id with
  | None => (m, AckNone, [])
  | Some pa => if accept pa then (delete id m, if pa_late pa then AckLate (pa_dest pa) else AckClose, [AcksConfirmed]) else (m, AckNone, [])
  end.
Definition signalAckToken_m (m : acks) (id token : bytes) : acks * resolved * list counter :=
  resolveAck_m m id (fun pa => (0 <? len (pa_token pa)) && bool_decide (pa_token pa = token)).

Definition storeOffline_m (storeForward : bool) (offlineTTL now : Z) (nodeID : string) (blob : bytes) (h : held) : held * list counter :=
  if negb storeForward || String.eqb nodeID "" then (h, []) else (storeOffline storeForward offlineTTL now nodeID blob h, [OfflineStored]).

Context (env : sendEnv) (ord : gmap Z bytes -> list (Z * bytes)) (sink : bytes -> bool).

Abbreviation relayed := (relayNode * world * list relay_event * list counter)%type.

Definition forwardToNextHop_m (n : relayNode) (nextNode nextAddr : string) (blob : bytes) (w : world) : relayed :=
  let t := rn_config n in
  let dial w :=
    let '(w, ok) := sendRelayHop t env nextNode nextAddr blob w in
    if ok then (n, w, [RForwarded nextNode blob], [FragmentsForwarded])
    else
      let '(h, incs) := storeOffline_m (rn_storeForward n) (rn_offlineTTL n) (clock_now env w).1 nextNode blob (rn_held n) in
      (with_held n h, w, [RHeld nextNode blob], incs) in
  match reservationFor (rn_circuits n) nextNode with
  | Some rc =>
      let '(w, ok) := circuit_send env t rc blob w in
      if ok then (n, w, [RForwarded nextNode blob], [FragmentsForwarded]) else dial w
  | None => dial w
  end.

Definition handleRelayBlob_m (n : relayNode) (blob : bytes) (w : world) : relayed :=
  let t := sf_transfer (rn_config n) in
  match tc_nodePriv t with
  | None => (n, w, [], [])
  | Some priv =>
      let incs := [FragmentsReceived] in
      match PeelOnion priv blob with
      | Err _ => (n, w, [RDropped], incs ++ [PacketsDropped])
      | Ok peel =>
          if l_IsFinal peel then
            match UnmarshalBinary (l_Inner peel) with
            | Err _ => (n, w, [RDropped], incs ++ [PacketsDropped])
            | Ok inner =>
                if p_Decoy inner then (n, w, [RDecoy], incs ++ [DecoysDropped])
                else if p_Type inner =? PacketTypeAcknowledgement then
                  let '(probes, hit) := signalProbe (rn_probes n) (p_ID inner) in
                  if hit then (with_probes n probes, w, [RProbe (p_ID inner)], incs)
                  else
                    let '(m, r, more) := signalAckToken_m (rn_acks n) (p_ID inner) (p_Payload inner) in
                    (with_acks n m, w, [RAck (p_ID inner) r], incs ++ more)
                else
                  let '(tr, o, more) := ingestForwardedFragment_m t ord sink (clock_now env w).1 (rn_transfers n) inner false in
                  (with_transfers n tr, w, [RIngested o], incs ++ more)
            end
          else
            let '(n, w, evs, more) := forwardToNextHop_m n (l_NextNode peel) (l_NextAddr peel) (l_Inner peel) w in
            (n, w, evs, incs ++ more)
      end
  end.

(** [HandleRelayBlobAsync]: a blob that finds no slot is shed.  The blobs of a run, each
    with whether it found one. *)
Definition relay_async_m (n : relayNode) (slot : bool) (blob : bytes) (w : world) : relayed :=
  if slot then handleRelayBlob_m n blob w else (n, w, [], [PacketsDropped]).

Fixpoint metered_all (n : relayNode) (m : Metrics) (blobs : list (bool * bytes)) (w : world) : relayNode * world * Metrics * list relay_event :=
  match blobs with
  | [] => (n, w, m, [])
  | (slot, b) :: blobs =>
      let '(n, w, evs, incs) := relay_async_m n slot b w in
      let '(n, w, m, evs') := metered_all n (fold_left inc incs m) blobs w in
      (n, w, m, evs ++ evs')
  end.

(** *** The increments do not disturb the functions, and say what came of the blob *)

(** The counters that name an outcome. *)
Definition outcome_counters (storeForward : bool) (ev : relay_event) : list counter :=
  match ev with
  | RDropped => [PacketsDropped]
  | RDecoy => [DecoysDropped]
  | RProbe _ => []
  | RAck _ r => match r with AckNone => [] | AckClose | AckLate _ => [AcksConfirmed] end
  | RIngested o => match o with IDispatch _ _ _ | IStream (_ :: _) => [FragmentsDelivered] | INone | IStream [] | IPanic => [] end
  | RForwarded _ _ => [FragmentsForwarded]
  | RHeld node _ => if negb storeForward || String.eqb node "" then [] else [OfflineStored]
  end.

Lemma flush_loop_m_spec fuel sa :
  flush_loop_m fuel sa = (flush_loop fuel sa, match (flush_loop fuel sa).2 with [] => [] | _ => [FragmentsDelivered] end).
Proof using Type.
  revert sa. induction fuel as [|fuel IH]; intros sa; [done|]. cbn [flush_loop_m flush_loop]. destruct (sa_blocks sa !! sa_nextFlush sa) as [b|]; [|done].
  destruct (sb_ready b); [|done]. cbn [negb]. destruct (sb_final b); [|apply IH]. unfold finish_m, finish. cbn [snd]. by destruct (sa_sink _).
Qed.

Lemma add_m_spec t now o sa pkt :
  add_m t now o sa pkt = (add t now o sa pkt, match add t now o sa pkt with Added _ (_ :: _) => [FragmentsDelivered] | _ => [] end).
Proof using Type.
  unfold add_m, add, flushReady. destruct (sa_done sa); [done|]. destruct (sb_ready _); [done|]. destruct (_ <=? _); [destruct (reconstructBlock _ _ _ _); [..|done]|];
    rewrite flush_loop_m_spec; by destruct (flush_loop _ _) as [? []].
Qed.

Lemma ingest_m_spec t o snk now tr pkt routed :
  ingestForwardedFragment_m t o snk now tr pkt routed =
    (ingestForwardedFragment t o snk now tr pkt routed, outcome_counters false (RIngested (ingestForwardedFragment t o snk now tr pkt routed).2)).
Proof using Type.
  unfold ingestForwardedFragment_m, ingestForwardedFragment, dispatch_m. set (st := match tr !! _ with Some st => st | None => _ end). destruct (p_Streaming pkt).
  - rewrite add_m_spec. by destruct (add _ _ _ _ _) as [sa []|].
  - destruct (ts_delivered st); [done|]. destruct (enoughToReassembleLocked _); [|done]. by destruct (reassemble _ _ _).
Qed.

Lemma resolveAck_m_spec m id accept :
  resolveAck_m m id accept = (resolveAck m id accept, match (resolveAck m id accept).2 with AckNone => [] | _ => [AcksConfirmed] end).
Proof using Type. unfold resolveAck_m, resolveAck. destruct (m !! id) as [pa|]; [|done]. destruct (accept pa); [|done]. cbn. by destruct (pa_late pa). Qed.

Lemma storeOffline_m_spec sf ttl now id blob h :
  storeOffline_m sf ttl now id blob h = (storeOffline sf ttl now id blob h, outcome_counters sf (RHeld id blob)).
Proof using Type. unfold storeOffline_m, outcome_counters, storeOffline. by destruct (negb sf || String.eqb id ""). Qed.

(** What a blob comes to: one event with the counters that name it, and the node keeps
    its settings. *)
Lemma handleRelayBlob_m_spec n blob w : is_Some (tc_nodePriv (sf_transfer (rn_config n))) ->
  let '(n', w', evs, incs) := handleRelayBlob_m n blob w in
  handleRelayBlob env ord sink n blob w = (n', w', evs) /\ rn_config n' = rn_config n /\ rn_storeForward n' = rn_storeForward n /\
  exists ev, evs = [ev] /\ incs = FragmentsReceived :: outcome_counters (rn_storeForward n) ev.
Proof using Type.
  intros [priv Hp]. unfold handleRelayBlob_m, handleRelayBlob. rewrite Hp. destruct (PeelOnion priv blob) as [peel|]; [|by split_and!; [..|eexists]]. destruct (l_IsFinal peel).
  - destruct (UnmarshalBinary _) as [inner|]; [|by split_and!; [..|eexists]]. destruct (p_Decoy inner); [by split_and!; [..|eexists]|]. destruct (p_Type inner =? _).
    + destruct (signalProbe _ _) as [probes []]; [by split_and!; [..|eexists]|]. unfold signalAckToken_m, signalAckToken. rewrite resolveAck_m_spec.
      destruct (resolveAck _ _ _) as [m r]. split_and!; [done..|]. eexists. split; [done|]. by destruct r.
    + rewrite ingest_m_spec. destruct (ingestForwardedFragment _ _ _ _ _ _ _) as [tr o]. by split_and!; [..|eexists].
  - unfold forwardToNextHop_m, forwardToNextHop. destruct (reservationFor _ _) as [rc|].
    + destruct (circuit_send _ _ _ _ _) as [w1 []]; [by split_and!; [..|eexists]|]. destruct (sendRelayHop _ _ _ _ _ _) as [w2 []]; [by split_and!; [..|eexists]|].
      rewrite storeOffline_m_spec. by split_and!; [..|eexists].
    + destruct (sendRelayHop _ _ _ _ _ _) as [w2 []]; [by split_and!; [..|eexists]|]. rewrite storeOffline_m_spec. by split_and!; [..|eexists].
Qed.

Lemma field_inc m c c' : field (inc m c) c' = if bool_decide (c = c') then u64 (field m c' + 1) else field m c'.
Proof using Type. destruct m, c, c'; reflexivity. Qed.

Lemma times_cons c c' l : times c (c' :: l) = (if bool_decide (c' = c) then 1 else 0) + times c l.
Proof using Type. unfold times. cbn [List.filter]. case_bool_decide; [rewrite len_cons; lia|lia]. Qed.
Lemma times_app c l k : times c (l ++ k) = times c l + times c k.
Proof using Type. unfold times. by rewrite List.filter_app, len_app. Qed.

Lemma field_incs l m c : is_u64 (field m c) -> field (fold_left inc l m) c = u64 (field m c + times c l).
Proof using Type.
  revert m. induction l as [|c' l IH]; intros m Hm; cbn [fold_left].
  - change (times c []) with 0. rewrite Z.add_0_r. symmetry. by apply u64_id.
  - rewrite IH, field_inc, times_cons; [|rewrite field_inc; case_bool_decide; [apply u64_is_u64|done]].
    case_bool_decide; [|f_equal; lia]. unfold u64. rewrite Z.add_mod_idemp_l by lia. f_equal. lia.
Qed.

Definition served_blobs (blobs : list (bool * bytes)) : list bytes := map snd (List.filter fst blobs).
Definition shed_blobs (blobs : list (bool * bytes)) : list bytes := map snd (List.filter (fun e => negb e.1) blobs).

(** The node's own handlings, one after the other. *)
Fixpoint handle_all (n : relayNode) (blobs : list bytes) (w : world) : relayNode * world * list relay_event :=
  match blobs with
  | [] => (n, w, [])
  | b :: blobs =>
      let '(n, w, evs) := handleRelayBlob env ord sink n b w in
      let '(n, w, evs') := handle_all n blobs w in (n, w, evs ++ evs')
  end.

Lemma metered_all_spec n m blobs w : is_Some (tc_nodePriv (sf_transfer (rn_config n))) ->
  let '(n', w', m', evs) := metered_all n m blobs w in
  handle_all n (served_blobs blobs) w = (n', w', evs) /\ length evs = length (served_blobs blobs) /\
  exists l, m' = fold_left inc l m /\
  forall c, times c l = times c (flat_map (outcome_counters (rn_storeForward n)) evs) +
    (if bool_decide (c = FragmentsReceived) then len (served_blobs blobs) else 0) + (if bool_decide (c = PacketsDropped) then len (shed_blobs blobs) else 0).
Proof using Type.
  revert n m w. induction blobs as [|[slot b] blobs IH]; intros n m w Hp; cbn [metered_all].
  - split_and!; [done..|]. exists []. split; [done|]. intros c. by repeat case_bool_decide.
  - unfold relay_async_m, served_blobs, shed_blobs. destruct slot; cbn [List.filter fst snd map negb].
    + pose proof (handleRelayBlob_m_spec n b w Hp) as Ho. destruct (handleRelayBlob_m n b w) as [[[n1 w1] evs] incs]. destruct Ho as (He & Hc & Hsf & ev & -> & ->).
      specialize (IH n1 (fold_left inc (FragmentsReceived :: outcome_counters (rn_storeForward n) ev) m) w1 ltac:(by rewrite Hc)).
      destruct (metered_all n1 _ blobs w1) as [[[n2 w2] m2] evs2]. destruct IH as (Hh & Hlen & l & -> & Hl). cbn [handle_all]. rewrite He. unfold served_blobs, shed_blobs in *. rewrite Hh.
      split_and!; [done|cbn; by rewrite Hlen|]. exists (FragmentsReceived :: outcome_counters (rn_storeForward n) ev ++ l). split; [cbn [fold_left]; by rewrite fold_left_app|].
      intros c. rewrite times_cons, times_app, Hl, Hsf. cbn [app flat_map]. rewrite times_app, len_cons. repeat case_bool_decide; subst; try done; lia.
    + specialize (IH n (fold_left inc [PacketsDropped] m) w Hp). destruct (metered_all n _ blobs w) as [[[n2 w2] m2] evs2]. destruct IH as (Hh & Hlen & l & -> & Hl).
      unfold served_blobs, shed_blobs in *. split_and!; [done|done|]. exists (PacketsDropped :: l). split; [done|].
      intros c. cbn [app]. rewrite times_cons, Hl, len_cons. repeat case_bool_decide; subst; try done; lia.
Qed.

#[local] Ltac count_events :=
  let ev := fresh in intros ev; destruct ev as [| |? |? []|[| | [] |]| |? ?]; try reflexivity; cbn;
  match goal with |- context [String.eqb ?x _] => destruct (rn_storeForward _), (String.eqb x _); reflexivity end.

(** C38: The counters of a relay with its onion key account for the onions it is handed,
    one after another, from counters at zero.  Counting where the source counts changes nothing of what the relay does; of the blobs that found a slot each had
    exactly one outcome; and, modulo 2^64 and whatever the blobs, the network and the
    state of the relay, [FragmentsReceived] is how many found a slot, [PacketsDropped] how
    many found none or could not be opened, [FragmentsDelivered] how many completed a
    transfer or a stream, and [FragmentsForwarded], [DecoysDropped], [OfflineStored] and
    [AcksConfirmed] how many were forwarded, decoys, held and acknowledgements that
    resolved a pending one; the other counters are not touched. *)
Theorem relay_accounting n blobs w :
  is_Some (tc_nodePriv (sf_transfer (rn_config n))) ->
  let '(n', w', m, evs) := metered_all n monitoring_New blobs w in
  let count (p : relay_event -> bool) := len (List.filter p evs) in
  handle_all n (served_blobs blobs) w = (n', w', evs) /\
  length evs = length (served_blobs blobs) /\ sn_Received m = u64 (len (served_blobs blobs)) /\
  sn_Dropped m = u64 (count (fun ev => match ev with RDropped => true | _ => false end) + len (shed_blobs blobs)) /\
  sn_Forwarded m = u64 (count (fun ev => match ev with RForwarded _ _ => true | _ => false end)) /\
  sn_Decoys m = u64 (count (fun ev => match ev with RDecoy => true | _ => false end)) /\
  sn_Delivered m = u64 (count (fun ev => match ev with RIngested (IDispatch _ _ _) | RIngested (IStream (_ :: _)) => true | _ => false end)) /\
  sn_Stored m = u64 (count (fun ev => match ev with RHeld node _ => rn_storeForward n && negb (String.eqb node "") | _ => false end)) /\
  sn_Acks m = u64 (count (fun ev => match ev with RAck _ AckClose | RAck _ (AckLate _) => true | _ => false end)) /\
  sn_Sent m = 0 /\ sn_Excommunications m = 0.
Proof using Type.
  intros Hp. pose proof (metered_all_spec n monitoring_New blobs w Hp) as H. destruct (metered_all n monitoring_New blobs w) as [[[n' w'] m] evs].
  destruct H as (Hh & Hlen & l & -> & Hl). cbv zeta. split; [exact Hh|]. split; [done|].
  assert (Hz : forall c, is_u64 (field monitoring_New c)) by (intros []; vm_compute; by split).
  assert (Hf : forall c, field (fold_left inc l monitoring_New) c = u64 (times c l)) by (intros c; rewrite field_incs by done; by destruct c).
  assert (Hm : forall c (p : relay_event -> bool), (forall ev, times c (outcome_counters (rn_storeForward n) ev) = if p ev then 1 else 0) ->
    field (fold_left inc l monitoring_New) c = u64 (len (List.filter p evs) +
      (if bool_decide (c = FragmentsReceived) then len (served_blobs blobs) else 0) + (if bool_decide (c = PacketsDropped) then len (shed_blobs blobs) else 0))).
  { intros c p Hp'. rewrite Hf, Hl. do 3 f_equal. clear -Hp'. induction evs as [|ev evs IH]; [done|]. cbn [flat_map List.filter].
    rewrite times_app, Hp', IH. destruct (p ev); [rewrite len_cons; lia|lia]. }
  assert (Hnone : len (List.filter (fun _ : relay_event => false) evs) = 0) by (rewrite filter_nil_iff_none; done).
  assert (Hx : forall a, a + 0 + 0 = a) by lia. split_and!.
  - etrans; [apply (Hm FragmentsReceived (fun _ => false)); by count_events|]. rewrite Hnone, bool_decide_true, bool_decide_false by done. f_equal. lia.
  - etrans; [apply (Hm PacketsDropped (fun ev => match ev with RDropped => true | _ => false end)); count_events|]. rewrite bool_decide_false, bool_decide_true by done. f_equal. lia.
  - etrans; [apply (Hm FragmentsForwarded (fun ev => match ev with RForwarded _ _ => true | _ => false end)); count_events|]. f_equal. apply Hx.
  - etrans; [apply (Hm DecoysDropped (fun ev => match ev with RDecoy => true | _ => false end)); count_events|]. f_equal. apply Hx.
  - etrans; [apply (Hm FragmentsDelivered (fun ev => match ev with RIngested (IDispatch _ _ _) | RIngested (IStream (_ :: _)) => true | _ => false end)); count_events|]. f_equal. apply Hx.
  - etrans; [apply (Hm OfflineStored (fun ev => match ev with RHeld node _ => rn_storeForward n && negb (String.eqb node "") | _ => false end)); count_events|]. f_equal. apply Hx.
  - etrans; [apply (Hm AcksConfirmed (fun ev => match ev with RAck _ AckClose | RAck _ (AckLate _) => true | _ => false end)); count_events|]. f_equal. apply Hx.
  - etrans; [apply (Hm FragmentsSent (fun _ => false)); count_events|]. by rewrite Hnone.
  - etrans; [apply (Hm Excommunications (fun _ => false)); count_events|]. by rewrite Hnone.
Qed.
End Relay.

#[local] Existing Instances toy_ops toy_net toy_rs toy_reply_json.

(** Two blobs that cannot be opened, and one that finds no slot between them. *)
Lemma relay_accounting_witness :
  let '(_, _, m, evs) := metered_all quiet_env map_to_list (fun _ => false) (sample_node "r1") monitoring_New [(true, []); (false, [x03]); (true, [x01; x02])] empty_world in
  evs = [RDropped; RDropped] /\ m = mkSnapshot 0 0 2 0 3 0 0 0 0 /\ sn_Received m = u64 2.
Proof.
  pose proof (relay_accounting quiet_env map_to_list (fun _ => false) (sample_node "r1") [(true, []); (false, [x03]); (true, [x01; x02])] empty_world ltac:(by eexists)) as H.
  assert (E : metered_all quiet_env map_to_list (fun _ => false) (sample_node "r1") monitoring_New [(true, []); (false, [x03]); (true, [x01; x02])] empty_world =
    (sample_node "r1", empty_world, mkSnapshot 0 0 2 0 3 0 0 0 0, [RDropped; RDropped])) by (vm_compute; reflexivity).
  rewrite E in H |- *. destruct H as (_ & _ & H & _). split; [reflexivity|]. split; [reflexivity|exact H].
Defined.
