(* ===== verification/Gossip.v ===== *)
(** * Keeping the swarm together (internal/discovery/discovery.go, peercache.go, announce.go,
    routed.go, dht.go, reachability.go)

    What a discovery service does on its own: the local identity it advertises, the
    discovery and gossip packets it sends, latency probes, path resolution by polling,
    the Kademlia queries it makes, the peer cache on disk and the liveness of bridges.
    The read loop that answers all of this is [Discovery.listen]; the theorems put two
    nodes together. *)

From stdpp Require Import pretty.
From S2P Require Import Prelude Crypto Wire Announce Net Dht PeerTable Paths Discovery Chunks.

Definition minNodes : Z := 2.
Definition baseDiscoveryInterval : Z := 60 * 1000000000.
Definition maxDiscoveryInterval : Z := 30 * 60 * 1000000000.
Definition maxGossipPeers : Z := 8.
Definition maxCachedPeers : nat := 64.
Definition bridgeLivenessTimeout : Z := 45 * 1000000000.
Definition pathPollInterval : Z := 50 * 1000000.
Definition reachProbePeers : Z := 3.

(** The texts this file needs besides [DiscJson]. *)
Class GossipJson := {
  px_enc : list PeerInfo -> bytes;
  fn_enc : FindNodePayload -> bytes;
  rp_enc : ReachabilityPayload -> bytes;
  cache_enc : list string -> bytes;
  cache_dec : bytes -> option (list string)
}.

Definition json_discovery (p : DiscoveryPayload) : Prop :=
  ascii_str (dp_NodeID p) /\ Forall ascii_str (dp_Capabilities p) /\ is_u16 (dp_Port p) /\ is_u64 (dp_Nonce p) /\
  ascii_str (dp_ObservedAddr p) /\ Forall ascii_str (dp_RelayIDs p).
Definition json_peer (p : PeerInfo) : Prop :=
  ascii_str (pi_NodeID p) /\ ascii_str (pi_Address p) /\ is_u16 (pi_Port p) /\
  Forall ascii_str (pi_Capabilities p) /\ Forall ascii_str (pi_RelayIDs p) /\ is_i64 (pi_LastSeen p).

(** [json.Unmarshal] after [json.Marshal]: strings survive if they are valid UTF-8. *)
Class GossipJsonLaws (J : DiscJson) (G : GossipJson) : Prop := {
  disc_roundtrip p : json_discovery p -> disc_dec (disc_enc p) = Some p;
  px_roundtrip l : Forall json_peer l -> px_dec (px_enc l) = Some l;
  cache_roundtrip l : Forall ascii_str l -> cache_dec (cache_enc l) = Some l
}.

(** ** The local identity *)

Definition set_advert (D : Disc) (pubKey mlkemPub : bytes) (port : Z) (capabilities relayIDs : list string) : Disc :=
  mkDisc (di_peers D) (di_paths D) (di_seenAnn D) (di_routedSeen D) (di_iface D) (di_ifaces D) (di_nodeIface D) (di_addrIface D)
    (di_pending D) (di_observed D) (di_signPriv D) pubKey mlkemPub port capabilities relayIDs.
Definition set_bootstrap (D : Disc) (l : list string) : Disc :=
  let d := di_peers D in
  set_peers D (mkPeers (d_selfID d) (d_nodes d) (d_next d) l (d_joins d) (d_evictions d) (d_rt d)).
Definition set_pending (D : Disc) (m : gmap Z string) : Disc :=
  mkDisc (di_peers D) (di_paths D) (di_seenAnn D) (di_routedSeen D) (di_iface D) (di_ifaces D) (di_nodeIface D) (di_addrIface D)
    m (di_observed D) (di_signPriv D) (di_pubKey D) (di_mlkemPub D) (di_port D) (di_capabilities D) (di_relayIDs D).
Definition set_ifaces (D : Disc) (l : list string) : Disc :=
  mkDisc (di_peers D) (di_paths D) (di_seenAnn D) (di_routedSeen D) (di_iface D) l (di_nodeIface D) (di_addrIface D)
    (di_pending D) (di_observed D) (di_signPriv D) (di_pubKey D) (di_mlkemPub D) (di_port D) (di_capabilities D) (di_relayIDs D).

(** [NewDiscovery] once the UDP interface is bound; the listening port it reports is
    the socket's. *)
Definition NewDiscovery (self : string) : Disc :=
  mkDisc (mkPeers self ∅ 0 [] 0 0 (match ParseID self with Ok id => Some (NewRoutingTable id DefaultK) | Err _ => None end))
    (newPathTable maxPaths) (newDedupSet announceDedupTTL) (newDedupSet announceDedupTTL)
    (Some "udp0"%string) ["udp0"%string] ∅ ∅ ∅ ∅ [] [] [] 0 [] [].

Definition SetIdentity (D : Disc) (pubKey : bytes) (port : Z) (capabilities : list string) : Disc :=
  set_advert D pubKey (di_mlkemPub D) port capabilities (di_relayIDs D).
Definition SetMLKEMKey (D : Disc) (pub : bytes) : Disc :=
  set_advert D (di_pubKey D) pub (di_port D) (di_capabilities D) (di_relayIDs D).
Definition SetSigningKey (D : Disc) (priv : bytes) : Disc :=
  mkDisc (di_peers D) (di_paths D) (di_seenAnn D) (di_routedSeen D) (di_iface D) (di_ifaces D) (di_nodeIface D) (di_addrIface D)
    (di_pending D) (di_observed D) priv (di_pubKey D) (di_mlkemPub D) (di_port D) (di_capabilities D) (di_relayIDs D).
Definition SetBootstrapPeers (D : Disc) (addrs : list string) : Disc := set_bootstrap D addrs.

(** ** Snapshots of the table; [it] is the table in the order Go ranges over it *)

Definition GetActiveNodes (it : list (string * Node)) : list Node := List.filter n_Active (map snd it).
Definition AllNodes (it : list (string * Node)) : list Node := map snd it.

Definition adjustDiscoveryInterval (it : list (string * Node)) : Z :=
  let activeNodes := len (GetActiveNodes it) in
  if activeNodes <? minNodes then baseDiscoveryInterval
  else
    let interval := baseDiscoveryInterval * activeNodes in
    if maxDiscoveryInterval <? interval then maxDiscoveryInterval else interval.

Record PeerHealth : Type := mkPeerHealth {
  ph_Total : Z; ph_Active : Z; ph_Inactive : Z; ph_Subnets : Z; ph_PerSubnet : gmap string Z; ph_Joins : Z; ph_Evictions : Z
}.

Definition health_step `{N : NetOps} (h : PeerHealth) (n : Node) : PeerHealth :=
  let sk := disc_subnetKey (n_Address n) in
  mkPeerHealth (ph_Total h + 1) (if n_Active n then ph_Active h + 1 else ph_Active h) (if n_Active n then ph_Inactive h else ph_Inactive h + 1)
    (ph_Subnets h) (<[sk := default 0 (ph_PerSubnet h !! sk) + 1]> (ph_PerSubnet h)) (ph_Joins h) (ph_Evictions h).

Definition peerHealth `{N : NetOps} (it : list (string * Node)) (d : Peers) : PeerHealth :=
  let h := fold_left health_step (map snd it) (mkPeerHealth 0 0 0 0 ∅ (d_joins d) (d_evictions d)) in
  mkPeerHealth (ph_Total h) (ph_Active h) (ph_Inactive h) (Z.of_nat (size (ph_PerSubnet h))) (ph_PerSubnet h) (ph_Joins h) (ph_Evictions h).

(** The external host most peers report. *)
Definition ExternalHost (it : list (string * Z)) : string :=
  (fold_left (fun best e => if best.2 <? e.2 then e else best) it (""%string, 0)).1.

(** ** Interfaces *)

(** [mtu] is the MTU an interface advertises. *)
Definition mtuFor (mtu : string -> Z) (D : Disc) (addr : string) : Z :=
  match (match di_addrIface D !! addr with Some i => Some i | None => di_iface D end) with
  | None => 0
  | Some i => mtu i
  end.

Definition MTUToward (mtu : string -> Z) (D : Disc) (destHash : string) : Z :=
  match path_lookup (di_paths D) destHash with
  | None => 0
  | Some pe => if String.eqb (pe_NextHop pe) "" then 0 else mtuFor mtu D (pe_NextHop pe)
  end.

Definition linkSend (D : Disc) (addr : string) (frame : bytes) : list out :=
  send_on (match di_addrIface D !! addr with Some i => Some i | None => di_iface D end) addr frame.

(** The guards of [DialNode]: the address and key a link is dialled with. *)
Definition DialNode_target (linksEnabled : bool) (D : Disc) (nodeID : string) : option (string * bytes) :=
  if negb linksEnabled then None
  else
    match d_nodes (di_peers D) !! nodeID with
    | None => None
    | Some n => if negb (len (n_SignKey n) =? ed_PublicKeySize) || String.eqb (n_Address n) "" then None else Some (n_Address n, n_SignKey n)
    end.

Record bridgeStat : Type := mkBridgeStat { bs_addr : string; bs_created : Z; bs_active : bool; bs_warned : bool }.

Definition registerBridge (now : Z) (name addr : string) (m : gmap string bridgeStat) : gmap string bridgeStat :=
  <[name := mkBridgeStat addr now false false]> m.
Definition markIfaceActive (name : string) (m : gmap string bridgeStat) : gmap string bridgeStat :=
  match m !! name with
  | Some bs => <[name := mkBridgeStat (bs_addr bs) (bs_created bs) true (bs_warned bs)]> m
  | None => m
  end.
Definition bridge_silent (now : Z) (bs : bridgeStat) : bool :=
  negb (bs_warned bs || bs_active bs) && (bridgeLivenessTimeout <? now - bs_created bs).
(** Also returned: the bridges warned about. *)
Definition checkBridgeLiveness (now : Z) (it : list (string * bridgeStat)) (m : gmap string bridgeStat) : gmap string bridgeStat * list string :=
  fold_left (fun '(m, warned) e =>
    if bridge_silent now e.2
    then (<[e.1 := mkBridgeStat (bs_addr e.2) (bs_created e.2) (bs_active e.2) true]> m, warned ++ [e.1]) else (m, warned)) it (m, []).

(** [AddBridge], [AddListenBridge] once the interface exists; [AddAutoInterface],
    [AddLoRaInterface] and [AddSerialInterface] do not track liveness. *)
Definition AddBridge (now : Z) (name addr : string) (Dm : Disc * gmap string bridgeStat) : Disc * gmap string bridgeStat :=
  (set_ifaces Dm.1 (di_ifaces Dm.1 ++ [name]), registerBridge now name addr Dm.2).
Definition AddAutoInterface (name : string) (D : Disc) : Disc := set_ifaces D (di_ifaces D ++ [name]).

Section Maintenance.
Context `{N : NetOps} `{C : CryptoOps} `{J : DiscJson} `{G : GossipJson}.

Definition signPub (D : Disc) : bytes := if len (di_signPriv D) =? ed_PrivateKeySize then ed_public (di_signPriv D) else [].

(** ** Advertising *)

Definition discoveryPayload (D : Disc) : DiscoveryPayload :=
  mkDiscovery (selfID D) (di_capabilities D) (di_port D) 0 (di_pubKey D) (signPub D) "" (di_relayIDs D) (di_mlkemPub D).
Definition discoveryPacketBytes (e : env) (D : Disc) : bytes :=
  MarshalBinary (signed_packet e D PacketTypeDiscovery (disc_enc (discoveryPayload D)) "").

Definition broadcastDiscovery (e : env) (D : Disc) : list out := floodFrame D (discoveryPacketBytes e D).

Definition sendBootstrapDiscovery (e : env) (D : Disc) : list out :=
  let addrs := d_bootstrap (di_peers D) in
  if len addrs =? 0 then []
  else
    let packetBytes := discoveryPacketBytes e D in
    concat (map (fun a => match e_resolve e a with Some udpAddr => send_on (di_iface D) udpAddr packetBytes | None => [] end) addrs).

Definition SetRelayIDs (e : env) (D : Disc) (ids : list string) : Disc * list out :=
  let changed := negb (bool_decide (ids = di_relayIDs D)) in
  let D := set_advert D (di_pubKey D) (di_mlkemPub D) (di_port D) (di_capabilities D) ids in
  (D, if changed then announceSelf e D else []).

Definition SetRelay (e : env) (D : Disc) (on : bool) : Disc * list out :=
  let caps := List.filter (fun c => negb (String.eqb c "relay")) (di_capabilities D) in
  let caps := if on then caps ++ ["relay"%string] else caps in
  let D := set_advert D (di_pubKey D) (di_mlkemPub D) (di_port D) caps (di_relayIDs D) in
  (D, broadcastDiscovery e D ++ announceSelf e D).

(** ** Gossip *)

Definition self_info (now : Z) (D : Disc) : PeerInfo :=
  mkPeerInfo (selfID D) "" (di_pubKey D) (signPub D) (di_port D) (di_capabilities D) (di_relayIDs D) (di_mlkemPub D) now.
Definition node_info (n : Node) : PeerInfo :=
  mkPeerInfo (n_ID n) (n_Address n) (n_PubKey n) (n_SignKey n) (n_Port n) [] [] (n_MLKEMPub n) (n_LastSeen n).

Definition buildPeerExchangePayload (e : env) (D : Disc) : list PeerInfo :=
  self_info (e_now e) D :: map node_info (GetActiveNodes (e_ord e (d_nodes (di_peers D)))).

(** The loop with its [break]. *)
Fixpoint gossip_targets (it : list (string * Node)) (targets : list (string * string)) : list (string * string) :=
  match it with
  | [] => targets
  | (_, n) :: it =>
      if negb (n_Active n) || String.eqb (n_Address n) "" then gossip_targets it targets
      else
        let targets := targets ++ [(n_ID n, n_Address n)] in
        if maxGossipPeers <=? len targets then targets else gossip_targets it targets
  end.

Definition gossipPeers (e : env) (D : Disc) : list out :=
  let packetData := px_enc (buildPeerExchangePayload e D) in
  concat (map (fun tg =>
    match e_resolve e tg.2 with
    | None => []
    | Some udpAddr => send_on (ifaceFor D tg.1) udpAddr (MarshalBinary (signed_packet e D PacketTypePeerExchange packetData ""))
    end) (gossip_targets (e_ord e (d_nodes (di_peers D))) [])).

(** ** Latency probes *)

(** [bridged i]: interface [i] is a TCP bridge client; [up i]: a send on it succeeds. *)
Definition routedOnly (bridged : string -> bool) (D : Disc) (nodeID : string) : bool :=
  match ifaceFor D nodeID with Some i => bridged i | None => false end.

Definition latency_check (e : env) (D : Disc) (nodeID : string) (nonce : Z) : bytes :=
  MarshalBinary (signed_packet e D PacketTypeLatencyCheck (disc_enc (mkDiscovery (selfID D) [] 0 nonce [] [] "" [] [])) nodeID).

(** The start of [measureLatency]: the probe registered and what is sent, or [None]
    when nothing could be sent. *)
Definition measureLatency_start (bridged up : string -> bool) (e : env) (D : Disc) (node : Node) (nonce : Z) : Disc * list out * bool :=
  let addr := e_resolve e (n_Address node) in
  let viaRoute := String.eqb (n_Address node) "" || match addr with None => true | Some _ => false end || routedOnly bridged D (n_ID node) in
  let D := set_pending D (<[nonce := n_ID node]> (di_pending D)) in
  let b := latency_check e D (n_ID node) nonce in
  if viaRoute then
    let '(o, sent) := SendRoutedDiscovery e D (n_ID node) b 0 in
    match addr, di_iface D with
    | Some a, Some i => (D, o ++ [OSend i a b], sent || up i)
    | _, _ => (D, o, sent)
    end
  else
    match addr, ifaceFor D (n_ID node) with
    | Some a, Some i => (D, [OSend i a b], up i)
    | _, _ => (D, [], false)
    end.

(** Its end: the reply's arrival, if any, and the registration removed. *)
Definition measureLatency_finish (D : Disc) (nonce start : Z) (sent : bool) (arrival : option Z) (stopped : bool) : Disc * Z :=
  (set_pending D (delete nonce (di_pending D)),
   if negb sent then maxLatency + 1
   else match arrival with Some t => t - start | None => if stopped then maxLatency else maxLatency + 1 end).

(** ** Paths by polling *)

(** [D k] is the service at the [k]-th look at the path table, [clock k] the time of the
    [k]-th loop test, [cancelled k] whether the node is found stopped there. *)
Definition has_path (D : Disc) (destHash : string) : bool := match PathTo (di_paths D) destHash with Some _ => true | None => false end.

Fixpoint resolve_poll (fuel k : nat) (destHash : string) (deadline : Z) (clock : nat -> Z) (D : nat -> Disc) (cancelled : nat -> bool) : option bool :=
  match fuel with
  | O => None
  | S fuel =>
      if clock k <? deadline then
        if cancelled k then Some false
        else if has_path (D (S k)) destHash then Some true
        else resolve_poll fuel (S k) destHash deadline clock D cancelled
      else Some (has_path (D (S k)) destHash)
  end.

(** Also returned: what is sent. *)
Definition ResolvePath (fuel : nat) (e : env) (timeout : Z) (clock : nat -> Z) (D : nat -> Disc) (cancelled : nat -> bool) (destHash : string) :
    list out * option bool :=
  if has_path (D O) destHash then ([], Some true)
  else (RequestPath e (D O) destHash, resolve_poll fuel 0 destHash (e_now e + timeout) clock D cancelled).

(** ** Kademlia queries *)

Definition sendFindNode (e : env) (D : Disc) (nonce : Z) (contact : Contact) (target : string) : list out :=
  match e_resolve e (c_Address contact) with
  | None => []
  | Some addr => sendJSON e D (ID_String (c_ID contact)) addr PacketTypeFindNode
                   (fn_enc (mkFindNode (selfID D) (di_pubKey D) (di_port D) target nonce))
  end.

(** What the query returns for the contacts of a reply; none on a timeout. *)
Definition find_reply (reply : option (list DHTContact)) : list Contact :=
  concat (map (fun c => match ParseID (dc_NodeID c) with Ok id => [mkContact id (dc_Address c) (dc_Port c)] | Err _ => [] end) (default [] reply)).

(** The end of [FindNode]: [D1] is the service after the lookup, [D2] after the probe
    of the located peer and [lat] what the probe measured. *)
Definition FindNode_verify (D1 D2 : Disc) (now lat : Z) (target : string) : Disc * option Node :=
  match lookupLocal (di_peers D1) target with
  | None => (D1, None)
  | Some n =>
      if n_Active n then (D1, Some n)
      else if lat <=? maxLatency then
        let D := set_peers D2 (FindNode_promote now lat (di_peers D2) target) in (D, lookupLocal (di_peers D) target)
      else (D2, None)
  end.

Definition FindNode (D D1 D2 : Disc) (now lat : Z) (target : string) : Disc * option Node :=
  let search := match d_rt (di_peers D), ParseID target with
                | Some _, Ok _ => FindNode_verify D1 D2 now lat target
                | _, _ => (D, None)
                end in
  match lookupLocal (di_peers D) target with
  | Some n => if n_Active n || negb (String.eqb (n_Address n) "") then (D, Some n) else search
  | None => search
  end.

(** ** Reachability checks *)

Fixpoint probeTargets (e : env) (self : string) (n : Z) (it : list (string * Node)) (out : list string) : list string :=
  match it with
  | [] => out
  | (_, node) :: it =>
      if negb (n_Active node) || String.eqb (n_ID node) self then probeTargets e self n it out
      else
        match e_resolve e (n_Address node) with
        | Some addr => let out := out ++ [addr] in if n <=? len out then out else probeTargets e self n it out
        | None => probeTargets e self n it out
        end
  end.

Definition sendReachability (e : env) (D : Disc) (addr : string) (typ nonce dataPort : Z) (reachable : bool) : list out :=
  send_on (di_iface D) addr (MarshalBinary (signed_packet e D typ (rp_enc (mkReach (selfID D) nonce dataPort reachable)) "")).

(** The requests of a round. *)
Definition reach_requests (e : env) (D : Disc) (nonce : Z) : list out :=
  if di_port D =? 0 then []
  else concat (map (fun addr => sendReachability e D addr PacketTypeReachabilityCheck nonce (di_port D) false)
         (probeTargets e (selfID D) reachProbePeers (e_ord e (d_nodes (di_peers D))) [])).

(** The dial-back: the address dialled, and the answer once it connected or not. *)
Definition dial_target (from : string) (p : ReachabilityPayload) : option string :=
  match SplitHostPort from with
  | None => None
  | Some (host, _) => Some (JoinHostPort host (pretty (rp_DataPort p)))
  end.
Definition handleReachabilityCheck (e : env) (D : Disc) (dials : string -> bool) (from : string) (p : ReachabilityPayload) : list out :=
  match dial_target from p with
  | None => []
  | Some target => sendReachability e D from PacketTypeReachabilityResult (rp_Nonce p) 0 (dials target)
  end.

(** ** The peer cache *)

(** What [os.WriteFile] of the temporary file did: all, or a part of it. *)
Inductive write_result : Type := WOk | WFail (left : option bytes).

Definition addBootstrap (D : Disc) (addr : string) : Disc :=
  let boot := d_bootstrap (di_peers D) in
  if String.eqb addr "" then D
  else if existsb (fun a => String.eqb a addr) boot then D else set_bootstrap D (boot ++ [addr]).

Definition loadPeerCache (path : string) (fs : gmap string bytes) : list string :=
  if String.eqb path "" then []
  else match fs !! path with
       | None => []
       | Some data => default [] (cache_dec data)
       end.

Definition SetPeerCache (path : string) (fs : gmap string bytes) (D : Disc) : Disc :=
  if String.eqb path "" then D else fold_left addBootstrap (loadPeerCache path fs) D.

(** [sort.Slice] is not stable: ties come in any order, as [it] does. *)
Definition cached_addrs (it : list (string * Node)) : list string :=
  let peers := List.filter (fun n => negb (String.eqb (n_Address n) "")) (map snd it) in
  map n_Address (take maxCachedPeers (sort_by (fun a b => n_LastSeen b <? n_LastSeen a) peers)).

Definition savePeerCache (path : string) (it : list (string * Node)) (write : write_result) (renamed : bool) (fs : gmap string bytes) : gmap string bytes :=
  if String.eqb path "" then fs
  else
    let data := cache_enc (cached_addrs it) in
    let tmp := (path ++ ".tmp")%string in
    match write with
    | WFail None => fs
    | WFail (Some part) => <[tmp := part]> fs
    | WOk => if renamed then <[path := data]> (delete tmp fs) else <[tmp := data]> fs
    end.
End Maintenance.

(** ** The node's own ID never changes *)

Section Self.
Context `{N : NetOps} `{C : CryptoOps}.

Lemma admitLocked_self it d addr : d_selfID (admitLocked it d addr).1 = d_selfID d.
Proof.
  unfold admitLocked. destruct (isBootstrapAddr d addr); [done|]. destruct (fold_left _ it _) as [[c ss] sg].
  destruct (maxPeersPerSubnet <=? c); [destruct ss as [m|]; [|done]|]; destruct (maxPeers <=? _); try done; by destruct sg.
Qed.

Lemma rtUpdate_self d id a p : d_selfID (rtUpdate d id a p) = d_selfID d.
Proof. unfold rtUpdate. destruct (d_rt d); [|done]. destruct (String.eqb _ _); [done|]. by destruct (ParseID id). Qed.

Lemma upsertNode_self now it d id addr pk sk port caps rel ml v : d_selfID (upsertNode now it d id addr pk sk port caps rel ml v) = d_selfID d.
Proof.
  unfold upsertNode. destruct (String.eqb _ _); [done|]. destruct (d_nodes d !! id); [by rewrite rtUpdate_self|].
  pose proof (admitLocked_self it d addr) as Ha. destruct (admitLocked it d addr) as [d1 ok]. destruct ok; [|done]. cbn [negb]. by rewrite rtUpdate_self.
Qed.

Lemma mergePeer_self now it d pi att : d_selfID (mergePeer now it d pi att) = d_selfID d.
Proof.
  unfold mergePeer. destruct (_ || _); [done|]. destruct (negb _); [done|]. destruct (d_nodes d !! _) as [n|]; [by destruct (_ <? _)|].
  pose proof (admitLocked_self it d (pi_Address pi)) as Ha. destruct (admitLocked it d _) as [d1 ok]. by destruct ok.
Qed.
End Self.

(** ** Two nodes *)

Section TwoNodes.
Context `{N : NetOps} `{C : CryptoOps} `{L : !CryptoLaws C} `{J : DiscJson} `{G : GossipJson} `{JL : !GossipJsonLaws J G}.

(** A service with a signing key, whose ID is derived from it. *)
Record identified (D : Disc) : Prop := {
  id_key : len (di_signPriv D) = ed_PrivateKeySize;
  id_self : selfID D = DeriveNodeID (ed_public (di_signPriv D));
  id_u32 : is_u32 (len (str_bytes (selfID D)))
}.

Definition sendable (e : env) (data : bytes) : Prop := is_i64 (e_now e) /\ is_u32 (len data).

Lemma signed_packet_signer e D typ data dest : identified D -> SignerID (signed_packet e D typ data dest) = selfID D.
Proof using L.
  intros [Hk Hs _]. rewrite Hs. unfold signed_packet.
  apply (proj1 (sign_verify (di_signPriv D) (set_source (selfID D) (NewPacket (e_now e) (e_nowStr e) typ data "ANY" dest)) 0 []) Hk).
Qed.

Lemma signed_packet_wf e D typ data dest :
  identified D -> is_u8 typ -> sendable e data -> is_u32 (len (str_bytes dest)) -> wf_packet (signed_packet e D typ data dest).
Proof using L.
  intros [Hk _ Hs] Ht [Hn Hd] Hdest. unfold signed_packet, Sign. rewrite (proj2 (Z.eqb_eq _ _) Hk). cbn [negb].
  pose proof (sha256_len (([] ++ data) ++ e_nowStr e)) as Hsha. pose proof (ed_public_len _ Hk) as Hp.
  pose proof (ed_sign_len _ (canonicalBytes (set_signer (ed_public (di_signPriv D)) (set_source (selfID D) (NewPacket (e_now e) (e_nowStr e) typ data "ANY" dest)))) Hk) as Hg.
  split; cbn -[u32 len str_bytes canonicalBytes]; try done; try (unfold is_u32, is_u64; cbn; lia); try apply u32_is_u32.
  - cbn [app] in Hsha. unfold len in Hsha. lia.
  - rewrite Hp. unfold ed_PublicKeySize, is_u32. lia.
  - rewrite Hg. unfold ed_SignatureSize, is_u32. lia.
Qed.

Lemma signed_packet_fields e D typ data dest : len (di_signPriv D) = ed_PrivateKeySize ->
  let p := signed_packet e D typ data dest in
  p_Type p = typ /\ p_Payload p = data /\ p_SourceNode p = selfID D /\ p_DestNode p = dest /\ p_SignerKey p = ed_public (di_signPriv D) /\ Verify p = true.
Proof using L.
  intros Hk. cbn zeta. pose proof (proj1 (sign_verify (di_signPriv D) (set_source (selfID D) (NewPacket (e_now e) (e_nowStr e) typ data "ANY" dest)) (e_now e) []) Hk) as (Hv & _ & _).
  unfold signed_packet, Sign in *. rewrite (proj2 (Z.eqb_eq _ _) Hk) in *. cbn [negb] in *. split_and!; try reflexivity. exact Hv.
Qed.

(** The packet types whose frames are handled after their signature is checked. *)
Definition signed_type (typ : Z) : bool :=
  negb ((typ =? PacketTypeLinkRequest) || (typ =? PacketTypeLinkProof) || (typ =? PacketTypeLinkData) ||
        (typ =? PacketTypeRoutedDiscovery) || (typ =? PacketTypeRouted)).

Lemma listen_signed e D addr src remote e0 D0 typ data dest :
  identified D0 -> is_u8 typ -> signed_type typ = true -> sendable e0 data -> is_u32 (len (str_bytes dest)) -> e_resolve e addr = Some remote ->
  listen e D addr src (MarshalBinary (signed_packet e0 D0 typ data dest)) =
  handleSigned e (rememberIface (rememberAddrIface D addr src) (selfID D0) src) remote src (signed_packet e0 D0 typ data dest).
Proof using L.
  intros Hi Ht Hst Hs Hd Hr. unfold listen. rewrite Hr, marshal_roundtrip by by apply signed_packet_wf.
  destruct (signed_packet_fields e0 D0 typ data dest (id_key _ Hi)) as (Hty & _ & _ & _ & _ & Hv).
  rewrite Hty, Hv, (signed_packet_signer _ _ _ _ _ Hi). unfold signed_type in Hst. apply negb_true_iff in Hst.
  repeat (apply orb_false_iff in Hst as [Hst ?]). repeat match goal with H : (typ =? _) = false |- _ => rewrite H; clear H end. reflexivity.
Qed.

Definition probe_payload (self : string) (nonce : Z) (observed : string) : DiscoveryPayload := mkDiscovery self [] 0 nonce [] [] observed [] [].

Lemma probe_payload_json self nonce observed :
  ascii_str self -> ascii_str observed -> is_u64 nonce -> json_discovery (probe_payload self nonce observed).
Proof. intros H1 H2 H3. unfold json_discovery, is_u16. cbn. split_and!; try done; try lia; apply Forall_nil_2. Qed.

Lemma remember_self D a i k j : selfID (rememberIface (rememberAddrIface D a i) k j) = selfID D.
Proof. unfold rememberIface, rememberAddrIface. destruct (String.eqb a ""), (String.eqb k ""); reflexivity. Qed.
Lemma remember_priv D a i k j : di_signPriv (rememberIface (rememberAddrIface D a i) k j) = di_signPriv D.
Proof. unfold rememberIface, rememberAddrIface. destruct (String.eqb a ""), (String.eqb k ""); reflexivity. Qed.
Lemma remember_pending D a i k j : di_pending (rememberIface (rememberAddrIface D a i) k j) = di_pending D.
Proof. unfold rememberIface, rememberAddrIface. destruct (String.eqb a ""), (String.eqb k ""); reflexivity. Qed.
Lemma remember_iface D a i k j : k <> ""%string -> ifaceFor (rememberIface (rememberAddrIface D a i) k j) k = Some j.
Proof.
  intros Hk. unfold ifaceFor, rememberIface. destruct (String.eqb_spec k ""); [done|]. cbn [di_nodeIface set_nodeIface]. by rewrite lookup_insert_eq.
Qed.

Lemma handleSigned_direct e D remote src pkt payload :
  (p_Type pkt = PacketTypeLatencyCheck \/ p_Type pkt = PacketTypeLatencyReply \/ p_Type pkt = PacketTypeDiscovery) ->
  disc_dec (p_Payload pkt) = Some payload -> handleSigned e D remote src pkt = handleDirect e D remote pkt payload.
Proof. intros Ht Hp. unfold handleSigned. rewrite Hp. by destruct Ht as [-> | [-> | -> ] ]. Qed.

(** What a probed node does: it learns the prober and answers on the interface the
    probe came in on. *)
Lemma probe_handled eA A eB B nonce dest addr src remote :
  identified A -> identified B -> ascii_str (selfID A) -> is_u64 nonce -> is_u32 (len (str_bytes dest)) -> selfID A <> ""%string ->
  sendable eA (disc_enc (probe_payload (selfID A) nonce "")) -> e_resolve eB addr = Some remote ->
  exists B', listen eB B addr src (latency_check eA A dest nonce) =
    (B', [OSend src remote (MarshalBinary (signed_packet eB B PacketTypeLatencyReply (disc_enc (probe_payload (selfID B) nonce remote)) ""))]).
Proof using L JL.
  intros HA HB Ha Hn Hd Hne Hs Hr. unfold latency_check. fold (probe_payload (selfID A) nonce "").
  rewrite (listen_signed eB B addr src remote eA A PacketTypeLatencyCheck (disc_enc (probe_payload (selfID A) nonce "")) dest) by (try done; unfold is_u8, PacketTypeLatencyCheck; lia).
  destruct (signed_packet_fields eA A PacketTypeLatencyCheck (disc_enc (probe_payload (selfID A) nonce "")) dest (id_key _ HA)) as (Hty & Hpl & Hsn & _ & _ & _).
  rewrite (handleSigned_direct _ _ _ _ _ (probe_payload (selfID A) nonce "")); [|by left|rewrite Hpl; apply disc_roundtrip, probe_payload_json; [done|apply Forall_nil_2|done]].
  unfold handleDirect. rewrite Hty, (signed_packet_signer _ _ _ _ _ HA), Hsn. cbn [dp_NodeID dp_Nonce probe_payload]. rewrite String.eqb_refl. cbn [andb negb].
  change (PacketTypeLatencyCheck =? PacketTypeDiscovery) with false. change (PacketTypeLatencyCheck =? PacketTypeLatencyCheck) with true. cbn beta iota.
  eexists. f_equal. unfold sendLatencyReply, sendJSON.
  set (D := rememberIface (rememberAddrIface B addr src) (selfID A) src). set (P := updateNode _ _ _ _ _ _ _ _ _ _ _).
  assert (Hif : ifaceFor (set_peers D P) (selfID A) = Some src) by (by apply remember_iface). rewrite Hif. cbn [send_on].
  assert (Hself : selfID (set_peers D P) = selfID B).
  { transitivity (selfID D); [|apply remember_self]. unfold selfID, P. cbn [di_peers set_peers]. apply upsertNode_self. }
  assert (Hpriv : di_signPriv (set_peers D P) = di_signPriv B) by apply remember_priv.
  fold (probe_payload (selfID (set_peers D P)) nonce remote). rewrite Hself. unfold signed_packet. by rewrite Hself, Hpriv.
Qed.

(** Only a probe's reply is reported as one. *)
Ltac quiet := cbn [fst snd send_on]; first [by intros ?%not_elem_of_nil | by intros ?%list_elem_of_singleton].
Definition silent (l : list out) : Prop := forall nonce, OLatency nonce ∉ l.

Lemma silent_nil : silent [].
Proof. intros n. apply not_elem_of_nil. Qed.
Lemma silent_app l l' : silent l -> silent l' -> silent (l ++ l').
Proof. intros H H' n [Hn|Hn]%elem_of_app; [by apply (H n)|by apply (H' n)]. Qed.
Lemma silent_send i a b : silent (send_on i a b).
Proof. intros n. destruct i; quiet. Qed.
Lemma silent_flood D b : silent (floodFrame D b).
Proof. intros n Hn. unfold floodFrame in Hn. by apply list_elem_of_fmap in Hn as (? & ? & _). Qed.
Lemma silent_concat {A} (f : A -> list out) l : (forall x, silent (f x)) -> silent (concat (map f l)).
Proof. intros Hf. induction l as [|x l IH]; [apply silent_nil|]. cbn. by apply silent_app. Qed.
Lemma silent_direct e D b : silent (floodFrameDirect e D b).
Proof. apply silent_app; [apply silent_flood|]. apply silent_concat. intros x. apply silent_send. Qed.
Lemma silent_announce e D ap d : silent (sendAnnounceMode e D ap d).
Proof. unfold sendAnnounceMode. destruct (di_iface D); [|apply silent_nil]. destruct d; [apply silent_direct|apply silent_flood]. Qed.
Lemma silent_request e D pr : silent (sendPathRequest e D pr).
Proof. unfold sendPathRequest. destruct (di_iface D); [|apply silent_nil]. destruct (_ =? _); [apply silent_nil|apply silent_direct]. Qed.
Lemma silent_route D d pkt : silent (routeToward D d pkt).1.
Proof.
  unfold routeToward. destruct (path_lookup _ _) as [pe|]; [|apply silent_nil]. destruct (String.eqb _ _); [apply silent_nil|].
  destruct (match di_addrIface D !! pe_NextHop pe with Some i => Some i | None => di_iface D end); [|apply silent_nil]. intros n H%list_elem_of_singleton. done.
Qed.
Create HintDb silent.
#[local] Hint Resolve silent_nil silent_app silent_send silent_flood silent_direct silent_announce silent_request silent_route : silent.

Lemma silent_handleAnnounce e D a src pkt : silent (handleAnnounce e D a src pkt).1.2.
Proof.
  unfold handleAnnounce. destruct (ann_dec _) as [ap|]; [|apply silent_nil]. destruct (_ || _); [apply silent_nil|]. destruct (observe _ _ _ _) as [s []]; [apply silent_nil|].
  destruct (path_update _ _ _ _) as [paths stored]. destruct (_ && _); cbn [fst snd]; auto with silent.
Qed.

Lemma silent_handlePathRequest e D pkt : silent (handlePathRequest e D pkt).1.2.
Proof.
  unfold handlePathRequest. destruct (preq_dec _) as [pr|]; [|apply silent_nil]. destruct (String.eqb _ ""); [apply silent_nil|].
  destruct (observe _ _ _ _) as [s []]; [apply silent_nil|]. destruct (String.eqb _ _); [destruct (buildSelfAnnounce _ _); cbn [fst snd]; auto with silent|].
  destruct (path_lookup _ _) as [pe|]; [destruct (pe_Ann pe)|]; cbn [fst snd]; auto with silent; destruct (_ && _); cbn [fst snd]; auto with silent.
Qed.

Lemma resolveLatency_inv D nonce signer n : OLatency n ∈ resolveLatency D nonce signer -> n = nonce /\ di_pending D !! n = Some signer.
Proof.
  unfold resolveLatency. destruct (di_pending D !! nonce) as [id|] eqn:E; [|quiet]. destruct (String.eqb_spec id signer) as [->|]; [|quiet].
  intros H%list_elem_of_singleton. by simplify_eq.
Qed.

Lemma handleDirect_latency e D a pkt payload n : OLatency n ∈ (handleDirect e D a pkt payload).2 -> di_pending D !! n = Some (SignerID pkt).
Proof.
  unfold handleDirect. destruct (p_Type pkt =? PacketTypeDiscovery); [destruct (negb _); quiet|].
  destruct (p_Type pkt =? PacketTypeLatencyCheck); [destruct (negb _); [quiet|]; cbn [snd]; intros H; exfalso; by eapply silent_send|].
  destruct (p_Type pkt =? PacketTypeLatencyReply); [|quiet]. cbn [snd]. intros [_ H]%resolveLatency_inv.
  destruct (negb _); [|done]. unfold recordObserved in H. destruct (SplitHostPort _) as [[h ?]|]; [|done]. by destruct (String.eqb h "").
Qed.

Lemma deliverRouted_latency e D ip from src n : OLatency n ∈ (deliverRoutedDiscovery e D ip from src).2 ->
  Verify ip = true /\ di_pending D !! n = Some (SignerID ip).
Proof.
  unfold deliverRoutedDiscovery. destruct (Verify ip) eqn:Ev; [|quiet]. cbn [negb]. destruct (_ || _ || _); [quiet|].
  destruct (disc_dec _) as [payload|]; [|quiet]. destruct (negb _); [quiet|]. cbn zeta.
  destruct (p_Type ip =? PacketTypeLatencyCheck); [cbn [snd]; intros H; exfalso; by eapply silent_route|].
  destruct (p_Type ip =? PacketTypeLatencyReply); [|destruct (p_Type ip =? PacketTypeDiscovery); quiet]. cbn [snd].
  intros [_ H]%resolveLatency_inv. split; [done|]. cbn [di_pending set_paths] in H. unfold rememberIface in H. by destruct (String.eqb (SignerID ip) "").
Qed.

Lemma handleSigned_latency e D a src pkt n : OLatency n ∈ (handleSigned e D a src pkt).2 -> di_pending D !! n = Some (SignerID pkt).
Proof.
  unfold handleSigned. destruct (_ =? _); [destruct (px_dec _); quiet|].
  destruct (_ =? _).
  { destruct (fn_dec _) as [fn|]; [|quiet]. destruct (_ || _); [quiet|]. cbn [snd]. unfold handleFindNode. destruct (d_rt _); [|quiet].
    destruct (ParseID _); [|quiet]. intros H. exfalso. by eapply silent_send. }
  destruct (_ =? _); [destruct (fr_dec _); quiet|].
  destruct (_ =? _); [intros H; exfalso; by eapply silent_handleAnnounce|].
  destruct (_ =? _); [intros H; exfalso; by eapply silent_handlePathRequest|].
  destruct (_ =? _); [destruct (rp_dec _); quiet|]. destruct (_ =? _); [destruct (rp_dec _); quiet|].
  destruct (disc_dec _) as [payload|]; [apply handleDirect_latency|quiet].
Qed.

(** A frame counts as the answer of a probe only if it is signed by the node probed. *)
Lemma listen_latency e D addr src data n : OLatency n ∈ (listen e D addr src data).2 ->
  exists id, di_pending D !! n = Some id /\ authenticated data id.
Proof.
  unfold listen. destruct (e_resolve e addr) as [remote|]; [|quiet]. destruct (UnmarshalBinary data) as [pkt|] eqn:Eu; [|quiet].
  assert (Hpend : di_pending (rememberAddrIface D addr src) = di_pending D) by (unfold rememberAddrIface; by destruct (String.eqb addr "")).
  destruct (_ || _ || _); [cbn [snd]; destruct (_ =? _); quiet|].
  destruct (Z.eqb_spec (p_Type pkt) PacketTypeRoutedDiscovery) as [Ert|_].
  { unfold handleRoutedDiscovery. destruct (observe _ _ _ _) as [s []]; [quiet|]. destruct (String.eqb _ _).
    - destruct (UnmarshalBinary (RoutedInner _)) as [ip|] eqn:Ei; [|quiet]. intros [Hv Hp]%deliverRouted_latency.
      cbn [di_pending set_routedSeen] in Hp. rewrite Hpend in Hp. exists (SignerID ip). split; [done|]. by eapply au_routed.
    - destruct (negb _); [quiet|]. destruct (_ <=? _); [quiet|]. intros H. exfalso. by eapply silent_route. }
  destruct (_ =? _).
  { unfold handleRouted. destruct (observe _ _ _ _) as [s []]; [quiet|]. destruct (String.eqb _ _); [quiet|].
    destruct (negb _); [quiet|]. destruct (_ <=? _); [quiet|]. intros H. exfalso. by eapply silent_route. }
  destruct (Verify pkt) eqn:Ev; [|quiet]. intros H%handleSigned_latency. rewrite remember_pending in H. exists (SignerID pkt).
  split; [done|]. by eapply au_packet.
Qed.

(** The answer of a probed node reaches the probe. *)
Lemma reply_resolves eB B eA A nonce addr src remote observed :
  identified B -> ascii_str (selfID B) -> ascii_str observed -> is_u64 nonce -> sendable eB (disc_enc (probe_payload (selfID B) nonce observed)) ->
  e_resolve eA addr = Some remote -> di_pending A !! nonce = Some (selfID B) ->
  (listen eA A addr src (MarshalBinary (signed_packet eB B PacketTypeLatencyReply (disc_enc (probe_payload (selfID B) nonce observed)) ""))).2 = [OLatency nonce].
Proof using L JL.
  intros HB Ha Ho Hn Hs Hr Hp. rewrite (listen_signed eA A addr src remote) by (try done; unfold is_u8, is_u32, PacketTypeLatencyReply; cbn; lia).
  destruct (signed_packet_fields eB B PacketTypeLatencyReply (disc_enc (probe_payload (selfID B) nonce observed)) "" (id_key _ HB)) as (Hty & Hpl & _).
  rewrite (handleSigned_direct _ _ _ _ _ (probe_payload (selfID B) nonce observed)); [|by right; left|rewrite Hpl; by apply disc_roundtrip, probe_payload_json].
  unfold handleDirect. rewrite Hty, (signed_packet_signer _ _ _ _ _ HB).
  change (PacketTypeLatencyReply =? PacketTypeDiscovery) with false. change (PacketTypeLatencyReply =? PacketTypeLatencyCheck) with false.
  change (PacketTypeLatencyReply =? PacketTypeLatencyReply) with true. cbn beta iota. cbn [snd dp_Nonce dp_ObservedAddr probe_payload]. unfold resolveLatency.
  set (D := rememberIface _ _ _). assert (HD : di_pending D = di_pending A) by apply remember_pending.
  assert (Hrec : di_pending (if negb (String.eqb observed "") then recordObserved D observed else D) = di_pending A).
  { rewrite <- HD. destruct (negb _); [|done]. unfold recordObserved. destruct (SplitHostPort _) as [[h ?]|]; [|done]. by destruct (String.eqb h ""). }
  by rewrite Hrec, Hp, String.eqb_refl.
Qed.

(** A latency probe measures the node it names.  A probe of a known, directly
    reachable node is sent to its address and registered under its identity; the
    node's own read loop answers it on the interface it came in on; and its answer
    ends the probe.  No other frame does: whatever arrives, a probe is only ended by a
    frame signed with the key of the node probed. *)
Theorem latency_probe bridged up eA A node nonce i a eB B from src remote :
  identified A -> identified B -> n_ID node = selfID B -> ascii_str (selfID A) -> ascii_str (selfID B) -> ascii_str remote -> is_u64 nonce ->
  selfID A <> ""%string -> n_Address node <> ""%string -> e_resolve eA (n_Address node) = Some a -> ifaceFor A (selfID B) = Some i ->
  bridged i = false -> e_resolve eB from = Some remote ->
  sendable eA (disc_enc (probe_payload (selfID A) nonce "")) -> sendable eB (disc_enc (probe_payload (selfID B) nonce remote)) ->
  exists A' frame B' answer, measureLatency_start bridged up eA A node nonce = (A', [OSend i a frame], up i) /\
    di_pending A' !! nonce = Some (selfID B) /\ listen eB B from src frame = (B', [OSend src remote answer]) /\
    forall e D, di_pending D !! nonce = Some (selfID B) ->
      (forall addr src remote, e_resolve e addr = Some remote -> (listen e D addr src answer).2 = [OLatency nonce]) /\
      (forall addr src data, OLatency nonce ∈ (listen e D addr src data).2 -> authenticated data (selfID B)).
Proof using L JL.
  intros HA HB Hid HaA HaB Har Hn HneA Hne Hra Hif Hbr Hrb HsA HsB.
  destruct (probe_handled eA (set_pending A (<[nonce := selfID B]> (di_pending A))) eB B nonce (selfID B) from src remote) as [B' HB']; try done.
  - destruct HA. by split.
  - apply HB.
  - eexists (set_pending A (<[nonce := selfID B]> (di_pending A))), _, B', _. split_and!; [|cbn [di_pending set_pending]; by rewrite lookup_insert_eq|exact HB'|].
    + unfold measureLatency_start, routedOnly. rewrite Hid, Hra, Hif, Hbr. destruct (String.eqb_spec (n_Address node) ""); [done|]. cbn [orb].
      change (ifaceFor (set_pending A (<[nonce:=selfID B]> (di_pending A))) (selfID B)) with (ifaceFor A (selfID B)). by rewrite Hif.
    + intros e D Hp. split.
      * intros addr src' remote' Hr. by apply (reply_resolves eB B e D nonce addr src' remote' remote).
      * intros addr src' data (id & Hpd & Hau)%listen_latency. rewrite Hp in Hpd. by simplify_eq.
Qed.
End TwoNodes.

(** ** Waiting for a path *)

Section Polling.
Context `{N : NetOps} `{C : CryptoOps} `{J : DiscJson}.
Context (destHash : string) (deadline : Z) (clock : nat -> Z) (D : nat -> Disc) (cancelled : nat -> bool).
Context (Hclock : forall k, clock k + pathPollInterval <= clock (S k)).

Lemma clock_after k n : clock k + Z.of_nat n * pathPollInterval <= clock (k + n)%nat.
Proof using Hclock.
  induction n as [|n IH]; [rewrite Nat.add_0_r; lia|]. specialize (Hclock (k + n)). rewrite Nat.add_succ_r. unfold pathPollInterval in *. lia.
Qed.

Lemma resolve_poll_spec fuel k : deadline < clock k + Z.of_nat fuel * pathPollInterval ->
  exists b, resolve_poll (S fuel) k destHash deadline clock D cancelled = Some b /\
    (b = true -> exists j, has_path (D j) destHash = true) /\
    ((forall j, cancelled j = false) -> (exists j, (k <= j)%nat /\ clock j < deadline /\ has_path (D (S j)) destHash = true) -> b = true).
Proof using Hclock.
  revert k. induction fuel as [|fuel IH]; intros k Hk; cbn [resolve_poll].
  - destruct (Z.ltb_spec (clock k) deadline); [unfold pathPollInterval in *; lia|]. eexists. split_and!; [done|eauto|].
    intros _ (j & Hj & Hlt & _). pose proof (clock_after k (j - k)) as Ha. replace (k + (j - k))%nat with j in Ha by lia. unfold pathPollInterval in *. lia.
  - destruct (Z.ltb_spec (clock k) deadline) as [Hlt|Hge].
    + destruct (cancelled k) eqn:Ec; [exists false; split_and!; [done|done|intros H; by rewrite H in Ec]|].
      destruct (has_path (D (S k)) destHash) eqn:Ep; [exists true; split_and!; eauto|].
      destruct (IH (S k)) as (b & Hb & H1 & H2); [specialize (Hclock k); unfold pathPollInterval in *; lia|]. exists b. split_and!; [exact Hb|done|].
      intros Hc (j & Hj & Hjd & Hjp). apply H2; [done|]. exists j. split_and!; try done. destruct (decide (j = k)) as [->|]; [congruence|lia].
    + eexists. split_and!; [done|eauto|]. intros _ (j & Hj & Hjd & _). pose proof (clock_after k (j - k)) as Ha. replace (k + (j - k))%nat with j in Ha by lia.
      unfold pathPollInterval in *. lia.
Qed.
End Polling.

Section Resolving.
Context `{N : NetOps} `{C : CryptoOps} `{J : DiscJson}.

(** Waiting for a path ends, and finds a path that arrives.  Each poll sleeps at
    least its interval, so whatever the clock and the path table do, the wait is over
    after at most [timeout / pathPollInterval + 2] looks; a path request is flooded
    exactly if no path was known at first; and if the node is not stopped and a look
    that follows a test before the deadline finds a path, the answer is yes — and it is
    yes only if some look found one. *)
Theorem resolve_path_liveness e timeout clock (D : nat -> Disc) cancelled destHash :
  0 <= timeout -> e_now e <= clock O -> (forall k, clock k + pathPollInterval <= clock (S k)) ->
  let fuel := S (S (Z.to_nat (timeout / pathPollInterval))) in
  exists b, ResolvePath fuel e timeout clock D cancelled destHash = (if has_path (D O) destHash then [] else RequestPath e (D O) destHash, Some b) /\
    (b = true -> exists j, has_path (D j) destHash = true) /\
    ((forall j, cancelled j = false) -> (exists j, clock j < e_now e + timeout /\ has_path (D (S j)) destHash = true) -> b = true).
Proof.
  intros Ht Hn Hc fuel. unfold ResolvePath. destruct (has_path (D O) destHash) eqn:Ep; [exists true; split_and!; eauto|].
  destruct (resolve_poll_spec destHash (e_now e + timeout) clock D cancelled Hc (S (Z.to_nat (timeout / pathPollInterval))) O) as (b & Hb & H1 & H2).
  - pose proof (Z.div_mod timeout pathPollInterval ltac:(done)). pose proof (Z.mod_pos_bound timeout pathPollInterval ltac:(done)).
    pose proof (Z.div_pos timeout pathPollInterval Ht ltac:(done)). rewrite Nat2Z.inj_succ, Z2Nat.id by done. unfold pathPollInterval in *. nia.
  - exists b. split_and!; [unfold fuel; by rewrite Hb|done|]. intros Hcn (j & Hj & Hjp). apply H2; [done|]. exists j. split_and!; [lia|done..].
Qed.
End Resolving.

(** ** The peer cache *)

Definition boot_add (boot : list string) (a : string) : list string :=
  if String.eqb a "" then boot else if existsb (fun b => String.eqb b a) boot then boot else boot ++ [a].

Lemma addBootstrap_add D a : addBootstrap D a = set_bootstrap D (boot_add (d_bootstrap (di_peers D)) a).
Proof. unfold addBootstrap, boot_add. destruct (String.eqb a ""); [by destruct D as [[]]|]. destruct (existsb _ _); [by destruct D as [[]]|done]. Qed.

Lemma boot_add_spec boot a : boot_add boot a = boot /\ (a = ""%string \/ a ∈ boot) \/ boot_add boot a = boot ++ [a] /\ a <> ""%string /\ (a ∉ boot).
Proof.
  unfold boot_add. destruct (String.eqb_spec a "") as [->|Ha]; [by left; split; [|left]|]. destruct (existsb _ _) eqn:E.
  - left. split; [done|]. right. apply existsb_exists in E as (y & Hy & ->%String.eqb_eq). by apply list_elem_of_In.
  - right. split_and!; [done..|]. intros H. enough (existsb (fun b => String.eqb b a) boot = true) by congruence. apply existsb_exists. exists a.
    split; [by apply list_elem_of_In|apply String.eqb_refl].
Qed.

Lemma boot_add_all l boot : exists new, fold_left boot_add l boot = boot ++ new /\ NoDup new /\
  forall x, x ∈ new <-> x ∈ l /\ x <> ""%string /\ (x ∉ boot).
Proof.
  revert boot. induction l as [|a l IH]; intros boot; cbn [fold_left].
  - exists []. rewrite app_nil_r. split_and!; [done|constructor|set_solver].
  - destruct (IH (boot_add boot a)) as (new & -> & Hnd & Hin). destruct (boot_add_spec boot a) as [[E Ha]|(E & Ha & Hb)]; rewrite E in *.
    + exists new. split_and!; try done. intros x. rewrite Hin, elem_of_cons. split; [intros (H1 & H2 & H3); split_and!; [by right|done..]|]. intros ([->|Hl] & Hx & Hb); [by destruct Ha|by split_and!].
    + exists (a :: new). split_and!; [by rewrite <- app_assoc|constructor; [intros (_ & _ & H)%Hin; apply H, elem_of_app; right; by constructor|done]|].
      intros x. rewrite !elem_of_cons, Hin, elem_of_app, list_elem_of_singleton. destruct (decide (x = a)) as [->|]; naive_solver.
Qed.

Lemma addBootstrap_all l D : fold_left addBootstrap l D = set_bootstrap D (fold_left boot_add l (d_bootstrap (di_peers D))).
Proof.
  revert D. induction l as [|a l IH]; intros D; cbn [fold_left]; [by destruct D as [[]]|]. by rewrite IH, addBootstrap_add.
Qed.

Section Cache.
Context `{J : DiscJson} `{G : GossipJson} `{JL : !GossipJsonLaws J G}.

(** The peers worth caching. *)
Definition addressed (it : list (string * Node)) : list Node := List.filter (fun n => negb (String.eqb (n_Address n) "")) (map snd it).

Lemma sorted_weaken {A} (R S : A -> A -> Prop) l : (forall a b, R a b -> S a b) -> StronglySorted R l -> StronglySorted S l.
Proof. intros H Hl. induction Hl as [|x l Hl IH Hx]; constructor; [done|]. eapply Forall_impl; [exact Hx|]. intros b Hb. by apply H. Qed.

Lemma recent_strict_weak : StrictWeak (fun a b : Node => n_LastSeen b <? n_LastSeen a).
Proof. split; intros; lia. Qed.

Lemma cached_addrs_spec it : exists kept dropped, cached_addrs it = map n_Address kept /\ addressed it ≡ₚ kept ++ dropped /\
  length kept = (length (addressed it) `min` maxCachedPeers)%nat /\
  StronglySorted (fun a b => n_LastSeen b <= n_LastSeen a) kept /\
  forall a b, a ∈ kept -> b ∈ dropped -> n_LastSeen b <= n_LastSeen a.
Proof using Type.
  pose proof recent_strict_weak as Hsw. unfold cached_addrs. fold (addressed it). set (lt := fun a b : Node => n_LastSeen b <? n_LastSeen a) in *.
  pose proof (sort_by_sorted lt (addressed it)) as Hs. exists (take maxCachedPeers (sort_by lt (addressed it))), (drop maxCachedPeers (sort_by lt (addressed it))).
  split_and!; [done|by rewrite take_drop, sort_by_perm|by rewrite length_take, length_sort_by, Nat.min_comm| |].
  - eapply sorted_weaken; [|by apply sorted_take]. intros a b. unfold not_after, lt. lia.
  - intros a b Ha Hb. pose proof (sorted_take_drop _ _ _ a b Hs Ha Hb) as H. unfold not_after, lt in H. lia.
Qed.

Lemma tmp_path path : (path ++ ".tmp")%string <> path.
Proof. induction path as [|c p IH]; [discriminate|]. intros [= H]. by apply IH. Qed.

(** The peer cache survives.  Saving replaces the cache atomically: if the write or
    the rename fails, at any point, the next start still loads the previous list.  A
    saved list holds at most [maxCachedPeers] addresses, the most recently seen peers
    first, and leaves out only peers seen no later.  A start adds to the configured
    bootstrap peers exactly the cached addresses that are not among them, each once,
    and changes nothing else. *)
Theorem peer_cache path it write renamed fs D :
  path <> ""%string -> Forall (fun n => ascii_str (n_Address n)) (map snd it) ->
  let fs' := savePeerCache path it write renamed fs in
  let saved := match write with WOk => renamed | WFail _ => false end in
  loadPeerCache path fs' = (if saved then cached_addrs it else loadPeerCache path fs) /\
  (exists kept dropped, cached_addrs it = map n_Address kept /\ addressed it ≡ₚ kept ++ dropped /\
     length kept = (length (addressed it) `min` maxCachedPeers)%nat /\ StronglySorted (fun a b => n_LastSeen b <= n_LastSeen a) kept /\
     forall a b, a ∈ kept -> b ∈ dropped -> n_LastSeen b <= n_LastSeen a) /\
  exists new, SetPeerCache path fs' D = set_bootstrap D (d_bootstrap (di_peers D) ++ new) /\ NoDup new /\
    forall x, x ∈ new <-> x ∈ loadPeerCache path fs' /\ x <> ""%string /\ (x ∉ d_bootstrap (di_peers D)).
Proof using JL.
  intros Hp Ha fs' saved. split_and!; [|apply cached_addrs_spec|].
  - unfold fs', saved, savePeerCache, loadPeerCache. destruct (String.eqb_spec path "") as [?|_]; [done|]. pose proof (tmp_path path) as Ht.
    destruct write as [|[part|]]; [destruct renamed|..]; rewrite ?lookup_insert_ne by done; try done.
    rewrite lookup_insert_eq, cache_roundtrip; [done|]. destruct (cached_addrs_spec it) as (kept & dropped & -> & Hk & _).
    apply Forall_map, Forall_forall. intros n Hn. assert (Hin : n ∈ addressed it) by (rewrite Hk; set_solver).
    apply list_elem_of_In, List.filter_In in Hin as [Hin _]. rewrite Forall_forall in Ha. apply Ha. by apply list_elem_of_In.
  - unfold SetPeerCache. destruct (String.eqb_spec path "") as [?|_]; [done|]. rewrite addBootstrap_all.
    destruct (boot_add_all (loadPeerCache path fs') (d_bootstrap (di_peers D))) as (new & -> & Hnd & Hin). by exists new.
Qed.
End Cache.

(** ** Gossip between two nodes *)

Section Spread.
Context `{N : NetOps} `{C : CryptoOps} `{L : !CryptoLaws C} `{J : DiscJson} `{G : GossipJson} `{JL : !GossipJsonLaws J G}.

(** The table has room for the records: none of them can push a peer out. *)
Definition in_subnet (sk : string) (pi : PeerInfo) : bool := String.eqb (disc_subnetKey (pi_Address pi)) sk.
Record room (d : Peers) (pis : list PeerInfo) : Prop := {
  rm_size : Z.of_nat (size (d_nodes d)) + len pis <= maxPeers;
  rm_subnet sk : cnt (own d sk) (d_nodes d) + len (List.filter (in_subnet sk) pis) <= maxPeersPerSubnet
}.

Lemma admit_room it d addr :
  range_of (d_nodes d) it -> Z.of_nat (size (d_nodes d)) < maxPeers -> cnt (own d (disc_subnetKey addr)) (d_nodes d) < maxPeersPerSubnet ->
  admitLocked it d addr = (d, true).
Proof using Type.
  intros Hr Hs Hc. unfold admitLocked. destruct (isBootstrapAddr d addr); [done|].
  pose proof (scan_spec d (disc_subnetKey addr) it) as Hscan. destruct (fold_left _ it _) as [[c ss] sg]. destruct Hscan as (Hcnt & _ & _).
  rewrite (cnt_range _ _ _ Hr) in Hcnt. subst c. destruct (Z.leb_spec maxPeersPerSubnet (cnt (own d (disc_subnetKey addr)) (d_nodes d))); [lia|].
  destruct (Z.leb_spec maxPeers (Z.of_nat (size (d_nodes d)))); [lia|done].
Qed.

Definition acceptable (d : Peers) (pi : PeerInfo) : bool :=
  negb (String.eqb (pi_NodeID pi) "" || String.eqb (pi_NodeID pi) (d_selfID d)) && String.eqb (pi_NodeID pi) (DeriveNodeID (pi_SignKey pi)).

(** The node a record of an unknown peer makes. *)
Definition learned (pi : PeerInfo) (att : bool) (n : Node) : Prop := exists ptr ls,
  n = mkNode ptr (pi_NodeID pi) (pi_Address pi) ls 0 false (pi_PubKey pi) (pi_SignKey pi) (pi_Port pi)
        (attestedOnly att (pi_Capabilities pi)) (attestedOnly att (pi_RelayIDs pi)) (pi_MLKEMPub pi).
Definition refreshed (pi : PeerInfo) (att : bool) (m n : Node) : Prop := n = m \/ n_LastSeen m <= pi_LastSeen pi /\ n = merged pi att m.

(** What merging a record does to the entry of its subject. *)
Definition takes (d : Peers) (pi : PeerInfo) (att : bool) (n : Node) : Prop :=
  match d_nodes d !! pi_NodeID pi with None => learned pi att n | Some m => refreshed pi att m n end.

Lemma mergePeer_room now it d pi pis att :
  range_of (d_nodes d) it -> room d (pi :: pis) -> acceptable d pi = true ->
  exists n, d_nodes (mergePeer now it d pi att) = <[pi_NodeID pi := n]> (d_nodes d) /\ takes d pi att n /\ d_bootstrap (mergePeer now it d pi att) = d_bootstrap d.
Proof using Type.
  intros Hr [Hs Hc] Ha. unfold mergePeer, takes. unfold acceptable in Ha. apply andb_true_iff in Ha as [Ha1%negb_true_iff Ha2]. rewrite Ha1, Ha2. cbn [negb].
  destruct (d_nodes d !! pi_NodeID pi) as [m|] eqn:Em.
  - destruct (Z.ltb_spec (pi_LastSeen pi) (n_LastSeen m)); [exists m; rewrite insert_id by done; split_and!; [done|by left|done]|].
    eexists. split_and!; [reflexivity| |done]. right. by split.
  - specialize (Hc (disc_subnetKey (pi_Address pi))). cbn [List.filter] in Hc. unfold in_subnet in Hc at 1. rewrite String.eqb_refl, len_cons in Hc.
    pose proof (len_nonneg (List.filter (in_subnet (disc_subnetKey (pi_Address pi))) pis)). rewrite len_cons in Hs. pose proof (len_nonneg pis).
    rewrite admit_room by (done || lia). cbn [negb]. eexists. split_and!; [reflexivity| |done]. by eexists _, _.
Qed.

Lemma own_boot d d' sk e : d_bootstrap d' = d_bootstrap d -> own d' sk e = own d sk e.
Proof. intros H. unfold own, evictable, isBootstrapAddr. by rewrite H. Qed.

Lemma cnt_insert_le p m k v : cnt p (<[k := v]> m) <= cnt p (delete k m) + (if p (k, v) then 1 else 0).
Proof. rewrite <- (insert_delete_eq m k v), cnt_insert_new by apply lookup_delete_eq. lia. Qed.

Lemma room_insert d d' pi pis n att :
  room d (pi :: pis) -> d_nodes d' = <[pi_NodeID pi := n]> (d_nodes d) -> d_bootstrap d' = d_bootstrap d -> takes d pi att n -> room d' pis.
Proof using Type.
  intros [Hs Hc] Hn Hb Ht. rewrite len_cons in Hs. unfold takes in Ht. split.
  - rewrite Hn, map_size_insert. destruct (d_nodes d !! pi_NodeID pi); unfold id; lia.
  - intros sk. specialize (Hc sk). cbn [List.filter] in Hc. rewrite (cnt_ext (own d' sk) (own d sk)) by (intros; by apply own_boot). rewrite Hn.
    assert (Hle : cnt (own d sk) (<[pi_NodeID pi := n]> (d_nodes d)) <= cnt (own d sk) (d_nodes d) + (if in_subnet sk pi then 1 else 0));
      [|destruct (in_subnet sk pi); rewrite ?len_cons in Hc; lia].
    destruct (d_nodes d !! pi_NodeID pi) as [m|] eqn:Em.
    + pose proof (cnt_insert_le (own d sk) (d_nodes d) (pi_NodeID pi) n) as Hi. pose proof (cnt_delete (own d sk) _ _ _ Em) as Hd.
      assert (Hown : own d sk (pi_NodeID pi, n) = true -> own d sk (pi_NodeID pi, m) = true \/ in_subnet sk pi = true).
      { destruct Ht as [->|[_ ->]]; [by left|]. unfold own, evictable, in_subnet. cbn [snd merged n_Address]. destruct (String.eqb (pi_Address pi) "") eqn:E; cbn [negb]; [by left|].
        intros [_ ?]%andb_true_iff. by right. }
      destruct (own d sk (pi_NodeID pi, n)); [destruct Hown as [Ho|Ho]; [done|rewrite Ho in Hd|rewrite Ho]; destruct (in_subnet sk pi), (own d sk (pi_NodeID pi, m)); lia|].
      destruct (in_subnet sk pi), (own d sk (pi_NodeID pi, m)); lia.
    + rewrite cnt_insert_new by done. destruct Ht as (ptr & ls & ->). unfold own, in_subnet. cbn [snd n_Address].
      destruct (evictable _ _), (String.eqb _ sk); cbn [andb]; lia.
Qed.

Lemma mergePeer_unacceptable now it d pi att : acceptable d pi = false -> mergePeer now it d pi att = d.
Proof.
  unfold acceptable, mergePeer. intros H. destruct (_ || _); [done|]. cbn [negb andb] in H. by rewrite H.
Qed.

Lemma acceptable_self d d' pi : d_selfID d' = d_selfID d -> acceptable d' pi = acceptable d pi.
Proof. intros H. unfold acceptable. by rewrite H. Qed.

Lemma merge_gossip_room e g att pis : (forall m, range_of m (e_ord e m)) -> NoDup (map pi_NodeID pis) -> forall D i,
  room (di_peers D) pis -> i + len pis <= maxGossipAccept ->
  let D' := merge_gossip e D g att i pis in
  (forall pi, pi ∈ pis -> acceptable (di_peers D) pi = true ->
     exists n, d_nodes (di_peers D') !! pi_NodeID pi = Some n /\ takes (di_peers D) pi (att && String.eqb (pi_NodeID pi) g) n) /\
  (forall k, k ∉ map pi_NodeID (List.filter (acceptable (di_peers D)) pis) -> d_nodes (di_peers D') !! k = d_nodes (di_peers D) !! k).
Proof using Type.
  intros Hr. induction pis as [|pi pis IH]; intros Hnd D i Hroom Hi; cbn [merge_gossip map List.filter]; [split; [by intros pi ?%not_elem_of_nil|done]|].
  apply NoDup_cons in Hnd as [Hnew Hnd]. rewrite len_cons in Hi. pose proof (len_nonneg pis). destruct (Z.leb_spec maxGossipAccept i); [lia|].
  set (a := att && String.eqb (pi_NodeID pi) g). set (d1 := mergePeer (e_now e) (e_ord e (d_nodes (di_peers D))) (di_peers D) pi a).
  assert (Hself : d_selfID d1 = d_selfID (di_peers D)) by apply mergePeer_self.
  assert (Hfilt : List.filter (acceptable d1) pis = List.filter (acceptable (di_peers D)) pis) by (apply List.filter_ext; intros; by apply acceptable_self).
  destruct (acceptable (di_peers D) pi) eqn:Ea.
  - destruct (mergePeer_room (e_now e) _ _ pi pis a (Hr _) Hroom Ea) as (n & Hn & Ht & Hb). fold d1 in Hn, Hb.
    destruct (IH Hnd (set_peers D d1) (i + 1) (room_insert _ d1 _ _ n a Hroom Hn Hb Ht) ltac:(lia)) as [IH1 IH2]. cbn [di_peers set_peers] in IH1, IH2. rewrite Hfilt in IH2.
    assert (Hout : pi_NodeID pi ∉ map pi_NodeID (List.filter (acceptable (di_peers D)) pis)).
    { intros (q & Hq & Hin)%list_elem_of_fmap. apply list_elem_of_In, List.filter_In in Hin as [Hin _]. apply Hnew. rewrite Hq. apply list_elem_of_fmap. exists q. split; [done|by apply list_elem_of_In]. }
    split.
    + intros q [->|Hq]%elem_of_cons Hacc.
      * exists n. rewrite IH2, Hn, lookup_insert_eq by done. by split.
      * destruct (IH1 q Hq) as (m & Hm & Htm); [by rewrite (acceptable_self _ _ _ Hself)|]. exists m. split; [done|]. unfold takes in *.
        rewrite Hn, lookup_insert_ne in Htm; [done|]. intros E. apply Hnew. rewrite E. by apply list_elem_of_fmap_2.
    + cbn [map]. intros k [Hk1 Hk2]%not_elem_of_cons. rewrite IH2, Hn, lookup_insert_ne by done. done.
  - assert (Hd1 : d1 = di_peers D) by by apply mergePeer_unacceptable.
    assert (Hroom' : room d1 pis).
    { rewrite Hd1. destruct Hroom as [Hs Hc]. rewrite len_cons in Hs. split; [lia|]. intros sk. specialize (Hc sk). cbn [List.filter] in Hc.
      destruct (in_subnet sk pi); rewrite ?len_cons in Hc; lia. }
    destruct (IH Hnd (set_peers D d1) (i + 1) Hroom' ltac:(lia)) as [IH1 IH2]. cbn [di_peers set_peers] in IH1, IH2. rewrite Hd1 in IH1, IH2. split.
    + intros q [->|Hq]%elem_of_cons Hacc; [congruence|]. rewrite Hd1. by apply IH1.
    + intros k Hk. rewrite Hd1. by apply IH2.
Qed.

Lemma gossip_frame e D i a frame : OSend i a frame ∈ gossipPeers e D ->
  frame = MarshalBinary (signed_packet e D PacketTypePeerExchange (px_enc (buildPeerExchangePayload e D)) "").
Proof.
  unfold gossipPeers. intros H%list_elem_of_In. apply in_concat in H as (l & Hl & H). apply in_map_iff in Hl as (tg & <- & _).
  destruct (e_resolve e tg.2) as [u|]; [|done]. destruct (ifaceFor D tg.1); [|done]. destruct H as [H|[]]. by simplify_eq.
Qed.

Lemma active_elem it n : n ∈ GetActiveNodes it <-> n_Active n = true /\ exists k, (k, n) ∈ it.
Proof.
  unfold GetActiveNodes. rewrite list_elem_of_In, List.filter_In, in_map_iff. split.
  - intros [([k m] & <- & Hin) Ha]. split; [done|]. exists k. by apply list_elem_of_In.
  - intros [Ha [k Hk]]. split; [|done]. exists (k, n). split; [done|by apply list_elem_of_In].
Qed.

Lemma exchange_nodup e D : (forall m, range_of m (e_ord e m)) -> key_bound (di_peers D) -> d_nodes (di_peers D) !! selfID D = None ->
  NoDup (map pi_NodeID (buildPeerExchangePayload e D)).
Proof.
  intros Hr Hk Hself. unfold buildPeerExchangePayload. cbn [map]. rewrite map_map. cbn [pi_NodeID node_info self_info].
  pose proof (Hr (d_nodes (di_peers D))) as Hrange. set (it := e_ord e (d_nodes (di_peers D))) in *.
  assert (Hid : forall n k, (k, n) ∈ it -> n_ID n = k) by (intros n k Hin; apply (range_elem _ _ _ _ Hrange), Hk in Hin; apply Hin).
  constructor.
  - intros (n & E0 & [_ [k Hin]]%active_elem)%list_elem_of_fmap. pose proof (Hid _ _ Hin) as E. apply (range_elem _ _ _ _ Hrange) in Hin. congruence.
  - apply map_nodup_filter. pose proof (range_keys_nodup _ _ Hrange) as Hnd. revert Hid Hnd. clear. induction it as [|[k n] it IH]; intros Hid Hnd; cbn; [constructor|].
    apply NoDup_cons in Hnd as [H1 H2]. constructor.
    + rewrite (Hid n k) by constructor. intros (m & E & Hm)%list_elem_of_fmap. apply list_elem_of_fmap in Hm as ([k' m'] & -> & Hin). cbn [snd] in *.
      apply H1. rewrite E, (Hid m' k') by by constructor. apply list_elem_of_fmap. by exists (k', m').
    + apply IH; [|done]. intros m k' Hin. apply Hid. by constructor.
Qed.

Lemma takes_active d pi att n : takes d pi att n -> n_Active n = match d_nodes d !! pi_NodeID pi with Some m => n_Active m | None => false end.
Proof. unfold takes. destruct (d_nodes d !! pi_NodeID pi); [by intros [->|[_ ->]]|by intros (ptr & ls & ->)]. Qed.

(** Gossip spreads the swarm and nothing else.  When a node's gossip reaches the
    read loop of a node with room for it, the receiver afterwards knows every active
    peer of the sender and the sender itself, a peer new to it with the address, keys
    and port of the sender's record, a known one refreshed only if the record is not
    older; only the sender's own capabilities and relays are taken over; and nobody's
    liveness changes: new peers are inactive, known ones as active as before. *)
Theorem gossip_spreads eA A eB B i a frame addr src remote :
  let pis := buildPeerExchangePayload eA A in
  let B' := (listen eB B addr src frame).1 in
  identified A -> selfID A <> ""%string -> selfID A <> selfID B -> key_bound (di_peers A) -> d_nodes (di_peers A) !! selfID A = None ->
  (forall m, range_of m (e_ord eA m)) -> (forall m, range_of m (e_ord eB m)) -> e_resolve eB addr = Some remote ->
  Forall json_peer pis -> sendable eA (px_enc pis) -> len pis <= maxGossipAccept -> room (di_peers B) pis ->
  OSend i a frame ∈ gossipPeers eA A ->
  (forall k n, d_nodes (di_peers A) !! k = Some n -> n_Active n = true -> k <> ""%string -> k <> selfID B ->
     exists n', d_nodes (di_peers B') !! k = Some n' /\ takes (di_peers B) (node_info n) false n') /\
  (exists n', d_nodes (di_peers B') !! selfID A = Some n' /\ takes (di_peers B) (self_info (e_now eA) A) true n') /\
  (forall k n', d_nodes (di_peers B') !! k = Some n' -> n_Active n' = match d_nodes (di_peers B) !! k with Some m => n_Active m | None => false end).
Proof using L JL.
  intros pis B' HA Hne Hab Hk Hself HrA HrB Hres Hj Hs Hlen Hroom ->%gossip_frame. subst B'. fold pis.
  rewrite (listen_signed eB B addr src remote) by (try done; unfold is_u8, is_u32, PacketTypePeerExchange; cbn; lia).
  destruct (signed_packet_fields eA A PacketTypePeerExchange (px_enc pis) "" (id_key _ HA)) as (Hty & Hpl & Hsn & _).
  set (D := rememberIface _ _ _). assert (HD : di_peers D = di_peers B).
  { unfold D, rememberIface, rememberAddrIface. by destruct (String.eqb addr ""), (String.eqb (selfID A) ""). }
  unfold handleSigned. rewrite Hty, Hpl, Hsn, (signed_packet_signer _ _ _ _ _ HA), px_roundtrip by done. rewrite String.eqb_refl.
  change (PacketTypePeerExchange =? PacketTypePeerExchange) with true. cbn beta iota. cbn [fst].
  destruct (String.eqb_spec (selfID A) "") as [?|_]; [done|]. cbn [negb andb].
  destruct (merge_gossip_room eB (selfID A) true pis HrB (exchange_nodup eA A HrA Hk Hself) D 0) as [H1 H2]; [by rewrite HD|lia|]. rewrite HD in H1, H2.
  assert (Hacc : forall pi, pi_NodeID pi <> ""%string -> pi_NodeID pi <> selfID B -> pi_NodeID pi = DeriveNodeID (pi_SignKey pi) -> acceptable (di_peers B) pi = true).
  { intros pi Hp1 Hp2 Hp3. unfold acceptable. rewrite <- Hp3, String.eqb_refl. destruct (String.eqb_spec (pi_NodeID pi) ""); [done|].
    by destruct (String.eqb_spec (pi_NodeID pi) (d_selfID (di_peers B))). }
  split_and!.
  - intros k n Hkn Hact Hk0 HkB. destruct (Hk _ _ Hkn) as [Hid Hder]. destruct (H1 (node_info n)) as (n' & Hn' & Ht).
    + right. apply list_elem_of_fmap. exists n. split; [done|]. apply active_elem. split; [done|]. exists k. by apply (range_elem _ _ _ _ (HrA _)).
    + apply Hacc; cbn; congruence.
    + cbn [pi_NodeID node_info] in Hn', Ht. exists n'. rewrite <- Hid at 1. split; [done|].
      destruct (String.eqb_spec (n_ID n) (selfID A)); [congruence|done].
  - destruct (H1 (self_info (e_now eA) A)) as (n' & Hn' & Ht); [by left| |].
    + apply Hacc; cbn; [done..|]. unfold signPub. rewrite (proj2 (Z.eqb_eq _ _) (id_key _ HA)). apply id_self, HA.
    + cbn [pi_NodeID self_info] in Hn', Ht. rewrite String.eqb_refl in Ht. by exists n'.
  - intros k n' Hn'. destruct (decide (k ∈ map pi_NodeID (List.filter (acceptable (di_peers B)) pis))) as [Hin|Hout].
    + apply list_elem_of_fmap in Hin as (pi & -> & Hin). apply list_elem_of_In, List.filter_In in Hin as [Hin Ha].
      destruct (H1 pi) as (m & Hm & Ht); [by apply list_elem_of_In|done|]. rewrite Hn' in Hm. simplify_eq. by eapply takes_active.
    + rewrite H2 in Hn' by done. by rewrite Hn'.
Qed.
End Spread.

(** ** Witnesses *)

(** A concrete text format: fields as chunks, each byte of a chunk marked, each chunk
    terminated. *)
Module Toy.
Definition enc_chunk (c : bytes) : bytes := concat (map (fun b => [x01; b]) c) ++ [x00].
Definition enc_chunks (l : list bytes) : bytes := concat (map enc_chunk l).
Fixpoint dec_chunks (cur l : bytes) : option (list bytes) :=
  match l with
  | [] => match cur with [] => Some [] | _ => None end
  | x00 :: t => cons (rev cur) <$> dec_chunks [] t
  | _ :: b :: t => dec_chunks (b :: cur) t
  | _ => None
  end.

Lemma dec_chunk cur c rest : dec_chunks cur (enc_chunk c ++ rest) = cons (rev cur ++ c) <$> dec_chunks [] rest.
Proof.
  revert cur. induction c as [|b c IH]; intros cur; cbn [enc_chunk map concat app dec_chunks]; [by rewrite app_nil_r|].
  unfold enc_chunk in IH. cbn [map concat app] in IH. rewrite <- !app_assoc in *. cbn [app dec_chunks]. rewrite IH. cbn [rev]. by rewrite <- app_assoc.
Qed.

Lemma dec_enc l : dec_chunks [] (enc_chunks l) = Some l.
Proof. induction l as [|c l IH]; [done|]. cbn [enc_chunks map concat]. rewrite dec_chunk. unfold enc_chunks in IH. by rewrite IH. Qed.

Definition enc_strs (l : list string) : bytes := enc_chunks (map str_bytes l).
Definition dec_strs (b : bytes) : option (list string) := map bytes_str <$> dec_chunks [] b.

Lemma dec_enc_strs l : dec_strs (enc_strs l) = Some l.
Proof.
  unfold dec_strs, enc_strs. rewrite dec_enc. cbn. f_equal. rewrite map_map. induction l as [|s l IH]; [done|]. cbn. by rewrite str_bytes_str, IH.
Qed.

Definition enc_disc (p : DiscoveryPayload) : bytes :=
  enc_chunks [str_bytes (dp_NodeID p); enc_strs (dp_Capabilities p); be_bytes 8 (dp_Port p); be_bytes 8 (dp_Nonce p); dp_PubKey p; dp_SignKey p;
              str_bytes (dp_ObservedAddr p); enc_strs (dp_RelayIDs p); dp_MLKEMPub p].
Definition dec_disc (b : bytes) : option DiscoveryPayload :=
  match dec_chunks [] b with
  | Some [a; c; p; n; pk; sk; o; r; m] =>
      match dec_strs c, dec_strs r with
      | Some c, Some r => Some (mkDiscovery (bytes_str a) c (be_val p) (be_val n) pk sk (bytes_str o) r m)
      | _, _ => None
      end
  | _ => None
  end.

Definition enc_peer (p : PeerInfo) : bytes :=
  enc_chunks [str_bytes (pi_NodeID p); str_bytes (pi_Address p); pi_PubKey p; pi_SignKey p; be_bytes 8 (pi_Port p); enc_strs (pi_Capabilities p);
              enc_strs (pi_RelayIDs p); pi_MLKEMPub p; be_bytes 8 (pi_LastSeen p mod 2 ^ 64)].
Definition dec_peer (b : bytes) : option PeerInfo :=
  match dec_chunks [] b with
  | Some [a; d; pk; sk; p; c; r; m; t] =>
      match dec_strs c, dec_strs r with
      | Some c, Some r => Some (mkPeerInfo (bytes_str a) (bytes_str d) pk sk (be_val p) c r m (i64 (be_val t)))
      | _, _ => None
      end
  | _ => None
  end.

Lemma dec_enc_peer p : json_peer p -> dec_peer (enc_peer p) = Some p.
Proof.
  destruct p as [a d pk sk po c r m t]. intros (_ & _ & Hp & _ & _ & Ht). unfold dec_peer, enc_peer. rewrite dec_enc, !dec_enc_strs, !str_bytes_str.
  cbn [pi_Port pi_LastSeen pi_NodeID pi_Address pi_PubKey pi_SignKey pi_Capabilities pi_RelayIDs pi_MLKEMPub] in *. fold (u64 t).
  by rewrite !be_val_u64, i64_u64 by (first [done|apply u64_is_u64|unfold is_u16, is_u64 in *; lia]).
Qed.

#[export] Instance toy_disc_json : DiscJson := {|
  ann_enc _ := []; ann_dec _ := None; preq_enc _ := []; preq_dec _ := None; disc_enc := enc_disc; disc_dec := dec_disc;
  px_dec b := match dec_chunks [] b with Some l => mapM dec_peer l | None => None end;
  fn_dec _ := None; fr_enc _ := []; fr_dec _ := None; rp_dec _ := None |}.
#[export] Instance toy_gossip_json : GossipJson := {|
  px_enc l := enc_chunks (map enc_peer l); fn_enc _ := []; rp_enc _ := []; cache_enc := enc_strs; cache_dec := dec_strs |}.

#[export] Instance toy_gossip_laws : GossipJsonLaws toy_disc_json toy_gossip_json.
Proof.
  split; cbn [disc_dec disc_enc px_dec px_enc cache_dec cache_enc toy_disc_json toy_gossip_json].
  - intros p (_ & _ & Hp & Hn & _ & _). unfold dec_disc, enc_disc. rewrite dec_enc, !dec_enc_strs, !str_bytes_str.
    rewrite !be_val_u64 by (unfold is_u16, is_u64 in *; lia). by destruct p.
  - intros l Hl. rewrite dec_enc. apply mapM_Some. induction Hl as [|p l Hp Hl IH]; cbn [map]; constructor; [by apply dec_enc_peer|done].
  - intros l _. apply dec_enc_strs.
Qed.
End Toy.
Import Toy.

#[local] Instance no_ip : NetOps := {| ParseIP := fun _ => None; IPString := fun _ => ""%string |}.

Definition gossip_key (b : byte) : bytes := repeat b 64.
Definition gossip_id (b : byte) : string := DeriveNodeID (C := toy_ops) (ed_public (CryptoOps := toy_ops) (gossip_key b)).
Definition gossip_disc (b : byte) (nodes : list Node) : Disc :=
  let D := SetSigningKey (NewDiscovery (gossip_id b)) (gossip_key b) in
  set_peers D (set_nodes (di_peers D) (list_to_map (map (fun n => (n_ID n, n)) nodes))).
Definition gossip_node (b : byte) (addr : string) (active : bool) : Node :=
  mkNode 0 (gossip_id b) addr 5 0 active [b] (ed_public (CryptoOps := toy_ops) (gossip_key b)) 7 [] [] [].

Lemma gossip_identified b nodes : identified (C := toy_ops) (gossip_disc b nodes).
Proof.
  split; [reflexivity|reflexivity|]. change (is_u32 (len (str_bytes (gossip_id b)))). destruct b; vm_compute; split; congruence.
Qed.

Lemma ascii_dec (s : string) : forallb (fun b => byte_to_Z b <? 128) (str_bytes s) = true -> ascii_str s.
Proof. intros H. unfold ascii_str. apply Forall_forall. intros b Hb%list_elem_of_In. rewrite forallb_forall in H. specialize (H b Hb). lia. Qed.

Lemma latency_probe_witness :
  let A := gossip_disc x01 [] in let B := gossip_disc x02 [] in
  exists A' frame B' answer, measureLatency_start (C := toy_ops) (fun _ => false) (fun _ => true) sample_env A (gossip_node x02 "b:1" false) 9 =
      (A', [OSend "udp0" "b:1" frame], true) /\
    listen (C := toy_ops) sample_env B "a:1" "udp0" frame = (B', [OSend "udp0" "a:1" answer]) /\
    (listen (C := toy_ops) sample_env A' "b:1" "udp0" answer).2 = [OLatency 9].
Proof.
  cbv zeta. destruct (latency_probe (C := toy_ops) (L := toy_laws) (fun _ => false) (fun _ => true) sample_env (gossip_disc x01 []) (gossip_node x02 "b:1" false) 9 "udp0" "b:1"
    sample_env (gossip_disc x02 []) "a:1" "udp0" "a:1") as (A' & frame & B' & answer & H1 & H2 & H3 & H4).
  - apply gossip_identified.
  - apply gossip_identified.
  - reflexivity.
  - apply ascii_dec. vm_compute. reflexivity.
  - apply ascii_dec. vm_compute. reflexivity.
  - apply ascii_dec. vm_compute. reflexivity.
  - vm_compute. split; congruence.
  - vm_compute. discriminate.
  - vm_compute. discriminate.
  - reflexivity.
  - reflexivity.
  - reflexivity.
  - reflexivity.
  - vm_compute. repeat split; congruence.
  - vm_compute. repeat split; congruence.
  - exists A', frame, B', answer. split_and!; [exact H1|exact H3|]. exact (proj1 (H4 sample_env A' H2) "b:1"%string "udp0"%string "b:1"%string eq_refl).
Defined.

Lemma resolve_path_liveness_witness :
  let D k := if (k <? 3)%nat then sample_disc "a" "x" "b:1" else sample_disc "a" "c" "b:1" in
  let clock k := Z.of_nat k * pathPollInterval in
  (ResolvePath (C := toy_ops) 22 sample_env 1000000000 clock D (fun _ => false) "c").2 = Some true.
Proof.
  cbv zeta. destruct (resolve_path_liveness (C := toy_ops) sample_env 1000000000 (fun k => Z.of_nat k * pathPollInterval)
    (fun k => if (k <? 3)%nat then sample_disc "a" "x" "b:1" else sample_disc "a" "c" "b:1") (fun _ => false) "c") as (b & Hb & _ & H).
  - lia.
  - cbn. lia.
  - intros k. unfold pathPollInterval. lia.
  - rewrite H in Hb; [change 22%nat with (S (S (Z.to_nat (1000000000 / pathPollInterval)))); by rewrite Hb|done|]. exists 2%nat. split; vm_compute; reflexivity.
Defined.

Lemma peer_cache_witness :
  let it := [("a"%string, gossip_node x01 "a:1" true)] in
  let fs := savePeerCache "cache" it WOk true ∅ in
  loadPeerCache "cache" (savePeerCache "cache" [] (WFail (Some [x01])) true fs) = ["a:1"%string] /\
  d_bootstrap (di_peers (SetPeerCache "cache" fs (gossip_disc x02 []))) = ["a:1"%string].
Proof.
  cbv zeta. destruct (peer_cache "cache" [("a"%string, gossip_node x01 "a:1" true)] WOk true ∅ (gossip_disc x02 [])) as (H1 & _ & _).
  - discriminate.
  - apply Forall_singleton, ascii_dec. vm_compute. reflexivity.
  - destruct (peer_cache "cache" [] (WFail (Some [x01])) true (savePeerCache "cache" [("a"%string, gossip_node x01 "a:1" true)] WOk true ∅) (gossip_disc x02 [])) as (H2 & _ & _).
    + discriminate.
    + apply Forall_nil_2.
    + cbn beta iota in H1, H2. split; [rewrite H2, H1; vm_compute; reflexivity|vm_compute; reflexivity].
Defined.

Lemma room_empty d pis : d_nodes d = ∅ -> len pis <= maxPeersPerSubnet -> room d pis.
Proof.
  intros Hd Hl. unfold maxPeersPerSubnet in *. split; [rewrite Hd, map_size_empty; unfold maxPeers; lia|].
  intros sk. rewrite Hd. assert (cnt (own d sk) ∅ = 0) as -> by reflexivity. pose proof (List.filter_length_le (in_subnet sk) pis). unfold len, maxPeersPerSubnet in *. lia.
Qed.

Lemma gossip_spreads_witness :
  let A := gossip_disc x01 [gossip_node x02 "b:1" true; gossip_node x03 "c:1" false] in
  let B' := (listen (C := toy_ops) sample_env (gossip_disc x02 []) "a:1" "udp0"
              (MarshalBinary (signed_packet (C := toy_ops) sample_env A PacketTypePeerExchange (px_enc (buildPeerExchangePayload (C := toy_ops) sample_env A)) ""))).1 in
  exists n, d_nodes (di_peers B') !! gossip_id x01 = Some n /\ n_Active n = false /\ n_SignKey n = repeat x01 32.
Proof.
  cbv zeta. set (A := gossip_disc x01 [gossip_node x02 "b:1" true; gossip_node x03 "c:1" false]).
  destruct (gossip_spreads (C := toy_ops) (L := toy_laws) sample_env A sample_env (gossip_disc x02 []) "udp0" "b:1"
    (MarshalBinary (signed_packet (C := toy_ops) sample_env A PacketTypePeerExchange (px_enc (buildPeerExchangePayload (C := toy_ops) sample_env A)) ""))
    "a:1" "udp0" "a:1") as (_ & (n & Hn & Ht) & Hact).
  - apply gossip_identified.
  - vm_compute. discriminate.
  - vm_compute. discriminate.
  - intros k m Hm. unfold A, gossip_disc in Hm. cbn [di_peers set_peers d_nodes set_nodes] in Hm. apply elem_of_list_to_map_2 in Hm.
    apply list_elem_of_fmap in Hm as (x & E & [->|[->|[]%not_elem_of_nil]%elem_of_cons]%elem_of_cons); injection E as -> ->; split; reflexivity.
  - vm_compute. reflexivity.
  - intros m. unfold range_of. reflexivity.
  - intros m. unfold range_of. reflexivity.
  - reflexivity.
  - assert (E : buildPeerExchangePayload (C := toy_ops) sample_env A = [self_info (C := toy_ops) 0 A; node_info (gossip_node x02 "b:1" true)]) by (vm_compute; reflexivity).
    rewrite E. repeat apply Forall_cons_2; [..|apply Forall_nil_2]; (split_and!; [apply ascii_dec; vm_compute; reflexivity..|vm_compute; split; congruence|apply Forall_nil_2|apply Forall_nil_2|vm_compute; split; congruence]).
  - vm_compute. repeat split; congruence.
  - vm_compute. congruence.
  - apply room_empty; [vm_compute; reflexivity|vm_compute; congruence].
  - vm_compute. left.
  - exists n. split; [exact Hn|]. split; [rewrite (Hact _ _ Hn); vm_compute; reflexivity|].
    unfold takes in Ht. assert (E : d_nodes (di_peers (gossip_disc x02 [])) !! pi_NodeID (self_info (C := toy_ops) (e_now sample_env) A) = None) by (vm_compute; reflexivity).
    rewrite E in Ht. destruct Ht as (ptr & ls & ->). vm_compute. reflexivity.
Defined.

(** ** Behaviours at odds with the comments of the source *)

(** A gossip message replaces the onion key and the address of a peer that is active
    and did not sign it: the sealing key is bound to the identity by nothing but the
    peer's own packets. *)
Example gossip_replaces_onion_key :
  let victim := gossip_node x02 "b:1" true in
  let d := di_peers (gossip_disc x01 [victim]) in
  let claim := mkPeerInfo (n_ID victim) "evil:1" [x66] (n_SignKey victim) 7 [] [] [] 100 in
  let d' := mergePeer (C := toy_ops) 10 (map_to_list (d_nodes d)) d claim false in
  option_map (fun n => (n_Active n, n_PubKey n, n_Address n)) (d_nodes d' !! n_ID victim) = Some (true, [x66], "evil:1"%string).
Proof. vm_compute. reflexivity. Qed.

(** An announce that a transport re-floods gives an unknown origin the transport's
    address. *)
Definition flooded_announce : AnnouncePayload :=
  set_hop_count 1 (a_Sign (C := toy_ops) (gossip_key x03) (mkAnnounce (gossip_id x03) [] [x03] [] 7 [] [] [] 0 1 0 [])).
Definition announce_json : DiscJson := {|
  ann_enc _ := []; ann_dec _ := Some flooded_announce; preq_enc _ := []; preq_dec _ := None; disc_enc _ := []; disc_dec _ := None;
  px_dec _ := None; fn_dec _ := None; fr_enc _ := []; fr_dec _ := None; rp_dec _ := None |}.
Example forwarded_announce_address :
  let D := (handleAnnounce (C := toy_ops) (J := announce_json) sample_env (gossip_disc x01 []) "transport:1" "udp0" sample_packet).1.1 in
  option_map n_Address (d_nodes (di_peers D) !! gossip_id x03) = Some "transport:1"%string.
Proof. vm_compute. reflexivity. Qed.

(** Every cached address is a bootstrap address after a restart, so a peer known from
    gossip alone, active or not, is exempt from eviction from then on. *)
Lemma cached_peers_are_anchors `{J : DiscJson} `{GJ : GossipJson} path fs D addr :
  path <> ""%string -> addr ∈ loadPeerCache path fs -> addr <> ""%string -> isBootstrapAddr (di_peers (SetPeerCache path fs D)) addr = true.
Proof.
  intros Hp Ha Hne. unfold SetPeerCache. destruct (String.eqb_spec path ""); [done|]. rewrite addBootstrap_all.
  destruct (boot_add_all (loadPeerCache path fs) (d_bootstrap (di_peers D))) as (new & -> & _ & Hin). unfold isBootstrapAddr.
  apply existsb_exists. exists addr. split; [|apply String.eqb_refl]. apply list_elem_of_In. cbn [di_peers set_bootstrap set_peers d_bootstrap].
  apply elem_of_app. destruct (decide (addr ∈ d_bootstrap (di_peers D))); [by left|right; by apply Hin].
Qed.

(** ** Snapshots agree with the table *)

Lemma health_counts `{N : NetOps} ns h :
  let h' := fold_left health_step ns h in
  ph_Total h' = ph_Total h + len ns /\ ph_Active h' + ph_Inactive h' = ph_Active h + ph_Inactive h + len ns /\
  ph_Active h' = ph_Active h + len (List.filter n_Active ns) /\
  forall sk, default 0 (ph_PerSubnet h' !! sk) = default 0 (ph_PerSubnet h !! sk) + len (List.filter (fun n => String.eqb (disc_subnetKey (n_Address n)) sk) ns).
Proof.
  revert h. induction ns as [|n ns IH]; intros h; cbn [fold_left List.filter]; [unfold len; cbn; split_and!; [lia..|intros sk; lia]|].
  destruct (IH (health_step h n)) as (H1 & H2 & H3 & H4). cbn zeta. rewrite H1, H2, H3, len_cons. cbn [health_step ph_Total ph_Active ph_Inactive].
  split_and!; [lia|destruct (n_Active n); lia|destruct (n_Active n); rewrite ?len_cons; lia|]. intros sk. rewrite H4. cbn [health_step ph_PerSubnet].
  destruct (String.eqb_spec (disc_subnetKey (n_Address n)) sk) as [->|Hne]; [rewrite lookup_insert_eq, len_cons; cbn; lia|by rewrite lookup_insert_ne].
Qed.

(** [PeerHealth] counts every peer once, and each under its subnet. *)
Lemma PeerHealth_spec `{N : NetOps} it d : range_of (d_nodes d) it ->
  let h := peerHealth it d in
  ph_Total h = Z.of_nat (size (d_nodes d)) /\ ph_Active h + ph_Inactive h = ph_Total h /\ ph_Active h = len (GetActiveNodes it) /\
  forall sk, default 0 (ph_PerSubnet h !! sk) = len (List.filter (fun n => String.eqb (disc_subnetKey (n_Address n)) sk) (AllNodes it)).
Proof.
  intros Hr. destruct (health_counts (map snd it) (mkPeerHealth 0 0 0 0 ∅ (d_joins d) (d_evictions d))) as (H1 & H2 & H3 & H4).
  assert (Hl : len (map snd it) = Z.of_nat (size (d_nodes d))) by (unfold len; rewrite length_map; by erewrite range_length).
  cbn [peerHealth ph_Total ph_Active ph_Inactive ph_PerSubnet] in *. cbn zeta. rewrite H2, H1, H3, Hl. split_and!; [lia|lia|unfold GetActiveNodes; lia|]. intros sk. by rewrite H4.
Qed.

(** The discovery interval stays between its bounds and grows with the swarm. *)
Lemma interval_bounds it : baseDiscoveryInterval <= adjustDiscoveryInterval it <= maxDiscoveryInterval.
Proof.
  unfold adjustDiscoveryInterval, minNodes, baseDiscoveryInterval, maxDiscoveryInterval. destruct (Z.ltb_spec (len (GetActiveNodes it)) 2); [lia|].
  destruct (Z.ltb_spec (30 * 60 * 1000000000) (60 * 1000000000 * len (GetActiveNodes it))); lia.
Qed.

Definition more_reports (best e : string * Z) : string * Z := if best.2 <? e.2 then e else best.

Lemma more_reports_fold it b :
  b.2 <= (fold_left more_reports it b).2 /\ (forall e, e ∈ it -> e.2 <= (fold_left more_reports it b).2) /\
  (fold_left more_reports it b = b \/ fold_left more_reports it b ∈ it).
Proof.
  revert b. induction it as [|e it IH]; intros b; cbn [fold_left]; [split_and!; [lia|by intros e ?%not_elem_of_nil|by left]|].
  destruct (IH (more_reports b e)) as (H1 & H2 & H3).
  assert (Hb : b.2 <= (more_reports b e).2 /\ e.2 <= (more_reports b e).2) by (unfold more_reports; destruct (Z.ltb_spec b.2 e.2); lia).
  split_and!; [lia|intros x [->|Hx]%elem_of_cons; [lia|by apply H2]|]. destruct H3 as [->|H3]; [|by right; right].
  unfold more_reports. destruct (b.2 <? e.2); [right; left|by left].
Qed.

(** The external host is one that most peers report. *)
Lemma ExternalHost_max it host n : 0 < n -> (host, n) ∈ it -> exists best, (ExternalHost it, best) ∈ it /\ n <= best.
Proof.
  intros Hn Hin. unfold ExternalHost. change (fun best e : string * Z => if best.2 <? e.2 then e else best) with more_reports.
  destruct (more_reports_fold it (""%string, 0)) as (_ & H2 & H3). specialize (H2 _ Hin). cbn [snd] in H2. destruct H3 as [E|Hm].
  - rewrite E in H2. cbn in H2. lia.
  - eexists. split; [|exact H2]. by destruct (fold_left more_reports it _).
Qed.
