(* ===== verification/Maintain.v ===== *)
(** * The running discovery service (internal/discovery: discovery.go, announce.go, dht.go, reachability.go)

    The goroutines of a started service over the handlers of [Discovery] and
    [Gossip]: one [fanIn] per interface, the read loop, [maintainPeers] with its
    tickers, the latency probes of a round (at most [latencyProbeConcurrency] at a
    time), the probes of [FindNode], the dial-back rounds, and [Stop].  Each event is
    one atomic action of one goroutine, so a statement about every list of events is
    about every interleaving.  [dn_step] refuses an event that cannot happen.

    A node whose object left the table while its probe waits is addressed as it was
    when the round began. *)

From S2P Require Import Prelude Crypto Wire Net Dht PeerTable Paths Discovery Gossip Reach.

Definition latencyProbeConcurrency : Z := 16.
Definition inboundCap : Z := 256.

(** ** State *)

(** A frame with the address it came from. *)
Definition Frame : Type := string * bytes.

Inductive probe_kind : Type := ProbeActive | ProbeCandidate | ProbeFind.

(** A [measureLatency] that has sent its check, or failed to. *)
Record Probe : Type := mkProbe {
  pr_node : Node;
  pr_kind : probe_kind;
  pr_start : Z;
  pr_sent : bool;
  pr_reply : option Z
}.

(** A dial-back round: how many peers were asked, and what came back. *)
Record ReachRound : Type := mkRound { rr_peers : Z; rr_results : list bool }.

Record DNode : Type := mkDN {
  dn_disc : Disc;
  dn_bridges : gmap string bridgeStat;
  dn_fan : gmap string (option Frame);      (** the running [fanIn]s, with the frame each holds *)
  dn_inbound : list (string * Frame);       (** [d.inbound], with the source interface *)
  dn_listening : bool;
  dn_maintaining : bool;
  dn_round : option (list (Node * probe_kind));   (** [checkLatencies], with the probes it has not launched *)
  dn_probes : gmap Z Probe;                 (** by nonce *)
  dn_nonce : Z;                             (** [nonceCounter] *)
  dn_interval : Z;
  dn_reach : Reach;
  dn_reachEnabled : bool;
  dn_rounds : gmap Z ReachRound;            (** [reachPending] *)
  dn_stopped : bool
}.

(** Assignments to one field. *)
Definition put_disc (x : Disc) (s : DNode) : DNode :=
  mkDN x (dn_bridges s) (dn_fan s) (dn_inbound s) (dn_listening s) (dn_maintaining s) (dn_round s) (dn_probes s) (dn_nonce s) (dn_interval s) (dn_reach s) (dn_reachEnabled s) (dn_rounds s) (dn_stopped s).
Definition put_bridges (x : gmap string bridgeStat) (s : DNode) : DNode :=
  mkDN (dn_disc s) x (dn_fan s) (dn_inbound s) (dn_listening s) (dn_maintaining s) (dn_round s) (dn_probes s) (dn_nonce s) (dn_interval s) (dn_reach s) (dn_reachEnabled s) (dn_rounds s) (dn_stopped s).
Definition put_fan (x : gmap string (option Frame)) (s : DNode) : DNode :=
  mkDN (dn_disc s) (dn_bridges s) x (dn_inbound s) (dn_listening s) (dn_maintaining s) (dn_round s) (dn_probes s) (dn_nonce s) (dn_interval s) (dn_reach s) (dn_reachEnabled s) (dn_rounds s) (dn_stopped s).
Definition put_inbound (x : list (string * Frame)) (s : DNode) : DNode :=
  mkDN (dn_disc s) (dn_bridges s) (dn_fan s) x (dn_listening s) (dn_maintaining s) (dn_round s) (dn_probes s) (dn_nonce s) (dn_interval s) (dn_reach s) (dn_reachEnabled s) (dn_rounds s) (dn_stopped s).
Definition put_listening (x : bool) (s : DNode) : DNode :=
  mkDN (dn_disc s) (dn_bridges s) (dn_fan s) (dn_inbound s) x (dn_maintaining s) (dn_round s) (dn_probes s) (dn_nonce s) (dn_interval s) (dn_reach s) (dn_reachEnabled s) (dn_rounds s) (dn_stopped s).
Definition put_maintaining (x : bool) (s : DNode) : DNode :=
  mkDN (dn_disc s) (dn_bridges s) (dn_fan s) (dn_inbound s) (dn_listening s) x (dn_round s) (dn_probes s) (dn_nonce s) (dn_interval s) (dn_reach s) (dn_reachEnabled s) (dn_rounds s) (dn_stopped s).
Definition put_round (x : option (list (Node * probe_kind))) (s : DNode) : DNode :=
  mkDN (dn_disc s) (dn_bridges s) (dn_fan s) (dn_inbound s) (dn_listening s) (dn_maintaining s) x (dn_probes s) (dn_nonce s) (dn_interval s) (dn_reach s) (dn_reachEnabled s) (dn_rounds s) (dn_stopped s).
Definition put_probes (x : gmap Z Probe) (s : DNode) : DNode :=
  mkDN (dn_disc s) (dn_bridges s) (dn_fan s) (dn_inbound s) (dn_listening s) (dn_maintaining s) (dn_round s) x (dn_nonce s) (dn_interval s) (dn_reach s) (dn_reachEnabled s) (dn_rounds s) (dn_stopped s).
Definition put_nonce (x : Z) (s : DNode) : DNode :=
  mkDN (dn_disc s) (dn_bridges s) (dn_fan s) (dn_inbound s) (dn_listening s) (dn_maintaining s) (dn_round s) (dn_probes s) x (dn_interval s) (dn_reach s) (dn_reachEnabled s) (dn_rounds s) (dn_stopped s).
Definition put_interval (x : Z) (s : DNode) : DNode :=
  mkDN (dn_disc s) (dn_bridges s) (dn_fan s) (dn_inbound s) (dn_listening s) (dn_maintaining s) (dn_round s) (dn_probes s) (dn_nonce s) x (dn_reach s) (dn_reachEnabled s) (dn_rounds s) (dn_stopped s).
Definition put_reach (x : Reach) (s : DNode) : DNode :=
  mkDN (dn_disc s) (dn_bridges s) (dn_fan s) (dn_inbound s) (dn_listening s) (dn_maintaining s) (dn_round s) (dn_probes s) (dn_nonce s) (dn_interval s) x (dn_reachEnabled s) (dn_rounds s) (dn_stopped s).
Definition put_reachEnabled (x : bool) (s : DNode) : DNode :=
  mkDN (dn_disc s) (dn_bridges s) (dn_fan s) (dn_inbound s) (dn_listening s) (dn_maintaining s) (dn_round s) (dn_probes s) (dn_nonce s) (dn_interval s) (dn_reach s) x (dn_rounds s) (dn_stopped s).
Definition put_rounds (x : gmap Z ReachRound) (s : DNode) : DNode :=
  mkDN (dn_disc s) (dn_bridges s) (dn_fan s) (dn_inbound s) (dn_listening s) (dn_maintaining s) (dn_round s) (dn_probes s) (dn_nonce s) (dn_interval s) (dn_reach s) (dn_reachEnabled s) x (dn_stopped s).
Definition put_stopped (x : bool) (s : DNode) : DNode :=
  mkDN (dn_disc s) (dn_bridges s) (dn_fan s) (dn_inbound s) (dn_listening s) (dn_maintaining s) (dn_round s) (dn_probes s) (dn_nonce s) (dn_interval s) (dn_reach s) (dn_reachEnabled s) (dn_rounds s) x.

Inductive dn_out : Type :=
| DOut (o : out)
| DHandled (i : string) (f : Frame)  (** the frame the read loop took *)
| DWarned (bridge : string)
| DSelfLookup                     (** the lookup [refreshDHT] launches *)
| DCheck                          (** [go d.checkReachability()] *)
| DReachable (b : bool)           (** [onReachability] *)
| DSaved (fs : gmap string bytes) (** the file system after [savePeerCache] *).

(** How a probe or a round ends. *)
Inductive probe_end : Type := EndReply | EndTimeout | EndStopped | EndUnsent.

Inductive dn_event : Type :=
| EvRead (i addr : string) (data : bytes)
| EvMerge (i : string)
| EvFanExit (i : string)
| EvHandle (e : env)
| EvListenExit
| EvDiscovery (e : env)
| EvLatency (e : env)
| EvProbe (e : env) (bridged up : string -> bool)
| EvFind (e : env) (bridged up : string -> bool) (target : string)
| EvProbeEnd (nonce now : Z) (how : probe_end)
| EvRoundDone
| EvGossip (e : env) (bord : gmap string bridgeStat -> list (string * bridgeStat)) (path : string) (w : write_result) (renamed : bool) (fs : gmap string bytes)
| EvReachTick
| EvMaintainExit
| EvCheck (e : env)
| EvCheckEnd (nonce : Z) (how : probe_end)
| EvEnableReach
| EvStop (e : env) (path : string) (w : write_result) (renamed : bool) (fs : gmap string bytes).

Section Service.
Context `{N : NetOps} `{C : CryptoOps} `{J : DiscJson} `{G : GossipJson}.

(** What the read loop's output does to the waiting goroutines: a reply goes into the
    probe's channel of one, a dial-back result into its round's. *)
Definition dn_deliver (now : Z) (s : DNode) (o : out) : DNode :=
  match o with
  | OLatency nonce =>
      match dn_probes s !! nonce with
      | Some p =>
          match pr_reply p with
          | None => (put_probes (<[nonce := (mkProbe (pr_node p) (pr_kind p) (pr_start p) (pr_sent p) (Some now))]> (dn_probes s)) s)
          | Some _ => s
          end
      | None => s
      end
  | OReach nonce reachable =>
      match dn_rounds s !! nonce with
      | Some r => (put_rounds (<[nonce := mkRound (rr_peers r) (rr_results r ++ [reachable])]> (dn_rounds s)) s)
      | None => s
      end
  | _ => s
  end.

(** [nonceCounter.Add(1)]. *)
Definition next_nonce (s : DNode) : Z := u64 (dn_nonce s + 1).

(** [measureLatency] up to its wait. *)
Definition start_probe (e : env) (bridged up : string -> bool) (s : DNode) (n : Node) (k : probe_kind) : DNode * list dn_out :=
  let nonce := next_nonce s in
  let '(D, outs, sent) := measureLatency_start bridged up e (dn_disc s) n nonce in
  (put_probes (<[nonce := mkProbe n k (e_now e) sent None]> (dn_probes s)) (put_nonce nonce (put_disc D s)), map DOut outs).

(** The object as it is now. *)
Definition current (d : Peers) (n : Node) : Node :=
  match d_nodes d !! n_ID n with
  | Some c => if (n_ptr c =? n_ptr n)%nat then c else n
  | None => n
  end.

Definition of_round (p : Probe) : bool := match pr_kind p with ProbeFind => false | _ => true end.

(** The probes that hold the semaphore of [checkLatencies]. *)
Definition slots (m : gmap Z Probe) : nat := size (filter (fun e : Z * Probe => of_round e.2 = true) m).
Definition in_flight (s : DNode) : Z := Z.of_nat (slots (dn_probes s)).

(** The end of a probe: what [checkLatencies] or [FindNode] does with the latency. *)
Definition conclude_probe (now lat : Z) (p : Probe) (d : Peers) : Peers :=
  match pr_kind p with
  | ProbeActive => probe now lat false d (pr_node p)
  | ProbeCandidate => probe now lat true d (pr_node p)
  | ProbeFind => if lat <=? maxLatency then FindNode_promote now lat d (n_ID (pr_node p)) else d
  end.

Definition end_allowed (s : DNode) (p : Probe) (how : probe_end) : bool :=
  match how with
  | EndUnsent => negb (pr_sent p)
  | EndReply => pr_sent p && match pr_reply p with Some _ => true | None => false end
  | EndTimeout => pr_sent p
  | EndStopped => pr_sent p && dn_stopped s
  end.

Definition end_probe (nonce now : Z) (how : probe_end) (p : Probe) (s : DNode) : DNode :=
  let arrival := match how with EndReply => pr_reply p | _ => None end in
  let stopped := match how with EndStopped => true | _ => false end in
  let '(D, lat) := measureLatency_finish (dn_disc s) nonce (pr_start p) (pr_sent p) arrival stopped in
  (put_probes (delete nonce (dn_probes s)) (put_disc (set_peers D (conclude_probe now lat p (di_peers D))) s)).

(** What the rest of [maintainPeers] waits for. *)
Definition idle (s : DNode) : bool := dn_maintaining s && match dn_round s with None => true | Some _ => false end.

Definition DNode_order (e : env) (s : DNode) : list (string * Node) := e_ord e (d_nodes (di_peers (dn_disc s))).

(** *** The goroutines

    Each returns [None] when its action cannot happen now. *)

Definition step_result : Type := option (DNode * list dn_out).

(** [fanIn] receives a frame; passes it on; returns. *)
Definition fanIn_take (i addr : string) (data : bytes) (s : DNode) : step_result :=
  match dn_fan s !! i with
  | Some None => Some (put_bridges (markIfaceActive i (dn_bridges s)) (put_fan (<[i := Some (addr, data)]> (dn_fan s)) s), [])
  | _ => None
  end.
Definition fanIn_pass (i : string) (s : DNode) : step_result :=
  match dn_fan s !! i with
  | Some (Some f) =>
      if len (dn_inbound s) <? inboundCap
      then Some (put_inbound (dn_inbound s ++ [(i, f)]) (put_fan (<[i := None]> (dn_fan s)) s), [])
      else None
  | _ => None
  end.
Definition fanIn_return (i : string) (s : DNode) : step_result :=
  match dn_fan s !! i with
  | Some _ => if dn_stopped s then Some (put_fan (delete i (dn_fan s)) s, []) else None
  | None => None
  end.

(** One turn of the read loop. *)
Definition listenForPeers (e : env) (s : DNode) : step_result :=
  match dn_inbound s with
  | (i, (addr, data)) :: rest =>
      if dn_listening s then
        let '(D, outs) := listen e (dn_disc s) addr i data in
        Some (fold_left (dn_deliver (e_now e)) outs (put_inbound rest (put_disc D s)), DHandled i (addr, data) :: map DOut outs)
      else None
  | [] => None
  end.

(** [refreshDHT]: whether it looks itself up. *)
Definition refreshDHT (D : Disc) : list dn_out :=
  match d_rt (di_peers D) with
  | Some rt => if lenLocked rt =? 0 then [] else [DSelfLookup]
  | None => []
  end.

(** The cases of [maintainPeers], which waits for [checkLatencies] in its second. *)
Definition discovery_tick (e : env) (s : DNode) : step_result :=
  if idle s
  then Some (put_interval (adjustDiscoveryInterval (DNode_order e s)) s,
             map DOut (broadcastDiscovery e (dn_disc s) ++ announceSelf e (dn_disc s) ++ sendBootstrapDiscovery e (dn_disc s)))
  else None.
Definition latency_tick (e : env) (s : DNode) : step_result :=
  if idle s
  then
    let '(nodes, unverified) := probe_targets (DNode_order e s) in
    Some (put_round (Some (map (fun n => (n, ProbeActive)) nodes ++ map (fun n => (n, ProbeCandidate)) unverified)) s, [])
  else None.
Definition gossip_tick (e : env) (bord : gmap string bridgeStat -> list (string * bridgeStat)) (path : string) (w : write_result) (renamed : bool)
    (fs : gmap string bytes) (s : DNode) : step_result :=
  if idle s
  then
    let '(bridges, warned) := checkBridgeLiveness (e_now e) (bord (dn_bridges s)) (dn_bridges s) in
    Some (put_bridges bridges s,
          map DOut (gossipPeers e (dn_disc s)) ++ refreshDHT (dn_disc s) ++
          [DSaved (savePeerCache path (DNode_order e s) w renamed fs)] ++ map DWarned warned)
  else None.
Definition reach_tick (s : DNode) : step_result :=
  if idle s then Some (s, if dn_reachEnabled s then [DCheck] else []) else None.

(** The loops of [checkLatencies] launch the next probe once the semaphore has room,
    and its wait ends when every probe has. *)
Definition launch_probe (e : env) (bridged up : string -> bool) (s : DNode) : step_result :=
  match dn_round s with
  | Some ((n, k) :: rest) =>
      if in_flight s <? latencyProbeConcurrency
      then Some (start_probe e bridged up (put_round (Some rest) s) (current (di_peers (dn_disc s)) n) k)
      else None
  | _ => None
  end.
Definition round_wait (s : DNode) : step_result :=
  match dn_round s with
  | Some [] => if in_flight s =? 0 then Some (put_round None s, []) else None
  | _ => None
  end.

(** The probe of [FindNode]. *)
Definition find_probe (e : env) (bridged up : string -> bool) (target : string) (s : DNode) : step_result :=
  match lookupLocal (di_peers (dn_disc s)) target with
  | Some n => if n_Active n then None else Some (start_probe e bridged up s n ProbeFind)
  | None => None
  end.

(** A dial-back round: the requests, and the verdict. *)
Definition check_start (e : env) (s : DNode) : step_result :=
  if di_port (dn_disc s) =? 0 then None
  else
    let peers := probeTargets e (selfID (dn_disc s)) reachProbePeers (DNode_order e s) [] in
    if len peers =? 0 then None
    else
      let nonce := next_nonce s in
      Some (put_rounds (<[nonce := mkRound (len peers) []]> (dn_rounds s)) (put_nonce nonce s),
            map DOut (reach_requests e (dn_disc s) nonce)).
Definition check_end (nonce : Z) (how : probe_end) (s : DNode) : step_result :=
  match dn_rounds s !! nonce with
  | Some r =>
      let evs := map EvResult (rr_results r) ++ match how with EndTimeout => [EvTimeout] | EndStopped => [EvDone] | _ => [] end in
      let s' := put_rounds (delete nonce (dn_rounds s)) s in
      match how, collect (rr_peers r) 0 false evs with
      | EndStopped, None => if dn_stopped s then Some (s', []) else None
      | _, Some (responses, reachable) =>
          let '(rs, calls) := concludeRound (dn_reach s) responses reachable in
          Some (put_reach rs s', map DReachable calls)
      | _, None => None
      end
  | None => None
  end.

(** [initialReachabilityCheck] starts rounds until this is known, [reach_tick] from then on. *)
Definition Reachable (s : DNode) : bool * bool := (r_reachable (dn_reach s), r_known (dn_reach s)).
Definition EnableReachabilityChecks (s : DNode) : DNode := put_reachEnabled true s.

Definition Discovery_Stop (e : env) (path : string) (w : write_result) (renamed : bool) (fs : gmap string bytes) (s : DNode) : DNode * list dn_out :=
  (put_stopped true s, [DSaved (savePeerCache path (DNode_order e s) w renamed fs)]).

Definition dn_step (ev : dn_event) (s : DNode) : step_result :=
  match ev with
  | EvRead i addr data => fanIn_take i addr data s
  | EvMerge i => fanIn_pass i s
  | EvFanExit i => fanIn_return i s
  | EvHandle e => listenForPeers e s
  | EvListenExit => if dn_listening s && dn_stopped s then Some (put_listening false s, []) else None
  | EvDiscovery e => discovery_tick e s
  | EvLatency e => latency_tick e s
  | EvProbe e bridged up => launch_probe e bridged up s
  | EvFind e bridged up target => find_probe e bridged up target s
  | EvProbeEnd nonce now how =>
      match dn_probes s !! nonce with
      | Some p => if end_allowed s p how then Some (end_probe nonce now how p s, []) else None
      | None => None
      end
  | EvRoundDone => round_wait s
  | EvGossip e bord path w renamed fs => gossip_tick e bord path w renamed fs s
  | EvReachTick => reach_tick s
  | EvMaintainExit => if idle s && dn_stopped s then Some (put_maintaining false s, []) else None
  | EvCheck e => check_start e s
  | EvCheckEnd nonce how => check_end nonce how s
  | EvEnableReach => Some (EnableReachabilityChecks s, [])
  | EvStop e path w renamed fs => Some (Discovery_Stop e path w renamed fs s)
  end.

Fixpoint dn_run (evs : list dn_event) (s : DNode) : option (DNode * list dn_out) :=
  match evs with
  | [] => Some (s, [])
  | ev :: evs =>
      match dn_step ev s with
      | None => None
      | Some (s1, out1) =>
          match dn_run evs s1 with
          | None => None
          | Some (s2, out2) => Some (s2, out1 ++ out2)
          end
      end
  end.

(** [Start] of a service with these bridges: the goroutines, and what is sent at once. *)
Definition Discovery_Start (e : env) (D : Disc) (bridges : gmap string bridgeStat) (reachEnabled : bool) : DNode * list dn_out :=
  (mkDN D bridges (list_to_map (map (fun i => (i, None)) (di_ifaces D))) [] true true None ∅ 0 baseDiscoveryInterval
     (mkReachState false false 0) reachEnabled ∅ false,
   map DOut (sendBootstrapDiscovery e D ++ announceSelf e D)).
End Service.

(** The action behind an event. *)
Ltac unfold_step_in H :=
  cbn [dn_step] in H;
  unfold fanIn_take, fanIn_pass, fanIn_return, listenForPeers, discovery_tick, latency_tick, gossip_tick, reach_tick, launch_probe, round_wait,
    find_probe, check_start, check_end, EnableReachabilityChecks, Discovery_Stop in H.

(** ** A peer is active only if it proved to be there *)

Section Liveness.
Context `{N : NetOps} `{C : CryptoOps} `{J : DiscJson} `{G : GossipJson}.

Lemma remember_pending_iface D k j : di_pending (rememberIface D k j) = di_pending D.
Proof using Type. unfold rememberIface. by destruct (String.eqb k ""). Qed.

Lemma learnContacts_pending e D l : di_pending (learnContacts e D l) = di_pending D.
Proof using Type.
  revert D. induction l as [|c l IH]; intros D; [done|]. cbn [learnContacts]. destruct (_ || _); [apply IH|].
  destruct (negb _); [apply IH|]. by rewrite IH.
Qed.

Lemma merge_gossip_pending e D g att i l : di_pending (merge_gossip e D g att i l) = di_pending D.
Proof using Type.
  revert D i. induction l as [|pi l IH]; intros D i; [done|]. cbn [merge_gossip]. destruct (_ <=? i); [done|]. by rewrite IH.
Qed.

Lemma handleAnnounce_pending e D a src pkt : di_pending (handleAnnounce e D a src pkt).1.1 = di_pending D.
Proof using Type.
  unfold handleAnnounce. destruct (ann_dec _) as [ap|]; [|done]. destruct (_ || _); [done|]. destruct (observe _ _ _ _) as [s []]; [by apply remember_pending_iface|].
  destruct (path_update _ _ _ _) as [paths stored]. destruct (_ && _); by apply remember_pending_iface.
Qed.

Lemma handlePathRequest_pending e D pkt : di_pending (handlePathRequest e D pkt).1.1 = di_pending D.
Proof using Type.
  unfold handlePathRequest. destruct (preq_dec _) as [pr|]; [|done]. destruct (String.eqb _ ""); [done|].
  destruct (observe _ _ _ _) as [s []]; [done|]. destruct (String.eqb _ _); [by destruct (buildSelfAnnounce _ _)|].
  destruct (path_lookup _ _) as [pe|]; [destruct (pe_Ann pe); [done|]|]; by destruct (_ && _).
Qed.

Lemma handleSigned_pending e D a src pkt : di_pending (handleSigned e D a src pkt).1 = di_pending D.
Proof using Type.
  unfold handleSigned. destruct (_ =? _); [destruct (px_dec _); [apply merge_gossip_pending|done]|].
  destruct (_ =? _); [destruct (fn_dec _); [by destruct (_ || _)|done]|].
  destruct (_ =? _); [destruct (fr_dec _); [apply learnContacts_pending|done]|].
  destruct (_ =? _); [apply handleAnnounce_pending|]. destruct (_ =? _); [apply handlePathRequest_pending|].
  destruct (_ =? _); [by destruct (rp_dec _)|]. destruct (_ =? _); [by destruct (rp_dec _)|].
  destruct (disc_dec _) as [payload|]; [|done]. unfold handleDirect. destruct (_ =? _); [by destruct (negb _)|]. destruct (_ =? _); [by destruct (negb _)|].
  destruct (_ =? _); [|done]. cbn [fst]. destruct (negb _); [|done]. unfold recordObserved. destruct (SplitHostPort _) as [[h ?]|]; [|done]. by destruct (String.eqb h "").
Qed.

(** A frame registers and ends no probe by itself. *)
Lemma listen_pending e D a src data : di_pending (listen e D a src data).1 = di_pending D.
Proof using Type.
  unfold listen. destruct (e_resolve e a) as [remote|]; [|done]. destruct (UnmarshalBinary data) as [pkt|]; [|done].
  assert (Hp : di_pending (rememberAddrIface D a src) = di_pending D) by (unfold rememberAddrIface; by destruct (String.eqb a "")).
  destruct (_ || _); [done|]. destruct (_ =? _).
  { unfold handleRoutedDiscovery. destruct (observe _ _ _ _) as [s []]; [done|]. destruct (String.eqb _ _).
    - destruct (UnmarshalBinary (RoutedInner _)) as [ip|]; [|done]. unfold deliverRoutedDiscovery. destruct (negb _); [done|]. destruct (_ || _); [done|].
      destruct (disc_dec _); [|done]. destruct (negb _); [done|].
      destruct (_ =? _); [|destruct (_ =? _); [|destruct (_ =? _)]]; cbn [fst di_pending set_peers set_paths]; by rewrite remember_pending_iface.
    - destruct (negb _); [done|]. by destruct (_ <=? _). }
  destruct (_ =? _).
  { unfold handleRouted. destruct (observe _ _ _ _) as [s []]; [done|]. destruct (String.eqb _ _); [done|]. destruct (negb _); [done|]. by destruct (_ <=? _). }
  destruct (negb _); [done|]. by rewrite handleSigned_pending, remember_pending_iface.
Qed.

Lemma measureLatency_start_disc bridged up e D n nonce :
  (measureLatency_start bridged up e D n nonce).1.1 = set_pending D (<[nonce := n_ID n]> (di_pending D)).
Proof using Type.
  unfold measureLatency_start. destruct (_ || _ || _).
  - destruct (SendRoutedDiscovery _ _ _ _ _) as [o sent]. destruct (e_resolve e _); [|done]. by destruct (di_iface _).
  - destruct (e_resolve e _); [|done]. by destruct (ifaceFor _ _).
Qed.

(** *** Probes and the table *)

Lemma probe_bound now lat pr d n : key_bound d -> key_bound (probe now lat pr d n).
Proof using Type.
  intros Hb. unfold probe. destruct (d_nodes d !! n_ID n) as [cur|] eqn:E; [|done]. destruct (negb _); [done|].
  intros k m. cbn. intros [[<- <-]|[_ Hm]]%lookup_insert_Some; [|by apply Hb]. destruct (Hb _ _ E) as [H1 H2].
  destruct (n_ID_probed now lat pr cur) as [H3 _]. rewrite H3. split; [done|]. unfold probed. by destruct (_ <? _), pr.
Qed.

Lemma conclude_bound now lat p d : key_bound d -> key_bound (conclude_probe now lat p d).
Proof using Type.
  intros Hb. unfold conclude_probe. destruct (pr_kind p); [by apply probe_bound|by apply probe_bound|].
  destruct (_ <=? _); [|done]. unfold FindNode_promote. destruct (d_nodes d !! _) as [n|] eqn:E; [|done].
  intros k m. cbn. intros [[<- <-]|[_ Hm]]%lookup_insert_Some; [by apply Hb in E|by apply Hb].
Qed.

(** A probe makes at most its own node active, and only on an answer in time. *)
Lemma conclude_active now lat p d k :
  active (conclude_probe now lat p d) k -> active d k \/ (k = n_ID (pr_node p) /\ lat <= maxLatency).
Proof using Type.
  assert (Hprobe : forall pr n, active (probe now lat pr d n) k -> active d k \/ (k = n_ID n /\ lat <= maxLatency)).
  { intros pr n (m & Hm & Ha). unfold probe in Hm. destruct (d_nodes d !! n_ID n) as [cur|] eqn:E; [|left; by exists m].
    destruct (negb _); [left; by exists m|]. cbn in Hm. apply lookup_insert_Some in Hm as [[<- <-]|[_ Hm]]; [|left; by exists m].
    unfold probed in Ha. destruct (Z.ltb_spec maxLatency lat); [|by right]. destruct pr; cbn in Ha; [left; by exists cur|done]. }
  unfold conclude_probe. destruct (pr_kind p); [apply Hprobe|apply Hprobe|].
  destruct (Z.leb_spec lat maxLatency); [|by left]. intros (m & Hm & Ha). unfold FindNode_promote in Hm.
  destruct (d_nodes d !! n_ID (pr_node p)) as [n|] eqn:E; [|left; by exists m].
  cbn in Hm. apply lookup_insert_Some in Hm as [[<- _]|[_ Hm]]; [by right|left; by exists m].
Qed.

Lemma finish_latency D nonce start sent arrival stopped :
  (measureLatency_finish D nonce start sent arrival stopped).2 <= maxLatency ->
  sent = true /\ (is_Some arrival \/ stopped = true).
Proof using Type.
  unfold measureLatency_finish. cbn [snd]. destruct sent; cbn [negb]; [|lia].
  destruct arrival; [intros _; split; [done|left; by eexists]|]. destruct stopped; [intros _; split; [done|by right]|lia].
Qed.

(** *** The invariant *)

(** [A k]: node [k] has given proof of being there. *)
Record dn_inv (A : string -> Prop) (s : DNode) : Prop := {
  dv_bound : key_bound (di_peers (dn_disc s));
  dv_active : dn_stopped s = false -> forall k, active (di_peers (dn_disc s)) k -> A k;
  dv_inbound i f k : (i, f) ∈ dn_inbound s -> authenticated f.2 k -> A k;
  dv_fan i f k : dn_fan s !! i = Some (Some f) -> authenticated f.2 k -> A k;
  dv_probe nonce p : dn_probes s !! nonce = Some p ->
    di_pending (dn_disc s) !! nonce = Some (n_ID (pr_node p)) /\ nonce <= dn_nonce s /\ (is_Some (pr_reply p) -> A (n_ID (pr_node p)));
  dv_pending nonce id : di_pending (dn_disc s) !! nonce = Some id -> is_Some (dn_probes s !! nonce);
  dv_nonce : 0 <= dn_nonce s
}.

(** What the read loop delivers changes nothing else. *)
Lemma deliver_frame now s o :
  let s' := dn_deliver now s o in
  dn_disc s' = dn_disc s /\ dn_inbound s' = dn_inbound s /\ dn_fan s' = dn_fan s /\ dn_nonce s' = dn_nonce s /\
  dn_stopped s' = dn_stopped s /\ dn_bridges s' = dn_bridges s /\ dn_round s' = dn_round s.
Proof using Type.
  cbn zeta. unfold dn_deliver. destruct o; try done.
  - destruct (dn_probes s !! nonce) as [p|]; [|done]. by destruct (pr_reply p).
  - by destruct (dn_rounds s !! nonce).
Qed.

Lemma deliver_all_frame now outs s :
  let s' := fold_left (dn_deliver now) outs s in
  dn_inbound s' = dn_inbound s /\ dn_fan s' = dn_fan s /\ dn_stopped s' = dn_stopped s /\ dn_bridges s' = dn_bridges s /\ dn_nonce s' = dn_nonce s.
Proof using Type.
  cbn zeta. revert s. induction outs as [|o outs IH]; intros s; [done|]. cbn [fold_left].
  destruct (IH (dn_deliver now s o)) as (-> & -> & -> & -> & ->). destruct (deliver_frame now s o) as (_ & D1 & D2 & D3 & D4 & D5 & _). done.
Qed.

Lemma dn_deliver_inv A now s o :
  (forall nonce, o = OLatency nonce -> forall id, di_pending (dn_disc s) !! nonce = Some id -> A id) ->
  dn_inv A s -> dn_inv A (dn_deliver now s o).
Proof using Type.
  intros Ho [I1 I2 I3 I4 I5 I6 I7]. destruct o as [| | |nonce| | |nonce b]; try (by split); unfold dn_deliver.
  2: { destruct (dn_rounds s !! nonce); by split. }
  destruct (dn_probes s !! nonce) as [p|] eqn:E; [|by split]. destruct (pr_reply p) eqn:Er; [by split|].
  split; try done; cbn.
  - intros m q [[<- <-]|[_ Hq]]%lookup_insert_Some; [|by apply I5]. destruct (I5 _ _ E) as (H1 & H2 & _).
    split; [done|]. split; [done|]. intros _. by eapply Ho.
  - intros m id Hm. destruct (decide (nonce = m)) as [<-|Hne]; [rewrite lookup_insert_eq; by eexists|].
    rewrite lookup_insert_ne by done. by eapply I6.
Qed.

Lemma deliver_all_inv A now outs s :
  (forall nonce, OLatency nonce ∈ outs -> forall id, di_pending (dn_disc s) !! nonce = Some id -> A id) ->
  dn_inv A s -> dn_inv A (fold_left (dn_deliver now) outs s).
Proof using Type.
  revert s. induction outs as [|o outs IH]; intros s Ho Hi; [done|]. cbn [fold_left].
  apply IH; [|apply dn_deliver_inv; [intros nonce ->; apply Ho; by left|done]].
  intros nonce Hn. rewrite (proj1 (deliver_frame now s o)). apply Ho. by right.
Qed.

Lemma listen_inv A e s i addr data rest :
  dn_inbound s = (i, (addr, data)) :: rest -> dn_inv A s ->
  let '(D, outs) := listen e (dn_disc s) addr i data in
  dn_inv A (fold_left (dn_deliver (e_now e)) outs (put_inbound rest (put_disc D s))).
Proof using Type.
  intros Hin [I1 I2 I3 I4 I5 I6 I7].
  pose proof (listen_steps e (dn_disc s) addr i data) as Hs. pose proof (listen_pending e (dn_disc s) addr i data) as Hp.
  pose proof (listen_latency e (dn_disc s) addr i data) as Hl.
  destruct (listen e (dn_disc s) addr i data) as [D outs]. cbn [fst snd] in *.
  assert (HA : forall k, authenticated data k -> A k).
  { intros k Hk. apply (I3 i (addr, data) k); [rewrite Hin; by left|done]. }
  apply deliver_all_inv.
  - cbn. intros nonce Hn id Hid. rewrite Hp in Hid. destruct (Hl nonce Hn) as (id' & Hid' & Hau). apply HA. congruence.
  - split; cbn; try done.
    + clear -Hs I1. induction Hs as [|x y z Hxy _ IH]; [done|]. by apply IH, (peer_step_bound _ _ _ Hxy).
    + intros Hst k Hk. destruct (steps_active _ _ _ k Hs Hk) as [Hau|Hk']; [by apply HA|by apply I2].
    + intros j f k Hj. apply (I3 j f k). rewrite Hin. by right.
    + by rewrite Hp.
    + by rewrite Hp.
Qed.

Lemma start_probe_inv A e bridged up s n k :
  dn_nonce s + 1 < 2 ^ 64 -> dn_inv A s -> dn_inv A (start_probe e bridged up s n k).1.
Proof using Type.
  intros Hn [I1 I2 I3 I4 I5 I6 I7]. unfold start_probe.
  assert (Hnext : next_nonce s = dn_nonce s + 1) by (unfold next_nonce; apply u64_id; unfold is_u64; lia).
  rewrite Hnext. pose proof (measureLatency_start_disc bridged up e (dn_disc s) n (dn_nonce s + 1)) as HD.
  destruct (measureLatency_start _ _ _ _ _ _) as [[D outs] sent]. cbn [fst] in HD. subst D. cbn [fst].
  split; cbn; try done.
  - intros m q [[<- <-]|[Hne Hq]]%lookup_insert_Some; cbn.
    + rewrite lookup_insert_eq. split; [done|]. split; [lia|by intros [? ?]].
    + destruct (I5 _ _ Hq) as (H1 & H2 & H3). rewrite lookup_insert_ne by done. split; [done|]. split; [lia|done].
  - intros m id [[<- _]|[Hne Hid]]%lookup_insert_Some; [rewrite lookup_insert_eq; by eexists|].
    rewrite lookup_insert_ne by done. by eapply I6.
  - lia.
Qed.

Lemma end_probe_inv A s nonce now how p :
  dn_probes s !! nonce = Some p -> end_allowed s p how = true -> dn_inv A s -> dn_inv A (end_probe nonce now how p s).
Proof using Type.
  intros Hp Hallow [I1 I2 I3 I4 I5 I6 I7]. unfold end_probe.
  set (arrival := match how with EndReply => pr_reply p | _ => None end).
  set (stopped := match how with EndStopped => true | _ => false end).
  pose proof (finish_latency (dn_disc s) nonce (pr_start p) (pr_sent p) arrival stopped) as Hlat.
  unfold measureLatency_finish in *. cbn [snd] in Hlat. set (lat := if negb (pr_sent p) then _ else _) in *.
  destruct (I5 _ _ Hp) as (_ & _ & HA). split; cbn; try done.
  - by apply conclude_bound.
  - intros Hst k Hk. apply conclude_active in Hk as [Hk|[-> Hle]]; [by apply I2|].
    destruct (Hlat Hle) as [_ [Har|Hstop]].
    + apply HA. unfold arrival in Har. destruct how; [done|by destruct Har..].
    + exfalso. unfold stopped in Hstop. destruct how; try done. cbn in Hallow. rewrite Hst, andb_false_r in Hallow. done.
  - intros m q [Hne Hq]%lookup_delete_Some. rewrite lookup_delete_ne by done. by apply I5.
  - intros m id [Hne Hid]%lookup_delete_Some. rewrite lookup_delete_ne by done. by eapply I6.
Qed.

(** *** The semaphore *)

Lemma slots_delete m nonce : (slots (delete nonce m) <= slots m)%nat.
Proof using Type. unfold slots. rewrite map_filter_delete, map_size_delete. destruct (_ !! nonce); cbn; lia. Qed.

Lemma slots_insert m nonce p : (slots (<[nonce := p]> m) <= slots m + (if of_round p then 1 else 0))%nat.
Proof using Type.
  destruct (of_round p) eqn:E.
  - unfold slots. rewrite map_filter_insert_True by done. rewrite map_size_insert. destruct (_ !! nonce); cbn; lia.
  - pose proof (slots_delete m nonce). unfold slots in *. rewrite map_filter_insert_False by (cbn; congruence). lia.
Qed.

(** Marking a waiting probe as answered frees no slot and takes none. *)
Lemma slots_replace m nonce p q : m !! nonce = Some p -> of_round q = of_round p -> slots (<[nonce := q]> m) = slots m.
Proof using Type.
  intros Hp Hq. unfold slots. destruct (of_round p) eqn:E.
  - rewrite map_filter_insert_True by done. rewrite map_size_insert. rewrite (map_lookup_filter_Some_2 _ m nonce p Hp); [done|]. by cbn.
  - rewrite map_filter_insert_False by (cbn; congruence). f_equal. apply map_eq. intros k. apply option_eq. intros x.
    rewrite !map_lookup_filter_Some, lookup_delete_Some. split; [tauto|]. intros [Hx Ho]. split_and!; try done.
    intros ->. cbn in Ho. congruence.
Qed.

Lemma deliver_slots now outs s : slots (dn_probes (fold_left (dn_deliver now) outs s)) = slots (dn_probes s).
Proof using Type.
  revert s. induction outs as [|o outs IH]; intros s; [done|]. cbn [fold_left]. rewrite IH. destruct o; try done; cbn [dn_deliver].
  - destruct (dn_probes s !! nonce) as [p|] eqn:E; [|done]. destruct (pr_reply p); [done|]. by eapply slots_replace.
  - by destruct (dn_rounds s !! nonce).
Qed.

(** *** Every event keeps the invariant *)

Lemma put_inv A s s' :
  dn_disc s' = dn_disc s -> (dn_stopped s' = false -> dn_stopped s = false) ->
  (forall i f, (i, f) ∈ dn_inbound s' -> (i, f) ∈ dn_inbound s \/ dn_fan s !! i = Some (Some f)) ->
  (forall i f, dn_fan s' !! i = Some (Some f) -> dn_fan s !! i = Some (Some f) \/ forall k, authenticated f.2 k -> A k) ->
  dn_probes s' = dn_probes s -> dn_nonce s <= dn_nonce s' -> dn_inv A s -> dn_inv A s'.
Proof using Type.
  intros HD Hst Hin Hfan Hp Hn [I1 I2 I3 I4 I5 I6 I7]. split; rewrite ?HD, ?Hp; try done.
  - intros H. apply I2. by apply Hst.
  - intros i f k H. destruct (Hin i f H); [by eapply I3|by eapply I4].
  - intros i f k H. destruct (Hfan i f H) as [|HA]; [by eapply I4|apply HA].
  - intros nonce p H. destruct (I5 nonce p H) as (H1 & H2 & H3). split_and!; [done|lia|done].
  - lia.
Qed.

Lemma start_probe_slots e bridged up s n k :
  (slots (dn_probes (start_probe e bridged up s n k).1) <= slots (dn_probes s) + (if of_round (mkProbe n k 0 true None) then 1 else 0))%nat /\
  dn_nonce (start_probe e bridged up s n k).1 = next_nonce s.
Proof using Type.
  unfold start_probe. destruct (measureLatency_start _ _ _ _ _ _) as [[D outs] sent]. cbn [fst put_probes put_nonce put_disc dn_probes dn_nonce].
  split; [|done]. eapply Nat.le_trans; [apply slots_insert|]. done.
Qed.

Record dn_good (A : string -> Prop) (s : DNode) : Prop := { dg_inv : dn_inv A s; dg_slots : in_flight s <= latencyProbeConcurrency }.

Lemma check_end_shape nonce how s s' outs :
  dn_step (EvCheckEnd nonce how) s = Some (s', outs) -> exists rs, s' = put_reach rs (put_rounds (delete nonce (dn_rounds s)) s).
Proof using Type.
  cbn [dn_step]. unfold check_end. destruct (dn_rounds s !! nonce) as [r|]; [|done].
  destruct how, (collect _ _ _ _) as [[n b]|]; try done; try (destruct (concludeRound _ _ _) as [rs calls]; intros [= <- _]; by exists rs).
  destruct (dn_stopped s); [|done]. intros [= <- _]. by exists (dn_reach s).
Qed.

Lemma dn_step_good A ev s s' outs :
  (forall i a d k, ev = EvRead i a d -> authenticated d k -> A k) -> dn_nonce s + 1 < 2 ^ 64 ->
  dn_step ev s = Some (s', outs) -> dn_good A s -> dn_good A s' /\ dn_nonce s' <= dn_nonce s + 1.
Proof using Type.
  intros HA Hn Hs [Hi Hsl]. pose proof (dv_nonce _ _ Hi) as H0.
  assert (Hnext : next_nonce s = dn_nonce s + 1) by (unfold next_nonce; apply u64_id; unfold is_u64; lia).
  assert (Hput : forall s1, dn_disc s1 = dn_disc s -> (dn_stopped s1 = false -> dn_stopped s = false) ->
    (forall i f, (i, f) ∈ dn_inbound s1 -> (i, f) ∈ dn_inbound s \/ dn_fan s !! i = Some (Some f)) ->
    (forall i f, dn_fan s1 !! i = Some (Some f) -> dn_fan s !! i = Some (Some f) \/ forall k, authenticated f.2 k -> A k) ->
    dn_probes s1 = dn_probes s -> dn_nonce s <= dn_nonce s1 <= dn_nonce s + 1 -> dn_good A s1 /\ dn_nonce s1 <= dn_nonce s + 1).
  { intros s1 H1 H2 H3 H4 H5 H6. split; [split|lia].
    - apply (put_inv A s s1); try done; lia.
    - unfold in_flight. by rewrite H5. }
  destruct ev; unfold_step_in Hs.
  - destruct (dn_fan s !! i) as [[f|]|] eqn:E; simplify_eq. apply Hput; cbn; try done; [auto| |lia].
    intros j f [[<- [= <-]]|[_ Hj]]%lookup_insert_Some; [right; intros k; by eapply HA|by left].
  - destruct (dn_fan s !! i) as [[f|]|] eqn:E; simplify_eq. destruct (_ <? _); simplify_eq. apply Hput; cbn; try done; [| |lia].
    + intros j g [Hj|Hj]%elem_of_app; [by left|]. apply list_elem_of_singleton in Hj. simplify_eq. by right.
    + intros j g [[_ ?]|[_ Hj]]%lookup_insert_Some; [done|by left].
  - destruct (dn_fan s !! i); [|done]. destruct (dn_stopped s) eqn:Es; simplify_eq. apply Hput; cbn; try done; [by rewrite Es|auto| |lia].
    intros j f [_ Hj]%lookup_delete_Some. by left.
  - destruct (dn_inbound s) as [|[i [addr data]] rest] eqn:E; [done|]. destruct (dn_listening s); [|done].
    pose proof (listen_inv A e s i addr data rest E Hi) as Hl. destruct (listen e (dn_disc s) addr i data) as [D o]. simplify_eq.
    split; [split; [done|]|].
    + unfold in_flight. by rewrite deliver_slots.
    + destruct (deliver_all_frame (e_now e) o (put_inbound rest (put_disc D s))) as (_ & _ & _ & _ & ->). cbn. lia.
  - destruct (_ && _); simplify_eq. apply Hput; cbn; auto; lia.
  - destruct (idle s); simplify_eq. apply Hput; cbn; auto; lia.
  - destruct (idle s); [|done]. destruct (probe_targets _) as [l1 l2]. simplify_eq. apply Hput; cbn; auto; lia.
  - destruct (dn_round s) as [[|[n k] rest]|]; [done| |done]. destruct (Z.ltb_spec (in_flight s) latencyProbeConcurrency); [|done].
    assert (Hi1 : dn_inv A (put_round (Some rest) s)) by (apply (put_inv A s); cbn; auto; lia).
    pose proof (start_probe_inv A e bridged up (put_round (Some rest) s) (current (di_peers (dn_disc s)) n) k Hn Hi1) as Hp.
    destruct (start_probe_slots e bridged up (put_round (Some rest) s) (current (di_peers (dn_disc s)) n) k) as [Hp1 Hp2].
    injection Hs as Hs. rewrite Hs in Hp, Hp1, Hp2. cbn [fst] in Hp, Hp1, Hp2. change (next_nonce (put_round (Some rest) s)) with (next_nonce s) in Hp2.
    cbn [dn_probes put_round] in Hp1. split; [split; [done|]|lia]. unfold in_flight in *. destruct (of_round _); lia.
  - destruct (lookupLocal _ _) as [n|]; [|done]. destruct (n_Active n); [done|].
    pose proof (start_probe_inv A e bridged up s n ProbeFind Hn Hi) as Hp.
    destruct (start_probe_slots e bridged up s n ProbeFind) as [Hp1 Hp2]. injection Hs as Hs. rewrite Hs in Hp, Hp1, Hp2. cbn [fst] in Hp, Hp1, Hp2.
    cbn in Hp1. split; [split; [done|]|lia]. unfold in_flight in *. lia.
  - destruct (dn_probes s !! nonce) as [p|] eqn:E; [|done]. destruct (end_allowed s p how) eqn:Ea; [|done]. simplify_eq.
    split; [split; [by apply end_probe_inv|]|].
    + unfold in_flight, end_probe, measureLatency_finish in *. cbn. pose proof (slots_delete (dn_probes s) nonce). lia.
    + unfold end_probe, measureLatency_finish. cbn. lia.
  - destruct (dn_round s) as [[|x l]|]; try done. destruct (_ =? _); simplify_eq. apply Hput; cbn; auto; lia.
  - destruct (idle s); [|done]. destruct (checkBridgeLiveness _ _ _) as [m w']. simplify_eq. apply Hput; cbn; auto; lia.
  - destruct (idle s); simplify_eq. apply Hput; cbn; auto; lia.
  - destruct (_ && _); simplify_eq. apply Hput; cbn; auto; lia.
  - destruct (_ =? 0); [done|]. destruct (_ =? 0); simplify_eq. apply Hput; cbn; auto; lia.
  - destruct (check_end_shape nonce how s s' outs Hs) as [rs ->]. apply Hput; cbn; auto; lia.
  - simplify_eq. apply Hput; cbn; auto; lia.
  - simplify_eq. apply Hput; cbn; auto; [done|lia].
Qed.

Lemma dn_run_good A evs s s' outs :
  (forall i a d k, EvRead i a d ∈ evs -> authenticated d k -> A k) -> dn_nonce s + len evs < 2 ^ 64 ->
  dn_run evs s = Some (s', outs) -> dn_good A s -> dn_good A s'.
Proof using Type.
  revert s outs. induction evs as [|ev evs IH]; intros s outs HA Hn Hr Hg; cbn [dn_run] in Hr; [by simplify_eq|].
  destruct (dn_step ev s) as [[s1 o1]|] eqn:E1; [|done]. destruct (dn_run evs s1) as [[s2 o2]|] eqn:E2; [|done]. simplify_eq.
  rewrite len_cons in Hn. pose proof (len_nonneg evs).
  destruct (dn_step_good A ev s s1 o1) as [H1 H2]; [intros i a d k ->; apply (HA i a); by left|lia|done|done|].
  apply (IH s1 o2); [|lia|done|done]. intros i a d k Hin. apply (HA i a d). by right.
Qed.

(** C4: A running discovery service cannot be made to hold a peer for alive by
    anyone but that peer.  Whatever frames its interfaces deliver and however its
    read loop, its tickers, the probes of its latency rounds, [FindNode] and the
    dial-back rounds interleave, every peer is filed under the identity derived from
    its key, and until the service is stopped a peer is active only if it was when
    the service started or a frame read since carries a signature under its key.  At
    most [latencyProbeConcurrency] probes of a round are under way, and no
    registration of a probe outlives it. *)
Theorem firsthand_liveness e D bridges en evs s outs :
  key_bound (di_peers D) -> di_pending D = ∅ -> len evs < 2 ^ 64 ->
  dn_run evs (Discovery_Start e D bridges en).1 = Some (s, outs) ->
  key_bound (di_peers (dn_disc s)) /\
  (dn_stopped s = false -> forall k, active (di_peers (dn_disc s)) k ->
     active (di_peers D) k \/ exists i a data, EvRead i a data ∈ evs /\ authenticated data k) /\
  (forall nonce, is_Some (di_pending (dn_disc s) !! nonce) <-> is_Some (dn_probes s !! nonce)) /\
  in_flight s <= latencyProbeConcurrency.
Proof using Type.
  intros Hb Hp Hn Hr.
  set (A := fun k => active (di_peers D) k \/ exists i a data, EvRead i a data ∈ evs /\ authenticated data k).
  assert (Hg : dn_good A s).
  { apply (dn_run_good A evs (Discovery_Start e D bridges en).1 s outs); [|cbn [Discovery_Start fst dn_nonce]; lia|exact Hr|].
    - intros i a d k Hin Hau. right. by exists i, a, d.
    - split; [split; cbn; try done|done].
      + intros _ k Hk. by left.
      + intros i f k Hin. by apply not_elem_of_nil in Hin.
      + intros i f k Hf _. apply elem_of_list_to_map_2, list_elem_of_fmap in Hf as (j & ? & _). done.
      + intros nonce id. by rewrite Hp. }
  destruct Hg as [[I1 I2 I3 I4 I5 I6 I7] Hs]. split_and!; [done|done| |done].
  intros nonce. split; [intros [id Hid]; by eapply I6|]. intros [p Hpr]. destruct (I5 _ _ Hpr) as [H _]. by eexists.
Qed.
End Liveness.

(** ** The fan-in keeps each interface's order *)

Section FanIn.
Context `{N : NetOps} `{C : CryptoOps} `{J : DiscJson} `{G : GossipJson}.

Definition of_iface (i : string) (x : string * Frame) : option Frame := if String.eqb x.1 i then Some x.2 else None.

(** The frames an interface delivered, those the read loop took, those waiting in
    the merged channel, and the one its [fanIn] holds. *)
Definition taken (i : string) (evs : list dn_event) : list Frame :=
  omap (fun ev => match ev with EvRead j a d => of_iface i (j, (a, d)) | _ => None end) evs.
Definition handled (i : string) (outs : list dn_out) : list Frame :=
  omap (fun o => match o with DHandled j f => of_iface i (j, f) | _ => None end) outs.
Definition queued (i : string) (s : DNode) : list Frame := omap (of_iface i) (dn_inbound s).
Definition held (i : string) (s : DNode) : list Frame := match dn_fan s !! i with Some (Some f) => [f] | _ => [] end.

Lemma handled_outs i l : handled i (map DOut l) = [].
Proof using Type. unfold handled. induction l as [|o l IH]; [done|]. by cbn. Qed.

Lemma handled_warned i l : handled i (map DWarned l) = [].
Proof using Type. unfold handled. induction l as [|o l IH]; [done|]. by cbn. Qed.

Lemma handled_verdicts i l : handled i (map DReachable l) = [].
Proof using Type. unfold handled. induction l as [|o l IH]; [done|]. by cbn. Qed.

Lemma handled_app i l l' : handled i (l ++ l') = handled i l ++ handled i l'.
Proof using Type. apply omap_app. Qed.

(** One event moves at most one frame of an interface one place on; only the exit
    of its [fanIn], once the service is stopped, drops one. *)
Lemma fan_step i ev s s' outs :
  dn_step ev s = Some (s', outs) ->
  (dn_stopped s = true -> dn_stopped s' = true) /\ (dn_fan s !! i = None -> dn_fan s' !! i = None /\ taken i [ev] = []) /\
  (len (dn_inbound s) <= inboundCap -> len (dn_inbound s') <= inboundCap) /\
  (queued i s ++ held i s ++ taken i [ev] = handled i outs ++ queued i s' ++ held i s' \/
   dn_fan s' !! i = None /\ dn_stopped s' = true /\ taken i [ev] = [] /\ handled i outs = [] /\ queued i s' = queued i s).
Proof using Type.
  intros Hs.
  assert (Hsame : dn_inbound s' = dn_inbound s -> dn_fan s' = dn_fan s -> (dn_stopped s = true -> dn_stopped s' = true) ->
    handled i outs = [] -> taken i [ev] = [] ->
    (dn_stopped s = true -> dn_stopped s' = true) /\ (dn_fan s !! i = None -> dn_fan s' !! i = None /\ taken i [ev] = []) /\
    (len (dn_inbound s) <= inboundCap -> len (dn_inbound s') <= inboundCap) /\
    (queued i s ++ held i s ++ taken i [ev] = handled i outs ++ queued i s' ++ held i s' \/
     dn_fan s' !! i = None /\ dn_stopped s' = true /\ taken i [ev] = [] /\ handled i outs = [] /\ queued i s' = queued i s)).
  { intros H1 H2 H3 H4 H5. unfold queued, held. rewrite H1, H2, H4, H5. split_and!; try done. left. by rewrite app_nil_r. }
  destruct ev as [j a d|j|j|e| |e|e|e br up|e br up t|nonce now how| |e bord path w rn fs| | |e|nonce how| |e path w rn fs]; unfold_step_in Hs.
  - destruct (dn_fan s !! j) as [[f|]|] eqn:E; simplify_eq. unfold taken, queued, held, handled. cbn.
    destruct (String.eqb_spec j i) as [->|Hne]; unfold of_iface; cbn [fst snd].
    + rewrite String.eqb_refl, lookup_insert_eq, E. split_and!; try done. by left.
    + rewrite (proj2 (String.eqb_neq _ _) Hne), lookup_insert_ne by done. split_and!; try done. left. by rewrite app_nil_r.
  - destruct (dn_fan s !! j) as [[f|]|] eqn:E; simplify_eq. destruct (Z.ltb_spec (len (dn_inbound s)) inboundCap); simplify_eq.
    unfold taken, queued, held, handled. cbn. split_and!; [done| | |].
    + intros Hn. rewrite lookup_insert_ne by congruence. done.
    + intros _. rewrite len_app, len_cons, len_nil. lia.
    + left. rewrite omap_app. cbn. unfold of_iface at 3. cbn [fst snd]. destruct (String.eqb_spec j i) as [->|Hne].
      * by rewrite lookup_insert_eq, E, !app_nil_r.
      * rewrite lookup_insert_ne by done. by rewrite !app_nil_r.
  - destruct (dn_fan s !! j) eqn:E; [|done]. destruct (dn_stopped s) eqn:Es; simplify_eq. cbn. unfold taken, queued, held, handled. cbn.
    split_and!; [done| |done|].
    + intros Hn. rewrite lookup_delete_ne by congruence. done.
    + destruct (decide (j = i)) as [->|Hne]; [right; by rewrite lookup_delete_eq|left]. by rewrite lookup_delete_ne, app_nil_r.
  - destruct (dn_inbound s) as [|[j [addr data]] rest] eqn:E; [done|]. destruct (dn_listening s); [|done].
    destruct (listen e (dn_disc s) addr j data) as [D o]. simplify_eq.
    destruct (deliver_all_frame (e_now e) o (put_inbound rest (put_disc D s))) as (H1 & H2 & H3 & _). cbn in H1, H2, H3.
    unfold queued, held. rewrite H1, H2, H3, E. split_and!; [done|done|rewrite len_cons; lia|left].
    unfold taken. cbn [omap list_omap]. rewrite app_nil_r. unfold handled. cbn [omap list_omap].
    pose proof (handled_outs i o) as Hh. unfold handled in Hh. rewrite Hh. unfold of_iface. cbn [fst snd]. by destruct (String.eqb j i).
  - destruct (_ && _); simplify_eq; by apply Hsame.
  - destruct (idle s); simplify_eq. apply Hsame; try done. apply handled_outs.
  - destruct (idle s); [|done]. destruct (probe_targets _). simplify_eq. by apply Hsame.
  - destruct (dn_round s) as [[|[n k] rest]|]; try done. destruct (_ <? _); [|done]. unfold start_probe in Hs.
    destruct (measureLatency_start _ _ _ _ _ _) as [[D o] sent]. simplify_eq. apply Hsame; try done. apply handled_outs.
  - destruct (lookupLocal _ _) as [n|]; [|done]. destruct (n_Active n); [done|]. unfold start_probe in Hs.
    destruct (measureLatency_start _ _ _ _ _ _) as [[D o] sent]. simplify_eq. apply Hsame; try done. apply handled_outs.
  - destruct (dn_probes s !! nonce) as [p|]; [|done]. destruct (end_allowed _ _ _); simplify_eq. by apply Hsame.
  - destruct (dn_round s) as [[|x l]|]; try done. destruct (_ =? _); simplify_eq; by apply Hsame.
  - destruct (idle s); [|done]. destruct (checkBridgeLiveness _ _ _) as [m w']. simplify_eq. apply Hsame; try done.
    rewrite !handled_app, handled_outs, handled_warned. unfold refreshDHT. destruct (d_rt _) as [rt|]; [by destruct (lenLocked rt =? 0)|done].
  - destruct (idle s); simplify_eq. apply Hsame; try done. by destruct (dn_reachEnabled s').
  - destruct (_ && _); simplify_eq; by apply Hsame.
  - destruct (_ =? 0); [done|]. destruct (_ =? 0); simplify_eq. apply Hsame; try done. apply handled_outs.
  - assert (Hq : handled i outs = []).
    { destruct (dn_rounds s !! nonce) as [r|]; [|done].
      destruct how, (collect _ _ _ _) as [[n b]|]; try done; try (destruct (concludeRound _ _ _) as [rs calls]; simplify_eq; apply handled_verdicts).
      by destruct (dn_stopped s); simplify_eq. }
    destruct (check_end_shape nonce how s s' outs Hs) as [rs ->]. by apply Hsame.
  - simplify_eq. by apply Hsame.
  - simplify_eq. by apply Hsame.
Qed.

Lemma taken_cons i ev evs : taken i (ev :: evs) = taken i [ev] ++ taken i evs.
Proof using Type. unfold taken. rewrite <- omap_app. done. Qed.

Lemma fan_run i evs s s' outs :
  dn_run evs s = Some (s', outs) -> exists lost,
    queued i s ++ held i s ++ taken i evs = handled i outs ++ queued i s' ++ held i s' ++ lost /\
    len lost <= 1 /\ (lost <> [] -> dn_stopped s' = true) /\ (dn_fan s !! i = None -> taken i evs = [] /\ lost = []) /\
    (dn_stopped s = true -> dn_stopped s' = true) /\ (len (dn_inbound s) <= inboundCap -> len (dn_inbound s') <= inboundCap).
Proof using Type.
  revert s outs. induction evs as [|ev evs IH]; intros s outs Hr; cbn [dn_run] in Hr.
  { simplify_eq. exists []. split_and!; try done. }
  destruct (dn_step ev s) as [[s1 o1]|] eqn:E1; [|done]. destruct (dn_run evs s1) as [[s2 o2]|] eqn:E2; [|done]. simplify_eq.
  destruct (fan_step i ev s s1 o1 E1) as (F1 & F2 & F3 & F4). destruct (IH s1 o2 E2) as (lost & H1 & H2 & H3 & H4 & H5 & H6).
  rewrite taken_cons, handled_app. destruct F4 as [F4|(G1 & G2 & G3 & G4 & G5)].
  - exists lost. split_and!; try done; auto.
    + rewrite <- !app_assoc, <- H1, !app_assoc. f_equal. rewrite <- !app_assoc. exact F4.
    + intros Hn. destruct (F2 Hn) as [Hn1 ->]. by apply H4.
  - destruct (H4 G1) as [H7 ->]. exists (held i s). rewrite G3, G4, H7. cbn [app]. rewrite H7, app_nil_r in H1.
    assert (Hh1 : held i s1 = []) by (unfold held; by rewrite G1). rewrite Hh1, !app_nil_r in H1.
    split_and!; auto.
    + rewrite <- G5, H1. by rewrite <- !app_assoc, app_nil_r.
    + unfold held. destruct (dn_fan s !! i) as [[f|]|]; unfold len; cbn; lia.
    + intros Hn. unfold held. by rewrite Hn.
Qed.

(** Every interface's frames are handled in the order the interface delivered
    them, each once and none skipped, however the goroutines that merge the
    interfaces interleave; the channel they merge into never holds more than its
    capacity, and a frame is lost only to [Stop], at most one per interface besides
    those still queued. *)
Theorem fan_in_order e D bridges en evs s outs i :
  dn_run evs (Discovery_Start e D bridges en).1 = Some (s, outs) -> exists lost,
    taken i evs = handled i outs ++ queued i s ++ held i s ++ lost /\
    len lost <= 1 /\ (dn_stopped s = false -> lost = []) /\ len (dn_inbound s) <= inboundCap.
Proof using Type.
  intros Hr. destruct (fan_run i evs _ s outs Hr) as (lost & H1 & H2 & H3 & _ & _ & H6).
  exists lost. cbn [Discovery_Start fst] in *. split_and!; [|done| |apply H6; cbn; unfold inboundCap, len; cbn; lia].
  - rewrite <- H1. unfold queued, held. cbn [dn_inbound dn_fan]. cbn [omap list_omap app].
    destruct (list_to_map (map (fun i => (i, None)) (di_ifaces D)) !! i) as [[f|]|] eqn:E; [|done..].
    apply elem_of_list_to_map_2, list_elem_of_fmap in E as (j & ? & _). done.
  - intros Hs. destruct lost as [|f lost]; [done|]. rewrite H3 in Hs by done. done.
Qed.
End FanIn.

(** ** A silent bridge is reported, once *)

Section Bridges.
Context `{N : NetOps} `{C : CryptoOps} `{J : DiscJson} `{G : GossipJson}.

(** Bridge [i] is known to work, or was reported. *)
Definition settled (i : string) (m : gmap string bridgeStat) : Prop :=
  forall bs, m !! i = Some bs -> bs_warned bs || bs_active bs = true.

Definition mark_warned (m : gmap string bridgeStat) (e : string * bridgeStat) : gmap string bridgeStat :=
  <[e.1 := mkBridgeStat (bs_addr e.2) (bs_created e.2) (bs_active e.2) true]> m.

Lemma liveness_fold now it m w :
  fold_left (fun '(m, warned) e =>
    if bridge_silent now e.2
    then (<[e.1 := mkBridgeStat (bs_addr e.2) (bs_created e.2) (bs_active e.2) true]> m, warned ++ [e.1]) else (m, warned)) it (m, w) =
  (fold_left mark_warned (List.filter (fun e => bridge_silent now e.2) it) m, w ++ map fst (List.filter (fun e => bridge_silent now e.2) it)).
Proof using Type.
  revert m w. induction it as [|e it IH]; intros m w; cbn [fold_left List.filter map]; [by rewrite app_nil_r|].
  destruct (bridge_silent now e.2); rewrite IH; [|done]. cbn [fold_left map]. by rewrite <- app_assoc.
Qed.

Lemma mark_warned_lookup l m i :
  fold_left mark_warned l m !! i = m !! i \/ (i ∈ map fst l /\ exists bs, fold_left mark_warned l m !! i = Some bs /\ bs_warned bs = true).
Proof using Type.
  revert m. induction l as [|e l IH] using rev_ind; intros m; [by left|]. rewrite fold_left_app. cbn [fold_left]. unfold mark_warned at 1 3.
  rewrite map_app, elem_of_app. destruct (decide (e.1 = i)) as [<-|Hne].
  - right. split; [right; by left|]. eexists. rewrite lookup_insert_eq. done.
  - rewrite lookup_insert_ne by done. destruct (IH m) as [H|[H1 H2]]; [by left|right; auto].
Qed.

Lemma mark_warned_in l m i : i ∈ map fst l -> exists bs, fold_left mark_warned l m !! i = Some bs /\ bs_warned bs = true.
Proof using Type.
  revert m. induction l as [|e l IH] using rev_ind; intros m; [by intros ?%not_elem_of_nil|].
  rewrite fold_left_app, map_app, elem_of_app. cbn [fold_left]. unfold mark_warned at 1. intros H.
  destruct (decide (e.1 = i)) as [<-|Hne]; [eexists; by rewrite lookup_insert_eq|]. rewrite lookup_insert_ne by done.
  apply IH. destruct H as [H|H]; [done|]. apply list_elem_of_singleton in H. by subst.
Qed.

(** A round of [checkBridgeLiveness] reports the bridges that never carried a frame
    and were not reported, and settles them. *)
Lemma checkBridgeLiveness_spec now it m i :
  range_of m it ->
  let '(m', warned) := checkBridgeLiveness now it m in
  (i ∈ warned -> ~ settled i m /\ settled i m') /\ (settled i m -> settled i m').
Proof using Type.
  intros Hr. unfold checkBridgeLiveness. rewrite liveness_fold. cbn [app]. set (l := List.filter _ it).
  assert (Hl : forall j, j ∈ map fst l -> exists bs, m !! j = Some bs /\ bridge_silent now bs = true).
  { intros j ([k bs] & -> & Hin)%list_elem_of_fmap. apply list_elem_of_In, List.filter_In in Hin as [Hin Hs].
    apply list_elem_of_In, (range_elem _ _ _ _ Hr) in Hin. by exists bs. }
  assert (Hset : i ∈ map fst l -> settled i (fold_left mark_warned l m)).
  { intros Hin bs Hbs. destruct (mark_warned_in l m i Hin) as (bs' & H1 & H2). rewrite H1 in Hbs. simplify_eq. by rewrite H2. }
  split.
  - intros Hin. split; [|by apply Hset]. intros Hs. destruct (Hl i Hin) as (bs & H1 & H2). specialize (Hs bs H1).
    unfold bridge_silent in H2. rewrite Hs in H2. done.
  - intros Hs. destruct (mark_warned_lookup l m i) as [H|[H _]]; [|by apply Hset]. intros bs Hbs. rewrite H in Hbs. by apply Hs.
Qed.

(** The orders in which [checkBridgeLiveness] ranges over the bridges. *)
Definition ordered (ev : dn_event) : Prop :=
  match ev with EvGossip _ bord _ _ _ _ => forall m, range_of m (bord m) | _ => True end.

Lemma warned_outs i l : DWarned i ∉ map DOut l.
Proof using Type. intros (x & ? & _)%list_elem_of_fmap. done. Qed.

Lemma bridge_step i ev s s' outs :
  ordered ev -> dn_step ev s = Some (s', outs) ->
  (settled i (dn_bridges s) -> settled i (dn_bridges s')) /\
  (DWarned i ∈ outs -> ~ settled i (dn_bridges s) /\ settled i (dn_bridges s')) /\
  (forall a d, ev = EvRead i a d -> settled i (dn_bridges s')).
Proof using Type.
  intros Ho Hs.
  assert (Hsame : dn_bridges s' = dn_bridges s -> DWarned i ∉ outs -> (forall a d, ev <> EvRead i a d) ->
    (settled i (dn_bridges s) -> settled i (dn_bridges s')) /\
    (DWarned i ∈ outs -> ~ settled i (dn_bridges s) /\ settled i (dn_bridges s')) /\
    (forall a d, ev = EvRead i a d -> settled i (dn_bridges s'))).
  { intros -> H2 H3. split_and!; try done. intros a d E. by apply H3 in E. }
  assert (Hnil : DWarned i ∉ @nil dn_out) by apply not_elem_of_nil.
  destruct ev as [j a d|j|j|e| |e|e|e br up|e br up t|nonce now how| |e bord path w rn fs| | |e|nonce how| |e path w rn fs]; unfold_step_in Hs.
  - destruct (dn_fan s !! j) as [[f|]|] eqn:E; simplify_eq. cbn [put_bridges put_fan dn_bridges].
    assert (Hm : forall k, settled k (dn_bridges s) \/ k = j -> settled k (markIfaceActive j (dn_bridges s))).
    { intros k Hk bs. unfold markIfaceActive. destruct (dn_bridges s !! j) as [b|] eqn:Eb.
      - intros [[<- <-]|[Hne Hb]]%lookup_insert_Some; cbn; [by rewrite orb_true_r|]. destruct Hk as [Hk|Hk]; [by apply Hk|congruence].
      - intros Hb. destruct Hk as [Hk| ->]; [by apply Hk|congruence]. }
    split_and!; [intros H; apply Hm; by left|by intros ?%not_elem_of_nil|]. intros a' d' [= <- _ _]. apply Hm. by right.
  - destruct (dn_fan s !! j) as [[f|]|] eqn:E; simplify_eq. destruct (_ <? _); simplify_eq. by apply Hsame.
  - destruct (dn_fan s !! j) eqn:E; [|done]. destruct (dn_stopped s); simplify_eq. by apply Hsame.
  - destruct (dn_inbound s) as [|[j [addr data]] rest] eqn:E; [done|]. destruct (dn_listening s); [|done].
    destruct (listen e (dn_disc s) addr j data) as [D o]. simplify_eq. apply Hsame; [|by intros [?|?%warned_outs]%elem_of_cons|done].
    apply (deliver_all_frame (e_now e) o (put_inbound rest (put_disc D s))).
  - destruct (_ && _); simplify_eq; by apply Hsame.
  - destruct (idle s); simplify_eq. apply Hsame; try done. apply warned_outs.
  - destruct (idle s); [|done]. destruct (probe_targets _). simplify_eq. by apply Hsame.
  - destruct (dn_round s) as [[|[n k] rest]|]; try done. destruct (_ <? _); [|done]. unfold start_probe in Hs.
    destruct (measureLatency_start _ _ _ _ _ _) as [[D o] sent]. simplify_eq. apply Hsame; try done. apply warned_outs.
  - destruct (lookupLocal _ _) as [n|]; [|done]. destruct (n_Active n); [done|]. unfold start_probe in Hs.
    destruct (measureLatency_start _ _ _ _ _ _) as [[D o] sent]. simplify_eq. apply Hsame; try done. apply warned_outs.
  - destruct (dn_probes s !! nonce) as [p|]; [|done]. destruct (end_allowed _ _ _); simplify_eq. by apply Hsame.
  - destruct (dn_round s) as [[|x l]|]; try done. destruct (_ =? _); simplify_eq; by apply Hsame.
  - destruct (idle s); [|done]. pose proof (checkBridgeLiveness_spec (e_now e) (bord (dn_bridges s)) (dn_bridges s) i (Ho _)) as Hc.
    destruct (checkBridgeLiveness _ _ _) as [m w']. destruct Hc as [Hc1 Hc2]. simplify_eq. cbn [put_bridges dn_bridges].
    split_and!; [done| |done]. rewrite !elem_of_app. intros [H|[H|[H|H]]]; [by apply warned_outs in H| | |].
    + unfold refreshDHT in H. destruct (d_rt _) as [rt|]; [destruct (lenLocked rt =? 0)|]; try by apply not_elem_of_nil in H. by apply list_elem_of_singleton in H.
    + by apply list_elem_of_singleton in H.
    + apply list_elem_of_fmap in H as (x & [= <-] & H). by apply Hc1.
  - destruct (idle s); simplify_eq. apply Hsame; try done. destruct (dn_reachEnabled s'); [by intros ?%list_elem_of_singleton|done].
  - destruct (_ && _); simplify_eq; by apply Hsame.
  - destruct (_ =? 0); [done|]. destruct (_ =? 0); simplify_eq. apply Hsame; try done. apply warned_outs.
  - assert (Hq : DWarned i ∉ outs).
    { destruct (dn_rounds s !! nonce) as [r|]; [|done].
      destruct how, (collect _ _ _ _) as [[n b]|]; try done;
        try (destruct (concludeRound _ _ _) as [rs calls]; simplify_eq; by intros (x & ? & _)%list_elem_of_fmap).
      by destruct (dn_stopped s); simplify_eq. }
    destruct (check_end_shape nonce how s s' outs Hs) as [rs ->]. by apply Hsame.
  - simplify_eq. by apply Hsame.
  - simplify_eq. apply Hsame; try done. by intros ?%list_elem_of_singleton.
Qed.

(** A bridge is reported at most once, and never after it carried a frame. *)
Lemma bridge_warnings i evs s s' outs :
  Forall ordered evs -> dn_run evs s = Some (s', outs) ->
  (settled i (dn_bridges s) -> DWarned i ∉ outs) /\
  (settled i (dn_bridges s) \/ DWarned i ∈ outs \/ (exists a d, EvRead i a d ∈ evs) -> settled i (dn_bridges s')).
Proof using Type.
  intros Ho. revert s outs. induction Ho as [|ev evs Ho Hos IH]; intros s outs Hr; cbn [dn_run] in Hr.
  { simplify_eq. split; [intros _; apply not_elem_of_nil|]. intros [H|[H|(a & d & H)]]; [done|by apply not_elem_of_nil in H..]. }
  destruct (dn_step ev s) as [[s1 o1]|] eqn:E1; [|done]. destruct (dn_run evs s1) as [[s2 o2]|] eqn:E2; [|done]. simplify_eq.
  destruct (bridge_step i ev s s1 o1 Ho E1) as (B1 & B2 & B3). destruct (IH s1 o2 E2) as [H1 H2]. split.
  - intros Hs [H|H]%elem_of_app; [by apply (proj1 (B2 H))|]. by apply H1; [apply B1|].
  - intros [H|[[H|H]%elem_of_app|(a & d & [H|H]%elem_of_cons)]]; apply H2; [left; by apply B1|left; by apply B2|by right; left| |right; right; eauto].
    left. by eapply B3.
Qed.
End Bridges.

(** ** A run *)

Import Toy.
#[local] Existing Instance no_ip.

Definition prober : Disc := gossip_disc x01 [gossip_node x02 "b:1" false].
Definition prober_start : DNode := (Discovery_Start (C := toy_ops) sample_env prober ∅ false).1.
Definition probe_answer (b : byte) : bytes :=
  MarshalBinary (signed_packet (C := toy_ops) sample_env (gossip_disc b []) PacketTypeLatencyReply
    (disc_enc (probe_payload (selfID (gossip_disc b [])) 1 "a:1")) "").
Definition no_bridge (_ : string) : bool := false.
Definition all_up (_ : string) : bool := true.

(** A candidate is probed and answers. *)
Definition probe_events : list dn_event :=
  [EvLatency sample_env; EvProbe sample_env no_bridge all_up; EvRead "udp0" "b:1" (probe_answer x02); EvMerge "udp0"; EvHandle sample_env;
   EvProbeEnd 1 9 EndReply].
Definition probe_final : DNode * list dn_out :=
  default (prober_start, []) (dn_run (C := toy_ops) probe_events prober_start).

Lemma probe_run : dn_run (C := toy_ops) probe_events prober_start = Some probe_final.
Proof. vm_compute. reflexivity. Qed.

Lemma prober_bound : key_bound (C := toy_ops) (di_peers prober).
Proof. intros k n. cbn [prober gossip_disc set_peers di_peers set_nodes d_nodes map list_to_map foldr]. intros [[<- <-]|[_ H]]%lookup_insert_Some; [done|done]. Qed.

Lemma firsthand_liveness_witness :
  active (di_peers (dn_disc probe_final.1)) (gossip_id x02) /\
  exists i a data, EvRead i a data ∈ probe_events /\ authenticated (C := toy_ops) data (gossip_id x02).
Proof.
  assert (Ha : active (di_peers (dn_disc probe_final.1)) (gossip_id x02)).
  { eexists. split; [vm_compute; reflexivity|reflexivity]. }
  split; [exact Ha|].
  destruct (firsthand_liveness (C := toy_ops) sample_env prober ∅ false probe_events probe_final.1 probe_final.2) as (_ & H & _).
  - apply prober_bound.
  - reflexivity.
  - vm_compute. reflexivity.
  - rewrite <- surjective_pairing. exact probe_run.
  - destruct (H ltac:(vm_compute; reflexivity) _ Ha) as [(n & Hn & Hact)|Hx]; [exfalso|exact Hx].
    vm_compute in Hn. injection Hn as <-. discriminate.
Defined.

Lemma fan_in_order_witness : exists lost,
  taken "udp0" probe_events = handled "udp0" probe_final.2 ++ queued "udp0" probe_final.1 ++ held "udp0" probe_final.1 ++ lost /\ len lost <= 1.
Proof.
  destruct (fan_in_order (C := toy_ops) sample_env prober ∅ false probe_events probe_final.1 probe_final.2 "udp0") as (lost & H1 & H2 & _).
  - rewrite <- surjective_pairing. exact probe_run.
  - exists lost. split; [exact H1|exact H2].
Defined.

(** ** Consequences of the code *)

(** A check that [Stop] interrupts counts as answered in [maxLatency]: a peer known
    only by hearsay, which never sent a frame, turns active and was last seen now. *)
Example stop_promotes :
  match dn_run (C := toy_ops) [EvLatency sample_env; EvProbe sample_env no_bridge all_up; EvStop sample_env "" WOk true ∅; EvProbeEnd 1 9 EndStopped] prober_start with
  | Some (s, _) => (fun n => (n_Active n, n_LastSeen n)) <$> d_nodes (di_peers (dn_disc s)) !! gossip_id x02 = Some (true, 9)
  | None => False
  end.
Proof. vm_compute. reflexivity. Qed.

(** A dial-back round takes the results of whoever sends them: a node that was not
    asked but knows the nonce, one more than that of the latency check it received,
    settles the verdict either way, answering twice where two responders are
    required. *)
Definition verdict_json (b : bool) : DiscJson := {|
  ann_enc _ := []; ann_dec _ := None; preq_enc _ := []; preq_dec _ := None; disc_enc _ := []; disc_dec _ := None;
  px_dec _ := None; fn_dec _ := None; fr_enc _ := []; fr_dec _ := None; rp_dec _ := Some (mkReach "" 5 0 b) |}.
Definition stranger_result : bytes :=
  MarshalBinary (signed_packet (C := toy_ops) sample_env (gossip_disc x09 []) PacketTypeReachabilityResult [x00] "").
Definition stranger_events : list dn_event :=
  [EvRead "udp0" "s:1" stranger_result; EvMerge "udp0"; EvHandle sample_env; EvRead "udp0" "s:1" stranger_result; EvMerge "udp0"; EvHandle sample_env;
   EvCheckEnd 5 EndReply].
Example stranger_decides :
  forall b, match dn_run (C := toy_ops) (J := verdict_json b) stranger_events (put_rounds {[ 5 := mkRound 2 [] ]} prober_start) with
            | Some (s, outs) => dn_reach s = mkReachState true b 0 /\ last outs = Some (DReachable b)
            | None => False
            end.
Proof. intros [|]; vm_compute; split; reflexivity. Qed.
