(* ===== verification/Circuit.v ===== *)
(** * Circuit reservations, admission and I/O deadlines (internal/transfer/reservation.go, transfer.go, io_deadline.go)

    A node behind NAT keeps a connection open to a few relays and is reached over it.
    [Relayed] is the relay's side: the table of circuits as reservations come and
    connections end, and what is pushed over them.  [Client] is the reserving node's
    side: one loop per relay, and the set of relays it advertises.  Then the two counting
    semaphores that bound inbound work, and the per-operation deadlines of a data
    connection. *)

From S2P Require Import Prelude Crypto Wire PeerTable Discovery Gossip Pieces Offline Reputation.

Definition reservationKeepalive : Z := 15 * 1000000000.
Definition reservationRetry : Z := 3 * 1000000000.

(** ** The relay's side *)

Module Relayed.

Record circuit_state : Type := mkState {
  table : circuits;                          (** [t.reservations] *)
  serving : gmap Z string;                   (** connections held open, with the node that reserved *)
  waiting : held;                            (** blobs held for offline recipients *)
  pushed : list (Z * string * bytes);        (** written to a circuit: the connection, whom it is for, the blob *)
  opened_by : list (Z * Packet)              (** every reservation served, latest first *)
}.

Inductive circuit_event : Type :=
  | Reserve (rc now : Z) (pkt : Packet)      (** the first packet of a connection *)
  | Keepalive (rc : Z)
  | Hangup (rc : Z)
  | Push (node : string) (blob : bytes)      (** [forwardToNextHop] with a circuit *)
  | Hold (now ttl : Z) (node : string) (blob : bytes).

Section Relay.
Context `{C : CryptoOps}.

(** The guards of [handleConnection] before [serveReservation]. *)
Definition reservation_ok (pkt : Packet) : bool :=
  Verify pkt && String.eqb (p_SourceNode pkt) (SignerID pkt) && (p_Type pkt =? PacketTypeReservation).

(** [serveReservation] up to its read loop. *)
Definition serveReservation (now : Z) (rc : Z) (pkt : Packet) (s : circuit_state) : circuit_state :=
  let nodeID := p_SourceNode pkt in
  if String.eqb nodeID "" then s
  else
    let '(h, blobs) := flushOffline now nodeID (waiting s) in
    mkState (reserve_open (table s) nodeID rc) (<[rc := nodeID]> (serving s)) h (pushed s ++ map (fun b => (rc, nodeID, b)) blobs) ((rc, pkt) :: opened_by s).

Definition circuit_step (s : circuit_state) (e : circuit_event) : option circuit_state :=
  match e with
  | Reserve rc now pkt =>
      if bool_decide (rc ∈ map fst (opened_by s)) || negb (reservation_ok pkt) then None else Some (serveReservation now rc pkt s)
  | Keepalive rc => match serving s !! rc with Some _ => Some s | None => None end
  | Hangup rc =>
      match serving s !! rc with
      | Some nodeID => Some (mkState (reserve_close (table s) nodeID rc) (delete rc (serving s)) (waiting s) (pushed s) (opened_by s))
      | None => None
      end
  | Push node blob =>
      match reservationFor (table s) node with
      | Some rc => Some (mkState (table s) (serving s) (waiting s) (pushed s ++ [(rc, node, blob)]) (opened_by s))
      | None => None
      end
  | Hold now ttl node blob => Some (mkState (table s) (serving s) (storeOffline true ttl now node blob (waiting s)) (pushed s) (opened_by s))
  end.

Definition circuit_init (h : held) : circuit_state := mkState ∅ ∅ h [] [].
Fixpoint circuit_run (s : circuit_state) (es : list circuit_event) : option circuit_state :=
  match es with
  | [] => Some s
  | e :: es => match circuit_step s e with None => None | Some s => circuit_run s es end
  end.

(** The last connection a node reserved with. *)
Definition circuit_latest (s : circuit_state) (node : string) : option Z := fst <$> List.find (fun p => String.eqb (p_SourceNode p.2) node) (opened_by s).

Record circuit_inv (s : circuit_state) : Prop := {
  inv_latest : forall node rc, table s !! node = Some rc <-> circuit_latest s node = Some rc /\ serving s !! rc = Some node;
  inv_fresh : NoDup (map fst (opened_by s));
  inv_serving : forall rc node, serving s !! rc = Some node -> exists pkt, (rc, pkt) ∈ opened_by s /\ p_SourceNode pkt = node;
  inv_signed : forall rc pkt, (rc, pkt) ∈ opened_by s -> reservation_ok pkt = true /\ p_SourceNode pkt <> ""%string;
  inv_pushed : forall rc node blob, (rc, node, blob) ∈ pushed s -> exists pkt, (rc, pkt) ∈ opened_by s /\ p_SourceNode pkt = node
}.

Lemma latest_in s node rc : circuit_latest s node = Some rc -> exists pkt, (rc, pkt) ∈ opened_by s /\ p_SourceNode pkt = node.
Proof using Type.
  unfold circuit_latest. destruct (List.find _ _) as [[rc' pkt]|] eqn:E; [|done]. intros [= <-]. apply find_some in E as [Hi He%String.eqb_eq]. exists pkt. split; [by apply list_elem_of_In|exact He].
Qed.

Lemma circuit_inv_init h : circuit_inv (circuit_init h).
Proof using Type.
  split; cbn.
  - intros node rc. rewrite lookup_empty. split; [done|intros []; done].
  - constructor.
  - intros rc node. by rewrite lookup_empty.
  - by intros rc pkt ?%not_elem_of_nil.
  - by intros rc node blob ?%not_elem_of_nil.
Qed.

Lemma opened_inj s rc p q : NoDup (map fst (opened_by s)) -> (rc, p) ∈ opened_by s -> (rc, q) ∈ opened_by s -> p = q.
Proof using Type.
  intros Hn. induction (opened_by s) as [|[rc0 p0] l IH]; [by intros ?%not_elem_of_nil|]. cbn [map fst] in Hn. apply NoDup_cons in Hn as [Hni Hn].
  intros [E1|H1]%elem_of_cons [E2|H2]%elem_of_cons; simplify_eq; try done; [| |by apply IH];
    exfalso; apply Hni; apply list_elem_of_fmap; [exists (rc0, q)|exists (rc0, p)]; done.
Qed.

Lemma circuit_inv_reserve s now rc pkt : circuit_inv s -> rc ∉ map fst (opened_by s) -> reservation_ok pkt = true -> p_SourceNode pkt <> ""%string -> circuit_inv (serveReservation now rc pkt s).
Proof using Type.
  intros [I1 I2 I3 I4 I5] Hf Hok Hne. unfold serveReservation. rewrite (proj2 (String.eqb_neq _ _) Hne). destruct (flushOffline _ _ _) as [h blobs].
  assert (Hfr : serving s !! rc = None).
  { destruct (serving s !! rc) as [n|] eqn:E; [|done]. exfalso. apply I3 in E as (p & Hp & _). apply Hf. apply list_elem_of_fmap. by exists (rc, p). }
  split; cbn [table serving pushed opened_by].
  - intros node rc'. unfold circuit_latest, reserve_open. cbn [opened_by List.find snd]. rewrite (proj2 (String.eqb_neq _ _) Hne).
    destruct (String.eqb_spec (p_SourceNode pkt) node) as [->|Hn].
    + rewrite lookup_insert_eq. cbn. split; [intros [= ->]; split; [done|by rewrite lookup_insert_eq]|by intros [? _]].
    + rewrite lookup_insert_ne by done. fold (circuit_latest s node). rewrite I1. split; intros [H1 H2]; (split; [done|]).
      * rewrite lookup_insert_ne; [done|congruence].
      * apply latest_in in H1 as (p & Hp & _). rewrite lookup_insert_ne in H2; [done|]. intros ->. apply Hf. apply list_elem_of_fmap. by exists (rc', p).
  - cbn. by apply NoDup_cons.
  - intros rc' node [[<- <-]|[Hn H]]%lookup_insert_Some; [exists pkt; split; [left|done]|]. apply I3 in H as (p & Hp & Hq). exists p. split; [by right|done].
  - intros rc' p [[= -> ->]|H]%elem_of_cons; [done|by apply (I4 rc')].
  - intros rc' node blob [H|H]%elem_of_app.
    + apply I5 in H as (p & Hp & Hq). exists p. split; [by right|done].
    + apply list_elem_of_fmap in H as (b & [= -> -> ->] & _). exists pkt. split; [left|done].
Qed.

Lemma circuit_inv_step s e s' : circuit_inv s -> circuit_step s e = Some s' -> circuit_inv s'.
Proof using Type.
  intros I. destruct e as [rc now pkt|rc|rc|node blob|now ttl node blob]; cbn [circuit_step].
  - destruct (bool_decide_reflect (rc ∈ map fst (opened_by s))) as [|Hf]; [done|]. destruct (reservation_ok pkt) eqn:Eok; [|done]. intros [= <-].
    destruct (String.eqb_spec (p_SourceNode pkt) "") as [E|E]; [unfold serveReservation; by rewrite E|by apply circuit_inv_reserve].
  - destruct (serving s !! rc); [|done]. by intros [= <-].
  - destruct (serving s !! rc) as [n|] eqn:Es; [|done]. intros [= <-]. destruct I as [I1 I2 I3 I4 I5]. split; cbn [table serving pushed opened_by]; try done.
    + intros node rc'. change (circuit_latest _ node) with (circuit_latest s node). specialize (I1 node rc'). unfold reserve_close.
      assert (H : (match table s !! n with Some rc' => if rc' =? rc then delete n (table s) else table s | None => table s end) !! node = Some rc' <-> table s !! node = Some rc' /\ rc' <> rc).
      { destruct (table s !! n) as [r|] eqn:Et.
        - destruct (Z.eqb_spec r rc) as [->|Hr].
          + rewrite lookup_delete_Some. split.
            * intros [H1 H2]. split; [done|]. intros ->. apply I1 in H2 as [_ H2]. congruence.
            * intros [H1 H2]. split; [|done]. intros ->. congruence.
          + split; [intros H; split; [done|]|by intros []]. intros ->. destruct (proj1 I1 H) as [_ H']. congruence.
        - split; [intros H; split; [done|]|by intros []]. intros ->. destruct (proj1 I1 H) as [_ H']. congruence. }
      rewrite H, I1, lookup_delete_Some. naive_solver.
    + intros rc' node [_ H]%lookup_delete_Some. by apply I3.
  - destruct (reservationFor (table s) node) as [rc|] eqn:Er; [|done]. intros [= <-]. unfold reservationFor in Er. destruct (String.eqb node ""); [done|].
    destruct I as [I1 I2 I3 I4 I5]. split; try done. cbn [pushed opened_by]. intros rc' n b [H|H]%elem_of_app; [by apply (I5 _ _ b)|].
    apply list_elem_of_singleton in H as [= -> -> ->]. apply I1 in Er as [H _]. by apply latest_in.
  - intros [= <-]. by destruct I as [I1 I2 I3 I4 I5].
Qed.

Lemma circuit_run_inv s es s' : circuit_inv s -> circuit_run s es = Some s' -> circuit_inv s'.
Proof using Type. revert s. induction es as [|e es IH]; intros s I; cbn [circuit_run]; [by intros [= <-]|]. destruct (circuit_step s e) eqn:E; [|done]. apply IH. by eapply circuit_inv_step. Qed.

(** C16: A relay's circuits belong to the nodes that opened them: whatever reservations
    arrive, end or are repeated, and whatever is forwarded or held in between, the
    circuit of a node is exactly its latest reservation while that connection is open, and
    every blob pushed over a connection - forwarded or flushed from the offline queue -
    is for the node whose key signed the reservation on it. *)
Theorem circuit_owner h es s :
  circuit_run (circuit_init h) es = Some s ->
  (forall node rc, node <> ""%string -> reservationFor (table s) node = Some rc <-> circuit_latest s node = Some rc /\ serving s !! rc = Some node) /\
  (forall rc node blob, (rc, node, blob) ∈ pushed s -> exists pkt, (rc, pkt) ∈ opened_by s /\ Verify pkt = true /\ SignerID pkt = node).
Proof using Type.
  intros Hr. destruct (circuit_run_inv _ _ _ (circuit_inv_init h) Hr) as [I1 I2 I3 I4 I5]. split.
  - intros node rc Hn. unfold reservationFor. rewrite (proj2 (String.eqb_neq _ _) Hn). apply I1.
  - intros rc node blob H. apply I5 in H as (pkt & Hp & Hs). exists pkt. destruct (I4 rc pkt Hp) as [Hok _]. unfold reservation_ok in Hok.
    apply andb_true_iff in Hok as [Hok _]. apply andb_true_iff in Hok as [Hv He]. apply String.eqb_eq in He. split_and!; [done|done|congruence].
Qed.
End Relay.

(** The reservation packet of [runReservation], and of its keepalives. *)
Definition reservationPacket `{C : CryptoOps} (selfID : string) (signKey : bytes) (now : Z) (nowStr : bytes) (relayID : string) : Packet :=
  Sign signKey (set_source selfID (NewPacket now nowStr PacketTypeReservation [] "" relayID)).

Definition circuit_sample_key : bytes := repeat x05 64.
Definition circuit_sample_node : string := DeriveNodeID (C := toy_ops) (ed_public (CryptoOps := toy_ops) circuit_sample_key).
Definition circuit_sample_packet (relayID : string) : Packet := reservationPacket (C := toy_ops) circuit_sample_node circuit_sample_key 0 [] relayID.
Definition empty_held : held := mkHeld ∅ 0 None.
Definition circuit_sample_events : list circuit_event :=
  [Hold 0 10 circuit_sample_node [x09]; Reserve 1 5 (circuit_sample_packet "relay"); Keepalive 1; Push circuit_sample_node [x07]; Reserve 2 6 (circuit_sample_packet "relay"); Hangup 1].
Definition circuit_sample_state : circuit_state := default (circuit_init empty_held) (circuit_run (C := toy_ops) (circuit_init empty_held) circuit_sample_events).

Lemma circuit_owner_witness :
  reservationFor (table circuit_sample_state) circuit_sample_node = Some 2 /\ pushed circuit_sample_state = [(1, circuit_sample_node, [x09]); (1, circuit_sample_node, [x07])] /\
  exists pkt, (1, pkt) ∈ opened_by circuit_sample_state /\ Verify (C := toy_ops) pkt = true /\ SignerID (C := toy_ops) pkt = circuit_sample_node.
Proof.
  destruct (circuit_owner (C := toy_ops) empty_held circuit_sample_events circuit_sample_state ltac:(vm_compute; reflexivity)) as [H1 H2].
  split; [vm_compute; reflexivity|]. split; [vm_compute; reflexivity|]. apply (H2 1 circuit_sample_node [x07]). apply (bool_decide_eq_true _). vm_compute. reflexivity.
Defined.

(** A reservation carries no freshness and the relay does not look at whom it is
    addressed to: a copy of one, made for another relay, takes over the circuit from any
    connection, and what is pushed next goes there. *)
Example reservation_replayed :
  match circuit_run (C := toy_ops) (circuit_init empty_held) [Reserve 1 5 (circuit_sample_packet "relay"); Reserve 2 1000000 (circuit_sample_packet "another relay"); Push circuit_sample_node [x07]] with
  | Some s => pushed s = [(2, circuit_sample_node, [x07])] /\ serving s !! 1 = Some circuit_sample_node
  | None => False
  end.
Proof. vm_compute. done. Qed.
End Relayed.

(** ** The reserving node's side *)

Module Client.

(** Where the loop of one relay is.  [Publishing] has recorded a change and holds the set
    of relays it saw, not yet advertised; [next] says whether the circuit is held. *)
Inductive loop_phase : Type := Trying | Publishing (ids : list string) (holding : bool) | Holding | Resting.

Record reserving : Type := mkState {
  needsRelay : bool;
  loops : gmap string loop_phase;            (** [t.reservationClients] and where each is *)
  reservedIDs : gset string;
  advertised : list string;             (** the relays discovery advertises *)
  standing_ : standing;
  stopped : bool                        (** [ctx.Done()] *)
}.

Inductive reserving_event : Type :=
  | Ensure (now : Z) (self : string) (nodes : list Node)    (** a tick of [maintainReservations] *)
  | Needs (v : bool)                                        (** [SetNeedsRelay] *)
  | Up (relay : string) (ids : list string)                 (** reserved; [ids] is the iteration over the set *)
  | Down (relay : string) (ids : list string)               (** [runReservation] returned *)
  | Publish (relay : string)                                (** [SetRelayIDs] *)
  | Retry (relay : string)
  | Quit (relay : string)                                   (** after [Done], at the wait or at the top of the loop *)
  | Stop.

Definition reserving_clients (s : reserving) : gset string := dom (loops s).
Definition at_phase (s : reserving) (relay : string) (ph : loop_phase) : reserving :=
  mkState (needsRelay s) (<[relay := ph]> (loops s)) (reservedIDs s) (advertised s) (standing_ s) (stopped s).
Definition is_iteration (ids : list string) (m : gset string) : bool := bool_decide (NoDup ids) && bool_decide (list_to_set ids = m).

(** [setReserved] up to the end of its critical section. *)
Definition record_change (s : reserving) (relay : string) (ok : bool) (ids : list string) : option reserving :=
  let m := setReserved (reservedIDs s) relay ok in
  if is_iteration ids m
  then Some (mkState (needsRelay s) (<[relay := Publishing ids ok]> (loops s)) m (advertised s) (standing_ s) (stopped s))
  else None.

Definition reserving_step (s : reserving) (e : reserving_event) : option reserving :=
  match e with
  | Ensure now self nodes =>
      if stopped s then None
      else
        let '(st, _, started) := ensureReservations now (needsRelay s) self nodes (reserving_clients s) (standing_ s) in
        Some (mkState (needsRelay s) (fold_right (fun id m => <[id := Trying]> m) (loops s) started) (reservedIDs s) (advertised s) st (stopped s))
  | Needs v => Some (mkState v (loops s) (reservedIDs s) (advertised s) (standing_ s) (stopped s))
  | Up relay ids => match loops s !! relay with Some Trying => record_change s relay true ids | _ => None end
  | Down relay ids => match loops s !! relay with Some Trying | Some Holding => record_change s relay false ids | _ => None end
  | Publish relay =>
      match loops s !! relay with
      | Some (Publishing ids holding) =>
          Some (mkState (needsRelay s) (<[relay := if holding then Holding else Resting]> (loops s)) (reservedIDs s) ids (standing_ s) (stopped s))
      | _ => None
      end
  | Retry relay => match loops s !! relay with Some Resting => if stopped s then None else Some (at_phase s relay Trying) | _ => None end
  | Quit relay =>
      match loops s !! relay with
      | Some Resting | Some Trying => if stopped s then Some (mkState (needsRelay s) (delete relay (loops s)) (reservedIDs s) (advertised s) (standing_ s) (stopped s)) else None
      | _ => None
      end
  | Stop => Some (mkState (needsRelay s) (loops s) (reservedIDs s) (advertised s) (standing_ s) true)
  end.

Definition reserving_init (needs : bool) (st : standing) : reserving := mkState needs ∅ ∅ [] st false.
Fixpoint reserving_run (s : reserving) (es : list reserving_event) : option reserving :=
  match es with
  | [] => Some s
  | e :: es => match reserving_step s e with None => None | Some s => reserving_run s es end
  end.

(** Whether the loop of a relay counts as holding a reservation. *)
Definition holds (ph : option loop_phase) : Prop := match ph with Some Holding | Some (Publishing _ true) => True | _ => False end.

Record reserving_inv (s : reserving) : Prop := {
  inv_bound : Z.of_nat (size (reserving_clients s)) <= maxReservationRelays;
  inv_held : forall relay, relay ∈ reservedIDs s <-> holds (loops s !! relay)
}.

(** Executions in which every change is advertised before the next is recorded. *)
Fixpoint serial (es : list reserving_event) : bool :=
  match es with
  | Up r _ :: es | Down r _ :: es => match es with Publish r' :: _ => String.eqb r r' && serial es | _ => false end
  | _ :: es => serial es
  | [] => true
  end.

Lemma reserve_loop_started now self nodes active reserving_clients st :
  let '(_, clients', started) := reserve_loop now self nodes active reserving_clients st in
  clients' = list_to_set started ∪ reserving_clients /\ (forall id, id ∈ started -> id ∉ reserving_clients).
Proof.
  revert active reserving_clients st. induction nodes as [|n nodes IH]; intros active reserving_clients st; cbn [reserve_loop].
  - split; [clear; set_solver|by intros id ?%not_elem_of_nil].
  - destruct (_ <=? active); [split; [clear; set_solver|by intros id ?%not_elem_of_nil]|]. destruct (_ || _); [apply IH|].
    destruct (isExcommunicated now (n_ID n) st) as [st1 []]; [apply IH|]. destruct (bool_decide_reflect (n_ID n ∈ reserving_clients)) as [|Hni]; [apply IH|].
    specialize (IH (active + 1) ({[n_ID n]} ∪ reserving_clients) st1). destruct (reserve_loop _ _ _ _ _ _) as [[st2 c2] s2]. destruct IH as [-> IH]. cbn [list_to_set]. split; [clear; set_solver|].
    intros id [->|Hid]%elem_of_cons; [done|]. apply IH in Hid. clear -Hid. set_solver.
Qed.

Lemma insert_all ids (m : gmap string loop_phase) id : fold_right (fun id m => <[id := Trying]> m) m ids !! id = if bool_decide (id ∈ ids) then Some Trying else m !! id.
Proof.
  induction ids as [|x ids IH]; [done|]. cbn [fold_right]. destruct (decide (id = x)) as [->|Hn].
  - rewrite lookup_insert_eq, bool_decide_true; [done|left].
  - rewrite lookup_insert_ne, IH by done. destruct (bool_decide_reflect (id ∈ ids)) as [H|H]; [rewrite bool_decide_true; [done|by right]|].
    rewrite bool_decide_false; [done|]. intros [->|H']%elem_of_cons; done.
Qed.

Lemma dom_insert_all ids (m : gmap string loop_phase) : dom (fold_right (fun id m => <[id := Trying]> m) m ids) = list_to_set ids ∪ dom m.
Proof. induction ids as [|x ids IH]; cbn [fold_right list_to_set]; [by rewrite union_empty_l_L|]. rewrite dom_insert_L, IH. by rewrite assoc_L by apply _. Qed.

Lemma clients_known s relay ph ph' : loops s !! relay = Some ph -> size (dom (<[relay := ph']> (loops s))) = size (reserving_clients s).
Proof. intros H. unfold reserving_clients. rewrite dom_insert_L, subseteq_union_1_L; [done|]. apply singleton_subseteq_l. by apply elem_of_dom_2 in H. Qed.

Lemma reserving_inv_record s relay ok ids s' : reserving_inv s -> is_Some (loops s !! relay) -> record_change s relay ok ids = Some s' ->
  reserving_inv s' /\ loops s' !! relay = Some (Publishing ids ok) /\ list_to_set ids = reservedIDs s' /\ advertised s' = advertised s.
Proof.
  intros [I1 I2] [ph Hph]. unfold record_change, is_iteration. destruct (_ && _) eqn:E; [|done]. intros [= <-]. apply andb_true_iff in E as [_ E]. apply bool_decide_eq_true in E. split; [|cbn [loops]; by rewrite lookup_insert_eq].
  split; cbn [reserving_clients loops reservedIDs]; [change (reserving_clients _) with (dom (<[relay := Publishing ids ok]> (loops s))); by erewrite clients_known|].
  intros r. unfold setReserved. destruct (decide (r = relay)) as [->|Hn].
  - rewrite lookup_insert_eq. destruct ok; cbn; set_solver.
  - rewrite lookup_insert_ne by done. rewrite <- I2. destruct ok; clear -Hn; set_solver.
Qed.

Lemma reserving_inv_phase s relay ph ph' s' : reserving_inv s -> loops s !! relay = Some ph -> loops s' = <[relay := ph']> (loops s) -> reservedIDs s' = reservedIDs s ->
  (holds (Some ph') <-> holds (Some ph)) -> reserving_inv s'.
Proof.
  intros [I1 I2] Hph Hl Hr Hh. split.
  - unfold reserving_clients. rewrite Hl. by erewrite clients_known.
  - intros r. rewrite Hr, Hl, I2. destruct (decide (r = relay)) as [->|Hn]; [rewrite lookup_insert_eq, Hph; by symmetry|by rewrite lookup_insert_ne].
Qed.

Lemma reserving_inv_step s e s' : reserving_inv s -> reserving_step s e = Some s' -> reserving_inv s'.
Proof.
  intros I. destruct e as [now self nodes|v|relay ids|relay ids|relay|relay|relay|]; cbn [reserving_step].
  - destruct (stopped s); [done|]. unfold ensureReservations. destruct (needsRelay s) eqn:En; cbn [negb].
    + pose proof (reserve_loop_started now self nodes (Z.of_nat (size (reserving_clients s))) (reserving_clients s) (standing_ s)) as Hs.
      pose proof (reserve_loop_bound now self nodes (Z.of_nat (size (reserving_clients s))) (reserving_clients s) (standing_ s) (Z.le_refl _)) as Hb.
      destruct (reserve_loop _ _ _ _ _ _) as [[st c] started]. destruct Hs as [Hc Hn]. cbn [fst snd] in Hb. intros [= <-]. destruct I as [I1 I2]. split.
      * unfold reserving_clients in *. cbn [loops]. rewrite dom_insert_all, <- Hc. lia.
      * intros r. cbn [reservedIDs loops]. rewrite I2, insert_all. destruct (bool_decide_reflect (r ∈ started)) as [H|H]; [|done].
        apply Hn in H. unfold reserving_clients in H. rewrite not_elem_of_dom in H. by rewrite H.
    + intros [= <-]. by destruct I.
  - intros [= <-]. by destruct I.
  - destruct (loops s !! relay) as [[]|] eqn:E; try done. intros H. eapply reserving_inv_record in H; [apply H|done|by eexists].
  - destruct (loops s !! relay) as [[]|] eqn:E; try done; (intros H; eapply reserving_inv_record in H; [apply H|done|by eexists]).
  - destruct (loops s !! relay) as [[|ids h| |]|] eqn:E; try done. intros [= <-]. eapply (reserving_inv_phase s relay); [done|done|reflexivity|done|]. by destruct h.
  - destruct (loops s !! relay) as [[]|] eqn:E; try done. destruct (stopped s); [done|]. intros [= <-]. by eapply (reserving_inv_phase s relay).
  - assert (Hq : forall ph, loops s !! relay = Some ph -> ~ holds (Some ph) -> reserving_inv (mkState (needsRelay s) (delete relay (loops s)) (reservedIDs s) (advertised s) (standing_ s) (stopped s))).
    { intros ph E Hh. destruct I as [I1 I2]. split.
      - unfold reserving_clients in *. cbn [loops]. rewrite dom_delete_L. pose proof (subseteq_size (dom (loops s) ∖ {[relay]}) (dom (loops s)) ltac:(set_solver)). lia.
      - intros r. cbn [reservedIDs loops]. rewrite I2. destruct (decide (r = relay)) as [->|Hn]; [by rewrite lookup_delete_eq, E|by rewrite lookup_delete_ne]. }
    destruct (loops s !! relay) as [[]|] eqn:E; try done; destruct (stopped s) eqn:Es; try done; intros [= <-]; (eapply Hq; [done|by intros []]).
  - intros [= <-]. by destruct I.
Qed.

Lemma reserving_run_inv es s s' : reserving_inv s -> reserving_run s es = Some s' -> reserving_inv s'.
Proof. revert s. induction es as [|e es IH]; intros s I; cbn [reserving_run]; [by intros [= <-]|]. destruct (reserving_step s e) eqn:E; [|done]. apply IH. by eapply reserving_inv_step. Qed.

Lemma reserving_inv_init needs st : reserving_inv (reserving_init needs st).
Proof. split; cbn; [vm_compute; done|]. intros r. rewrite lookup_empty. set_solver. Qed.

(** What is advertised is what is held, and nothing is on its way. *)
Definition settled (s : reserving) : Prop :=
  (forall relay, relay ∈ advertised s <-> relay ∈ reservedIDs s) /\ (forall relay ids h, loops s !! relay <> Some (Publishing ids h)).

Lemma settled_same s s' : settled s -> advertised s' = advertised s -> reservedIDs s' = reservedIDs s ->
  (forall relay ids h, loops s' !! relay = Some (Publishing ids h) -> loops s !! relay = Some (Publishing ids h)) -> settled s'.
Proof. intros [H1 H2] Ha Hr Hl. split; [intros r; by rewrite Ha, Hr|]. intros r ids h H. by apply (H2 r ids h), Hl. Qed.

Lemma settled_change s relay ok ids s1 s2 : settled s -> reserving_inv s -> is_Some (loops s !! relay) -> record_change s relay ok ids = Some s1 -> reserving_step s1 (Publish relay) = Some s2 -> settled s2.
Proof.
  intros [Ha Hp] I Hs H1 H2. destruct (reserving_inv_record _ _ _ _ _ I Hs H1) as (I1 & Hl & Hi & _). cbn [reserving_step] in H2. rewrite Hl in H2. injection H2 as <-. split; cbn [advertised reservedIDs loops].
  - intros r. rewrite <- Hi. by rewrite elem_of_list_to_set.
  - intros r ids' h. unfold record_change in H1. destruct (is_iteration _ _); [|done]. injection H1 as <-. cbn [loops]. destruct (decide (r = relay)) as [->|Hn].
    + rewrite lookup_insert_eq. by destruct ok.
    + rewrite !lookup_insert_ne by done. apply Hp.
Qed.

Lemma settled_step s e s1 : settled s -> reserving_step s e = Some s1 -> match e with Up _ _ | Down _ _ => False | _ => True end -> settled s1.
Proof.
  intros Hs E He. destruct e as [now self nodes|v|relay ids|relay ids|relay|relay|relay|]; cbn [reserving_step] in E; try done.
  - destruct (stopped s); [done|]. destruct (ensureReservations _ _ _ _ _ _) as [[st c] started]. injection E as <-. apply (settled_same s); try done.
    intros r ids h. cbn [loops]. rewrite insert_all. by destruct (bool_decide _).
  - injection E as <-. by apply (settled_same s).
  - exfalso. destruct (loops s !! relay) as [[|ids h| |]|] eqn:El; try done. by apply (proj2 Hs relay ids h).
  - destruct (loops s !! relay) as [[]|] eqn:El; try done. destruct (stopped s); [done|]. injection E as <-. apply (settled_same s); try done.
    intros r ids h. cbn [at_phase loops]. intros [[_ H]|[_ H]]%lookup_insert_Some; done.
  - assert (Hq : settled (mkState (needsRelay s) (delete relay (loops s)) (reservedIDs s) (advertised s) (standing_ s) (stopped s))).
    { apply (settled_same s); try done. intros r ids h. cbn [loops]. intros [_ H]%lookup_delete_Some. exact H. }
    destruct (loops s !! relay) as [[]|] eqn:El; try done; destruct (stopped s) eqn:Es; try done; injection E as <-; exact Hq.
  - injection E as <-. by apply (settled_same s).
Qed.

Lemma serial_settled n es s s' : (length es <= n)%nat -> reserving_inv s -> settled s -> serial es = true -> reserving_run s es = Some s' -> settled s'.
Proof.
  revert es s. induction n as [|n IH]; intros es s Hn I Ha; [destruct es; [by intros _ [= <-]|cbn in Hn; lia]|]. destruct es as [|e es]; [by intros _ [= <-]|]. cbn [length] in Hn.
  cbn [reserving_run]. destruct (reserving_step s e) as [s1|] eqn:E; [|done]. pose proof (reserving_inv_step s e s1 I E) as I1.
  assert (Hpub : forall relay ok ids, is_Some (loops s !! relay) -> record_change s relay ok ids = Some s1 ->
    match es with Publish r' :: _ => String.eqb relay r' && serial es | _ => false end = true -> reserving_run s1 es = Some s' -> settled s').
  { intros relay ok ids Hs Hr Hser Hrun. destruct es as [|[| | | |r'| | |] es]; try done. apply andb_true_iff in Hser as [He Hser]. apply String.eqb_eq in He as <-.
    cbn [reserving_run] in Hrun. destruct (reserving_step s1 (Publish relay)) as [s2|] eqn:E2; [|done]. pose proof (settled_change _ _ _ _ _ _ Ha I Hs Hr E2) as Ha2.
    cbn [length] in Hn. apply (IH es s2); [lia|by eapply reserving_inv_step|done..]. }
  intros Hser Hrun. pose proof E as E'. destruct e as [now self nodes|v|relay ids|relay ids|relay|relay|relay|]; cbn [serial] in Hser;
    try (apply (IH es s1); [lia|done|by eapply settled_step|done|done]); cbn [reserving_step] in E; destruct (loops s !! relay) as [[]|] eqn:El; try done;
    (eapply Hpub; [by eexists|exact E|exact Hser|exact Hrun]).
Qed.

(** C17: A node behind NAT holds at most [maxReservationRelays] reservation loops, and the
    relays it counts as reserved are exactly those whose loop holds a circuit, whatever
    relays it knows, whichever reservations succeed or drop, whenever it learns that it is
    reachable or stops, and however the loops interleave; if every change is advertised
    before the next is recorded, what it advertises is exactly that set. *)
Theorem reservations_tracked needs st es s :
  reserving_run (reserving_init needs st) es = Some s ->
  Z.of_nat (size (reserving_clients s)) <= maxReservationRelays /\ (forall relay, relay ∈ reservedIDs s <-> holds (loops s !! relay)) /\
  (serial es = true -> forall relay, relay ∈ advertised s <-> holds (loops s !! relay)).
Proof.
  intros Hr. destruct (reserving_run_inv es _ s (reserving_inv_init needs st) Hr) as [I1 I2]. split_and!; [done|done|]. intros Hs relay.
  assert (H0 : settled (reserving_init needs st)) by (split; cbn; [intros r; split; [by intros ?%not_elem_of_nil|set_solver]|intros r ids h; by rewrite lookup_empty]).
  destruct (serial_settled (length es) es _ s (le_n _) (reserving_inv_init needs st) H0 Hs Hr) as [H _]. by rewrite H, I2.
Qed.

Definition reserving_sample_nodes : list Node := map sample_relay ["r1"; "r2"; "r3"]%string.
Definition no_standing : standing := mkStanding ∅ ∅.
Definition reserving_after_events (es : list reserving_event) : reserving := default (reserving_init true no_standing) (reserving_run (reserving_init true no_standing) es).

Lemma reservations_tracked_witness :
  let s := reserving_after_events [Ensure 0 "me" reserving_sample_nodes; Up "r1" ["r1"]; Publish "r1"; Up "r2" ["r1"; "r2"]; Publish "r2"; Down "r1" ["r2"]; Publish "r1"; Retry "r1"; Ensure 1 "me" reserving_sample_nodes] in
  advertised s = ["r2"]%string /\ forall relay, relay ∈ advertised s <-> holds (loops s !! relay).
Proof.
  cbv zeta. split; [vm_compute; reflexivity|].
  apply (reservations_tracked true no_standing [Ensure 0 "me" reserving_sample_nodes; Up "r1" ["r1"]; Publish "r1"; Up "r2" ["r1"; "r2"]; Publish "r2"; Down "r1" ["r2"]; Publish "r1"; Retry "r1"; Ensure 1 "me" reserving_sample_nodes]%string);
    vm_compute; reflexivity.
Defined.

(** Without that order the node can end up advertising a relay it does not hold, or none
    of those it holds: the set is read under the lock and handed to discovery outside it. *)
Example stale_relays_advertised :
  let s := reserving_after_events [Ensure 0 "me" reserving_sample_nodes; Up "r1" ["r1"]; Publish "r1"; Down "r1" []; Up "r2" ["r2"]; Publish "r2"; Publish "r1"]%string in
  advertised s = [] /\ bool_decide ("r2"%string ∈ reservedIDs s) = true /\ loops s !! "r2"%string = Some Holding /\ loops s !! "r1"%string = Some Resting.
Proof. vm_compute. done. Qed.

(** Two relays that cannot be reached hold both loops for good. *)
Example dead_relays_hold_the_slots :
  let s := reserving_after_events ([Ensure 0 "me"%string (take 2 reserving_sample_nodes)] ++
    concat (repeat [Down "r1" []; Publish "r1"; Retry "r1"; Down "r2" []; Publish "r2"; Retry "r2"]%string 3) ++ [Ensure 100 "me"%string [sample_relay "r3"%string]]) in
  map fst (map_to_list (loops s)) = ["r2"; "r1"]%string \/ map fst (map_to_list (loops s)) = ["r1"; "r2"]%string.
Proof. vm_compute. auto. Qed.
End Client.

(** ** Admission of inbound work *)

Definition maxInboundConns : Z := 256.
Definition maxConcurrentRelayPeels : Z := 64.

(** A buffered channel used as a semaphore: the send of a [select] with a [default], and
    the receive deferred by the goroutine. *)
Definition try_acquire (cap : Z) (busy : gset nat) (job : nat) : option (gset nat) :=
  if Z.of_nat (size busy) <? cap then Some ({[job]} ∪ busy) else None.

(** What [acceptConnections] does with a connection and [HandleRelayBlobAsync] with a
    blob, and the end of a goroutine. *)
Inductive job_event : Type := Arrive (job : nat) | Done (job : nat).
Inductive job_out : Type := Served (job : nat) | Shed (job : nat).

Definition admit_step (cap : Z) (busy : gset nat) (e : job_event) : gset nat * list job_out :=
  match e with
  | Arrive job => match try_acquire cap busy job with Some busy => (busy, [Served job]) | None => (busy, [Shed job]) end
  | Done job => (busy ∖ {[job]}, [])
  end.
Fixpoint admit_run (cap : Z) (busy : gset nat) (es : list job_event) : gset nat * list job_out :=
  match es with
  | [] => (busy, [])
  | e :: es => let '(busy, out) := admit_step cap busy e in let '(busy', out') := admit_run cap busy es in (busy', out ++ out')
  end.
Definition acceptConnections : list job_event -> gset nat * list job_out := admit_run maxInboundConns ∅.
Definition HandleRelayBlobAsync : list job_event -> gset nat * list job_out := admit_run maxConcurrentRelayPeels ∅.

(** Never more than the capacity at once, and something is shed only at capacity. *)
Lemma admit_bounded cap busy es : 0 <= cap -> Z.of_nat (size busy) <= cap -> Z.of_nat (size (admit_run cap busy es).1) <= cap.
Proof.
  intros Hc. revert busy. induction es as [|e es IH]; intros busy Hb; [done|]. cbn [admit_run]. destruct (admit_step cap busy e) as [b out] eqn:E.
  assert (Hb' : Z.of_nat (size b) <= cap); [|specialize (IH b Hb'); by destruct (admit_run cap b es)].
  destruct e as [job|job]; cbn [admit_step] in E.
  - unfold try_acquire in E. destruct (Z.ltb_spec (Z.of_nat (size busy)) cap); simplify_eq; [|lia]. pose proof (size_union_alt {[job]} busy). rewrite size_singleton in *.
    pose proof (subseteq_size (busy ∖ {[job]}) busy ltac:(set_solver)). lia.
  - simplify_eq. pose proof (subseteq_size (busy ∖ {[job]}) busy ltac:(set_solver)). lia.
Qed.
Lemma admit_exact cap busy job : (admit_step cap busy (Arrive job)).2 = [Shed job] <-> cap <= Z.of_nat (size busy).
Proof. cbn [admit_step]. unfold try_acquire. destruct (Z.ltb_spec (Z.of_nat (size busy)) cap); cbn; split; intros; (done || lia). Qed.

(** ** Deadlines *)

Definition ioTimeout : Z := 60 * 1000000000.

(** A [Read] or [Write] begun at [now]: it re-arms the deadline, and [progress] is when
    the peer lets it complete, if ever.  Returned: when it returns and whether it did
    what was asked. *)
Definition deadline_op (timeout now : Z) (progress : option Z) : Z * bool :=
  match progress with
  | Some t => if t <? now + timeout then (Z.max now t, true) else (now + timeout, false)
  | None => (now + timeout, false)
  end.

(** The operations of a connection one after the other, up to the first that fails; each
    is given by how long after its start the peer makes progress. *)
Fixpoint deadline_ops (timeout now : Z) (ops : list (option Z)) : Z * bool :=
  match ops with
  | [] => (now, true)
  | gap :: ops => match deadline_op timeout now ((fun g => now + g) <$> gap) with (now, true) => deadline_ops timeout now ops | r => r end
  end.

(** A transfer of any length survives if each operation makes progress in time, and a
    stall ends one timeout after the progress before it. *)
Lemma deadline_per_operation timeout now gaps :
  0 < timeout -> Forall (fun g => 0 <= g < timeout) gaps ->
  deadline_ops timeout now (map Some gaps) = (now + foldr Z.add 0 gaps, true) /\
  forall rest, deadline_ops timeout now (map Some gaps ++ None :: rest) = (now + foldr Z.add 0 gaps + timeout, false).
Proof.
  intros Ht Hg. revert now. induction Hg as [|g gaps Hg Hgs IH]; intros now; cbn [map app deadline_ops foldr].
  - split; [by rewrite Z.add_0_r|]. intros rest. cbn. by rewrite Z.add_0_r.
  - unfold deadline_op at 1 2. cbn [fmap option_fmap option_map]. destruct (Z.ltb_spec (now + g) (now + timeout)); [|lia]. rewrite Z.max_r by lia.
    destruct (IH (now + g)) as [-> H2]. split; [f_equal; lia|]. intros rest. rewrite H2. f_equal. lia.
Qed.
