(* ===== verification/Node.v ===== *)
(** * A node (swarmsync/swarmsync.go, internal/transfer/transfer.go, internal/encryption/identity.go)

    What [swarmsync.New] makes of its [Options]: the node's identity, the discovery
    service, the transfer service with every setter applied; what [Start] and [Stop] do;
    and which of the sending paths of [Forward] the public calls take.  Everything the
    operating system answers — files, sockets, devices, randomness — is in [newEnv].
    Records are updated with coqutil's setters: [r{{f := v}}] is Go's [r.f = v]. *)

From Stdlib Require Import FloatClass SpecFloat.
From stdpp Require Import pretty.
From coqutil Require Import Datatypes.RecordSetters.
From S2P Require Import Prelude Crypto Wire Net Routing Encryption Fragment PeerTable Discovery Pieces Stream Acks.
From S2P Require Import Transfer Direct Offline Reputation Chunks Pool Forward Gossip Reach.
Import DoubleBraceUpdate.

Definition maxSubChunkSize : Z := 4 * 1024 * 1024.
Definition defaultOfflineTTL : Z := 10 * 60 * 1000000000.
Definition defaultDiscoveryPort : Z := 64512.
Definition defaultDataPort : Z := 64513.
Definition DefaultSeeds : list string := ["seed.postal-studios.com:64512"%string].
Definition DefaultBridges : list string := ["seed.postal-studios.com:64514"%string].
Definition MinBridgePSKLen : Z := 16.

(** ** The transfer service's settings *)

(** [Forward.SendConfig] and the settings no send uses. *)
Record Settings : Type := mkSettings {
  se_send : SendConfig;
  se_dataPort : Z;
  se_needsRelay : bool;
  se_autoRelay : bool;
  se_coverTraffic : bool;
  se_relayJitter : Z;
  se_storeForward : bool;
  se_offlineTTL : Z;
  se_relayScoring : bool;
  se_scoring : scoring;
  se_tracer : hopTracer;
  se_streamSink : bool;
  se_onDelivered : bool
}.

Section NewTransfer.
Context `{N : NetOps} `{C : CryptoOps}.

(** [NewTransfer] once the listener is bound to [port]; [host] is [selfDialHost()]. *)
Definition NewTransfer (selfID : string) (key : bytes) (nodePriv : option bytes) (signKey : bytes) (hopCount redundancy dataShards parityShards : Z)
    (confirm : bool) (port : Z) (host : string) : Settings :=
  let redundancy := if redundancy <? 1 then 1 else redundancy in
  let sealer := if len key =? 0 then None else match NewAEADSealer key with Ok s => Some s | Err _ => None end in
  let '(dataShards, parityShards) := match sealer with None => (0, 0) | Some _ => (dataShards, parityShards) end in
  mkSettings
    (mkSendConfig (mkTransferConfig sealer nodePriv None dataShards parityShards false false) selfID signKey (JoinHostPort host (pretty port))
       hopCount false 0 0 ∅ false 0 0 redundancy maxSubChunkSize defaultStreamBlockSize 0 false false false confirm)
    port false false false 0 false 0 false (mkScoring 0 0) (mkTracer false 0 [] 0 0) false false.
End NewTransfer.

Definition SetNeedsRelay (v : bool) (t : Settings) : Settings := t{{se_needsRelay := v}}.
Definition SetAutoRelay (v : bool) (t : Settings) : Settings := t{{se_autoRelay := v}}.
Definition SetSealToRecipient (v : bool) (t : Settings) : Settings := t{{se_send -> sf_transfer -> tc_sealToRecipient := v}}.
Definition SetStrictAnonymity (v : bool) (t : Settings) : Settings := t{{se_send -> sf_strictAnon := v}}.
Definition SetOnionOverLinks (v : bool) (t : Settings) : Settings := t{{se_send -> sf_onionOverLinks := v}}.
Definition SetPerHopRouting (v : bool) (t : Settings) : Settings := t{{se_send -> sf_perHopRouting := v}}.
Definition SetAdaptiveOnion (on : bool) (minHops maxHops : Z) (t : Settings) : Settings :=
  t{{se_send -> sf_adaptiveOnion := on; se_send -> sf_minOnionHops := minHops; se_send -> sf_maxOnionHops := maxHops}}.
Definition SetAdaptiveRedundancy (on : bool) (minPaths maxPaths : Z) (t : Settings) : Settings :=
  t{{se_send -> sf_adaptiveRedundancy := on; se_send -> sf_minRedundancy := minPaths; se_send -> sf_maxRedundancy := maxPaths}}.
Definition SetSeedHosts (hosts : gset string) (t : Settings) : Settings := t{{se_send -> sf_seedHosts := hosts}}.
Definition SetPostQuantum (v : bool) (decap : bytes) (t : Settings) : Settings :=
  t{{se_send -> sf_transfer -> tc_postQuantum := v; se_send -> sf_transfer -> tc_mlkemDecap := Some decap}}.
Definition SetStoreForward (enabled : bool) (ttl : Z) (t : Settings) : Settings :=
  t{{se_storeForward := enabled; se_offlineTTL := if ttl <=? 0 then defaultOfflineTTL else ttl}}.
Definition SetSubChunkSize (size : Z) (t : Settings) : Settings :=
  t{{se_send -> sf_subChunkSize := if size <=? 0 then maxSubChunkSize else size}}.
Definition SetStreamBlockSize (size : Z) (t : Settings) : Settings :=
  t{{se_send -> sf_streamBlockSize := if size <=? 0 then defaultStreamBlockSize else size}}.
Definition SetStreamSink (set : bool) (t : Settings) : Settings := t{{se_streamSink := set}}.
Definition SetAnonymity (coverTraffic : bool) (padCell jitter : Z) (t : Settings) : Settings :=
  t{{se_coverTraffic := coverTraffic; se_send -> sf_padCell := if padCell <? 0 then 0 else padCell; se_relayJitter := if jitter <? 0 then 0 else jitter}}.
Definition SetOnDelivered (set : bool) (t : Settings) : Settings := t{{se_onDelivered := set}}.
Definition ConfigureTracing (enabled : bool) (size : Z) (t : Settings) : Settings := t{{se_tracer := SetTracing enabled size}}.
Definition ConfigureScoring (enabled : bool) (strikeLimit penance : Z) (t : Settings) : Settings :=
  t{{se_relayScoring := enabled; se_scoring := SetRelayScoring strikeLimit penance}}.

(** The goroutines [Start] launches. *)
Inductive service : Type := SvAccept | SvReapPool | SvSweepStreams | SvReservations | SvCover | SvSweepOffline | SvRedeliver | SvReputation.

Definition Transfer_Start (t : Settings) : list service :=
  [SvAccept; SvReapPool; SvSweepStreams] ++
  (if se_needsRelay t || se_autoRelay t then [SvReservations] else []) ++
  (if se_coverTraffic t then [SvCover] else []) ++
  (if se_storeForward t then [SvSweepOffline; SvRedeliver] else []) ++
  (if se_relayScoring t then [SvReputation] else []).

(** ** Options *)

Record Options : Type := mkOptions {
  o_StorageDir : string; o_Group : string; o_OnDataReceived : bool; o_OnVariableReceived : bool; o_Key : bytes;
  o_BootstrapPeers : list string; o_DisableDefaultSeeds : bool; o_BridgePeers : list string; o_BridgeListen : string; o_BridgePSK : bytes;
  o_OnDeliveryConfirmed : bool; o_AutoInterface : bool; o_LoRaDevice : string; o_LoRaBaud : Z; o_SerialDevice : string; o_SerialBaud : Z;
  o_LoRaDutyCycle : spec_float; o_SerialDutyCycle : spec_float; o_ReliableLinkTransfer : bool; o_OnionOverLinks : bool; o_PerHopRouting : bool;
  o_HopCount : Z; o_Relay : bool; o_NeedsRelay : bool; o_SealToRecipient : bool; o_PostQuantum : bool; o_AutoRelay : bool;
  o_OnReachabilityChange : bool; o_AdaptiveOnionHops : bool; o_MinOnionHops : Z; o_MaxOnionHops : Z; o_AdaptiveRedundancy : bool;
  o_MinRedundancy : Z; o_MaxRedundancy : Z; o_StrictAnonymity : bool; o_Redundancy : Z; o_DiscoveryPort : Z; o_DataPort : Z;
  o_DataShards : Z; o_ParityShards : Z; o_ConfirmDelivery : bool; o_CoverTraffic : bool; o_PadCellSize : Z; o_RelayJitter : Z;
  o_StoreForward : bool; o_StoreForwardTTL : Z; o_SubChunkSize : Z; o_RelayScoring : bool; o_RelayStrikeLimit : Z; o_RelayPenance : Z;
  o_TraceHops : bool; o_TraceSize : Z; o_OnStreamReceived : bool; o_StreamBlockSize : Z
}.

(** Go's zero value. *)
Definition zeroOptions : Options :=
  mkOptions "" "" false false [] [] false [] "" [] false false "" 0 "" 0 (S754_zero false) (S754_zero false) false false false
    0 false false false false false false false 0 0 false 0 0 false 0 0 0 0 0 false false 0 0 false 0 0 false 0 0 false 0 false 0.

Inductive Profile : Type := ProfileDirect | ProfileBalanced | ProfileAnonymous.

(** The fall-back for an unknown profile is [ProfileBalanced]. *)
Definition Preset (p : Profile) : Options :=
  match p with
  | ProfileDirect => zeroOptions{{o_HopCount := 0; o_Redundancy := 1; o_RelayScoring := false}}
  | ProfileAnonymous =>
      zeroOptions{{o_HopCount := 2; o_Redundancy := 2; o_CoverTraffic := true; o_PadCellSize := 512; o_RelayJitter := 250 * 1000000; o_RelayScoring := true}}
  | ProfileBalanced => zeroOptions{{o_HopCount := 1; o_Redundancy := 2; o_RelayScoring := true}}
  end.

Definition resolvePort (p def : Z) : Z := if p <? 0 then 0 else if p =? 0 then def else p.

(** [net.LookupHost] is [lookup]. *)
Definition resolveSeedHosts (lookup : string -> option (list string)) (seeds : list string) : gset string :=
  fold_left (fun hosts s =>
    let host := match SplitHostPort s with Some (h, _) => h | None => s end in
    hosts ∪ {[ host ]} ∪ match lookup host with Some ips => list_to_set ips | None => ∅ end) seeds ∅.

(** ** Identity *)

Definition SeedSize : Z := 32.

(** [ed25519.NewKeyFromSeed]: the private key holds its seed. *)
Class SeedOps := { key_from_seed : bytes -> bytes }.
Class SeedLaws (S : SeedOps) : Prop := {
  key_from_seed_len s : len s = SeedSize -> len (key_from_seed s) = ed_PrivateKeySize;
  key_from_seed_seed s : len s = SeedSize -> take (Z.to_nat SeedSize) (key_from_seed s) = s
}.

(** [drawn] is the seed [ed25519.GenerateKey] draws, [mkdir] and [wrote] whether the
    directory and the file could be written; a failed write may leave anything ([left]).
    The result: the file and the key. *)
Definition create_identity `{SO : SeedOps} (file drawn : option bytes) (mkdir wrote : bool) (left : option bytes) : option bytes * option bytes :=
  match drawn with
  | None => (file, None)
  | Some seed =>
      let priv := key_from_seed seed in
      if negb mkdir then (file, None) else if wrote then (Some (take (Z.to_nat SeedSize) priv), Some priv) else (left, None)
  end.

Definition LoadOrCreateIdentity `{SO : SeedOps} (file drawn : option bytes) (mkdir wrote : bool) (left : option bytes) : option bytes * option bytes :=
  match file with
  | Some seed => if len seed =? SeedSize then (file, Some (key_from_seed seed)) else create_identity file drawn mkdir wrote left
  | None => create_identity file drawn mkdir wrote left
  end.

(** ** New *)

Record newEnv : Type := mkNewEnv {
  ne_env : env;                                  (** clock, randomness, address resolution *)
  ne_tmp : string;                               (** [os.TempDir()] *)
  ne_join : string -> string -> string;          (** [filepath.Join] *)
  ne_mkdir : bool;
  ne_identity : option bytes;                    (** the identity file *)
  ne_seed : option bytes;
  ne_idwrite : bool;
  ne_storage : bool;                             (** [storage.NewStorage] *)
  ne_udp : Z -> option Z;                        (** the port a UDP socket is bound to *)
  ne_onion : option bytes;                       (** [GenerateX25519KeyPair] *)
  ne_tcp : Z -> option Z;
  ne_host : string;
  ne_files : gmap string bytes;                  (** the peer cache *)
  ne_iface : string -> bool;                     (** whether a named interface can be opened *)
  ne_lookup : string -> option (list string);
  ne_mlkem : option bytes                        (** [GenerateMLKEMKey] *)
}.

Inductive new_err : Type := EKeyLength (n : Z) | EStorageDir | EIdentity | EStorage | EDiscovery | EOnionKey | ETransfer.

Record SyncSwarm : Type := mkSwarm {
  sw_opts : Options;
  sw_selfID : string;
  sw_discovery : Disc;
  sw_discoveryPort : Z;
  sw_bridges : gmap string bridgeStat;
  sw_bridgePSK : bytes;
  sw_peerCache : string;
  sw_reachEnabled : bool;
  sw_transfer : Settings;
  sw_running : bool;
  sw_stopped : bool                              (** contexts cancelled, sockets closed *)
}.

Section New.
Context `{N : NetOps} `{C : CryptoOps} `{J : DiscJson} `{GJ : GossipJson} `{SO : SeedOps}.

Definition add_iface (present opened : bool) (name : string) (D : Disc) : Disc := if present && opened then AddAutoInterface name D else D.
Definition add_bridge (ne : newEnv) (name addr : string) (Dm : Disc * gmap string bridgeStat) : Disc * gmap string bridgeStat :=
  if ne_iface ne name then AddBridge (e_now (ne_env ne)) name addr Dm else Dm.

(** The interfaces of the node, in the order they are added. *)
Definition open_interfaces (ne : newEnv) (opts : Options) (D : Disc) : Disc * gmap string bridgeStat :=
  let Dm := (D, ∅) in
  let Dm := if String.eqb (o_BridgeListen opts) "" then Dm else add_bridge ne "bridge-listen" (o_BridgeListen opts) Dm in
  let Dm := fold_left (fun Dm addr => add_bridge ne ("bridge-" ++ addr)%string addr Dm) (o_BridgePeers opts) Dm in
  let D := add_iface (o_AutoInterface opts) (ne_iface ne "auto-lan") "auto-lan" Dm.1 in
  let D := add_iface (negb (String.eqb (o_LoRaDevice opts) "")) (ne_iface ne "lora0") "lora0" D in
  let D := add_iface (negb (String.eqb (o_SerialDevice opts) "")) (ne_iface ne "serial0") "serial0" D in
  (D, Dm.2).

(** The setters, in the order they are called. *)
Definition configure (ne : newEnv) (opts : Options) (t : Settings) : Settings :=
  let t := SetNeedsRelay (o_NeedsRelay opts) t in
  let t := SetAutoRelay (o_AutoRelay opts) t in
  let t := SetStrictAnonymity (o_StrictAnonymity opts) t in
  let t := SetOnionOverLinks (o_OnionOverLinks opts) t in
  let t := if o_OnDeliveryConfirmed opts then SetOnDelivered true t else t in
  let t := SetPerHopRouting (o_PerHopRouting opts) t in
  let t := SetAdaptiveOnion (o_AdaptiveOnionHops opts) (o_MinOnionHops opts) (o_MaxOnionHops opts) t in
  let t := SetAdaptiveRedundancy (o_AdaptiveRedundancy opts) (o_MinRedundancy opts) (o_MaxRedundancy opts) t in
  let t := if o_DisableDefaultSeeds opts then t else SetSeedHosts (resolveSeedHosts (ne_lookup ne) DefaultSeeds) t in
  let t := SetSealToRecipient (o_SealToRecipient opts) t in
  let t := match (if o_PostQuantum opts then ne_mlkem ne else None) with Some decap => SetPostQuantum true decap t | None => t end in
  let t := SetAnonymity (o_CoverTraffic opts) (o_PadCellSize opts) (o_RelayJitter opts) t in
  let t := SetStoreForward (o_StoreForward opts) (o_StoreForwardTTL opts) t in
  let t := SetSubChunkSize (o_SubChunkSize opts) t in
  let t := SetStreamBlockSize (o_StreamBlockSize opts) t in
  let t := SetStreamSink (o_OnStreamReceived opts) t in
  let t := ConfigureTracing (o_TraceHops opts) (o_TraceSize opts) t in
  ConfigureScoring (o_RelayScoring opts) (o_RelayStrikeLimit opts) (o_RelayPenance opts) t.

Definition New (ne : newEnv) (opts : Options) : result new_err SyncSwarm :=
  let opts := if String.eqb (o_StorageDir opts) "" then opts{{o_StorageDir := ne_join ne (ne_tmp ne) "swarmsync"}} else opts in
  if negb (len (o_Key opts) =? 0) && negb (len (o_Key opts) =? 32) then Err (EKeyLength (len (o_Key opts)))
  else if negb (ne_mkdir ne) then Err EStorageDir
  else match (LoadOrCreateIdentity (ne_identity ne) (ne_seed ne) (ne_mkdir ne) (ne_idwrite ne) None).2 with
  | None => Err EIdentity
  | Some signPriv =>
  let selfID := DeriveNodeID (ed_public signPriv) in
  if negb (ne_storage ne) then Err EStorage
  else match ne_udp ne (resolvePort (o_DiscoveryPort opts) defaultDiscoveryPort) with
  | None => Err EDiscovery
  | Some dport =>
  let D := SetSigningKey (NewDiscovery selfID) signPriv in
  match ne_onion ne with
  | None => Err EOnionKey
  | Some nodePriv =>
  match ne_tcp ne (resolvePort (o_DataPort opts) defaultDataPort) with
  | None => Err ETransfer
  | Some port =>
  let trans := NewTransfer selfID (o_Key opts) (Some nodePriv) signPriv (o_HopCount opts) (o_Redundancy opts) (o_DataShards opts)
                 (o_ParityShards opts) (o_ConfirmDelivery opts) port (ne_host ne) in
  let D := SetIdentity D (x_public nodePriv) (u16 port) (if o_Relay opts then ["relay"%string] else []) in
  let D := SetBootstrapPeers D (o_BootstrapPeers opts ++ if o_DisableDefaultSeeds opts then [] else DefaultSeeds) in
  let cache := ne_join ne (o_StorageDir opts) "discovery-peers.json" in
  let D := SetPeerCache cache (ne_files ne) D in
  let '(D, bridges) := open_interfaces ne opts D in
  let D := match (if o_PostQuantum opts then ne_mlkem ne else None) with Some decap => SetMLKEMKey D (ml_public decap) | None => D end in
  Ok (mkSwarm opts selfID D dport bridges (o_BridgePSK opts) cache (o_AutoRelay opts || o_OnReachabilityChange opts)
        (configure ne opts trans) false false)
  end end end end.

(** ** Lifecycle and callbacks *)

(** What [Start] launches: the discovery service and the transfer services. *)
Definition Start (s : SyncSwarm) : SyncSwarm * list service :=
  if sw_running s then (s, []) else (s{{sw_running := true}}, Transfer_Start (sw_transfer s)).

(** Also returned: the peer cache as [Stop] leaves it. *)
Definition Stop (s : SyncSwarm) (write : write_result) (renamed : bool) (it : list (string * Node)) (fs : gmap string bytes) : SyncSwarm * gmap string bytes :=
  if negb (sw_running s) then (s, fs)
  else (s{{sw_running := false; sw_stopped := true}}, savePeerCache (sw_peerCache s) it write renamed fs).

(** The callback AutoNAT is given; also returned: what the application is told. *)
Definition onReachability (s : SyncSwarm) (reachable : bool) : SyncSwarm * list bool :=
  let opts := sw_opts s in
  (if o_AutoRelay opts then s{{sw_transfer ::= SetNeedsRelay (o_NeedsRelay opts || negb reachable)}} else s,
   if o_OnReachabilityChange opts then [reachable] else []).

(** Reassembled payloads; [V] are the values [encoding/gob] carries. *)
Inductive app_event (V : Type) : Type := AppData (data : bytes) | AppVariable (v : V).
#[global] Arguments AppData {V} data.
#[global] Arguments AppVariable {V} v.

Definition onData {V} (gob_dec : bytes -> option V) (opts : Options) (data : bytes) (variable : bool) : list (app_event V) :=
  if variable then
    if o_OnVariableReceived opts then match gob_dec data with Some v => [AppVariable v] | None => [] end else []
  else if o_OnDataReceived opts then [AppData data] else [].
End New.

(** ** Sending *)

Section Sending.
Context `{R : RSOps} `{C : CryptoOps} `{N : NetOps} `{SJ : StoreJson} `{RJ : ReplyJson} (shuffle : Z -> list nat -> list Peer -> list Peer).
Context (s : SyncSwarm) (env : sendEnv) (ord : acks -> list (bytes * pendingAck)) (id tok : bytes) (ds : list draws).

Abbreviation sent := (world * Storage * acks * result fwd_err unit)%type.

(** A payload either takes the transfer service or, with [ReliableLinkTransfer], a
    resource over a link dialled to the destination itself. *)
Definition SendTo (data : bytes) (nodeID : string) (w : world) (st : Storage) (m : acks) : sent + option (string * bytes) :=
  if o_ReliableLinkTransfer (sw_opts s)
  then inr (DialNode_target (len (di_signPriv (sw_discovery s)) =? ed_PrivateKeySize) (sw_discovery s) nodeID)
  else inl (SendDataTracked shuffle (se_send (sw_transfer s)) env ord id tok ds data "" nodeID false w st m).

Definition Send (data : bytes) (w : world) (st : Storage) (m : acks) : sent :=
  SendDataTracked shuffle (se_send (sw_transfer s)) env ord id tok ds data (o_Group (sw_opts s)) "" false w st m.

(** [gob] is the encoding of the variable, if it can be encoded. *)
Definition SendVariableTo (gob : option bytes) (nodeID : string) (w : world) (st : Storage) (m : acks) : option sent :=
  match gob with
  | None => None
  | Some b => Some (SendDataTracked shuffle (se_send (sw_transfer s)) env ord id tok ds b "" nodeID true w st m)
  end.

Definition SwarmStream (draw : Z -> list draws) (r : reader) (nodeID : string) (w : world) (m : acks) : world * acks * result fwd_err unit :=
  SendStream shuffle (se_send (sw_transfer s)) env ord id tok draw r nodeID w m.
End Sending.

(** ** Well-formed nodes *)

Section Made.
Context `{N : NetOps} `{C : CryptoOps} `{L : !CryptoLaws C} `{J : DiscJson} `{GJ : GossipJson} `{SO : SeedOps} `{SL : !SeedLaws SO}.

Lemma open_interfaces_only ne opts D : exists l, (open_interfaces ne opts D).1 = set_ifaces D l.
Proof using Type.
  assert (Hif : forall p o n D', (exists l, D' = set_ifaces D l) -> exists l, add_iface p o n D' = set_ifaces D l).
  { intros p o n D' [l ->]. unfold add_iface. destruct (p && o); by eexists. }
  assert (Hbr : forall n a Dm, (exists l, Dm.1 = set_ifaces D l) -> exists l, (add_bridge ne n a Dm).1 = set_ifaces D l).
  { intros n a Dm [l Hl]. unfold add_bridge. destruct (ne_iface ne n); [|by exists l]. cbn. rewrite Hl. by eexists. }
  unfold open_interfaces. cbn [fst]. repeat apply Hif.
  assert (Hf : forall l Dm, (exists k, Dm.1 = set_ifaces D k) -> exists k, (fold_left (fun Dm addr => add_bridge ne ("bridge-" ++ addr)%string addr Dm) l Dm).1 = set_ifaces D k).
  { intros l. induction l as [|a l IH]; intros Dm HDm; [done|]. cbn [fold_left]. by apply IH, Hbr. }
  apply Hf. destruct (String.eqb _ _); [exists (di_ifaces D); by destruct D|]. apply Hbr. exists (di_ifaces D). by destruct D.
Qed.

Lemma SetPeerCache_only path fs D : exists l, SetPeerCache path fs D = set_bootstrap D (d_bootstrap (di_peers D) ++ l).
Proof using Type.
  unfold SetPeerCache. destruct (String.eqb path ""); [exists []; rewrite app_nil_r; by destruct D as [[]]|]. rewrite addBootstrap_all.
  destruct (boot_add_all (loadPeerCache path fs) (d_bootstrap (di_peers D))) as (new & -> & _ & _). by exists new.
Qed.

(** The identity key a start loads or makes is always a whole key. *)
Lemma identity_key file drawn mkdir wrote left file' priv :
  (forall s, drawn = Some s -> len s = SeedSize) -> LoadOrCreateIdentity file drawn mkdir wrote left = (file', Some priv) ->
  len priv = ed_PrivateKeySize /\ file' = Some (take (Z.to_nat SeedSize) priv).
Proof using SL.
  intros Hd. assert (Hc : forall f, create_identity f drawn mkdir wrote left = (file', Some priv) -> len priv = ed_PrivateKeySize /\ file' = Some (take (Z.to_nat SeedSize) priv)).
  { intros f. unfold create_identity. destruct drawn as [s|]; [|done]. destruct mkdir; [|done]. destruct wrote; [|done]. cbn [negb]. intros [= <- <-].
    split; [|done]. apply key_from_seed_len. by apply Hd. }
  unfold LoadOrCreateIdentity. destruct file as [seed|]; [|apply Hc]. destruct (Z.eqb_spec (len seed) SeedSize) as [Hl|]; [|apply Hc].
  intros [= <- <-]. split; [by apply key_from_seed_len|]. by rewrite key_from_seed_seed.
Qed.

(** A node's identity survives its restarts: once a start has returned a key, every
    later start that finds the file it left returns the same key, whatever it draws and
    whether or not it could write. *)
Theorem identity_persists file drawn mkdir wrote left file' priv drawn' mkdir' wrote' left' :
  (forall s, drawn = Some s -> len s = SeedSize) -> LoadOrCreateIdentity file drawn mkdir wrote left = (file', Some priv) ->
  LoadOrCreateIdentity file' drawn' mkdir' wrote' left' = (file', Some priv).
Proof using SL.
  intros Hd H. assert (Hseed : exists s, len s = SeedSize /\ priv = key_from_seed s).
  { revert H. unfold LoadOrCreateIdentity. assert (Hc : forall f, create_identity f drawn mkdir wrote left = (file', Some priv) -> exists s, len s = SeedSize /\ priv = key_from_seed s).
    { intros f. unfold create_identity. destruct drawn as [s|]; [|done]. destruct mkdir; [|done]. destruct wrote; [|done]. cbn [negb]. intros [= <- <-]. exists s. split; [by apply Hd|done]. }
    destruct file as [seed|]; [|apply Hc]. destruct (Z.eqb_spec (len seed) SeedSize); [|apply Hc]. intros [= <- <-]. by exists seed. }
  destruct Hseed as (s & Hl & ->). apply identity_key in H as [_ ->]; [|done]. rewrite key_from_seed_seed by done. unfold LoadOrCreateIdentity. by rewrite Hl.
Qed.

(** What [New] makes, field by field. *)
Lemma New_inv ne opts sw : New ne opts = Ok sw ->
  exists signPriv nodePriv port dir, let opts' := opts{{o_StorageDir := dir}} in
    (len (o_Key opts) = 0 \/ len (o_Key opts) = 32) /\
    (LoadOrCreateIdentity (ne_identity ne) (ne_seed ne) (ne_mkdir ne) (ne_idwrite ne) None).2 = Some signPriv /\
    ne_onion ne = Some nodePriv /\ ne_tcp ne (resolvePort (o_DataPort opts) defaultDataPort) = Some port /\ sw_opts sw = opts' /\
    sw_transfer sw = configure ne opts' (NewTransfer (DeriveNodeID (ed_public signPriv)) (o_Key opts) (Some nodePriv) signPriv (o_HopCount opts) (o_Redundancy opts)
      (o_DataShards opts) (o_ParityShards opts) (o_ConfirmDelivery opts) port (ne_host ne)) /\
    sw_selfID sw = DeriveNodeID (ed_public signPriv) /\ sw_running sw = false /\ sw_stopped sw = false /\
    let D := sw_discovery sw in
    selfID D = DeriveNodeID (ed_public signPriv) /\ di_signPriv D = signPriv /\ di_pubKey D = x_public nodePriv /\ di_port D = u16 port /\
    di_capabilities D = (if o_Relay opts then ["relay"%string] else []) /\
    di_mlkemPub D = match (if o_PostQuantum opts then ne_mlkem ne else None) with Some decap => ml_public decap | None => [] end.
Proof using Type.
  unfold New. set (opts' := if String.eqb (o_StorageDir opts) "" then _ else opts).
  assert (Ho : exists dir, opts' = opts{{o_StorageDir := dir}}) by (unfold opts'; destruct (String.eqb _ ""); [by eexists|exists (o_StorageDir opts); by destruct opts]).
  destruct Ho as [dir Ho]. clearbody opts'. subst opts'. set (opts' := opts{{o_StorageDir := dir}}).
  change (o_Key opts') with (o_Key opts). change (o_PostQuantum opts') with (o_PostQuantum opts). destruct (_ && _) eqn:Ek; [done|]. destruct (ne_mkdir ne) eqn:Em; [|done]. cbn [negb].
  destruct (_.2) as [signPriv|] eqn:Ei; [|done]. destruct (ne_storage ne); [|done]. cbn [negb]. destruct (ne_udp ne _) as [dport|]; [|done].
  destruct (ne_onion ne) as [nodePriv|] eqn:Eo; [|done]. destruct (ne_tcp ne _) as [port|] eqn:Et; [|done].
  match goal with |- context [open_interfaces ne opts' ?D] => set (D0 := D); destruct (open_interfaces_only ne opts' D0) as [l Hl]; destruct (open_interfaces ne opts' D0) as [D1 bridges] end.
  cbn [fst] in Hl. intros [= <-]. exists signPriv, nodePriv, port, dir. cbn [sw_opts sw_transfer sw_selfID sw_running sw_stopped sw_discovery].
  match goal with D := SetPeerCache ?p ?f ?B |- _ => destruct (SetPeerCache_only p f B) as [k Hk]; fold D in Hk end.
  split_and!; try done.
  - apply andb_false_iff in Ek as [Ek|Ek]; apply negb_false_iff, Z.eqb_eq in Ek; auto.
  - destruct (if o_PostQuantum opts then _ else _); subst D1; by rewrite Hk.
  - destruct (if o_PostQuantum opts then _ else _); subst D1; by rewrite Hk.
  - destruct (if o_PostQuantum opts then _ else _); subst D1; by rewrite Hk.
  - destruct (if o_PostQuantum opts then _ else _); subst D1; by rewrite Hk.
  - destruct (if o_PostQuantum opts then _ else _); subst D1; by rewrite Hk.
  - destruct (if o_PostQuantum opts then _ else _); subst D1; by rewrite Hk.
Qed.

(** The settings the components rely on: sizes, limits and lifetimes in range, erasure
    coding only with a key to seal shards with, the key decided by the options. *)
Record settings_ok (opts : Options) (t : Settings) : Prop := {
  so_redundancy : 1 <= sf_redundancy (se_send t);
  so_subChunk : 0 < sf_subChunkSize (se_send t);
  so_block : 0 < sf_streamBlockSize (se_send t);
  so_pad : 0 <= sf_padCell (se_send t);
  so_jitter : 0 <= se_relayJitter t;
  so_ttl : 0 < se_offlineTTL t;
  so_strikes : 0 < sg_strikeLimit (se_scoring t);
  so_penance : 0 < sg_penance (se_scoring t);
  so_sealer : tc_sealer (sf_transfer (se_send t)) = if len (o_Key opts) =? 0 then None else Some (mkSealer (aead_Seal (o_Key opts)) (aead_Open (o_Key opts)));
  so_shards : tc_dataShards (sf_transfer (se_send t)) <> 0 \/ tc_parityShards (sf_transfer (se_send t)) <> 0 -> len (o_Key opts) = 32;
  so_pq : tc_postQuantum (sf_transfer (se_send t)) = true -> is_Some (tc_mlkemDecap (sf_transfer (se_send t)))
}.

(** The transfer service and the discovery service of a node agree on who it is, and
    discovery advertises the public halves of the keys the transfer service opens
    with. *)
Record node_ok (sw : SyncSwarm) : Prop := {
  no_settings : settings_ok (sw_opts sw) (sw_transfer sw);
  no_identified : identified (sw_discovery sw);
  no_self : sf_selfID (se_send (sw_transfer sw)) = selfID (sw_discovery sw) /\ sw_selfID sw = selfID (sw_discovery sw);
  no_sign : sf_signKey (se_send (sw_transfer sw)) = di_signPriv (sw_discovery sw);
  no_onion : exists priv, tc_nodePriv (sf_transfer (se_send (sw_transfer sw))) = Some priv /\ di_pubKey (sw_discovery sw) = x_public priv;
  no_mlkem : match tc_mlkemDecap (sf_transfer (se_send (sw_transfer sw))) with
             | Some decap => di_mlkemPub (sw_discovery sw) = ml_public decap
             | None => di_mlkemPub (sw_discovery sw) = []
             end;
  no_port : di_port (sw_discovery sw) = u16 (se_dataPort (sw_transfer sw));
  no_relay : isTransport (sw_discovery sw) = o_Relay (sw_opts sw)
}.

(** What [configure] leaves alone, and what it sets. *)
Lemma configure_spec ne opts t :
  let t' := configure ne opts t in
  (sf_redundancy (se_send t') = sf_redundancy (se_send t) /\ tc_sealer (sf_transfer (se_send t')) = tc_sealer (sf_transfer (se_send t)) /\
   tc_dataShards (sf_transfer (se_send t')) = tc_dataShards (sf_transfer (se_send t)) /\ tc_parityShards (sf_transfer (se_send t')) = tc_parityShards (sf_transfer (se_send t)) /\
   sf_selfID (se_send t') = sf_selfID (se_send t) /\ sf_signKey (se_send t') = sf_signKey (se_send t) /\
   tc_nodePriv (sf_transfer (se_send t')) = tc_nodePriv (sf_transfer (se_send t)) /\ se_dataPort t' = se_dataPort t /\ sf_hopCount (se_send t') = sf_hopCount (se_send t)) /\
  sf_strictAnon (se_send t') = o_StrictAnonymity opts /\ sf_adaptiveOnion (se_send t') = o_AdaptiveOnionHops opts /\ sf_perHopRouting (se_send t') = o_PerHopRouting opts /\
  tc_sealToRecipient (sf_transfer (se_send t')) = o_SealToRecipient opts /\ se_needsRelay t' = o_NeedsRelay opts /\
  (tc_mlkemDecap (sf_transfer (se_send t')), tc_postQuantum (sf_transfer (se_send t'))) =
    match (if o_PostQuantum opts then ne_mlkem ne else None) with
    | Some decap => (Some decap, true)
    | None => (tc_mlkemDecap (sf_transfer (se_send t)), tc_postQuantum (sf_transfer (se_send t)))
    end.
Proof using Type.
  unfold configure. destruct (o_OnDeliveryConfirmed opts), (o_DisableDefaultSeeds opts), (if o_PostQuantum opts then ne_mlkem ne else None); cbn; split_and!; reflexivity.
Qed.

Lemma DeriveNodeID_u32 k : is_u32 (len (str_bytes (DeriveNodeID k))).
Proof using L.
  unfold DeriveNodeID. destruct (len k =? 0); [vm_compute; split; congruence|]. unfold EncodeToString. rewrite bytes_str_bytes.
  assert (H : forall l, len (hex_bytes l) = 2 * len l) by (intros l; induction l as [|b l IH]; [done|]; cbn [hex_bytes]; rewrite !len_cons, IH; lia).
  rewrite H. pose proof (sha256_len k). unfold len in *. rewrite length_take. unfold is_u32. lia.
Qed.

(** [NewTransfer], field by field. *)
Lemma NewTransfer_spec self key priv signKey hops red dsh psh confirm port host :
  len key = 0 \/ len key = 32 ->
  let t := NewTransfer self key priv signKey hops red dsh psh confirm port host in
  let c := sf_transfer (se_send t) in
  1 <= sf_redundancy (se_send t) /\ sf_selfID (se_send t) = self /\ sf_signKey (se_send t) = signKey /\ sf_hopCount (se_send t) = hops /\ se_dataPort t = port /\
  tc_nodePriv c = priv /\ tc_mlkemDecap c = None /\ tc_postQuantum c = false /\
  tc_sealer c = (if len key =? 0 then None else Some (mkSealer (aead_Seal key) (aead_Open key))) /\
  (tc_dataShards c <> 0 \/ tc_parityShards c <> 0 -> len key = 32).
Proof using Type.
  intros Hkey. cbv zeta. unfold NewTransfer. assert (Hred : 1 <= (if red <? 1 then 1 else red)) by (destruct (Z.ltb_spec red 1); lia).
  destruct Hkey as [Hkey|Hkey]; [|rewrite NewAEADSealer_ok by done]; rewrite Hkey; cbn; split_and!; try done. by intros [|].
Qed.

(** The ranges [configure] establishes, whatever the options. *)
Lemma configure_ranges ne opts t :
  let t' := configure ne opts t in
  0 < sf_subChunkSize (se_send t') /\ 0 < sf_streamBlockSize (se_send t') /\ 0 <= sf_padCell (se_send t') /\ 0 <= se_relayJitter t' /\
  0 < se_offlineTTL t' /\ 0 < sg_strikeLimit (se_scoring t') /\ 0 < sg_penance (se_scoring t').
Proof using Type.
  assert (Hd : forall v d, 0 < d -> 0 < (if v <=? 0 then d else v)) by (intros v d Hd; destruct (Z.leb_spec v 0); lia).
  assert (Hc : forall v, 0 <= (if v <? 0 then 0 else v)) by (intros v; destruct (Z.ltb_spec v 0); lia).
  split_and!; [exact (Hd (o_SubChunkSize opts) maxSubChunkSize eq_refl)|exact (Hd (o_StreamBlockSize opts) defaultStreamBlockSize eq_refl)|exact (Hc (o_PadCellSize opts))
    |exact (Hc (o_RelayJitter opts))|exact (Hd (o_StoreForwardTTL opts) defaultOfflineTTL eq_refl)|exact (Hd (o_RelayStrikeLimit opts) defaultStrikeLimit eq_refl)
    |exact (Hd (o_RelayPenance opts) defaultPenance eq_refl)].
Qed.

(** See [New_wf]. *)
Lemma New_ok ne opts sw :
  (forall s, ne_seed ne = Some s -> len s = SeedSize) -> New ne opts = Ok sw -> node_ok sw.
Proof using L SL.
  intros Hseed (signPriv & nodePriv & port & dir & Hkey & Hid & _ & _ & Hopts & Htr & Hself & _ & _ & HsD & HpD & HxD & Hpo & Hca & Hml)%New_inv. cbv zeta in *.
  assert (Hlen : len signPriv = ed_PrivateKeySize).
  { destruct (LoadOrCreateIdentity _ _ _ _ _) as [f [p|]] eqn:E; [|done]. cbn in Hid. injection Hid as ->. by eapply identity_key in E as [? _]. }
  set (opts' := opts{{o_StorageDir := dir}}) in *. set (t0 := NewTransfer _ _ _ _ _ _ _ _ _ _ _) in *.
  destruct (NewTransfer_spec (DeriveNodeID (ed_public signPriv)) (o_Key opts) (Some nodePriv) signPriv (o_HopCount opts) (o_Redundancy opts) (o_DataShards opts)
    (o_ParityShards opts) (o_ConfirmDelivery opts) port (ne_host ne) Hkey) as (T1 & T2 & T3 & _ & T5 & T6 & T7 & T8 & T9 & T10). fold t0 in T1, T2, T3, T5, T6, T7, T8, T9, T10.
  destruct (configure_spec ne opts' t0) as ((C1 & C2 & C3 & C4 & C5 & C6 & C7 & C8 & _) & _ & _ & _ & _ & _ & Cpq).
  destruct (configure_ranges ne opts' t0) as (R1 & R2 & R3 & R4 & R5 & R6 & R7). cbv zeta in *. rewrite <- Htr in *. clearbody t0. clear Htr.
  change (o_PostQuantum opts') with (o_PostQuantum opts) in Cpq. rewrite T7, T8 in Cpq.
  split; [rewrite Hopts; split; try done| | | | | | |].
  - by rewrite C1.
  - by rewrite C2.
  - rewrite C3, C4. exact T10.
  - destruct (if o_PostQuantum opts then _ else _); injection Cpq as -> ->; [by eexists|done].
  - split; [by rewrite HpD|by rewrite HsD, HpD|]. rewrite HsD. apply DeriveNodeID_u32.
  - rewrite C5, Hself, HsD. by rewrite T2.
  - by rewrite C6, HpD.
  - exists nodePriv. by rewrite C7.
  - rewrite Hml. destruct (if o_PostQuantum opts then _ else _); injection Cpq as -> _; done.
  - by rewrite Hpo, C8, T5.
  - unfold isTransport. rewrite Hca, Hopts. change (o_Relay opts') with (o_Relay opts). by destruct (o_Relay opts).
Qed.

(** C15: Every node [New] returns is well-formed: whatever the options, the settings are
    in the ranges the components rely on, erasure coding is on only with a 32-byte key,
    the node's ID is derived from the signing key both services hold, and the keys and
    the port that discovery advertises are those the transfer service answers with. *)
Theorem New_wf ne opts sw :
  (forall s, ne_seed ne = Some s -> len s = SeedSize) -> New ne opts = Ok sw -> node_ok sw.
Proof using L SL. apply New_ok. Qed.
End Made.

(** ** Nodes at work *)

(** What sending asks of discovery: every [GetActiveNodes] and [NodeByID] answer comes
    from a table in which each peer is filed under the identity of its key. *)
Record backed `{C : CryptoOps} (env : sendEnv) (destNode : string) : Prop := {
  bk_active k : exists d it, key_bound d /\ range_of (d_nodes d) it /\ v_active env k = GetActiveNodes it;
  bk_node n : v_node env = Some n -> exists d, key_bound d /\ lookupLocal d destNode = Some n
}.

Lemma active_ids_nodup `{C : CryptoOps} d it : key_bound d -> range_of (d_nodes d) it -> NoDup (map n_ID (GetActiveNodes it)).
Proof.
  intros Hk Hr. apply map_nodup_filter. assert (E : map n_ID (map snd it) = it.*1); [|rewrite E; by eapply range_keys_nodup].
  assert (Hid : forall k n, (k, n) ∈ it -> n_ID n = k) by (intros k n H; by apply (range_elem _ _ _ _ Hr), Hk in H as [? _]). revert Hid. clear.
  induction it as [|[k n] it IH]; intros Hid; [done|]. cbn. rewrite (Hid k n) by constructor. f_equal. apply IH. intros k' n' H. apply Hid. by constructor.
Qed.

Lemma backed_active `{C : CryptoOps} env dest : backed env dest -> forall k, NoDup (map n_ID (v_active env k)).
Proof. intros [Ha _] k. destruct (Ha k) as (d & it & Hk & Hr & ->). by eapply active_ids_nodup. Qed.
Lemma backed_node `{C : CryptoOps} env dest : backed env dest -> forall n, v_node env = Some n -> n_ID n = dest.
Proof. intros [_ Hn] n (d & Hk & Hl)%Hn. by apply Hk in Hl as [? _]. Qed.

Section Work.
Context `{R : RSOps} `{C : CryptoOps} `{L : !CryptoLaws C} `{N : NetOps} `{J : DiscJson} `{GJ : GossipJson} `{SO : SeedOps} `{SL : !SeedLaws SO} `{SJ : StoreJson} `{RJ : ReplyJson}.

(** C8: A node configured for anonymity stays anonymous on its three sending calls.
    Take a node made by [New] with [StrictAnonymity] and a positive [HopCount], or with
    [AdaptiveOnionHops], and in either case without [ReliableLinkTransfer]; a peer table
    that discovery can hold ([backed]: one entry per ID); and a named destination.  Then
    [SendTo], [SendVariableTo] and [SendStream] hand nothing to the network but onions
    through relays other than the destination with no sender inside, whatever the
    network does.  With [ReliableLinkTransfer] on, [SendTo] instead sends over a link,
    which is not anonymous ([reliable_link_is_not_anonymous]); with [StrictAnonymity]
    but neither a hop count nor adaptive routing the code sends directly. *)
Theorem node_anonymous shuffle (Hshuffle : forall seed before l, shuffle seed before l ≡ₚ l) ne opts sw env dest ord id tok ds draw data r w st m :
  New ne opts = Ok sw -> (0 < o_HopCount opts /\ o_StrictAnonymity opts = true) \/ o_AdaptiveOnionHops opts = true -> o_ReliableLinkTransfer opts = false ->
  backed env dest -> dest <> ""%string ->
  let quiet := grows (anonymous_emission (se_send (sw_transfer sw)) env dest) w in
  (exists o, SendTo shuffle sw env ord id tok ds data dest w st m = inl o /\ quiet o.1.1.1) /\
  (exists o, SendVariableTo shuffle sw env ord id tok ds (Some data) dest w st m = Some o /\ quiet o.1.1.1) /\
  quiet (SwarmStream shuffle sw env ord id tok draw r dest w m).1.1.
Proof using Type.
  intros (signPriv & nodePriv & port & dir & Hkey & _ & _ & _ & Hopts & Htr & _)%New_inv Hanon Hrel Hb Hd quiet. cbv zeta in *.
  set (opts' := opts{{o_StorageDir := dir}}) in *. set (t0 := NewTransfer _ _ _ _ _ _ _ _ _ _ _) in *.
  destruct (NewTransfer_spec (DeriveNodeID (ed_public signPriv)) (o_Key opts) (Some nodePriv) signPriv (o_HopCount opts) (o_Redundancy opts) (o_DataShards opts)
    (o_ParityShards opts) (o_ConfirmDelivery opts) port (ne_host ne) Hkey) as (_ & _ & _ & T4 & _ & T6 & _). fold t0 in T4, T6.
  destruct (configure_spec ne opts' t0) as ((_ & _ & _ & _ & _ & _ & C7 & _ & C9) & Cs & Ca & _). cbv zeta in *. rewrite <- Htr in *. clearbody t0. clear Htr.
  change (o_StrictAnonymity opts') with (o_StrictAnonymity opts) in Cs. change (o_AdaptiveOnionHops opts') with (o_AdaptiveOnionHops opts) in Ca.
  assert (Hclosed : failClosed (se_send (sw_transfer sw)) = true) by (unfold failClosed; rewrite Cs, Ca; destruct Hanon as [[_ ->] | ->]; [done|apply orb_true_r]).
  assert (Hwant : wantForward (se_send (sw_transfer sw)) = true).
  { unfold wantForward. rewrite C9, T4, Ca. destruct Hanon as [[Hh _] | ->]; [by rewrite (proj2 (Z.ltb_lt _ _) Hh)|apply orb_true_r]. }
  assert (Hpriv : is_Some (tc_nodePriv (sf_transfer (se_send (sw_transfer sw))))) by (rewrite C7, T6; by eexists).
  assert (Hg : forall var, quiet (SendDataTracked shuffle (se_send (sw_transfer sw)) env ord id tok ds data "" dest var w st m).1.1.1).
  { intros var. by apply SendDataTracked_grows; [..|by eapply backed_active|by eapply backed_node|]. }
  split_and!.
  - unfold SendTo. rewrite Hopts. change (o_ReliableLinkTransfer opts') with (o_ReliableLinkTransfer opts). rewrite Hrel. eexists. split; [reflexivity|apply Hg].
  - eexists. split; [reflexivity|apply Hg].
  - by apply SendStream_grows; [..|by eapply backed_active|].
Qed.

(** What one node seals another opens.  For any two nodes made by [New]: if the
    sender seals to its recipient, the sealer it chooses from what the recipient's
    discovery packet advertises — post-quantum exactly if both enabled it — is opened
    by the sealer the recipient picks for a transfer marked that way; and with sealing
    to the recipient off, two nodes with the same 32-byte key open each other's
    fragments. *)
Theorem sealing_agreement neA optsA A neB optsB B (n : Node) sc :
  (forall s, ne_seed neA = Some s -> len s = SeedSize) -> (forall s, ne_seed neB = Some s -> len s = SeedSize) ->
  New neA optsA = Ok A -> New neB optsB = Ok B ->
  n_PubKey n = dp_PubKey (discoveryPayload (sw_discovery B)) -> n_MLKEMPub n = dp_MLKEMPub (discoveryPayload (sw_discovery B)) ->
  let cA := sf_transfer (se_send (sw_transfer A)) in let cB := sf_transfer (se_send (sw_transfer B)) in
  let '(sealer, hybrid, pq) := contentSealer cA (Some n) in
  hybrid = o_SealToRecipient optsA /\
  (pq = true <-> hybrid = true /\ tc_postQuantum cA = true /\ exists d, tc_mlkemDecap cB = Some d /\ 0 < len (ml_public d)) /\
  (hybrid = true \/ o_Key optsA = o_Key optsB /\ len (o_Key optsA) = 32 ->
   sc_HybridSealed sc = hybrid -> sc_PQ sc = pq -> exists s o, sealer = Some s /\ recipientOpener cB sc = Some o /\ SealerPair s o).
Proof using L SL.
  intros HsA HsB HA HB Hn1 Hn2 cA cB. pose proof (New_ok neB optsB B HsB HB) as WB. pose proof (New_ok neA optsA A HsA HA) as WA.
  destruct (no_onion _ WB) as (priv & Hpriv & Hpub). pose proof (no_mlkem _ WB) as Hml. fold cB in Hpriv, Hml.
  pose proof (so_sealer _ _ (no_settings _ WA)) as SA. pose proof (so_sealer _ _ (no_settings _ WB)) as SB. fold cA in SA. fold cB in SB.
  apply New_inv in HA as (? & ? & ? & dirA & _ & _ & _ & _ & HoA & HtA & _), HB as (? & ? & ? & dirB & _ & _ & _ & _ & HoB & _). cbv zeta in *.
  rewrite HoA in SA. rewrite HoB in SB. change (o_Key (optsA{{o_StorageDir := dirA}})) with (o_Key optsA) in SA. change (o_Key (optsB{{o_StorageDir := dirB}})) with (o_Key optsB) in SB.
  assert (Hseal : tc_sealToRecipient cA = o_SealToRecipient optsA) by (unfold cA; by rewrite HtA, (proj1 (proj2 (proj2 (proj2 (proj2 (configure_spec _ _ _))))))).
  cbn [discoveryPayload dp_PubKey dp_MLKEMPub] in Hn1, Hn2. unfold contentSealer. rewrite Hseal, Hn1, Hpub, x_public_len, x_public_valid. cbn [orb negb Z.eqb].
  destruct (o_SealToRecipient optsA) eqn:Es; cbn [negb orb].
  - change (32 =? 0) with false. cbn beta iota. rewrite Hn2. destruct (tc_mlkemDecap cB) as [d|] eqn:Ed; rewrite Hml.
    + rewrite ml_public_valid, andb_true_r. destruct (tc_postQuantum cA && (0 <? len (ml_public d))) eqn:Epq; cbn beta iota.
      * apply andb_true_iff in Epq as [Ep Hl%Z.ltb_lt]. split_and!; [done|split; [intros _; split_and!; [done|exact Ep|by exists d]|done]|].
        intros _ H1 H2. eexists _, _. unfold recipientOpener. rewrite H1, H2, Hpriv, Ed. split_and!; [reflexivity..|apply _].
      * split_and!; [done|split; [done|]|]; [intros (_ & Ep & d' & [= <-] & Hl); by rewrite Ep, (proj2 (Z.ltb_lt _ _) Hl) in Epq|].
        intros _ H1 H2. eexists _, _. unfold recipientOpener. rewrite H1, H2, Hpriv. split_and!; [reflexivity..|apply _].
    + rewrite andb_false_r. cbn [andb]. split_and!; [done|split; [done|by intros (_ & _ & d & ? & _)]|].
      intros _ H1 H2. eexists _, _. unfold recipientOpener. rewrite H1, H2, Hpriv. split_and!; [reflexivity..|apply _].
  - split_and!; [done|split; [done|by intros (? & _)]|]. intros [?|[Hk Hl]] H1 H2; [done|]. unfold recipientOpener. rewrite H1, SA, SB, <- Hk, Hl. cbn.
    eexists _, _. split_and!; [reflexivity..|]. apply (aead_pair (o_Key optsA)); [done|by apply NewAEADSealer_ok].
Qed.
End Work.

(** ** AutoNAT *)

(** One reachability round and its callbacks. *)
Definition autonat_round (rs : Reach * SyncSwarm) (round : Z * list reach_event) : Reach * SyncSwarm :=
  let '(r, calls) := checkReachability rs.1 (di_port (sw_discovery rs.2)) round.1 round.2 in
  (r, fold_left (fun s reachable => (onReachability s reachable).1) calls rs.2).

Lemma checkReachability_calls r port peers evs :
  let '(r', calls) := checkReachability r port peers evs in
  (calls = [] /\ r_known r' = r_known r /\ r_reachable r' = r_reachable r) \/ (calls = [r_reachable r'] /\ r_known r' = true).
Proof.
  assert (Hset : forall r b, let '(r', calls) := setReachable r b in
    (calls = [] /\ r_known r' = r_known r /\ r_reachable r' = r_reachable r) \/ (calls = [r_reachable r'] /\ r_known r' = true)).
  { intros r0 b. unfold setReachable. destruct (r_known r0) eqn:Ek; cbn; [|by right]. destruct (Bool.eqb (r_reachable r0) b) eqn:Eb; cbn; [left|by right].
    apply eqb_prop in Eb. by rewrite Eb. }
  unfold checkReachability. destruct (_ || _); [by left|]. destruct (collect _ _ _ _) as [[n b]|]; [|by left]. unfold concludeRound.
  destruct b; [apply (Hset (set_solo r 0))|]. destruct (_ <=? n); [apply (Hset (set_solo r 0))|]. destruct (n =? 0); [by left|].
  destruct (_ <=? _); [apply (Hset (set_solo r (r_solo r + 1)))|by left].
Qed.

(** With [AutoRelay] a node holds reservations exactly if it was told to or the last
    verdict is that it cannot be reached. *)
Lemma auto_relay sw rounds :
  o_AutoRelay (sw_opts sw) = true -> se_needsRelay (sw_transfer sw) = o_NeedsRelay (sw_opts sw) ->
  let '(r, sw') := fold_left autonat_round rounds (mkReachState false false 0, sw) in
  sw_opts sw' = sw_opts sw /\ se_needsRelay (sw_transfer sw') = o_NeedsRelay (sw_opts sw) || (r_known r && negb (r_reachable r)).
Proof.
  intros Ha Hn.
  assert (Hgen : forall rounds r s, sw_opts s = sw_opts sw -> se_needsRelay (sw_transfer s) = o_NeedsRelay (sw_opts sw) || (r_known r && negb (r_reachable r)) ->
    let '(r', s') := fold_left autonat_round rounds (r, s) in
    sw_opts s' = sw_opts sw /\ se_needsRelay (sw_transfer s') = o_NeedsRelay (sw_opts sw) || (r_known r' && negb (r_reachable r'))).
  { clear rounds. intros rounds. induction rounds as [|[peers evs] rounds IH]; intros r s Ho Hs; [done|]. cbn [fold_left]. unfold autonat_round at 2. cbn [fst snd].
    pose proof (checkReachability_calls r (di_port (sw_discovery s)) peers evs) as Hc. destruct (checkReachability _ _ _ _) as [r' calls].
    destruct Hc as [(-> & Hk & Hr)|[-> Hk]]; cbn [fold_left]; apply IH; try done.
    - by rewrite Hk, Hr.
    - unfold onReachability. rewrite Ho, Ha. done.
    - unfold onReachability. rewrite Ho, Ha, Hk. reflexivity. }
  apply Hgen; [done|]. rewrite Hn. cbn. by rewrite orb_false_r.
Qed.

(** ** Witnesses *)

#[local] Instance toy_seeds : SeedOps := {| key_from_seed s := s ++ s |}.
Lemma toy_seed_laws : SeedLaws toy_seeds.
Proof.
  split; intros s Hs; cbn [key_from_seed toy_seeds].
  - rewrite len_app. unfold SeedSize, ed_PrivateKeySize in *. lia.
  - apply take_app_length'. unfold len, SeedSize in *. lia.
Qed.

Lemma identity_persists_witness :
  let first := LoadOrCreateIdentity (SO := toy_seeds) None (Some (repeat x05 32)) true true None in
  LoadOrCreateIdentity (SO := toy_seeds) first.1 None false false None = (first.1, Some (repeat x05 64)).
Proof.
  apply (identity_persists (SO := toy_seeds) (SL := toy_seed_laws) None (Some (repeat x05 32)) true true None (Some (repeat x05 32)) (repeat x05 64)); [by intros s [= <-]|vm_compute; reflexivity].
Defined.

Import Toy.
#[local] Existing Instance no_ip.
#[local] Existing Instance toy_store_json.
#[local] Existing Instance toy_reply_json.

Definition sample_new (b : byte) : newEnv :=
  mkNewEnv sample_env "/tmp" (fun a c => (a ++ "/" ++ c)%string) true None (Some (repeat b 32)) true true Some (Some [b]) Some "10.0.0.1" ∅ (fun _ => true) (fun _ => None) (Some [b]).
Definition strict_options : Options := zeroOptions{{o_HopCount := 1; o_StrictAnonymity := true; o_DisableDefaultSeeds := true}}.

Lemma sample_new_seed b : forall s, ne_seed (sample_new b) = Some s -> len s = SeedSize.
Proof. by intros s [= <-]. Qed.

Lemma New_wf_witness : exists sw, New (C := toy_ops) (SO := toy_seeds) (sample_new x01) strict_options = Ok sw /\ node_ok (C := toy_ops) sw.
Proof.
  eexists. split; [reflexivity|]. apply (New_wf (C := toy_ops) (L := toy_laws) (SO := toy_seeds) (SL := toy_seed_laws) (sample_new x01) strict_options).
  - apply sample_new_seed.
  - reflexivity.
Defined.

(** A swarm whose peers are filed under the identities of their keys. *)
Definition swarm_node (b : byte) (addr : string) (caps : list string) : Node :=
  mkNode 0 (gossip_id b) addr 0 5 true (x_public (CryptoOps := toy_ops) [b]) (ed_public (CryptoOps := toy_ops) (gossip_key b)) 0 caps [] [].
Definition swarm_nodes : list Node := [swarm_node x02 "r:1" ["relay"%string]; swarm_node x03 "d:1" []].
Definition swarm_table : Peers := mkPeers "" (list_to_map (map (fun n => (n_ID n, n)) swarm_nodes)) 0 [] 0 0 None.

Lemma swarm_range : range_of (d_nodes swarm_table) (map (fun n => (n_ID n, n)) swarm_nodes).
Proof.
  unfold range_of, swarm_table. cbn [d_nodes]. symmetry. apply map_to_list_to_map. apply (bool_decide_unpack _). vm_compute. exact I.
Qed.
Lemma swarm_bound : key_bound (C := toy_ops) swarm_table.
Proof.
  intros k n Hn. apply elem_of_list_to_map_2 in Hn. apply list_elem_of_fmap in Hn as (x & E & Hx). injection E as -> ->.
  apply elem_of_cons in Hx as [->|Hx]; [split; reflexivity|]. apply elem_of_cons in Hx as [->|[]%not_elem_of_nil]. split; reflexivity.
Qed.
Lemma swarm_backed : backed (C := toy_ops) (sample_env_with swarm_nodes (fun _ => [])) (gossip_id x03).
Proof.
  split; [|done]. intros k. exists swarm_table, (map (fun n => (n_ID n, n)) swarm_nodes). split_and!; [apply swarm_bound|apply swarm_range|reflexivity].
Qed.

Definition made_node (b : byte) (opts : Options) : SyncSwarm :=
  match New (C := toy_ops) (sample_new b) opts with
  | Ok sw => sw
  | Err _ => mkSwarm zeroOptions "" (NewDiscovery "") 0 ∅ [] "" false (NewTransfer (C := toy_ops) "" [] None [] 0 0 0 0 false 0 "") false false
  end.
Definition swarm_send (opts : Options) (data : bytes) : world * Storage * acks * result fwd_err unit + option (string * bytes) :=
  SendTo (R := toy_rs) (C := toy_ops) toy_shuffle (made_node x01 opts) (sample_env_with swarm_nodes (fun _ => [])) map_to_list sample_id [x42] [] data (gossip_id x03) empty_world empty_store ∅.

Lemma node_anonymous_witness : exists o, swarm_send strict_options [x01] = inl o /\
  grows (anonymous_emission (C := toy_ops) (se_send (sw_transfer (made_node x01 strict_options))) (sample_env_with swarm_nodes (fun _ => [])) (gossip_id x03)) empty_world o.1.1.1.
Proof.
  destruct (node_anonymous (R := toy_rs) (C := toy_ops) toy_shuffle toy_shuffle_perm (sample_new x01) strict_options (made_node x01 strict_options) (sample_env_with swarm_nodes (fun _ => [])) (gossip_id x03)
    map_to_list sample_id [x42] [] (fun _ => []) [x01] (mkReader [] false) empty_world empty_store ∅ eq_refl) as ((o & Ho & Hg) & _ & _).
  - left. split; reflexivity.
  - reflexivity.
  - apply swarm_backed.
  - vm_compute. discriminate.
  - exists o. split; [exact Ho|exact Hg].
Defined.

(** The send above does put an onion on the wire. *)
Example node_anonymous_sends : match swarm_send strict_options [x01] with inl o => len (w_log o.1.1.1) | inr _ => 0 end = 1.
Proof. vm_compute. reflexivity. Qed.

Lemma sealing_agreement_witness :
  let opts := zeroOptions{{o_SealToRecipient := true; o_PostQuantum := true; o_DisableDefaultSeeds := true}} in
  let A := made_node x01 opts in let B := made_node x02 opts in
  let n := mkNode 0 (sw_selfID B) "b:1" 0 0 true (di_pubKey (sw_discovery B)) [] 0 [] [] (di_mlkemPub (sw_discovery B)) in
  exists s o, contentSealer (C := toy_ops) (sf_transfer (se_send (sw_transfer A))) (Some n) = (Some s, true, true) /\
    recipientOpener (C := toy_ops) (sf_transfer (se_send (sw_transfer B))) (mkScheme 0 0 0 false false true true false) = Some o /\ SealerPair s o.
Proof.
  cbv zeta. set (opts := zeroOptions{{o_SealToRecipient := true; o_PostQuantum := true; o_DisableDefaultSeeds := true}}).
  set (n := mkNode 0 (sw_selfID (made_node x02 opts)) "b:1" 0 0 true (di_pubKey (sw_discovery (made_node x02 opts))) [] 0 [] [] (di_mlkemPub (sw_discovery (made_node x02 opts)))).
  pose proof (sealing_agreement (C := toy_ops) (L := toy_laws) (SO := toy_seeds) (SL := toy_seed_laws) (sample_new x01) opts (made_node x01 opts) (sample_new x02) opts (made_node x02 opts) n
    (mkScheme 0 0 0 false false true true false) (sample_new_seed x01) (sample_new_seed x02) eq_refl eq_refl eq_refl eq_refl) as H. cbv zeta in H.
  destruct (contentSealer _ (Some n)) as [[sealer hybrid] pq]. destruct H as (-> & Hpq & Hpair). change (o_SealToRecipient opts) with true in *.
  assert (pq = true) as ->.
  { apply Hpq. split; [reflexivity|]. split; [reflexivity|]. eexists. split; [reflexivity|]. vm_compute. reflexivity. }
  destruct (Hpair (or_introl eq_refl) eq_refl eq_refl) as (s & o & -> & Ho & Hp). exists s, o. split; [reflexivity|]. split; [exact Ho|exact Hp].
Defined.

(** ** Behaviours at odds with the comments of the source *)

(** [ReliableLinkTransfer] takes precedence over strict anonymity: the destination is
    dialled. *)
Example reliable_link_is_not_anonymous :
  let D := set_peers (sw_discovery (made_node x01 (strict_options{{o_ReliableLinkTransfer := true}}))) swarm_table in
  let sw := (made_node x01 (strict_options{{o_ReliableLinkTransfer := true}})){{sw_discovery := D}} in
  SendTo (R := toy_rs) (C := toy_ops) toy_shuffle sw (sample_env_with swarm_nodes (fun _ => [])) map_to_list sample_id [x42] [] [x01] (gossip_id x03) empty_world empty_store ∅ =
  inr (Some ("d:1"%string, repeat x03 32)).
Proof. vm_compute. reflexivity. Qed.

(** The anonymous profile sets neither [StrictAnonymity] nor [AdaptiveOnionHops], so
    per-hop routing is not ignored under it, and without a relay it sends directly. *)
Example anonymous_profile_per_hop :
  usePerHop (se_send (sw_transfer (made_node x01 ((Preset ProfileAnonymous){{o_PerHopRouting := true}})))) = true /\
  failClosed (se_send (sw_transfer (made_node x01 (Preset ProfileAnonymous)))) = false.
Proof. vm_compute. split; reflexivity. Qed.

(** Sealing to the recipient needs no shared key, but without one erasure coding is
    switched off and a stream is refused. *)
Example recipient_sealed_stream_refused :
  let t := se_send (sw_transfer (made_node x01 (zeroOptions{{o_SealToRecipient := true; o_DataShards := 4; o_ParityShards := 2}}))) in
  tc_dataShards (sf_transfer t) = 0 /\ stream_config_ok t = false.
Proof. vm_compute. split; reflexivity. Qed.

(** A node that is started again after it was stopped reports success although its
    contexts are cancelled and its sockets closed. *)
Example restart_is_dead :
  let sw := (Start (made_node x01 zeroOptions)).1 in
  let sw := (Stop (GJ := toy_gossip_json) sw WOk true [] ∅).1 in
  let sw := (Start sw).1 in (sw_running sw, sw_stopped sw) = (true, true).
Proof. vm_compute. reflexivity. Qed.
