(* ===== verification/Swarm.v ===== *)
(** * Nodes at both ends

    The program assembled: a swarm of nodes made by [Node.New], the onions one of them
    sends, the relays that pass them on and the application of the last.  What the
    sender hands to the network lands at a node as its connection handler or its link
    router reads it; from there [Relay.travel] runs the relays' own handlers. *)

From stdpp Require Import pretty.
From S2P Require Import Prelude Crypto Wire Net Routing Encryption Fragment PeerTable Discovery Pieces Stream Acks.
From coqutil Require Import Datatypes.RecordSetters.
From S2P Require Import Transfer Direct Offline Reputation Chunks Pool Forward Relay Gossip Node.
Import DoubleBraceUpdate.

Lemma nonempty_ltb {A} (l : list A) : l <> [] -> (0 <? len l) = true.
Proof. intros Hl. apply Z.ltb_lt. destruct l as [|x l]; [done|]. rewrite len_cons. pose proof (len_nonneg l). lia. Qed.

(** ** Successful loops *)

(** A loop whose bodies succeed, whatever the world, appends what each of them emits. *)
Lemma for_each_total {A} (Q : A -> list emission -> Prop) (f : A -> act unit) l :
  (forall x, x ∈ l -> forall w, exists w' es, f x w = (w', Ok tt) /\ w_log w' = w_log w ++ es /\ Q x es) ->
  forall w, exists w' ess, for_each f l w = (w', Ok tt) /\ w_log w' = w_log w ++ concat ess /\ Forall2 Q l ess.
Proof.
  induction l as [|x l IH]; intros Hf w; cbn [for_each].
  - exists w, []. split_and!; [done|by rewrite app_nil_r|constructor].
  - destruct (Hf x ltac:(left) w) as (w1 & es & H1 & H2 & H3). unfold act_bind. rewrite H1.
    destruct (IH ltac:(intros y Hy; apply Hf; by right) w1) as (w2 & ess & H4 & H5 & H6).
    exists w2, (es :: ess). split_and!; [done|by rewrite H5, H2, <- app_assoc|by constructor].
Qed.

Lemma for_each_app {A} (f : A -> act unit) l k w :
  for_each f (l ++ k) w = act_bind (for_each f l) (fun _ => for_each f k) w.
Proof.
  revert w. induction l as [|x l IH]; intros w; [done|]. cbn [app for_each]. unfold act_bind in *.
  destruct (f x w) as [w1 [[]|]]; [|done]. apply IH.
Qed.

(** Nested loops are one loop over all the inner elements. *)
Lemma for_each_concat {A B} (g : B -> act unit) (h : A -> list B) l w :
  for_each (fun x => for_each g (h x)) l w = for_each g (concat (map h l)) w.
Proof.
  revert w. induction l as [|x l IH]; intros w; [done|]. cbn [map concat for_each]. rewrite for_each_app. unfold act_bind.
  destruct (for_each g (h x) w) as [w1 [[]|]]; [|done]. apply IH.
Qed.

(** ** What a sender with a working network emits *)

Section Sender.
Context `{R : RSOps} `{C : CryptoOps} `{L : !CryptoLaws C} `{N : NetOps} `{RJ : ReplyJson}.
Context (shuffle : Z -> list nat -> list Peer -> list Peer) (Hshuffle : forall seed before l, shuffle seed before l ≡ₚ l).
Context (t : SendConfig) (env : sendEnv) (Hdraw : forall i, wf_draws (v_draw env i)) (Hup : forall i, v_net env i = true).
Context (net : string -> option (relayNode * sendEnv)) (key : string -> bytes).

(** [blob] is an onion around [inner] for a path through relays among [nodes], [r]
    the first, to [dest]. *)
Definition onion_to (nodes : list Node) (dest : Node) (hops : Z) (inner : bytes) (r : Peer) (blob : bytes) : Prop :=
  exists picked oh k, let path := r :: picked ++ [dest_peer dest] in
    Forall (relay_among nodes (n_ID dest)) (r :: picked) /\ (length (r :: picked) <= Z.to_nat hops)%nat /\
    toOnionHops (map hop_of path) = Ok oh /\ BuildOnion oh (map (v_draw env) (seq k (length path))) inner = Ok blob.

(** The emission that hands [blob] to [r]. *)
Definition hands (r : Peer) (blob : bytes) (e : emission) : Prop :=
  (exists now nowStr, e = XTCP (pe_Address r) (relayPacket t now nowStr blob)) \/ e = XLink (pe_ID r) blob.

Lemma sendRelayHop_one r blob w :
  exists w' e, sendRelayHop t env (pe_ID r) (pe_Address r) blob w = (w', true) /\ w_log w' = w_log w ++ [e] /\ hands r blob e.
Proof using Hup.
  unfold sendRelayHop, sendRelayViaLink, sendRelayBlob, emit_to. destruct (sf_onionOverLinks t); [destruct (String.eqb (pe_ID r) "")|]; rewrite Hup;
    eexists _, _; (split; [reflexivity|split; [reflexivity|unfold hands; eauto]]).
Qed.

Definition bears (nodes : list Node) (dest : Node) (hops : Z) (inner : bytes) (e : emission) : Prop :=
  exists r blob, onion_to nodes dest hops inner r blob /\ hands r blob e.

Section Context_of_send.
Context (bound : Z) (nodes : list Node) (dest : Node) (fc : forwardCtx).
Context (Hctx : ctx_ok nodes dest fc) (Hguard : path_guard (fc_destPeer fc) (fc_relays fc) (fc_hops fc) = None).
Context (Hrel : forall r, relay_among nodes (n_ID dest) r -> reachable net key bound r) (Hdest : reachable net key bound (dest_peer dest)).

Lemma bound_nonneg : 0 <= bound.
Proof using Hdest.
  destruct Hdest as (_ & _ & H). pose proof (len_nonneg (str_bytes (pe_Address (dest_peer dest)))). pose proof (len_nonneg (str_bytes (pe_ID (dest_peer dest)))). lia.
Qed.

Lemma path_reachable r picked : Forall (relay_among nodes (n_ID dest)) (r :: picked) -> Forall (reachable net key bound) (r :: picked ++ [dest_peer dest]).
Proof using Hrel Hdest.
  intros H. rewrite app_comm_cons. apply Forall_app. split; [|by apply Forall_singleton]. eapply Forall_impl; [exact H|apply Hrel].
Qed.

Lemma send_copy_total inner piece c w :
  len inner + (fc_hops fc + 1) * bound < 2 ^ 32 ->
  exists w' r blob e, send_copy shuffle t env fc inner piece c w = (w', Ok true) /\ w_log w' = w_log w ++ [e] /\
    onion_to nodes dest (fc_hops fc) inner r blob /\ hands r blob e.
Proof using All.
  intros Hsz. unfold send_copy, act_bind, lift.
  pose proof (BuildPathTiered_spec shuffle Hshuffle (fc_destPeer fc) (fc_relays fc) (fc_hops fc)
    (mkOpts (copy_seed (fc_id fc) piece (Z.of_nat c)) (fc_deprioritize fc) (fc_exitNear fc)) (cx_nodup _ _ _ Hctx)) as Hs.
  rewrite Hguard in Hs. destruct Hs as (picked0 & HB & _). rewrite HB.
  destruct (copy_path shuffle Hshuffle fc nodes dest _ _ Hctx HB) as (r & picked & Hp & _ & Hall & Hlen). rewrite Hp, (cx_peer _ _ _ Hctx).
  pose proof (path_reachable r picked Hall) as Hreach. set (path := r :: picked ++ [dest_peer dest]).
  assert (Hm : map hop_of (r :: picked) ++ [hop_of (dest_peer dest)] = map hop_of path) by (unfold path; by rewrite app_comm_cons, map_app).
  rewrite Hm. rewrite (toOnionHops_keyed net key bound path Hreach). unfold draw_n. cbn beta iota zeta.
  destruct (BuildOnion_forward (map (fun r => key (pe_ID r)) path) (map (fun r => (pe_ID r, pe_Address r)) path)
      (map (v_draw env) (seq (w_drawn w) (length (map hop_of path)))) inner) as (blob & _ & Hb & _).
  { by rewrite !length_map. }
  { by rewrite !length_map, length_seq. }
  { done. }
  { apply Forall_fmap, Forall_forall. intros i _. apply Hdraw. }
  { pose proof (onion_size_bound net key bound path inner Hreach) as Hos. pose proof bound_nonneg. pose proof (cx_hops _ _ _ Hctx).
    assert (len path <= fc_hops fc + 1) by (unfold path; rewrite len_cons, len_app; unfold len; cbn [length] in *; lia). nia. }
  rewrite Hb. unfold path at 1. cbn [map]. change (h_NodeID (hop_of r)) with (pe_ID r). change (h_Address (hop_of r)) with (pe_Address r).
  match goal with |- context [sendRelayHop _ _ _ _ _ ?w1] => destruct (sendRelayHop_one r blob w1) as (w' & e & Hsend & Hlog & Hh) end. rewrite Hsend.
  exists w', r, blob, e. split_and!; [done|exact Hlog| |done]. exists picked. eexists _, (w_drawn w). fold path. cbn zeta.
  split_and!; [done|done|by apply (toOnionHops_keyed net key bound)|]. by rewrite length_map in Hb.
Qed.

Lemma send_copies_total inner piece copies sent w :
  len inner + (fc_hops fc + 1) * bound < 2 ^ 32 ->
  exists w' es, send_copies shuffle t env fc inner piece copies sent w = (w', Ok (sent || negb (Nat.eqb (length copies) 0))) /\
    w_log w' = w_log w ++ es /\ length es = length copies /\ Forall (bears nodes dest (fc_hops fc) inner) es.
Proof using All.
  intros Hsz. revert sent w. induction copies as [|c copies IH]; intros sent w; cbn [send_copies].
  - exists w, []. split_and!; [by rewrite orb_false_r|by rewrite app_nil_r|done|constructor].
  - destruct (send_copy_total inner piece c w Hsz) as (w1 & r & blob & e & H1 & H2 & H3 & H4). unfold act_bind. rewrite H1.
    destruct (IH (sent || true) w1) as (w2 & es & H5 & H6 & H7 & H8). exists w2, (e :: es).
    split_and!; [rewrite H5; by destruct sent|by rewrite H6, H2, <- app_assoc|by cbn; rewrite H7|constructor; [by exists r, blob|done]].
Qed.

(** The emissions of a piece: its copies, each an onion around one packet. *)
Definition piece_sent (pc : Fragment) (es : list emission) : Prop :=
  es <> [] /\ exists i, Forall (bears nodes dest (fc_hops fc) (MarshalBinary (piece_packet t env fc pc i))) es.

(** What every piece of [frags] fits in. *)
Definition fits (frags : list Fragment) : Prop := forall i f pc, f ∈ frags -> pc ∈ fragmentPieces f (sf_subChunkSize t) ->
  wf_packet (piece_packet t env fc pc i) /\ marshaledLen (piece_packet t env fc pc i) + (fc_hops fc + 1) * bound < 2 ^ 32.

Abbreviation pieces_of frags := (concat (map (fun f => fragmentPieces f (sf_subChunkSize t)) frags)).

Lemma send_fragments_total frags w :
  0 < fc_paths fc -> fits frags ->
  exists w' ess, for_each (sendFragment shuffle t env fc) frags w = (w', Ok tt) /\ w_log w' = w_log w ++ concat ess /\ Forall2 piece_sent (pieces_of frags) ess.
Proof using All.
  intros Hp Hfit. unfold sendFragment. rewrite for_each_concat. apply for_each_total. intros pc Hpc w2.
  apply list_elem_of_In, in_concat in Hpc as (l & Hl & Hpc). apply in_map_iff in Hl as (f & <- & Hf). apply list_elem_of_In in Hf, Hpc.
  unfold send_piece. set (pkt := piece_packet t env fc pc (length (w_log w2))).
  destruct (send_copies_total (MarshalBinary pkt) pc (seq 0 (Z.to_nat (fc_paths fc))) false w2) as (w3 & es & H1 & H2 & H3 & H4).
  { apply (Hfit _ f pc Hf Hpc). }
  exists w3, es. unfold act_bind. unfold buildInnerFragment. fold pkt. rewrite length_seq in *.
  change (MarshalBinary (innerPacket _ _ _ _ _ _ _ _ _)) with (MarshalBinary pkt). rewrite H1, (proj2 (Nat.eqb_neq _ 0)) by lia. cbn [orb negb].
  split_and!; [done|done|split; [intros ->; cbn in H3; lia|by exists (length (w_log w2))]].
Qed.
End Context_of_send.

(** ** The forwarding context *)

(** The relays a send may use when none is excommunicated. *)
Definition onion_relays (nodes : list Node) (excl : string) : list Peer :=
  map relay_peer (List.filter (fun n => negb (String.eqb (n_ID n) excl) && negb (len (n_PubKey n) =? 0) && hasCapability (n_Capabilities n) "relay") nodes).

Lemma relayPeers_clean now nodes excl st : rp_excommunions st = ∅ -> relayPeers now nodes excl st = (st, onion_relays nodes excl).
Proof.
  intros Hst. induction nodes as [|n nodes IH]; [done|]. unfold onion_relays in *. cbn [relayPeers List.filter].
  destruct (String.eqb (n_ID n) excl), (len (n_PubKey n) =? 0), (hasCapability (n_Capabilities n) "relay"); cbn [orb negb andb map]; try done.
  unfold isExcommunicated. rewrite Hst, lookup_empty. by rewrite IH.
Qed.

Lemma pathsFor_pos relays addr : 1 <= pathsFor t relays addr.
Proof. unfold pathsFor. destruct (sf_adaptiveRedundancy t); [|destruct (Z.ltb_spec (sf_redundancy t) 1); lia]. cbv zeta. match goal with |- 1 <= if ?x <? 1 then _ else _ => destruct (Z.ltb_spec x 1); lia end. Qed.

Lemma buildReplyBlock_total id relays tok w : exists w' rb, buildReplyBlock t env id relays tok w = (w', Ok rb) /\ w_log w' = w_log w.
Proof.
  unfold buildReplyBlock. destruct (reply_path t relays) as [[|h hops]|]; [by eexists _, _| |by eexists _, _]. destruct (toOnionHops _); [|by eexists _, _].
  unfold act_bind, draw_n. cbn beta iota zeta. destruct (BuildOnion _ _ _); by eexists _, _.
Qed.

Lemma newForwardCtx_total dest nodes id sc tok w :
  is_Some (tc_nodePriv (sf_transfer t)) -> 0 < len (n_PubKey dest) -> n_RelayIDs dest = [] -> rp_excommunions (w_standing w) = ∅ ->
  let relays := onion_relays nodes (n_ID dest) in 0 < hopsFor t relays (peerDialAddr dest) ->
  exists w' fc, newForwardCtx t env dest nodes id sc tok w = (w', Ok fc) /\ w_log w' = w_log w /\
    fc_relays fc = relays /\ fc_hops fc = hopsFor t relays (peerDialAddr dest) /\ 0 < fc_paths fc /\ fc_destID fc = n_ID dest.
Proof.
  intros [priv Hpriv] Hk Hids Hst relays Hh. unfold newForwardCtx. rewrite Hpriv, (proj2 (Z.eqb_neq _ _)) by lia. unfold act_bind at 1, relays_for.
  rewrite relayPeers_clean by done. cbn beta iota zeta. rewrite Hids. change (0 <? len (@nil string)) with false. cbn [andb]. fold relays.
  rewrite (proj2 (Z.leb_gt _ _)) by done. unfold act_bind. destruct (buildReplyBlock_total id relays tok (mkWorld (w_log w) (w_drawn w) (w_standing w))) as (w' & rb & -> & Hl).
  eexists _, _. split_and!; [reflexivity|exact Hl|done|done| |done]. cbn [fc_paths]. pose proof (pathsFor_pos relays (peerDialAddr dest)).
  destruct (Z.ltb_spec 0 (len relays)); cbn [andb]; [|lia]. destruct (_ <? _); lia.
Qed.

Lemma by_id_elem nodes n : NoDup (map n_ID nodes) -> n ∈ nodes -> by_id nodes !! n_ID n = Some n.
Proof.
  intros Hnd Hn. destruct (by_id nodes !! n_ID n) as [m|] eqn:E.
  - apply by_id_lookup in E as [Hm He]. f_equal. apply list_elem_of_lookup_1 in Hn as [i Hi]. apply list_elem_of_lookup_1 in Hm as [j Hj].
    assert (i = j) as ->; [|congruence]. eapply NoDup_lookup; [exact Hnd|..].
    + change (map n_ID nodes) with (n_ID <$> nodes). rewrite list_lookup_fmap, Hi. cbn. by rewrite <- He.
    + change (map n_ID nodes) with (n_ID <$> nodes). by rewrite list_lookup_fmap, Hj.
  - apply by_id_none in E. destruct E. apply list_elem_of_In, in_map_iff. exists n. split; [done|by apply list_elem_of_In].
Qed.

(** ** A targeted send *)

(** Discovery knows [dest] and an active relay; no relay is excommunicated; chunks can
    be saved. *)
Record ready (nodes : list Node) (dest : Node) (w : world) : Prop := {
  rd_active : v_active env 0 = nodes;
  rd_nodup : NoDup (map n_ID nodes);
  rd_dest : dest ∈ nodes;
  rd_named : n_ID dest <> ""%string;
  rd_up : n_Active dest = true;
  rd_key : 0 < len (n_PubKey dest);
  rd_direct : n_RelayIDs dest = [];
  rd_relay : exists n, n ∈ nodes /\ n_ID n <> n_ID dest /\ hasCapability (n_Capabilities n) "relay" = true /\ n_Active n = true /\ 0 < len (n_PubKey n);
  rd_standing : rp_excommunions (w_standing w) = ∅;
  rd_saved i : v_save env i = true
}.

Section Ready.
Context `{SJ : StoreJson} (nodes : list Node) (dest : Node) (w : world) (Hr : ready nodes dest w).
Context (Hpriv : is_Some (tc_nodePriv (sf_transfer t))) (Hwant : wantForward t = true) (Hhop : usePerHop t = false).
Context (Hhops : 0 < hopsFor t (onion_relays nodes (n_ID dest)) (peerDialAddr dest)).

Lemma locate_ready : locate env (n_ID dest) = Ok nodes.
Proof using Hr.
  destruct Hr as [Ha Hnd Hd Hn _ _ _ _ _ _]. unfold locate, resolveDest. rewrite Ha, (proj2 (String.eqb_neq _ _) Hn).
  assert (He : existsb (fun n => String.eqb (n_ID n) (n_ID dest)) nodes = true) by (apply existsb_exists; exists dest; split; [by apply list_elem_of_In|apply String.eqb_refl]).
  rewrite He. assert (Hl : (len nodes =? 0) = false) by (apply Z.eqb_neq; intros H0%Z.eqb_eq%len_zero; rewrite H0 in Hd; by apply not_elem_of_nil in Hd).
  unfold admit_dest. rewrite Hl, (proj2 (String.eqb_neq _ _) Hn), (by_id_elem nodes dest Hnd Hd). cbn [negb andb]. by rewrite (by_id_elem nodes dest Hnd Hd).
Qed.

Lemma relays_eligible : exists r, r ∈ onion_relays nodes (n_ID dest) /\ eligible_for (dest_peer dest) r = true.
Proof using Hr.
  destruct (rd_relay _ _ _ Hr) as (n & Hn & Hne & Hc & Ha & Hk). exists (relay_peer n). split.
  - apply list_elem_of_fmap. exists n. split; [done|]. apply list_elem_of_In, filter_In. split; [by apply list_elem_of_In|].
    rewrite (proj2 (String.eqb_neq _ _) Hne), (proj2 (Z.eqb_neq _ 0)), Hc by lia. done.
  - unfold eligible_for, relay_ok. cbn [relay_peer dest_peer pe_Active pe_RelayCapable pe_PubKey pe_ID].
    by rewrite Ha, (proj2 (Z.ltb_lt _ _) Hk), (proj2 (String.eqb_neq _ _) Hne).
Qed.

Lemma guard_ready hops : 0 < hops -> path_guard (dest_peer dest) (onion_relays nodes (n_ID dest)) hops = None.
Proof using Hr.
  intros Hh. destruct relays_eligible as (r & Hin & He). unfold path_guard. cbn [dest_peer pe_ID pe_PubKey]. pose proof (rd_key _ _ _ Hr) as Hk.
  rewrite bool_decide_eq_false_2 by (intros [?|H0]; [by apply (rd_named _ _ _ Hr)|by rewrite H0 in Hk]). rewrite bool_decide_eq_false_2 by lia.
  rewrite bool_decide_eq_false_2; [done|]. intros [_ H0]. apply (not_elem_of_nil r). rewrite <- H0. by apply list_elem_of_In, filter_In; split; [apply list_elem_of_In|].
Qed.

Lemma anonymity_ready : anonymity_check t env (n_ID dest) nodes w = (w, Ok tt).
Proof using Hr Hhops.
  unfold anonymity_check. destruct (_ && _); [|done]. unfold act_bind, relays_for. rewrite relayPeers_clean by apply Hr. cbn beta iota zeta.
  rewrite (by_id_elem nodes dest (rd_nodup _ _ _ Hr) (rd_dest _ _ _ Hr)). rewrite (proj2 (Z.eqb_neq (len (n_PubKey dest)) 0)) by (pose proof (rd_key _ _ _ Hr); lia).
  rewrite (proj2 (Z.leb_gt _ 0)) by done. destruct relays_eligible as (r & Hin & _).
  assert (Hl : (len (onion_relays nodes (n_ID dest)) =? 0) = false) by (apply Z.eqb_neq; intros H0%Z.eqb_eq%len_zero; rewrite H0 in Hin; by apply not_elem_of_nil in Hin).
  rewrite Hl. by destruct w.
Qed.

Lemma save_chunks_total s id meta chunks : exists s', save_chunks env s id meta chunks = (s', Ok tt).
Proof using Hr.
  unfold save_chunks. generalize 0%nat as i. revert s. induction chunks as [|c chunks IH]; intros s i; [by eexists|]. rewrite (rd_saved _ _ _ Hr). apply IH.
Qed.

Lemma route_ready : exists ordered, FastestRoute (n_ID dest) (nodesToPeers nodes) = Ok ordered.
Proof using Hr.
  unfold FastestRoute. destruct (Z.eqb_spec (len (activeSorted (nodesToPeers nodes))) 0) as [H0|]; [|by eexists]. exfalso.
  apply Z.eqb_eq, len_zero in H0. unfold activeSorted in H0. pose proof (sort_by_perm peer_lt (List.filter pe_Active (nodesToPeers nodes))) as Hp.
  rewrite H0 in Hp. apply Permutation_nil in Hp. eapply (not_elem_of_nil (A := Peer)). rewrite <- Hp. apply list_elem_of_In, filter_In. split.
  - apply in_map_iff. exists dest. split; [reflexivity|apply list_elem_of_In, Hr].
  - apply (rd_up _ _ _ Hr).
Qed.
Lemma SendDataTracked_ready ord id tok ds data variable s m sealer hybrid pq frags sc :
  contentSealer (sf_transfer t) (Some dest) = (sealer, hybrid, pq) -> buildFragments (sf_transfer t) id data variable sealer ds = Ok (frags, sc) ->
  exists s' ordered, SendDataTracked shuffle t env ord id tok ds data "" (n_ID dest) variable w s m =
    if sf_confirm t then
      let '(w', m', r) := confirm_loop env ord id (n_ID dest) (sendOnce shuffle t env "" (n_ID dest) nodes ordered id frags (seal_flags sc hybrid pq) tok)
                            maxAckAttempts 0 w (registerAck m id (n_SignKey dest) tok) in
      (w', s', release_ack id m', r)
    else (sendOnce shuffle t env "" (n_ID dest) nodes ordered id frags (seal_flags sc hybrid pq) [] w, s', m, Ok tt).
Proof using Hr Hhops.
  intros Hseal Hbuild. unfold SendDataTracked. rewrite locate_ready, anonymity_ready, (by_id_elem nodes dest (rd_nodup _ _ _ Hr) (rd_dest _ _ _ Hr)), Hseal, Hbuild.
  match goal with |- context [save_chunks env s id ?meta ?chunks] => destruct (save_chunks_total s id meta chunks) as [s' ->] end.
  destruct route_ready as [ordered ->]. exists s', ordered. rewrite (proj2 (String.eqb_neq _ _) (rd_named _ _ _ Hr)). cbn [negb andb].
  by destruct (sf_confirm t).
Qed.

(** The emissions [es] take every piece of [frags] to [dest], and nothing else. *)
Record bears_piece (bound : Z) (rb id : bytes) (sc : scheme) (frags : list Fragment) (pc : Fragment) (pkt : Packet) (e : emission) : Prop := {
  be_packs : packs id sc pc pkt;
  be_sent : sent id frags (sf_subChunkSize t) sc pkt;
  be_wf : wf_packet pkt;
  be_data : p_Type pkt = PacketTypeData /\ p_Decoy pkt = false;
  be_back : p_ReplyBlock pkt = rb /\ p_SourceNode pkt = ""%string;
  be_size : marshaledLen pkt + (hopsFor t (onion_relays nodes (n_ID dest)) (peerDialAddr dest) + 1) * bound < 2 ^ 32;
  be_onion : bears nodes dest (hopsFor t (onion_relays nodes (n_ID dest)) (peerDialAddr dest)) (MarshalBinary pkt) e
}.
Definition carries_all (bound : Z) (rb id : bytes) (sc : scheme) (frags : list Fragment) (es : list emission) (pkts : list Packet) : Prop :=
  Forall2 (fun e pkt => exists pc, bears_piece bound rb id sc frags pc pkt e) es pkts /\
  forall f pc, f ∈ frags -> pc ∈ fragmentPieces f (sf_subChunkSize t) -> exists pkt, pkt ∈ pkts /\ packs id sc pc pkt.

Lemma innerPacket_back cell now nowStr dst src pc sc rb id :
  let p := innerPacket cell now nowStr id dst src pc sc rb in p_ReplyBlock p = rb /\ p_SourceNode p = src.
Proof. cbn zeta. unfold innerPacket. match goal with |- context [padPacket ?c ?q] => destruct (padPacket_fields c q) as [d ->] end. done. Qed.

(** The packets inside the copies of each piece. *)
Lemma pieces_bear bound fc id sc frags pcs ess :
  fc_id fc = id -> fc_sc fc = sc -> fc_hops fc = hopsFor t (onion_relays nodes (n_ID dest)) (peerDialAddr dest) -> fits bound fc frags ->
  Forall (fun pc => exists f, f ∈ frags /\ pc ∈ fragmentPieces f (sf_subChunkSize t)) pcs -> Forall2 (piece_sent nodes dest fc) pcs ess ->
  exists pkts, Forall2 (fun e pkt => exists pc, bears_piece bound (fc_replyBlock fc) id sc frags pc pkt e) (concat ess) pkts /\
    forall pc, pc ∈ pcs -> exists pkt, pkt ∈ pkts /\ packs id sc pc pkt.
Proof.
  intros <- <- Hh Hfit. induction 2 as [|pc es pcs ess [Hne [i Hb]] _ IH].
  { exists []. split; [constructor|]. by intros pc ?%not_elem_of_nil. }
  apply Forall_cons in H as [(f & Hf & Hpc) Hpcs]. destruct (IH Hpcs) as (pkts & HF & Hall). set (pkt := piece_packet t env fc pc i) in *.
  exists (map (fun _ => pkt) es ++ pkts). cbn [concat]. split.
  - apply Forall2_app; [|done]. clear Hne HF. induction Hb as [|e es He _ IHe]; constructor; [|done]. exists pc. destruct (Hfit i f pc Hf Hpc) as [Hwf Hsz].
    split; rewrite <- ?Hh; [apply innerPacket_packs| |done|apply innerPacket_kind|apply innerPacket_back|done|done].
    exists f, pc. do 6 eexists. by split_and!.
  - intros x [->|Hx]%elem_of_cons; [|destruct (Hall x Hx) as (q & ? & ?); exists q; split; [apply elem_of_app; by right|done]].
    exists pkt. split; [|apply innerPacket_packs]. destruct es as [|e es]; [done|]. by left.
Qed.

Lemma sendOnce_onions bound ordered id tok frags sc :
  (forall r, relay_among nodes (n_ID dest) r -> reachable net key bound r) -> reachable net key bound (dest_peer dest) ->
  (forall fc w1, newForwardCtx t env dest nodes id sc tok w = (w1, Ok fc) -> fits bound fc frags) ->
  exists es pkts fc w1, w_log (sendOnce shuffle t env "" (n_ID dest) nodes ordered id frags sc tok w) = w_log w ++ es /\
    newForwardCtx t env dest nodes id sc tok w = (w1, Ok fc) /\ carries_all bound (fc_replyBlock fc) id sc frags es pkts.
Proof using All.
  intros Hrel Hdest Hfit. unfold sendOnce. rewrite (proj2 (String.eqb_neq _ _) (rd_named _ _ _ Hr)), Hhop, Hwant, (by_id_elem nodes dest (rd_nodup _ _ _ Hr) (rd_dest _ _ _ Hr)).
  cbn [negb andb]. destruct Hpriv as [priv Hp]. rewrite Hp, (proj2 (Z.ltb_lt _ _) (rd_key _ _ _ Hr)). unfold sendForwarded, act_bind at 1.
  destruct (newForwardCtx_total dest nodes id sc tok w ltac:(by exists priv) (rd_key _ _ _ Hr) (rd_direct _ _ _ Hr) (rd_standing _ _ _ Hr) Hhops) as (w1 & fc & Hfc & Hl & Hrs & Hh & Hps & _).
  destruct (newForwardCtx_emits t env (fun _ => True) dest nodes id sc tok (rd_nodup _ _ _ Hr) w) as [_ Hctx]. rewrite Hfc in Hctx. specialize (Hctx fc eq_refl).
  destruct (newForwardCtx_ids t env dest nodes id sc tok w w1 fc Hfc) as [Hi Hs]. rewrite Hfc.
  destruct (send_fragments_total bound nodes dest fc Hctx) with (frags := frags) (w := w1) as (w2 & ess & H1 & H2 & H3); try done.
  { rewrite (cx_peer _ _ _ Hctx), Hrs. apply guard_ready. by rewrite Hh. }
  { by eapply Hfit. }
  rewrite H1. edestruct (pieces_bear bound fc id sc frags) as (pkts & HF & Hall); [exact Hi|exact Hs|exact Hh|exact (Hfit _ _ Hfc)| |exact H3|].
  { apply Forall_forall. intros pc Hpc. apply list_elem_of_In, in_concat in Hpc as (l & Hl2 & Hpc). apply in_map_iff in Hl2 as (f & <- & Hf). exists f. by split; apply list_elem_of_In. }
  exists (concat ess), pkts, fc, w1. split; [by rewrite H2, Hl|]. split; [done|]. split; [done|]. intros f pc Hf Hpc. apply Hall. apply list_elem_of_In, in_concat.
  exists (fragmentPieces f (sf_subChunkSize t)). split; [apply in_map_iff; exists f; split; [done|]|]; by apply list_elem_of_In.
Qed.
End Ready.
End Sender.

(** ** Complete arrivals *)

(** Packets for every piece make every fragment whole. *)
Lemma covered_wholes id fs sub sc pkts :
  positioned id fs -> len fs < 2 ^ 32 -> (forall f, f ∈ fs -> len (fragmentPieces f sub) < 2 ^ 32) ->
  (forall f pc, f ∈ fs -> pc ∈ fragmentPieces f sub -> exists pkt, pkt ∈ pkts /\ packs id sc pc pkt) -> wholes sub fs pkts = len fs.
Proof.
  intros Hpos Hl Hb Hall. unfold wholes, len. f_equal. rewrite (List.filter_ext_in _ (fun _ => true)), List.filter_true; [by rewrite length_seq|].
  intros i [_ Hi]%in_seq. unfold whole. destruct (lookup_lt_is_Some_2 fs i ltac:(lia)) as [f Hf]. rewrite Hf. apply forallb_seq. intros j Hj.
  pose proof (list_elem_of_lookup_2 _ _ _ Hf) as Hin. unfold piece_payloads in Hj. rewrite length_map in Hj.
  destruct (lookup_lt_is_Some_2 (fragmentPieces f sub) j Hj) as [pc Hpc].
  destruct (Hall f pc Hin (list_elem_of_lookup_2 _ _ _ Hpc)) as (pkt & Hp & Hk). unfold arrived. apply existsb_exists. exists pkt.
  split; [by apply list_elem_of_In|].
  pose proof (fragmentPieces_keys f sub (Hb f Hin)) as Hkeys. unfold frag_keys, piece_payloads in Hkeys. rewrite length_map in Hkeys.
  match type of Hkeys with map ?g ?l = map ?h ?k => change (g <$> l = h <$> k) in Hkeys end. apply (f_equal (lookup j)) in Hkeys.
  rewrite !list_lookup_fmap, Hpc, lookup_seq_lt in Hkeys by done. cbn in Hkeys. injection Hkeys as _ Hj'.
  destruct (fragmentPieces_spec f sub (Hb f Hin)) as (_ & _ & Hs). destruct (Hs pc (list_elem_of_lookup_2 _ _ _ Hpc)) as (j' & p & _ & Epc).
  rewrite (pk_index _ _ _ _ Hk), (pk_sub _ _ _ _ Hk), Epc. cbn [set_piece f_Index]. rewrite (Hpos i f Hf). cbn [f_Index new_fragment].
  rewrite Epc in Hj'. cbn [set_piece f_SubIndex] in Hj' |- *. by rewrite Hj', !Z.eqb_refl.
Qed.

(** The packet that completes what is needed. *)
Lemma completing fs sub pkts n :
  (forall f, f ∈ fs -> len (fragmentPieces f sub) < 2 ^ 32) -> 0 < n -> n <= wholes sub fs pkts ->
  exists pre x post, pkts = pre ++ x :: post /\ wholes sub fs pre < n /\ n <= wholes sub fs (pre ++ [x]).
Proof.
  intros Hb Hn. induction pkts as [|x pkts IH] using rev_ind; intros Hw.
  - exfalso. unfold wholes in Hw. rewrite (List.filter_ext_in _ (fun _ => false)), List.filter_false in Hw by (intros i _; by apply whole_nil).
    unfold len in Hw. cbn in Hw. lia.
  - destruct (Z.lt_ge_cases (wholes sub fs pkts) n) as [|Hge].
    + exists pkts, x, []. by split_and!.
    + destruct (IH Hge) as (pre & y & post & -> & H1 & H2). exists pre, y, (post ++ [x]). rewrite <- app_assoc. by split_and!.
Qed.

(** ** The network between the nodes *)

Section Network.
Context `{R : RSOps} `{C : CryptoOps} `{L : !CryptoLaws C} `{N : NetOps}.
Context (ordT : gmap bytes transferState -> list (bytes * transferState)) (srt : list (bytes * Z) -> list (bytes * Z)) (fmt : Z -> bytes).
Context (ord : gmap Z bytes -> list (Z * bytes)) (sink : bytes -> bool).
Context (owner : string -> string).         (** whose data port an address is *)

Abbreviation network := (string -> option (relayNode * sendEnv)).

Definition upd (net : network) (id : string) (x : relayNode * sendEnv) : network := fun k => if String.eqb k id then Some x else net k.

(** The onions a node reads when an emission reaches it: a packet on a connection goes
    through the connection handler, a link frame straight to the relay. *)
Definition lands (net : network) (e : emission) : list (string * bytes) :=
  match e with
  | XTCP addr pkt =>
      match net (owner addr) with
      | Some (n, _) =>
          let t := rn_config n in
          omap (fun ev => match ev with CRelay blob => Some (owner addr, blob) | _ => None end)
            (handleConnection (sf_transfer t) (sf_selfID t) (sf_signKey t) (sf_padCell t) fmt ord sink ordT srt (rn_transfers n) [mkRead 0 pkt true] 0).2
      | None => []
      end
  | XLink node blob => [(node, blob)]
  | _ => []
  end.

(** An onion at [at.1] travels to its end, where the node's state changes. *)
Definition hear (fuel : nat) (no : network * list (string * relay_event)) (at_ : string * bytes) : network * list (string * relay_event) :=
  let '(net, out) := no in
  match travel ord sink net fuel at_.1 at_.2 with
  | Some (dest, n, evs) => (match net dest with Some (_, env) => upd net dest (n, env) | None => net end, out ++ map (pair dest) evs)
  | None => (net, out)
  end.

(** What happens, emission by emission. *)
Fixpoint hear_all (fuel : nat) (net : network) (es : list emission) : network * list (list (string * relay_event)) :=
  match es with
  | [] => (net, [])
  | e :: es =>
      let '(net, out) := fold_left (hear fuel) (lands net e) (net, []) in
      let '(net, outs) := hear_all fuel net es in (net, out :: outs)
  end.

Lemma travel_more net fuel k node blob x : travel ord sink net fuel node blob = Some x -> travel ord sink net (fuel + k) node blob = Some x.
Proof.
  revert node blob. induction fuel as [|fuel IH]; intros node blob; [done|]. cbn [travel Nat.add]. destruct (net node) as [[n env]|]; [|done].
  destruct (handleRelayBlob _ _ _ _ _ _) as [[n' w'] evs]. destruct evs as [|[] [|]]; try done. apply IH.
Qed.

(** A relay packet from a node with its own key is accepted on a connection. *)
Lemma relay_packet_lands t net r blob e :
  len (sf_signKey t) = ed_PrivateKeySize -> sf_selfID t = DeriveNodeID (ed_public (sf_signKey t)) ->
  owner (pe_Address r) = pe_ID r -> is_Some (net (pe_ID r)) -> hands t r blob e -> lands net e = [(pe_ID r, blob)].
Proof using L.
  intros Hk Hid Ho [[n env] Hn] [(now & nowStr & ->)| ->]; [|done]. cbn [lands]. rewrite Ho, Hn. unfold handleConnection.
  set (p := set_source (sf_selfID t) (NewPacket now nowStr PacketTypeRelay blob "" "")).
  destruct (sign_verify (sf_signKey t) p (p_Timestamp p) (p_Pad p)) as (Hv & _ & _). destruct (Hv Hk) as (Hver & Hsig & Hp).
  unfold relayPacket. fold p.
  assert (Hq : set_timestamp (p_Timestamp p) (set_pad (p_Pad p) (Sign (sf_signKey t) p)) = Sign (sf_signKey t) p) by (unfold Sign; by rewrite (proj2 (Z.eqb_eq _ _) Hk)).
  rewrite Hq in Hver. rewrite Hver, Hsig. unfold Sign. rewrite (proj2 (Z.eqb_eq _ _) Hk). cbn -[DeriveNodeID NewPacket]. 
  rewrite Hid, String.eqb_refl. done.
Qed.

(** ** Arriving at the destination *)

Section Arriving.
Context (t : SendConfig) (env : sendEnv) (Hdraw : forall i, wf_draws (v_draw env i)).
Context (Hsigner : len (sf_signKey t) = ed_PrivateKeySize) (Hself : sf_selfID t = DeriveNodeID (ed_public (sf_signKey t))).
Context (net : network) (key : string -> bytes) (bound : Z) (nodes : list Node) (dest : Node) (nd : relayNode) (envd : sendEnv).
Context (Hrel : forall r, relay_among nodes (n_ID dest) r -> reachable net key bound r /\ owner (pe_Address r) = pe_ID r).
Context (Hdest : reachable net key bound (dest_peer dest)) (Hnet : net (n_ID dest) = Some (nd, envd)).
Context (Hhops : 0 < hopsFor t (onion_relays nodes (n_ID dest)) (peerDialAddr dest)).

Abbreviation hops := (hopsFor t (onion_relays nodes (n_ID dest)) (peerDialAddr dest)).
Abbreviation fuel := (S (Z.to_nat hops)).

(** The network when the destination holds the transfers [tr]. *)
Definition holding (tr : gmap bytes transferState) (net' : network) : Prop :=
  net' (n_ID dest) = Some (with_transfers nd tr, envd) /\ forall k, k <> n_ID dest -> net' k = net k.

Lemma holding_upd tr tr' net' : holding tr net' -> holding tr' (upd net' (n_ID dest) (with_transfers nd tr', envd)).
Proof. intros [H1 H2]. unfold upd. split; [by rewrite String.eqb_refl|]. intros k Hk. rewrite (proj2 (String.eqb_neq _ _) Hk). by apply H2. Qed.

Lemma holding_reachable tr net' r : holding tr net' -> reachable net key bound r -> reachable net' key bound r.
Proof using Hnet.
  intros [H1 H2] (Hk & (n & e & Hn & Hp & Hu) & Hb). split_and!; [done| |done]. destruct (decide (pe_ID r = n_ID dest)) as [E|Hne].
  - assert (n = nd /\ e = envd) as [-> ->] by by split; rewrite E in Hn; congruence. exists (with_transfers nd tr), envd. by rewrite E in Hp |- *.
  - exists n, e. by rewrite (H2 _ Hne).
Qed.

Lemma bears_lands tr net' rb id sc frags pc pkt e :
  holding tr net' -> bears_piece t env nodes dest bound rb id sc frags pc pkt e ->
  let '(tr', o) := ingestForwardedFragment (sf_transfer (rn_config nd)) ord sink (v_clock envd 0).1 tr pkt false in
  exists net'', fold_left (hear fuel) (lands net' e) (net', []) = (net'', [(n_ID dest, RIngested o)]) /\ holding tr' net''.
Proof using Hdraw Hsigner Hself Hrel Hdest Hnet Hhops L.
  intros Hh [_ _ Hwf [Ht Hd] _ Hsz (r & blob & (picked & oh & k & Hall & Hlen & Hoh & Hb) & Hhands)].
  assert (Hrr : reachable net key bound r /\ owner (pe_Address r) = pe_ID r) by by apply Hrel; apply Forall_cons in Hall as [? _].
  destruct Hrr as [Hrr Ho]. rewrite (relay_packet_lands t net' r blob e Hsigner Hself Ho); [| |done].
  2: { destruct (holding_reachable tr net' r Hh Hrr) as (_ & (n & en & Hn & _) & _). rewrite Hn. by eexists. }
  set (path := r :: picked ++ [dest_peer dest]) in *.
  assert (Hpath : Forall (reachable net' key bound) path).
  { unfold path. rewrite app_comm_cons. apply Forall_app. split; [|apply Forall_singleton; by eapply holding_reachable]. eapply Forall_impl; [exact Hall|].
    intros x Hx. eapply holding_reachable; [done|]. by apply Hrel. }
  destruct (built_onion_travels env Hdraw ord sink net' key bound path oh k (MarshalBinary pkt) blob) as (first & d & n & en & rest & H1 & H2 & H3 & H4 & H5).
  - done.
  - done.
  - done.
  - done.
  - unfold marshaledLen in Hsz. unfold path. rewrite len_cons, len_app. unfold len at 2 3. cbn [length] in *. destruct Hdest as (_ & _ & Hbd).
    pose proof (len_nonneg (str_bytes (pe_Address (dest_peer dest)))). pose proof (len_nonneg (str_bytes (pe_ID (dest_peer dest)))). nia.
  - injection H1 as <-. unfold path in H2. rewrite app_comm_cons, last_snoc in H2. injection H2 as <-. cbn [dest_peer pe_ID] in H3, H4, H5.
    assert (n = with_transfers nd tr /\ en = envd) as [-> ->] by by destruct Hh; split; congruence.
    assert (Hkey : tc_nodePriv (sf_transfer (rn_config (with_transfers nd tr))) = Some (key (n_ID dest))).
    { destruct Hdest as (_ & (n2 & e2 & Hn2 & Hk2 & _) & _). cbn [dest_peer pe_ID] in Hn2, Hk2. assert (n2 = nd) as -> by congruence. done. }
    pose proof (handle_data ord sink (with_transfers nd tr) envd (key (n_ID dest)) rest pkt (mkWorld [] 0 (mkStanding ∅ ∅)) Hkey H4 Hwf Ht Hd) as Hhd.
    cbn [with_transfers rn_config rn_transfers] in Hhd. change (clock_now envd (mkWorld [] 0 (mkStanding ∅ ∅))) with (v_clock envd 0) in Hhd.
    destruct (ingestForwardedFragment _ _ _ _ _ _ _) as [tr' o]. specialize (H5 _ _ _ Hhd ltac:(done)).
    cbn [fold_left]. unfold hear. cbn [fst snd].
    assert (Hf : exists k, fuel = (length path + k)%nat) by (exists (fuel - length path)%nat; unfold path; cbn [length] in *; rewrite length_app; cbn [length]; lia).
    destruct Hf as [k' ->]. rewrite (travel_more net' (length path) k' (pe_ID r) blob _ H5). rewrite (proj1 Hh).
    eexists. split; [reflexivity|]. exact (holding_upd tr tr' net' Hh).
Qed.

(** The network refines the receiver: what arrives at the destination, emission by
    emission, is what [ingest_all] makes of the packets inside. *)
Lemma hear_all_ingests rb id sc frags es pkts tr net' :
  holding tr net' -> Forall2 (fun e pkt => exists pc, bears_piece t env nodes dest bound rb id sc frags pc pkt e) es pkts ->
  let '(tr', os) := ingest_all (sf_transfer (rn_config nd)) ord sink tr (map (fun pkt => (pkt, ((v_clock envd 0).1, false))) pkts) in
  exists net'', hear_all fuel net' es = (net'', map (fun o => [(n_ID dest, RIngested o)]) os) /\ holding tr' net''.
Proof using Hdraw Hsigner Hself Hrel Hdest Hnet Hhops L.
  intros Hh HF. revert tr net' Hh. induction HF as [|e pkt es pkts [pc Hb] _ IH]; intros tr net' Hh; [by exists net'|]. cbn [map ingest_all hear_all].
  pose proof (bears_lands tr net' rb id sc frags pc pkt e Hh Hb) as H1. destruct (ingestForwardedFragment _ _ _ _ _ _ _) as [tr1 o].
  destruct H1 as (net1 & E1 & Hh1). rewrite E1. specialize (IH tr1 net1 Hh1). destruct (ingest_all _ _ _ _ _) as [tr2 os].
  destruct IH as (net2 & -> & Hh2). exists net2. done.
Qed.
Lemma holding_self : holding (rn_transfers nd) net.
Proof using Hnet. split; [|done]. rewrite Hnet. by destruct nd. Qed.

(** The ways back to a sender that names only its reply block. *)
Definition back_paths (rb : bytes) : list ack_path := concat (repeat (if 0 <? len rb then [PReply rb] else []) ackRedundancy).

(** Every packet of a send acknowledges over the reply block it names. *)
Lemma bears_acks rb id sc fs pc pkt e : bears_piece t env nodes dest bound rb id sc fs pc pkt e -> acks_of pkt false = back_paths rb.
Proof using Type.
  intros Hb. destruct (be_back _ _ _ _ _ _ _ _ _ _ _ _ Hb) as [H1 H2]. unfold acks_of, ackWithRedundancy, ackSenders. cbn [new_state ts_replyBlock ts_sourceNode].
  rewrite H1, H2. cbn [String.eqb negb]. by rewrite app_nil_r.
Qed.

(** The packets inside the emissions [ks]. *)
Lemma arrived_packets rb id sc fs es pkts ks :
  Forall2 (fun e pkt => exists pc, bears_piece t env nodes dest bound rb id sc fs pc pkt e) es pkts -> Forall (fun k => (k < length es)%nat) ks ->
  Forall2 (fun e pkt => exists pc, bears_piece t env nodes dest bound rb id sc fs pc pkt e) (omap (fun k => es !! k) ks) (omap (fun k => pkts !! k) ks).
Proof using Type.
  intros HF Hks. induction Hks as [|k ks Hk _ IH]; [constructor|]. cbn. destruct (lookup_lt_is_Some_2 es k Hk) as [e He].
  destruct (Forall2_lookup_l _ _ _ _ _ HF He) as (pkt & Hp & Hb). rewrite He, Hp. by constructor.
Qed.

(** Whatever arrives of a send, in any order and number of copies, each arrival delivers
    nothing or exactly its payload. *)
Lemma arrivals_only rb id data fs sc hybrid pq es pkts ks :
  (forall m, ord m ≡ₚ map_to_list m) -> rn_transfers nd !! id = None -> positioned id fs -> len fs < 2 ^ 32 -> sc_Streaming sc = false ->
  (forall f, f ∈ fs -> len (fragmentPieces f (sf_subChunkSize t)) < 2 ^ 32) ->
  rebuilds id data fs sc (recipientOpener (sf_transfer (rn_config nd)) (seal_flags sc hybrid pq)) ->
  carries_all t env nodes dest bound rb id (seal_flags sc hybrid pq) fs es pkts -> Forall (fun k => (k < length es)%nat) ks ->
  exists net' os, hear_all fuel net (omap (fun k => es !! k) ks) = (net', map (fun o => [(n_ID dest, RIngested o)]) os) /\
    Forall (fun o => o = INone \/ o = IDispatch data (sc_Variable sc) (back_paths rb)) os /\ (forall k, k <> n_ID dest -> net' k = net k).
Proof using Hdraw Hsigner Hself Hrel Hdest Hnet Hhops L.
  intros Hord Hnone Hpos Hlf Hstr Hpb Hreb [HF _] Hks. set (sc' := seal_flags sc hybrid pq) in *.
  pose proof (arrived_packets _ _ _ _ _ _ ks HF Hks) as HFa. set (arr := omap (fun k => pkts !! k) ks) in *.
  set (stamp := fun pkt : Packet => (pkt, ((v_clock envd 0).1, false))).
  assert (Hsent : Forall (fun e => sent id fs (sf_subChunkSize t) sc' e.1 /\ acks_of e.1 e.2.2 = back_paths rb) (map stamp arr)).
  { clear -HFa. induction HFa as [|e p es1 pre [pc Hb] _ IH]; constructor; [|apply IH]. split; [apply Hb|by eapply bears_acks]. }
  destruct (ingest_rounds (sf_transfer (rn_config nd)) ord Hord sink (rn_transfers nd) id data fs (sf_subChunkSize t) sc hybrid pq Hnone Hpos Hlf Hstr Hpb Hreb _ _ Hsent)
    as (m & os & Hrun & _ & Hos).
  pose proof (hear_all_ingests rb id sc' fs _ arr (rn_transfers nd) net holding_self HFa) as Hh. fold stamp in Hh. rewrite Hrun in Hh.
  destruct Hh as (net' & Hh & _ & Hoth). by exists net', os.
Qed.

(** The emissions of a send, in any order and number of copies, deliver its payload at
    the one that completes it, and nothing before. *)
Lemma arrivals_deliver rb id data fs sc hybrid pq es pkts ks :
  (forall m, ord m ≡ₚ map_to_list m) -> rn_transfers nd !! id = None -> positioned id fs -> len fs < 2 ^ 32 -> sc_Streaming sc = false ->
  (forall f, f ∈ fs -> len (fragmentPieces f (sf_subChunkSize t)) < 2 ^ 32) ->
  rebuilds id data fs sc (recipientOpener (sf_transfer (rn_config nd)) (seal_flags sc hybrid pq)) -> 0 < needed sc fs <= len fs ->
  carries_all t env nodes dest bound rb id (seal_flags sc hybrid pq) fs es pkts ->
  Forall (fun k => (k < length es)%nat) ks -> (forall k, (k < length es)%nat -> k ∈ ks) ->
  exists pre e post net', omap (fun k => es !! k) ks = pre ++ e :: post /\
    hear_all fuel net (pre ++ [e]) =
      (net', map (fun o => [(n_ID dest, RIngested o)]) (repeat INone (length pre) ++ [IDispatch data (sc_Variable sc) (back_paths rb)])) /\
    holding (rn_transfers nd) net'.
Proof using Hdraw Hsigner Hself Hrel Hdest Hnet Hhops L.
  intros Hord Hnone Hpos Hlf Hstr Hpb Hreb [Hn0 Hn] [HF Hcov] Hks Hall. set (sc' := seal_flags sc hybrid pq) in *. set (arr := omap (fun k => pkts !! k) ks).
  pose proof (Forall2_length _ _ _ HF) as Hlen.
  pose proof (arrived_packets _ _ _ _ _ _ ks HF Hks) as HFa. fold arr in HFa.
  assert (Hw : wholes (sf_subChunkSize t) fs arr = len fs).
  { apply (covered_wholes id fs (sf_subChunkSize t) sc' arr Hpos Hlf Hpb). intros f pc Hf Hpc. destruct (Hcov f pc Hf Hpc) as (pkt & Hp & Hk). exists pkt. split; [|done].
    apply list_elem_of_lookup_1 in Hp as [k Hp]. apply list_elem_of_omap. exists k. split; [|done]. apply Hall. apply lookup_lt_Some in Hp. lia. }
  destruct (completing fs (sf_subChunkSize t) arr (needed sc fs) Hpb Hn0) as (pre & x & post & Earr & Hpre & Hx); [lia|].
  rewrite Earr in HFa. apply Forall2_app_inv_r in HFa as (es1 & es2 & HF1 & HF2 & Ees). apply Forall2_cons_inv_r in HF2 as (e & es3 & He & _ & ->).
  set (stamp := fun pkt : Packet => (pkt, ((v_clock envd 0).1, false))).
  assert (Hfst : (map stamp pre).*1 = pre) by (clear; induction pre as [|p l IH]; [done|]; cbn; by rewrite IH).
  assert (Hsent : Forall (fun e => sent id fs (sf_subChunkSize t) sc' e.1) (map stamp pre)).
  { clear -HF1. induction HF1 as [|e p es1 pre [pc Hb] _ IH]; constructor; [apply Hb|apply IH]. }
  destruct (ingest_waiting (sf_transfer (rn_config nd)) ord Hord sink (rn_transfers nd) id data fs (sf_subChunkSize t) sc hybrid pq Hnone Hpos Hlf Hstr Hpb Hreb
    (map stamp pre) Hsent) as (m & Hrun & Htr); [by rewrite Hfst|].
  assert (Hsx : sent id fs (sf_subChunkSize t) sc' x) by by destruct He as [pc Hb]; apply Hb.
  destruct (ingest_tracked (sf_transfer (rn_config nd)) ord Hord sink (rn_transfers nd) id data fs (sf_subChunkSize t) sc hybrid pq Hnone Hpos Hlf Hstr Hpb Hreb
    (map stamp pre) m x (v_clock envd 0).1 false Htr Hsx) as (m' & Hi & Hm').
  rewrite fmap_app, Hfst in Hi, Hm'. cbn [fmap list_fmap fst] in Hi, Hm'. rewrite (proj2 (Z.leb_le _ _) Hx) in Hi, Hm'. subst m'.
  assert (HF3 : Forall2 (fun e pkt => exists pc, bears_piece t env nodes dest bound rb id sc' fs pc pkt e) (es1 ++ [e]) (pre ++ [x])) by (apply Forall2_app; [done|by repeat constructor]).
  pose proof (hear_all_ingests rb id sc' fs (es1 ++ [e]) (pre ++ [x]) (rn_transfers nd) net holding_self HF3) as Hh.
  rewrite map_app in Hh. cbn [map] in Hh. fold stamp in Hh. change (stamp x) with (x, ((v_clock envd 0).1, false)) in Hh. rewrite ingest_all_snoc, Hrun, Hi in Hh.
  destruct Hh as (net' & Hh & Hhold). exists es1, e, es3, net'. split_and!; [done| |done]. rewrite Hh, (Forall2_length _ _ _ HF1), length_map.
  assert (Hack : first_acks (map stamp pre ++ [(x, ((v_clock envd 0).1, false))]) = back_paths rb); [|by rewrite Hack].
  destruct HF1 as [|e1 p1 ? ? Hb1 _]; cbn; [destruct He as [pc Hx1]|destruct Hb1 as [pc Hx1]]; by eapply bears_acks.
Qed.
End Arriving.
End Network.

(** ** Swarms of made nodes *)

Section EndToEnd.
Context `{R : RSOps} `{RL : !RSLaws R} `{C : CryptoOps} `{L : !CryptoLaws C} `{N : NetOps} `{J : DiscJson} `{GJ : GossipJson} `{SO : SeedOps} `{SL : !SeedLaws SO}.
Context `{SJ : StoreJson} `{RJ : ReplyJson}.
Context (shuffle : Z -> list nat -> list Peer -> list Peer) (Hshuffle : forall seed before l, shuffle seed before l ≡ₚ l).
Context (ordT : gmap bytes transferState -> list (bytes * transferState)) (srt : list (bytes * Z) -> list (bytes * Z)) (fmt : Z -> bytes).
Context (ord : gmap Z bytes -> list (Z * bytes)) (Hord : forall m, ord m ≡ₚ map_to_list m) (sink : bytes -> bool) (owner : string -> string).
Context {V : Type} (gob : bytes -> option V).

(** The running nodes, by identity, with what each one's surroundings answer. *)
Definition swarm : Type := string -> option (SyncSwarm * sendEnv).

(** The transfer service of a node that has been started and has no transfers yet. *)
Definition relay_of (sw : SyncSwarm) (pending : acks) : relayNode :=
  mkRelayNode (se_send (sw_transfer sw)) (se_storeForward (sw_transfer sw)) (se_offlineTTL (sw_transfer sw)) ∅ pending ∅ (mkHeld ∅ 0 None) ∅.

(** The nodes and the acknowledgements they wait for. *)
Definition network_of (pending : string -> acks) (s : swarm) : string -> option (relayNode * sendEnv) :=
  fun id => match s id with Some (sw, e) => Some (relay_of sw (pending id), e) | None => None end.

(** The key a node peels onions with. *)
Definition key_of (s : swarm) (id : string) : bytes :=
  match s id with Some (sw, _) => default [] (tc_nodePriv (sf_transfer (se_send (sw_transfer sw)))) | None => [] end.

(** What the applications of the swarm are handed. *)
Definition app_events (s : swarm) (evs : list (string * relay_event)) : list (string * app_event V) :=
  concat (map (fun '(id, ev) =>
    match ev, s id with
    | RIngested (IDispatch data variable _), Some (sw, _) => map (pair id) (onData gob (sw_opts sw) data variable)
    | _, _ => []
    end) evs).

(** [n] is what the table of a peer says of a node of the swarm: one that [New] made,
    that is up, under the identity, address and keys its discovery advertises. *)
Definition member (bound : Z) (s : swarm) (n : Node) : Prop :=
  exists ne opts sw e, (forall sd, ne_seed ne = Some sd -> len sd = SeedSize) /\ New ne opts = Ok sw /\ s (n_ID n) = Some (sw, e) /\
    (forall i, v_net e i = true) /\ n_PubKey n = dp_PubKey (discoveryPayload (sw_discovery sw)) /\ n_MLKEMPub n = dp_MLKEMPub (discoveryPayload (sw_discovery sw)) /\
    owner (peerDialAddr n) = n_ID n /\ 73 + len (str_bytes (peerDialAddr n)) + len (str_bytes (n_ID n)) <= bound.

Lemma member_reachable pending bound s n : member bound s n ->
  reachable (network_of pending s) (key_of s) bound (relay_peer n) /\ reachable (network_of pending s) (key_of s) bound (dest_peer n) /\ owner (peerDialAddr n) = n_ID n.
Proof using L SL.
  intros (ne & opts & sw & e & Hs & HN & Hsw & Hup & Hpub & _ & Ho & Hb). pose proof (New_ok ne opts sw Hs HN) as W.
  destruct (no_onion _ W) as (priv & Hpriv & Hx). cbn [discoveryPayload dp_PubKey] in Hpub.
  assert (Hk : key_of s (n_ID n) = priv) by (unfold key_of; by rewrite Hsw, Hpriv).
  assert (Hu : up (network_of pending s) (key_of s) (n_ID n)).
  { exists (relay_of sw (pending (n_ID n))), e. unfold network_of. rewrite Hsw, Hk. by split_and!. }
  assert (Hkk : n_PubKey n = x_public (key_of s (n_ID n))) by (by rewrite Hk, Hpub).
  split_and!; try done; split_and!; done.
Qed.

(** Two made nodes whose sealing agrees: see [sealing_agreement]. *)
Lemma made_sealers_match neA optsA A neB optsB B n sealer hybrid pq :
  (forall s, ne_seed neA = Some s -> len s = SeedSize) -> (forall s, ne_seed neB = Some s -> len s = SeedSize) ->
  New neA optsA = Ok A -> New neB optsB = Ok B ->
  n_PubKey n = dp_PubKey (discoveryPayload (sw_discovery B)) -> n_MLKEMPub n = dp_MLKEMPub (discoveryPayload (sw_discovery B)) ->
  o_SealToRecipient optsA = true \/ o_Key optsA = o_Key optsB ->
  contentSealer (sf_transfer (se_send (sw_transfer A))) (Some n) = (sealer, hybrid, pq) ->
  forall sc, sealer_match sealer (recipientOpener (sf_transfer (se_send (sw_transfer B))) (seal_flags sc hybrid pq)).
Proof using L SL.
  intros HsA HsB HA HB Hn1 Hn2 Hk Hseal sc. pose proof (sealing_agreement neA optsA A neB optsB B n (seal_flags sc hybrid pq) HsA HsB HA HB Hn1 Hn2) as H.
  cbv zeta in H. rewrite Hseal in H. destruct H as (Hh & _ & Hopen).
  assert (Hcase : (hybrid = true \/ o_Key optsA = o_Key optsB /\ len (o_Key optsA) = 32) \/ (hybrid = false /\ o_Key optsA = [] /\ o_Key optsB = [])).
  { apply New_inv in HA as (? & ? & ? & ? & Hl & _). destruct hybrid; [by left; left|]. destruct Hk as [Hk|Hk]; [congruence|]. destruct Hl as [Hl|Hl]; [right|by left; right].
    apply Z.eqb_eq, len_zero in Hl. by rewrite <- Hk, Hl. }
  destruct Hcase as [Hc|(-> & HkA & HkB)]; [destruct (Hopen Hc eq_refl eq_refl) as (sn & op & -> & -> & Hp); exact Hp|].
  pose proof (so_sealer _ _ (no_settings _ (New_ok _ _ _ HsA HA))) as SA. pose proof (so_sealer _ _ (no_settings _ (New_ok _ _ _ HsB HB))) as SB.
  apply New_inv in HA as (? & ? & ? & dirA & _ & _ & _ & _ & HoA & _), HB as (? & ? & ? & dirB & _ & _ & _ & _ & HoB & _). cbv zeta in *.
  rewrite HoA in SA. rewrite HoB in SB. change (o_Key (optsA{{o_StorageDir := dirA}})) with (o_Key optsA) in SA. change (o_Key (optsB{{o_StorageDir := dirB}})) with (o_Key optsB) in SB.
  rewrite HkA in SA. rewrite HkB in SB. change (len (@nil byte) =? 0) with true in SA, SB. cbv iota in SA, SB. unfold recipientOpener. cbn [seal_flags sc_HybridSealed]. rewrite SB.
  assert (sealer = None) as ->; [|done]. revert Hseal. unfold contentSealer. rewrite SA. repeat case_match; intros; simplify_eq; done.
Qed.

(** ** From one application to the other *)

Section Sending.
Context (pending : string -> acks) (s : swarm) (neA : newEnv) (optsA : Options) (A : SyncSwarm) (HsA : forall sd, ne_seed neA = Some sd -> len sd = SeedSize) (HA : New neA optsA = Ok A).
Context (env : sendEnv) (Hdraw : forall i, wf_draws (v_draw env i)) (Hup : forall i, v_net env i = true).
Context (bound : Z) (nodes : list Node) (dest : Node) (w : world) (Hready : ready env nodes dest w).
Context (Hmembers : forall n, n ∈ nodes -> n = dest \/ hasCapability (n_Capabilities n) "relay" = true -> member bound s n).
Context (B : SyncSwarm) (envB : sendEnv) (HB : s (n_ID dest) = Some (B, envB)).
Context (Hkeys : o_SealToRecipient optsA = true \/ o_Key (sw_opts A) = o_Key (sw_opts B)).
Context (id tok data : bytes) (ds : list draws).

Abbreviation tA := (se_send (sw_transfer A)).
Abbreviation hops := (hopsFor tA (onion_relays nodes (n_ID dest)) (peerDialAddr dest)).

(** The sizes of the payload, of its pieces in packets and of the onions around them
    are within their fields. *)
Record roomy (tok : bytes) : Prop := {
  ro_data : data <> [] /\ len data < 2 ^ 63 /\ len (Split data maxChunkSize) < 2 ^ 32;
  ro_shards : tc_dataShards (sf_transfer tA) + tc_parityShards (sf_transfer tA) <= 256;
  ro_draws : Forall wf_draws ds /\ len (Split data maxChunkSize) <= len ds /\ tc_dataShards (sf_transfer tA) + tc_parityShards (sf_transfer tA) <= len ds;
  ro_pieces sealer hybrid pq frags sc : contentSealer (sf_transfer tA) (Some dest) = (sealer, hybrid, pq) ->
    buildFragments (sf_transfer tA) id data false sealer ds = Ok (frags, sc) ->
    (forall f, f ∈ frags -> len (fragmentPieces f (sf_subChunkSize tA)) < 2 ^ 32) /\
    forall fc w1, newForwardCtx tA env dest nodes id (seal_flags sc hybrid pq) tok w = (w1, Ok fc) -> fits tA env bound fc frags
}.

(** However the emissions [es] arrive, some of them, in any order and number of copies:
    each arrival hands the application of [dest] nothing or exactly [data], no other
    application anything, and changes no other node.  If all of them arrive, one arrival
    is the first to hand [data] over; [dest] then acknowledges over [acks], and the whole
    network is as it was before. *)
Definition hands_over (es : list emission) (acks : list ack_path) : Prop :=
  forall ks, Forall (fun k => (k < length es)%nat) ks ->
  (exists net' outs, hear_all ordT srt fmt ord sink owner (S (Z.to_nat hops)) (network_of pending s) (omap (fun k => es !! k) ks) = (net', outs) /\
    Forall (fun o => app_events s o = [] \/ app_events s o = [(n_ID dest, AppData data)]) outs /\ forall k, k <> n_ID dest -> net' k = network_of pending s k) /\
  ((forall k, (k < length es)%nat -> k ∈ ks) ->
  exists pre e post net' outs, omap (fun k => es !! k) ks = pre ++ e :: post /\
    hear_all ordT srt fmt ord sink owner (S (Z.to_nat hops)) (network_of pending s) (pre ++ [e]) = (net', outs) /\
    last outs = Some [(n_ID dest, RIngested (IDispatch data false acks))] /\
    map (app_events s) outs = repeat [] (length pre) ++ [[(n_ID dest, AppData data)]] /\
    net' (n_ID dest) = Some (relay_of B (pending (n_ID dest)), envB) /\ forall k, k <> n_ID dest -> net' k = network_of pending s k).

(** The settings of the sender that decide how it sends. *)
Lemma sender_settings : 0 < o_HopCount optsA -> o_AdaptiveOnionHops optsA = false -> o_PerHopRouting optsA = false ->
  is_Some (tc_nodePriv (sf_transfer tA)) /\ wantForward tA = true /\ usePerHop tA = false /\ hops = o_HopCount optsA /\
  len (sf_signKey tA) = ed_PrivateKeySize /\ sf_selfID tA = DeriveNodeID (ed_public (sf_signKey tA)) /\ sf_adaptiveOnion tA = false /\ sf_hopCount tA = o_HopCount optsA.
Proof using HA HsA L SL.
  intros Hh Had Hph. pose proof (New_ok _ _ _ HsA HA) as W. pose proof (no_identified _ W) as [I1 I2 _]. pose proof (no_self _ W) as [S1 _]. pose proof (no_sign _ W) as S2.
  apply New_inv in HA as (signPriv & nodePriv & port & dir & Hkey & _ & _ & _ & Hopts & Htr & _). cbv zeta in *.
  set (opts' := optsA{{o_StorageDir := dir}}) in *. set (t0 := NewTransfer _ _ _ _ _ _ _ _ _ _ _) in *.
  destruct (NewTransfer_spec (DeriveNodeID (ed_public signPriv)) (o_Key optsA) (Some nodePriv) signPriv (o_HopCount optsA) (o_Redundancy optsA) (o_DataShards optsA)
    (o_ParityShards optsA) (o_ConfirmDelivery optsA) port (ne_host neA) Hkey) as (_ & _ & _ & T4 & _ & T6 & _). fold t0 in T4, T6.
  destruct (configure_spec neA opts' t0) as ((_ & _ & _ & _ & _ & _ & C7 & _ & C9) & Cs & Ca & Cp & _). cbv zeta in *. rewrite <- Htr in *. clearbody t0. clear Htr.
  change (o_AdaptiveOnionHops opts') with (o_AdaptiveOnionHops optsA) in Ca. change (o_PerHopRouting opts') with (o_PerHopRouting optsA) in Cp.
  split_and!.
  - rewrite C7, T6. by eexists.
  - unfold wantForward. by rewrite C9, T4, (proj2 (Z.ltb_lt _ _) Hh).
  - unfold usePerHop. by rewrite Cp, Hph.
  - unfold hopsFor. by rewrite Ca, Had, C9, T4.
  - by rewrite S2.
  - by rewrite S1, S2.
  - by rewrite Ca.
  - by rewrite C9, T4.
Qed.

Lemma built_frags : roomy tok -> exists sealer hybrid pq frags sc, contentSealer (sf_transfer tA) (Some dest) = (sealer, hybrid, pq) /\
  buildFragments (sf_transfer tA) id data false sealer ds = Ok (frags, sc) /\ len frags < 2 ^ 32 /\ positioned id frags /\ sc_Variable sc = false /\
  sc_Streaming sc = false /\ 0 < needed sc frags <= len frags /\
  rebuilds id data frags sc (recipientOpener (sf_transfer (se_send (sw_transfer B))) (seal_flags sc hybrid pq)).
Proof using HA HB HsA Hkeys Hmembers Hready L RL SL.
  intros [(Hne & H63 & Hlb) H256 (Hwf & Hl1 & Hl2) _]. destruct (Hmembers dest (rd_dest _ _ _ _ Hready) ltac:(by left)) as (neB & optsB & B' & eB & HsB & HNB & HB' & _ & Hp & Hm & _).
  assert (B' = B) as -> by congruence. destruct (contentSealer (sf_transfer tA) (Some dest)) as [[sealer hybrid] pq] eqn:Hseal.
  assert (Hk : o_SealToRecipient optsA = true \/ o_Key optsA = o_Key optsB).
  { destruct Hkeys as [?|Hk]; [by left|right]. apply New_inv in HA as (? & ? & ? & dA & _ & _ & _ & _ & HoA & _). apply New_inv in HNB as (? & ? & ? & dB & _ & _ & _ & _ & HoB & _).
    cbv zeta in *. rewrite HoA, HoB in Hk. exact Hk. }
  pose proof (made_sealers_match neA optsA A neB optsB B dest sealer hybrid pq HsA HsB HA HNB Hp Hm Hk Hseal) as Hmatch.
  set (rcv := recipientOpener (sf_transfer (se_send (sw_transfer B))) (seal_flags (mkScheme 0 0 0 false false false false false) hybrid pq)).
  destruct (buildFragments_rebuilds (sf_transfer tA) id data false sealer rcv ds (Hmatch _) Hlb H63 H256 Hwf Hl1 Hl2) as (frags & sc & HBf & Hlf & Hpos & Hv & Hstr & [Hn0 Hn] & Hr).
  exists sealer, hybrid, pq, frags, sc. split_and!; try done. by apply Hn0.
Qed.

Lemma sends_hand_over ordered sealer hybrid pq frags sc :
  0 < o_HopCount optsA -> o_AdaptiveOnionHops optsA = false -> o_PerHopRouting optsA = false -> o_OnDataReceived (sw_opts B) = true -> roomy tok ->
  contentSealer (sf_transfer tA) (Some dest) = (sealer, hybrid, pq) -> buildFragments (sf_transfer tA) id data false sealer ds = Ok (frags, sc) ->
  exists es fc w1, w_log (sendOnce shuffle tA env "" (n_ID dest) nodes ordered id frags (seal_flags sc hybrid pq) tok w) = w_log w ++ es /\
    newForwardCtx tA env dest nodes id (seal_flags sc hybrid pq) tok w = (w1, Ok fc) /\ hands_over es (back_paths (fc_replyBlock fc)).
Proof using All.
  intros Hh Had Hph Hon Hroom Hseal Hbuild. destruct (sender_settings Hh Had Hph) as (Hpriv & Hwant & Hhop & Hhops & Hsig & Hself & _).
  destruct (built_frags Hroom) as (sealer' & hybrid' & pq' & frags' & sc' & Hseal' & Hbuild' & Hlf & Hpos & Hv & Hstr & Hn & Hreb).
  assert (sealer' = sealer /\ hybrid' = hybrid /\ pq' = pq) as (-> & -> & ->) by (split_and!; congruence). assert (frags' = frags /\ sc' = sc) as [-> ->] by (split; congruence).
  destruct (ro_pieces _ Hroom sealer hybrid pq frags sc Hseal Hbuild) as [Hpb Hfit].
  assert (Hdest : reachable (network_of pending s) (key_of s) bound (dest_peer dest)) by by apply member_reachable, Hmembers; [apply Hready|left].
  assert (Hrel : forall r, relay_among nodes (n_ID dest) r -> reachable (network_of pending s) (key_of s) bound r /\ owner (pe_Address r) = pe_ID r).
  { intros r (n & Hn' & -> & _ & Hc). destruct (member_reachable pending bound s n) as (H1 & _ & H2); [by apply Hmembers; [|right]|]. done. }
  assert (Hpos_hops : 0 < hops) by (rewrite Hhops; exact Hh).
  destruct (sendOnce_onions shuffle Hshuffle tA env Hdraw Hup (network_of pending s) (key_of s) nodes dest w Hready Hpriv Hwant Hhop Hpos_hops bound ordered id tok frags (seal_flags sc hybrid pq))
    as (es & pkts & fc & w1 & Hlog & Hfc & Hcar); [intros r Hr; by apply Hrel|done|done|]. exists es, fc, w1. split; [done|]. split; [done|]. intros ks Hks.
  assert (Hnet : network_of pending s (n_ID dest) = Some (relay_of B (pending (n_ID dest)), envB)) by (unfold network_of; by rewrite HB).
  split.
  { destruct (arrivals_only ordT srt fmt ord sink owner tA env Hdraw Hsig Hself (network_of pending s) (key_of s) bound nodes dest (relay_of B (pending (n_ID dest))) envB Hrel Hdest Hnet Hpos_hops
      (fc_replyBlock fc) id data frags sc hybrid pq es pkts ks Hord eq_refl Hpos Hlf Hstr Hpb Hreb Hcar Hks) as (net' & os & H1 & H2 & H3).
    eexists net', _. split; [exact H1|]. split; [|done]. apply Forall_map. eapply Forall_impl; [exact H2|]. intros o [->| ->]; unfold app_events; cbn [map concat]; [by left|right].
    rewrite HB, Hv. unfold onData. by rewrite Hon. }
  intros Hall. destruct (arrivals_deliver ordT srt fmt ord sink owner tA env Hdraw Hsig Hself (network_of pending s) (key_of s) bound nodes dest (relay_of B (pending (n_ID dest))) envB Hrel Hdest Hnet Hpos_hops
    (fc_replyBlock fc) id data frags sc hybrid pq es pkts ks Hord eq_refl Hpos Hlf Hstr Hpb Hreb Hn Hcar Hks Hall) as (pre & e & post & net' & H1 & H2 & H3 & H4).
  eexists pre, e, post, net', _. split_and!; [done|exact H2| | |done|done].
  { rewrite map_app. cbn [map]. by rewrite last_snoc, Hv. }
  rewrite map_map, map_app, map_repeat. cbn [map].
  f_equal. unfold app_events. cbn [map concat]. rewrite HB, Hv. unfold onData. by rewrite Hon.
Qed.

Lemma SendTo_transfer ordA st m : o_ReliableLinkTransfer optsA = false ->
  SendTo shuffle A env ordA id tok ds data (n_ID dest) w st m = inl (SendDataTracked shuffle tA env ordA id tok ds data "" (n_ID dest) false w st m) /\
  sf_confirm tA = o_ConfirmDelivery optsA.
Proof using HA.
  intros Hl. apply New_inv in HA as (signPriv & nodePriv & port & dir & _ & _ & _ & _ & Hopts & Htr & _). cbv zeta in *. split.
  - unfold SendTo. rewrite Hopts. change (o_ReliableLinkTransfer (optsA{{o_StorageDir := dir}})) with (o_ReliableLinkTransfer optsA). by rewrite Hl.
  - rewrite Htr. unfold configure. destruct (o_OnDeliveryConfirmed _), (o_DisableDefaultSeeds _), (if o_PostQuantum _ then _ else _); cbn; unfold NewTransfer;
      destruct (if len (o_Key optsA) =? 0 then None else _); reflexivity.
Qed.

(** *** The acknowledgement *)

(** What the way back needs: the sender runs in the swarm but is not in its own table,
    waits for the token it drew, and its address and the relays' can be written in a
    reply block and in an onion. *)
Record awaits (envA : sendEnv) (key0 : bytes) : Prop := {
  aw_self : s (sw_selfID A) = Some (A, envA) /\ forall i, v_net envA i = true;
  aw_table : sw_selfID A ∉ map n_ID nodes;
  aw_name : sw_selfID A <> ""%string;
  aw_pending : pending (sw_selfID A) !! id = Some (mkPendingAck key0 tok "" 0 false);
  aw_token : tok <> [];
  aw_size : 73 + len (str_bytes (sf_selfAddr tA)) + len (str_bytes (sw_selfID A)) <= bound;
  aw_relays n : n ∈ nodes -> hasCapability (n_Capabilities n) "relay" = true -> ascii_str (peerDialAddr n) /\ peerDialAddr n <> ""%string;
  aw_ack i : wf_packet (ack_packet env id tok i) /\ marshaledLen (ack_packet env id tok i) + (len (onion_relays nodes (n_ID dest)) + 1) * bound < 2 ^ 32
}.

Lemma reachable_ext net net' key b r : (forall k, net' k = net k) -> reachable net key b r -> reachable net' key b r.
Proof. intros E (Hk & (n & e & Hn & Hp & Hu) & Hb). split_and!; [done| |done]. exists n, e. by rewrite E. Qed.

Lemma reply_path_ready : 0 < o_HopCount optsA -> o_AdaptiveOnionHops optsA = false -> o_PerHopRouting optsA = false ->
  sw_selfID A ∉ map n_ID nodes -> sw_selfID A <> ""%string -> exists hs, reply_path tA (onion_relays nodes (n_ID dest)) = Some hs.
Proof using HA HsA Hready L SL.
  intros Hh Had Hph Hself Hname. destruct (sender_settings Hh Had Hph) as ([priv Hpriv] & Hwant & _ & _ & _ & _ & Had' & Hhc).
  pose proof (no_self _ (New_ok _ _ _ HsA HA)) as [S1 S2]. assert (Hid : sf_selfID tA = sw_selfID A) by by rewrite S1, S2.
  unfold reply_path. rewrite Hpriv, Hwant. set (relays := onion_relays nodes (n_ID dest)). set (me := self_peer tA (x_public priv)). cbn [negb orb].
  assert (Hhops' : hopsFor tA relays (pe_Address me) = o_HopCount optsA).
  { unfold hopsFor. by rewrite Had', Hhc. }
  assert (Hg : path_guard me relays (o_HopCount optsA) = None).
  { destruct (rd_relay _ _ _ _ Hready) as (n & Hn & Hne & Hc & Ha & Hk). unfold path_guard. cbn [me self_peer pe_ID pe_PubKey]. rewrite Hid.
    rewrite bool_decide_eq_false_2 by (intros [?|H0]; [done|pose proof (x_public_len priv) as Hx; by rewrite H0 in Hx]). rewrite bool_decide_eq_false_2 by lia.
    rewrite bool_decide_eq_false_2; [done|]. intros [_ H0]. apply (not_elem_of_nil (relay_peer n)). rewrite <- H0. apply list_elem_of_In, filter_In. split.
    - apply in_map_iff. exists n. split; [done|]. apply filter_In. split; [by apply list_elem_of_In|]. rewrite (proj2 (String.eqb_neq _ _) Hne), (proj2 (Z.eqb_neq _ 0)), Hc by lia. done.
    - unfold eligible_for, relay_ok. cbn [relay_peer me self_peer pe_Active pe_RelayCapable pe_PubKey pe_ID]. rewrite Hid, Ha, (proj2 (Z.ltb_lt _ _) Hk).
      rewrite (proj2 (String.eqb_neq _ _)); [done|]. intros E. apply Hself. rewrite <- E. apply list_elem_of_In, in_map_iff. exists n. split; [done|by apply list_elem_of_In]. }
  assert (Hnd : NoDup (map pe_ID relays)).
  { unfold relays, onion_relays. rewrite map_map. cbn. apply map_nodup_filter, Hready. }
  destruct (BuildPath_selection me relays (o_HopCount optsA) Hnd Hg) as (picked & HBp & Hl & _). rewrite Hhops', HBp.
  assert (Hpl : (0 < path_len me relays (o_HopCount optsA))%nat).
  { unfold path_guard in Hg. repeat case_bool_decide; try done. unfold path_len. destruct (List.filter (eligible_for me) relays) eqn:E; [|cbn; lia]. exfalso. by match goal with H : ~ (0 < _ /\ _) |- _ => apply H end. }
  assert (Hr0 : (len relays =? 0) = false).
  { apply Z.eqb_neq. intros H0%Z.eqb_eq%len_zero. unfold path_len in Hpl. rewrite H0 in Hpl. cbn in Hpl. lia. }
  rewrite Hr0, (proj2 (Z.ltb_ge _ 1)) by lia. cbn iota. rewrite (proj2 (Z.ltb_ge _ 2)); [by eexists|]. rewrite len_app, len_map. unfold len. cbn [length]. lia.
Qed.

(** The acknowledgement the destination sends over the reply block is passed back by the
    relays and taken by the sender as that of its transfer. *)
Lemma ack_comes_home `{RJL : !ReplyJsonLaws RJ} envA key0 fc w1 sc net' : 0 < o_HopCount optsA -> o_AdaptiveOnionHops optsA = false -> o_PerHopRouting optsA = false ->
  awaits envA key0 -> (forall k, net' k = network_of pending s k) -> newForwardCtx tA env dest nodes id sc tok w = (w1, Ok fc) ->
  fc_replyBlock fc <> [] /\
  forall wB, exists e fuel net'', w_log (send_ack_path envB (se_send (sw_transfer B)) [] wB (PReply (fc_replyBlock fc))) = w_log wB ++ [e] /\
    hear_all ordT srt fmt ord sink owner fuel net' [e] = (net'', [[(sw_selfID A, RAck id AckClose)]]).
Proof using All.
  intros Hh Had Hph [[HsA' HupA] Htab Hname Hpend Htok Hsize Hrelays Hack] Hext Hfc.
  destruct (sender_settings Hh Had Hph) as ([priv Hpriv] & _). pose proof (no_self _ (New_ok _ _ _ HsA HA)) as [S1 S2].
  assert (Hid : sf_selfID tA = sw_selfID A) by by rewrite S1, S2. destruct (reply_path_ready Hh Had Hph Htab Hname) as [hs Hpath].
  set (relays := onion_relays nodes (n_ID dest)) in *.
  assert (Hin : forall r, r ∈ relays -> exists n, n ∈ nodes /\ r = relay_peer n /\ hasCapability (n_Capabilities n) "relay" = true).
  { intros r Hr. apply list_elem_of_In, in_map_iff in Hr as (n & <- & Hn). apply filter_In in Hn as [Hn [_ Hc]%andb_true_iff]. exists n. split_and!; [by apply list_elem_of_In|done|done]. }
  assert (Hre : forall r, r ∈ relays -> reachable net' (key_of s) bound r /\ owner (pe_Address r) = pe_ID r).
  { intros r (n & Hn & -> & Hc)%Hin. destruct (member_reachable pending bound s n) as (H1 & _ & H2); [by apply Hmembers; [|right]|]. split; [by eapply reachable_ext|done]. }
  assert (Hnd : NoDup (map pe_ID relays)) by (unfold relays, onion_relays; rewrite map_map; cbn; apply map_nodup_filter, Hready).
  assert (Hkey : key_of s (sw_selfID A) = priv) by (unfold key_of; by rewrite HsA', Hpriv).
  assert (HnA : net' (sf_selfID tA) = Some (relay_of A (pending (sw_selfID A)), envA)) by (rewrite Hid, Hext; unfold network_of; by rewrite HsA').
  unfold newForwardCtx in Hfc. rewrite Hpriv in Hfc. destruct (_ =? 0); [done|]. unfold act_bind at 1, relays_for in Hfc. rewrite relayPeers_clean in Hfc by apply Hready.
  cbn beta iota zeta in Hfc. fold relays in Hfc. destruct (_ && _); [done|]. destruct (_ <=? 0); [done|].
  destruct (reply_block_returns tA env Hdraw ord sink net' (key_of s) bound relays id tok (mkWorld (w_log w) (w_drawn w) (w_standing w)) hs key0 (relay_of A (pending (sw_selfID A))) envA)
    as (w' & rb & r & blob & fuel & Hb & Hr & Hne & Hs & Ht); try done.
  - apply Forall_forall. intros r Hr. by apply Hre.
  - apply Forall_forall. intros r (n & Hn & -> & Hc)%Hin. by apply Hrelays.
  - intros p Hp. assert (p = priv) as -> by congruence. split_and!; cbn [self_peer pe_ID pe_PubKey pe_Address]; [by rewrite Hid, Hkey| |by rewrite Hid].
    exists (relay_of A (pending (sw_selfID A))), envA. rewrite HnA, Hid, Hkey. by split_and!.
  - unfold act_bind in Hfc. rewrite Hb in Hfc. injection Hfc as _ <-. cbn [fc_replyBlock]. split; [done|]. intros wB.
    destruct (Hs (se_send (sw_transfer B)) envB wB) as (now & nowStr & Hlog). eexists _, fuel. destruct (Hre r Hr) as [(_ & (n & e & Hn & _) & _) Ho].
    destruct (Hmembers dest (rd_dest _ _ _ _ Hready) ltac:(by left)) as (neB & optsB & B' & eB & HsB & HNB & HB' & _). assert (B' = B) as -> by congruence.
    pose proof (New_ok _ _ _ HsB HNB) as WB. pose proof (no_identified _ WB) as [I1 I2 _]. pose proof (no_self _ WB) as [SB1 _]. pose proof (no_sign _ WB) as SB2.
    eexists. split; [exact Hlog|]. cbn [hear_all].
    rewrite (relay_packet_lands ordT srt fmt ord sink owner (se_send (sw_transfer B)) net' r blob _ ltac:(by rewrite SB2) ltac:(by rewrite SB1, SB2) Ho ltac:(by rewrite Hn; eexists)) by (left; eauto).
    cbn [fold_left]. unfold hear. cbn [fst snd]. rewrite Ht, HnA, Hid. reflexivity.
Qed.
End Sending.


(** An acknowledgement with the token, seen while the sender waits, ends the first wait. *)
Lemma confirm_first (env : sendEnv) ordA id tok destNode send todo w m key0 :
  tok <> [] -> v_acks env 0 = [OToken id tok] ->
  confirm_loop env ordA id destNode send (S todo) 0 w (registerAck m id key0 tok) = (send w, delete id m, Ok tt).
Proof.
  intros Ht Ha. cbn [confirm_loop]. rewrite Ha. unfold wait_acks, registerAck. cbn [fold_left wait_step ack_step fst snd]. unfold wait_step. cbn [ack_step fst snd].
  unfold signalAckToken, resolveAck. rewrite lookup_insert_eq. cbn [pa_token pa_late].
  rewrite nonempty_ltb, !bool_decide_eq_true_2 by done. cbn [andb orb]. by rewrite delete_insert_eq.
Qed.

(** C2: A confirmed send is confirmed by its recipient.  In the same swarm, with
    [ConfirmDelivery], the sender waits for the secret token it drew; what its onions
    carry names a reply block, over which the destination, once its application has the
    payload, acknowledges three times; each such packet reaches the entry relay, is
    passed on by the relays' own handlers and is taken by the sender's as the
    acknowledgement of this very transfer; and when that is what the sender sees while
    it waits, [SendTo] reports success and forgets the transfer. *)
Theorem confirmed_end_to_end `{RJL : !ReplyJsonLaws RJ} pending s neA optsA A envA env bound nodes dest w B envB id tok data ds ordA st m :
  (forall sd, ne_seed neA = Some sd -> len sd = SeedSize) -> New neA optsA = Ok A ->
  (forall i, wf_draws (v_draw env i)) -> (forall i, v_net env i = true) -> ready env nodes dest w ->
  (forall n, n ∈ nodes -> n = dest \/ hasCapability (n_Capabilities n) "relay" = true -> member bound s n) ->
  s (n_ID dest) = Some (B, envB) -> o_OnDataReceived (sw_opts B) = true ->
  o_SealToRecipient optsA = true \/ o_Key (sw_opts A) = o_Key (sw_opts B) ->
  0 < o_HopCount optsA -> o_AdaptiveOnionHops optsA = false -> o_PerHopRouting optsA = false -> o_ReliableLinkTransfer optsA = false ->
  o_ConfirmDelivery optsA = true -> roomy A env bound nodes dest w id data ds tok ->
  pending (sw_selfID A) = registerAck m id (n_SignKey dest) tok -> awaits pending s A env bound nodes dest id tok envA (n_SignKey dest) ->
  v_acks env 0 = [OToken id tok] ->
  exists w' st' es rb, SendTo shuffle A env ordA id tok ds data (n_ID dest) w st m = inl (w', st', delete id m, Ok tt) /\
    w_log w' = w_log w ++ es /\ hands_over pending s A nodes dest B envB data es [PReply rb; PReply rb; PReply rb] /\
    forall net' wB, (forall k, net' k = network_of pending s k) -> exists e fuel net'',
      w_log (send_ack_path envB (se_send (sw_transfer B)) [] wB (PReply rb)) = w_log wB ++ [e] /\
      hear_all ordT srt fmt ord sink owner fuel net' [e] = (net'', [[(sw_selfID A, RAck id AckClose)]]).
Proof using All.
  intros HsA HA Hdraw Hup Hready Hmem HB Hon Hkeys Hh Had Hph Hlink Hconf Hroom Hpend Haw Hacks.
  destruct (SendTo_transfer neA optsA A HA env dest w id tok data ds ordA st m Hlink) as [-> Hc]. rewrite Hconf in Hc.
  destruct (built_frags s neA optsA A HsA HA env bound nodes dest w Hready Hmem B envB HB Hkeys id tok data ds Hroom) as (sealer & hybrid & pq & frags & sc & Hseal & Hbuild & _).
  destruct (sender_settings neA optsA A HsA HA nodes dest Hh Had Hph) as (_ & _ & _ & Hhops & _).
  destruct (SendDataTracked_ready shuffle (se_send (sw_transfer A)) env nodes dest w Hready ltac:(rewrite Hhops; exact Hh) ordA id tok ds data false st m sealer hybrid pq frags sc Hseal Hbuild)
    as (st' & ordered & ->). rewrite Hc. unfold maxAckAttempts. rewrite (confirm_first env ordA id tok _ _ _ w m _ (aw_token _ _ _ _ _ _ _ _ _ _ _ Haw) Hacks).
  destruct (sends_hand_over pending s neA optsA A HsA HA env Hdraw Hup bound nodes dest w Hready Hmem B envB HB Hkeys id tok data ds ordered sealer hybrid pq frags sc
    Hh Had Hph Hon Hroom Hseal Hbuild) as (es & fc & w1 & Hlog & Hfc & Hover).
  assert (Hback : forall net', (forall k, net' k = network_of pending s k) -> _) by
    exact (fun net' Hext => ack_comes_home pending s neA optsA A HsA HA env Hdraw Hup bound nodes dest w Hready Hmem B envB HB Hkeys id tok data ds envA (n_SignKey dest) fc w1 _ net' Hh Had Hph Haw Hext Hfc).
  eexists _, st', es, (fc_replyBlock fc). split_and!; [|exact Hlog| |].
  - unfold release_ack. rewrite lookup_delete_eq. unfold unregisterAck. by rewrite delete_delete_eq.
  - destruct (Hback (network_of pending s) (fun _ => eq_refl)) as [Hne _].
    unfold back_paths in Hover. rewrite (nonempty_ltb _ Hne) in Hover. exact Hover.
  - intros net' wB Hext. by apply Hback.
Qed.
End EndToEnd.

(** ** Witnesses *)

Import Toy.
#[local] Existing Instances toy_ops toy_laws toy_rs toy_rs_laws no_ip toy_store_json toy_reply_json toy_reply_laws toy_seeds toy_seed_laws.

Definition sender_options (confirm : bool) : Options := zeroOptions{{o_HopCount := 1; o_DisableDefaultSeeds := true; o_ConfirmDelivery := confirm}}.
Definition relay_options : Options := zeroOptions{{o_Relay := true; o_DisableDefaultSeeds := true}}.
Definition reader_options : Options := zeroOptions{{o_OnDataReceived := true; o_DisableDefaultSeeds := true}}.
Definition quiet_swarm : sendEnv := sample_env_with swarm_nodes (fun _ => []).
Definition sender_env (confirm : bool) : sendEnv := sample_env_with swarm_nodes (fun _ => if confirm then [OToken sample_id [x42]] else []).
Definition sender_token (confirm : bool) : bytes := if confirm then [x42] else [].

(** The sender, a relay and the destination of [Node.swarm_nodes]. *)
Definition sample_swarm (confirm : bool) (id : string) : option (SyncSwarm * sendEnv) :=
  if String.eqb id (gossip_id x01) then Some (made_node x01 (sender_options confirm), quiet_swarm)
  else if String.eqb id (gossip_id x02) then Some (made_node x02 relay_options, quiet_swarm)
  else if String.eqb id (gossip_id x03) then Some (made_node x03 reader_options, quiet_swarm) else None.

Definition relay_entry : Node := swarm_node x02 "r:1" ["relay"%string].
Definition dest_entry : Node := swarm_node x03 "d:1" [].
Definition sample_owner (addr : string) : string := if String.eqb addr (peerDialAddr relay_entry) then gossip_id x02 else gossip_id x03.

Lemma sample_ready b : ready (sender_env b) swarm_nodes dest_entry empty_world.
Proof.
  split; try reflexivity.
  - apply (bool_decide_unpack _). vm_compute. exact I.
  - right. left.
  - vm_compute. discriminate.
  - exists relay_entry. split; [left|]. split; [vm_compute; discriminate|]. split; [reflexivity|split; reflexivity].
Qed.

Lemma sample_member b n : n ∈ swarm_nodes -> member (C := toy_ops) sample_owner 200 (sample_swarm b) n.
Proof.
  intros [->|[->|[]%not_elem_of_nil]%elem_of_cons]%elem_of_cons.
  - exists (sample_new x02), relay_options, (made_node x02 relay_options), quiet_swarm.
    split; [apply sample_new_seed|]. split; [reflexivity|]. split; [destruct b; vm_compute; reflexivity|]. split; [reflexivity|]. vm_compute. split_and!; (reflexivity || discriminate).
  - exists (sample_new x03), reader_options, (made_node x03 reader_options), quiet_swarm.
    split; [apply sample_new_seed|]. split; [reflexivity|]. split; [destruct b; vm_compute; reflexivity|]. split; [reflexivity|]. vm_compute. split_and!; (reflexivity || discriminate).
Qed.

Lemma sample_roomy b : roomy (C := toy_ops) (made_node x01 (sender_options b)) (sender_env b) 200 swarm_nodes dest_entry empty_world sample_id [x01] [sample_draw] (sender_token b).
Proof.
  split.
  - split; [done|split; vm_compute; reflexivity].
  - destruct b; vm_compute; discriminate.
  - split; [repeat constructor|]. destruct b; split; vm_compute; discriminate.
  - intros sealer hybrid pq frags sc Hseal Hbuild. destruct b; vm_compute in Hseal; injection Hseal as <- <- <-; vm_compute in Hbuild; injection Hbuild as <- <-; (split;
      [by intros f ->%list_elem_of_singleton
      |intros fc w1 Hfc; vm_compute in Hfc; injection Hfc as <- <-; intros i f pc ->%list_elem_of_singleton Hpc; apply list_elem_of_singleton in Hpc as ->; split;
       [match goal with |- wf_packet ?p => apply (unmarshal_wf (MarshalBinary p)) end; vm_compute; reflexivity|vm_compute; reflexivity]]).
Qed.


Definition sample_pending (id : string) : acks :=
  if String.eqb id (gossip_id x01) then registerAck ∅ sample_id (n_SignKey dest_entry) [x42] else ∅.

Lemma sample_pending_self : sample_pending (sw_selfID (made_node x01 (sender_options true))) = registerAck ∅ sample_id (n_SignKey dest_entry) [x42].
Proof.
  unfold sample_pending. assert (E : String.eqb (sw_selfID (made_node x01 (sender_options true))) (gossip_id x01) = true) by (vm_compute; reflexivity). by rewrite E.
Qed.

Lemma sample_awaits : awaits (C := toy_ops) sample_pending (sample_swarm true) (made_node x01 (sender_options true)) (sender_env true) 200 swarm_nodes dest_entry
  sample_id [x42] quiet_swarm (n_SignKey dest_entry).
Proof.
  split.
  - split; [vm_compute|intros i]; reflexivity.
  - apply (bool_decide_unpack _). vm_compute. exact I.
  - vm_compute. discriminate.
  - rewrite sample_pending_self. apply lookup_insert_eq.
  - discriminate.
  - vm_compute. discriminate.
  - intros n [->|[->|[]%not_elem_of_nil]%elem_of_cons]%elem_of_cons Hc; [|discriminate]. split; [repeat constructor|vm_compute; discriminate].
  - intros i. split; [|vm_compute; reflexivity]. apply (unmarshal_wf (MarshalBinary (ack_packet (sender_env true) sample_id [x42] 0))). vm_compute. reflexivity.
Qed.

Lemma confirmed_end_to_end_witness : exists w' st' es rb,
  SendTo (R := toy_rs) (C := toy_ops) toy_shuffle (made_node x01 (sender_options true)) (sender_env true) map_to_list sample_id [x42] [sample_draw] [x01]
    (gossip_id x03) empty_world empty_store ∅ = inl (w', st', ∅, Ok tt) /\
  hands_over (R := toy_rs) (C := toy_ops) map_to_list id (fun _ => []) map_to_list (fun _ => false) sample_owner (fun b => Some b) sample_pending (sample_swarm true)
    (made_node x01 (sender_options true)) swarm_nodes dest_entry (made_node x03 reader_options) quiet_swarm [x01] es [PReply rb; PReply rb; PReply rb] /\ w_log w' = es.
Proof.
  destruct (confirmed_end_to_end (R := toy_rs) (RL := toy_rs_laws) (C := toy_ops) (L := toy_laws) (SO := toy_seeds) (SL := toy_seed_laws) (RJL := toy_reply_laws) toy_shuffle toy_shuffle_perm
    map_to_list id (fun _ => []) map_to_list (fun m => reflexivity _) (fun _ => false) sample_owner (fun b => Some b) sample_pending (sample_swarm true)
    (sample_new x01) (sender_options true) (made_node x01 (sender_options true)) quiet_swarm (sender_env true) 200 swarm_nodes dest_entry empty_world
    (made_node x03 reader_options) quiet_swarm sample_id [x42] [x01] [sample_draw] map_to_list empty_store ∅)
    as (w' & st' & es & rb & H1 & H2 & H3 & _);
    [apply sample_new_seed|reflexivity|intros i; reflexivity|intros i; reflexivity|apply sample_ready|intros n Hn _; by apply sample_member
    |vm_compute; reflexivity|reflexivity|right; reflexivity|reflexivity|reflexivity|reflexivity|reflexivity|reflexivity|apply sample_roomy
    |apply sample_pending_self|apply sample_awaits|reflexivity|].
  exists w', st', es, rb. split; [exact H1|]. split; [exact H3|exact H2].
Defined.

(** An empty payload makes no fragment: [SendTo] reports success having sent nothing. *)
Example empty_payload_vanishes :
  match SendTo (R := toy_rs) (C := toy_ops) toy_shuffle (made_node x01 (sender_options false)) (sender_env false) map_to_list sample_id [] [sample_draw] []
    (gossip_id x03) empty_world empty_store ∅ with inl (w, _, _, r) => (w_log w, r) | inr _ => ([], Err ECanceled) end = ([], Ok tt).
Proof. vm_compute. reflexivity. Qed.

(** The send of the first witness, run: one onion, one payload delivered. *)
Example swarm_runs :
  match SendTo (R := toy_rs) (C := toy_ops) toy_shuffle (made_node x01 (sender_options false)) (sender_env false) map_to_list sample_id [] [sample_draw] [x01]
    (gossip_id x03) empty_world empty_store ∅ with
  | inl (w, _, _, _) =>
      map (app_events (fun b => Some b) (sample_swarm false))
        (hear_all (R := toy_rs) (C := toy_ops) map_to_list id (fun _ => []) map_to_list (fun _ => false) sample_owner 2 (network_of (fun _ => ∅) (sample_swarm false)) (w_log w)).2
  | inr _ => []
  end = [[(gossip_id x03, AppData [x01])]].
Proof. vm_compute. reflexivity. Qed.
