(* ===== verification/RelayMain.v ===== *)
(** * The relay program (relay/main.go)

    Flags with their environment defaults, the [-bridge] flag, the bridge pre-shared key,
    the options a relay is made with, and the reachability callback that suspends the
    relay capability.  [flag.Parse] is represented by the flags it found; the process
    environment by [environ]; [strconv.ParseFloat] and [time.ParseDuration] are
    parameters. *)

From Stdlib Require Import FloatClass SpecFloat.
From coqutil Require Import Datatypes.RecordSetters.
From S2P Require Import Prelude Crypto Wire Net Encryption PeerTable Discovery Pieces Forward Gossip Reach Bridge Node.
Import DoubleBraceUpdate.

(** ** Strings *)

(** The UTF-8 encodings of the runes [unicode.IsSpace] holds of. *)
Definition space_runes : list bytes :=
  [[x09]; [x0a]; [x0b]; [x0c]; [x0d]; [x20]; [xc2; x85]; [xc2; xa0]; [xe1; x9a; x80]; [xe2; x80; x80]; [xe2; x80; x81]; [xe2; x80; x82];
   [xe2; x80; x83]; [xe2; x80; x84]; [xe2; x80; x85]; [xe2; x80; x86]; [xe2; x80; x87]; [xe2; x80; x88]; [xe2; x80; x89]; [xe2; x80; x8a];
   [xe2; x80; xa8]; [xe2; x80; xa9]; [xe2; x80; xaf]; [xe2; x81; x9f]; [xe3; x80; x80]].

Fixpoint strip (p l : bytes) : option bytes :=
  match p, l with
  | [], _ => Some l
  | x :: p, y :: l => if bool_decide (x = y) then strip p l else None
  | _ :: _, [] => None
  end.

Fixpoint strip_any (ps : list bytes) (l : bytes) : option bytes :=
  match ps with
  | [] => None
  | p :: ps => match strip p l with Some r => Some r | None => strip_any ps l end
  end.

(** Each step removes at least one byte. *)
Fixpoint trim_runes (fuel : nat) (ps : list bytes) (l : bytes) : bytes :=
  match fuel with
  | O => l
  | S fuel => match strip_any ps l with Some r => trim_runes fuel ps r | None => l end
  end.

(** [bytes.TrimSpace] and [strings.TrimSpace]. *)
Definition TrimSpace (l : bytes) : bytes :=
  let l := trim_runes (length l) space_runes l in
  rev (trim_runes (length l) (map (@rev byte) space_runes) (rev l)).
Definition trim_string (s : string) : string := bytes_str (TrimSpace (str_bytes s)).

(** [strings.Split] on a comma and [strings.Join] with one. *)
Fixpoint split_comma (cur l : bytes) : list bytes :=
  match l with
  | [] => [rev cur]
  | b :: t => if bool_decide (b = ch ",") then rev cur :: split_comma [] t else split_comma (b :: cur) t
  end.
Definition Split (s : string) : list string := map bytes_str (split_comma [] (str_bytes s)).
Fixpoint Join (l : list string) : string :=
  match l with
  | [] => ""
  | [s] => s
  | s :: t => (s ++ "," ++ Join t)%string
  end.

(** [strconv.Atoi] on a 64-bit platform. *)
Definition digit (b : byte) : option Z := let d := byte_to_Z b - 48 in if (0 <=? d) && (d <=? 9) then Some d else None.
Fixpoint digits (acc : Z) (l : bytes) : option Z :=
  match l with
  | [] => Some acc
  | b :: t => match digit b with Some d => digits (acc * 10 + d) t | None => None end
  end.
Definition Atoi (s : string) : option Z :=
  let '(neg, l) := match str_bytes s with x2d :: t => (true, t) | x2b :: t => (false, t) | l => (false, l) end in
  match l with
  | [] => None
  | _ => match digits 0 l with
         | Some n => let n := if neg then - n else n in if (- 2 ^ 63 <=? n) && (n <? 2 ^ 63) then Some n else None
         | None => None
         end
  end.

Definition ParseBool (s : string) : option bool :=
  if existsb (String.eqb s) ["1"; "t"; "T"; "true"; "TRUE"; "True"]%string then Some true
  else if existsb (String.eqb s) ["0"; "f"; "F"; "false"; "FALSE"; "False"]%string then Some false else None.

(** ** Flags and their environment *)

Definition envStr (environ : string -> option string) (key def : string) : string := default def (environ key).

(** [envInt], [envFloat], [envBool] and [envDur], with the parser each uses. *)
Definition env_parsed {A} (parse : string -> option A) (environ : string -> option string) (key : string) (def : A) : A :=
  match environ key with
  | Some v => match parse v with Some n => n | None => def end
  | None => def
  end.
Definition envInt := env_parsed Atoi.
Definition envBool := env_parsed ParseBool.

Record bridgeFlag : Type := mkBridgeFlag { bf_set : bool; bf_vals : list string }.

Definition bridge_String (b : bridgeFlag) : string := Join (bf_vals b).

Definition bridge_Set (b : bridgeFlag) (v : string) : bridgeFlag :=
  let v := trim_string v in
  if String.eqb v "" || String.eqb v "true" then mkBridgeFlag true (bf_vals b)
  else if String.eqb v "false" then mkBridgeFlag false (bf_vals b)
  else mkBridgeFlag true (bf_vals b ++ List.filter (fun p => negb (String.eqb p "")) (map trim_string (Split v))).

Definition setFrom (b : bridgeFlag) (v : string) : bridgeFlag := if String.eqb (trim_string v) "" then b else bridge_Set b v.

Definition bridge_resolve (b : bridgeFlag) : list string :=
  if negb (bf_set b) then [] else if 0 <? len (bf_vals b) then bf_vals b else DefaultBridges.

Inductive relay_err : Type := EReadPSK | EEmptyPSK | EShortPSK (n : Z) | EArgument | EInit (e : new_err) | EHealth (code : Z).

(** [file] is the content of the key file, if it can be read. *)
Definition loadBridgePSK (environ : string -> option string) (path : string) (file : option bytes) : result relay_err bytes :=
  let checked psk := if len psk =? 0 then Err EEmptyPSK else if len psk <? MinBridgePSKLen then Err (EShortPSK (len psk)) else Ok psk in
  let v := envStr environ "SYNCSWARM_BRIDGE_PSK" "" in
  if negb (String.eqb v "") then checked (str_bytes v)
  else if negb (String.eqb path "") then match file with None => Err EReadPSK | Some b => checked (TrimSpace b) end
  else Ok [].

(** The flags found on the command line. *)
Record Flags : Type := mkFlags {
  fl_disc : option Z; fl_data : option Z; fl_storage : option string; fl_boot : option string; fl_bridgeListen : option string;
  fl_pskFile : option string; fl_bridge : list string; fl_auto : option bool; fl_lora : option string; fl_loraBaud : option Z;
  fl_serial : option string; fl_serialBaud : option Z; fl_loraDuty : option spec_float; fl_serialDuty : option spec_float;
  fl_store : option bool; fl_storeTTL : option Z; fl_scoring : option bool; fl_relay : option bool; fl_http : option string;
  fl_healthcheck : bool; fl_args : list string
}.

Section Main.
Context (parse_float : string -> option spec_float) (parse_duration : string -> option Z).
Context `{N : NetOps} `{C : CryptoOps} `{J : DiscJson} `{GJ : GossipJson} `{SO : SeedOps}.

Definition relayRole (environ : string -> option string) (f : Flags) : bool := default (envBool environ "SYNCSWARM_RELAY" true) (fl_relay f).

Definition bridge_flag (environ : string -> option string) (f : Flags) : bridgeFlag :=
  fold_left bridge_Set (fl_bridge f) (setFrom (mkBridgeFlag false []) (envStr environ "SYNCSWARM_BRIDGE" "")).

Definition bootstrap_peers (bootstrap : string) : list string :=
  let s := trim_string bootstrap in if String.eqb s "" then [] else Split s.

(** The options of the node; the rest are zero. *)
Definition relay_options (environ : string -> option string) (f : Flags) (psk : bytes) : Options :=
  zeroOptions{{
    o_StorageDir := default (envStr environ "SYNCSWARM_STORAGE_DIR" "./relay-data") (fl_storage f);
    o_Relay := relayRole environ f;
    o_StoreForward := default (envBool environ "SYNCSWARM_STORE_FORWARD" true) (fl_store f);
    o_StoreForwardTTL := default (env_parsed parse_duration environ "SYNCSWARM_STORE_FORWARD_TTL" 0) (fl_storeTTL f);
    o_RelayScoring := default (envBool environ "SYNCSWARM_RELAY_SCORING" true) (fl_scoring f);
    o_BootstrapPeers := bootstrap_peers (default (envStr environ "SYNCSWARM_BOOTSTRAP" "") (fl_boot f));
    o_BridgePeers := bridge_resolve (bridge_flag environ f);
    o_BridgeListen := default (envStr environ "SYNCSWARM_BRIDGE_LISTEN" "") (fl_bridgeListen f);
    o_BridgePSK := psk;
    o_AutoInterface := default (envBool environ "SYNCSWARM_AUTO_INTERFACE" false) (fl_auto f);
    o_LoRaDevice := default (envStr environ "SYNCSWARM_LORA_DEVICE" "") (fl_lora f);
    o_LoRaBaud := default (envInt environ "SYNCSWARM_LORA_BAUD" 0) (fl_loraBaud f);
    o_SerialDevice := default (envStr environ "SYNCSWARM_SERIAL_DEVICE" "") (fl_serial f);
    o_SerialBaud := default (envInt environ "SYNCSWARM_SERIAL_BAUD" 0) (fl_serialBaud f);
    o_LoRaDutyCycle := default (env_parsed parse_float environ "SYNCSWARM_LORA_DUTY" (S754_zero false)) (fl_loraDuty f);
    o_SerialDutyCycle := default (env_parsed parse_float environ "SYNCSWARM_SERIAL_DUTY" (S754_zero false)) (fl_serialDuty f);
    o_OnReachabilityChange := relayRole environ f;
    o_DiscoveryPort := default (envInt environ "SYNCSWARM_DISCOVERY_PORT" 64512) (fl_disc f);
    o_DataPort := default (envInt environ "SYNCSWARM_DATA_PORT" 64513) (fl_data f) }}.

(** [localizeAddr] and the exit code of [-healthcheck]; [probe] is the status the HTTP
    client gets. *)
Definition localizeAddr (addr : string) : string := match addr with String ":" _ => ("127.0.0.1" ++ addr)%string | _ => addr end.
Definition runHealthcheck (probe : string -> option Z) (httpAddr : string) : Z :=
  if String.eqb httpAddr "" then 1
  else match probe ("http://" ++ localizeAddr httpAddr ++ "/healthz")%string with Some 200 => 0 | _ => 1 end.

(** [main] up to the started node. *)
Definition relay_main (environ : string -> option string) (f : Flags) (file : option bytes) (probe : string -> option Z) (ne : newEnv) :
    result relay_err SyncSwarm :=
  if fl_healthcheck f then Err (EHealth (runHealthcheck probe (default (envStr environ "SYNCSWARM_HTTP_ADDR" "") (fl_http f))))
  else match loadBridgePSK environ (default (envStr environ "SYNCSWARM_BRIDGE_PSK_FILE" "") (fl_pskFile f)) file with
  | Err e => Err e
  | Ok psk =>
      if 0 <? len (fl_args f) then Err EArgument
      else match New ne (relay_options environ f psk) with Err e => Err (EInit e) | Ok node => Ok (Start node).1 end
  end.

(** The reachability callback: the capability follows the verdict. *)
Definition relay_round (e : env) (role : bool) (rs : Reach * Disc) (round : Z * list reach_event) : Reach * Disc :=
  let '(r, calls) := checkReachability rs.1 (di_port rs.2) round.1 round.2 in
  (r, if role then fold_left (fun D reachable => (SetRelay e D reachable).1) calls rs.2 else rs.2).
End Main.

(** ** The [-bridge] flag *)

(** A bridge target as an operator writes it: not blank, no comma, no space around it. *)
Definition plain_target (s : string) : Prop := s <> ""%string /\ (ch "," ∉ str_bytes s) /\ trim_string s = s.

Lemma strip_app p l r q : strip p l = Some q -> strip p (l ++ r) = Some (q ++ r).
Proof. revert l. induction p as [|x p IH]; intros [|y l]; cbn [strip app]; try (intros; simplify_eq; done). case_bool_decide; [apply IH|done]. Qed.

(** A pattern without the byte [c] matches before [c] or not at all. *)
Lemma strip_before p l c r : c ∉ p -> strip p (l ++ c :: r) = (q ← strip p l; Some (q ++ c :: r)).
Proof.
  revert l. induction p as [|x p IH]; intros l Hc; [by destruct l|]. apply not_elem_of_cons in Hc as [Hx Hp].
  destruct l as [|y l]; cbn [strip app].
  - rewrite bool_decide_false by done. done.
  - case_bool_decide; [by apply IH|done].
Qed.

Lemma strip_any_before ps l c r : (forall p, p ∈ ps -> c ∉ p) -> strip_any ps l = None -> strip_any ps (l ++ c :: r) = None.
Proof.
  induction ps as [|p ps IH]; intros Hc; [done|]. cbn [strip_any]. rewrite strip_before by (apply Hc; left).
  destruct (strip p l); [done|]. cbn. apply IH. intros p' Hp. apply Hc. by right.
Qed.

Lemma strip_length p l q : strip p l = Some q -> (length q + length p = length l)%nat.
Proof.
  revert l. induction p as [|x p IH]; intros [|y l]; cbn [strip]; try (intros; simplify_eq; cbn; lia).
  case_bool_decide; [|done]. intros Hq. apply IH in Hq. cbn. lia.
Qed.

Lemma strip_any_length ps l q : (forall p, p ∈ ps -> p <> []) -> strip_any ps l = Some q -> (length q < length l)%nat.
Proof.
  induction ps as [|p ps IH]; intros Hn; [done|]. cbn [strip_any]. destruct (strip p l) eqn:E.
  - intros [= ->]. apply strip_length in E. assert (p <> []) by (apply Hn; left). destruct p; [done|cbn in E; lia].
  - apply IH. intros p' Hp. apply Hn. by right.
Qed.

Lemma trim_runes_le fuel ps l : (forall p, p ∈ ps -> p <> []) -> (length (trim_runes fuel ps l) <= length l)%nat.
Proof.
  intros Hn. revert l. induction fuel as [|fuel IH]; intros l; cbn [trim_runes]; [done|]. destruct (strip_any ps l) as [q|] eqn:E; [|done].
  apply strip_any_length in E; [|done]. specialize (IH q). lia.
Qed.

(** With as much fuel as there are bytes, trimming ends where nothing more matches. *)
Lemma trim_runes_done fuel ps l : (forall p, p ∈ ps -> p <> []) -> (length l <= fuel)%nat -> strip_any ps (trim_runes fuel ps l) = None.
Proof.
  intros Hn. revert l. induction fuel as [|fuel IH]; intros l Hl; cbn [trim_runes].
  - destruct l; [|cbn in Hl; lia]. destruct (strip_any ps []) eqn:E; [|done]. apply strip_any_length in E; [cbn in E; lia|done].
  - destruct (strip_any ps l) eqn:E; [|done]. apply IH. apply strip_any_length in E; [lia|done].
Qed.

Lemma trim_runes_fixed fuel ps l : (forall p, p ∈ ps -> p <> []) -> (length l <= fuel)%nat -> trim_runes fuel ps l = l <-> strip_any ps l = None.
Proof.
  intros Hn Hl. split; [intros <-; by apply trim_runes_done|]. intros H. destruct fuel; cbn [trim_runes]; [done|by rewrite H].
Qed.

Definition back_runes : list bytes := map (@rev byte) space_runes.
Lemma space_runes_nonempty : forall p, p ∈ space_runes -> p <> [].
Proof. apply (proj1 (Forall_forall (fun p => p <> []) space_runes)). unfold space_runes. repeat constructor; done. Qed.
Lemma back_runes_nonempty : forall p, p ∈ back_runes -> p <> [].
Proof. apply (proj1 (Forall_forall (fun p => p <> []) back_runes)). unfold back_runes, space_runes. cbn [map rev app]. repeat constructor; done. Qed.
Lemma space_runes_comma : forall p, p ∈ space_runes ++ back_runes -> ch "," ∉ p.
Proof.
  apply (proj1 (Forall_forall (fun p => ch "," ∉ p) (space_runes ++ back_runes))).
  assert (H : forallb (fun p => negb (bool_decide (ch "," ∈ p))) (space_runes ++ back_runes) = true) by (vm_compute; reflexivity).
  apply Forall_forall. intros p Hp. rewrite forallb_forall in H. specialize (H p ltac:(by apply list_elem_of_In)).
  by apply negb_true_iff, bool_decide_eq_false in H.
Qed.

(** [TrimSpace] returns a text unchanged exactly if no space rune starts or ends it. *)
Lemma TrimSpace_fixed l : TrimSpace l = l <-> strip_any space_runes l = None /\ strip_any back_runes (rev l) = None.
Proof.
  unfold TrimSpace. fold back_runes. set (l' := trim_runes (length l) space_runes l).
  assert (Hl' : (length l' <= length l)%nat) by (apply trim_runes_le, space_runes_nonempty).
  pose proof (trim_runes_le (length l') back_runes (rev l') back_runes_nonempty) as Hb. rewrite length_rev in Hb.
  split.
  - intros H. assert (Hlen : length l' = length l) by (apply (f_equal length) in H; rewrite length_rev in H; lia).
    assert (Hl : l' = l).
    { unfold l' in Hlen |- *. destruct (length l) as [|f] eqn:E; [done|]. cbn [trim_runes] in Hlen |- *. destruct (strip_any space_runes l) as [q|] eqn:Es; [|done].
      apply strip_any_length in Es; [|apply space_runes_nonempty]. pose proof (trim_runes_le f space_runes q space_runes_nonempty). lia. }
    split; [apply (trim_runes_fixed (length l)); [apply space_runes_nonempty|done|exact Hl]|].
    rewrite Hl in H. apply (trim_runes_fixed (length l)); [apply back_runes_nonempty|by rewrite length_rev|]. rewrite <- H at 3. by rewrite rev_involutive.
  - intros [H1 H2]. assert (Hl : l' = l) by (apply trim_runes_fixed; [apply space_runes_nonempty|done|done]). rewrite Hl.
    rewrite (proj2 (trim_runes_fixed (length l) back_runes (rev l) back_runes_nonempty ltac:(by rewrite length_rev)) H2). apply rev_involutive.
Qed.

Lemma str_bytes_app a b : str_bytes (a ++ b) = str_bytes a ++ str_bytes b.
Proof. unfold str_bytes, list_byte_of_string. rewrite <- map_app. f_equal. induction a as [|c a IH]; [done|]. change (String c a ++ b)%string with (String c (a ++ b)). cbn [list_ascii_of_string app]. by rewrite IH. Qed.

Lemma trim_plain s : plain_target s -> strip_any space_runes (str_bytes s) = None /\ strip_any back_runes (rev (str_bytes s)) = None.
Proof. intros (_ & _ & H). apply TrimSpace_fixed. unfold trim_string in H. apply (f_equal str_bytes) in H. by rewrite bytes_str_bytes in H. Qed.

Lemma Join_cons s t : t <> [] -> Join (s :: t) = (s ++ "," ++ Join t)%string.
Proof. by destruct t. Qed.

Lemma Join_trimmed vals : vals <> [] -> Forall plain_target vals -> trim_string (Join vals) = Join vals.
Proof.
  intros Hne Hp. enough (H : strip_any space_runes (str_bytes (Join vals)) = None /\ strip_any back_runes (rev (str_bytes (Join vals))) = None).
  { unfold trim_string. apply TrimSpace_fixed in H. by rewrite H, str_bytes_str. }
  induction Hp as [|s t Hs Ht IH]; [done|]. destruct (trim_plain s Hs) as [Hf Hb].
  destruct (decide (t = [])) as [->|Hn]; [done|]. specialize (IH Hn) as [_ IH]. rewrite Join_cons, !str_bytes_app by done. split.
  - apply (strip_any_before space_runes _ (ch ",")); [|done]. intros p Hpr. apply space_runes_comma, elem_of_app. by left.
  - rewrite !rev_app_distr, <- !app_assoc. apply (strip_any_before back_runes _ (ch ",")); [|done]. intros p Hpr. apply space_runes_comma, elem_of_app. by right.
Qed.

Lemma split_comma_plain cur l r : ch "," ∉ l -> split_comma cur (l ++ r) = split_comma (rev l ++ cur) r.
Proof.
  revert cur. induction l as [|b l IH]; intros cur Hc; [done|]. apply not_elem_of_cons in Hc as [Hb Hl]. cbn [app split_comma].
  rewrite bool_decide_false by done. rewrite IH by done. cbn [rev]. by rewrite <- app_assoc.
Qed.

Lemma Split_Join vals : vals <> [] -> Forall plain_target vals -> Split (Join vals) = vals.
Proof.
  intros Hne Hp. unfold Split. induction Hp as [|s t Hs Ht IH]; [done|]. destruct Hs as (_ & Hc & _).
  destruct (decide (t = [])) as [->|Hn].
  - cbn [Join]. rewrite <- (app_nil_r (str_bytes s)), split_comma_plain, app_nil_r by done. cbn [split_comma map]. by rewrite rev_involutive, str_bytes_str.
  - rewrite Join_cons, !str_bytes_app, split_comma_plain, app_nil_r by done. change (str_bytes ",") with [ch ","]. cbn [app split_comma].
    rewrite bool_decide_true by done. cbn [map]. by rewrite rev_involutive, str_bytes_str, IH.
Qed.

(** What the flag prints it reads back: a list of targets given to [-bridge] is the list
    the relay bridges to. *)
Lemma bridge_flag_roundtrip b vals :
  vals <> [] -> Forall plain_target vals -> Join vals <> "true"%string -> Join vals <> "false"%string ->
  bridge_Set b (bridge_String (mkBridgeFlag true vals)) = mkBridgeFlag true (bf_vals b ++ vals) /\
  (bf_vals b = [] -> bridge_resolve (bridge_Set b (bridge_String (mkBridgeFlag true vals))) = vals).
Proof.
  intros Hne Hp Ht Hf. assert (Hset : bridge_Set b (bridge_String (mkBridgeFlag true vals)) = mkBridgeFlag true (bf_vals b ++ vals)).
  { unfold bridge_Set, bridge_String. cbn [bf_vals]. rewrite Join_trimmed by done.
    assert (He : Join vals <> ""%string) by (destruct vals as [|s t]; [done|]; inversion Hp as [|?? [Hs _] _]; subst; destruct t; [done|by destruct s]).
    rewrite (proj2 (String.eqb_neq _ _) He), (proj2 (String.eqb_neq _ _) Ht), (proj2 (String.eqb_neq _ _) Hf). cbn [orb]. do 2 f_equal.
    rewrite Split_Join by done. clear -Hp. induction Hp as [|s t (Hs & _ & Hq) Ht IH]; [done|]. cbn [map List.filter].
    rewrite Hq, (proj2 (String.eqb_neq _ _) Hs). cbn [negb]. by rewrite IH. }
  split; [exact Hset|]. intros Hb. rewrite Hset, Hb. unfold bridge_resolve. cbn. destruct vals; [done|]. reflexivity.
Qed.

(** ** The running relay *)

Section Relay.
Context (parse_float : string -> option spec_float) (parse_duration : string -> option Z).
Context `{N : NetOps} `{C : CryptoOps} `{J : DiscJson} `{GJ : GossipJson} `{SO : SeedOps}.

Lemma New_psk ne opts sw : New ne opts = Ok sw -> sw_bridgePSK sw = o_BridgePSK opts.
Proof using Type.
  unfold New. set (opts' := if String.eqb (o_StorageDir opts) "" then _ else opts).
  assert (Ho : o_BridgePSK opts' = o_BridgePSK opts) by (unfold opts'; by destruct (String.eqb _ "")). clearbody opts'.
  destruct (_ && _); [done|]. destruct (negb _); [done|]. destruct (_.2); [|done]. destruct (negb _); [done|]. destruct (ne_udp ne _); [|done].
  destruct (ne_onion ne); [|done]. destruct (ne_tcp ne _); [|done]. destruct (open_interfaces _ _ _). intros [= <-]. exact Ho.
Qed.

Lemma checked_key (psk psk' : bytes) :
  (if len psk =? 0 then Err EEmptyPSK else if len psk <? MinBridgePSKLen then Err (EShortPSK (len psk)) else Ok psk) = Ok psk' -> psk' = psk /\ MinBridgePSKLen <= len psk.
Proof using Type. destruct (_ =? 0); [done|]. destruct (Z.ltb_spec (len psk) MinBridgePSKLen); [done|]. by intros [= ->]. Qed.

(** The source of the key, if one is configured. *)
Definition psk_source (environ : string -> option string) (f : Flags) (file : option bytes) : option bytes :=
  let v := envStr environ "SYNCSWARM_BRIDGE_PSK" "" in
  let path := default (envStr environ "SYNCSWARM_BRIDGE_PSK_FILE" "") (fl_pskFile f) in
  if negb (String.eqb v "") then Some (str_bytes v) else if negb (String.eqb path "") then TrimSpace <$> file else None.

Lemma SetRelay_transport e D on : isTransport (SetRelay e D on).1 = on.
Proof using Type.
  unfold SetRelay, isTransport. cbn [fst di_capabilities set_advert]. set (l := List.filter _ _).
  assert (Hl : existsb (String.eqb "relay") l = false).
  { apply not_true_iff_false. intros (c & Hc & He)%existsb_exists. apply filter_In in Hc as [_ Hc]. rewrite String.eqb_sym in He. by rewrite He in Hc. }
  destruct on; [rewrite existsb_app, Hl; reflexivity|done].
Qed.
Lemma SetRelay_port e D on : di_port (SetRelay e D on).1 = di_port D.
Proof using Type. done. Qed.

Lemma relay_main_inv environ f file probe ne sw :
  relay_main parse_float parse_duration environ f file probe ne = Ok sw ->
  exists psk sw0, loadBridgePSK environ (default (envStr environ "SYNCSWARM_BRIDGE_PSK_FILE" "") (fl_pskFile f)) file = Ok psk /\ fl_args f = [] /\
    New ne (relay_options parse_float parse_duration environ f psk) = Ok sw0 /\ sw = sw0{{sw_running := true}}.
Proof using Type.
  unfold relay_main. destruct (fl_healthcheck f); [done|]. destruct (loadBridgePSK _ _ _) as [psk|]; [|done].
  destruct (Z.ltb_spec 0 (len (fl_args f))) as [|Hl]; [done|]. destruct (New _ _) as [sw0|] eqn:En; [|done]. intros [= <-]. exists psk, sw0.
  split_and!; try done; [destruct (fl_args f); [done|rewrite len_cons in Hl; pose proof (len_nonneg l); lia]|].
  unfold Start. apply New_inv in En as (? & ? & ? & ? & _ & _ & _ & _ & _ & _ & _ & Hr & _). by rewrite Hr.
Qed.

(** C21: A relay advertises the relay capability exactly if it was told to relay and AutoNAT
    has not found it unreachable: from its start, after any number of reachability
    rounds with any answers, the capability other nodes select hops by is the role with
    the last verdict applied, and it comes back when the verdict does. *)
Theorem relay_autodemote environ f file probe ne sw e rounds :
  relay_main parse_float parse_duration environ f file probe ne = Ok sw ->
  let role := relayRole environ f in
  let '(r, D) := fold_left (relay_round e role) rounds (mkReachState false false 0, sw_discovery sw) in
  isTransport D = role && negb (r_known r && negb (r_reachable r)) /\ di_port D = di_port (sw_discovery sw).
Proof using Type.
  intros H. cbv zeta. set (role := relayRole environ f).
  assert (H0 : isTransport (sw_discovery sw) = role).
  { apply relay_main_inv in H as (psk & sw0 & _ & _ & En & ->). apply New_inv in En as (? & ? & ? & ? & _ & _ & _ & _ & _ & _ & _ & _ & _ & _ & _ & _ & _ & Hc & _).
    change (sw_discovery sw0{{sw_running := true}}) with (sw_discovery sw0). unfold isTransport. rewrite Hc. change (o_Relay (relay_options _ _ environ f psk)) with role. by destruct role. }
  set (D0 := sw_discovery sw) in *. clearbody D0. clear H. set (r0 := mkReachState false false 0).
  assert (Hi : isTransport D0 = role && negb (r_known r0 && negb (r_reachable r0))) by (rewrite H0; cbn; by rewrite andb_true_r). clearbody r0. clear H0.
  revert r0 D0 Hi. induction rounds as [|[peers evs] rounds IH]; intros r D Hi; [done|]. cbn [fold_left]. unfold relay_round at 2. cbn [fst snd].
  pose proof (checkReachability_calls r (di_port D) peers evs) as Hc. destruct (checkReachability _ _ _ _) as [r' calls].
  destruct role eqn:Er; destruct Hc as [(-> & Hk & Hr)|[-> Hk]]; cbn [fold_left]; try (apply IH; rewrite Hi; cbn; by rewrite ?Hk, ?Hr).
  specialize (IH r' (SetRelay e D (r_reachable r')).1). destruct (fold_left _ _ _) as [rf Df]. rewrite SetRelay_port in IH. apply IH.
  rewrite SetRelay_transport, Hk. by destruct (r_reachable r').
Qed.

(** A relay that starts cannot read what it carries and its bridges are gated as
    configured: it has no content key and no erasure coding; if a key source is
    configured its bridges require exactly that key, of at least sixteen bytes, and only
    with no source at all are they open.  A source that is unreadable, empty or too
    short stops the relay instead of opening the bridge. *)
Theorem relay_gate environ f file probe ne sw :
  relay_main parse_float parse_duration environ f file probe ne = Ok sw ->
  let c := sf_transfer (se_send (sw_transfer sw)) in
  tc_sealer c = None /\ tc_dataShards c = 0 /\ tc_parityShards c = 0 /\
  match psk_source environ f file with
  | Some psk => sw_bridgePSK sw = psk /\ MinBridgePSKLen <= len psk
  | None => sw_bridgePSK sw = [] /\ envStr environ "SYNCSWARM_BRIDGE_PSK" "" = ""%string /\
            default (envStr environ "SYNCSWARM_BRIDGE_PSK_FILE" "") (fl_pskFile f) = ""%string
  end.
Proof using Type.
  intros H. apply relay_main_inv in H as (psk & sw0 & Hp & _ & En & ->). cbv zeta. pose proof (New_psk _ _ _ En) as Hpsk. change (sw0.(sw_bridgePSK) = psk) in Hpsk.
  apply New_inv in En as (signPriv & nodePriv & port & dir & _ & _ & _ & _ & _ & Ht & _). change (sw_bridgePSK sw0{{sw_running := true}}) with (sw_bridgePSK sw0). change (sw_transfer sw0{{sw_running := true}}) with (sw_transfer sw0). rewrite Hpsk.
  assert (Hrelay : forall opts t, tc_sealer (sf_transfer (se_send t)) = None -> (tc_dataShards (sf_transfer (se_send t)) <> 0 \/ tc_parityShards (sf_transfer (se_send t)) <> 0 -> 0 = 32) ->
    let c := sf_transfer (se_send (configure ne opts t)) in tc_sealer c = None /\ tc_dataShards c = 0 /\ tc_parityShards c = 0).
  { intros opts t H1 H2. cbv zeta. destruct (configure_spec ne opts t) as [(_ & -> & -> & -> & _) _]. split_and!; [done|lia|lia]. }
  rewrite Ht. clear Ht. match goal with |- context [configure ne ?o (NewTransfer ?a ?k ?b ?c ?d ?e ?g ?h ?i ?j ?l)] =>
    pose proof (NewTransfer_spec a k b c d e g h i j l (or_introl eq_refl)) as (_ & _ & _ & _ & _ & _ & _ & _ & Hs & Hd); destruct (Hrelay o _ Hs Hd) as (-> & -> & ->) end.
  split_and!; [done..|]. clear -Hp. unfold loadBridgePSK, psk_source in *. destruct (String.eqb (envStr environ _ "") "") eqn:Ev; cbn [negb] in *; [|by apply checked_key].
  destruct (String.eqb (default _ _) "") eqn:Ef; cbn [negb] in *; [apply String.eqb_eq in Ev, Ef; simplify_eq; done|].
  destruct file as [b|]; [cbn; by apply checked_key|done].
Qed.
End Relay.

(** ** Witnesses *)

Import Toy.

Definition no_flags : Flags :=
  mkFlags None None None None None None [] None None None None None None None None None None None None false [].
Definition key_environ (k : string) : option string := if String.eqb k "SYNCSWARM_BRIDGE_PSK_FILE" then Some "/run/psk"%string else None.
Definition key_file : bytes := str_bytes "0123456789abcdef" ++ [x0a].
Definition started_relay : result relay_err SyncSwarm :=
  relay_main (C := toy_ops) (SO := toy_seeds) (fun _ => None) (fun _ => None) key_environ no_flags (Some key_file) (fun _ => None) (sample_new x01).
Definition relay_of (r : result relay_err SyncSwarm) : SyncSwarm := match r with Ok s => s | Err _ => made_node x01 zeroOptions end.

(** Two rounds in which no peer connects back, then one that succeeds: the
    capability goes and comes back. *)
Definition lost_round : Z * list reach_event := (3, [EvResult false; EvResult false; EvResult false]).
Definition good_round : Z * list reach_event := (3, [EvResult true]).
Definition after_rounds (rounds : list (Z * list reach_event)) : Reach * Disc :=
  fold_left (relay_round (C := toy_ops) sample_env true) rounds (mkReachState false false 0, sw_discovery (relay_of started_relay)).

Lemma relay_autodemote_witness :
  isTransport (after_rounds [lost_round; lost_round]).2 = false /\ isTransport (after_rounds [lost_round; lost_round; good_round]).2 = true /\
  di_port (after_rounds [lost_round; lost_round; good_round]).2 = 64513.
Proof.
  pose proof (fun rounds => relay_autodemote (C := toy_ops) (SO := toy_seeds) (fun _ => None) (fun _ => None) key_environ no_flags (Some key_file) (fun _ => None) (sample_new x01)
    (relay_of started_relay) sample_env rounds ltac:(vm_compute; reflexivity)) as H.
  change (relayRole key_environ no_flags) with true in H. cbv zeta in H.
  assert (E1 : (after_rounds [lost_round; lost_round]).1 = mkReachState true false 0) by (vm_compute; reflexivity).
  assert (E2 : (after_rounds [lost_round; lost_round; good_round]).1 = mkReachState true true 0) by (vm_compute; reflexivity).
  split; [|split].
  - specialize (H [lost_round; lost_round]). fold (after_rounds [lost_round; lost_round]) in H. destruct (after_rounds _) as [r D]. destruct H as [H _]. cbn [fst snd] in *. by rewrite H, E1.
  - specialize (H [lost_round; lost_round; good_round]). fold (after_rounds [lost_round; lost_round; good_round]) in H. destruct (after_rounds _) as [r D]. destruct H as [H _]. cbn [fst snd] in *. by rewrite H, E2.
  - specialize (H [lost_round; lost_round; good_round]). fold (after_rounds [lost_round; lost_round; good_round]) in H. destruct (after_rounds _) as [r D]. destruct H as [_ H]. cbn [fst snd] in *. rewrite H. vm_compute. reflexivity.
Defined.

Lemma relay_gate_witness : sw_bridgePSK (relay_of started_relay) = str_bytes "0123456789abcdef".
Proof.
  pose proof (relay_gate (C := toy_ops) (SO := toy_seeds) (fun _ => None) (fun _ => None) key_environ no_flags (Some key_file) (fun _ => None) (sample_new x01)
    (relay_of started_relay) ltac:(vm_compute; reflexivity)) as (_ & _ & _ & H).
  change (psk_source key_environ no_flags (Some key_file)) with (Some (TrimSpace key_file)) in H. destruct H as [-> _]. vm_compute. reflexivity.
Defined.

(** A key that is too short, or a file that is all blank, stops the relay. *)
Example short_key_refused :
  match relay_main (C := toy_ops) (SO := toy_seeds) (fun _ => None) (fun _ => None) key_environ no_flags (Some (str_bytes "short")) (fun _ => None) (sample_new x01) with
  | Err (EShortPSK 5) => True | _ => False end /\
  match relay_main (C := toy_ops) (SO := toy_seeds) (fun _ => None) (fun _ => None) key_environ no_flags (Some [x0a; xe2; x80; x83]) (fun _ => None) (sample_new x01) with
  | Err EEmptyPSK => True | _ => False end.
Proof. vm_compute. done. Qed.

(** [-bridge] alone bridges to the defaults, with a list to the list. *)
Example bridge_flag_cases :
  bridge_resolve (bridge_Set (mkBridgeFlag false []) "true") = DefaultBridges /\ bridge_resolve (mkBridgeFlag false []) = [] /\
  bridge_resolve (bridge_Set (mkBridgeFlag false []) " a:1, ,b:2 ") = ["a:1"; "b:2"]%string /\ bridge_resolve (bridge_Set (mkBridgeFlag true []) "false") = [].
Proof. vm_compute. done. Qed.
