(* ===== verification/Linked.v ===== *)
(** * Sends over links (swarmsync/swarmsync.go, discovery/announce.go, transfer/transfer.go, internal/link)

    [Link] models the manager and the router of one link; here they are put together as
    the node uses them: links are dialled once and shared by every send to a peer, each
    link has one router for good, [SendToLink], [SendToResource] and [sendRelayViaLink]
    write through it, inbound frames are fed to it, and a send that fails closes the link
    under the others.  What waits (a dial, a resource) is split into its start and its
    end; writes to interfaces succeed.  Proved are the delivery of the messages sent
    over a link from the first frame of its handshake on, and that transfers sharing a link do not disturb each
    other as long as it is open; an [Example] shows what happens when one closes it. *)

From S2P Require Import Prelude Crypto Wire LinkMessage LinkResource LinkProgress Link PeerTable Discovery Gossip.

(** ** A node's links *)

(** [ln_routers] is [l.router] of each link object. *)
Record linkNode : Type := mkLinkNode { ln_mgr : Manager; ln_routers : gmap nat Router }.

(** What a frame brings: frames to send, payloads for the application, relay blobs. *)
Record arrival : Type := mkArrival { av_send : list (string * bytes); av_app : list bytes; av_relays : list bytes }.

Definition router_of (s : linkNode) (p : nat) : Router := default NewRouter (ln_routers s !! p).
Definition put_router (s : linkNode) (p : nat) (r : Router) : linkNode := mkLinkNode (ln_mgr s) (<[p := r]> (ln_routers s)).
Definition put_mgr (s : linkNode) (m : Manager) : linkNode := mkLinkNode m (ln_routers s).

(** [NewRouter(l)]: a link keeps the router it has. *)
Definition bind_router (s : linkNode) (p : nat) : linkNode := put_router s p (router_of s p).

Section Node.
Context `{C : CryptoOps} `{J : LinkJson}.

(** Frames written through [Link.Send]. *)
Definition write_link (now : Z) (nowStr : bytes) (s : linkNode) (p : nat) (fs : list bytes) : linkNode * list (string * bytes) :=
  let '(m, out) := send_all now nowStr (ln_mgr s) p fs in (put_mgr s m, out).

(** A link packet, with the callbacks [Start] installs on inbound links. *)
Definition on_packet (now : Z) (nowStr eph : bytes) (o : orders) (addr : string) (pkt : Packet) (s : linkNode) : linkNode * arrival :=
  let '(m, fs, ev) := Deliver now nowStr eph (ln_mgr s) addr pkt in
  let s := put_mgr s m in
  match ev with
  | evNone => (s, mkArrival fs [] [])
  | evLink p => (put_router s p (OnRelay (OnMessage (router_of s p))), mkArrival fs [] [])
  | evData p pt =>
      match ln_routers s !! p with
      | None => (s, mkArrival fs [] [])
      | Some r =>
          let '(r, out) := feed now o r pt in
          let '(s, gs) := write_link now nowStr (put_router s p r) p (rd_send out) in
          (s, mkArrival (fs ++ gs) (rd_messages out ++ map snd (rd_resources out)) (rd_relays out))
      end
  end.

(** [DialNode] up to its wait, and after it. *)
Inductive dialing : Type := Refused | Ready (p : nat) | Dialing (addr : string) (key id : bytes).

Definition DialNode_begin (enabled : bool) (D : Disc) (nodeID : string) (now : Z) (nowStr eph id : bytes) (s : linkNode) : linkNode * list (string * bytes) * dialing :=
  match DialNode_target enabled D nodeID with
  | None => (s, [], Refused)
  | Some (addr, key) =>
      match DialCached_lookup (ln_mgr s) addr key with
      | Some p => (s, [], Ready p)
      | None => let '(m, fs) := Dial_start now nowStr (ln_mgr s) addr key eph id in (put_mgr s m, fs, Dialing addr key id)
      end
  end.

Definition DialNode_end (addr : string) (key id : bytes) (timedOut : bool) (s : linkNode) : linkNode * option nat :=
  let '(m, l) := Dial_finish (ln_mgr s) addr id timedOut in
  match l with
  | None => (put_mgr s m, None)
  | Some p => let '(m, p) := DialCached_store m addr key p in (put_mgr s m, Some p)
  end.

Definition peer_addr (s : linkNode) (p : nat) : string := match mg_heap (ln_mgr s) !! p with Some l => lk_peerAddr l | None => "" end.

(** [SendToLink] once the link is dialled. *)
Definition SendToLink (now : Z) (nowStr msgID data : bytes) (p : nat) (s : linkNode) : linkNode * list (string * bytes) * result link_err unit :=
  let s := bind_router s p in
  match Router_SendMessage (ln_mgr s) (peer_addr s p) msgID data with
  | Err e => (s, [], Err e)
  | Ok fs => let '(s, out) := write_link now nowStr s p fs in (s, out, Ok tt)
  end.

(** [sendRelayViaLink] likewise. *)
Definition sendRelayViaLink (now : Z) (nowStr msgID blob : bytes) (p : nat) (s : linkNode) : linkNode * list (string * bytes) * bool :=
  let s := bind_router s p in
  match Router_SendRelay (ln_mgr s) (peer_addr s p) msgID blob with
  | Err _ => (put_mgr s (Close (ln_mgr s) p), [], false)
  | Ok fs => let '(s, out) := write_link now nowStr s p fs in (s, out, true)
  end.

(** [SendToResource] up to its wait; a tick of its retransmission loop; after the wait:
    [None] while it goes on, otherwise whether the transfer completed. *)
Definition SendToResource_begin (now : Z) (nowStr id data : bytes) (p : nat) (s : linkNode) : linkNode * list (string * bytes) * bool :=
  let s := bind_router s p in
  match SendResource_start now (ln_mgr s) (peer_addr s p) (router_of s p) id data with
  | Err _ => (put_mgr s (Close (ln_mgr s) p), [], false)
  | Ok (r, fs) => let '(s, out) := write_link now nowStr (put_router s p r) p fs in (s, out, true)
  end.

Definition put_sender (r : Router) (id : bytes) (sd : ResourceSender) : Router := mkRouter (ro_reasm r) (ro_relay r) (<[id := sd]> (ro_senders r)) (ro_receiver r).

Definition SendToResource_tick (now : Z) (nowStr id : bytes) (p : nat) (s : linkNode) : linkNode * list (string * bytes) :=
  match ro_senders (router_of s p) !! id with
  | None => (s, [])
  | Some sd => let '(sd, fs) := retransmitTick now sd in write_link now nowStr (put_router s p (put_sender (router_of s p) id sd)) p (map resourceSend fs)
  end.

Definition SendToResource_end (timedOut : bool) (id : bytes) (p : nat) (s : linkNode) : linkNode * option bool :=
  match ro_senders (router_of s p) !! id with
  | None => (s, None)
  | Some sd =>
      let sd := if timedOut then Wait_timeout sd else sd in
      match s_done sd with
      | None => (s, None)
      | Some ok =>
          let s := put_router s p (SendResource_end (router_of s p) id) in
          (if ok then s else put_mgr s (Close (ln_mgr s) p), Some ok)
      end
  end.
End Node.

(** ** A message from one node to another *)

Lemma prefixed_frames t msgID data chunk total todo : forall i s s',
  send_loop record_send msgID data chunk total i todo s = Ok s' ->
  forall u, send_loop (prefixed_send t) msgID data chunk total i todo u = Ok (u ++ map (cons t) (drop (length s) s')).
Proof.
  assert (Hx : forall todo i s s', send_loop record_send msgID data chunk total i todo s = Ok s' -> s = take (length s) s').
  { clear. induction todo as [|todo IH]; intros i s s'; cbn [send_loop]; [intros [= <-]; by rewrite firstn_all|]. unfold record_send at 1. intros H%IH.
    rewrite length_app in H. apply (f_equal (take (length s))) in H. rewrite take_app_length, take_take in H. by rewrite Nat.min_l in H by lia. }
  induction todo as [|todo IH]; intros i s s' H u; cbn [send_loop] in *; [simplify_eq; by rewrite drop_all, app_nil_r|].
  unfold record_send at 1 in H. unfold prefixed_send at 1. set (f := message_frame _ _ _ _) in *. rewrite (IH _ _ _ H). rewrite <- app_assoc. do 2 f_equal. cbn [app].
  apply Hx in H. rewrite <- (take_drop (length (s ++ [f])) s') at 2. rewrite <- H, <- app_assoc, drop_app_length. done.
Qed.

Lemma prefixed_message t msgID chunk data fs :
  sendMessageChunks record_send msgID chunk data [] = Ok fs -> sendMessageChunks (prefixed_send t) msgID chunk data [] = Ok (map (cons t) fs).
Proof. unfold sendMessageChunks. destruct (_ <? _); [done|]. intros H. by rewrite (prefixed_frames t _ _ _ _ _ _ _ _ H []). Qed.

Lemma record_loop msgID data chunk total todo : forall i s, exists fs, send_loop record_send msgID data chunk total i todo s = Ok fs.
Proof. induction todo as [|todo IH]; intros i s; cbn [send_loop]; [by eexists|]. unfold record_send at 1. apply IH. Qed.

Lemma prefixed_message_inv t msgID chunk data fs :
  sendMessageChunks (prefixed_send t) msgID chunk data [] = Ok fs -> exists gs, sendMessageChunks record_send msgID chunk data [] = Ok gs /\ fs = map (cons t) gs.
Proof.
  intros H. destruct (sendMessageChunks record_send msgID chunk data []) as [gs|] eqn:E.
  - exists gs. split; [done|]. apply (prefixed_message t) in E. congruence.
  - unfold sendMessageChunks in *. destruct (_ <? _); [done|]. edestruct record_loop as [gs Hgs]. rewrite Hgs in E. done.
Qed.

(** The frames of a message: short, and each at one place only. *)
Lemma message_frames_facts msgID chunk data gs :
  len msgID = 8 -> sendMessageChunks record_send msgID (if chunk <? 1 then 1 else chunk) data [] = Ok gs ->
  NoDup gs /\ gs <> [] /\ Forall (fun f => len f <= 12 + len data) gs.
Proof.
  intros Hid H. set (c := if chunk <? 1 then 1 else chunk) in *. assert (Hc : 0 < c) by (unfold c; destruct (Z.ltb_spec chunk 1); lia).
  destruct (message_chunks_spec c data Hc) as (Hcat & Hne & _ & _). rewrite sendMessageChunks_frames in H by done. set (cs := message_chunks c data) in *.
  destruct (Z.ltb_spec maxMessageChunks (len cs)) as [|Hmax]; [done|]. injection H as <-. change maxMessageChunks with 65535 in Hmax. split_and!.
  - apply NoDup_alt. intros i j f Hi Hj. apply frames_from_lookup in Hi as (a & Hi & ->), Hj as (b & Hj & He). apply lookup_lt_Some in Hi, Hj. unfold len in Hmax.
    unfold message_frame in He. apply app_inv_head in He. apply (f_equal (take 2)) in He. rewrite !take_app_le in He by (rewrite length_be_bytes; lia).
    rewrite !take_ge in He by (rewrite length_be_bytes; lia). unfold u16 in He. rewrite !Z.mod_small in He by lia. apply be_bytes_inj in He; lia.
  - destruct cs; [done|]. by cbn.
  - apply Forall_forall. intros f [j Hj]%list_elem_of_lookup_1. apply frames_from_lookup in Hj as (a & Ha & ->). unfold message_frame. rewrite !len_app, !len_be_bytes, Hid.
    assert (Hl : len a <= len data); [|lia]. rewrite <- Hcat. apply list_elem_of_lookup_2 in Ha. clear -Ha. induction cs as [|x cs IH]; [by apply not_elem_of_nil in Ha|].
    cbn [concat]. rewrite len_app. pose proof (len_nonneg x). pose proof (len_nonneg (concat cs)). apply elem_of_cons in Ha as [->|Ha]; [lia|]. specialize (IH Ha). lia.
Qed.

Section Delivery.
Context `{C : CryptoOps} `{L : !CryptoLaws C} `{J : LinkJson} `{JL : !LinkJsonLaws J}.

(** Read by a manager, the frame gives link [q] the plaintext. *)
Definition carries (m : Manager) (q : nat) (pt f : bytes) : Prop :=
  exists pkt, receive f = Some pkt /\ forall now nowStr eph addr, Deliver now nowStr eph m addr pkt = (m, [], evData q pt).

Lemma carries_same m q pt pt' f : carries m q pt f -> carries m q pt' f -> pt = pt'.
Proof using Type. intros (pkt & H & Hd) (pkt' & H' & Hd'). simplify_eq. specialize (Hd 0 [] [] ""%string). specialize (Hd' 0 [] [] ""%string). congruence. Qed.

Lemma send_all_carries now nowStr mR q id key addrS addrR b datas : is_i64 now -> len id = 16 -> len key = 32 -> linked mR q id key addrR (negb b) ->
  Forall (fun d => len d < 2 ^ 28) datas -> forall mS p, linked mS p id key addrS b ->
  exists mS' fs, send_all now nowStr mS p datas = (mS', map (pair addrS) fs) /\ Forall2 (carries mR q) datas fs /\ linked mS' p id key addrS b.
Proof using L JL.
  intros Hn Hid Hk HR Hd. induction Hd as [|d datas Hl Hd IH]; intros mS p HS; cbn [send_all]; [by exists mS, []|].
  destruct (link_data now nowStr mS p mR q id key addrS addrR b d Hn Hl Hid Hk HS HR) as (f & mS1 & -> & HS1 & Hf).
  destruct (IH mS1 p HS1) as (mS2 & fs & -> & Hfs & HS2). exists mS2, (f :: fs). split_and!; [done|by constructor|done].
Qed.

(** A frame as it comes off an interface. *)
Record hop : Type := mkHop { hp_now : Z; hp_nowStr : bytes; hp_eph : bytes; hp_orders : orders; hp_addr : string; hp_frame : bytes }.
Definition no_arrival : arrival := mkArrival [] [] [].
Definition on_frame (h : hop) (s : linkNode) : linkNode * arrival :=
  match receive (hp_frame h) with
  | Some pkt => on_packet (hp_now h) (hp_nowStr h) (hp_eph h) (hp_orders h) (hp_addr h) pkt s
  | None => (s, no_arrival)
  end.
Fixpoint on_frames (hs : list hop) (s : linkNode) : linkNode * list arrival :=
  match hs with
  | [] => (s, [])
  | h :: hs => let '(s, a) := on_frame h s in let '(s, l) := on_frames hs s in (s, a :: l)
  end.

Definition event_of (h : hop) (g : bytes) : Z * list (bytes * partial) * list (bytes * partial) * bytes :=
  (hp_now h, or_m1 (hp_orders h), or_m2 (hp_orders h), g).

Lemma on_message h q g r ra s :
  ln_routers s !! q = Some r -> ro_reasm r = Some ra -> carries (ln_mgr s) q (subMessage :: g) (hp_frame h) ->
  on_frame h s = (put_router s q (mkRouter (Some (Feed (hp_now h) (or_m1 (hp_orders h)) (or_m2 (hp_orders h)) ra g).1) (ro_relay r) (ro_senders r) (ro_receiver r)),
                  mkArrival [] (Feed (hp_now h) (or_m1 (hp_orders h)) (or_m2 (hp_orders h)) ra g).2 []).
Proof using Type.
  intros Hr Ha (pkt & Hp & Hd). unfold on_frame, on_packet. rewrite Hp, Hd. unfold put_mgr at 1. cbn [ln_routers]. rewrite Hr. cbn [feed]. rewrite bool_decide_true by done. rewrite Ha.
  destruct (Feed _ _ _ ra g) as [ra' ms]. cbn. unfold put_mgr, put_router. cbn. by rewrite app_nil_r.
Qed.

Lemma on_messages q hs gs : forall r ra s, ln_routers s !! q = Some r -> ro_reasm r = Some ra ->
  Forall2 (fun h g => carries (ln_mgr s) q (subMessage :: g) (hp_frame h)) hs gs ->
  let '(ra', outs) := run ra (zip_with event_of hs gs) in
  exists s', on_frames hs s = (s', map (fun ms => mkArrival [] ms []) outs) /\ ln_mgr s' = ln_mgr s /\
    exists r', ln_routers s' !! q = Some r' /\ ro_reasm r' = Some ra'.
Proof using Type.
  revert gs. induction hs as [|h hs IH]; intros gs r ra s Hr Ha Hc; inversion Hc as [|? g ? gs' Hg Hgs]; subst; cbn [zip_with run on_frames].
  - exists s. split; [done|]. split; [done|]. by exists r.
  - rewrite (on_message h q g r ra s Hr Ha Hg). set (ra1 := Feed _ _ _ ra g) in *. cbn [event_of]. fold ra1. destruct ra1 as [ra1 ms]. cbn [fst snd].
    set (r1 := mkRouter (Some ra1) _ _ _). specialize (IH gs' r1 ra1 (put_router s q r1) (lookup_insert_eq _ _ _) eq_refl Hgs).
    destruct (run ra1 (zip_with event_of hs gs')) as [ra' outs]. destruct IH as (s' & -> & Hm & Hr'). exists s'. split; [done|]. split; [done|done].
Qed.

(** The plaintexts of arrivals that are all frames of one send. *)
Lemma arrivals_plain m q (gs fs : list bytes) (hs : list hop) :
  Forall2 (carries m q) (map (cons subMessage) gs) fs -> Forall (fun h => hp_frame h ∈ fs) hs ->
  exists ds, Forall2 (fun h d => carries m q (subMessage :: d) (hp_frame h)) hs ds /\ Forall (fun d => d ∈ gs) ds.
Proof using Type.
  intros Hf. induction 1 as [|h hs Hh _ IH]; [by exists []|]. destruct IH as (ds & H1 & H2). apply list_elem_of_lookup_1 in Hh as [i Hi].
  destruct (Forall2_lookup_r _ _ _ _ _ Hf Hi) as (d & Hd & Hc). change (map (cons subMessage) gs) with (cons subMessage <$> gs) in Hd. rewrite list_lookup_fmap in Hd.
  destruct (gs !! i) as [g|] eqn:Eg; [|done]. cbn in Hd. simplify_eq. exists (g :: ds). split; [by constructor|]. constructor; [by eapply list_elem_of_lookup_2|done].
Qed.

Lemma plain_covered m q gs fs hs ds :
  Forall2 (carries m q) (map (cons subMessage) gs) fs -> Forall2 (fun h d => carries m q (subMessage :: d) (hp_frame h)) hs ds ->
  fs ⊆ map hp_frame hs -> gs ⊆ ds.
Proof using Type.
  intros Hf Hd Hs g [i Hi]%list_elem_of_lookup_1. assert (Hgi : map (cons subMessage) gs !! i = Some (subMessage :: g)).
  { change (map (cons subMessage) gs) with (cons subMessage <$> gs). by rewrite list_lookup_fmap, Hi. }
  destruct (Forall2_lookup_l _ _ _ _ _ Hf Hgi) as (f & Hfi & Hc). assert (Hin : f ∈ map hp_frame hs) by (apply Hs; by eapply list_elem_of_lookup_2).
  apply list_elem_of_fmap in Hin as (h & -> & [j Hj]%list_elem_of_lookup_1). destruct (Forall2_lookup_l _ _ _ _ _ Hd Hj) as (d & Hdj & Hc').
  pose proof (carries_same _ _ _ _ _ Hc Hc') as [= ->]. by eapply list_elem_of_lookup_2.
Qed.

Lemma plain_uncovered m q gs fs hs ds :
  NoDup gs -> Forall2 (carries m q) (map (cons subMessage) gs) fs -> Forall (fun h => hp_frame h ∈ fs) hs ->
  Forall2 (fun h d => carries m q (subMessage :: d) (hp_frame h)) hs ds -> gs ⊆ ds -> fs ⊆ map hp_frame hs.
Proof using Type.
  intros Hnd Hf Hh Hd Hs f [i Hi]%list_elem_of_lookup_1. destruct (Forall2_lookup_r _ _ _ _ _ Hf Hi) as (pt & Hpt & Hc).
  change (map (cons subMessage) gs) with (cons subMessage <$> gs) in *. rewrite list_lookup_fmap in Hpt. destruct (gs !! i) as [g|] eqn:Eg; [|done]. cbn in Hpt. simplify_eq.
  assert (Hg : g ∈ ds) by (apply Hs; by eapply list_elem_of_lookup_2). apply list_elem_of_lookup_1 in Hg as [j Hj].
  destruct (Forall2_lookup_r _ _ _ _ _ Hd Hj) as (h & Hhj & Hcj). assert (Hin : hp_frame h ∈ fs) by (rewrite Forall_forall in Hh; apply Hh; by eapply list_elem_of_lookup_2).
  apply list_elem_of_lookup_1 in Hin as [k Hk]. destruct (Forall2_lookup_r _ _ _ _ _ Hf Hk) as (pt & Hpt & Hck). rewrite list_lookup_fmap in Hpt.
  destruct (gs !! k) as [g'|] eqn:Eg'; [|done]. cbn in Hpt. simplify_eq. pose proof (carries_same _ _ _ _ _ Hck Hcj) as [= ->].
  assert (k = i) as -> by (eapply NoDup_lookup; eauto). simplify_eq. apply list_elem_of_fmap. exists h. split; [done|by eapply list_elem_of_lookup_2].
Qed.

(** The frames and the plaintexts they carry rebuild a message at the same arrivals. *)
Lemma rebuilt_plain m q gs fs hs ds :
  NoDup gs -> Forall2 (carries m q) (map (cons subMessage) gs) fs -> Forall (fun h => hp_frame h ∈ fs) hs ->
  Forall2 (fun h d => carries m q (subMessage :: d) (hp_frame h)) hs ds -> Forall (fun d => d ∈ gs) ds ->
  forall sh sd, Forall (fun h => hp_frame h ∈ fs) sh -> Forall2 (fun h d => carries m q (subMessage :: d) (hp_frame h)) sh sd ->
  let '(s1, l1) := rebuilt fs (map hp_frame sh) (map hp_frame hs) in
  let '(s2, l2) := rebuilt gs sd ds in l1 = l2 /\ length s1 = length s2.
Proof using Type.
  intros Hnd Hf Hh Hd. revert Hh. induction Hd as [|h d hs ds Hhd _ IH]; intros Hh Hg sh sd Hsh Hs; cbn [map rebuilt].
  { split; [done|]. rewrite length_map. by eapply Forall2_length. }
  apply Forall_cons in Hh as [Hh1 Hh], Hg as [Hg1 Hg]. unfold heard. rewrite !bool_decide_eq_true_2 by done.
  assert (E : forallb (fun g => bool_decide (g ∈ hp_frame h :: map hp_frame sh)) fs = forallb (fun g => bool_decide (g ∈ d :: sd)) gs).
  { assert (H2 : Forall2 (fun h d => carries m q (subMessage :: d) (hp_frame h)) (h :: sh) (d :: sd)) by by constructor.
    assert (H1 : Forall (fun h => hp_frame h ∈ fs) (h :: sh)) by by constructor.
    apply eq_true_iff_eq. rewrite !forallb_forall. split; intros H g Hin%list_elem_of_In; apply bool_decide_eq_true_2.
    - eapply (plain_covered m q gs fs (h :: sh) (d :: sd) Hf H2); [|exact Hin]. intros x Hx. specialize (H x (proj1 (list_elem_of_In _ _) Hx)). by rewrite bool_decide_eq_true in H.
    - apply (plain_uncovered m q gs fs (h :: sh) (d :: sd) Hnd Hf H1 H2); [|exact Hin]. intros x Hx. specialize (H x (proj1 (list_elem_of_In _ _) Hx)). by rewrite bool_decide_eq_true in H. }
  rewrite E. destruct (forallb _ gs).
  - specialize (IH Hh Hg [] [] ltac:(constructor) ltac:(constructor)). cbn [map] in IH. destruct (rebuilt fs [] _), (rebuilt gs [] _). destruct IH as [-> ?]. done.
  - specialize (IH Hh Hg (h :: sh) (d :: sd) ltac:(by constructor) ltac:(by constructor)). cbn [map] in IH.
    destruct (rebuilt fs _ _), (rebuilt gs _ _). destruct IH as [-> ?]. done.
Qed.

(** Arrivals that are all frames of the message deliver what [rebuilt] says. *)
Lemma outs_done (gs : list bytes) data (evs : events) done (outs : list (list bytes)) :
  Forall (fun e => ev_frame e ∈ gs) evs -> Forall3 (fun e (c : bool) o => ev_frame e ∈ gs -> o = if c then [data] else []) evs done outs ->
  outs = map (fun c : bool => if c then [data] else []) done.
Proof using Type.
  intros Hi H. induction H as [|e c o evs done outs Ho _ IH]; [done|]. apply Forall_cons in Hi as [He Hi]. cbn [map]. by rewrite Ho, IH.
Qed.

(** The two ends of a link, and the receiving end's router as [Start] leaves it. *)
Record established (A B : linkNode) (pA pB : nat) (id key : bytes) (addrA addrB : string) (b : bool) : Prop := mk_established {
  es_A : linked (ln_mgr A) pA id key addrB b;
  es_B : linked (ln_mgr B) pB id key addrA (negb b);
  es_id : len id = 16;
  es_key : len key = 32
}.

Lemma linked_addr A pA id key addrB b : linked (ln_mgr A) pA id key addrB b -> peer_addr A pA = addrB.
Proof using Type. intros [_ (pk & ctr & H)]. unfold peer_addr. by rewrite H. Qed.

(** The router of a link whose reassembler holds [ra]. *)
Definition hears (B : linkNode) (pB : nat) (ra : Reassembler) : Prop := exists r, ln_routers B !! pB = Some r /\ ro_reasm r = Some ra.

(** What an arrival hands up: the message or nothing, and no answer. *)
Definition hand_up (data : bytes) (c : bool) : arrival := mkArrival [] (if c then [data] else []) [].

Lemma SendToLink_established now nowStr msgID data A B pA pB id key addrA addrB b :
  established A B pA pB id key addrA addrB b -> is_i64 now -> len msgID = 8 -> len data < 2 ^ 27 ->
  let '(A', out, res) := SendToLink now nowStr msgID data pA A in
  established A' B pA pB id key addrA addrB b /\
  (res = Ok tt -> exists chunk gs, 0 < chunk /\ sendMessageChunks record_send msgID chunk data [] = Ok gs /\
    Forall2 (carries (ln_mgr B) pB) (map (cons subMessage) gs) (map snd out)).
Proof using L JL.
  intros [HA HB Hid Hk] Hn Hm Hd. unfold SendToLink.
  change (ln_mgr (bind_router A pA)) with (ln_mgr A). assert (Hpa : peer_addr (bind_router A pA) pA = addrB) by (by apply (linked_addr A pA id key addrB b)).
  rewrite Hpa. unfold Router_SendMessage. set (chunk := chunkFor (ln_mgr A) addrB - 1). cbv zeta.
  destruct (sendMessageChunks (prefixed_send subMessage) msgID chunk data []) as [pts|e] eqn:Es; [|by split].
  apply prefixed_message_inv in Es as (gs & Es & ->). set (c := if chunk <? 1 then 1 else chunk).
  assert (Es' : sendMessageChunks record_send msgID c data [] = Ok gs).
  { unfold sendMessageChunks in *. unfold c. destruct (Z.ltb_spec chunk 1); [exact Es|]. rewrite (proj2 (Z.ltb_ge chunk 1)) by lia. exact Es. }
  destruct (message_frames_facts msgID chunk data gs Hm Es') as (_ & _ & Hlen).
  destruct (send_all_carries now nowStr (ln_mgr B) pB id key addrB addrA b (map (cons subMessage) gs) Hn Hid Hk HB) with (mS := ln_mgr A) (p := pA) as (mA & fs & Hw & Hc & HA'); [|done|].
  { apply Forall_map. eapply Forall_impl; [exact Hlen|]. intros g Hg. cbn in *. rewrite len_cons. lia. }
  unfold write_link. change (ln_mgr (bind_router A pA)) with (ln_mgr A). rewrite Hw. split; [by split|]. intros _.
  exists c, gs. split_and!; [unfold c; destruct (Z.ltb_spec chunk 1); lia|done|]. rewrite map_map. cbn. by rewrite map_id.
Qed.

Lemma message_over_link now nowStr msgID data A B pA pB id key addrA addrB b ra A' out (hs : list hop) :
  established A B pA pB id key addrA addrB b -> is_i64 now -> len msgID = 8 -> len data < 2 ^ 27 ->
  hears B pB ra -> ra !! msgID = None -> Z.of_nat (size ra) < maxInflightMessages ->
  SendToLink now nowStr msgID data pA A = (A', out, Ok tt) -> Forall (fun h => hp_frame h ∈ map snd out) hs ->
  let '(B', arrivals) := on_frames hs B in
  let '(since, done) := rebuilt (map snd out) [] (map hp_frame hs) in
  arrivals = map (hand_up data) done /\ established A' B' pA pB id key addrA addrB b /\
  exists ra', hears B' pB ra' /\ dom ra' ⊆ {[msgID]} ∪ dom ra /\ (since = [] -> ra' !! msgID = None).
Proof using L JL.
  intros He Hn Hm Hd (r & Hr & Hra) Hnew Hroom Hsend Hall.
  pose proof (SendToLink_established now nowStr msgID data A B pA pB id key addrA addrB b He Hn Hm Hd) as H. rewrite Hsend in H.
  destruct H as [He' H]. destruct (H eq_refl) as (c & gs & Hc0 & Es & Hc). clear H. set (fs := map snd out) in *.
  assert (Hnd : NoDup gs).
  { destruct (message_frames_facts msgID c data gs Hm) as (Hnd & _); [by rewrite (proj2 (Z.ltb_ge c 1)) by lia|done]. }
  destruct (arrivals_plain (ln_mgr B) pB gs fs hs Hc Hall) as (ds & Hds & Hdg).
  set (evs := zip_with event_of hs ds). assert (Hev : map ev_frame evs = ds).
  { unfold evs. apply Forall2_length in Hds as Hl. clear -Hl. revert ds Hl. induction hs as [|x hs IH]; intros [|y ds] Hl; try done. cbn. f_equal. apply IH. cbn in Hl. lia. }
  pose proof (on_messages pB hs ds r ra B Hr Hra Hds) as Hrun. fold evs in Hrun.
  assert (Hevs : Forall (fun e => ev_frame e ∈ gs) evs).
  { apply Forall_forall. intros e Hin. rewrite Forall_forall in Hdg. apply Hdg. rewrite <- Hev. apply list_elem_of_fmap. by exists e. }
  assert (Hsz : Z.of_nat (size ({[msgID]} ∪ dom ra)) <= maxInflightMessages).
  { rewrite size_union by (apply disjoint_singleton_l; by apply not_elem_of_dom). rewrite size_singleton, size_dom. lia. }
  pose proof (message_run msgID c data gs ({[msgID]} ∪ dom ra) evs ra ltac:(unfold len in Hm; lia) Hc0 Es Hsz ltac:(set_solver) ltac:(set_solver) Hnew
    ltac:(eapply Forall_impl; [exact Hevs|]; intros e Hin; by left)) as Hdel. rewrite Hev in Hdel.
  pose proof (rebuilt_plain (ln_mgr B) pB gs fs hs ds Hnd Hc Hall Hds Hdg [] [] ltac:(constructor) ltac:(constructor)) as Hsame. cbn [map] in Hsame.
  destruct (run ra evs) as [ra1 outs]. destruct (rebuilt gs [] ds) as [sd ld]. destruct (rebuilt fs [] (map hp_frame hs)) as [sh lh]. destruct Hsame as [-> Hl].
  destruct Hrun as (B1 & -> & HB1 & r1 & Hr1 & Hra1). destruct Hdel as (Hq & Hdom & Hgone & _).
  rewrite (outs_done gs data evs ld outs Hevs Hq), map_map. split; [done|]. split.
  { destruct He' as [H1 H2 H3 H4]. split; [done|by rewrite HB1|done|done]. }
  exists ra1. split; [by exists r1|]. split; [done|]. intros ->. apply Hgone. by destruct sd.
Qed.

Lemma Deliver_byPeer now nowStr eph m addr pkt : mg_byPeer (Deliver now nowStr eph m addr pkt).1.1 = mg_byPeer m.
Proof using Type.
  assert (Hr : forall pl, mg_byPeer (handleRequest now nowStr eph m addr pl).1.1 = mg_byPeer m).
  { intros pl. unfold handleRequest. destruct (req_dec pl) as [rq|]; [|done]. destruct (negb _); [done|]. destruct (x_ecdh _ _); [|done]. by destruct (deriveAEAD _ _). }
  assert (Hp : forall pl, mg_byPeer (handleProof m pl) = mg_byPeer m).
  { intros pl. unfold handleProof. destruct (proof_dec pl) as [pr|]; [|done]. destruct (mg_pending m !! _); [|done]. destruct (negb _); [done|]. destruct (negb _); [done|].
    destruct (x_ecdh _ _); [|done]. by destruct (deriveAEAD _ _). }
  unfold Deliver. destruct (_ =? _); [specialize (Hr (p_Payload pkt)); by destruct (handleRequest _ _ _ _ _ _) as [[m' fs] l]|].
  destruct (_ =? _); [apply Hp|]. by destruct (_ =? _).
Qed.

Lemma Dial_finish_byPeer m addr id b : mg_byPeer (Dial_finish m addr id b).1 = mg_byPeer m.
Proof using Type.
  unfold Dial_finish. cbn. destruct (mg_pending m !! id) as [pd|]; [|done]. destruct b; [done|]. destruct (pd_result pd) as [p|]; [|done]. by destruct (mg_heap m !! p).
Qed.

Lemma SendToLink_ok now nowStr msgID data p s : len data <= maxMessageChunks -> (SendToLink now nowStr msgID data p s).2 = Ok tt.
Proof using Type.
  intros Hd. unfold SendToLink, Router_SendMessage. set (chunk := chunkFor _ _ - 1). set (c := if chunk <? 1 then 1 else chunk).
  assert (Hc : 0 < c) by (unfold c; destruct (Z.ltb_spec chunk 1); lia).
  assert (E : sendMessageChunks record_send msgID chunk data [] = sendMessageChunks record_send msgID c data []).
  { unfold sendMessageChunks, c. destruct (Z.ltb_spec chunk 1); [done|]. by rewrite (proj2 (Z.ltb_ge chunk 1)) by lia. }
  rewrite (sendMessageChunks_frames msgID c) in E by done. destruct (message_chunks_spec c data Hc) as (_ & _ & _ & Hl).
  assert (Hn : len (message_chunks c data) <= maxMessageChunks).
  { rewrite Hl. pose proof (len_nonneg data). apply Z.max_lub; [done|]. etrans; [|exact Hd]. destruct (Z.eq_dec (len data) 0) as [->|]; [rewrite Z.div_small; lia|apply Z.div_le_upper_bound; nia]. }
  rewrite (proj2 (Z.ltb_ge _ _) Hn) in E. rewrite (prefixed_message _ _ _ _ _ E). by destruct (write_link _ _ _ _ _).
Qed.

Lemma dialed_linked m addr key p id k b addr' : linked m p id k addr' b -> DialCached_lookup m addr key = None ->
  exists m', DialCached_store m addr key p = (m', p) /\ linked m' p id k addr' b /\ DialCached_lookup m' addr key = Some p.
Proof using Type.
  unfold DialCached_store, DialCached_lookup. intros [H1 (pk & ctr & H2)] ->. rewrite H2. eexists. split; [reflexivity|]. split.
  - split; [exact H1|]. cbn. exists (peerKey key addr), ctr. by rewrite lookup_insert_eq.
  - cbn. by rewrite lookup_insert_eq.
Qed.
End Delivery.

(** ** Claims *)

(** C24: A dialled link carries messages.  A node that knows another one's address and key
    dials it: the three frames of the handshake give both a link, the receiver's router
    the application's callbacks and an empty reassembler, and the next send finds the
    link in the cache.  On a link so established, now and whatever messages went over it
    before: a message of at most 65535 bytes is always accepted, and sending one, or
    failing to, leaves the link established.  When one was accepted, under an identifier
    the reassembler holds nothing of and with fewer than [maxInflightMessages] others
    held, each arrival of one of its frames, in any order and any number of times, hands
    up exactly the message if with it all its frames have arrived since it was last
    handed up, and nothing otherwise; it is never answered, the link stays established,
    and after a delivery nothing of the message is held.  So it is handed up once if its
    frames arrive once each ([LinkMessage.rebuilt_once]), and again if all are repeated
    ([repeated_message_delivered_again]). *)
Theorem send_to_link_delivers `{C : CryptoOps} `{L : !CryptoLaws C} `{J : LinkJson} `{JL : !LinkJsonLaws J}
    now nowStr A B D nodeB addrA addrB eph ephB id o o' :
  let key := ed_public (mg_self (ln_mgr B)) in
  is_i64 now -> len id = 16 -> len (mg_self (ln_mgr B)) = ed_PrivateKeySize ->
  DialNode_target true D nodeB = Some (addrB, key) -> DialCached_lookup (ln_mgr A) addrB key = None ->
  exists A1 f1 B1 f2 A2 A3 pA pB k, let linking A B := established A B pA pB id k addrA addrB true in
    DialNode_begin true D nodeB now nowStr eph id A = (A1, [(addrB, f1)], Dialing addrB key id) /\
    on_frame (mkHop now nowStr ephB o addrA f1) B = (B1, mkArrival [(addrA, f2)] [] []) /\
    on_frame (mkHop now nowStr [] o' addrB f2) A1 = (A2, no_arrival) /\
    DialNode_end addrB key id false A2 = (A3, Some pA) /\
    DialNode_begin true D nodeB now nowStr eph id A3 = (A3, [], Ready pA) /\
    linking A3 B1 /\ hears B1 pB ∅ /\
    forall A B now nowStr msgID data, linking A B -> is_i64 now -> len msgID = 8 -> len data < 2 ^ 27 ->
      let '(A', out, res) := SendToLink now nowStr msgID data pA A in
      (len data <= maxMessageChunks -> res = Ok tt) /\ linking A' B /\
      (res = Ok tt -> forall ra hs, hears B pB ra -> ra !! msgID = None -> Z.of_nat (size ra) < maxInflightMessages ->
        Forall (fun h => hp_frame h ∈ map snd out) hs ->
        let '(B', arrivals) := on_frames hs B in
        let '(since, done) := rebuilt (map snd out) [] (map hp_frame hs) in
        arrivals = map (hand_up data) done /\ linking A' B' /\
        exists ra', hears B' pB ra' /\ dom ra' ⊆ {[msgID]} ∪ dom ra /\ (since = [] -> ra' !! msgID = None)).
Proof.
  intros key Hn Hid HB Ht Hc. unfold key in *. clear key. set (key := ed_public (mg_self (ln_mgr B))) in *.
  destruct (handshake_correct now nowStr (ln_mgr A) (ln_mgr B) addrA addrB eph ephB id [] Hn Hid HB ltac:(done))
    as (mA1 & f1 & p1 & mB1 & f2 & p2 & pB & mA2 & mA3 & pA & k & E1 & R1 & D1 & R2 & D2 & F & LA & LB & _). fold key in E1.
  assert (Hk : len k = 32).
  { destruct LA as [_ _]. unfold Dial_start in E1. injection E1 as <- Ef1. pose proof (handshake_response now nowStr eph ephB (ln_mgr B) addrA id) as (k' & pB' & fr & B' & _ & Hk' & HQ & [HB1 (x & y & HB2)] & _).
    destruct LB as [HL1 (pk & ctr & HL2)]. revert D1. unfold Deliver.
    destruct (sendPacket_receive now nowStr addrB PacketTypeLinkRequest (req_enc (mkReq id (x_public eph))) Hn ltac:(done)) as (p & P1 & P2 & P3).
    { pose proof (req_size (mkReq id (x_public eph))) as Hs. cbn [rq_LinkID rq_EphPub] in Hs. rewrite x_public_len, Hid in Hs.
      pose proof (len_nonneg (req_enc (mkReq id (x_public eph)))). unfold is_u32. lia. }
    rewrite <- Ef1 in R1. cbn [sendPacket snd] in P1. rewrite P1 in R1. injection R1 as <-. rewrite P2, Z.eqb_refl, P3, HQ. intros [= <- _ <-]. rewrite HB2 in HL2. by injection HL2 as -> -> ->. }
  assert (Hby : DialCached_lookup mA3 addrB key = None).
  { unfold DialCached_lookup in *. pose proof (Dial_finish_byPeer mA2 addrB id false) as H1. rewrite F in H1. cbn [fst] in H1. rewrite H1.
    pose proof (Deliver_byPeer now nowStr [] mA1 addrB p2) as H2. rewrite D2 in H2. cbn [fst] in H2. rewrite H2. unfold Dial_start in E1. injection E1 as <- _. exact Hc. }
  destruct (dialed_linked mA3 addrB key pA id k true addrB LA Hby) as (mA4 & ES & LA4 & Hcached).
  exists (put_mgr A mA1), f1, (put_router (put_mgr B mB1) pB (OnRelay (OnMessage (router_of (put_mgr B mB1) pB)))), f2, (put_mgr (put_mgr A mA1) mA2).
  eexists _, pA, pB, k. cbv zeta.
  split_and!; [unfold DialNode_begin; by rewrite Ht, Hc, E1|unfold on_frame; cbn; rewrite R1; unfold on_packet; by rewrite D1|
    unfold on_frame; cbn; rewrite R2; unfold on_packet; cbn; by rewrite D2|unfold DialNode_end; cbn [ln_mgr put_mgr]; rewrite F; by rewrite ES| |by split| |].
  - unfold DialNode_begin. rewrite Ht. cbn [ln_mgr put_mgr]. by rewrite Hcached.
  - eexists. split; [apply lookup_insert_eq|reflexivity].
  - clear -L JL. intros A B now nowStr msgID data He Hn Hm Hd. pose proof (SendToLink_ok now nowStr msgID data pA A) as Hok.
    pose proof (SendToLink_established now nowStr msgID data A B pA pB id k addrA addrB true He Hn Hm Hd) as Hes.
    destruct (SendToLink now nowStr msgID data pA A) as [[A' out] res] eqn:Esend. split; [exact Hok|]. split; [apply Hes|].
    intros -> ra hs Hh Hnew Hroom Hall. by eapply message_over_link.
Qed.

(** ** Sharing a link *)

Section Sharing.
Context `{C : CryptoOps} `{J : LinkJson}.

(** The control frame of a resource that a plaintext of a link is, if it is one. *)
Definition control_for (id pt : bytes) : option bytes :=
  match pt with
  | t :: ((tag :: _) as f) =>
      if bool_decide (t = subResource) && (bool_decide (tag = resTagAck) || bool_decide (tag = resTagDone)) && negb (len f <? 1 + Z.of_nat resIDLen) &&
         bool_decide (frameID f = id)
      then Some f else None
  | _ => None
  end.

Definition own_feed (id : bytes) (s : ResourceSender) (e : Z * orders * bytes) : ResourceSender :=
  match control_for id e.2 with Some f => (Sender_Feed e.1.1 s f).1 | None => s end.

Lemma control_other id t f : t <> subResource -> control_for id (t :: f) = None.
Proof using Type. intros H. destruct f; [done|]. cbn [control_for]. by rewrite bool_decide_false. Qed.

Lemma feed_sender now o r pt id :
  ro_senders (feed now o r pt).1 !! id = (fun s => own_feed id s (now, o, pt)) <$> ro_senders r !! id.
Proof using Type.
  unfold own_feed. cbn [fst snd]. assert (Hid : control_for id pt = None -> ro_senders r !! id = (fun s => match control_for id pt with Some f => (Sender_Feed now s f).1 | None => s end) <$> ro_senders r !! id)
    by (intros ->; destruct (ro_senders r !! id); reflexivity).
  destruct pt as [|t f]; [by apply Hid|]. cbn [feed]. case_bool_decide as Hm.
  { destruct (ro_reasm r); [destruct (LinkMessage.Feed _ _ _ _ _)|]; apply Hid; subst t; by apply control_other. }
  case_bool_decide as Hr; [|case_bool_decide; [destruct (ro_relay r); [destruct (LinkMessage.Feed _ _ _ _ _)|]|]; apply Hid; by apply control_other].
  unfold routeResource. destruct f as [|tag f]; [by apply Hid|]. destruct (bool_decide (tag = resTagAdv) || bool_decide (tag = resTagPart)) eqn:Et.
  { destruct (Receiver_Feed _ _ _ _ _) as [[rc fs] ds]. apply Hid. cbn. rewrite (bool_decide_true (t = subResource)) by done.
    assert (Hn : bool_decide (tag = resTagAck) || bool_decide (tag = resTagDone) = false); [|by rewrite Hn].
    apply orb_true_iff in Et as [->%bool_decide_eq_true| ->%bool_decide_eq_true]; done. }
  clear Hid. cbn [control_for]. rewrite (bool_decide_true (t = subResource)) by done. cbn [andb]. destruct (bool_decide (tag = resTagAck) || bool_decide (tag = resTagDone)) eqn:Ec; [|cbn [fst]; by destruct (ro_senders r !! id)].
  destruct (len (tag :: f) <? 1 + Z.of_nat resIDLen); [cbn [fst]; by destruct (ro_senders r !! id)|]. cbn [negb andb].
  destruct (ro_senders r !! frameID (tag :: f)) as [sd|] eqn:Es.
  - destruct (Sender_Feed now sd (tag :: f)) as [sd' fs] eqn:Ef. cbn [fst ro_senders]. destruct (bool_decide_reflect (frameID (tag :: f) = id)) as [He|He].
    + subst id. rewrite lookup_insert_eq, Es. cbn. by rewrite Ef.
    + rewrite lookup_insert_ne by done. cbn [fst]. by destruct (ro_senders r !! id).
  - destruct (bool_decide_reflect (frameID (tag :: f) = id)) as [He|He]; [|cbn [fst]; by destruct (ro_senders r !! id)]. subst id. cbn [fst]. by rewrite Es.
Qed.

(** Resources on one link do not disturb each other: whatever arrives, for whomever, the
    sender of a resource goes through the states its own control frames make it go
    through. *)
Lemma senders_isolated evs id : forall r s, ro_senders r !! id = Some s ->
  ro_senders (feed_all r evs).1 !! id = Some (fold_left (own_feed id) evs s).
Proof using Type.
  induction evs as [|[[now o] pt] evs IH]; intros r s Hs; cbn [feed_all fold_left]; [done|]. pose proof (feed_sender now o r pt id) as Hf.
  destruct (feed now o r pt) as [r' d]. cbn [fst] in Hf. rewrite Hs in Hf. cbn in Hf. specialize (IH r' _ Hf). by destruct (feed_all r' evs).
Qed.

(** A link that is closed hears nothing: no frame of it reaches a router any more. *)
Lemma closed_link_deaf now nowStr eph o addr pkt s p l :
  mg_heap (ln_mgr s) !! p = Some l -> p_Type pkt = PacketTypeLinkData ->
  (forall d, data_dec (p_Payload pkt) = Some d -> dt_LinkID d = lk_ID l) ->
  on_packet now nowStr eph o addr pkt (put_mgr s (Close (ln_mgr s) p)) = (put_mgr s (Close (ln_mgr s) p), no_arrival).
Proof using Type.
  intros Hl Ht Hd. unfold on_packet. cbn [ln_mgr put_mgr]. unfold Deliver. rewrite Ht. change (PacketTypeLinkData =? PacketTypeLinkRequest) with false.
  change (PacketTypeLinkData =? PacketTypeLinkProof) with false. rewrite Z.eqb_refl.
  assert (Hn : handleData (Close (ln_mgr s) p) (p_Payload pkt) = None); [|by rewrite Hn].
  unfold handleData. destruct (data_dec (p_Payload pkt)) as [d|]; [|done]. rewrite (Hd d eq_refl). unfold Close. rewrite Hl.
  destruct (_ && _); cbn; by rewrite lookup_delete_eq.
Qed.
End Sharing.

(** ** Witnesses *)

#[local] Existing Instances toy_ops toy_json.

Definition priv_of (b : byte) : bytes := repeat b 64.
Definition known (priv : bytes) (id addr : string) : Disc :=
  set_peers (NewDiscovery "") (mkPeers "" {[id := mkNode 0 id addr 0 0 true [] (ed_public priv) 0 [] [] []]} 0 [] 0 0 None).
Definition fresh_node (b : byte) : linkNode := mkLinkNode (NewManager (priv_of b)) ∅.
Definition no_orders : orders := mkOrders [] [] [] [].
Definition hop_of (eph : bytes) (addr : string) (f : string * bytes) : hop := mkHop 0 [] eph no_orders addr f.2.

(** Alice, who knows Bob, has dialled him: [alice] and [bob] share link 0. *)
Definition bob_key : bytes := ed_public (priv_of x07).
Definition link_id : bytes := repeat x04 16.
Definition bobs_disc : Disc := known (priv_of x07) "bob" "b:1".
Definition handshaken : linkNode * linkNode :=
  let '(a, fs, _) := DialNode_begin true bobs_disc "bob" 0 [] (repeat x02 32) link_id (fresh_node x05) in
  let '(b, av) := on_frame (hop_of (repeat x03 32) "a:1" (default ("", []) (head fs))) (fresh_node x07) in
  let '(a, _) := on_frame (hop_of [] "b:1" (default ("", []) (head (av_send av)))) a in
  let '(a, _) := DialNode_end "b:1" bob_key link_id false a in (a, b).
Definition alice : linkNode := handshaken.1.
Definition bob : linkNode := handshaken.2.

Lemma send_to_link_delivers_witness :
  exists A3 B1 pA A4 out, SendToLink 0 [] (repeat x09 8) [x01; x02] pA A3 = (A4, out, Ok tt) /\
    forall f, map snd out = [f] -> (on_frames [mkHop 0 [] [] no_orders "a:1" f] B1).2 = [mkArrival [] [[x01; x02]] []].
Proof.
  pose proof toy_laws as L. pose proof toy_json_laws as JL.
  assert (Hn : is_i64 0) by (unfold is_i64; lia). assert (Hi : len link_id = 16) by reflexivity. assert (Hm : len (repeat x09 8) = 8) by reflexivity.
  assert (Hk : len (mg_self (ln_mgr (fresh_node x07))) = ed_PrivateKeySize) by reflexivity. assert (Hd : len [x01; x02] < 2 ^ 27) by (change (len [x01; x02]) with 2; lia).
  assert (Ht : DialNode_target true bobs_disc "bob" = Some ("b:1"%string, ed_public (mg_self (ln_mgr (fresh_node x07))))) by (vm_compute; reflexivity).
  assert (Hc : DialCached_lookup (ln_mgr (fresh_node x05)) "b:1" (ed_public (mg_self (ln_mgr (fresh_node x07)))) = None) by reflexivity.
  destruct (send_to_link_delivers (L := L) (JL := JL) 0 [] (fresh_node x05) (fresh_node x07) bobs_disc "bob" "a:1" "b:1" (repeat x02 32) (repeat x03 32) link_id
    no_orders no_orders Hn Hi Hk Ht Hc) as (A1 & f1 & B1 & f2 & A2 & A3 & pA & pB & k & _ & _ & _ & _ & _ & Hl & Hh & Hsend).
  specialize (Hsend A3 B1 0 [] (repeat x09 8) [x01; x02] Hl Hn Hm Hd).
  destruct (SendToLink 0 [] (repeat x09 8) [x01; x02] pA A3) as [[A4 out] res] eqn:Es. destruct Hsend as (Hok & _ & Hdel).
  assert (res = Ok tt) as -> by (apply Hok; vm_compute; discriminate).
  exists A3, B1, pA, A4, out. split; [exact Es|]. intros f Hf.
  specialize (Hdel eq_refl ∅ [mkHop 0 [] [] no_orders "a:1" f] Hh (lookup_empty _) ltac:(vm_compute; reflexivity)). rewrite Hf in Hdel.
  specialize (Hdel ltac:(by constructor; [left|])). destruct (on_frames _ B1) as [B3 arrivals]. cbn [map hp_frame rebuilt heard] in Hdel.
  unfold heard in Hdel. rewrite bool_decide_eq_true_2 in Hdel by left. cbn [forallb] in Hdel. rewrite bool_decide_eq_true_2 in Hdel by left.
  cbn [andb] in Hdel. by destruct Hdel as (-> & _).
Defined.

(** Two resources share the link.  One times out although the other is under way: it
    closes the link, and the acknowledgement that would complete the other is dropped. *)
Definition two_resources : linkNode * list (string * bytes) :=
  let '(a, fx, _) := SendToResource_begin 0 [] (repeat x0a 16) [x01] 0 alice in
  let '(a, fy, _) := SendToResource_begin 0 [] (repeat x0b 16) [x02; x03] 0 a in (a, fy).
Definition bobs_answer : linkNode * list arrival := on_frames (map (hop_of [] "a:1") two_resources.2) bob.
Definition answers : list hop := map (hop_of [] "b:1") (concat (map av_send bobs_answer.2)).

Example failed_resource_closes_the_link :
  concat (map av_app bobs_answer.2) = [[x02; x03]] /\
  (SendToResource_end false (repeat x0b 16) 0 (on_frames answers two_resources.1).1).2 = Some true /\
  let '(a, x) := SendToResource_end true (repeat x0a 16) 0 two_resources.1 in
  x = Some false /\ (SendToResource_end false (repeat x0b 16) 0 (on_frames answers a).1).2 = None /\
  (SendToResource_end true (repeat x0b 16) 0 (on_frames answers a).1).2 = Some false.
Proof. vm_compute. done. Qed.

(** A link request that repeats the identifier of an established link, which every frame
    carries in the clear, replaces it: what Alice sends from then on is not delivered. *)
Definition hello : list hop := map (hop_of [] "a:1") (SendToLink 0 [] (repeat x09 8) [x01] 0 alice).1.2.
Definition mallory : list hop := map (hop_of (repeat x03 32) "m:1") (DialNode_begin true bobs_disc "bob" 0 [] (repeat x06 32) link_id (fresh_node x08)).1.2.

Example request_replaces_a_link :
  concat (map av_app (on_frames hello bob).2) = [[x01]] /\
  concat (map av_app (on_frames hello (on_frames mallory bob).1).2) = [].
Proof. vm_compute. done. Qed.

(** A message of one frame that the network repeats is handed up twice. *)
Example repeated_message_delivered_again : concat (map av_app (on_frames (hello ++ hello) bob).2) = [[x01]; [x01]].
Proof. vm_compute. reflexivity. Qed.
