(* ===== verification/Api.v ===== *)
(** * The rest of the public surface (swarmsync/swarmsync.go, mobile/mobile.go)

    The peers an operator is shown, the sends besides those of Node, what a node does with
    the links other nodes open to it, and the mobile facade: how its configuration becomes
    options, and what the host is told of a stream. *)

From Stdlib Require Import FloatClass SpecFloat.
From stdpp Require Import strings sorting.
From coqutil Require Import Datatypes.RecordSetters.
From S2P Require Import Prelude Crypto Wire Net Encryption Routing Fragment LinkMessage LinkResource Link Kiss PeerTable Discovery Pieces Stream Acks Transfer Direct Offline Reputation Chunks Pool Forward Gossip Node RelayMain.
Import DoubleBraceUpdate.

(** ** Peers *)

Record PeerView : Type := mkPeerView {
  pv_ID : string; pv_Address : string; pv_DataPort : Z; pv_Latency : Z; pv_LatencyMS : spec_float; pv_Active : bool; pv_LastSeen : Z;
  pv_Capabilities : list string; pv_RelayIDs : list string
}.

Definition peer_view (n : Node) : PeerView :=
  mkPeerView (n_ID n) (n_Address n) (n_Port n) (n_Latency n) (f64_div (f64_of_Z (n_Latency n)) (f64_of_Z 1000000)) (n_Active n) (n_LastSeen n)
    (n_Capabilities n) (n_RelayIDs n).

Definition by_id (a b : PeerView) : Prop := String.le (pv_ID a) (pv_ID b).
#[local] Instance by_id_dec a b : Decision (by_id a b) := decide (String.le (pv_ID a) (pv_ID b)).
#[local] Instance by_id_trans : Transitive by_id.
Proof. intros a b c. unfold by_id. apply (transitivity (R := String.le)). Qed.
#[local] Instance by_id_total : Total by_id.
Proof. intros a b. apply (total String.le). Qed.

(** [it] is the iteration over the table.  [sort.Slice] is not stable, which distinct
    identifiers make unobservable. *)
Definition SwarmPeers (it : list (string * Node)) : list PeerView := merge_sort by_id (map peer_view (AllNodes it)).

(** The list of peers is every node of the table, active or not, once, in the order of
    their identifiers: it does not depend on the order the table is iterated in. *)
Lemma Peers_canonical (m : gmap string Node) it it' :
  (forall k n, m !! k = Some n -> n_ID n = k) -> range_of m it -> range_of m it' ->
  SwarmPeers it = SwarmPeers it' /\ StronglySorted by_id (SwarmPeers it) /\ SwarmPeers it ≡ₚ map peer_view (map snd (map_to_list m)).
Proof.
  intros Hm Hi Hi'. assert (Hp : forall l, range_of m l -> SwarmPeers l ≡ₚ map peer_view (map snd (map_to_list m))).
  { intros l Hl. unfold SwarmPeers, AllNodes. rewrite merge_sort_Permutation. apply Permutation_map, Permutation_map, Hl. }
  assert (Hs : forall l, StronglySorted by_id (SwarmPeers l)) by (intros l; apply StronglySorted_merge_sort; apply _). split_and!; [|apply Hs|by apply Hp].
  apply (StronglySorted_unique_strong by_id); [|apply Hs|apply Hs|by rewrite !Hp].
  assert (Hin : forall l p, range_of m l -> p ∈ SwarmPeers l -> exists n, m !! pv_ID p = Some n /\ p = peer_view n).
  { intros l p Hl. rewrite (Hp l Hl). intros (n & -> & Hn)%list_elem_of_fmap. apply list_elem_of_fmap in Hn as ([k n'] & -> & Hk). apply elem_of_map_to_list in Hk.
    exists n'. cbn. by rewrite (Hm k n' Hk). }
  intros p q (n & Hn & ->)%Hin (n' & Hn' & ->)%Hin H1 H2; [|done|done]. assert (E : n_ID n = n_ID n') by (by apply (anti_symm String.le)).
  cbn in Hn, Hn'. rewrite E in Hn. congruence.
Qed.

(** ** Sends *)

Section Sending.
Context `{R : RSOps} `{C : CryptoOps} `{N : NetOps} `{SJ : StoreJson} `{RJ : ReplyJson} (shuffle : Z -> list nat -> list Peer -> list Peer).
Context (s : SyncSwarm) (env : sendEnv) (ord : acks -> list (bytes * pendingAck)) (id tok : bytes) (ds : list draws).

Abbreviation sent := (world * Storage * acks * result fwd_err unit)%type.

Definition SendVariable (gob : option bytes) (w : world) (st : Storage) (m : acks) : option sent :=
  match gob with
  | None => None
  | Some b => Some (SendDataTracked shuffle (se_send (sw_transfer s)) env ord id tok ds b (o_Group (sw_opts s)) "" true w st m)
  end.

(** The transfer ID comes with the outcome, whatever it is; a link transfer has none. *)
Definition SendToTracked (data : bytes) (nodeID : string) (w : world) (st : Storage) (m : acks) : (bytes * sent) + option (string * bytes) :=
  match SendTo shuffle s env ord id tok ds data nodeID w st m with
  | inl o => inl (id, o)
  | inr target => inr target
  end.

Definition SwarmStreamResumable (draw : Z -> list draws) (r : reader) (seek : Z -> option reader) (resumeFrom : Z) (nodeID streamID : string) (w : world) :
    world * result fwd_err unit :=
  SendStreamResumable (se_send (sw_transfer s)) env draw r seek resumeFrom nodeID streamID w.
End Sending.

(** ** Links opened by others *)

(** The router [Start] puts on an inbound link.  Its resource receiver is made on the
    first frame, so only the message and relay handlers show. *)
Definition inbound_router : Router := OnRelay (OnMessage NewRouter).

(** What a frame of such a link comes to: payloads for the application, and blobs for
    [HandleRelayBlobAsync]. *)
Definition inbound_feed {V} `{C : CryptoOps} (opts : Options) (now : Z) (o : orders) (r : Router) (frame : bytes) :
    Router * list bytes * list (app_event V) * list bytes :=
  let '(r, out) := Link.feed now o r frame in
  let app := if o_OnDataReceived opts then map AppData (rd_messages out ++ map snd (rd_resources out)) else [] in
  (r, rd_send out, app, rd_relays out).

(** ** The mobile facade *)

Record Config : Type := mkConfig {
  cf_StorageDir : string; cf_StreamDir : string; cf_Key : bytes; cf_Profile : string; cf_Relay : bool; cf_StoreForward : bool; cf_AutoRelay : bool;
  cf_NeedsRelay : bool; cf_Bootstrap : string; cf_DiscoveryPort : Z; cf_DataPort : Z; cf_DataShards : Z; cf_ParityShards : Z
}.

Definition profileOf (p : string) : Profile :=
  if String.eqb p "direct" then ProfileDirect else if String.eqb p "anonymous" then ProfileAnonymous else ProfileBalanced.

Definition mobile_options (cfg : Config) : Options :=
  (Preset (profileOf (cf_Profile cfg))){{
    o_StorageDir := cf_StorageDir cfg; o_Key := cf_Key cfg; o_Relay := cf_Relay cfg; o_StoreForward := cf_StoreForward cfg; o_AutoRelay := cf_AutoRelay cfg;
    o_NeedsRelay := cf_NeedsRelay cfg; o_DiscoveryPort := cf_DiscoveryPort cfg; o_DataPort := cf_DataPort cfg; o_DataShards := cf_DataShards cfg;
    o_ParityShards := cf_ParityShards cfg; o_BootstrapPeers := bootstrap_peers (cf_Bootstrap cfg); o_OnDataReceived := true; o_OnStreamReceived := true }}.

(** [made] is what [os.MkdirAll] of the stream directory answers; the configuration may
    be nil. *)
Definition NewNode `{N : NetOps} `{C : CryptoOps} `{J : DiscJson} `{GJ : GossipJson} `{SO : SeedOps} (ne : newEnv) (made : string -> bool) (cfg : option Config) :
    option (result new_err SyncSwarm * string) :=
  match cfg with
  | None => None
  | Some cfg =>
      let streamDir := if String.eqb (cf_StreamDir cfg) "" then ne_join ne (cf_StorageDir cfg) "streams" else cf_StreamDir cfg in
      if made streamDir then Some (New ne (mobile_options cfg), streamDir) else None
  end.

(** A stream's file and what the host is told: [notifyingFile] as a sink.  [None] is the
    sink that discards, for a file that cannot be created. *)
Definition streamSink (created : string -> bool) (join : string -> string -> string) (streamDir : string) (id : bytes) : option (string * string) :=
  let hexID := EncodeToString id in
  let path := join streamDir (hexID ++ ".bin")%string in
  if created path then Some (hexID, path) else None.

Inductive host_event : Type := OnStream (id path : string).
Definition notify_Close (sink : option (string * string)) (hasHost : bool) : list host_event :=
  match sink with Some (hexID, path) => if hasHost then [OnStream hexID path] else [] | None => [] end.

(** A mobile node: the options it is made with keep the profile's routing, ask for the
    host's callbacks, and can be what [New] accepts only with no key or a 32-byte one. *)
Lemma mobile_node `{N : NetOps} `{C : CryptoOps} `{L : !CryptoLaws C} `{J : DiscJson} `{GJ : GossipJson} `{SO : SeedOps} `{SL : !SeedLaws SO} ne made cfg sw dir :
  NewNode ne made (Some cfg) = Some (Ok sw, dir) ->
  o_HopCount (sw_opts sw) = o_HopCount (Preset (profileOf (cf_Profile cfg))) /\ o_Redundancy (sw_opts sw) = o_Redundancy (Preset (profileOf (cf_Profile cfg))) /\
  (len (cf_Key cfg) = 0 \/ len (cf_Key cfg) = 32) /\ made dir = true /\
  sf_hopCount (se_send (sw_transfer sw)) = o_HopCount (Preset (profileOf (cf_Profile cfg))) /\ o_OnDataReceived (sw_opts sw) = true.
Proof.
  unfold NewNode. set (d := if String.eqb (cf_StreamDir cfg) "" then _ else _). destruct (made d) eqn:Ed; [|done]. intros [= H <-].
  apply New_inv in H as (signPriv & nodePriv & port & sd & Hk & _ & _ & _ & Ho & Ht & _). rewrite Ho, Ht.
  match goal with |- context [configure ne ?o ?t] => destruct (configure_spec ne o t) as [(_ & _ & _ & _ & _ & _ & _ & _ & Hh) _]; rewrite Hh end.
  match goal with |- context [NewTransfer ?a ?k ?b ?c ?x ?e ?g ?h ?i ?j ?l] => destruct (NewTransfer_spec a k b c x e g h i j l Hk) as (_ & _ & _ & Hh' & _) end.
  split_and!; try done; cbn; by destruct (profileOf (cf_Profile cfg)).
Qed.
