(* ===== verification/Update.v ===== *)
(** * The legacy update package (internal/update)

    Code no other package calls: the word-and-answer confirmation, the splitting of an
    update into segments, the sealing of new keys, and the loop that sends them.  It is
    modelled because it states what it means to do; several definitions do something else,
    which the examples record.  A datagram read is what arrives within the deadline. *)

From S2P Require Import Prelude Crypto Wire.

Definition udpPort : Z := 64512.
Definition confirmationRequests : list string := ["WIYD"; "WITEW"; "WID"].
Definition expectedResponses : list string := ["TSEW"; "TWFAD"; "IIOD"].

Record NetworkUpdateData : Type := mkUpdateData { nu_Nodes : list string; nu_Originator : string; nu_NewPubKey : string; nu_NewPrivKey : string; nu_NewHeader : string }.

(** ** The confirmation *)

(** One exchange as the side that asks sees it: whether the write and the deadline
    succeed, and the datagram read, if any. *)
Record exchange : Type := mkExchange { ex_written : bool; ex_deadline : bool; ex_read : option bytes }.

(** [buffer] holds five bytes, so the test of [n] always passes. *)
Definition confirm_step (expected : string) (result : bool) (e : exchange) : bool :=
  let result := if ex_written e then result else false in
  let result := if ex_deadline e then result else false in
  let result := match ex_read e with Some _ => result | None => false end in
  if bool_decide (take 5 (default [] (ex_read e)) = str_bytes expected) then true else result.

Fixpoint confirmation_loop (expected : list string) (result : bool) (es : list exchange) : bool :=
  match expected, es with
  | w :: ws, e :: es => confirmation_loop ws (confirm_step w result e) es
  | _, _ => result
  end.
Definition sendConfirmation (es : list exchange) : bool := confirmation_loop expectedResponses false es.

(** The answering side: the datagram read, and whether the answer could be written. *)
Fixpoint answer_loop (requests : list string) (result : bool) (es : list (option bytes * bool)) : bool :=
  match requests, es with
  | w :: ws, (read, wrote) :: es =>
      let result := match read with Some _ => result | None => false end in
      let result := if bool_decide (take 5 (default [] read) = str_bytes w) then true else result in
      answer_loop ws (if wrote then result else false) es
  | _, _ => result
  end.
Definition receiveConfirmation (es : list (option bytes * bool)) : bool := answer_loop confirmationRequests false es.

(** Two ends that answer each other confirm each other. *)
Lemma confirmation_agrees :
  sendConfirmation (map (fun r => mkExchange true true (Some (str_bytes r))) expectedResponses) = true /\
  receiveConfirmation (map (fun q => (Some (str_bytes q), true)) confirmationRequests) = true.
Proof. vm_compute. done. Qed.

(** The verdict is that of the last exchange that decided: one right answer followed by
    wrong ones confirms, and so does the last answer alone. *)
Example one_answer_confirms :
  sendConfirmation [mkExchange true true (Some (str_bytes "TSEW")); mkExchange true true (Some [x00]); mkExchange true true (Some [x00])] = true /\
  sendConfirmation [mkExchange false false None; mkExchange false false None; mkExchange true true (Some (str_bytes "IIOD"))] = true.
Proof. vm_compute. done. Qed.

(** ** Segments *)

(** [None]: the fuel ran out; a negative segment size makes the slice expression panic. *)
Inductive split_out : Type := SplitOk (segments : list bytes) | SplitPanic.
Fixpoint split_loop (fuel : nat) (maxDataSize : Z) (data : bytes) : option split_out :=
  if len data =? 0 then Some (SplitOk [])
  else
    let end_ := if len data <? maxDataSize then len data else maxDataSize in
    if end_ <? 0 then Some SplitPanic
    else match fuel with
         | O => None
         | S fuel =>
             match split_loop fuel maxDataSize (drop (Z.to_nat end_) data) with
             | Some (SplitOk segs) => Some (SplitOk (take (Z.to_nat end_) data :: segs))
             | r => r
             end
         end.
Definition splitUpdatePayload (fuel : nat) (data : bytes) (maxSegmentSize headerSize : Z) : option split_out := split_loop fuel (maxSegmentSize - headerSize) data.

Definition createSegmentWithHeader (data : bytes) (messageID totalSegments segmentIndex : Z) : bytes :=
  be_bytes 4 (u32 messageID) ++ be_bytes 4 (u32 totalSegments) ++ be_bytes 4 (u32 segmentIndex) ++ data.

(** An update splits into segments that fit and join to it again if a segment has room
    for data; without room for any the loop never ends, and with less the program
    panics. *)
Lemma split_update data maxSegmentSize headerSize :
  (headerSize < maxSegmentSize -> exists segs, splitUpdatePayload (length data) data maxSegmentSize headerSize = Some (SplitOk segs) /\ concat segs = data /\
    Forall (fun s => 1 <= len s <= maxSegmentSize - headerSize) segs) /\
  (data <> [] -> maxSegmentSize = headerSize -> forall fuel, splitUpdatePayload fuel data maxSegmentSize headerSize = None) /\
  (data <> [] -> maxSegmentSize < headerSize -> forall fuel, splitUpdatePayload fuel data maxSegmentSize headerSize = Some SplitPanic).
Proof.
  unfold splitUpdatePayload. set (m := maxSegmentSize - headerSize). split_and!.
  - intros Hm. assert (Hm' : 0 < m) by lia. clearbody m. clear Hm.
    enough (H : forall fuel data, (length data <= fuel)%nat -> exists segs, split_loop fuel m data = Some (SplitOk segs) /\ concat segs = data /\ Forall (fun s => 1 <= len s <= m) segs)
      by (by apply H).
    clear data. induction fuel as [|fuel IH]; intros data Hf; cbn [split_loop].
    + destruct data; [|cbn in Hf; lia]. by exists [].
    + destruct (Z.eqb_spec (len data) 0) as [E|E]; [exists []; destruct data; [done|rewrite len_cons in E; pose proof (len_nonneg data); lia]|].
      set (e := if len data <? m then len data else m). assert (He : 1 <= e <= len data /\ e <= m) by (unfold e; pose proof (len_nonneg data); destruct (Z.ltb_spec (len data) m); lia).
      destruct (Z.ltb_spec e 0); [lia|]. destruct (IH (drop (Z.to_nat e) data)) as (segs & -> & Hc & Hs); [rewrite length_drop; unfold len in *; lia|].
      eexists. split; [reflexivity|]. cbn [concat]. rewrite Hc, take_drop. split; [done|]. constructor; [|done]. unfold len in *. rewrite length_take. lia.
  - intros Hd Hm fuel. replace m with 0 by lia. clear Hm. induction fuel as [|fuel IH]; cbn [split_loop];
      (destruct (Z.eqb_spec (len data) 0) as [E|E]; [destruct data; [done|rewrite len_cons in E; pose proof (len_nonneg data); lia]|]);
      pose proof (len_nonneg data); (destruct (Z.ltb_spec (len data) 0); [lia|]); cbn [Z.ltb]; [done|]. change (0 <? 0) with false. change (Z.to_nat 0) with 0%nat. by rewrite drop_0, IH.
  - intros Hd Hm fuel. assert (m < 0) by lia. clearbody m. assert (E : len data <> 0) by (destruct data; [done|rewrite len_cons; pose proof (len_nonneg data); lia]).
    pose proof (len_nonneg data). destruct fuel; cbn [split_loop]; rewrite (proj2 (Z.eqb_neq _ _) E); destruct (Z.ltb_spec (len data) m); try lia; destruct (Z.ltb_spec m 0); (done || lia).
Qed.

(** ** Generating the keys (encryption.GenerateKeys, newKeys) *)

(** The two files of the directory. *)
Record key_dir : Type := mkKeyDir { kd_private : option bytes; kd_public : option bytes }.

(** [os.WriteFile] writes all, writes a part, or does not open the file. *)
Inductive written : Type := WrittenAll | WrittenPart (n : nat) | NotWritten.
Definition put_file (w : written) (data : bytes) (old : option bytes) : option bytes * bool :=
  match w with WrittenAll => (Some data, true) | WrittenPart n => (Some (take n data), false) | NotWritten => (old, false) end.

(** [priv]: the PEM block of the key [rsa.GenerateKey] makes, if it does; [pub]: that of
    its public half, if it can be marshalled. *)
Definition GenerateKeys (mkdir : bool) (priv : option bytes) (wpriv : written) (pub : option bytes) (wpub : written) (d : key_dir) : key_dir * bool :=
  if negb mkdir then (d, false)
  else match priv with
       | None => (d, false)
       | Some k =>
           let '(f, done) := put_file wpriv k (kd_private d) in
           let d := mkKeyDir f (kd_public d) in
           if negb done then (d, false)
           else match pub with
                | None => (d, false)
                | Some k => let '(f, done) := put_file wpub k (kd_public d) in (mkKeyDir (kd_private d) f, done)
                end
       end.

Definition newKeys (mkdir : bool) (priv : option bytes) (wpriv : written) (pub : option bytes) (wpub : written) (d : key_dir) : key_dir * Z :=
  let '(d, ok) := GenerateKeys mkdir priv wpriv pub wpub d in (d, if ok then 0 else 1).

(** [newKeys] reports success exactly if the new pair is on disk whole; the public file is
    only touched when the private one is new. *)
Lemma new_keys mkdir priv wpriv pub wpub d d' r :
  newKeys mkdir priv wpriv pub wpub d = (d', r) ->
  (r = 0 <-> mkdir = true /\ wpriv = WrittenAll /\ wpub = WrittenAll /\ exists a b, priv = Some a /\ pub = Some b /\ d' = mkKeyDir (Some a) (Some b)) /\
  (kd_public d' <> kd_public d -> exists a, priv = Some a /\ kd_private d' = Some a).
Proof.
  unfold newKeys, GenerateKeys, put_file. destruct mkdir; [|intros [= <- <-]; naive_solver]. cbn [negb].
  destruct priv as [a|]; [|intros [= <- <-]; naive_solver]. destruct wpriv; cbn; [|intros [= <- <-]; cbn; naive_solver..].
  destruct pub as [b|]; [|intros [= <- <-]; cbn; naive_solver]. destruct wpub; intros [= <- <-]; cbn; naive_solver.
Qed.

(** A run that fails half way leaves a private key beside another pair's public key,
    which [encryptUpdateData] reads without noticing. *)
Example half_a_pair :
  let d := mkKeyDir (Some [x01]) (Some [x01]) in
  newKeys true (Some [x02]) WrittenAll (Some [x02]) NotWritten d = (mkKeyDir (Some [x02]) (Some [x01]), 1).
Proof. reflexivity. Qed.

(** ** Sealing the keys *)

(** The struct marshalled has only unexported fields, which [encoding/json] leaves out. *)
Definition marshal_privPubKey (priv pub : bytes) : bytes := str_bytes "{}".

Definition aes_key_ok (key : bytes) : bool := (len key =? 16) || (len key =? 24) || (len key =? 32).

(** [privKey], [pubKey]: the key files, if they can be read; the error of the first read
    is overwritten by the second's.  [nonce] is drawn at random. *)
Definition encryptUpdateData `{C : CryptoOps} (privKey pubKey : option bytes) (key : bytes) (nonce : bytes) : option bytes :=
  match pubKey with
  | None => None
  | Some pub =>
      let byteKeys := marshal_privPubKey (default [] privKey) pub in
      if aes_key_ok key then Some (nonce ++ gcm_seal key nonce byteKeys []) else None
  end.

(** What is sealed does not depend on the keys. *)
Lemma update_carries_no_keys `{C : CryptoOps} priv pub priv' pub' key nonce :
  encryptUpdateData priv (Some pub) key nonce = encryptUpdateData priv' (Some pub') key nonce.
Proof. done. Qed.

(** ** Sending *)

(** Per node: whether its address resolves, whether the socket opens - if not the program
    panics on closing it - and the exchanges.  Returned: the nodes written to, or [None]
    when an address does not resolve. *)
Record target : Type := mkTarget { tg_resolves : bool; tg_dials : bool; tg_exchanges : list exchange }.
Inductive send_out : Type := Sent (nodes : list string) | SendError (nodes : list string) | SendPanic.
Fixpoint send_loop (originator : string) (net : string -> target) (sent : list string) (nodes : list string) : send_out :=
  match nodes with
  | [] => Sent sent
  | node :: nodes =>
      if String.eqb node originator then send_loop originator net sent nodes
      else if negb (tg_resolves (net node)) then SendError sent
      else if negb (tg_dials (net node)) then SendPanic
      else send_loop originator net (if sendConfirmation (tg_exchanges (net node)) then sent ++ [node] else sent) nodes
  end.

(** A nil key is dereferenced; the error of the sealing goroutine is read before it can
    have been set, so it does not stop the sending. *)
Definition SendUpdate (key : option bytes) (net : string -> target) (d : NetworkUpdateData) : send_out :=
  match key with
  | None => SendPanic
  | Some _ => send_loop (nu_Originator d) net [] (nu_Nodes d)
  end.

(** [StartUpdates] with a host name: the pre-shared key of a fresh [CurrentData] is nil. *)
Definition StartUpdates (hostname : string) (net : string -> target) : send_out :=
  SendUpdate None net (mkUpdateData ["node1"; "node2"] hostname "" "" "").

Lemma send_loop_confirmed originator net sent nodes l :
  send_loop originator net sent nodes = Sent l -> exists k, l = sent ++ k /\ forall n, n ∈ k -> n ∈ nodes /\ n <> originator /\ sendConfirmation (tg_exchanges (net n)) = true.
Proof.
  revert sent. induction nodes as [|n nodes IH]; intros sent; cbn [send_loop]; [intros [= <-]; exists []; split; [by rewrite app_nil_r|by intros ? ?%not_elem_of_nil]|].
  assert (Hk : forall k : list string, (forall n', n' ∈ k -> n' ∈ nodes /\ n' <> originator /\ sendConfirmation (tg_exchanges (net n')) = true) ->
    forall n', n' ∈ k -> n' ∈ n :: nodes /\ n' <> originator /\ sendConfirmation (tg_exchanges (net n')) = true).
  { intros k H n' Hn. apply H in Hn as (H1 & H2 & H3). split_and!; [by right|done|done]. }
  destruct (String.eqb_spec n originator) as [->|Hn]; [intros (k & -> & H)%IH; exists k; eauto|].
  destruct (tg_resolves _); [|done]. destruct (tg_dials _); [|done]. cbn [negb]. destruct (sendConfirmation _) eqn:Ec; intros (k & -> & H)%IH; [|exists k; eauto].
  exists (n :: k). split; [by rewrite <- app_assoc|]. intros n' [->|Hn']%elem_of_cons; [split_and!; [left|done|done]|by apply (Hk k)].
Qed.

Example start_updates_panics : StartUpdates "host" (fun _ => mkTarget true true []) = SendPanic.
Proof. reflexivity. Qed.
