(* ===== verification/Apps.v ===== *)
(** * The example programs (examples/file_sync, realtime_sync, secure_send)

    What the programs built on the library do with what it delivers: the file watcher
    with its handler and two of them together, the last-writer-wins state, and the
    retry loop of a confirmed send.  Time is in nanoseconds; [flag.Parse] is represented
    by the values it found. *)

From coqutil Require Import Datatypes.RecordSetters.
From S2P Require Import Prelude Crypto Wire Net Offline Node RelayMain.
Import DoubleBraceUpdate.

(** ** Command lines *)

Definition splitCSV (s : string) : list string := List.filter (fun p => negb (String.eqb p "")) (map trim_string (Split s)).

(** A list of plain targets is read back as written. *)
Lemma splitCSV_Join vals : vals <> [] -> Forall plain_target vals -> splitCSV (Join vals) = vals.
Proof.
  intros Hne Hp. unfold splitCSV. rewrite Split_Join by done. clear Hne. induction Hp as [|s t (Hs & _ & Hq) Ht IH]; [done|]. cbn [map List.filter].
  rewrite Hq, (proj2 (String.eqb_neq _ _) Hs). cbn [negb]. by rewrite IH.
Qed.

Section Options.
Context `{C : CryptoOps} (join : string -> string -> string).

Definition example_key : bytes := sha256 (str_bytes "syncswarm-example-shared-key").

Definition file_sync_options (dir : string) (disc : Z) (boot : string) : Options :=
  zeroOptions{{ o_StorageDir := join dir ".syncswarm"; o_Group := "ALL"%string; o_Key := example_key; o_DiscoveryPort := disc; o_DataPort := -1;
                o_BootstrapPeers := splitCSV boot; o_OnVariableReceived := true }}.

Definition realtime_sync_options (dir : string) (disc : Z) (boot : string) : Options :=
  zeroOptions{{ o_StorageDir := dir; o_Group := "ALL"%string; o_Key := example_key; o_DiscoveryPort := disc; o_DataPort := -1;
                o_BootstrapPeers := splitCSV boot; o_OnVariableReceived := true }}.

Definition secure_send_options (dir : string) (disc : Z) (boot : string) (relay : bool) (to : string) : Options :=
  zeroOptions{{ o_StorageDir := dir; o_Key := example_key; o_DiscoveryPort := disc; o_DataPort := -1; o_BootstrapPeers := splitCSV boot;
                o_Relay := relay; o_HopCount := 1; o_ConfirmDelivery := negb (String.eqb to ""); o_OnDataReceived := true }}.
End Options.

(** ** File sync *)

Record FileMsg : Type := mkFileMsg { fm_Path : string; fm_Content : bytes }.

(** A watched directory: its entries by name, a file with its modification time. *)
Inductive entry : Type := EDir | EFile (content : bytes) (mtime : Z).
Abbreviation folder := (gmap string entry).

(** [filepath.Base] on Unix. *)
Fixpoint drop_while (P : byte -> bool) (l : bytes) : bytes := match l with [] => [] | b :: t => if P b then drop_while P t else l end.
Fixpoint take_while (P : byte -> bool) (l : bytes) : bytes := match l with [] => [] | b :: t => if P b then b :: take_while P t else [] end.
Definition slash (b : byte) : bool := bool_decide (b = ch "/").
Definition Base (p : string) : string :=
  if String.eqb p "" then "."
  else
    let base := rev (take_while (fun b => negb (slash b)) (drop_while slash (rev (str_bytes p)))) in
    match base with [] => "/" | _ => bytes_str base end.

(** How [os.WriteFile] ends: whole, after a part, or without opening the file. *)
Inductive write_end : Type := WroteAll | WroteSome (n : nat) | NotOpened.

(** The callback: what arrives is written under its base name.  [Join] of the directory
    with [.], [..] or [/] is a directory, which cannot be written. *)
Definition OnVariableReceived (now : Z) (w : write_end) (v : option FileMsg) (d : folder) : folder :=
  match v with
  | None => d
  | Some m =>
      let target := Base (fm_Path m) in
      if existsb (String.eqb target) ["."; ".."; "/"]%string then d
      else match d !! target with
           | Some EDir => d
           | _ => match w with
                  | WroteAll => <[target := EFile (fm_Content m) now]> d
                  | WroteSome n => <[target := EFile (take n (fm_Content m)) now]> d
                  | NotOpened => d
                  end
           end
  end.

(** One turn of [watch]: [stat], [read] and [send] say which calls succeed.  [seen] is by
    name, the paths being those of one directory. *)
Definition consider (stat read send : string -> bool) (st : gmap string Z * list FileMsg) (e : string * entry) : gmap string Z * list FileMsg :=
  let '(seen, out) := st in
  let '(name, x) := e in
  match x with
  | EDir => st
  | EFile content mtime =>
      if String.eqb name ".syncswarm" then st
      else if negb (stat name) then st
      else if match seen !! name with Some last => negb (last <? mtime) | None => false end then st
      else if negb (read name) then st
      else if send name then (<[name := mtime]> seen, out ++ [mkFileMsg name content]) else st
  end.

Definition watch_pass (stat read send : string -> bool) (d : folder) (seen : gmap string Z) : gmap string Z * list FileMsg :=
  fold_left (consider stat read send) (ReadDir d) (seen, []).

(** The loop: [d] is read anew at each turn. *)
Fixpoint watch (turns : list (option folder * ((string -> bool) * (string -> bool) * (string -> bool)))) (seen : gmap string Z) : gmap string Z * list (list FileMsg) :=
  match turns with
  | [] => (seen, [])
  | (None, _) :: turns => let '(seen, outs) := watch turns seen in (seen, [] :: outs)
  | (Some d, (stat, read, send)) :: turns =>
      let '(seen, out) := watch_pass stat read send d seen in
      let '(seen, outs) := watch turns seen in (seen, out :: outs)
  end.

(** ** Realtime sync *)

Record StateUpdate : Type := mkUpdate { su_Counter : Z; su_LastMod : Z; su_Source : string }.

(** The zero [time.Time], the first of January of year 1. *)
Definition zeroTime : Z := -62135596800 * 1000000000.
Definition zeroUpdate : StateUpdate := mkUpdate 0 zeroTime "".

Definition OnUpdate (latest : StateUpdate) (v : option StateUpdate) : StateUpdate :=
  match v with
  | Some u => if su_LastMod latest <? su_LastMod u then u else latest
  | None => latest
  end.

(** A tick of [main]: what is broadcast; [latest] is not touched. *)
Definition realtime_tick (now : Z) (id : string) (counter : Z) : Z * StateUpdate :=
  (counter + 1, mkUpdate (counter + 1) now id).

(** ** Secure send *)

Definition sendWindow : Z := 30 * 1000000000.
Definition attemptPause : Z := 500 * 1000000.

Inductive attempt_end : Type := Delivered (attempts : nat) | TimedOut (attempts : nat).

(** The retry loop: the clock before each turn and what [SendTo] returned in it. *)
Fixpoint attempts (n : nat) (deadline : Z) (turns : list (Z * bool)) : option attempt_end :=
  match turns with
  | [] => None
  | (now, ok) :: turns =>
      if now <? deadline then if ok then Some (Delivered (S n)) else attempts (S n) deadline turns else Some (TimedOut n)
  end.
Definition secure_send_loop (start : Z) (turns : list (Z * bool)) : option attempt_end := attempts 0 (start + sendWindow) turns.

(** ** A turn of the watcher *)

Definition changed (stat read send : string -> bool) (seen : gmap string Z) (e : string * entry) : bool :=
  match e.2 with
  | EDir => false
  | EFile _ mtime =>
      negb (String.eqb e.1 ".syncswarm") && stat e.1 && match seen !! e.1 with Some last => last <? mtime | None => true end && read e.1 && send e.1
  end.
Definition msg_of (e : string * entry) : FileMsg := mkFileMsg e.1 match e.2 with EFile c _ => c | EDir => [] end.
Definition mtime_of (x : entry) : Z := match x with EFile _ m => m | EDir => 0 end.

Lemma consider_changed stat read send seen out e :
  consider stat read send (seen, out) e =
  if changed stat read send seen e then (<[e.1 := mtime_of e.2]> seen, out ++ [msg_of e]) else (seen, out).
Proof.
  destruct e as [name [|c m]]; cbn; [done|]. unfold changed. cbn. destruct (String.eqb name ".syncswarm"); cbn; [done|]. destruct (stat name); cbn; [|done].
  destruct (seen !! name) as [last|]; [destruct (last <? m); cbn; [|done]|]; destruct (read name); cbn; try done; by destruct (send name).
Qed.

(** A list of entries with different names. *)
Lemma pass_fold stat read send l : forall seen out, NoDup l.*1 ->
  let st := fold_left (consider stat read send) l (seen, out) in
  st.2 = out ++ map msg_of (List.filter (changed stat read send seen) l) /\
  forall name, st.1 !! name = match list_find (fun e => e.1 = name) l with
                              | Some (_, e) => if changed stat read send seen e then Some (mtime_of e.2) else seen !! name
                              | None => seen !! name
                              end.
Proof.
  induction l as [|e l IH]; intros seen out Hnd; cbn [fold_left]; [cbn; split; [by rewrite app_nil_r|done]|]. apply NoDup_cons in Hnd as [Hni Hnd].
  rewrite consider_changed. set (c := changed stat read send seen e).
  assert (Hsame : forall e', e' ∈ l -> changed stat read send (if c then <[e.1 := mtime_of e.2]> seen else seen) e' = changed stat read send seen e').
  { intros e' He. destruct c; [|done]. unfold changed. rewrite lookup_insert_ne; [done|]. intros Hn. apply Hni. rewrite Hn. by apply list_elem_of_fmap_2. }
  assert (Hfil : List.filter (changed stat read send (if c then <[e.1 := mtime_of e.2]> seen else seen)) l = List.filter (changed stat read send seen) l).
  { clear -Hsame. induction l as [|e' l IH]; [done|]. cbn [List.filter]. rewrite Hsame by left. rewrite IH; [done|]. intros x Hx. apply Hsame. by right. }
  assert (E : (if c then (<[e.1 := mtime_of e.2]> seen, out ++ [msg_of e]) else (seen, out)) =
              (if c then <[e.1 := mtime_of e.2]> seen else seen, out ++ if c then [msg_of e] else [])) by (destruct c; by rewrite ?app_nil_r).
  rewrite E. destruct (IH (if c then <[e.1 := mtime_of e.2]> seen else seen) (out ++ if c then [msg_of e] else []) Hnd) as [H1 H2]. cbv zeta in *. rewrite H1, Hfil. split.
  - cbn [List.filter]. fold c. destruct c; cbn [map]; by rewrite <- app_assoc.
  - intros name. rewrite H2. cbn [list_find]. destruct (decide (e.1 = name)) as [Hn|Hn].
    + assert (Hnone : list_find (fun e => e.1 = name) l = None).
      { apply list_find_None, Forall_forall. intros x Hx Hxn. apply Hni. rewrite Hn, <- Hxn. by apply list_elem_of_fmap_2. }
      rewrite Hnone. fold c. destruct c; [by rewrite <- Hn, lookup_insert_eq|done].
    + destruct (list_find _ l) as [[i e']|] eqn:Ef; cbn [option_fmap option_map prod_map fmap id]; unfold id; [|destruct c; [by rewrite lookup_insert_ne|done]].
      apply list_find_Some in Ef as (Hl & Hen & _). apply list_elem_of_lookup_2 in Hl. rewrite Hsame by done.
      cbn [fst snd]. destruct (changed _ _ _ seen e'); [done|]. destruct c; [by rewrite lookup_insert_ne|done].
Qed.

Lemma ReadDir_find {A} (m : gmap string A) name :
  match list_find (fun e => e.1 = name) (ReadDir m) with Some (_, e) => m !! name = Some e.2 /\ e.1 = name | None => m !! name = None end.
Proof.
  destruct (list_find _ _) as [[i e]|] eqn:E.
  - apply list_find_Some in E as (Hl & Hn & _). apply list_elem_of_lookup_2 in Hl. rewrite ReadDir_perm in Hl. destruct e as [k x]. apply elem_of_map_to_list in Hl. cbn in *. by subst k.
  - apply list_find_None in E. destruct (m !! name) as [x|] eqn:Ex; [|done]. exfalso. apply (proj1 (Forall_forall _ _) E (name, x)); [|done].
    rewrite ReadDir_perm. by apply elem_of_map_to_list.
Qed.
Lemma ReadDir_nodup {A} (m : gmap string A) : NoDup (ReadDir m).*1.
Proof. rewrite ReadDir_perm. apply NoDup_fst_map_to_list. Qed.

(** What a turn broadcasts and what it remembers. *)
Lemma pass_spec stat read send d seen :
  (watch_pass stat read send d seen).2 = map msg_of (List.filter (changed stat read send seen) (ReadDir d)) /\
  forall name, (watch_pass stat read send d seen).1 !! name =
    match d !! name with Some x => if changed stat read send seen (name, x) then Some (mtime_of x) else seen !! name | None => seen !! name end.
Proof.
  unfold watch_pass. destruct (pass_fold stat read send (ReadDir d) seen [] (ReadDir_nodup d)) as [H1 H2]. cbv zeta in *. split; [exact H1|].
  intros name. rewrite H2. pose proof (ReadDir_find d name) as Hf. destruct (list_find _ _) as [[i [k x]]|]; [|by rewrite Hf]. destruct Hf as [-> Hk]. cbn in Hk. by subst k.
Qed.

(** ** Two watchers *)

Record synced : Type := mkSynced { sy_dir : folder; sy_seen : gmap string Z }.

Definition always (_ : string) : bool := true.

(** The first node's turn, with what it broadcasts written by the second at [now]. *)
Definition exchange (now : Z) (x y : synced) : synced * synced * list FileMsg :=
  let '(seen, out) := watch_pass always always always (sy_dir x) (sy_seen x) in
  (mkSynced (sy_dir x) seen, mkSynced (fold_left (fun d m => OnVariableReceived now WroteAll (Some m) d) out (sy_dir y)) (sy_seen y), out).

Fixpoint alternate (times : list Z) (x y : synced) : list (list FileMsg) :=
  match times with
  | [] => []
  | t :: times => let '(x, y, out) := exchange t x y in out :: alternate times y x
  end.

(** A name [os.ReadDir] gives and the watcher does not skip. *)
Definition plain_name (n : string) : Prop := Base n = n /\ n ∉ ["."; ".."; "/"; ".syncswarm"]%string.
Definition listing (files : gmap string bytes) : list FileMsg := map (fun e => mkFileMsg e.1 e.2) (map_to_list files).

Section Echo.
Context (files : gmap string bytes) (Hplain : forall n, n ∈ dom files -> plain_name n).

(** All the files, none broadcast as it is, at the latest from [t]. *)
Definition to_send (t : Z) (x : synced) : Prop := forall n,
  match files !! n with
  | Some c => exists m, sy_dir x !! n = Some (EFile c m) /\ m <= t /\ forall s, sy_seen x !! n = Some s -> s < m
  | None => sy_dir x !! n = None /\ forall s, sy_seen x !! n = Some s -> s <= t
  end.
(** None but the files, nothing broadcast after [t]. *)
Definition to_receive (t : Z) (y : synced) : Prop := forall n,
  (forall s, sy_seen y !! n = Some s -> s <= t) /\ sy_dir y !! n <> Some EDir /\ (files !! n = None -> sy_dir y !! n = None).

Lemma to_send_changed t x n c m : to_send t x -> files !! n = Some c -> sy_dir x !! n = Some (EFile c m) -> changed always always always (sy_seen x) (n, EFile c m) = true.
Proof using Hplain.
  intros H Hn Hd. unfold changed, always. cbn. specialize (H n). rewrite Hn in H. destruct H as (m' & Hd' & _ & Hs). simplify_eq.
  assert (Hp : n <> ".syncswarm"%string) by (destruct (Hplain n) as [_ Hp]; [by apply elem_of_dom|set_solver]).
  rewrite (proj2 (String.eqb_neq _ _) Hp). cbn. destruct (sy_seen x !! n) as [s|]; [|done]. rewrite (proj2 (Z.ltb_lt _ _) (Hs s eq_refl)). done.
Qed.

Lemma to_send_out t x : to_send t x -> (watch_pass always always always (sy_dir x) (sy_seen x)).2 ≡ₚ listing files.
Proof using Hplain.
  intros H. destruct (pass_spec always always always (sy_dir x) (sy_seen x)) as [-> _].
  assert (Hf : List.filter (changed always always always (sy_seen x)) (ReadDir (sy_dir x)) = ReadDir (sy_dir x)).
  { apply List.forallb_filter_id, forallb_forall. intros [n e] He%list_elem_of_In. rewrite ReadDir_perm in He. apply elem_of_map_to_list in He.
    pose proof (H n) as Hn. destruct (files !! n) as [c|] eqn:Ec; [|destruct Hn; congruence]. destruct Hn as (m & Hd & _). simplify_eq. by eapply to_send_changed. }
  rewrite Hf, ReadDir_perm. apply NoDup_Permutation.
  - apply NoDup_fmap_2_strong; [|apply NoDup_map_to_list]. intros [n e] [n' e'] He%elem_of_map_to_list He'%elem_of_map_to_list [= -> _]. congruence.
  - apply NoDup_fmap_2_strong; [|apply NoDup_map_to_list]. intros [n e] [n' e'] _ _ [= -> ->]. done.
  - intros [n c]. unfold listing. rewrite !list_elem_of_fmap. split.
    + intros ([n' e] & [= -> ->] & He%elem_of_map_to_list). pose proof (H n') as Hn. destruct (files !! n') as [c'|] eqn:Ec; [|destruct Hn; congruence]. destruct Hn as (m & Hd & _). simplify_eq.
      exists (n', c'). split; [done|]. by apply elem_of_map_to_list.
    + intros ([n' c'] & [= -> ->] & Hc%elem_of_map_to_list). pose proof (H n') as Hn. rewrite Hc in Hn. destruct Hn as (m & Hd & _).
      exists (n', EFile c' m). split; [done|]. by apply elem_of_map_to_list.
Qed.

Lemma received_dir now out : forall d, (forall n, d !! n <> Some EDir) -> NoDup (map fm_Path out) -> Forall (fun m => plain_name (fm_Path m)) out ->
  forall n, fold_left (fun d m => OnVariableReceived now WroteAll (Some m) d) out d !! n =
    match list_find (fun m => fm_Path m = n) out with Some (_, m) => Some (EFile (fm_Content m) now) | None => d !! n end.
Proof using Hplain.
  induction out as [|m out IH]; intros d Hd Hnd Hp n; cbn [fold_left]; [done|]. apply NoDup_cons in Hnd as [Hni Hnd]. apply Forall_cons in Hp as [[Hb Hs] Hp].
  assert (Hone : OnVariableReceived now WroteAll (Some m) d = <[fm_Path m := EFile (fm_Content m) now]> d).
  { cbn [OnVariableReceived]. rewrite Hb. assert (He : existsb (String.eqb (fm_Path m)) ["."; ".."; "/"]%string = false).
    { apply not_true_iff_false. intros (x & Hx%list_elem_of_In & Hxe%String.eqb_eq)%existsb_exists. subst x. set_solver. }
    rewrite He. destruct (d !! fm_Path m) as [[]|] eqn:E; try done. by destruct (Hd (fm_Path m)). }
  rewrite Hone. rewrite IH; [|intros k; rewrite lookup_insert; case_decide; [done|apply Hd]|done|done]. cbn [list_find]. destruct (decide (fm_Path m = n)) as [Hn|Hn].
  - assert (Hnone : list_find (fun m => fm_Path m = n) out = None).
    { apply list_find_None, Forall_forall. intros x Hx Hxn. apply Hni. rewrite Hn, <- Hxn. by apply list_elem_of_fmap_2. }
    by rewrite Hnone, <- Hn, lookup_insert_eq.
  - rewrite lookup_insert_ne by done. by destruct (list_find _ out) as [[]|].
Qed.

Lemma exchange_swaps t now x y : t < now -> to_send t x -> to_receive t y ->
  let '(x', y', out) := exchange now x y in out ≡ₚ listing files /\ to_send now y' /\ to_receive now x'.
Proof using Hplain.
  intros Ht Hx Hy. unfold exchange. pose proof (to_send_out t x Hx) as Ho. destruct (pass_spec always always always (sy_dir x) (sy_seen x)) as [_ Hs].
  destruct (watch_pass _ _ _ _ _) as [seen out]. cbn [fst snd] in *. split; [done|].
  assert (Hnames : map fm_Path out ≡ₚ (map_to_list files).*1).
  { rewrite Ho. unfold listing. rewrite map_map. cbn [fm_Path]. change (map (fun x : string * bytes => x.1) (map_to_list files)) with ((map_to_list files).*1). done. }
  assert (Hfind : forall n, match list_find (fun m => fm_Path m = n) out with Some (_, m) => files !! n = Some (fm_Content m) | None => files !! n = None end).
  { intros n. destruct (list_find _ out) as [[i m]|] eqn:E.
    - apply list_find_Some in E as (Hl & Hn & _). apply list_elem_of_lookup_2 in Hl. rewrite Ho in Hl. apply list_elem_of_fmap in Hl as ([k c] & -> & Hk%elem_of_map_to_list). cbn in Hn. by subst k.
    - apply list_find_None in E. destruct (files !! n) as [c|] eqn:Ec; [|done]. exfalso. apply (proj1 (Forall_forall _ _) E (mkFileMsg n c)); [|done].
      rewrite Ho. apply list_elem_of_fmap. exists (n, c). split; [done|]. by apply elem_of_map_to_list. }
  pose proof (received_dir now out (sy_dir y) (fun n => proj1 (proj2 (Hy n))) ltac:(rewrite Hnames; apply NoDup_fst_map_to_list)
    ltac:(apply Forall_forall; intros m Hm; apply Hplain, elem_of_dom; apply (list_elem_of_fmap_2 fm_Path) in Hm; rewrite Hnames in Hm;
          apply list_elem_of_fmap in Hm as ([k c] & -> & Hk%elem_of_map_to_list); by exists c)) as Hd.
  split; intros n; cbn [sy_dir sy_seen].
  - rewrite Hd. pose proof (Hfind n) as Hn. destruct (list_find _ out) as [[i m]|]; rewrite Hn; [|split; [by apply Hy|intros s Hsn; destruct (Hy n) as [Hys _]; specialize (Hys s Hsn); lia]].
    exists now. split; [done|]. split; [lia|]. intros s Hsn. destruct (Hy n) as [Hys _]. specialize (Hys s Hsn). lia.
  - pose proof (Hx n) as Hn. rewrite Hs. destruct (files !! n) as [c|] eqn:Ec.
    + destruct Hn as (m & Hdm & Hm & Hsm). rewrite Hdm, (to_send_changed t x n c m Hx Ec Hdm). cbn. split_and!; [intros s [= <-]; lia|done|done].
    + destruct Hn as [Hn Hsm]. rewrite Hn. split_and!; [|done|done]. intros s Hsn. specialize (Hsm s Hsn). lia.
Qed.
End Echo.

(** ** Claims *)

(** A turn of the watcher reports exactly what is new.  It broadcasts, in the order of
    their names, the files that are not the storage directory, that can be examined and
    read, whose modification time is later than at their last broadcast, and whose
    broadcast succeeds; and a second turn over the unchanged directory in which every
    call succeeds broadcasts exactly those the first turn failed on. *)
Theorem watch_reports stat read send d seen :
  let '(seen', out) := watch_pass stat read send d seen in
  out = map msg_of (List.filter (changed stat read send seen) (ReadDir d)) /\
  (watch_pass always always always d seen').2 =
    map msg_of (List.filter (fun e => changed always always always seen e && negb (stat e.1 && read e.1 && send e.1)) (ReadDir d)).
Proof.
  pose proof (pass_spec stat read send d seen) as [H1 H2]. destruct (watch_pass stat read send d seen) as [seen' out]. cbn [fst snd] in *. split; [exact H1|].
  rewrite (proj1 (pass_spec always always always d seen')). f_equal. apply List.filter_ext_in. intros [n x] He%list_elem_of_In. rewrite ReadDir_perm in He.
  apply elem_of_map_to_list in He. specialize (H2 n). rewrite He in H2. unfold changed in *. cbn [fst snd] in *. destruct x as [|c m]; [done|]. rewrite H2. unfold always. cbn [mtime_of].
  destruct (String.eqb n ".syncswarm"); [done|]. cbn [negb andb]. rewrite !andb_true_r.
  destruct (stat n), (read n), (send n), (seen !! n) as [l|]; cbn; rewrite ?andb_true_r, ?andb_false_r; try done; try (destruct (Z.ltb_spec l m); cbn); try done;
    try (by rewrite Z.ltb_irrefl); apply Z.ltb_ge; lia.
Qed.

(** File sync never settles.  Two nodes watch, one with any set of plainly named
    files, the other with an empty directory; every broadcast arrives and the clock
    advances.  Then in every turn of either node, for ever, all the files are broadcast
    again, with the contents they began with: writing what arrives gives it a new
    modification time, which the receiver's next turn takes for a change. *)
Theorem file_sync_echo files t0 times :
  (forall n, n ∈ dom files -> plain_name n) -> StronglySorted Z.lt (t0 :: times) ->
  let outs := alternate times (mkSynced ((fun c => EFile c t0) <$> files) ∅) (mkSynced ∅ ∅) in
  length outs = length times /\ Forall (fun out => out ≡ₚ listing files) outs.
Proof.
  intros Hp Hs outs. assert (Hgen : forall times t x y, StronglySorted Z.lt (t :: times) -> to_send files t x -> to_receive files t y ->
    length (alternate times x y) = length times /\ Forall (fun out => out ≡ₚ listing files) (alternate times x y)).
  { clear -Hp. induction times as [|now times IH]; intros t x y Hs Hx Hy; [done|]. apply StronglySorted_inv in Hs as [Hs [Ht _]%Forall_cons]. cbn [alternate].
    pose proof (exchange_swaps files Hp t now x y Ht Hx Hy) as He. destruct (exchange now x y) as [[x' y'] out]. destruct He as (Ho & Hy' & Hx').
    destruct (IH now y' x' Hs Hy' Hx') as [H1 H2]. split; [cbn; lia|by constructor]. }
  apply (Hgen times t0); [done| |].
  - intros n. cbn. rewrite lookup_fmap, lookup_empty. destruct (files !! n) as [c|]; cbn; [|done]. exists t0. split_and!; [done|lia|done].
  - intros n. cbn. rewrite !lookup_empty. done.
Qed.

(** The state a node ends with is the latest of the updates, or the zero state. *)
Lemma latest_spec l : forall z, let r := fold_left OnUpdate (map Some l) z in
  (r = z \/ (r ∈ l /\ su_LastMod z < su_LastMod r)) /\ forall u, u ∈ z :: l -> su_LastMod u <= su_LastMod r.
Proof.
  induction l as [|u l IH]; intros z; cbn [map fold_left].
  - split; [by left|]. intros u ->%list_elem_of_singleton. done.
  - destruct (IH (OnUpdate z (Some u))) as [H1 H2]. cbn [OnUpdate] in *. set (z' := if su_LastMod z <? su_LastMod u then u else z) in *. cbv zeta in *.
    assert (Hz : su_LastMod z <= su_LastMod z' /\ su_LastMod u <= su_LastMod z' /\ (z' = z \/ (z' = u /\ su_LastMod z < su_LastMod u)))
      by (unfold z'; destruct (Z.ltb_spec (su_LastMod z) (su_LastMod u)); split_and!; try lia; auto).
    destruct Hz as (Hz & Hu & Hc). pose proof (H2 z' ltac:(left)) as Hz'. split.
    + destruct H1 as [H1|[H1 H3]].
      * destruct Hc as [Hc|[Hc Hl]]; [left; congruence|]. right. rewrite H1, Hc. split; [left|lia].
      * right. split; [by right|lia].
    + intros v [->|[->|Hv]%elem_of_cons]%elem_of_cons; [lia|lia|]. apply H2. by right.
Qed.

(** The latest update wins.  Nodes that receive the same updates, in whatever order
    and with whatever else that is no update, hold the same state, provided no two
    different updates carry the same time: the one with the latest time, if any is
    later than the zero time. *)
Theorem realtime_converges (l l' : list (option StateUpdate)) :
  omap id l ≡ₚ omap id l' -> (forall u v, u ∈ omap id l -> v ∈ omap id l -> su_LastMod u = su_LastMod v -> u = v) ->
  fold_left OnUpdate l zeroUpdate = fold_left OnUpdate l' zeroUpdate /\
  forall u, u ∈ omap id l -> su_LastMod u <= su_LastMod (fold_left OnUpdate l zeroUpdate).
Proof.
  assert (Hskip : forall l z, fold_left OnUpdate l z = fold_left OnUpdate (map Some (omap id l)) z).
  { clear. induction l as [|[u|] l IH]; intros z; [done|apply IH|apply IH]. }
  intros Hp Hu. rewrite (Hskip l), (Hskip l'). pose proof (latest_spec (omap id l) zeroUpdate) as [H1 H2]. pose proof (latest_spec (omap id l') zeroUpdate) as [H1' H2'].
  cbv zeta in *. set (r := fold_left _ (map Some (omap id l)) _) in *. set (r' := fold_left _ (map Some (omap id l')) _) in *. split; [|intros u Hin; apply H2; by right].
  assert (Hge : su_LastMod r <= su_LastMod r').
  { destruct H1 as [->|[H1 _]]; [apply H2'; left|]. apply H2'. right. by rewrite <- Hp. }
  assert (Hle : su_LastMod r' <= su_LastMod r).
  { destruct H1' as [->|[H1' _]]; [apply H2; left|]. apply H2. right. by rewrite Hp. }
  destruct H1 as [->|[H1 Hl]], H1' as [->|[H1' Hl']]; [done|lia|lia|]. apply Hu; [done|by rewrite Hp|lia].
Qed.

(** The attempts that came to nothing, up to the [k]-th turn. *)
Definition failed_before (deadline : Z) (turns : list (Z * bool)) (k : nat) : Prop :=
  forall i a, (i < k)%nat -> turns !! i = Some a -> a.1 < deadline /\ a.2 = false.

Lemma failed_S deadline now turns k : now < deadline -> failed_before deadline turns k -> failed_before deadline ((now, false) :: turns) (S k).
Proof. intros Hn H [|i] a Hi; cbn; [by intros [= <-]|]. intros Ha. apply (H i); [lia|done]. Qed.

Lemma attempts_cases deadline turns : forall n,
  match attempts n deadline turns with
  | None => failed_before deadline turns (length turns)
  | Some (TimedOut m) => exists k a, m = (n + k)%nat /\ turns !! k = Some a /\ deadline <= a.1 /\ failed_before deadline turns k
  | Some (Delivered m) => exists k now, m = (n + S k)%nat /\ turns !! k = Some (now, true) /\ now < deadline /\ failed_before deadline turns k
  end.
Proof.
  induction turns as [|[now ok] turns IH]; intros n; cbn [attempts]; [intros i a Hi; cbn in Hi; lia|]. destruct (Z.ltb_spec now deadline) as [Hn|Hn].
  - destruct ok; [exists 0%nat, now; split_and!; [lia|done|done|intros i a Hi; lia]|]. specialize (IH (S n)). destruct (attempts (S n) deadline turns) as [[m|m]|].
    + destruct IH as (k & t & -> & Ht & Hl & Hf). exists (S k), t. split_and!; [lia|done|done|by apply failed_S].
    + destruct IH as (k & a & -> & Ha & Hl & Hf). exists (S k), a. split_and!; [lia|done|done|by apply failed_S].
    + by apply failed_S.
  - exists 0%nat, (now, ok). split_and!; [lia|done|done|intros i a Hi; lia].
Qed.

(** The retry loop ends.  With a clock that advances by at least the pause between
    turns, it makes at most sixty attempts; it reports delivery exactly if an attempt
    that began before the deadline succeeded, all before it having failed. *)
Theorem secure_send_ends start turns :
  (forall i a b, turns !! i = Some a -> turns !! S i = Some b -> a.1 + attemptPause <= b.1) ->
  (forall a, turns !! 0%nat = Some a -> start <= a.1) ->
  ((60 < length turns)%nat -> secure_send_loop start turns <> None) /\
  (forall n, (secure_send_loop start turns = Some (Delivered n) <->
      exists k now, n = S k /\ turns !! k = Some (now, true) /\ now < start + sendWindow /\ failed_before (start + sendWindow) turns k) /\
    (secure_send_loop start turns = Some (Delivered n) \/ secure_send_loop start turns = Some (TimedOut n) -> (n <= 60)%nat)).
Proof.
  intros Hc H0. set (D := start + sendWindow). assert (Hat : forall i a, turns !! i = Some a -> start + Z.of_nat i * attemptPause <= a.1).
  { induction i as [|i IH]; intros a Ha; [specialize (H0 a Ha); lia|]. destruct (turns !! i) as [b|] eqn:Eb; [|apply lookup_ge_None in Eb; apply lookup_lt_Some in Ha; lia].
    specialize (Hc i b a Eb Ha). specialize (IH b eq_refl). lia. }
  assert (Hcount : forall k, failed_before D turns k -> (k <= length turns)%nat -> (k <= 60)%nat).
  { intros k Hf Hk. destruct (decide (k <= 60)%nat) as [|Hk']; [done|]. destruct (turns !! 60%nat) as [a|] eqn:Ea; [|apply lookup_ge_None in Ea; lia].
    destruct (Hf 60%nat a ltac:(lia) Ea) as [Hl _]. specialize (Hat _ _ Ea). unfold D, sendWindow, attemptPause in *. lia. }
  unfold secure_send_loop. fold D. pose proof (attempts_cases D turns 0) as Hcases. split.
  - intros Hlen E. rewrite E in Hcases. specialize (Hcount _ Hcases). lia.
  - intros n. split.
    + split; [intros E; rewrite E in Hcases; exact Hcases|]. intros (k & now & -> & Hk & Hn & Hf). pose proof (lookup_lt_Some _ _ _ Hk) as Hlk.
      destruct (attempts 0 D turns) as [[m|m]|].
      * destruct Hcases as (k' & now' & -> & Hk' & Hn' & Hf'). do 2 f_equal. destruct (Nat.lt_trichotomy k k') as [Hl|[->|Hl]]; [|lia|];
          [destruct (Hf' _ _ Hl Hk)|destruct (Hf _ _ Hl Hk')]; done.
      * destruct Hcases as (k' & a & -> & Hk' & Hn' & Hf'). exfalso. destruct (Nat.lt_trichotomy k k') as [Hl|[->|Hl]].
        -- by destruct (Hf' _ _ Hl Hk).
        -- simplify_eq. cbn in Hn'. lia.
        -- destruct (Hf _ _ Hl Hk'). lia.
      * by destruct (Hcases _ _ Hlk Hk).
    + intros [E|E]; rewrite E in Hcases.
      * destruct Hcases as (k & now & -> & Hk & Hn & Hf). pose proof (lookup_lt_Some _ _ _ Hk) as Hlk. specialize (Hat _ _ Hk). cbn [fst] in Hat.
        unfold D, sendWindow, attemptPause in *. lia.
      * destruct Hcases as (k & a & -> & Hk & Hn & Hf). apply (Hcount k Hf). apply lookup_lt_Some in Hk. lia.
Qed.

(** ** Witnesses *)

Definition two_files : gmap string bytes := {["a.txt" := [x01]; "b" := []]}%string.

Lemma file_sync_echo_witness :
  Forall (fun out => out ≡ₚ [mkFileMsg "a.txt" [x01]; mkFileMsg "b" []]) (alternate [10; 20; 30; 40] (mkSynced ((fun c => EFile c 5) <$> two_files) ∅) (mkSynced ∅ ∅)).
Proof.
  destruct (file_sync_echo two_files 5 [10; 20; 30; 40]) as [_ H].
  - assert (Hd : forall n, n ∈ dom two_files -> n = "a.txt"%string \/ n = "b"%string) by (unfold two_files; set_solver).
    intros n [->| ->]%Hd; (split; [vm_compute; reflexivity|set_solver]).
  - repeat constructor; lia.
  - eapply Forall_impl; [exact H|]. intros out ->. vm_compute. reflexivity.
Defined.

(** Two edits made at the same time are exchanged, and exchanged back, for ever. *)
Example file_sync_swaps :
  let x := mkSynced {["f"%string := EFile [x01] 5]} ∅ in
  let y := mkSynced {["f"%string := EFile [x02] 6]} ∅ in
  let '(sx, ox) := watch_pass always always always (sy_dir x) (sy_seen x) in
  let '(sy, oy) := watch_pass always always always (sy_dir y) (sy_seen y) in
  let dx := fold_left (fun d m => OnVariableReceived 10 WroteAll (Some m) d) oy (sy_dir x) in
  let dy := fold_left (fun d m => OnVariableReceived 10 WroteAll (Some m) d) ox (sy_dir y) in
  dx = {["f"%string := EFile [x02] 10]} /\ dy = {["f"%string := EFile [x01] 10]} /\
  (watch_pass always always always dx sx).2 = [mkFileMsg "f" [x02]] /\ (watch_pass always always always dy sy).2 = [mkFileMsg "f" [x01]].
Proof. vm_compute. done. Qed.

(** What arrives stays in the directory, whatever path it names. *)
Example hostile_paths :
  map Base ["../../etc/passwd"; "a/b/"; ".."; ""; "///"; "plain"]%string = ["passwd"; "b"; ".."; "."; "/"; "plain"]%string.
Proof. vm_compute. done. Qed.

Lemma realtime_converges_witness :
  let u := mkUpdate 1 10 "a" in let v := mkUpdate 4 7 "b" in
  fold_left OnUpdate [Some u; None; Some v] zeroUpdate = fold_left OnUpdate [Some v; Some u] zeroUpdate.
Proof.
  cbv zeta. refine (proj1 (realtime_converges _ _ _ _)).
  - cbn. apply perm_swap.
  - cbn. intros u v Hu Hv. rewrite !elem_of_cons in Hu, Hv. destruct Hu as [->|[->|Hu]], Hv as [->|[->|Hv]]; try done; try (cbn; lia); by apply not_elem_of_nil in Hu || by apply not_elem_of_nil in Hv.
Defined.

(** A node is not among the receivers of its own broadcast: the one that made the latest
    update keeps an older state than all others. *)
Example sender_stays_behind :
  let '(_, u) := realtime_tick 20 "a" 0 in
  let '(_, v) := realtime_tick 10 "b" 0 in
  fold_left OnUpdate [Some v] zeroUpdate = v /\ fold_left OnUpdate [Some u] zeroUpdate = u /\ u <> v.
Proof. vm_compute. done. Qed.

(** Of two updates with the same time the first to arrive is kept. *)
Example ties_diverge :
  let u := mkUpdate 1 10 "a" in let v := mkUpdate 1 10 "b" in
  fold_left OnUpdate [Some u; Some v] zeroUpdate <> fold_left OnUpdate [Some v; Some u] zeroUpdate.
Proof. vm_compute. done. Qed.

Lemma secure_send_ends_witness : secure_send_loop 0 [(0, false); (600000000, false); (1200000000, true)] = Some (Delivered 3).
Proof.
  destruct (secure_send_ends 0 [(0, false); (600000000, false); (1200000000, true)]) as [_ H].
  - intros [|[|[|i]]] a b; cbn; intros [= <-] [= <-]; unfold attemptPause; cbn; lia.
  - cbn. intros a [= <-]. cbn. lia.
  - apply (H 3%nat). exists 2%nat, 1200000000. split_and!; [done|done|unfold sendWindow; lia|].
    intros [|[|[|i]]] a Hi; cbn; intros [= <-]; cbn; try lia; split; (unfold sendWindow; lia) || done.
Defined.
